(* ===== verification/_CoqProject ===== *)
-Q . S2P
Prelude.v
PyStr.v
PyText.v
ShellWords.v
GhReads.v
Markers.v
ReviewModels.v
TextMatch.v
Findings.v
FindingsProps.v
ReviewDebt.v
Enums.v
Tasks.v
World.v
Adjudication.v
AdjudicationProps.v
ConvergenceModels.v
Convergence.v
MergeTolerance.v
ConvergenceProps.v
ConvergenceLife.v
ConvergenceSafety.v
ConvergenceRounds.v
ConvergenceSettle.v
MergeToleranceProps.v
Vocab.v
RearmOwed.v
Lifecycle.v
GateBackoff.v
ClaimEvidence.v
Clients.v
LanePause.v
Crud.v
CrudProps.v
PrHydrate.v
PrHydrateProps.v
LaneCircuit.v
LaneCircuitProps.v
LaneDispatch.v
ScopeTier.v
ReviewGates.v
Requeue.v
RequeueProps.v
RequeueContract.v
PlanFingerprint.v
RowOutcome.v
Approval.v
ApprovalProps.v
ApprovalContract.v
ShippedRed.v
ShippedRedProps.v
ShippedRedContract.v
Probes.v
QueueRows.v
Backstops.v
Screening.v
ScreeningProps.v
ClaimOrder.v
ClaimContract.v
QueueRowsProps.v
BackstopsProps.v
LostSessions.v
LostSessionsProps.v
Spawn.v
SpawnProps.v
SpawnContract.v
ClaimSlots.v
NextCommands.v
MustFixOverride.v
QueueReach.v
ApprovalDemo.v
ClaimDemo.v
NextCommandsProps.v
SignalsDemo.v
SweepsDemo.v
StageWalk.v
StageFailure.v
Routing.v
RoutingProps.v
LockGuard.v
