(* ===== verification/Prelude.v ===== *)
(** * The dispatch core of claude-workspace

    claude-workspace ([src/src/cw]) dispatches coding-agent sessions over
    queued tickets.  A ticket is a row ([TicketTask]) of the dev queue; the
    dispatch loop claims pending rows lane by lane and spawns a session for
    each; when the session ends, its AUTO_DEV_RESULT sentinel (a JSON payload)
    is routed: the row advances through its pipeline (plan, implement, review,
    finalize), parks for the operator, is retried, sent back, or completed.
    The operator approves, requeues, unblocks and drains parked rows; a REVIEW
    stage runs reviewers whose findings are matched, adjudicated and converged
    over rounds.  This library models that core as executable definitions and
    proves what it promises.

    ** Files and what they model

    Foundations.
    - [Prelude]: record update, the state-and-exception monad [M S A] with its
      weakest precondition ([returns]), exceptions, Python list lookup,
      automation.  [PyStr]: JSON payloads, the string functions the code
      calls, [isoformat], [repr].  [PyText]: text by code points.
    - [Enums], [Tasks]: [models/enums.py], [models/tasks.py], the sub-models
      and the row's validators.  [World]: the state a row operation runs on -
      one row mutated in place, the durable inbox ([record_event]), the clock.
      [Vocab]: the sentinel vocabulary, [dev_queue/dispositions.py],
      [dev_queue/gates.py].  [Clients]: client, lane and pipeline
      configuration and its resolvers ([executor/_resolve.py]).

    A row's life.
    - [Lifecycle] ([dev_queue/lifecycle.py]), the only writer of a row's status
      and stage, with [RearmOwed], [GateBackoff] and [ClaimEvidence].
    - [Crud], [CrudProps]: the queue file ([QueueWorld]) and [dev_queue/crud.py],
      adoption's conflict scan and pin, [wait_for_terminal].
    - [QueueRows] ([queue_rows.py]): the locked mutators that re-find one
      running row (revert, park, spawn stamp).  [QueueRowsProps].
    - [Screening] ([dispatch/claim/screening.py]): the claim transaction with
      its screens, gates and parks; [ScreeningProps] puts one row's gauntlet in
      closed form ([verdict_of]), [ClaimOrder] folds it over the two claim
      loops, [ClaimContract] states the claim's contract.
    - [Spawn] ([dispatch/claim/spawn.py], [claimed_row.py],
      [codex_capability.py], [gating/context_json.py]): one spawn over
      [SpawnWorld] - the queue, the workers launched, the codex probe cache.
      [SpawnProps] walks it with weakest preconditions to [spawn_ends], the
      ways it can end; [SpawnContract].
    - [LanePause], [LaneCircuit], [LaneCircuitProps]: the override file, the
      per-lane breaker and the abstract machine of one lane ([lane_change])
      every operation refines.  [LaneDispatch]: a
      client's turn of a tick and the host budget, over an oracle of claims;
      [ClaimSlots]: the claim loop on the real queue, shown to be such an
      oracle.
    - [ScopeTier], [ReviewGates], [StageWalk], [StageFailure], [RowOutcome],
      [Routing], [RoutingProps]: [dispatch/routing/*] and the ship gates, from
      [apply_staged_decision] down.

    The operator.
    - [Requeue], [RequeueProps], [RequeueContract]: [dev_queue/requeue.py],
      [drain.py], the requeue side of [adoption.py].
    - [PlanFingerprint]: [plan_fingerprint.py] over an
      executable SHA-256.  [Approval], [ApprovalProps], [ApprovalContract]:
      [dev_queue/approval.py], [plan_promotion.py], [scope_drift.py].
    - [ShellWords], [NextCommands], [NextCommandsProps]:
      [dev_queue/next_commands.py], the table from a row's state to the command
      lines the operator may run, over a model of [shlex].
    - [MustFixOverride]: [dev_queue/must_fix_override.py].
    - [QueueReach]: the writers of the rows as one step relation.
      [ApprovalDemo], [ClaimDemo], [SignalsDemo]: the theorems at concrete
      inputs.

    The pull request.
    - [GhReads] ([gh/pr_reads.py], [gh/merged.py]): what the reads make of
      [gh]'s answers, and whether a ticket's pull request merged.
      [PrHydrate], [PrHydrateProps] ([pr_hydrate.py]): the poll and the pushed
      events behind a row's [pr_state].
    - [ShippedRed], [ShippedRedProps], [ShippedRedContract]:
      [shipped_pr_signal.py], [shipped_pr_recovery.py],
      [dev_queue/shipped_red.py], [red_pr_recovery.py], [pr_unarm.py] - the
      sweep that pages a shipped pull request whose checks fail, and the
      recovery that disarms it and takes the row back.
    - [LockGuard]: [_lock_guard.py], one thread's stack of held locks.

    The reconciler.
    - [Probes] ([reconcile/probe_store.py], [dirty_checks.py]): the worktree
      checks captured before the lock, and the latch of their outages.
    - [Backstops] ([reconcile/tasks.py], [concierge/cancelled_row.py]): the
      sweeps over [RecWorld], the queue with its inbox, the session file and an
      event cursor.  [BackstopsProps] has the lemma that runs every sweep, the
      contracts of the backstop, the completions and the gate releases, and
      what a restore of cancelled rows opens.
    - [LostSessions] ([reconcile/lost_session_rows.py], [unowned_running.py]):
      RUNNING rows without their session.  [LostSessionsProps];
      [SweepsDemo] has the sweeps at concrete inputs.

    The review.
    - [Markers], [ReviewModels], [TextMatch], [Findings], [FindingsProps]:
      [review_findings/*], [review_markers.py] - quotes matched against a diff,
      classification, merging, the verdict.
      [ReviewDebt] ([review_debt.py]): the identity of a finding across
      rounds, and the debt kept by it.
    - [Adjudication], [AdjudicationProps]: [review_adjudication/*].
    - [ConvergenceModels], [Convergence], [MergeTolerance] and their
      properties ([ConvergenceProps], [ConvergenceLife], [ConvergenceSafety],
      [ConvergenceRounds], [ConvergenceSettle], [MergeToleranceProps]):
      [review_convergence/*], [merge_probe.py], the command of
      [cli/review/operator_settle.py] up to its save.

    Definitions keep the source's names; a helper cut out of a long body has a
    name of its own and the same order of tests and writes.

    ** How the parts fit

    [dispatch_clients] runs each client's lanes; a slot of a lane is
    [_claim_next_pending] then [_spawn_claimed_task] ([claim_slot]); a failed
    spawn calls the breaker; a claimed session ends in [apply_staged_decision],
    which runs the stage walk, the REVIEW gates and one of six rules, all of
    which write the row through [Lifecycle].  A REVIEW sentinel is made from
    [Findings], [Adjudication] and [Convergence], whose accepted tip the
    FINALIZE gates check.  The operator's commands are [Crud], [Requeue],
    [Approval] (rows) and [LaneCircuit] (lanes).

    A file is loaded, mutated and saved under one lock, so an operation is one
    atomic step on its store.  Races are modelled where the code has them: a
    spawn releases the lock between its sections, each of which re-finds the
    row and may fail; a drain meets other writers ([Ambient]); the overrides a
    caller loaded before the lock are an argument distinct from the store; a
    sweep of the reconciler meets other writers between its reads and its locks
    ([others]), and its latch other threads ([outage_step]).

    ** What the theorems show

    - Claims and spawns: a claim takes exactly the best ready row and parks
      what a gate holds, uncharged; when a spawn returns, the row runs exactly
      if a worker was launched, and only a fault of the queue file or the inbox
      makes it not return; what each failure charges; a claim released over an
      occupied tree is undone; a lane never runs more rows than its cap.
    - Queue: at most one open row per ticket over every history of the writers
      of [QueueReach], and exactly when a restore of cancelled rows breaks it;
      what the operator's commands do on every branch, refusals
      included; a prediction and its call agree; a drain ends and releases
      exactly what it selected; an approval is bound to the draft or commit it
      names; failed approvals restore what they touched, revocations and
      scope-drift grants are audited; a MUST_FIX override is bound to the
      verdict it was given for.
    - The operator's commands: for a row that is no adoption park, each command
      the table lists splits in the shell into one that its command line parses
      and its operation accepts; a gate a human keeps is never offered to an
      agent.
    - Pull requests: a pushed event leaves what a poll would when the comment
      signal was visible; an open red
      episode has its page whatever fails between the two writes; a page is for
      a fresh episode of an armed, failing head; the recovery disarms last,
      verified, and a row whose pull request it disarmed owes its re-arm.
    - Routing: every sentinel is routed or refused without raising; a row
      leaves REVIEW only with the walk's ship gates disarmed, and on a sentinel
      of its own stage the staleness and health gates too; completion is earned;
      the FINALIZE self-heal is capped.  Lifecycle invariants by rule induction.
    - Review: no MUST_FIX finding is lost; an accepted finding is flagged,
      disclaims an anchor, has its quote in the diff or names an unchanged file;
      an entry decides a finding only through the gate; the engine refines a
      four-phase machine; the settle payload of a stop releases it or is refused
      for a blank field; an accepted tip was reviewed, or differs by default
      merges alone; the run of rounds is bounded.
    - Reconciler: a row of an ended session is moved only on a fresh check of its
      worktree, back to the queue only when that found nothing; a check that is
      used was run; a ticket is completed on evidence of its own client's merge;
      a gate release loses no merge event to a failed save; rows without a
      session are parked with their evidence, at most three a pass, or adopted
      exactly on proof; concurrent settles announce an outage once.
    - Lanes and locks: an operator's hold is never taken over; the half-open
      probe; slots within every budget; acquisitions follow the rank order.
    - The manifest's findings name behaviour that falls short of the code's
      own comments.

    ** Fuel and bounds

    The stage walk has [target_idx] steps of fuel, the number of rungs below
    its target, and never runs out.  The PR-number scan and the bookkeeping
    reader [skip_settled] have one step per character; SHA-256 one per block.
    [wait_for_terminal] takes as many steps as polls before the clock reaches
    the deadline.  Running out is the exception [Diverges], so a theorem that a
    body returns also shows its fuel enough.  Every other recursion is on the
    list it walks.  Integers are Python's, those of SHA-256 words of 32 bits;
    the shift bounds of the backoffs are written out.

    ** Boundaries

    What the code reads from outside is a class, and theorems hold for every
    instance: [Clock] (a reading per call), [GateEnv] and [OpsEnv] (git, gh,
    the filesystem, the daemon roster, gate recipes), [ApproveEnv] and
    [SpawnEnv] (plan files, worktrees, the executor, which queue and inbox writes fail),
    [Ambient] (other writers), [GitRepo], [CloseMatch], [LedgerDump],
    [RepoFiles], [PyAst], [ReviewSchema] (the review's probes and parsers),
    [Redactor] (secret redaction), [ClaimOracle] (the claims of a lane walk).

    [Gh] and [RecoverEnv] (runs of the GitHub command line, before and after a
    disarm), [PageFault] (which pages fail to be recorded), [Login] (the
    operator's GitHub name), [OverrideEnv] (validation of the verdict and
    ledger files), [UnicodeData], [CaseData] (word characters and case outside
    ASCII; the context of a final sigma is left out), [DirtyProbe] (worktree
    checks, the monotonic clock), [GhAt] and [RepoDir] ([gh] in a directory),
    [EventIds] (the ids of inbox lines), [TreeExists] (which worktrees exist), [ContextFile] (a worktree's context),
    [EventFault] and [AnnounceFault] (which events fail to be recorded).  The writers between two
    locks of a sweep or a hydration are the argument [others].

    - The output of [gh] is given as the JSON value it holds; digits in a pull
      request URL are ASCII.
    - The sentinel is a payload that passed its schema.  Exceptions are told
      apart by class, not by message text; log lines are left out.  White space
      is ASCII in [str.split] and [str.strip] of [PyStr].
    - The gates' verdicts a claim reads are computed before the lock and are
      its input ([Gates]); the probes that compute them are not modelled.
    - [next_commands] takes the bound session, the position and the opt-in from
      its caller, as the code does; [accepts] checks the part of each operation
      the row and its session decide, not locks, live sessions or file I/O.
    - Instants carry a time zone.
    - Not modelled: cost accounting (floats), the reconciler's sweeps of
      sessions, rosters and transcripts with its recipes (of the concierge's
      three, the restore of cancelled rows is modelled), the codex loops and
      reviewers, sentinel parsing, executors, worktrees, storage and migration,
      the doctor, the command line but for the options of [requeue] and the
      settle command: subprocess and file I/O around the modelled rules.  The pre-dispatch gate
      resolvers, the reconciler's recipes and the codex fix loop carry
      rules of their own that this library does not reach. *)

From Stdlib Require Export ZArith Lia.
From stdpp Require Export prelude gmap strings.

#[global] Set Default Goal Selector "!".

(** ** Record update

    Python code mutates one attribute at a time ([task.stage = x]).  A record
    with an [Updater] instance per field gets the notation
    [r <| field := v |>]; the instance is generated from the record's eta
    expansion by [derive_updater]. *)

Class RecordEta (R : Type) := record_eta : R → R.

Class Updater {R T : Type} (getter : R → T) := update_field : (T → T) → R → R.

Ltac derive_updater :=
  match goal with
  | |- @Updater ?R ?T ?getter =>
      let eta := constr:(_ : RecordEta R) in
      let eta' := eval hnf in eta in
      let r := fresh "r" in
      let g := fresh "g" in
      refine (fun g (r : R) => _ : R);
      let body := eval cbv beta in (eta' r) in
      let ab := eval pattern (getter r) in body in
      match ab with
      | ?k _ => let res := eval cbv beta in (k (g (getter r))) in exact res
      end
  end.

Declare Scope cw_scope.
Delimit Scope cw_scope with cw.

Notation "r <| f := v |>" := (update_field (getter := f) (λ _, v) r)
  (at level 1, left associativity, f at next level, v at level 200,
   format "r  <| f  :=  v |>") : cw_scope.

(** ** Exceptions

    The exception classes the modelled code raises; [CwError] carries the
    message's leading words only where a theorem distinguishes them.
    [Diverges] is no Python exception: it marks a loop that ran out of fuel, so
    a theorem that a body does not raise also shows that its fuel is enough. *)

Inductive exn :=
  | IndexError
  | KeyError
  | ValueError
  | TypeError
  | AttributeError
  | AssertionError
  | TimeoutError
  | OSError
  | UnicodeDecodeError
  | JSONDecodeError
  | LaneNotFoundError
  | LaneMoveError
  | RequeueStageError
  | RequeueStateError
  | RequeueLiveSessionError (session_ids : list string)
  | RequeueRosterUnreadableError
  | UnblockStateError
  | WorktreeError
  | StaleWorktreeError
  | WorktreeOccupiedError (path reason : string)
  | HookContextConflictError (conflicting_session_id : option string) (genuinely_live : bool)
  | ClaudeBinaryNotFoundError
  | UsageLimitError (reset_at : option Z)
  | WorkerLaunchedError (session_id : string)
  | ApproveGateError
  | AmbiguousSessionIdentifierError (identifier : string)
  | AdoptionRefusedError
  | Diverges
  | ConvergenceError (msg : string)
  | CwError (msg : string)
  | CwLockReentrancyError (name : string) (held : list string)
  | CwLockOrderError (name : string) (held : list string).

#[export] Instance exn_eq_dec : EqDecision exn.
Proof. solve_decision. Defined.

(** [isinstance(e, CwError)]. *)
Definition is_CwError (e : exn) : bool :=
  match e with
  | IndexError | KeyError | ValueError | TypeError | AttributeError | AssertionError | TimeoutError | OSError
  | UnicodeDecodeError | JSONDecodeError | Diverges => false
  | _ => true
  end.

(** ** State and exceptions

    [M S A]: a computation on a state [S] that returns a value of [A] or
    raises.  A raise keeps the mutations made before it, as in Python. *)

Definition M (S A : Type) : Type := S → (exn + A) * S.

#[export] Instance M_ret {S} : MRet (M S) := λ A a s, (inr a, s).

#[export] Instance M_bind {S} : MBind (M S) := λ A B k m s,
  match m s with
  | (inl e, s') => (inl e, s')
  | (inr a, s') => k a s'
  end.

Definition raise {S A} (e : exn) : M S A := λ s, (inl e, s).
Definition get {S} : M S S := λ s, (inr s, s).
Definition modify {S} (f : S → S) : M S unit := λ s, (inr tt, f s).
Definition gets {S A} (f : S → A) : M S A := λ s, (inr (f s), s).

Definition when {S} (b : bool) (m : M S unit) : M S unit :=
  if b then m else mret tt.

(** [try: m except ...: h]. *)
Definition try_except {S A} (m : M S A) (h : exn → M S A) : M S A := λ s,
  match m s with (inl e, s') => h e s' | r => r end.

Definition exec {S A} (m : M S A) (s : S) : S := (m s).2.
Definition result {S A} (m : M S A) (s : S) : exn + A := (m s).1.

(** Weakest precondition of a computation: [Q] on its outcome and its final
    state. *)
Definition wp {S A} (m : M S A) (Q : exn + A → S → Prop) (s : S) : Prop :=
  Q (result m s) (exec m s).

(** The computation returns normally and its value and state satisfy [Q]. *)
Definition returns {S A} (m : M S A) (Q : A → S → Prop) (s : S) : Prop :=
  wp m (λ r s', match r with inl _ => False | inr a => Q a s' end) s.

Section MonadLaws.
Context {S : Type}.

Lemma wp_ret {A} (a : A) Q (s : S) : wp (mret a) Q s ↔ Q (inr a) s.
Proof. done. Qed.

Lemma wp_bind {A B} (m : M S A) (k : A → M S B) Q s :
  wp (m ≫= k) Q s ↔
  wp m (λ r s', match r with inl e => Q (inl e) s' | inr a => wp (k a) Q s' end) s.
Proof.
  unfold wp, result, exec, mbind, M_bind. by destruct (m s) as [[e|a] s'].
Qed.

Lemma returns_bind {A B} (m : M S A) (k : A → M S B) Q s :
  returns (m ≫= k) Q s ↔ returns m (λ a s', returns (k a) Q s') s.
Proof.
  unfold returns. rewrite wp_bind. unfold wp. by destruct (result m s).
Qed.

Lemma returns_ret {A} (a : A) Q (s : S) : returns (mret a) Q s ↔ Q a s.
Proof. done. Qed.

Lemma returns_gets {A} (f : S → A) Q (s : S) : returns (gets f) Q s ↔ Q (f s) s.
Proof. done. Qed.

Lemma returns_modify (f : S → S) Q (s : S) : returns (modify f) Q s ↔ Q tt (f s).
Proof. done. Qed.

Lemma returns_mono {A} (m : M S A) (P Q : A → S → Prop) s :
  returns m P s → (∀ a s', P a s' → Q a s') → returns m Q s.
Proof. unfold returns, wp. destruct (result m s); naive_solver. Qed.

Lemma returns_seq {A B} (m : M S A) (k : A → M S B) (R : A → S → Prop) Q s :
  returns m R s → (∀ a s', R a s' → returns (k a) Q s') → returns (m ≫= k) Q s.
Proof. rewrite returns_bind. apply returns_mono. Qed.

Lemma returns_conj {A} (m : M S A) (P Q : A → S → Prop) s :
  returns m P s → returns m Q s → returns m (λ a s', P a s' ∧ Q a s') s.
Proof. unfold returns, wp. by destruct (result m s). Qed.

Lemma returns_exec {A} (m : M S A) (P : A → S → Prop) s :
  returns m P s → ∃ a, result m s = inr a ∧ P a (exec m s).
Proof. unfold returns, wp. destruct (result m s); naive_solver. Qed.

Lemma bind_assoc {A B C} (m : M S A) (f : A → M S B) (g : B → M S C) s :
  ((m ≫= f) ≫= g) s = (m ≫= (λ a, f a ≫= g)) s.
Proof. unfold mbind, M_bind. by destruct (m s) as [[e|a] s']. Qed.
End MonadLaws.

(** ** Booleans as tests *)

Definition opt_truthy (o : option string) : bool :=
  match o with Some s => negb (String.eqb s "") | None => false end.

(** Python's [a or b] on [str | None]. *)
Definition str_or (a b : option string) : option string :=
  if opt_truthy a then a else b.

Definition is_Some_b {A} (o : option A) : bool :=
  match o with Some _ => true | None => false end.

(** ** Lists indexed the way Python does *)

Section PyList.
Context {A : Type} `{!EqDecision A}.

(** [xs.index(x)]: the first position of [x], [None] for a [ValueError]. *)
Fixpoint index_of (x : A) (xs : list A) : option nat :=
  match xs with
  | [] => None
  | y :: ys => if decide (x = y) then Some 0 else S <$> index_of x ys
  end.

Lemma index_of_lookup x xs i : index_of x xs = Some i → xs !! i = Some x.
Proof.
  revert i. induction xs as [|y ys IH]; intros i; simpl; [done|].
  case_decide as Hd; [naive_solver|].
  destruct (index_of x ys) eqn:E; simpl; [|done].
  intros [= <-]. simpl. auto.
Qed.

Lemma index_of_Some x xs : x ∈ xs → is_Some (index_of x xs).
Proof.
  intros Hin. destruct (index_of x xs) as [i|] eqn:E; [eauto|].
  exfalso. revert E. induction Hin as [|x y ys Hin IH]; simpl.
  - by rewrite decide_True.
  - case_decide; [done|]. destruct (index_of x ys); [done|auto].
Qed.

Lemma index_of_None x xs : index_of x xs = None ↔ x ∉ xs.
Proof.
  split.
  - intros H Hin. destruct (index_of_Some x xs Hin) as [i Hi]. congruence.
  - intros Hni. destruct (index_of x xs) as [i|] eqn:E; [|done].
    exfalso. apply Hni. eapply list_elem_of_lookup_2, index_of_lookup, E.
Qed.

Lemma index_of_lt x xs i : index_of x xs = Some i → i < length xs.
Proof. intros H%index_of_lookup. by eapply lookup_lt_Some. Qed.

Lemma index_of_NoDup xs i x : NoDup xs → xs !! i = Some x → index_of x xs = Some i.
Proof.
  intros Hnd Hi.
  destruct (index_of_Some x xs) as [j Hj]; [by eapply list_elem_of_lookup_2|].
  rewrite Hj. f_equal.
  eapply NoDup_lookup; [done| |exact Hi]. by apply index_of_lookup.
Qed.
End PyList.

(** Last element of a list, the [xs[-1]] of the source. *)
Lemma last_lookup_length {A} (xs : list A) x :
  last xs = Some x → xs !! (length xs - 1) = Some x.
Proof. intros H. rewrite <- H, last_lookup. by destruct xs; simpl; f_equal; lia. Qed.

(** ** Automation *)

Create HintDb cw discriminated.
#[export] Hint Resolve index_of_lookup index_of_lt : cw.

(** Split every conjunction and equation on constructors in the context. *)
Ltac cw_simp :=
  repeat (simplify_eq/=; destruct_and?).

(** Case on the scrutinee of an [if] or [match] of the goal. *)
Ltac cw_case :=
  repeat (case_match; simplify_eq/=; try done).
