(* ===== verification/PyStr.v ===== *)
(** * Python values: JSON payloads, strings, timestamps

    The raw sentinel dicts ([session.last_result]) are [json] values; Python
    strings are Stdlib strings read as UTF-8 bytes; a [datetime] is an integer
    number of microseconds since the Unix epoch, in UTC.  The string functions
    below are the ones the modelled modules call ([in], [split], [strip],
    [lstrip], slicing, [str(int)], [repr], [isoformat]). *)

From S2P Require Import Prelude.
From stdpp Require Export pretty.
From Stdlib Require Export Ascii.

#[local] Set Warnings "-register-all".

(** ** JSON values, as [json.loads] returns them *)

Inductive json :=
  | JNull
  | JBool (b : bool)
  | JInt (z : Z)
  | JFloat (repr : string)
  | JStr (s : string)
  | JList (l : list json)
  | JDict (d : list (string * json)).

(** [d.get(key)] on a dict: [None] (here [JNull]) when the key is absent. *)
Fixpoint dict_get (k : string) (d : list (string * json)) : json :=
  match d with
  | [] => JNull
  | (k', v) :: d' => if String.eqb k k' then v else dict_get k d'
  end.

(** [d.get(key, default)]. *)
Fixpoint dict_get_default (k : string) (dflt : json) (d : list (string * json)) : json :=
  match d with
  | [] => dflt
  | (k', v) :: d' => if String.eqb k k' then v else dict_get_default k dflt d'
  end.

(** [d[k] = v], keeping the position of a key that is there. *)
Fixpoint dict_set {A} (k : string) (v : A) (d : list (string * A)) : list (string * A) :=
  match d with
  | [] => [(k, v)]
  | (k', v') :: d' => if String.eqb k k' then (k, v) :: d' else (k', v') :: dict_set k v d'
  end.

(** [x.get(key) if isinstance(x, dict) else None]. *)
Definition jget (k : string) (j : json) : json :=
  match j with JDict d => dict_get k d | _ => JNull end.

Definition is_dict (j : json) : bool := match j with JDict _ => true | _ => false end.

Definition is_null (j : json) : bool := match j with JNull => true | _ => false end.

(** [x if isinstance(x, str) else None]. *)
Definition as_str (j : json) : option string :=
  match j with JStr s => Some s | _ => None end.

(** [x == s] for a string constant [s]. *)
Definition json_is_str (s : string) (j : json) : bool :=
  match j with JStr s' => String.eqb s s' | _ => false end.

Definition of_opt_str (o : option string) : json :=
  match o with Some s => JStr s | None => JNull end.

(** [k in d] on a dict, and [bool(j)]. *)
Definition dict_has (k : string) (d : list (string * json)) : bool :=
  existsb (λ kv, String.eqb k kv.1) d.

Definition json_truthy (j : json) : bool :=
  match j with
  | JNull => false
  | JBool b => b
  | JInt z => negb (Z.eqb z 0)
  | JFloat r => negb (String.eqb r "0.0" || String.eqb r "-0.0")
  | JStr s => negb (String.eqb s "")
  | JList l => negb (bool_decide (length l = 0))
  | JDict d => negb (bool_decide (length d = 0))
  end.

(** [j or d]. *)
Definition json_or (j d : json) : json := if json_truthy j then j else d.

Lemma json_is_str_true s j : json_is_str s j = true ↔ j = JStr s.
Proof.
  destruct j; simpl; try naive_solver. rewrite String.eqb_eq. naive_solver.
Qed.

(** ** Substrings *)

Fixpoint starts_with (p s : string) : bool :=
  match p, s with
  | EmptyString, _ => true
  | String a p', String b s' => Ascii.eqb a b && starts_with p' s'
  | String _ _, EmptyString => false
  end.

Fixpoint str_drop (n : nat) (s : string) : string :=
  match n, s with
  | O, _ => s
  | S n', String _ s' => str_drop n' s'
  | S _, EmptyString => EmptyString
  end.

(** The two sides of the first occurrence of [sep] in [s]; [None] when [sep]
    does not occur.  [sep in s] is [is_Some], [s.split(sep, 1)] is the pair. *)
Fixpoint str_split1 (sep s : string) : option (string * string) :=
  if starts_with sep s then Some (EmptyString, str_drop (String.length sep) s)
  else match s with
       | EmptyString => None
       | String c s' =>
           match str_split1 sep s' with
           | Some (a, b) => Some (String c a, b)
           | None => None
           end
       end.

Definition str_contains (sep s : string) : bool := is_Some_b (str_split1 sep s).

(** ASCII characters [str.strip] removes. *)
Definition is_space (c : ascii) : bool :=
  let n := nat_of_ascii c in
  (Nat.leb 9 n && Nat.leb n 13) || (Nat.leb 28 n && Nat.leb n 32).

Fixpoint lstrip_by (p : ascii → bool) (s : string) : string :=
  match s with
  | String c s' => if p c then lstrip_by p s' else s
  | EmptyString => EmptyString
  end.

Fixpoint rstrip_by (p : ascii → bool) (s : string) : string :=
  match s with
  | EmptyString => EmptyString
  | String c s' =>
      match rstrip_by p s' with
      | EmptyString => if p c then EmptyString else String c EmptyString
      | r => String c r
      end
  end.

Definition str_strip (s : string) : string := rstrip_by is_space (lstrip_by is_space s).

(** [s.lstrip(":")]. *)
Definition lstrip_colon : string → string := lstrip_by (Ascii.eqb ":"%char).

Definition is_ascii_alnum (c : ascii) : bool :=
  let n := nat_of_ascii c in
  (Nat.leb 48 n && Nat.leb n 57) || (Nat.leb 65 n && Nat.leb n 90)
  || (Nat.leb 97 n && Nat.leb n 122).

(** The maximal run of characters satisfying [p], and the rest. *)
Fixpoint take_run (p : ascii → bool) (s : string) : string * string :=
  match s with
  | EmptyString => (EmptyString, EmptyString)
  | String c s' =>
      if p c then let '(a, b) := take_run p s' in (String c a, b) else (EmptyString, s)
  end.

(** [sep.join(parts)]. *)
Fixpoint str_join (sep : string) (parts : list string) : string :=
  match parts with
  | [] => EmptyString
  | [p] => p
  | p :: ps => (p +:+ sep +:+ str_join sep ps)
  end.

Lemma sapp_nil s : "" +:+ s = s.
Proof. reflexivity. Qed.

Lemma sapp_cons c s t : String c s +:+ t = String c (s +:+ t).
Proof. reflexivity. Qed.

Lemma starts_with_app p s : starts_with p (p +:+ s) = true.
Proof.
  induction p as [|a p IH]; [done|]. rewrite sapp_cons. simpl.
  by rewrite Ascii.eqb_refl.
Qed.

Lemma str_drop_length k s : String.length (str_drop k s) ≤ String.length s.
Proof.
  revert s. induction k as [|k IH]; intros s; [done|]. destruct s as [|c s]; [done|].
  simpl. specialize (IH s). lia.
Qed.

Lemma str_drop_app p s : str_drop (String.length p) (p +:+ s) = s.
Proof. induction p; [done|]. by rewrite sapp_cons. Qed.

Lemma starts_with_split p s : starts_with p s = true → s = p +:+ str_drop (String.length p) s.
Proof.
  revert s. induction p as [|a p IH]; intros s; simpl; [done|].
  destruct s as [|b s]; [done|].
  intros [->%Ascii.eqb_eq H]%andb_true_iff. rewrite sapp_cons. f_equal. by apply IH.
Qed.

Lemma str_split1_eq sep s :
  str_split1 sep s =
  if starts_with sep s then Some ("", str_drop (String.length sep) s)
  else match s with
       | EmptyString => None
       | String c s' =>
           match str_split1 sep s' with
           | Some (a, b) => Some (String c a, b)
           | None => None
           end
       end.
Proof. by destruct s. Qed.

(** The split is a decomposition of the string around the separator. *)
Lemma str_split1_app sep s a b : str_split1 sep s = Some (a, b) → s = a +:+ sep +:+ b.
Proof.
  revert a b. induction s as [|c s IH]; intros a b; rewrite str_split1_eq;
    case_match eqn:E; try done.
  - intros [= <- <-]. by apply (starts_with_split sep "").
  - intros [= <- <-]. by apply (starts_with_split sep (String c s)).
  - destruct (str_split1 sep s) as [[a' b']|] eqn:E'; [|done].
    intros [= <- <-]. rewrite sapp_cons. f_equal. by apply IH.
Qed.

(** A separator that occurs is found. *)
Lemma str_split1_occurs sep a b : is_Some (str_split1 sep (a +:+ sep +:+ b)).
Proof.
  induction a as [|c a IH]; rewrite str_split1_eq.
  - rewrite sapp_nil, starts_with_app. eauto.
  - case_match; [eauto|]. rewrite sapp_cons. destruct IH as [[a' b'] ->]. eauto.
Qed.

(** ** Code-point order *)

Definition string_le (a b : string) : Prop := String.compare a b ≠ Gt.
#[export] Instance string_le_dec : RelDecision string_le.
Proof. intros a b. unfold string_le. apply not_dec. solve_decision. Defined.

(** ** Dictionaries *)

Lemma dict_get_set k v d : dict_get k (dict_set k v d) = v.
Proof.
  induction d as [|[k' v'] d IH]; simpl; [by rewrite String.eqb_refl|].
  destruct (String.eqb k k') eqn:E; simpl; [by rewrite String.eqb_refl|by rewrite E].
Qed.

(** ** Code points

    Python slices and measures a [str] by code points; a UTF-8 continuation
    byte ([10xxxxxx]) does not start one. *)
Definition is_continuation (c : ascii) : bool :=
  let n := nat_of_ascii c in Nat.leb 128 n && Nat.ltb n 192.

Fixpoint cp_length (s : string) : nat :=
  match s with
  | EmptyString => 0
  | String c s' => (if is_continuation c then 0 else 1) + cp_length s'
  end.

(** [s[:n]]. *)
Fixpoint cp_take (n : nat) (s : string) : string :=
  match s with
  | EmptyString => EmptyString
  | String c s' =>
      if is_continuation c then String c (cp_take n s')
      else match n with
           | O => EmptyString
           | S n' => String c (cp_take n' s')
           end
  end.

Lemma cp_take_length n s : cp_length (cp_take n s) ≤ n.
Proof.
  revert n. induction s as [|c s IH]; intros n; simpl; [lia|].
  destruct (is_continuation c) eqn:E; simpl; [rewrite E; apply IH|].
  destruct n as [|n]; simpl; [lia|]. rewrite E. specialize (IH n). lia.
Qed.

Lemma cp_take_all n s : cp_length s ≤ n → cp_take n s = s.
Proof.
  revert n. induction s as [|c s IH]; intros n; simpl; [done|].
  destruct (is_continuation c); simpl; intros H; [by rewrite IH|].
  destruct n as [|n]; [lia|]. rewrite IH; [done|lia].
Qed.

(** ** Decimal digits and [isoformat] *)

Definition str_of_Z (z : Z) : string := pretty z.
Definition str_of_nat (n : nat) : string := pretty n.

Fixpoint zeros (n : nat) : string :=
  match n with O => EmptyString | S n' => String "0" (zeros n') end.

(** [f"{z:0{w}d}"] for a non-negative [z]. *)
Definition zero_pad (w : nat) (z : Z) : string :=
  let s := str_of_Z z in zeros (w - String.length s) +:+ s.

Open Scope Z_scope.

Definition MICROS : Z := 1000000.
Definition MINUTE : Z := 60 * MICROS.

(** The proleptic Gregorian date of a day number counted from 1970-01-01. *)
Definition civil_of_days (days : Z) : Z * Z * Z :=
  let z := days + 719468 in
  let era := z / 146097 in
  let doe := z mod 146097 in
  let yoe := (doe - doe / 1460 + doe / 36524 - doe / 146096) / 365 in
  let doy := doe - (365 * yoe + yoe / 4 - yoe / 100) in
  let mp := (5 * doy + 2) / 153 in
  let d := doy - (153 * mp + 2) / 5 + 1 in
  let m := if mp <? 10 then mp + 3 else mp - 9 in
  let y := yoe + era * 400 + (if m <=? 2 then 1 else 0) in
  (y, m, d).

(** [dt.isoformat()] of a UTC datetime: microseconds only when non-zero. *)
Definition isoformat (t : Z) : string :=
  let secs := t / MICROS in
  let us := t mod MICROS in
  let sod := secs mod 86400 in
  let '(y, m, d) := civil_of_days (secs / 86400) in
  zero_pad 4 y +:+ "-" +:+ zero_pad 2 m +:+ "-" +:+ zero_pad 2 d +:+ "T"
  +:+ zero_pad 2 (sod / 3600) +:+ ":" +:+ zero_pad 2 (sod / 60 mod 60) +:+ ":"
  +:+ zero_pad 2 (sod mod 60)
  +:+ (if us =? 0 then "" else "." +:+ zero_pad 6 us) +:+ "+00:00".

(** [dt.replace(microsecond=0)]. *)
Definition whole_seconds (t : Z) : Z := t / MICROS * MICROS.

Example isoformat_ex : isoformat 1786492800123000 = "2026-08-12T00:00:00.123000+00:00".
Proof. vm_compute. reflexivity. Qed.

(** ** [repr] of a [str | None]

    Single quotes, unless the text holds one and no double quote; backslash,
    the quote itself and the ASCII control characters are escaped.  Non-ASCII
    text is printed as it is. *)
Definition hex_digit (n : nat) : ascii :=
  if Nat.ltb n 10 then ascii_of_nat (48 + n) else ascii_of_nat (87 + n).

Definition repr_char (quote c : ascii) : string :=
  let n := nat_of_ascii c in
  if Ascii.eqb c quote || Nat.eqb n 92 then String "\" (String c "")
  else if Nat.eqb n 10 then "\n"
  else if Nat.eqb n 13 then "\r"
  else if Nat.eqb n 9 then "\t"
  else if Nat.ltb n 32 || Nat.eqb n 127
       then "\x" +:+ String (hex_digit (n / 16)%nat) (String (hex_digit (n mod 16)%nat) "")
  else String c "".

Fixpoint str_existsb (p : ascii → bool) (s : string) : bool :=
  match s with EmptyString => false | String c s' => p c || str_existsb p s' end.

Definition str_forallb (p : ascii → bool) (s : string) : bool :=
  negb (str_existsb (λ c, negb (p c)) s).

Fixpoint repr_chars (quote : ascii) (s : string) : string :=
  match s with
  | EmptyString => EmptyString
  | String c s' => repr_char quote c +:+ repr_chars quote s'
  end.

Definition SQUOTE : ascii := ascii_of_nat 39.
Definition DQUOTE : ascii := ascii_of_nat 34.

Definition py_repr (o : option string) : string :=
  match o with
  | None => "None"
  | Some s =>
      let q := if str_existsb (Ascii.eqb SQUOTE) s && negb (str_existsb (Ascii.eqb DQUOTE) s)
               then DQUOTE else SQUOTE in
      String q (repr_chars q s +:+ String q "")
  end.

Close Scope Z_scope.

(** [str(x)] and [repr(x)] of a JSON value; they differ on strings only. *)
Fixpoint json_repr (j : json) : string :=
  match j with
  | JNull => "None"
  | JBool true => "True"
  | JBool false => "False"
  | JInt z => str_of_Z z
  | JFloat r => r
  | JStr s => py_repr (Some s)
  | JList l => "[" +:+ str_join ", " (map json_repr l) +:+ "]"
  | JDict d =>
      "{" +:+ str_join ", " (map (λ kv, py_repr (Some kv.1) +:+ ": " +:+ json_repr kv.2) d)
      +:+ "}"
  end.

Definition json_str (j : json) : string :=
  match j with JStr s => s | _ => json_repr j end.
