(* ===== verification/PyText.v ===== *)
(** * Unicode text

    The string operations that the review modules call and that look at
    characters rather than bytes: [str.split()] and [str.strip()] with
    Python's whole set of white space, [str.split("\n")], [str.translate],
    [str.splitlines()] and [re.sub] of white-space runs.  A string is cut into
    its UTF-8 characters first; [chars_concat] puts it back together. *)

From S2P Require Import Prelude PyStr.

(** ** Characters *)

Definition starts_cont (s : string) : bool :=
  match s with String c _ => is_continuation c | EmptyString => false end.

Fixpoint chars (s : string) : list string :=
  match s with
  | EmptyString => []
  | String c s' =>
      match chars s' with
      | [] => [String c ""]
      | w :: ws => if starts_cont w then String c w :: ws else String c "" :: w :: ws
      end
  end.

Fixpoint str_concat (ss : list string) : string :=
  match ss with [] => "" | s :: ss' => s +:+ str_concat ss' end.

(** A white-space character of [str.isspace], by its UTF-8 bytes. *)
Definition bytes3 (a b c : nat) : string :=
  String (ascii_of_nat a) (String (ascii_of_nat b) (String (ascii_of_nat c) "")).
Definition bytes2 (a b : nat) : string := String (ascii_of_nat a) (String (ascii_of_nat b) "").

Definition wide_spaces : list string :=
  [bytes2 194 133; bytes2 194 160; bytes3 225 154 128]
  ++ map (bytes3 226 128) (seq 128 11)
  ++ [bytes3 226 128 168; bytes3 226 128 169; bytes3 226 128 175;
      bytes3 226 129 159; bytes3 227 128 128].

Definition is_space_char (w : string) : bool :=
  match w with
  | String c EmptyString => is_space c
  | _ => bool_decide (w ∈ wide_spaces)
  end.

(** ** [s.split()] and [" ".join(s.split())] *)

Fixpoint words_go (cs : list string) (cur : string) : list string :=
  match cs with
  | [] => if String.eqb cur "" then [] else [cur]
  | c :: cs' =>
      if is_space_char c
      then if String.eqb cur "" then words_go cs' "" else cur :: words_go cs' ""
      else words_go cs' (cur +:+ c)
  end.

Definition words (s : string) : list string := words_go (chars s) "".

Definition collapse_spaces (s : string) : string := str_join " " (words s).

(** ** [s.strip()] *)

Fixpoint drop_spaces (cs : list string) : list string :=
  match cs with
  | c :: cs' => if is_space_char c then drop_spaces cs' else cs
  | [] => []
  end.

Definition text_strip (s : string) : string :=
  str_concat (reverse (drop_spaces (reverse (drop_spaces (chars s))))).

(** [not s.strip()]. *)
Definition is_blank (s : string) : bool := forallb is_space_char (chars s).

(** ** [s.split("\n")] and ["\n".join] *)

Definition NL : ascii := ascii_of_nat 10.
Definition NLs : string := String NL "".

Fixpoint split_lines (s : string) : list string :=
  match s with
  | EmptyString => [""]
  | String c s' =>
      if Ascii.eqb c NL then "" :: split_lines s'
      else match split_lines s' with
           | [] => [String c ""]
           | l :: ls => String c l :: ls
           end
  end.

Definition join_lines (ls : list string) : string := str_join NLs ls.

(** [s.count("\n")]. *)
Fixpoint count_nl (s : string) : nat :=
  match s with
  | EmptyString => 0
  | String c s' => (if Ascii.eqb c NL then 1 else 0) + count_nl s'
  end.

(** The number of lines [s.splitlines()] returns: a break is [\r\n], one of
    [\n \r \v \f \x1c \x1d \x1e] or U+0085, U+2028, U+2029. *)
Definition is_break (w : string) : bool :=
  match w with
  | String c EmptyString =>
      let n := nat_of_ascii c in
      (Nat.leb 10 n && Nat.leb n 13) || (Nat.leb 28 n && Nat.leb n 30)
  | _ => bool_decide (w ∈ [bytes2 194 133; bytes3 226 128 168; bytes3 226 128 169])
  end.

Fixpoint count_splitlines (cs : list string) (pending : bool) : nat :=
  match cs with
  | [] => if pending then 1 else 0
  | c :: cs' =>
      if is_break c then
        match cs' with
        | d :: cs'' =>
            if String.eqb c (String (ascii_of_nat 13) "") && String.eqb d NLs
            then S (count_splitlines cs'' false)
            else S (count_splitlines cs' false)
        | [] => 1
        end
      else count_splitlines cs' true
  end.

Definition splitlines_count (s : string) : nat := count_splitlines (chars s) false.

(** [s.splitlines()]. *)
Fixpoint splitlines_go (cs : list string) (cur : string) : list string :=
  match cs with
  | [] => if String.eqb cur "" then [] else [cur]
  | c :: cs' =>
      if is_break c then
        cur :: match cs' with
               | d :: cs'' =>
                   if String.eqb c (String (ascii_of_nat 13) "") && String.eqb d NLs
                   then splitlines_go cs'' "" else splitlines_go cs' ""
               | [] => []
               end
      else splitlines_go cs' (cur +:+ c)
  end.

Definition splitlines (s : string) : list string := splitlines_go (chars s) "".

(** ** [s.translate(table)] *)

Definition translate (table : string → option string) (s : string) : string :=
  str_concat (map (λ c, default c (table c)) (chars s)).

(** ** [re.sub(r"\s+", " ", s)] *)

Fixpoint collapse_runs_go (cs : list string) (in_run : bool) : string :=
  match cs with
  | [] => ""
  | c :: cs' =>
      if is_space_char c
      then if in_run then collapse_runs_go cs' true else String " " (collapse_runs_go cs' true)
      else c +:+ collapse_runs_go cs' false
  end.

Definition collapse_runs (s : string) : string := collapse_runs_go (chars s) false.

(** ** Lemmas *)

Lemma sapp_assoc a b c : (a +:+ b) +:+ c = a +:+ (b +:+ c).
Proof. induction a as [|x a IH]; [done|]. rewrite !sapp_cons. by rewrite IH. Qed.

Lemma sapp_nil_r a : a +:+ "" = a.
Proof. induction a as [|x a IH]; [done|]. by rewrite sapp_cons, IH. Qed.

Lemma str_concat_app a b : str_concat (a ++ b) = str_concat a +:+ str_concat b.
Proof. induction a as [|x a IH]; simpl; [done|]. by rewrite IH, sapp_assoc. Qed.

Lemma chars_concat s : str_concat (chars s) = s.
Proof.
  induction s as [|c s IH]; simpl; [done|].
  destruct (chars s) as [|w ws] eqn:E.
  - simpl in *. by rewrite <- IH.
  - destruct (starts_cont w); simpl in *; by rewrite <- IH.
Qed.

Lemma chars_ne s w : w ∈ chars s → w ≠ "".
Proof.
  revert w. induction s as [|c s IH]; simpl; intros w; [by intros H%elem_of_nil|].
  destruct (chars s) as [|v vs] eqn:E.
  - by intros ->%list_elem_of_singleton.
  - destruct (starts_cont v); intros [->|H]%elem_of_cons; try done.
    + apply IH. by right.
    + by apply IH.
Qed.

(** Characters after the first one start with a byte that starts a character. *)
Lemma chars_tail_starts s w ws : chars s = w :: ws → Forall (λ v, starts_cont v = false) ws.
Proof.
  revert w ws. induction s as [|c s IH]; simpl; intros w ws; [done|].
  destruct (chars s) as [|v vs] eqn:E; [by intros [= <- <-]|].
  specialize (IH v vs eq_refl).
  destruct (starts_cont v) eqn:Hv; intros [= <- <-]; [done|by constructor].
Qed.

Lemma starts_cont_app a b : a ≠ "" → starts_cont (a +:+ b) = starts_cont a.
Proof. by destruct a. Qed.

Lemma chars_first_starts s w ws : chars s = w :: ws → starts_cont w = starts_cont s.
Proof.
  destruct s as [|c s]; simpl; [done|].
  destruct (chars s) as [|v vs]; [by intros [= <- <-]|].
  destruct (starts_cont v); by intros [= <- <-].
Qed.

(** Cutting a concatenation cuts its parts, unless the second part starts in
    the middle of a character. *)
Lemma chars_app a b : starts_cont b = false → chars (a +:+ b) = chars a ++ chars b.
Proof.
  intros Hb. induction a as [|c a IH]; [done|]. rewrite sapp_cons. cbn [chars]. rewrite IH.
  destruct (chars a) as [|w ws] eqn:Ha; cbn [app].
  - destruct (chars b) as [|v vs] eqn:E; [done|].
    by rewrite (chars_first_starts b v vs E), Hb.
  - by destruct (starts_cont w).
Qed.

Lemma chars_single w s : chars s = w :: [] → s = w.
Proof. intros H. pose proof (chars_concat s) as E. rewrite H in E. simpl in E.
  by rewrite sapp_nil_r in E. Qed.

Lemma chars_char s w : w ∈ chars s → chars w = [w].
Proof.
  revert w. induction s as [|c s IH]; simpl; intros w; [by intros H%elem_of_nil|].
  destruct (chars s) as [|v vs] eqn:E; [by intros ->%list_elem_of_singleton|].
  pose proof (IH v (list_elem_of_here _ _)) as Hv.
  destruct (starts_cont v) eqn:Hc; intros [->|H]%elem_of_cons.
  - cbn [chars]. by rewrite Hv, Hc.
  - apply IH. by right.
  - done.
  - by apply IH.
Qed.

(** *** Words

    A word is a non-empty run of characters that are no white space; a word
    after the first starts with a whole character. *)
Definition solid (w : string) : Prop := Forall (λ c, is_space_char c = false) (chars w).
Definition whole (w : string) : Prop := starts_cont w = false.
Definition good_word (w : string) : Prop := w ≠ "" ∧ solid w.

Lemma solid_snoc cur c :
  solid cur → chars c = [c] → whole c → is_space_char c = false → solid (cur +:+ c).
Proof.
  intros Hs Hc Hw Hn. unfold solid. rewrite chars_app, Hc by done.
  apply Forall_app. split; [done|by repeat constructor].
Qed.

Lemma words_go_head cs cur w ws :
  cur ≠ "" → words_go cs cur = w :: ws → ∃ x, w = cur +:+ x.
Proof.
  revert cur. induction cs as [|c cs IH]; intros cur Hne; simpl.
  - destruct (String.eqb_spec cur ""); [done|]. intros [= <- <-]. exists "".
    by rewrite sapp_nil_r.
  - destruct (is_space_char c).
    + destruct (String.eqb_spec cur ""); [done|]. intros [= <- <-]. exists "".
      by rewrite sapp_nil_r.
    + intros H. destruct (IH (cur +:+ c)) as [x ->]; [by destruct cur|done|].
      exists (c +:+ x). by rewrite sapp_assoc.
Qed.

Lemma words_go_good cs cur :
  Forall (λ c, chars c = [c] ∧ whole c) cs → solid cur →
  Forall good_word (words_go cs cur)
  ∧ Forall whole (if String.eqb cur "" then words_go cs cur else tail (words_go cs cur)).
Proof.
  intros Hcs. revert cur. induction Hcs as [|c cs [Hc Hw] Hcs IH]; intros cur Hcur; simpl.
  - destruct (String.eqb_spec cur ""); simpl; [done|]. split; [|done]. by repeat constructor.
  - destruct (is_space_char c) eqn:Hsp.
    + destruct (IH "") as [H1 H2]; [by constructor|]. simpl in H2.
      destruct (String.eqb_spec cur ""); simpl; [done|]. split; [by constructor|done].
    + destruct (IH (cur +:+ c)) as [H1 H2]; [by apply solid_snoc|]. split; [done|].
      assert (c ≠ "") by (by destruct c).
      assert (Hne : String.eqb (cur +:+ c) "" = false)
        by (apply String.eqb_neq; by destruct cur, c).
      rewrite Hne in H2. destruct (String.eqb_spec cur "") as [->|]; [|done].
      destruct (words_go cs ("" +:+ c)) as [|w ws] eqn:E; [done|]. simpl in H2.
      constructor; [|done].
      destruct (words_go_head _ _ _ _ ltac:(by destruct c) E) as [x ->].
      unfold whole. by destruct c.
Qed.

Lemma words_go_solid cs cs' cur :
  Forall (λ c, is_space_char c = false) cs →
  words_go (cs ++ cs') cur = words_go cs' (cur +:+ str_concat cs).
Proof.
  intros H. revert cur. induction H as [|c cs Hc _ IH]; intros cur; simpl.
  - by rewrite sapp_nil_r.
  - by rewrite Hc, IH, sapp_assoc.
Qed.

Lemma str_join_cons sep w v ws :
  str_join sep (w :: v :: ws) = w +:+ sep +:+ str_join sep (v :: ws).
Proof. done. Qed.

(** Joining words with single spaces and splitting again gives them back. *)
Lemma words_join ws :
  Forall good_word ws → Forall whole (tail ws) → words (str_join " " ws) = ws.
Proof.
  unfold words. induction ws as [|w ws IH]; [done|].
  intros [[Hne Hsol] Hws]%Forall_cons Hwh. simpl in Hwh.
  assert (Heq : String.eqb w "" = false) by (by apply String.eqb_neq).
  destruct ws as [|v ws].
  - simpl. rewrite <- (app_nil_r (chars w)), words_go_solid, chars_concat by done.
    change ("" +:+ w) with w. cbn [words_go]. by rewrite Heq.
  - rewrite str_join_cons, chars_app by done.
    apply Forall_cons in Hwh as [Hv Hwh].
    assert (Hrest : whole (str_join " " (v :: ws))).
    { destruct ws; [done|]. unfold whole. rewrite str_join_cons.
      apply Forall_cons in Hws as [[Hvne _] _]. by rewrite starts_cont_app. }
    rewrite chars_app by done. rewrite words_go_solid, chars_concat by done.
    change (chars " ") with [" "]. change ("" +:+ w) with w.
    cbn [words_go app]. change (is_space_char " ") with true. cbv iota.
    rewrite Heq. f_equal. by apply IH.
Qed.

Lemma words_good s : Forall good_word (words s) ∧ Forall whole (tail (words s)).
Proof.
  unfold words. destruct (chars s) as [|w ws] eqn:E; [done|].
  pose proof (chars_tail_starts s w ws E) as Ht.
  assert (Hall : ∀ v, v ∈ w :: ws → chars v = [v]).
  { intros v Hv. apply (chars_char s). by rewrite E. }
  assert (Hcs : Forall (λ c, chars c = [c] ∧ whole c) ws).
  { apply Forall_forall. intros v Hv. split; [apply Hall; by right|].
    by apply (proj1 (Forall_forall _ _) Ht). }
  pose proof (Hall w (list_elem_of_here _ _)) as Hw. simpl.
  destruct (is_space_char w) eqn:Hsp; change ("" +:+ w) with w.
  - destruct (words_go_good ws "" Hcs) as [H1 H2]; [by constructor|]. simpl in H2.
    split; [done|]. by destruct H2.
  - destruct (words_go_good ws w Hcs) as [H1 H2].
    { unfold solid. rewrite Hw. by repeat constructor. }
    split; [done|]. assert (String.eqb w "" = false) as Hne by (by destruct w).
    by rewrite Hne in H2.
Qed.

(** Normalizing white space twice is normalizing it once. *)
Lemma collapse_spaces_idemp s : collapse_spaces (collapse_spaces s) = collapse_spaces s.
Proof.
  unfold collapse_spaces. destruct (words_good s). by rewrite words_join.
Qed.

Lemma str_length_app a b : String.length (a +:+ b) = String.length a + String.length b.
Proof. induction a as [|c a IH]; [done|]. rewrite sapp_cons. simpl. by rewrite IH. Qed.
