(* ===== verification/ShellWords.v ===== *)
(** * Shell words: [shlex.quote] and [shlex.split]

    What the printed commands are quoted with and what their verbs are read
    back with.  [shlex.split] is the POSIX reader with [whitespace_split]; an
    unclosed quote or a trailing escape raises.  Quoting round-trips: a
    printed command line reads back as exactly the words it was made of. *)

From S2P Require Import Prelude PyStr PyText.

#[local] Open Scope cw_scope.

(** ** Quoting *)

Definition is_shell_safe (c : ascii) : bool :=
  is_ascii_alnum c || str_existsb (Ascii.eqb c) "_@%+=:,./-".

Definition single_quote : ascii := "039".
Definition double_quote : ascii := "034".
Definition backslash : ascii := "092".

(** A quote inside is closed, double-quoted and reopened. *)
Fixpoint quote_body (s : string) : string :=
  match s with
  | EmptyString => EmptyString
  | String c s' =>
      if Ascii.eqb c single_quote
      then String single_quote (String double_quote (String single_quote
             (String double_quote (String single_quote (quote_body s')))))
      else String c (quote_body s')
  end.

Definition shlex_quote (s : string) : string :=
  if negb (String.eqb s "") && str_forallb is_shell_safe s then s
  else String single_quote (quote_body s +:+ String single_quote EmptyString).

(** ** Splitting *)

Definition is_shell_blank (c : ascii) : bool :=
  Ascii.eqb c " " || Ascii.eqb c "009" || Ascii.eqb c "013" || Ascii.eqb c "010".

Definition is_shell_quote (c : ascii) : bool :=
  Ascii.eqb c single_quote || Ascii.eqb c double_quote.

(** Outside quotes, inside the quote [q], after an escape in either. *)
Inductive lexer := Bare | Quoted (q : ascii) | Escaped (q : option ascii).

(** [s + c]. *)
Definition snoc (s : string) (c : ascii) : string := s +:+ String c EmptyString.

Definition emit (tok : string) (quoted : bool) (rest : option (list string))
  : option (list string) :=
  if negb (String.eqb tok "") || quoted then option_map (cons tok) rest else rest.

Fixpoint lex (s : string) (st : lexer) (tok : string) (quoted : bool)
  : option (list string) :=
  match s with
  | EmptyString => match st with Bare => emit tok quoted (Some []) | _ => None end
  | String c s' =>
      match st with
      | Bare =>
          if is_shell_blank c then emit tok quoted (lex s' Bare EmptyString false)
          else if Ascii.eqb c backslash then lex s' (Escaped None) tok quoted
          else if is_shell_quote c then lex s' (Quoted c) tok quoted
          else lex s' Bare (snoc tok c) quoted
      | Quoted q =>
          if Ascii.eqb c q then lex s' Bare tok true
          else if Ascii.eqb c backslash && Ascii.eqb q double_quote
          then lex s' (Escaped (Some q)) tok true
          else lex s' (Quoted q) (snoc tok c) true
      | Escaped None => lex s' Bare (snoc tok c) quoted
      | Escaped (Some q) =>
          let tok := if Ascii.eqb c backslash || Ascii.eqb c q then tok else snoc tok backslash in
          lex s' (Quoted q) (snoc tok c) quoted
      end
  end.

Definition shlex_split (s : string) : option (list string) := lex s Bare EmptyString false.

(** ** Pieces

    [piece e t]: the text [e] reads as the word [t] wherever it stands. *)

Definition piece (e t : string) : Prop :=
  ∃ q, (t = "" → q = true)
    ∧ ∀ rest tok quoted, lex (e +:+ rest) Bare tok quoted = lex rest Bare (tok +:+ t) (quoted || q).

Lemma snoc_app tok c t : snoc tok c +:+ t = tok +:+ String c t.
Proof. unfold snoc. by rewrite sapp_assoc. Qed.

Lemma safe_bare c :
  is_shell_safe c = true →
  is_shell_blank c = false ∧ Ascii.eqb c backslash = false ∧ is_shell_quote c = false.
Proof.
  destruct c as [[] [] [] [] [] [] [] []]; vm_compute; intros H; try discriminate H; auto.
Qed.

Lemma safe_piece t : t ≠ "" → str_forallb is_shell_safe t = true → piece t t.
Proof.
  intros Hne H. exists false. split; [done|]. clear Hne.
  induction t as [|c t IH]; intros rest tok quoted.
  { by rewrite sapp_nil_r, orb_false_r. }
  unfold str_forallb in H, IH. cbn in H. rewrite negb_orb, negb_involutive in H.
  apply andb_true_iff in H as [Hc Ht]. destruct (safe_bare c Hc) as (H1 & H2 & H3).
  rewrite sapp_cons. cbn [lex]. rewrite H1, H2, H3. rewrite IH by done. by rewrite snoc_app.
Qed.

Lemma quoted_body t rest tok :
  lex (quote_body t +:+ String single_quote rest) (Quoted single_quote) tok true
  = lex rest Bare (tok +:+ t) true.
Proof.
  revert tok. induction t as [|c t IH]; intros tok; cbn [quote_body].
  { cbn [lex]. rewrite sapp_nil, sapp_nil_r. cbn [lex]. by rewrite Ascii.eqb_refl. }
  destruct (Ascii.eqb c single_quote) eqn:Hc.
  - apply Ascii.eqb_eq in Hc as ->. rewrite !sapp_cons. cbn [lex]. cbn.
    rewrite IH. by rewrite snoc_app.
  - rewrite sapp_cons. cbn [lex]. rewrite Hc. rewrite andb_false_r, IH. by rewrite snoc_app.
Qed.

Lemma quote_piece t : piece (shlex_quote t) t.
Proof.
  unfold shlex_quote. destruct (negb _ && _) eqn:H.
  - apply andb_true_iff in H as [Hne%negb_true_iff%String.eqb_neq Hs]. by apply safe_piece.
  - exists true. split; [done|]. intros rest tok quoted. rewrite sapp_cons, sapp_assoc, sapp_cons.
    rewrite orb_true_r. destruct t as [|c t].
    + cbn. by rewrite sapp_nil_r.
    + transitivity (lex (quote_body (String c t) +:+ String single_quote rest) (Quoted single_quote)
                      tok quoted); [reflexivity|]. rewrite <- quoted_body.
      cbn [quote_body]. destruct (Ascii.eqb c single_quote) eqn:Hc.
      * apply Ascii.eqb_eq in Hc as ->. reflexivity.
      * rewrite !sapp_cons. cbn [lex]. by rewrite Hc, andb_false_r.
Qed.

Lemma split_pieces es ts :
  Forall2 piece es ts → shlex_split (str_join " " es) = Some ts.
Proof.
  unfold shlex_split. induction 1 as [|e t es ts (q & Hq & Hl) Hr IH]; [done|].
  assert (Hem : ∀ rest, emit ("" +:+ t) (false || q) rest = option_map (cons t) rest).
  { intros rest. unfold emit. rewrite sapp_nil. destruct t; [by rewrite Hq|done]. }
  destruct es as [|e' es].
  - inversion Hr; subst. cbn [str_join]. rewrite <- (sapp_nil_r e), Hl. cbn [lex]. by rewrite Hem.
  - rewrite str_join_cons, Hl. cbn [lex sapp_cons].
    change (" " +:+ str_join " " (e' :: es)) with (String " " (str_join " " (e' :: es))).
    cbn [lex]. change (is_shell_blank " ") with true. cbn [orb]. rewrite Hem, IH. done.
Qed.

(** A quoted command line reads back as the words it quotes. *)
Lemma split_quoted ws : shlex_split (str_join " " (map shlex_quote ws)) = Some ws.
Proof. apply split_pieces. induction ws; constructor; [apply quote_piece|done]. Qed.
