(* ===== verification/GhReads.v ===== *)
(** * Reading pull requests: [gh/pr_reads.py], [gh/merged.py]

    What the [gh] reads make of the GitHub command line's answers.  [gh] is
    outside: a run of it is missing, failed (an [OSError] or the timeout), or
    a process with an exit code, standard error and standard output, the
    output given by whether it is blank and by the JSON value it holds.  Every
    read fails closed: an answer of another shape is an unknown, never an
    empty list or an unarmed pull request.  At the end, whether a ticket's
    pull request has merged. *)

From S2P Require Import Prelude PyStr PyText.

Definition _GH_PR_STATE_MERGED : string := "MERGED".
Definition _GH_PR_STATE_CLOSED : string := "CLOSED".

(** ** Pull request URLs *)

Definition is_ascii_digit (c : ascii) : bool :=
  let n := nat_of_ascii c in Nat.leb 48 n && Nat.leb n 57.

Definition not_slash (c : ascii) : bool := negb (Ascii.eqb c "/").

Fixpoint digits_value (acc : Z) (s : string) : Z :=
  match s with
  | EmptyString => acc
  | String c s' => digits_value (10 * acc + Z.of_nat (nat_of_ascii c - 48))%Z s'
  end.

(** [int(s)] of ASCII digits. *)
Definition int_of_digits (s : string) : Z := digits_value 0 s.

(** [_PR_URL_RE] at the head of [s].  Each segment is a maximal run, since
    what follows it is a slash. *)
Definition pr_url_at (s : string) : option (string * Z) :=
  if negb (starts_with "github.com/" s) then None
  else
    let '(owner, rest) := take_run not_slash (str_drop 11 s) in
    if String.eqb owner "" then None
    else match rest with
    | EmptyString => None
    | String _ rest =>
        let '(name, rest) := take_run not_slash rest in
        if String.eqb name "" || negb (starts_with "/pull/" rest) then None
        else
          let '(number, _) := take_run is_ascii_digit (str_drop 6 rest) in
          if String.eqb number "" then None
          else Some (owner +:+ "/" +:+ name, int_of_digits number)
    end.

(** [_PR_URL_RE.search]: the leftmost match. *)
Fixpoint parse_pr_url (pr_url : string) : option (string * Z) :=
  match pr_url_at pr_url with
  | Some r => Some r
  | None => match pr_url with EmptyString => None | String _ s => parse_pr_url s end
  end.

Definition github_pr_url (repo : string) (pr_number : Z) : string :=
  "https://github.com/" +:+ repo +:+ "/pull/" +:+ str_of_Z pr_number.

(** ** Runs of [gh] *)

Record completed := mkCompleted {
  returncode : Z;
  stdout_blank : bool;
  stdout_json : option json;
  stderr : string }.

Inductive gh_run := GhMissing | GhFailed | GhRan (c : completed).

(** The command line, by its arguments. *)
Class Gh := gh : list string → gh_run.

Record BranchPr := mkBranchPr {
  bp_number : Z; bp_url : string; bp_state : string; merged_at : option string }.

Record PrHead := mkPrHead {
  ref_name : string; oid : string; base_ref_name : string; ph_state : string;
  auto_merge_armed : bool }.

Record RequiredCheck := mkRequiredCheck {
  rc_name : string; rc_workflow : string; rc_link : string }.

Record OpenPrLookup := mkOpenPrLookup {
  open_pr : option bool; gh_available : bool; op_url : option string }.

Definition _PR_HEAD_FIELDS : string := "headRefName,headRefOid,baseRefName,state,autoMergeRequest".
Definition _PR_CHECKS_FIELDS : string := "name,workflow,bucket,state,link".
Definition _PR_CHECKS_JSON_EXIT_CODES : list Z := [0%Z; 1%Z; 8%Z].
Definition _GH_BUCKET_FAIL : string := "fail".
Definition _NO_REQUIRED_CHECKS_STDERR : string := "no required checks reported on the".
Definition _BRANCH_PRS_LIMIT : Z := 5.

(** [all(... is not None)] over a list of parsed items. *)
Fixpoint all_parsed {A} (l : list (option A)) : option (list A) :=
  match l with
  | [] => Some []
  | x :: l' => match x, all_parsed l' with Some a, Some r => Some (a :: r) | _, _ => None end
  end.

Definition _parse_branch_pr (item : json) : option BranchPr :=
  match jget "number" item, jget "url" item, jget "state" item, jget "mergedAt" item with
  | JInt number, JStr url, JStr state, JStr at_ => Some (mkBranchPr number url state (Some at_))
  | JInt number, JStr url, JStr state, JNull => Some (mkBranchPr number url state None)
  | _, _, _, _ => None
  end.

Definition _parse_branch_prs (stdout : option json) : option (list BranchPr) :=
  match stdout with
  | Some (JList data) => all_parsed (map _parse_branch_pr data)
  | _ => None
  end.

Definition _parse_pr_head (data : list (string * json)) : option PrHead :=
  if negb (dict_has "autoMergeRequest" data) then None
  else
    match dict_get "headRefName" data, dict_get "headRefOid" data, dict_get "baseRefName" data,
          dict_get "state" data, dict_get "autoMergeRequest" data with
    | JStr name, JStr o, JStr base, JStr state, JNull => Some (mkPrHead name o base state false)
    | JStr name, JStr o, JStr base, JStr state, JDict _ => Some (mkPrHead name o base state true)
    | _, _, _, _, _ => None
    end.

(** One entry: [None] malformed, [Some None] not failing. *)
Definition parse_required_check (item : json) : option (option RequiredCheck) :=
  match jget "name" item, jget "bucket" item with
  | JStr name, JStr bucket =>
      if negb (String.eqb bucket _GH_BUCKET_FAIL) then Some None
      else Some (Some (mkRequiredCheck name (default "" (as_str (jget "workflow" item)))
                         (default "" (as_str (jget "link" item)))))
  | _, _ => None
  end.

Definition _parse_required_checks (stdout : option json) : option (list RequiredCheck) :=
  match stdout with
  | Some (JList data) => option_map (omap id) (all_parsed (map parse_required_check data))
  | _ => None
  end.

Definition _first_open_pr_url (data : json) : option string :=
  match data with
  | JList (first :: _) =>
      match jget "url" first with
      | JStr url => if String.eqb url "" then None else Some url
      | _ => None
      end
  | _ => None
  end.

(** [len(data) > 0]: [TypeError] on a number, a boolean or [null]. *)
Definition json_nonempty (data : json) : option bool :=
  match data with
  | JList l => Some (negb (bool_decide (length l = 0)))
  | JDict d => Some (negb (bool_decide (length d = 0)))
  | JStr s => Some (negb (String.eqb s ""))
  | _ => None
  end.

Section Reads.
Context {G : Gh}.

Definition fetch_pr_view (pr_ref fields : string) : option (list (string * json)) :=
  match gh ["gh"; "pr"; "view"; pr_ref; "--json"; fields] with
  | GhRan r =>
      if negb (Z.eqb r.(returncode) 0) then None
      else match r.(stdout_json) with Some (JDict data) => Some data | _ => None end
  | _ => None
  end.

Definition fetch_branch_prs (branch : string) : option (list BranchPr) * bool :=
  match gh ["gh"; "pr"; "list"; "--head"; branch; "--state"; "all"; "--json";
            "number,url,state,mergedAt"; "--limit"; str_of_Z _BRANCH_PRS_LIMIT] with
  | GhMissing => (None, false)
  | GhFailed => (None, true)
  | GhRan r =>
      if negb (Z.eqb r.(returncode) 0) then (None, true)
      else (_parse_branch_prs r.(stdout_json), true)
  end.

Definition fetch_pr_head (pr_ref : string) : option PrHead :=
  data ← fetch_pr_view pr_ref _PR_HEAD_FIELDS; _parse_pr_head data.

(** [None] unknown, [Some []] none failing. *)
Definition fetch_required_failing_checks (pr_ref : string) : option (list RequiredCheck) :=
  match gh ["gh"; "pr"; "checks"; pr_ref; "--required"; "--json"; _PR_CHECKS_FIELDS] with
  | GhRan r =>
      if Z.eqb r.(returncode) 1 && r.(stdout_blank)
         && str_contains _NO_REQUIRED_CHECKS_STDERR r.(stderr) then Some []
      else if negb (bool_decide (r.(returncode) ∈ _PR_CHECKS_JSON_EXIT_CODES)) then None
      else _parse_required_checks r.(stdout_json)
  | _ => None
  end.

Definition pr_exists_for_branch (branch : string) : exn + OpenPrLookup :=
  match gh ["gh"; "pr"; "list"; "--head"; branch; "--state"; "open"; "--json"; "number,url"] with
  | GhMissing => inr (mkOpenPrLookup None false None)
  | GhFailed => inr (mkOpenPrLookup None true None)
  | GhRan r =>
      if negb (Z.eqb r.(returncode) 0) then inr (mkOpenPrLookup None true None)
      else match r.(stdout_json) with
      | None => inr (mkOpenPrLookup None true None)
      | Some data =>
          match json_nonempty data with
          | Some b => inr (mkOpenPrLookup (Some b) true (_first_open_pr_url data))
          | None => inl TypeError
          end
      end
  end.
End Reads.

(** * Whether a ticket's pull request has merged: [gh/merged.py]

    The issue's linked pull requests answer first; the branch only when GitHub
    cannot say which they are.  Every call is scoped to a directory, and so to
    the repository [gh] finds there. *)

#[local] Open Scope cw_scope.

Definition TIMED_OUT_MERGED_LOOKBACK_DAYS : Z := 7.

(** The command line in a directory ([None]: the process's own), and [int(...)]
    of a JSON text or float. *)
Class GhAt := {
  gh_at : option string → list string → gh_run;
  int_of_text : string → option Z;
  int_of_float : string → option Z }.

Section Merged.
Context {G : GhAt}.

(** [int(x)] of a JSON value. *)
Definition int_of_json (j : json) : exn + Z :=
  match j with
  | JInt n => inr n
  | JBool b => inr (if b then 1 else 0)%Z
  | JStr s => match int_of_text s with Some n => inr n | None => inl ValueError end
  | JFloat r => match int_of_float r with Some n => inr n | None => inl ValueError end
  | _ => inl TypeError
  end.

(** A missing binary is raised ([inl]); any other failure is [None]. *)
Definition _fetch_issue_pr_refs (tid : string) (cwd : option string) : unit + option json :=
  match gh_at cwd ["gh"; "issue"; "view"; tid; "--json"; "closedByPullRequestsReferences"] with
  | GhMissing => inl tt
  | GhFailed => inr None
  | GhRan r =>
      if negb (Z.eqb r.(returncode) 0) then inr None
      else inr match r.(stdout_json) with
               | Some (JDict d) =>
                   Some (json_or (dict_get "closedByPullRequestsReferences" d) (JList []))
               | _ => None
               end
  end.

(** [len(data)] of a number is not caught. *)
Definition _fetch_branch_merged_pr (branch : string) (cwd : option string)
  : exn + option bool * bool :=
  match gh_at cwd ["gh"; "pr"; "list"; "--head"; branch; "--state"; "merged"; "--json"; "number";
                   "--limit"; "1"] with
  | GhMissing => inr (None, false)
  | GhFailed => inr (None, true)
  | GhRan r =>
      if negb (Z.eqb r.(returncode) 0) then inr (None, true)
      else match r.(stdout_json) with
           | None => inr (None, true)
           | Some data => match json_nonempty data with
                          | Some b => inr (Some b, true)
                          | None => inl TypeError
                          end
           end
  end.

(** The state, [None] on an error: [inl None] a missing binary, [inl (Some e)]
    what is not caught. *)
Definition _fetch_pr_state (pr_number : Z) (cwd : option string)
  : option exn + option string :=
  match gh_at cwd ["gh"; "pr"; "view"; str_of_Z pr_number; "--json"; "state"] with
  | GhMissing => inl None
  | GhFailed => inr None
  | GhRan r =>
      if negb (Z.eqb r.(returncode) 0) then inr None
      else match r.(stdout_json) with
           | None => inr None
           | Some (JDict d) => inr (Some (json_str (dict_get_default "state" (JStr "") d)))
           | Some _ => inl (Some AttributeError)
           end
  end.

(** [for ref in refs]. *)
Fixpoint any_ref_merged (refs : list json) (cwd : option string) : exn + option bool * bool :=
  match refs with
  | [] => inr (Some false, true)
  | JDict d :: refs' =>
      match dict_get "number" d with
      | JNull => any_ref_merged refs' cwd
      | number =>
          match int_of_json number with
          | inl e => inl e
          | inr n =>
              match _fetch_pr_state n cwd with
              | inl None => inr (None, false)
              | inl (Some e) => inl e
              | inr state =>
                  if bool_decide (state = Some _GH_PR_STATE_MERGED) then inr (Some true, true)
                  else any_ref_merged refs' cwd
              end
          end
      end
  | _ :: _ => inl AttributeError
  end.

(** The elements a [for] visits: the keys of an object, the characters of a
    text, which are texts either way. *)
Definition json_elements (refs : json) : exn + list json :=
  match refs with
  | JList l => inr l
  | JDict d => inr (map (λ kv, JStr kv.1) d)
  | JStr s => inr (map (λ c, JStr (String c EmptyString)) (String.list_ascii_of_string s))
  | _ => inl TypeError
  end.

Definition pr_is_merged_for_ticket (tid : string) (branch : option string) (cwd : option string)
  : exn + option bool * bool :=
  match _fetch_issue_pr_refs tid cwd with
  | inl _ => inr (None, false)
  | inr None => match branch with
                | None => inr (None, true)
                | Some b => _fetch_branch_merged_pr b cwd
                end
  | inr (Some refs) => match json_elements refs with
                       | inl e => inl e
                       | inr l => any_ref_merged l cwd
                       end
  end.

(** ** What a merged verdict saw *)

(** A linked pull request GitHub reports merged, or a merged pull request of the
    branch, in that directory. *)
Definition saw_merge (tid : string) (branch : option string) (cwd : option string) : Prop :=
  (∃ refs l d n, _fetch_issue_pr_refs tid cwd = inr (Some refs) ∧ json_elements refs = inr l
     ∧ JDict d ∈ l ∧ int_of_json (dict_get "number" d) = inr n
     ∧ _fetch_pr_state n cwd = inr (Some _GH_PR_STATE_MERGED))
  ∨ (∃ b, branch = Some b ∧ _fetch_issue_pr_refs tid cwd = inr None
       ∧ _fetch_branch_merged_pr b cwd = inr (Some true, true)).

Lemma any_ref_spec refs cwd :
  any_ref_merged refs cwd = inr (Some true, true) →
  ∃ d n, JDict d ∈ refs ∧ int_of_json (dict_get "number" d) = inr n
    ∧ _fetch_pr_state n cwd = inr (Some _GH_PR_STATE_MERGED).
Proof.
  induction refs as [|r refs IH]; [done|]. cbn [any_ref_merged].
  assert (Hrest : any_ref_merged refs cwd = inr (Some true, true) →
    ∃ d n, JDict d ∈ r :: refs ∧ int_of_json (dict_get "number" d) = inr n
      ∧ _fetch_pr_state n cwd = inr (Some _GH_PR_STATE_MERGED)).
  { intros (d & n & Hd & H)%IH. exists d, n. split; [by right|done]. }
  destruct r as [| | | | | |d]; try done.
  destruct (dict_get "number" d) eqn:Hn; [exact Hrest|..].
  all: destruct (int_of_json _) as [e|n] eqn:Hi; [done|].
  all: destruct (_fetch_pr_state n cwd) as [[e|]|state] eqn:Hf; try done.
  all: destruct (bool_decide_reflect (state = Some _GH_PR_STATE_MERGED)) as [->|_]; [|exact Hrest].
  all: intros _; exists d, n; split; [by left|]; split; [by rewrite Hn|done].
Qed.

Lemma merged_saw tid branch cwd :
  pr_is_merged_for_ticket tid branch cwd = inr (Some true, true) → saw_merge tid branch cwd.
Proof.
  unfold pr_is_merged_for_ticket. destruct (_fetch_issue_pr_refs tid cwd) as [u|[refs|]] eqn:Hr; [done| |].
  - destruct (json_elements refs) as [e|l] eqn:Hl; [done|]. intros (d & n & ? & ? & ?)%any_ref_spec.
    left. by exists refs, l, d, n.
  - destruct branch as [b|]; [|done]. intros Hb. right. by exists b.
Qed.
End Merged.
