(* ===== verification/Markers.v ===== *)
(** * The wire grammar of the review comment markers

    [review_markers.py]: the tokens the parsers of the ticket comments key on,
    and the two functions that make model-written text inert:
    [neutralise_marker_syntax] for prose and [escape_angle_brackets_in_json]
    for the settle payload.  [neutralised_opens_no_marker] shows that no
    comment opener and no sentinel survives; [neutralised_close] and
    [neutralise_leaves_close] that a comment closer survives exactly when the
    text holds an opener whose last hyphen also starts a closer. *)

From S2P Require Import Prelude PyStr PyText.

Definition DISPOSITION_SENTINEL : string := "REVIEW-FINDING-DISPOSITIONS".
Definition VOIDED_SENTINEL : string := "VOIDED-REVIEW-FINDINGS".
Definition SETTLE_SECTION_HEADING : string := "### Settle a finding".
Definition _COMMENT_OPEN : string := "<!--".
Definition _COMMENT_CLOSE : string := "-->".

(** The escapes, in the order of [_MARKER_RE]'s alternatives (longest first). *)
Definition _MARKER_ESCAPES : list (string * string) :=
  [(DISPOSITION_SENTINEL, "REVIEW-FINDING\-DISPOSITIONS");
   (VOIDED_SENTINEL, "VOIDED-REVIEW\-FINDINGS");
   (_COMMENT_OPEN, "<!-\-");
   (_COMMENT_CLOSE, "--\>")].

(** The first alternative of [_MARKER_RE] that matches at the head of [s]. *)
Definition _MARKER_RE (s : string) : option (string * string) :=
  list_find (λ te, starts_with te.1 s = true) _MARKER_ESCAPES ≫= λ p, Some p.2.

(** [re.sub]: leftmost match first, the characters of a match skipped. *)
Fixpoint marker_sub (skip : nat) (s : string) : string :=
  match s with
  | EmptyString => EmptyString
  | String c s' =>
      match skip with
      | S k => marker_sub k s'
      | O =>
          match _MARKER_RE s with
          | Some (token, escaped) =>
              escaped +:+ marker_sub (String.length token - 1) s'
          | None => String c (marker_sub 0 s')
          end
      end
  end.

Definition neutralise_marker_syntax (text : string) : string := marker_sub 0 text.

(** [_JSON_ANGLE_RE.sub]. *)
Fixpoint escape_angle_brackets_in_json (rendered : string) : string :=
  match rendered with
  | EmptyString => EmptyString
  | String c s =>
      if Ascii.eqb c "<" then "\u003c" +:+ escape_angle_brackets_in_json s
      else if Ascii.eqb c ">" then "\u003e" +:+ escape_angle_brackets_in_json s
      else String c (escape_angle_brackets_in_json s)
  end.

(** A ledger record the reader refused, and one whose code moved. *)
Record RefusedDisposition := mkRefusedDisposition {
  rd_key : string;
  rd_missing : list string }.

Record StaleDisposition := mkStaleDisposition {
  sd_key : string;
  sd_reviewed_sha : string;
  sd_current_sha : string }.

(** ** What the reader of a JSON string literal sees

    The body of a string literal as a sequence of bytes and, for a [\uXXXX]
    escape outside ASCII, UTF-16 code units. *)
Definition hex_value (c : ascii) : option nat :=
  let n := nat_of_ascii c in
  if Nat.leb 48 n && Nat.leb n 57 then Some (n - 48)
  else if Nat.leb 97 n && Nat.leb n 102 then Some (n - 87)
  else if Nat.leb 65 n && Nat.leb n 70 then Some (n - 55)
  else None.

Definition short_escape (c : ascii) : option ascii :=
  match c with
  | "n"%char => Some (ascii_of_nat 10)
  | "r"%char => Some (ascii_of_nat 13)
  | "t"%char => Some (ascii_of_nat 9)
  | "b"%char => Some (ascii_of_nat 8)
  | "f"%char => Some (ascii_of_nat 12)
  | "/"%char | "\"%char => Some c
  | _ => if Ascii.eqb c DQUOTE then Some c else None
  end.

Definition code_unit (n : nat) : ascii + nat :=
  if Nat.ltb n 128 then inl (ascii_of_nat n) else inr n.

Fixpoint json_literal (s : string) : option (list (ascii + nat)) :=
  match s with
  | EmptyString => Some []
  | String c s' =>
      if Ascii.eqb c "\" then
        match s' with
        | String "u" (String a (String b (String d (String e s'')))) =>
            a' ← hex_value a; b' ← hex_value b; d' ← hex_value d; e' ← hex_value e;
            rest ← json_literal s'';
            Some (code_unit (((a' * 16 + b') * 16 + d') * 16 + e') :: rest)
        | String k s'' =>
            c' ← short_escape k; rest ← json_literal s''; Some (inl c' :: rest)
        | EmptyString => None
        end
      else if Ascii.eqb c DQUOTE || Nat.ltb (nat_of_ascii c) 32 then None
      else rest ← json_literal s'; Some (inl c :: rest)
  end.

(** ** What survives neutralising *)

Lemma marker_sub_head s token escaped c s' :
  s = String c s' → _MARKER_RE s = Some (token, escaped) →
  marker_sub 0 s = escaped +:+ marker_sub (String.length token - 1) s'.
Proof. intros -> H. cbn [marker_sub]. by rewrite H. Qed.

Fixpoint has_backslash (s : string) : bool :=
  match s with EmptyString => false | String c s' => Ascii.eqb c "\" || has_backslash s' end.

Lemma marker_re_cases s token escaped :
  _MARKER_RE s = Some (token, escaped) →
  (token, escaped) ∈ _MARKER_ESCAPES ∧ starts_with token s = true.
Proof.
  unfold _MARKER_RE. destruct (list_find _ _) as [[i p]|] eqn:E; [|done].
  intros [= ->]. apply list_find_Some in E as (H1 & H2 & _).
  split; [by eapply list_elem_of_lookup_2|done].
Qed.

Lemma marker_re_none s token :
  token ∈ _MARKER_ESCAPES.*1 → starts_with token s = true → _MARKER_RE s ≠ None.
Proof.
  intros ([t e] & -> & Hin)%list_elem_of_fmap Hs. unfold _MARKER_RE.
  destruct (list_find _ _) as [[i p]|] eqn:E; [done|].
  apply list_find_None in E. by apply (proj1 (Forall_forall _ _) E _ Hin) in Hs.
Qed.

(** An escape is its token with one backslash inserted. *)
Lemma escapes_shape token escaped :
  (token, escaped) ∈ _MARKER_ESCAPES →
  ∃ pre post, token = pre +:+ post ∧ escaped = pre +:+ String "\" post
    ∧ (pre, post) ∈ [("REVIEW-FINDING", "-DISPOSITIONS"); ("VOIDED-REVIEW", "-FINDINGS");
                     ("<!-", "-"); ("--", ">")].
Proof.
  intros H. repeat (apply elem_of_cons in H as [[= -> ->]|H]); try by apply elem_of_nil in H.
  - exists "REVIEW-FINDING", "-DISPOSITIONS". repeat split; set_solver.
  - exists "VOIDED-REVIEW", "-FINDINGS". repeat split; set_solver.
  - exists "<!-", "-". repeat split; set_solver.
  - exists "--", ">". repeat split; set_solver.
Qed.

Lemma str_contains_nil c T : str_contains (String c T) "" = false.
Proof. done. Qed.

Lemma str_contains_cons T c s :
  str_contains T (String c s) = starts_with T (String c s) || str_contains T s.
Proof.
  unfold str_contains. rewrite (str_split1_eq T (String c s)).
  destruct (starts_with _ _); [done|]. by destruct (str_split1 T s) as [[??]|].
Qed.

Lemma starts_with_head t c s :
  t ≠ "" → starts_with t (String c s) = true →
  ∃ t', t = String c t' ∧ starts_with t' s = true.
Proof.
  destruct t as [|a t]; [done|]. intros _. cbn [starts_with].
  intros [->%Ascii.eqb_eq H]%andb_true_iff. eauto.
Qed.

Lemma starts_with_app_l a b s : starts_with a b = true → starts_with a (b +:+ s) = true.
Proof.
  revert b. induction a as [|x a IH]; intros b; [done|]. destruct b as [|y b]; simpl; [done|].
  intros [-> H]%andb_true_iff. simpl. by apply IH.
Qed.

Lemma starts_with_trans a b s :
  starts_with a b = true → starts_with b s = true → starts_with a s = true.
Proof.
  intros Ha Hb. rewrite (starts_with_split b s Hb). by apply starts_with_app_l.
Qed.

Lemma starts_with_before_backslash R pre x :
  has_backslash R = false → starts_with R (pre +:+ String "\" x) = true →
  starts_with R pre = true.
Proof.
  revert R. induction pre as [|c pre IH]; intros R HR.
  - destruct R as [|a R]; [done|]. simpl in *. apply orb_false_iff in HR as [HR _].
    by rewrite HR.
  - rewrite sapp_cons. destruct R as [|a R]; [done|]. simpl in *.
    apply orb_false_iff in HR as [_ HR]. intros [-> H]%andb_true_iff. simpl. by apply IH.
Qed.

(** Text that reaches the output without a backslash was already there. *)
Lemma marker_sub_prefix R s :
  has_backslash R = false → starts_with R (marker_sub 0 s) = true → starts_with R s = true.
Proof.
  revert R. induction s as [|c s IH]; intros R HR; [done|]. cbn [marker_sub].
  destruct (_MARKER_RE (String c s)) as [[token escaped]|] eqn:E.
  - apply marker_re_cases in E as [Hin Hs].
    apply escapes_shape in Hin as (pre & post & -> & -> & _). rewrite sapp_assoc.
    intros H%starts_with_before_backslash; [|done].
    by eapply starts_with_trans, Hs; apply starts_with_app_l.
  - destruct R as [|a R]; [done|]. simpl in *. apply orb_false_iff in HR as [_ HR].
    intros [-> H]%andb_true_iff. simpl. by apply IH.
Qed.

Lemma marker_sub_skip k s : marker_sub k s = marker_sub 0 (str_drop k s).
Proof.
  revert s. induction k as [|k IH]; intros s; [done|]. destruct s as [|c s]; [done|].
  cbn [marker_sub str_drop]. apply IH.
Qed.

Lemma contains_across_backslash a T pre x :
  has_backslash (String a T) = false →
  str_contains (String a T) (pre +:+ String "\" x) = true →
  str_contains (String a T) pre = true ∨ str_contains (String a T) x = true.
Proof.
  intros HT. induction pre as [|c pre IH].
  - change ("" +:+ String "\" x) with (String "\" x). rewrite str_contains_cons.
    intros [H|H]%orb_true_iff; [|by right].
    simpl in H, HT. apply orb_false_iff in HT as [HT _]. by rewrite HT in H.
  - rewrite sapp_cons, !str_contains_cons. intros [H|H]%orb_true_iff.
    + left. apply orb_true_iff. left. rewrite <- sapp_cons in H.
      by apply starts_with_before_backslash in H.
    + destruct (IH H) as [H'|H']; [left|by right]. by rewrite H', orb_true_r.
Qed.

Lemma contains_skip_absent a T post x :
  str_existsb (Ascii.eqb a) post = false →
  str_contains (String a T) (post +:+ x) = true → str_contains (String a T) x = true.
Proof.
  induction post as [|c post IH]; [done|]. rewrite sapp_cons. cbn [str_existsb].
  intros [H1 H2]%orb_false_iff. rewrite str_contains_cons. cbn [starts_with]. rewrite H1.
  by apply IH.
Qed.

(** One step of the substitution, for a token to look for in the output. *)
Lemma marker_sub_step a T s :
  has_backslash (String a T) = false →
  (∀ pre, pre ∈ ["REVIEW-FINDING"; "VOIDED-REVIEW"; "<!-"; "--"] →
     str_contains (String a T) pre = false) →
  str_contains (String a T) (marker_sub 0 s) = true →
  starts_with (String a T) s = true ∧ _MARKER_RE s = None
  ∨ (∃ c s', s = String c s' ∧ str_contains (String a T) (marker_sub 0 s') = true
       ∧ _MARKER_RE s = None)
  ∨ ∃ pre post r, s = (pre +:+ post) +:+ r
      ∧ (pre, post) ∈ [("REVIEW-FINDING", "-DISPOSITIONS"); ("VOIDED-REVIEW", "-FINDINGS");
                       ("<!-", "-"); ("--", ">")]
      ∧ str_contains (String a T) (post +:+ marker_sub 0 r) = true.
Proof.
  intros HT Hpre. destruct s as [|c s]; [done|]. cbn [marker_sub].
  destruct (_MARKER_RE (String c s)) as [[token escaped]|] eqn:E.
  - apply marker_re_cases in E as [Hin Hs].
    apply escapes_shape in Hin as (pre & post & -> & -> & Hpp). rewrite sapp_assoc.
    intros [H|H]%contains_across_backslash; [|right; right|done].
    { rewrite Hpre in H; [done|]. set_solver. }
    rewrite marker_sub_skip in H.
    exists pre, post, (str_drop (String.length (pre +:+ post) - 1) s).
    split; [|done].
    rewrite (starts_with_split _ _ Hs) at 1. f_equal.
    by destruct pre as [|p pre]; [set_solver|]; simpl; rewrite Nat.sub_0_r.
  - rewrite str_contains_cons. intros [H|H]%orb_true_iff; [left|right; left; eauto].
    split; [|done]. apply marker_sub_prefix; [done|]. cbn [marker_sub]. by rewrite E.
Qed.

Definition OPENERS : list string := [DISPOSITION_SENTINEL; VOIDED_SENTINEL; _COMMENT_OPEN].

Lemma opener_shape T :
  T ∈ OPENERS → ∃ a T', T = String a T' ∧ has_backslash T = false
    ∧ T ∈ _MARKER_ESCAPES.*1
    ∧ (∀ pre, pre ∈ ["REVIEW-FINDING"; "VOIDED-REVIEW"; "<!-"; "--"] →
         str_contains T pre = false)
    ∧ (∀ post, post ∈ ["-DISPOSITIONS"; "-FINDINGS"; "-"; ">"] →
         str_existsb (Ascii.eqb a) post = false).
Proof.
  assert (Hall : ∀ (P : string → bool) l, forallb P l = true → ∀ x, x ∈ l → P x = true).
  { intros P l Hl x Hx. apply Is_true_eq_left, forallb_True in Hl. rewrite Forall_forall in Hl.
    by apply Is_true_eq_true, Hl. }
  intros H. repeat (apply elem_of_cons in H as [->|H]); try by apply elem_of_nil in H.
  all: eexists _, _; split; [reflexivity|]; split; [reflexivity|];
    split; [by apply (bool_decide_unpack _)|]; split; intros x Hx;
    apply negb_true_iff; revert x Hx; apply Hall; reflexivity.
Qed.

Lemma openers_gone T s : T ∈ OPENERS → str_contains T (neutralise_marker_syntax s) = false.
Proof.
  intros HT. destruct (opener_shape T HT) as (a & T' & -> & Hb & Hesc & Hpre & Hpost).
  unfold neutralise_marker_syntax. apply not_true_is_false.
  remember (String.length s) as n eqn:Hn. revert s Hn.
  induction (lt_wf n) as [n _ IH]. intros s -> H.
  apply marker_sub_step in H as [[Hs Hnone]|[(c & s' & -> & H & _)|(pre & post & r & -> & Hpp & H)]];
    [| | |done|done].
  - by eapply marker_re_none in Hnone.
  - eapply IH; [|reflexivity|exact H]. simpl. lia.
  - apply contains_skip_absent in H; [|apply Hpost; set_solver].
    eapply IH; [|reflexivity|exact H]. rewrite !str_length_app.
    assert (pre ≠ "") by set_solver. destruct pre; [done|]. simpl. lia.
Qed.

(** The characters that reopen a closer: an opener followed by [->]. *)
Definition HALF_CLOSED : string := "<!--->".

Lemma closer_survives_only s :
  str_contains _COMMENT_CLOSE (neutralise_marker_syntax s) = true →
  str_contains HALF_CLOSED s = true.
Proof.
  unfold neutralise_marker_syntax. remember (String.length s) as n eqn:Hn. revert s Hn.
  induction (lt_wf n) as [n _ IH]. intros s -> H.
  assert (Hmono : ∀ a b, str_contains HALF_CLOSED b = true → str_contains HALF_CLOSED (a +:+ b) = true).
  { intros a b Hb. induction a as [|x a IHa]; [done|]. rewrite sapp_cons, str_contains_cons.
    by rewrite IHa, orb_true_r. }
  apply marker_sub_step in H as [[Hs Hnone]|[(c & s' & -> & H & _)|(pre & post & r & -> & Hpp & H)]];
    [| | |done|].
  - exfalso. by eapply (marker_re_none _ _COMMENT_CLOSE) in Hnone; [|apply (bool_decide_unpack _)|].
  - apply (Hmono (String c "")), (IH (String.length s') ltac:(simpl; lia) s' eq_refl H).
  - assert (Hr : str_contains _COMMENT_CLOSE (marker_sub 0 r) = true →
                 str_contains HALF_CLOSED ((pre +:+ post) +:+ r) = true).
    { intros Hc. apply Hmono. eapply IH; [|reflexivity|exact Hc]. rewrite !str_length_app.
      assert (pre ≠ "") by set_solver. destruct pre; [done|]. simpl. lia. }
    assert (Hskip : ∀ x y, Ascii.eqb "-" x = false →
              str_contains _COMMENT_CLOSE (String x y) = true →
              str_contains _COMMENT_CLOSE y = true).
    { intros x y Hx. rewrite str_contains_cons. unfold _COMMENT_CLOSE at 1. cbn [starts_with].
      by rewrite Hx. }
    assert (Hhyp : ∀ x y, Ascii.eqb "-" x = false →
              str_contains _COMMENT_CLOSE (String "-" (String x y)) = true →
              str_contains _COMMENT_CLOSE (String x y) = true).
    { intros x y Hx. rewrite str_contains_cons. unfold _COMMENT_CLOSE at 1. cbn [starts_with].
      by rewrite Hx. }
    repeat (apply elem_of_cons in Hpp as [[= -> ->]|Hpp]); try by apply elem_of_nil in Hpp.
    all: rewrite ?sapp_cons, ?sapp_nil in H.
    + apply Hr. apply Hhyp in H; [|done]. by repeat (apply Hskip in H; [|done]).
    + apply Hr. apply Hhyp in H; [|done]. by repeat (apply Hskip in H; [|done]).
    + rewrite str_contains_cons in H. apply orb_true_iff in H as [H|H]; [|by apply Hr].
      change (starts_with "->" (marker_sub 0 r) = true) in H.
      apply marker_sub_prefix in H; [|done].
      by rewrite (starts_with_split _ _ H).
    + apply Hr. by apply Hskip in H.
  - intros pre Hp. repeat (apply elem_of_cons in Hp as [->|Hp]; [reflexivity|]).
    by apply elem_of_nil in Hp.
Qed.

Lemma half_closed_survives s :
  str_contains HALF_CLOSED s = true →
  str_contains _COMMENT_CLOSE (neutralise_marker_syntax s) = true.
Proof.
  assert (Hmono : ∀ a b, str_contains _COMMENT_CLOSE b = true →
                    str_contains _COMMENT_CLOSE (a +:+ b) = true).
  { intros a b Hb. induction a as [|x a IHa]; [done|]. rewrite sapp_cons, str_contains_cons.
    by rewrite IHa, orb_true_r. }
  unfold neutralise_marker_syntax. remember (String.length s) as n eqn:Hn. revert s Hn.
  induction (lt_wf n) as [n _ IH]. intros s -> H. destruct s as [|c s]; [done|].
  rewrite str_contains_cons in H. apply orb_true_iff in H as [H|H].
  { rewrite (starts_with_split _ _ H). generalize (str_drop (String.length HALF_CLOSED) (String c s)).
    intros r. reflexivity. }
  cbn [marker_sub]. destruct (_MARKER_RE (String c s)) as [[token escaped]|] eqn:E.
  - apply marker_re_cases in E as [Hin Hs]. apply Hmono. rewrite marker_sub_skip.
    eapply IH; [|reflexivity|].
    { pose proof (str_drop_length (String.length token - 1) s). simpl. lia. }
    destruct (starts_with_head token c s) as (tl & -> & Hst); [set_solver|done|].
    assert (Hlt : str_existsb (Ascii.eqb "<") tl = false).
    { unfold _MARKER_ESCAPES in Hin.
      repeat (apply elem_of_cons in Hin as [[= -> -> ->]|Hin]; [reflexivity|]).
      by apply elem_of_nil in Hin. }
    rewrite (starts_with_split _ _ Hst) in H. simpl. rewrite Nat.sub_0_r.
    by apply contains_skip_absent in H.
  - apply (Hmono (String c "")). by eapply IH; [|reflexivity|]; [simpl; lia|].
Qed.

Lemma neutralised_close s :
  str_contains _COMMENT_CLOSE (neutralise_marker_syntax s) = str_contains HALF_CLOSED s.
Proof.
  apply eq_true_iff_eq. split; [apply closer_survives_only|apply half_closed_survives].
Qed.

(** Neutralised text holds no comment opener and neither sentinel, so no
    parser finds the start of a record in it.  A comment closer survives
    exactly when the text holds an opener directly followed by [->]: the
    opener's escape ends in a hyphen that completes a closer, and a second
    pass then changes the text again. *)
Theorem neutralised_text_is_inert s :
  (∀ token, token ∈ OPENERS → str_contains token (neutralise_marker_syntax s) = false)
  ∧ str_contains _COMMENT_CLOSE (neutralise_marker_syntax s) = str_contains HALF_CLOSED s
  ∧ neutralise_marker_syntax "<!--->" = "<!-\-->"
  ∧ neutralise_marker_syntax (neutralise_marker_syntax "<!--->") = "<!-\--\>".
Proof.
  split; [intros T HT; by apply openers_gone|]. split; [apply neutralised_close|done].
Qed.

(** ** The settle payload *)

Lemma json_literal_cons c s :
  Ascii.eqb c "\" = false →
  json_literal (String c s) =
    if Ascii.eqb c DQUOTE || Nat.ltb (nat_of_ascii c) 32 then None
    else rest ← json_literal s; Some (inl c :: rest).
Proof. intros H. cbn [json_literal]. by rewrite H. Qed.

Lemma escape_angle_other c s :
  Ascii.eqb c "<" = false → Ascii.eqb c ">" = false →
  escape_angle_brackets_in_json (String c s) = String c (escape_angle_brackets_in_json s).
Proof. intros H1 H2. cbn [escape_angle_brackets_in_json]. by rewrite H1, H2. Qed.

Lemma hex_not_angle c v :
  hex_value c = Some v → Ascii.eqb c "<" = false ∧ Ascii.eqb c ">" = false.
Proof.
  intros H. split; apply Ascii.eqb_neq; intros ->; by vm_compute in H.
Qed.

Lemma short_not_angle c v :
  short_escape c = Some v → Ascii.eqb c "<" = false ∧ Ascii.eqb c ">" = false.
Proof.
  intros H. split; apply Ascii.eqb_neq; intros ->; by vm_compute in H.
Qed.

Lemma json_literal_unicode a b d e s :
  json_literal (String "\" (String "u" (String a (String b (String d (String e s))))))
  = (a' ← hex_value a; b' ← hex_value b; d' ← hex_value d; e' ← hex_value e;
     rest ← json_literal s;
     Some (code_unit (((a' * 16 + b') * 16 + d') * 16 + e') :: rest)).
Proof. done. Qed.

Lemma json_literal_short k s :
  k ≠ "u"%char →
  json_literal (String "\" (String k s))
  = (c' ← short_escape k; rest ← json_literal s; Some (inl c' :: rest)).
Proof. destruct k as [[] [] [] [] [] [] [] []]; intros H; try reflexivity. done. Qed.

Lemma json_literal_u s l :
  json_literal (String "\" (String "u" s)) = Some l →
  ∃ a b d e s', s = String a (String b (String d (String e s'))).
Proof.
  intros H. destruct s as [|a [|b [|d [|e s]]]]; try (by vm_compute in H).
  by exists a, b, d, e, s.
Qed.

Definition no_angle (s : string) : bool :=
  negb (str_existsb (λ c, Ascii.eqb c "<" || Ascii.eqb c ">") s).

Lemma no_angle_cons c s :
  Ascii.eqb c "<" = false → Ascii.eqb c ">" = false → no_angle (String c s) = no_angle s.
Proof. intros H1 H2. unfold no_angle. cbn [str_existsb]. by rewrite H1, H2. Qed.

Lemma escape_no_angle s : no_angle (escape_angle_brackets_in_json s) = true.
Proof.
  induction s as [|c s IH]; [done|]. cbn [escape_angle_brackets_in_json].
  destruct (Ascii.eqb c "<") eqn:H1; [exact IH|].
  destruct (Ascii.eqb c ">") eqn:H2; [exact IH|]. by rewrite no_angle_cons.
Qed.

Lemma escape_keeps_literal s l :
  json_literal s = Some l → json_literal (escape_angle_brackets_in_json s) = Some l.
Proof.
  remember (String.length s) as n eqn:Hn. revert s l Hn.
  induction (lt_wf n) as [n _ IH]. intros s l -> H.
  destruct s as [|c s]; [done|]. destruct (Ascii.eqb_spec c "\") as [->|Hc].
  - rewrite escape_angle_other by done. destruct s as [|k s]; [done|].
    destruct (Ascii.eqb_spec k "u") as [->|Hk].
    + destruct (json_literal_u _ _ H) as (a & b & d & e & s' & ->).
      rewrite escape_angle_other by done.
      rewrite json_literal_unicode in H.
      destruct (hex_value a) eqn:Ha; [|done]. destruct (hex_value b) eqn:Hb; [|done].
      destruct (hex_value d) eqn:Hd; [|done]. destruct (hex_value e) eqn:He; [|done].
      destruct (hex_not_angle _ _ Ha), (hex_not_angle _ _ Hb), (hex_not_angle _ _ Hd),
        (hex_not_angle _ _ He).
      rewrite !escape_angle_other by done. rewrite json_literal_unicode, Ha, Hb, Hd, He.
      simpl in H |- *. destruct (json_literal s') as [r|] eqn:E; [|done].
      by rewrite (IH (String.length s') ltac:(simpl; lia) s' r eq_refl E).
    + rewrite json_literal_short in H by done.
      destruct (short_escape k) eqn:Hs; [|done].
      destruct (short_not_angle _ _ Hs). rewrite escape_angle_other by done.
      rewrite json_literal_short, Hs by done. simpl in H |- *.
      destruct (json_literal s) as [r|] eqn:E; [|done].
      by rewrite (IH (String.length s) ltac:(simpl; lia) s r eq_refl E).
  - assert (Hc' : Ascii.eqb c "\" = false) by (by apply Ascii.eqb_neq).
    rewrite json_literal_cons in H by done. destruct (_ || _) eqn:Hq; [done|].
    destruct (json_literal s) as [r|] eqn:E; [|done]. simpl in H. injection H as <-.
    pose proof (IH (String.length s) ltac:(simpl; lia) s r eq_refl E) as Hr.
    destruct (Ascii.eqb_spec c "<") as [->|H1]; [cbn [escape_angle_brackets_in_json]|].
    { change (json_literal ("\u003c" +:+ escape_angle_brackets_in_json s) = Some (inl "<"%char :: r)).
      rewrite !sapp_cons, sapp_nil, json_literal_unicode. by rewrite Hr. }
    destruct (Ascii.eqb_spec c ">") as [->|H2]; [cbn [escape_angle_brackets_in_json]|].
    { change (json_literal ("\u003e" +:+ escape_angle_brackets_in_json s) = Some (inl ">"%char :: r)).
      rewrite !sapp_cons, sapp_nil, json_literal_unicode. by rewrite Hr. }
    rewrite escape_angle_other by by apply Ascii.eqb_neq.
    rewrite json_literal_cons, Hq, Hr by done. done.
Qed.

(** Escaping the angle brackets of a rendered JSON document leaves none of
    them, and every string literal still reads as the same text, so a pasted
    settle payload names the finding it was rendered for. *)
Theorem settle_payload_survives_escaping body text :
  json_literal body = Some text →
  json_literal (escape_angle_brackets_in_json body) = Some text
  ∧ no_angle (escape_angle_brackets_in_json body) = true.
Proof. intros H. split; [by apply escape_keeps_literal|apply escape_no_angle]. Qed.

Lemma settle_payload_survives_escaping_witness :
  json_literal (escape_angle_brackets_in_json "a <!-- b -->\n")
  = json_literal "a <!-- b -->\n"
  ∧ no_angle (escape_angle_brackets_in_json "a <!-- b -->\n") = true.
Proof.
  destruct (settle_payload_survives_escaping "a <!-- b -->\n"
    (map inl ["a"; " "; "<"; "!"; "-"; "-"; " "; "b"; " "; "-"; "-"; ">"; ascii_of_nat 10]%char))
    as [H1 H2]; [reflexivity|].
  split; [rewrite H1; reflexivity|exact H2].
Defined.
