(* ===== verification/ReviewModels.v ===== *)
(** * The executor-neutral finding contract

    [review_findings/_models.py], [_shard_record.py], the [Review] block of
    [auto_dev_result/schema/_models.py] and the outcome vocabulary of
    [review_adjudication/_models.py].  A severity is a string, as it is in the
    code, since a document may bypass the schema; the other closed
    vocabularies are inductive types.  A model's validators are functions to
    [exn + _]: [validate_Finding] is what constructing a [Finding] does after
    its fields have their types. *)

From S2P Require Import Prelude PyStr PyText Markers.
#[local] Open Scope cw_scope.

(** ** Vocabularies *)

Definition MUST_FIX : string := "MUST_FIX".
Definition SHOULD_FIX : string := "SHOULD_FIX".
Definition DEBT : string := "DEBT".
Definition NIT : string := "NIT".
Definition PRINCIPLE : string := "PRINCIPLE".

(** [get_args(Severity)]. *)
Definition _VALID_SEVERITIES : list string := [MUST_FIX; SHOULD_FIX; DEBT; NIT; PRINCIPLE].

Inductive Disposition :=
  | d_fixed | d_rejected | d_deferred | d_dropped | d_operator_actionable | d_unresolved.

#[export] Instance Disposition_eq_dec : EqDecision Disposition.
Proof. solve_decision. Defined.

Inductive ReviewerHealthStatus := health_ok | health_degraded | health_failed.

#[export] Instance ReviewerHealthStatus_eq_dec : EqDecision ReviewerHealthStatus.
Proof. solve_decision. Defined.

Inductive Confidence := HIGH | MEDIUM | LOW.

#[export] Instance Confidence_eq_dec : EqDecision Confidence.
Proof. solve_decision. Defined.

Inductive RejectedFindingReason :=
  | invalid_severity
  | missing_evidence
  | evidence_not_in_diff
  | unknown_file
  | invalid_line_reference
  | line_reference_out_of_range
  | unanchored
  | line_anchor_degraded
  | schema_invalid.

#[export] Instance RejectedFindingReason_eq_dec : EqDecision RejectedFindingReason.
Proof. solve_decision. Defined.

Definition reason_value (r : RejectedFindingReason) : string :=
  match r with
  | invalid_severity => "invalid_severity"
  | missing_evidence => "missing_evidence"
  | evidence_not_in_diff => "evidence_not_in_diff"
  | unknown_file => "unknown_file"
  | invalid_line_reference => "invalid_line_reference"
  | line_reference_out_of_range => "line_reference_out_of_range"
  | unanchored => "unanchored"
  | line_anchor_degraded => "line_anchor_degraded"
  | schema_invalid => "schema_invalid"
  end.

Inductive RealCommitOutcome := rc_committed | rc_no_op | rc_unknown.

Inductive AdjudicationOutcome := o_fix | o_reject | o_defer | o_operator_action.

#[export] Instance AdjudicationOutcome_eq_dec : EqDecision AdjudicationOutcome.
Proof. solve_decision. Defined.

Definition _OUTCOME_DISPOSITIONS (o : AdjudicationOutcome) : Disposition :=
  match o with
  | o_fix => d_fixed
  | o_reject => d_rejected
  | o_defer => d_deferred
  | o_operator_action => d_operator_actionable
  end.

(** ** A finding *)

Definition _NO_DIFF_ANCHOR_FILE : string := "N/A".

Record EscalationMetadata := mkEscalationMetadata {
  target_reviewer : string;
  evidence_quote : string }.

Record Finding := mkFinding {
  f_severity : string;
  f_file : string;
  f_line_start : option Z;
  f_line_end : option Z;
  f_summary : string;
  f_consequence : string;
  f_suggested_fix : string;
  f_evidence : string;
  f_confidence : Confidence;
  f_escalation : option EscalationMetadata;
  f_no_diff_anchor : bool;
  f_anchor_degraded : bool;
  f_anchor_degraded_reason : string;
  f_transitive_impact_evidence : string;
  f_release_critical_exception : string;
  f_contests_adjudication : string;
  f_contests_decision : string }.

#[export] Instance Finding_eta : RecordEta Finding := λ t,
  mkFinding t.(f_severity) t.(f_file) t.(f_line_start) t.(f_line_end) t.(f_summary)
    t.(f_consequence) t.(f_suggested_fix) t.(f_evidence) t.(f_confidence) t.(f_escalation)
    t.(f_no_diff_anchor) t.(f_anchor_degraded) t.(f_anchor_degraded_reason)
    t.(f_transitive_impact_evidence) t.(f_release_critical_exception)
    t.(f_contests_adjudication) t.(f_contests_decision).

#[export] Instance upd_f_severity : Updater f_severity := ltac:(derive_updater).
#[export] Instance upd_f_file : Updater f_file := ltac:(derive_updater).
#[export] Instance upd_f_line_start : Updater f_line_start := ltac:(derive_updater).
#[export] Instance upd_f_line_end : Updater f_line_end := ltac:(derive_updater).
#[export] Instance upd_f_summary : Updater f_summary := ltac:(derive_updater).
#[export] Instance upd_f_consequence : Updater f_consequence := ltac:(derive_updater).
#[export] Instance upd_f_suggested_fix : Updater f_suggested_fix := ltac:(derive_updater).
#[export] Instance upd_f_evidence : Updater f_evidence := ltac:(derive_updater).
#[export] Instance upd_f_confidence : Updater f_confidence := ltac:(derive_updater).
#[export] Instance upd_f_escalation : Updater f_escalation := ltac:(derive_updater).
#[export] Instance upd_f_no_diff_anchor : Updater f_no_diff_anchor := ltac:(derive_updater).
#[export] Instance upd_f_anchor_degraded : Updater f_anchor_degraded := ltac:(derive_updater).
#[export] Instance upd_f_anchor_degraded_reason : Updater f_anchor_degraded_reason := ltac:(derive_updater).
#[export] Instance upd_f_transitive_impact_evidence : Updater f_transitive_impact_evidence := ltac:(derive_updater).
#[export] Instance upd_f_release_critical_exception : Updater f_release_critical_exception := ltac:(derive_updater).
#[export] Instance upd_f_contests_adjudication : Updater f_contests_adjudication := ltac:(derive_updater).
#[export] Instance upd_f_contests_decision : Updater f_contests_decision := ltac:(derive_updater).

Definition int_str (z : Z) : string := str_of_Z z.

Definition _format_cited_location (file : string) (line_start line_end : option Z) : string :=
  match line_start, line_end with
  | None, None => file
  | None, Some e => file +:+ ":" +:+ int_str e
  | Some s, None => file +:+ ":" +:+ int_str s
  | Some s, Some e =>
      if Z.eqb e s then file +:+ ":" +:+ int_str s
      else file +:+ ":" +:+ int_str s +:+ "-" +:+ int_str e
  end.

(** [EscalationMetadata._reject_blank]. *)
Definition validate_EscalationMetadata (e : EscalationMetadata) : exn + EscalationMetadata :=
  if is_blank e.(target_reviewer) || is_blank e.(evidence_quote) then inl ValueError else inr e.

(** [Finding._reject_blank], over the five required strings. *)
Definition _reject_blank (f : Finding) : bool :=
  is_blank f.(f_file) || is_blank f.(f_summary) || is_blank f.(f_consequence)
  || is_blank f.(f_suggested_fix) || is_blank f.(f_evidence).

Definition _normalize_no_diff_anchor_location (f : Finding) : Finding :=
  if negb f.(f_no_diff_anchor) then f
  else
    let has_lines := is_Some_b f.(f_line_start) || is_Some_b f.(f_line_end) in
    let f1 :=
      if String.eqb f.(f_file) _NO_DIFF_ANCHOR_FILE then f
      else
        let location := _format_cited_location f.(f_file) f.(f_line_start) f.(f_line_end) in
        (f <| f_suggested_fix :=
             "Fix location (reviewer-cited, outside the diff): " +:+ location +:+ ". "
             +:+ f.(f_suggested_fix) |>) <| f_file := _NO_DIFF_ANCHOR_FILE |> in
    if has_lines then (f1 <| f_line_start := None |>) <| f_line_end := None |> else f1.

Definition _check_line_range (f : Finding) : bool :=
  match f.(f_line_start), f.(f_line_end) with
  | Some s, Some e => Z.leb s e
  | _, _ => true
  end.

(** Constructing a finding from typed fields: the field validators, then the
    two model validators in their order. *)
Definition validate_Finding (f : Finding) : exn + Finding :=
  if negb (bool_decide (f.(f_severity) ∈ _VALID_SEVERITIES)) then inl ValueError
  else if _reject_blank f then inl ValueError
  else if match f.(f_escalation) with
          | Some e => is_blank e.(target_reviewer) || is_blank e.(evidence_quote)
          | None => false
          end then inl ValueError
  else
    let f := _normalize_no_diff_anchor_location f in
    if _check_line_range f then inr f else inl ValueError.

(** [finding.model_dump()]. *)
Definition confidence_value (c : Confidence) : string :=
  match c with HIGH => "HIGH" | MEDIUM => "MEDIUM" | LOW => "LOW" end.

Definition of_opt_Z (o : option Z) : json :=
  match o with Some z => JInt z | None => JNull end.

Definition finding_dump (f : Finding) : list (string * json) :=
  [("severity", JStr f.(f_severity));
   ("file", JStr f.(f_file));
   ("line_start", of_opt_Z f.(f_line_start));
   ("line_end", of_opt_Z f.(f_line_end));
   ("summary", JStr f.(f_summary));
   ("consequence", JStr f.(f_consequence));
   ("suggested_fix", JStr f.(f_suggested_fix));
   ("evidence", JStr f.(f_evidence));
   ("confidence", JStr (confidence_value f.(f_confidence)));
   ("escalation",
    match f.(f_escalation) with
    | None => JNull
    | Some e => JDict [("target_reviewer", JStr e.(target_reviewer));
                       ("evidence_quote", JStr e.(evidence_quote))]
    end);
   ("no_diff_anchor", JBool f.(f_no_diff_anchor));
   ("anchor_degraded", JBool f.(f_anchor_degraded));
   ("anchor_degraded_reason", JStr f.(f_anchor_degraded_reason));
   ("transitive_impact_evidence", JStr f.(f_transitive_impact_evidence));
   ("release_critical_exception", JStr f.(f_release_critical_exception));
   ("contests_adjudication", JStr f.(f_contests_adjudication));
   ("contests_decision", JStr f.(f_contests_decision))].

(** ** Documents, rejections, accepted findings *)
Record ReviewerFindingsDocument := mkReviewerFindingsDocument {
  doc_reviewer_role : string;
  doc_status : ReviewerHealthStatus;
  doc_detail : string;
  doc_findings : list Finding }.

#[export] Instance ReviewerFindingsDocument_eta : RecordEta ReviewerFindingsDocument := λ t,
  mkReviewerFindingsDocument t.(doc_reviewer_role) t.(doc_status) t.(doc_detail)
    t.(doc_findings).

#[export] Instance upd_doc_reviewer_role : Updater doc_reviewer_role := ltac:(derive_updater).
#[export] Instance upd_doc_status : Updater doc_status := ltac:(derive_updater).
#[export] Instance upd_doc_detail : Updater doc_detail := ltac:(derive_updater).
#[export] Instance upd_doc_findings : Updater doc_findings := ltac:(derive_updater).

(** The document's three model validators. *)
Definition validate_ReviewerFindingsDocument (d : ReviewerFindingsDocument)
  : exn + ReviewerFindingsDocument :=
  if bool_decide (d.(doc_status) = health_failed)
     && negb (bool_decide (d.(doc_findings) = [])) then inl ValueError
  else if bool_decide (d.(doc_status) = health_ok)
     && bool_decide (d.(doc_findings) = []) && is_blank d.(doc_detail) then inl ValueError
  else if negb (bool_decide (d.(doc_status) = health_ok)) && is_blank d.(doc_detail)
  then inl ValueError
  else inr d.

Record RejectedFinding := mkRejectedFinding {
  rf_raw : list (string * json);
  rf_reviewer_role : string;
  rf_reason : RejectedFindingReason;
  rf_detail : string }.

Record AcceptedFinding := mkAcceptedFinding {
  af_finding : Finding;
  af_reviewers : list string;
  af_disposition : Disposition;
  af_disposition_detail : string;
  af_adjudicated_fix : bool;
  af_in_plan_scope : option bool }.

#[export] Instance AcceptedFinding_eta : RecordEta AcceptedFinding := λ t,
  mkAcceptedFinding t.(af_finding) t.(af_reviewers) t.(af_disposition) t.(af_disposition_detail)
    t.(af_adjudicated_fix) t.(af_in_plan_scope).

#[export] Instance upd_af_finding : Updater af_finding := ltac:(derive_updater).
#[export] Instance upd_af_reviewers : Updater af_reviewers := ltac:(derive_updater).
#[export] Instance upd_af_disposition : Updater af_disposition := ltac:(derive_updater).
#[export] Instance upd_af_disposition_detail : Updater af_disposition_detail := ltac:(derive_updater).
#[export] Instance upd_af_adjudicated_fix : Updater af_adjudicated_fix := ltac:(derive_updater).
#[export] Instance upd_af_in_plan_scope : Updater af_in_plan_scope := ltac:(derive_updater).

(** [AcceptedFinding(finding=f, reviewers=rs)]. *)
Definition new_accepted_finding (f : Finding) (reviewers : list string) : AcceptedFinding :=
  mkAcceptedFinding f reviewers d_fixed "" false None.

(** The executor telemetry of a run ([thread_id] to [unexpected_tool_attempts])
    is carried as one payload: no decision reads it. *)
Record ReviewerRunRecord := mkReviewerRunRecord {
  rr_reviewer_role : string;
  rr_status : ReviewerHealthStatus;
  rr_detail : string;
  rr_finding_count : Z;
  rr_metrics : list (string * json) }.

Record ReviewerRunFailure := mkReviewerRunFailure {
  rrf_role : string;
  rrf_reason : string;
  rrf_discarded_finding_count : Z;
  rrf_discarded_finding_severities : list (string * Z);
  rrf_detail : string }.

Record AgentSpecStatus := mkAgentSpecStatus {
  as_role : string;
  as_source : string;
  as_empty : bool;
  as_empty_repo_file : bool }.

Record StrippedEscalation := mkStrippedEscalation {
  se_reviewer_role : string;
  se_finding_index : nat;
  se_target_reviewer : string }.

Record DebtRecord := mkDebtRecord {
  dr_fingerprint : string * string;
  dr_fingerprint_version : string;
  dr_rule_id : string;
  dr_file : string;
  dr_symbol : string;
  dr_evidence : string;
  dr_summary : string;
  dr_suggested_follow_up : string;
  dr_discovery_sha : string;
  dr_tracking_disposition : string;
  dr_reviewer_role : string }.

Record ShardRecord := mkShardRecord {
  sh_index : Z;
  sh_files : list string;
  sh_prompt_chars : Z;
  sh_roles_reviewed : list string;
  sh_reviewed : bool }.

(** ** The verdict *)
Record Review := mkReview {
  rv_must_fix_initial : Z;
  rv_should_fix : Z;
  rv_fix_cycles_used : Z;
  rv_deferred : Z;
  rv_agents_run : Z;
  rv_had_real_commit : RealCommitOutcome;
  rv_rejected_count : option Z;
  rv_rejected_count_by_severity : option (list (string * Z));
  rv_reviewed_sha : option string;
  rv_downgraded_disposition_count : option Z;
  rv_convergence_mode : option string;
  rv_rounds_run : option Z;
  rv_converged : option bool;
  rv_final_round_clean_sha : option string;
  rv_confirm_backend : option string }.

#[export] Instance Review_eta : RecordEta Review := λ t,
  mkReview t.(rv_must_fix_initial) t.(rv_should_fix) t.(rv_fix_cycles_used) t.(rv_deferred)
    t.(rv_agents_run) t.(rv_had_real_commit) t.(rv_rejected_count)
    t.(rv_rejected_count_by_severity) t.(rv_reviewed_sha) t.(rv_downgraded_disposition_count)
    t.(rv_convergence_mode) t.(rv_rounds_run) t.(rv_converged) t.(rv_final_round_clean_sha)
    t.(rv_confirm_backend).

#[export] Instance upd_rv_must_fix_initial : Updater rv_must_fix_initial := ltac:(derive_updater).
#[export] Instance upd_rv_should_fix : Updater rv_should_fix := ltac:(derive_updater).
#[export] Instance upd_rv_fix_cycles_used : Updater rv_fix_cycles_used := ltac:(derive_updater).
#[export] Instance upd_rv_deferred : Updater rv_deferred := ltac:(derive_updater).
#[export] Instance upd_rv_agents_run : Updater rv_agents_run := ltac:(derive_updater).
#[export] Instance upd_rv_had_real_commit : Updater rv_had_real_commit := ltac:(derive_updater).
#[export] Instance upd_rv_rejected_count : Updater rv_rejected_count := ltac:(derive_updater).
#[export] Instance upd_rv_rejected_count_by_severity : Updater rv_rejected_count_by_severity := ltac:(derive_updater).
#[export] Instance upd_rv_reviewed_sha : Updater rv_reviewed_sha := ltac:(derive_updater).
#[export] Instance upd_rv_downgraded_disposition_count : Updater rv_downgraded_disposition_count := ltac:(derive_updater).
#[export] Instance upd_rv_convergence_mode : Updater rv_convergence_mode := ltac:(derive_updater).
#[export] Instance upd_rv_rounds_run : Updater rv_rounds_run := ltac:(derive_updater).
#[export] Instance upd_rv_converged : Updater rv_converged := ltac:(derive_updater).
#[export] Instance upd_rv_final_round_clean_sha : Updater rv_final_round_clean_sha := ltac:(derive_updater).
#[export] Instance upd_rv_confirm_backend : Updater rv_confirm_backend := ltac:(derive_updater).
Record ReviewVerdict := mkReviewVerdict {
  v_blocking : bool;
  v_must_fix : list Finding;
  v_reviewed_sha : string;
  v_accepted : list AcceptedFinding;
  v_rejected : list RejectedFinding;
  v_agents_run : list ReviewerRunRecord;
  v_review : Review;
  v_stripped_escalations : list StrippedEscalation;
  v_rejected_must_fix : list RejectedFinding;
  v_run_failures_with_should_fix_discards : list ReviewerRunFailure;
  v_rejected_count : Z;
  v_rejected_count_by_severity : list (string * Z);
  v_downgraded_disposition_count : Z;
  v_capability_mode : option string;
  v_capability_reason : option string;
  v_agent_spec_status : list AgentSpecStatus;
  v_is_terminal_snapshot : bool;
  v_unmatched_adjudication_count : Z;
  v_unmatched_voided_count : Z;
  v_previous_reviewed_sha : option string;
  v_debt : list DebtRecord;
  v_refused_dispositions : list RefusedDisposition;
  v_stale_dispositions : list StaleDisposition;
  v_shards : list ShardRecord }.

#[export] Instance ReviewVerdict_eta : RecordEta ReviewVerdict := λ t,
  mkReviewVerdict t.(v_blocking) t.(v_must_fix) t.(v_reviewed_sha) t.(v_accepted) t.(v_rejected)
    t.(v_agents_run) t.(v_review) t.(v_stripped_escalations) t.(v_rejected_must_fix)
    t.(v_run_failures_with_should_fix_discards) t.(v_rejected_count)
    t.(v_rejected_count_by_severity) t.(v_downgraded_disposition_count) t.(v_capability_mode)
    t.(v_capability_reason) t.(v_agent_spec_status) t.(v_is_terminal_snapshot)
    t.(v_unmatched_adjudication_count) t.(v_unmatched_voided_count) t.(v_previous_reviewed_sha)
    t.(v_debt) t.(v_refused_dispositions) t.(v_stale_dispositions) t.(v_shards).

#[export] Instance upd_v_blocking : Updater v_blocking := ltac:(derive_updater).
#[export] Instance upd_v_must_fix : Updater v_must_fix := ltac:(derive_updater).
#[export] Instance upd_v_reviewed_sha : Updater v_reviewed_sha := ltac:(derive_updater).
#[export] Instance upd_v_accepted : Updater v_accepted := ltac:(derive_updater).
#[export] Instance upd_v_rejected : Updater v_rejected := ltac:(derive_updater).
#[export] Instance upd_v_agents_run : Updater v_agents_run := ltac:(derive_updater).
#[export] Instance upd_v_review : Updater v_review := ltac:(derive_updater).
#[export] Instance upd_v_stripped_escalations : Updater v_stripped_escalations := ltac:(derive_updater).
#[export] Instance upd_v_rejected_must_fix : Updater v_rejected_must_fix := ltac:(derive_updater).
#[export] Instance upd_v_run_failures_with_should_fix_discards : Updater v_run_failures_with_should_fix_discards := ltac:(derive_updater).
#[export] Instance upd_v_rejected_count : Updater v_rejected_count := ltac:(derive_updater).
#[export] Instance upd_v_rejected_count_by_severity : Updater v_rejected_count_by_severity := ltac:(derive_updater).
#[export] Instance upd_v_downgraded_disposition_count : Updater v_downgraded_disposition_count := ltac:(derive_updater).
#[export] Instance upd_v_capability_mode : Updater v_capability_mode := ltac:(derive_updater).
#[export] Instance upd_v_capability_reason : Updater v_capability_reason := ltac:(derive_updater).
#[export] Instance upd_v_agent_spec_status : Updater v_agent_spec_status := ltac:(derive_updater).
#[export] Instance upd_v_is_terminal_snapshot : Updater v_is_terminal_snapshot := ltac:(derive_updater).
#[export] Instance upd_v_unmatched_adjudication_count : Updater v_unmatched_adjudication_count := ltac:(derive_updater).
#[export] Instance upd_v_unmatched_voided_count : Updater v_unmatched_voided_count := ltac:(derive_updater).
#[export] Instance upd_v_previous_reviewed_sha : Updater v_previous_reviewed_sha := ltac:(derive_updater).
#[export] Instance upd_v_debt : Updater v_debt := ltac:(derive_updater).
#[export] Instance upd_v_refused_dispositions : Updater v_refused_dispositions := ltac:(derive_updater).
#[export] Instance upd_v_stale_dispositions : Updater v_stale_dispositions := ltac:(derive_updater).
#[export] Instance upd_v_shards : Updater v_shards := ltac:(derive_updater).

(** A captured diff: the text, per file the changed line numbers, the raw
    hunks, the added lines by number and the hunk lines (added or context). *)
Record CapturedDiff := mkCapturedDiff {
  cd_text : string;
  cd_files : gmap string (list Z);
  cd_file_diffs : gmap string string;
  cd_file_line_text : gmap string (gmap Z string);
  cd_file_window_text : gmap string (gmap Z string) }.

(** ** What a validated finding is *)

Definition finding_wf (f : Finding) : Prop :=
  f.(f_severity) ∈ _VALID_SEVERITIES
  ∧ _reject_blank f = false
  ∧ (f.(f_no_diff_anchor) = true →
     f.(f_file) = _NO_DIFF_ANCHOR_FILE ∧ f.(f_line_start) = None ∧ f.(f_line_end) = None)
  ∧ (∀ s e, f.(f_line_start) = Some s → f.(f_line_end) = Some e → (s ≤ e)%Z).

Lemma is_blank_literal a b s :
  is_continuation b = false → is_space a = false → is_blank (String a (String b s)) = false.
Proof.
  intros Hb Ha. unfold is_blank. cbn [chars].
  destruct (match chars s with [] => _ | _ => _ end) as [|w ws] eqn:E.
  - by destruct (chars s) as [|v vs]; [|destruct (starts_cont v)].
  - assert (Hw : starts_cont w = false).
    { destruct (chars s) as [|v vs]; [by injection E as <- _|].
      destruct (starts_cont v); by injection E as <- _. }
    rewrite Hw. simpl. by rewrite Ha.
Qed.

Lemma normalize_location_wf f :
  (_normalize_no_diff_anchor_location f).(f_no_diff_anchor) = f.(f_no_diff_anchor)
  ∧ (f.(f_no_diff_anchor) = true →
     (_normalize_no_diff_anchor_location f).(f_file) = _NO_DIFF_ANCHOR_FILE
     ∧ (_normalize_no_diff_anchor_location f).(f_line_start) = None
     ∧ (_normalize_no_diff_anchor_location f).(f_line_end) = None).
Proof.
  unfold _normalize_no_diff_anchor_location.
  destruct (f_no_diff_anchor f) eqn:Hn; [|by split]. simpl.
  destruct (String.eqb_spec (f_file f) _NO_DIFF_ANCHOR_FILE) as [Hf|Hf];
    destruct (f_line_start f) eqn:H1, (f_line_end f) eqn:H2; simpl; by rewrite ?Hn.
Qed.

Lemma normalize_location_id f :
  (f.(f_no_diff_anchor) = true →
     f.(f_file) = _NO_DIFF_ANCHOR_FILE ∧ f.(f_line_start) = None ∧ f.(f_line_end) = None) →
  _normalize_no_diff_anchor_location f = f.
Proof.
  intros H. unfold _normalize_no_diff_anchor_location. destruct (f_no_diff_anchor f); [|done].
  destruct (H eq_refl) as (-> & -> & ->). done.
Qed.

Lemma normalize_location_keeps f :
  (_normalize_no_diff_anchor_location f).(f_severity) = f.(f_severity)
  ∧ (_normalize_no_diff_anchor_location f).(f_escalation) = f.(f_escalation)
  ∧ (_reject_blank f = false →
     _reject_blank (_normalize_no_diff_anchor_location f) = false).
Proof.
  unfold _normalize_no_diff_anchor_location.
  destruct (negb _); [done|].
  destruct (String.eqb (f_file f) _NO_DIFF_ANCHOR_FILE);
    destruct (is_Some_b _ || is_Some_b _); (split; [done|]; split; [done|]);
    unfold _reject_blank; cbn -[is_blank]; intros H; try done;
    rewrite !orb_false_iff in H; destruct H as ((((_ & H2) & H3) & _) & H5);
    rewrite H2, H3, H5, !orb_false_r; apply is_blank_literal; reflexivity.
Qed.

Lemma check_line_range_true f :
  _check_line_range f = true →
  ∀ s e, f.(f_line_start) = Some s → f.(f_line_end) = Some e → (s ≤ e)%Z.
Proof.
  unfold _check_line_range. intros H s e Hs He. rewrite Hs, He in H. by apply Z.leb_le in H.
Qed.

(** A finding that validates has a known severity, no blank required
    field, an ordered line range and, when it disclaims a diff anchor, the
    fixed file name and no lines; validating it again changes nothing, so the
    location prefix lands once. *)
Theorem validated_finding_stable f g :
  validate_Finding f = inr g → finding_wf g ∧ validate_Finding g = inr g.
Proof.
  unfold validate_Finding at 1. case_bool_decide as Hsev; [|done]. simpl.
  destruct (_reject_blank f) eqn:Hb; [done|].
  destruct (match f_escalation f with Some _ => _ | None => _ end) eqn:He; [done|].
  destruct (_check_line_range _) eqn:Hr; [|done]. intros [= <-].
  destruct (normalize_location_wf f) as [Hn Hna].
  destruct (normalize_location_keeps f) as (Hs & Hesc & Hbl).
  specialize (Hbl Hb). set (g := _normalize_no_diff_anchor_location f) in *.
  rewrite <- Hs in Hsev. rewrite <- Hesc in He. rewrite <- Hn in Hna.
  split.
  - split_and!; [done|done|exact Hna|by apply check_line_range_true].
  - unfold validate_Finding. rewrite bool_decide_true by done. simpl.
    by rewrite Hbl, He, (normalize_location_id g Hna), Hr.
Qed.

Definition sample_finding : Finding :=
  mkFinding MUST_FIX "src/a.py" (Some 3%Z) None "missing ticket" "untracked" "file it"
    "none" HIGH None true false "" "" "" "" "".

Lemma validated_finding_stable_witness :
  ∃ g, validate_Finding sample_finding = inr g
    ∧ g.(f_suggested_fix) = "Fix location (reviewer-cited, outside the diff): src/a.py:3. file it"
    ∧ validate_Finding g = inr g.
Proof.
  eexists. split; [vm_compute; reflexivity|]. split; [reflexivity|].
  by apply (validated_finding_stable sample_finding).
Defined.
