(* ===== verification/TextMatch.v ===== *)
(** * Matching a reviewer's quote against a diff

    [review_findings/_text_match.py], [_anchor.py] and [_reanchor.py]: the text
    normalizations, where a cited line lands in a captured diff, the search for
    a window of diff lines that carries the quoted evidence, and the
    content-based rescues.  The Python parser and the checkout on disk are the
    classes [PyAst] and [RepoFiles].  At the end, that the window search finds
    the least candidate. *)

From S2P Require Import Prelude PyStr PyText Markers ReviewModels.
From stdpp Require Export sorting.
#[local] Open Scope Z_scope.

Definition _LINE_ANCHOR_TOLERANCE : Z := 3.
Definition _EVIDENCE_PAIR_LINES : nat := 2.

(** ** Normalization *)

Definition _UNICODE_PUNCTUATION (c : string) : option string :=
  if String.eqb c (bytes3 226 128 148) then Some "--"
  else if String.eqb c (bytes3 226 128 147) then Some "-"
  else if String.eqb c (bytes3 226 128 152) then Some "'"
  else if String.eqb c (bytes3 226 128 153) then Some "'"
  else if String.eqb c (bytes3 226 128 156) then Some (String DQUOTE "")
  else if String.eqb c (bytes3 226 128 157) then Some (String DQUOTE "")
  else if String.eqb c (bytes2 194 160) then Some " "
  else None.

Definition strip_marker (raw_line : string) : string :=
  match raw_line with
  | String "+" rest | String "-" rest => rest
  | _ => raw_line
  end.

Definition _strip_diff_markers (text : string) : string :=
  join_lines (map (λ raw_line, text_strip (strip_marker raw_line)) (split_lines text)).

Definition _normalize_unicode_punctuation (text : string) : string :=
  translate _UNICODE_PUNCTUATION text.

Definition _normalize_diff_text (text : string) : string :=
  _normalize_unicode_punctuation (_strip_diff_markers text).

Definition is_open_bracket (c : ascii) : bool :=
  Ascii.eqb c "(" || Ascii.eqb c "[" || Ascii.eqb c "{".
Definition is_close_bracket (c : ascii) : bool :=
  Ascii.eqb c ")" || Ascii.eqb c "]" || Ascii.eqb c "}".

Definition next_closes (s : string) : bool :=
  match s with String c _ => is_close_bracket c | EmptyString => false end.

(** [_BRACKET_INTERIOR_SPACE.sub("", s)]: the look-around reads the text
    before the substitution. *)
Fixpoint drop_interior_spaces (after_open : bool) (s : string) : string :=
  match s with
  | EmptyString => EmptyString
  | String c s' =>
      if Ascii.eqb c " " && (after_open || next_closes s')
      then drop_interior_spaces false s'
      else String c (drop_interior_spaces (is_open_bracket c) s')
  end.

(** [_BRACKET_TRAILING_COMMA.sub("", s)]. *)
Fixpoint drop_trailing_commas (s : string) : string :=
  match s with
  | EmptyString => EmptyString
  | String c s' =>
      if Ascii.eqb c "," && next_closes s' then drop_trailing_commas s'
      else String c (drop_trailing_commas s')
  end.

Definition _formatting_normalized_text (text : string) : string :=
  let collapsed := collapse_runs (_normalize_diff_text text) in
  let collapsed := drop_interior_spaces false collapsed in
  text_strip (drop_trailing_commas collapsed).

Definition _formatting_tolerant_contains (haystack needle : string) : bool :=
  let target := _formatting_normalized_text needle in
  negb (String.eqb target "") && str_contains target (_formatting_normalized_text haystack).

Definition _evidence_diff_pair (text : string) : option (string * string) :=
  let lines := split_lines text in
  if negb (Nat.eqb (length lines) _EVIDENCE_PAIR_LINES) then None
  else match lines with
       | [removed; added] =>
           if negb (starts_with "-" removed) || negb (starts_with "+" added) then None
           else Some (removed, added)
       | _ => None
       end.

(** ** The window search *)

Notation lines_map := (gmap Z string).

(** [range(start, end + 1)]. *)
Definition line_range (start end_ : Z) : list Z := seqZ start (end_ + 1 - start).

Definition join_window (candidates : lines_map) (start end_ : Z) : string :=
  join_lines (omap (λ n, candidates !! n) (line_range start end_)).

(** One pair of widenings: the best window so far, or this one. *)
Definition widen_step (candidates : lines_map) (target : string) (start end_ : Z)
  (best : option (Z * Z)) (widen : Z * Z) : option (Z * Z) :=
  let '(widen_start, widen_end) := widen in
  if Z.eqb widen_start 0 && Z.eqb widen_end 0 then best
  else
    let candidate_start := start - widen_start in
    let candidate_end := end_ + widen_end in
    if Z.ltb candidate_end candidate_start then best
    else if negb (forallb (λ n, is_Some_b (candidates !! n))
                    (line_range candidate_start candidate_end)) then best
    else
      let joined := join_window candidates candidate_start candidate_end in
      if negb (String.eqb (_normalize_diff_text joined) target) then best
      else
        let span := candidate_end - candidate_start in
        match best with
        | None => Some (candidate_start, candidate_end)
        | Some (b0, b1) =>
            if Z.ltb span (b1 - b0) || (Z.eqb span (b1 - b0) && Z.ltb candidate_start b0)
            then Some (candidate_start, candidate_end) else best
        end.

Definition widenings (tolerance : Z) : list (Z * Z) :=
  widen_start ← seqZ 0 (tolerance + 1); (λ widen_end, (widen_start, widen_end))
    <$> seqZ 0 (tolerance + 1).

Definition _reconcile_evidence_window (candidates : lines_map) (text : string)
  (start end_ tolerance : Z) : option (Z * Z) :=
  let target := _normalize_diff_text text in
  let base_joined := join_window candidates start end_ in
  if str_contains target (_normalize_diff_text base_joined) then Some (start, end_)
  else if _formatting_tolerant_contains base_joined text then Some (start, end_)
  else foldl (widen_step candidates target start end_) None (widenings tolerance).

(** ** Content-based re-anchoring *)

Definition sorted_lines (candidates : lines_map) : list Z :=
  merge_sort Z.le (map_to_list candidates).*1.

(** The [while] loop from one start line; [fuel] bounds its steps by the size
    of the substrate, since every step consumes one more line of it. *)
Fixpoint grow_window (fuel : nat) (candidates : lines_map) (target : string) (limit : nat)
  (run : list string) (end_ : Z) : option Z :=
  match fuel with
  | O => None
  | S fuel =>
      match candidates !! end_ with
      | None => None
      | Some line =>
          let run := run ++ [line] in
          let joined := _formatting_normalized_text (join_lines run) in
          if str_contains target joined then Some end_
          else if Nat.leb limit (cp_length joined) then None
          else grow_window fuel candidates target limit run (end_ + 1)
      end
  end.

Definition window_limit (candidates : lines_map) (target : string) (start : Z) : nat :=
  cp_length (_formatting_normalized_text (default "" (candidates !! start)))
  + cp_length target.

Fixpoint first_start {A} (f : Z → option A) (starts : list Z) : option A :=
  match starts with
  | [] => None
  | start :: starts' =>
      match f start with Some a => Some a | None => first_start f starts' end
  end.

Definition _formatting_tolerant_window (candidates : lines_map) (evidence : string)
  : option (Z * Z) :=
  let target := _formatting_normalized_text evidence in
  if String.eqb target "" then None
  else first_start (λ start,
         pair start <$> grow_window (size candidates) candidates target
                          (window_limit candidates target start) [] start)
         (sorted_lines candidates).

Definition _content_rescue_anchor (candidates : lines_map) (evidence : string)
  : option (Z * Z) :=
  if bool_decide (candidates = ∅) then None
  else
    let evidence_lines := Z.of_nat (count_nl evidence) + 1 in
    match first_start (λ start,
            _reconcile_evidence_window candidates evidence start
              (start + evidence_lines - 1) _LINE_ANCHOR_TOLERANCE)
            (sorted_lines candidates) with
    | Some found => Some found
    | None => _formatting_tolerant_window candidates evidence
    end.

(** [for line in ...]: the removed lines of a raw hunk, markers dropped. *)
Definition removed_lines (raw : string) : list string :=
  map (str_drop 1) (filter (λ line, starts_with "-" line = true) (split_lines raw)).

Definition _evidence_removed_in_fix_diff (file_diffs : gmap string string)
  (file evidence : string) : bool :=
  let removed := removed_lines (default "" (file_diffs !! file)) in
  if bool_decide (removed = []) then false
  else str_contains (_normalize_diff_text evidence)
         (_normalize_diff_text (join_lines removed)).

(** ** Geometry: where a cited line lands *)

(** [diff.files.get(file, [])] and [diff.file_window_text.get(file, {})]. *)
Definition changed_lines (diff : CapturedDiff) (file : string) : list Z :=
  default [] (diff.(cd_files) !! file).
Definition window_lines (diff : CapturedDiff) (file : string) : lines_map :=
  default ∅ (diff.(cd_file_window_text) !! file).
Definition added_text (diff : CapturedDiff) (file : string) : lines_map :=
  default ∅ (diff.(cd_file_line_text) !! file).

Definition _changed_files (diff : CapturedDiff) : gset string := dom diff.(cd_files).

Definition _line_in_diff (diff : CapturedDiff) (file : string) (line : Z) : bool :=
  bool_decide (line ∈ changed_lines diff file).

Definition _substring_in_diff (diff : CapturedDiff) (text : string) : bool :=
  str_contains (_normalize_diff_text text) (_normalize_diff_text diff.(cd_text)).

(** The scan both nearest-line functions run over their candidates. *)
Definition nearer (line tolerance : Z) (best : option (Z * Z)) (candidate : Z)
  : option (Z * Z) :=
  let distance := Z.abs (candidate - line) in
  if Z.ltb tolerance distance then best
  else match best with
       | None => Some (candidate, distance)
       | Some (b, best_distance) =>
           if Z.ltb distance best_distance
              || (Z.eqb distance best_distance && Z.ltb candidate b)
           then Some (candidate, distance) else best
       end.

Definition nearest (line tolerance : Z) (candidates : list Z) : option Z :=
  fst <$> foldl (nearer line tolerance) None candidates.

Definition _nearest_added_line (diff : CapturedDiff) (file : string) (line tolerance : Z)
  : option Z :=
  if _line_in_diff diff file line then Some line
  else nearest line tolerance (changed_lines diff file).

Definition _nearest_hunk_line (diff : CapturedDiff) (file : string) (line tolerance : Z)
  : option Z :=
  if is_Some_b (window_lines diff file !! line) then Some line
  else nearest line tolerance (map_to_list (window_lines diff file)).*1.

(** Both window resolvers: an unset endpoint mirrors the other one; with
    neither set the code raises, which [None] of [claimed_endpoints] marks. *)
Definition claimed_endpoints (line_start line_end : option Z) : option (Z * Z) :=
  match line_start, line_end with
  | Some s, Some e => Some (s, e)
  | Some s, None => Some (s, s)
  | None, Some e => Some (e, e)
  | None, None => None
  end.

Definition resolve_window (near : Z → option Z) (line_start line_end : option Z)
  : exn + option (Z * Z) :=
  match claimed_endpoints line_start line_end with
  | None => inl ValueError
  | Some (raw_start, raw_end) =>
      inr match near raw_start, near raw_end with
          | Some s, Some e => Some (Z.min s e, Z.max s e)
          | _, _ => None
          end
  end.

Definition _resolve_line_window (diff : CapturedDiff) (file : string)
  (line_start line_end : option Z) : exn + option (Z * Z) :=
  resolve_window (λ l, _nearest_added_line diff file l _LINE_ANCHOR_TOLERANCE)
    line_start line_end.

Definition _resolve_hunk_window (diff : CapturedDiff) (file : string)
  (line_start line_end : option Z) : exn + option (Z * Z) :=
  resolve_window (λ l, _nearest_hunk_line diff file l _LINE_ANCHOR_TOLERANCE)
    line_start line_end.

Definition _diff_pair_rescue (diff : CapturedDiff) (file text : string)
  (line_start line_end : option Z) : bool :=
  match claimed_endpoints line_start line_end with
  | None => false
  | Some (raw_start, raw_end) =>
      if negb (Z.eqb raw_start raw_end) then false
      else match _evidence_diff_pair text with
           | None => false
           | Some (removed, added) =>
               let haystack := _normalize_diff_text (default "" (diff.(cd_file_diffs) !! file)) in
               str_contains (_normalize_diff_text removed) haystack
               || str_contains (_normalize_diff_text added) haystack
           end
  end.

(** [_resolve_hunk_window] is called here with an endpoint set, so its error
    branch is out of reach. *)
Definition _evidence_in_claimed_lines (diff : CapturedDiff) (file text : string)
  (line_start line_end : option Z) : bool :=
  if negb (is_Some_b line_start) && negb (is_Some_b line_end)
  then str_contains (_normalize_diff_text text)
         (_normalize_diff_text (default "" (diff.(cd_file_diffs) !! file)))
  else match _resolve_hunk_window diff file line_start line_end with
       | inr (Some (start, end_)) =>
           is_Some_b (_reconcile_evidence_window (window_lines diff file) text start end_
                        _LINE_ANCHOR_TOLERANCE)
           || _diff_pair_rescue diff file text line_start line_end
       | _ => _diff_pair_rescue diff file text line_start line_end
       end.

(** ** The checkout and the Python parser *)

(** [ast.parse] and [ast.walk]: the [(lineno, end_lineno)] of the function and
    class definitions in walk order; [None] when the source does not parse. *)
Class PyAst := def_spans : string → option (list (Z * option Z)).

(** [resolve] gives a path's absolute components ([None] for an [OSError]);
    [read_text] the text of a file ([None] when missing or undecodable). *)
Class RepoFiles := {
  resolve : string → option (list string);
  is_file : list string → bool;
  read_text : string → option string }.

Section Checkout.
Context {A : PyAst} {F : RepoFiles}.

(** pathlib's [/]: an absolute right operand discards the left one. *)
Definition path_join (worktree file : string) : string :=
  if starts_with "/" file then file else worktree +:+ "/" +:+ file.

Definition _file_in_repo_tree (worktree file : string) : bool :=
  match resolve worktree, resolve (path_join worktree file) with
  | Some root, Some candidate =>
      bool_decide (root `prefix_of` candidate) && is_file candidate
  | _, _ => false
  end.

Definition tighter_span (line : Z) (best : option (Z * Z)) (node : Z * option Z)
  : option (Z * Z) :=
  match node with
  | (lineno, Some end_) =>
      if negb (Z.leb lineno line && Z.leb line end_) then best
      else match best with
           | None => Some (lineno, end_)
           | Some (b0, b1) =>
               if Z.ltb (end_ - lineno) (b1 - b0) then Some (lineno, end_) else best
           end
  | (_, None) => best
  end.

Definition _enclosing_def_span (source : string) (line : Z) : option (Z * Z) :=
  nodes ← def_spans source; foldl (tighter_span line) None nodes.

Definition _anchor_in_enclosing_def (diff : CapturedDiff) (worktree file : string) (line : Z)
  : bool :=
  match read_text (path_join worktree file) with
  | None => false
  | Some source =>
      match _enclosing_def_span source line with
      | None => false
      | Some (start, end_) =>
          existsb (λ changed, Z.leb start changed && Z.leb changed end_)
            (changed_lines diff file)
      end
  end.

Definition line_resolves (diff : CapturedDiff) (worktree : option string) (file : string)
  (line : Z) : bool :=
  is_Some_b (_nearest_added_line diff file line _LINE_ANCHOR_TOLERANCE)
  || match worktree with
     | Some w => _anchor_in_enclosing_def diff w file line
     | None => false
     end.

Definition cited_lines (finding : Finding) : list Z :=
  omap id [finding.(f_line_start); finding.(f_line_end)].

Definition _line_reference_valid (diff : CapturedDiff) (finding : Finding)
  (worktree : option string) : bool :=
  forallb (line_resolves diff worktree finding.(f_file)) (cited_lines finding).

Definition _file_line_count (worktree file : string) : option Z :=
  source ← read_text (path_join worktree file); Some (Z.of_nat (splitlines_count source)).

Definition _line_exceeds_file_length (worktree file : string) (line : Z) : bool :=
  match _file_line_count worktree file with
  | None => false
  | Some count => Z.ltb count line
  end.

Definition _cited_lines_on_disk (worktree file : string) (lines : list Z) : bool :=
  match _file_line_count worktree file with
  | None => false
  | Some count => forallb (λ line, Z.leb line count) lines
  end.

Definition opt_Z_str (o : option Z) : string :=
  match o with Some z => str_of_Z z | None => "None" end.

Definition _line_reference_out_of_range_detail (finding : Finding) (worktree : string)
  : string :=
  "cited line_start=" +:+ opt_Z_str finding.(f_line_start) +:+ ", line_end="
  +:+ opt_Z_str finding.(f_line_end) +:+ " but " +:+ finding.(f_file) +:+ " is "
  +:+ opt_Z_str (_file_line_count worktree finding.(f_file))
  +:+ " line(s) long on disk; the evidence text was not found anywhere in the file's diff either, so no content-based re-anchoring was possible".
End Checkout.

(** * The window search finds what it says, and nothing else

    [_nearest_added_line] and the widening loop of [_reconcile_evidence_window]
    keep the least candidate of a scan; both are shown equal to "the least
    candidate" by one lemma on such scans.  [grow_window]'s fuel is enough.
    Every window the searches return carries the evidence. *)

(** ** Scans that keep a strictly smaller candidate *)

Section Scan.
Context {X B : Type} (valid : X → bool) (f : X → B) (lt : B → B → bool).
Context (lt_trans : ∀ a b c, lt a b = true → lt b c = true → lt a c = true).
Context (step : option B → X → option B).
Context (step_spec : ∀ best x,
  step best x = if valid x
                then match best with
                     | None => Some (f x)
                     | Some b => if lt (f x) b then Some (f x) else best
                     end
                else best).

Definition scan_inv (seen : list X) (best : option B) : Prop :=
  match best with
  | None => ∀ x, x ∈ seen → valid x = false
  | Some b => (∃ x, x ∈ seen ∧ valid x = true ∧ b = f x)
              ∧ ∀ x, x ∈ seen → valid x = true → lt (f x) b = false
  end.

Lemma scan_step_inv (irrefl : ∀ a, lt a a = false) seen best x :
  scan_inv seen best → scan_inv (seen ++ [x]) (step best x).
Proof.
  intros Hinv. rewrite step_spec. destruct (valid x) eqn:Hv; cycle 1.
  { destruct best as [b|]; simpl in *.
    - destruct Hinv as [(y & Hy & Hvy & ->) Hmin]. split; [exists y; set_solver|].
      intros z [Hz| ->%list_elem_of_singleton]%elem_of_app; [by apply Hmin|congruence].
    - intros z [Hz| ->%list_elem_of_singleton]%elem_of_app; auto. }
  destruct best as [b|]; simpl in *.
  - destruct Hinv as [(y & Hy & Hvy & ->) Hmin]. destruct (lt (f x) (f y)) eqn:Hlt; simpl.
    + split; [exists x; set_solver|].
      intros z [Hz| ->%list_elem_of_singleton]%elem_of_app Hvz; [|apply irrefl].
      apply not_true_is_false. intros Hz'. specialize (Hmin z Hz Hvz).
      pose proof (lt_trans _ _ _ Hz' Hlt). congruence.
    + split; [exists y; set_solver|].
      intros z [Hz| ->%list_elem_of_singleton]%elem_of_app Hvz; [by apply Hmin|done].
  - split; [exists x; set_solver|].
    intros z [Hz| ->%list_elem_of_singleton]%elem_of_app Hvz; [|apply irrefl].
    rewrite Hinv in Hvz; [done|exact Hz].
Qed.

Lemma scan_fold (irrefl : ∀ a, lt a a = false) xs seen best :
  scan_inv seen best → scan_inv (seen ++ xs) (foldl step best xs).
Proof.
  revert seen best. induction xs as [|x xs IH]; intros seen best Hinv; simpl.
  - by rewrite app_nil_r.
  - rewrite (assoc_L (++) seen [x] xs : seen ++ x :: xs = _). by apply IH, scan_step_inv.
Qed.

Lemma scan_spec (irrefl : ∀ a, lt a a = false) xs : scan_inv xs (foldl step None xs).
Proof. apply (scan_fold irrefl xs [] None). intros x Hx. by apply elem_of_nil in Hx. Qed.
End Scan.

(** ** The nearest line *)

Definition dist_lt (line : Z) (a b : Z * Z) : bool :=
  Z.ltb a.2 b.2 || (Z.eqb a.2 b.2 && Z.ltb a.1 b.1).

Ltac z_bool :=
  repeat match goal with
  | H : _ || _ = true |- _ => apply orb_true_iff in H
  | H : _ && _ = true |- _ => apply andb_true_iff in H as [? ?]
  | H : _ || _ = false |- _ => apply orb_false_iff in H as [? ?]
  | H : _ && _ = false |- _ => apply andb_false_iff in H
  | H : negb _ = true |- _ => apply negb_true_iff in H
  | H : negb _ = false |- _ => apply negb_false_iff in H
  | H : Z.ltb _ _ = true |- _ => apply Z.ltb_lt in H
  | H : Z.ltb _ _ = false |- _ => apply Z.ltb_ge in H
  | H : Z.leb _ _ = true |- _ => apply Z.leb_le in H
  | H : Z.leb _ _ = false |- _ => apply Z.leb_gt in H
  | H : Z.eqb _ _ = true |- _ => apply Z.eqb_eq in H
  | H : Z.eqb _ _ = false |- _ => apply Z.eqb_neq in H
  | H : _ ∨ _ |- _ => destruct H
  end.

Lemma dist_lt_trans line a b c :
  dist_lt line a b = true → dist_lt line b c = true → dist_lt line a c = true.
Proof.
  unfold dist_lt. intros H1 H2. destruct a, b, c; simpl in *.
  apply orb_true_iff. rewrite andb_true_iff. z_bool; subst;
    rewrite ?Z.ltb_lt, ?Z.eqb_eq; lia.
Qed.

Lemma dist_lt_irrefl line a : dist_lt line a a = false.
Proof. unfold dist_lt. rewrite !Z.ltb_irrefl. by rewrite andb_false_r. Qed.

(** No candidate within the tolerance is closer, nor as close and lower. *)
Definition is_nearest (line tolerance : Z) (candidates : list Z) (r : Z) : Prop :=
  r ∈ candidates ∧ Z.abs (r - line) ≤ tolerance
  ∧ ∀ c, c ∈ candidates → Z.abs (c - line) ≤ tolerance →
      Z.abs (r - line) < Z.abs (c - line) ∨ Z.abs (r - line) = Z.abs (c - line) ∧ r ≤ c.

Lemma nearest_spec line tolerance candidates :
  match nearest line tolerance candidates with
  | Some r => is_nearest line tolerance candidates r
  | None => ∀ c, c ∈ candidates → tolerance < Z.abs (c - line)
  end.
Proof.
  unfold nearest.
  pose proof (scan_spec (λ c, negb (Z.ltb tolerance (Z.abs (c - line))))
    (λ c, (c, Z.abs (c - line))) (dist_lt line) (dist_lt_trans line)
    (nearer line tolerance)) as Hscan.
  unfold scan_inv in Hscan. specialize (Hscan ltac:(
    intros [[b d]|] x; unfold nearer, dist_lt; cbn [fst snd];
    by destruct (Z.ltb tolerance (Z.abs (x - line)))) (dist_lt_irrefl line) candidates).
  destruct (foldl _ _ _) as [[r d]|]; simpl.
  - destruct Hscan as [(x & Hx & Hv & [= -> ->]) Hmin].
    z_bool. split; [done|]. split; [done|]. intros c Hc Ht.
    specialize (Hmin c Hc ltac:(rewrite negb_true_iff; by apply Z.ltb_ge)).
    unfold dist_lt in Hmin. simpl in Hmin. z_bool; lia.
  - intros c Hc. specialize (Hscan c Hc). z_bool. done.
Qed.

(** ** Windows *)

Definition window_lt (a b : Z * Z) : bool :=
  Z.ltb (a.2 - a.1) (b.2 - b.1) || (Z.eqb (a.2 - a.1) (b.2 - b.1) && Z.ltb a.1 b.1).

Lemma window_lt_trans a b c :
  window_lt a b = true → window_lt b c = true → window_lt a c = true.
Proof.
  unfold window_lt. intros H1 H2. destruct a, b, c; simpl in *.
  apply orb_true_iff. rewrite andb_true_iff. z_bool; subst;
    rewrite ?Z.ltb_lt, ?Z.eqb_eq; lia.
Qed.

Lemma window_lt_irrefl a : window_lt a a = false.
Proof. unfold window_lt. rewrite !Z.ltb_irrefl. by rewrite andb_false_r. Qed.

(** Every line of the window is in the substrate. *)
Definition gapless (candidates : lines_map) (w : Z * Z) : bool :=
  forallb (λ n, is_Some_b (candidates !! n)) (line_range w.1 w.2).

(** The window's lines are the evidence, after normalization. *)
Definition exact_window (candidates : lines_map) (text : string) (w : Z * Z) : bool :=
  negb (Z.ltb w.2 w.1) && gapless candidates w
  && String.eqb (_normalize_diff_text (join_window candidates w.1 w.2))
       (_normalize_diff_text text).

(** A proper widening of [(start, end_)] by at most [tolerance] lines a side. *)
Definition widens (start end_ tolerance : Z) (w : Z * Z) : Prop :=
  start - tolerance ≤ w.1 ≤ start ∧ end_ ≤ w.2 ≤ end_ + tolerance ∧ w ≠ (start, end_).

Lemma elem_of_widenings tolerance d e :
  (d, e) ∈ widenings tolerance ↔ 0 ≤ d ≤ tolerance ∧ 0 ≤ e ≤ tolerance.
Proof.
  unfold widenings. rewrite list_elem_of_bind. split.
  - intros (x & Hin & Hx). apply list_elem_of_fmap in Hin as (y & [= -> ->] & Hy).
    apply elem_of_seqZ in Hx. apply elem_of_seqZ in Hy. lia.
  - intros [Hd He]. exists d. split; [|apply elem_of_seqZ; lia].
    apply list_elem_of_fmap. exists e. split; [done|]. apply elem_of_seqZ. lia.
Qed.

Definition widened (start end_ : Z) (d : Z * Z) : Z * Z := (start - d.1, end_ + d.2).

Lemma widen_step_scan candidates text start end_ best d :
  widen_step candidates (_normalize_diff_text text) start end_ best d
  = if negb (Z.eqb d.1 0 && Z.eqb d.2 0)
       && exact_window candidates text (widened start end_ d)
    then match best with
         | None => Some (widened start end_ d)
         | Some b => if window_lt (widened start end_ d) b
                     then Some (widened start end_ d) else best
         end
    else best.
Proof.
  destruct d as [ds de]. unfold widen_step, exact_window, gapless, widened, window_lt.
  cbn [fst snd]. destruct (Z.eqb ds 0 && Z.eqb de 0); [done|]. cbn [negb andb].
  destruct (Z.ltb (end_ + de) (start - ds)); [done|]. cbn [negb andb].
  destruct (forallb _ _); [|done]. cbn [negb andb].
  destruct (String.eqb _ _); [|done]. cbn [negb]. by destruct best as [[b0 b1]|].
Qed.

Lemma widens_widened start end_ tolerance w :
  widens start end_ tolerance w ↔
  ∃ d, d ∈ widenings tolerance ∧ negb (Z.eqb d.1 0 && Z.eqb d.2 0) = true
       ∧ w = widened start end_ d.
Proof.
  unfold widens, widened. split.
  - destruct w as [s e]. cbn [fst snd]. intros (Hs & He & Hne).
    exists (start - s, e - end_). rewrite elem_of_widenings. cbn [fst snd].
    split; [lia|]. split; [|f_equal; lia].
    rewrite negb_true_iff, andb_false_iff, !Z.eqb_neq.
    destruct (decide (s = start)) as [->|]; [right|left; lia].
    intros ?. apply Hne. f_equal; lia.
  - intros ([ds de] & Hd%elem_of_widenings & Hn & ->). cbn [fst snd] in *. z_bool.
    + split; [lia|]. split; [lia|]. intros [= ? ?]. lia.
    + split; [lia|]. split; [lia|]. intros [= ? ?]. lia.
Qed.

(** The declared window already carries the quote, verbatim or up to how a
    formatter wraps code. *)
Definition declared_hit (candidates : lines_map) (text : string) (start end_ : Z) : bool :=
  let joined := join_window candidates start end_ in
  str_contains (_normalize_diff_text text) (_normalize_diff_text joined)
  || _formatting_tolerant_contains joined text.

(** The scan finds the least widened window whose lines are the quote. *)
Lemma widen_fold_spec candidates text start end_ tolerance :
  match foldl (widen_step candidates (_normalize_diff_text text) start end_) None
          (widenings tolerance) with
  | Some w =>
      widens start end_ tolerance w ∧ exact_window candidates text w = true
      ∧ ∀ w', widens start end_ tolerance w' → exact_window candidates text w' = true →
          window_lt w' w = false
  | None => ∀ w', widens start end_ tolerance w' → exact_window candidates text w' = false
  end.
Proof.
  pose proof (scan_spec _ _ window_lt window_lt_trans _
    (widen_step_scan candidates text start end_) window_lt_irrefl (widenings tolerance)) as H.
  unfold scan_inv in H. destruct (foldl _ _ _) as [w|].
  - destruct H as [(d & Hd & [Hn Hex]%andb_true_iff & ->) Hmin].
    split; [apply widens_widened; eauto|]. split; [done|].
    intros w' (d' & Hd' & Hn' & ->)%widens_widened Hex'. apply Hmin; [done|].
    by rewrite Hn', Hex'.
  - intros w' (d & Hd & Hn & ->)%widens_widened. specialize (H d Hd). by rewrite Hn in H.
Qed.

(** [_reconcile_evidence_window] is the reference definition: the declared
    window when it carries the quote; otherwise the tightest gapless widening,
    lowest first, whose lines are exactly the quote; otherwise nothing. *)
Theorem reconcile_window_is_least candidates text start end_ tolerance :
  match _reconcile_evidence_window candidates text start end_ tolerance with
  | Some w =>
      if declared_hit candidates text start end_ then w = (start, end_)
      else widens start end_ tolerance w ∧ exact_window candidates text w = true
           ∧ ∀ w', widens start end_ tolerance w' → exact_window candidates text w' = true →
               window_lt w' w = false
  | None =>
      declared_hit candidates text start end_ = false
      ∧ ∀ w', widens start end_ tolerance w' → exact_window candidates text w' = false
  end.
Proof.
  unfold _reconcile_evidence_window, declared_hit. cbv zeta.
  destruct (str_contains _ _); [done|]. cbn [orb].
  destruct (_formatting_tolerant_contains _ _); [done|].
  pose proof (widen_fold_spec candidates text start end_ tolerance) as H.
  by destruct (foldl _ _ _).
Qed.

(** ** The reflow-tolerant search: fuel *)

Lemma grow_window_fuel fuel candidates target limit run end_ k :
  (∀ i, (0 ≤ i < Z.of_nat k) → is_Some (candidates !! (end_ - 1 - i))) →
  (size candidates ≤ fuel + k)%nat →
  ∀ extra, grow_window (fuel + extra) candidates target limit run end_
           = grow_window fuel candidates target limit run end_.
Proof.
  revert run end_ k. induction fuel as [|fuel IH]; intros run end_ k Hk Hsz extra.
  - destruct extra as [|extra]; [done|]. cbn [grow_window Nat.add].
    destruct (candidates !! end_) as [line|] eqn:E; [|done]. exfalso.
    assert (Hsub : list_to_set (seqZ (end_ - Z.of_nat k) (Z.of_nat k + 1)) ⊆ dom candidates).
    { intros x Hx. apply elem_of_list_to_set, elem_of_seqZ in Hx. apply elem_of_dom.
      destruct (decide (x = end_)) as [->|]; [eauto|].
      replace x with (end_ - 1 - (end_ - 1 - x)) by lia. apply Hk. lia. }
    apply subseteq_size in Hsub. rewrite size_dom, size_list_to_set in Hsub by apply NoDup_seqZ.
    rewrite length_seqZ in Hsub. lia.
  - cbn [grow_window Nat.add]. destruct (candidates !! end_) as [line|] eqn:E; [|done].
    destruct (str_contains _ _); [done|]. destruct (Nat.leb _ _); [done|].
    apply (IH _ _ (S k)); [|lia]. intros i Hi.
    destruct (decide (i = 0)) as [->|].
    + replace (end_ + 1 - 1 - 0) with end_ by lia. eauto.
    + replace (end_ + 1 - 1 - i) with (end_ - 1 - (i - 1)) by lia. apply Hk. lia.
Qed.

(** The fuel of the search from one start line is never what stops it. *)
Lemma grow_window_enough candidates target limit start extra :
  grow_window (size candidates + extra) candidates target limit [] start
  = grow_window (size candidates) candidates target limit [] start.
Proof. apply (grow_window_fuel _ _ _ _ _ _ 0); [lia|lia]. Qed.
