(* ===== verification/Findings.v ===== *)
(** * From reviewer documents to a verdict

    [review_findings/_classify.py], [_document.py], [_dedup.py], [_decided.py]
    and [_consolidate.py]: each finding of each reviewer's document is
    accepted, routed to adjudication with a flag, or rejected with a reason;
    the survivors are merged across reviewers and counted.  Logging is left
    out.  The type coercion of pydantic is the class [ReviewSchema]. *)

From S2P Require Import Prelude PyStr PyText Markers ReviewModels TextMatch.
#[local] Open Scope cw_scope.

(** ** Classification *)

Section Classify.
Context {A : PyAst} {F : RepoFiles}.

Definition _classify_unanchored_file (file : string) (worktree : option string)
  : RejectedFindingReason :=
  match worktree with
  | Some w => if _file_in_repo_tree w file then unanchored else unknown_file
  | None => unknown_file
  end.

Definition _classify_drifted_finding (finding : Finding) (diff : CapturedDiff)
  (worktree : option string) : option RejectedFindingReason :=
  match _content_rescue_anchor (window_lines diff finding.(f_file)) finding.(f_evidence) with
  | Some _ => None
  | None =>
      match worktree with
      | None => Some invalid_line_reference
      | Some w =>
          let cited := cited_lines finding in
          if existsb (_line_exceeds_file_length w finding.(f_file)) cited
          then Some line_reference_out_of_range
          else if _cited_lines_on_disk w finding.(f_file) cited
          then Some line_anchor_degraded
          else Some invalid_line_reference
      end
  end.

Definition _classify_mislocated_finding (finding : Finding) (diff : CapturedDiff)
  : option RejectedFindingReason :=
  match _content_rescue_anchor (window_lines diff finding.(f_file)) finding.(f_evidence) with
  | Some _ => None
  | None => Some evidence_not_in_diff
  end.

Definition _classify_anchored_finding (finding : Finding) (diff : CapturedDiff)
  (changed : gset string) (worktree : option string) : option RejectedFindingReason :=
  if negb (bool_decide (finding.(f_file) ∈ changed))
  then Some (_classify_unanchored_file finding.(f_file) worktree)
  else if negb (_line_reference_valid diff finding worktree)
  then _classify_drifted_finding finding diff worktree
  else if negb (_evidence_in_claimed_lines diff finding.(f_file) finding.(f_evidence)
                  finding.(f_line_start) finding.(f_line_end))
  then _classify_mislocated_finding finding diff
  else None.

Definition _classify_finding (finding : Finding) (diff : CapturedDiff)
  (changed : gset string) (worktree : option string) : option RejectedFindingReason :=
  if negb (bool_decide (finding.(f_severity) ∈ _VALID_SEVERITIES)) then Some invalid_severity
  else if is_blank finding.(f_evidence) then Some missing_evidence
  else if finding.(f_no_diff_anchor) then None
  else _classify_anchored_finding finding diff changed worktree.

(** ** Repaired and degraded anchors *)

Definition _finding_with_anchor (finding : Finding) (start end_ : Z) : Finding :=
  let finding :=
    if is_Some_b finding.(f_line_start)
    then finding <| f_line_start := Some start |> else finding in
  if is_Some_b finding.(f_line_end) then finding <| f_line_end := Some end_ |> else finding.

(** The final pair of endpoints, given what the near-line resolution found. *)
Definition repaired_anchor (candidates : lines_map) (evidence : string)
  (start end_ : Z) : Z * Z :=
  match _reconcile_evidence_window candidates evidence start end_ _LINE_ANCHOR_TOLERANCE with
  | Some reconciled => reconciled
  | None => default (start, end_) (_content_rescue_anchor candidates evidence)
  end.

Definition _resolved_finding (diff : CapturedDiff) (finding : Finding) : Finding :=
  if negb (is_Some_b finding.(f_line_start)) && negb (is_Some_b finding.(f_line_end))
  then finding
  else
    let candidates := added_text diff finding.(f_file) in
    match _resolve_line_window diff finding.(f_file) finding.(f_line_start)
            finding.(f_line_end) with
    | inr (Some (start, end_)) =>
        let '(start, end_) := repaired_anchor candidates finding.(f_evidence) start end_ in
        _finding_with_anchor finding start end_
    | _ =>
        match _content_rescue_anchor candidates finding.(f_evidence) with
        | None => finding
        | Some (start, end_) => _finding_with_anchor finding start end_
        end
    end.

Definition _degraded_finding (finding : Finding) (reason : RejectedFindingReason) : Finding :=
  let finding :=
    (finding <| f_anchor_degraded := true |>)
      <| f_anchor_degraded_reason := reason_value reason |> in
  if bool_decide (reason = line_anchor_degraded)
  then (finding <| f_line_start := None |>) <| f_line_end := None |>
  else finding.

(** ** Why a finding was rejected, for the operator *)

Definition NORMALIZATION_APPLIED : string :=
  "; normalization applied: diff-marker stripping, unicode punctuation normalization (em/en dash, curly quotes, NBSP); diff-pair rescue: ".

Definition _normalization_diagnosis (finding : Finding) : string :=
  NORMALIZATION_APPLIED +:+
  match claimed_endpoints finding.(f_line_start) finding.(f_line_end) with
  | None =>
      "not applicable (file-level fallback has no line anchor for a diff-pair rescue to resolve against)"
  | Some (raw_start, raw_end) =>
      if Z.eqb raw_start raw_end && is_Some_b (_evidence_diff_pair finding.(f_evidence))
      then "attempted (evidence is a -/+ line pair against a 1-line declared range) but no match in the file's raw diff text either"
      else "not attempted (evidence is not a -/+ line pair against a 1-line declared range); only the marker-strip and unicode-punctuation normalization above were applied"
  end.

(** [a or b or 0]. *)
Definition first_nonzero (a b : option Z) : Z :=
  match a with
  | Some z => if Z.eqb z 0 then default 0%Z b else z
  | None => default 0%Z b
  end.

Definition _evidence_window_discrepancy_detail (finding : Finding) : string :=
  let evidence_lines := str_of_nat (count_nl finding.(f_evidence) + 1) in
  if negb (is_Some_b finding.(f_line_start)) && negb (is_Some_b finding.(f_line_end))
  then
    "evidence is " +:+ evidence_lines
    +:+ " line(s); finding has no line anchor (file-level fallback) and the evidence text was not found anywhere in the file's diff"
    +:+ _normalization_diagnosis finding
  else
    let declared_lines :=
      (first_nonzero finding.(f_line_end) finding.(f_line_start)
       - first_nonzero finding.(f_line_start) finding.(f_line_end) + 1)%Z in
    "evidence is " +:+ evidence_lines +:+ " line(s) long but the declared range line_start="
    +:+ opt_Z_str finding.(f_line_start) +:+ ", line_end=" +:+ opt_Z_str finding.(f_line_end)
    +:+ " spans " +:+ str_of_Z declared_lines +:+ " line(s); no window within ±"
    +:+ str_of_Z _LINE_ANCHOR_TOLERANCE
    +:+ " lines of the declared range contains the evidence text verbatim; an unbounded content-based re-anchoring search of the file's diff also found no match (#2019)"
    +:+ _normalization_diagnosis finding.

Definition _rejection_detail (finding : Finding) (reason : RejectedFindingReason)
  (worktree : option string) : string :=
  match reason, worktree with
  | evidence_not_in_diff, _ => _evidence_window_discrepancy_detail finding
  | line_reference_out_of_range, Some w => _line_reference_out_of_range_detail finding w
  | _, _ => ""
  end.

(** ** One reviewer's document *)

Definition _ADJUDICATION_ROUTED_REASONS : list RejectedFindingReason :=
  [unanchored; line_anchor_degraded; evidence_not_in_diff].

(** What one finding of a document becomes. *)
Inductive Verdict1 :=
  | Accepted (finding : Finding) (stripped : option StrippedEscalation)
  | Rejected (finding : RejectedFinding).

(** A flag a reviewer sent is reset before classification. *)
Definition reset_degraded (source : Finding) : Finding :=
  if source.(f_anchor_degraded) || negb (String.eqb source.(f_anchor_degraded_reason) "")
  then (source <| f_anchor_degraded := false |>) <| f_anchor_degraded_reason := "" |>
  else source.

(** The escalation of an accepted finding is dropped when its quote is not in
    the diff. *)
Definition accept_finding (reviewer_role : string) (diff : CapturedDiff) (index : nat)
  (finding : Finding) : Verdict1 :=
  let resolved := _resolved_finding diff finding in
  match finding.(f_escalation) with
  | Some e =>
      if negb (_substring_in_diff diff e.(evidence_quote))
      then Accepted (resolved <| f_escalation := None |>)
             (Some (mkStrippedEscalation reviewer_role index e.(target_reviewer)))
      else Accepted resolved None
  | None => Accepted resolved None
  end.

Definition validate_one (reviewer_role : string) (diff : CapturedDiff) (changed : gset string)
  (worktree : option string) (index : nat) (source : Finding) : Verdict1 :=
  let finding := reset_degraded source in
  match _classify_finding finding diff changed worktree with
  | None => accept_finding reviewer_role diff index finding
  | Some r =>
      if negb (bool_decide (r ∈ _ADJUDICATION_ROUTED_REASONS))
      then Rejected (mkRejectedFinding (finding_dump finding) reviewer_role r
                       (_rejection_detail finding r worktree))
      else if bool_decide (r = line_anchor_degraded) || bool_decide (r = evidence_not_in_diff)
      then accept_finding reviewer_role diff index (_degraded_finding finding r)
      else accept_finding reviewer_role diff index finding
  end.

Definition verdicts (doc : ReviewerFindingsDocument) (diff : CapturedDiff)
  (worktree : option string) : list Verdict1 :=
  imap (validate_one doc.(doc_reviewer_role) diff (_changed_files diff) worktree)
    doc.(doc_findings).

Definition accepted_of (v : Verdict1) : option Finding :=
  match v with Accepted f _ => Some f | Rejected _ => None end.
Definition rejected_of (v : Verdict1) : option RejectedFinding :=
  match v with Rejected r => Some r | Accepted _ _ => None end.
Definition stripped_of (v : Verdict1) : option StrippedEscalation :=
  match v with Accepted _ s => s | Rejected _ => None end.

Definition validate_reviewer_document (doc : ReviewerFindingsDocument) (diff : CapturedDiff)
  (worktree : option string)
  : list Finding * list RejectedFinding * list StrippedEscalation :=
  let vs := verdicts doc diff worktree in
  (omap accepted_of vs, omap rejected_of vs, omap stripped_of vs).
End Classify.

(** ** The tolerant parse of a raw document *)

(** pydantic's coercion of a JSON value to the typed fields of the two models,
    and the text of a validation error. *)
Class ReviewSchema := {
  coerce_Finding : list (string * json) → option Finding;
  coerce_Document : list (string * json) →
    option (string * ReviewerHealthStatus * string * list json);
  validation_error : json → string }.

(** The [mode="before"] validators: an explicit null is the field's default. *)
Definition null_default (k : string) (dflt : json) (d : list (string * json))
  : list (string * json) :=
  match dict_get_default k dflt d with
  | JNull => dict_set k dflt d
  | _ => d
  end.

Definition finding_nulls (d : list (string * json)) : list (string * json) :=
  null_default "no_diff_anchor" (JBool false)
    (null_default "contests_decision" (JStr "")
      (null_default "contests_adjudication" (JStr "")
        (null_default "release_critical_exception" (JStr "")
          (null_default "transitive_impact_evidence" (JStr "") d)))).

Definition document_nulls (d : list (string * json)) : list (string * json) :=
  null_default "findings" (JList []) (null_default "detail" (JStr "") d).

Section Parse.
Context {S : ReviewSchema}.

(** [Finding.model_validate(item)]. *)
Definition model_validate_Finding (item : json) : exn + Finding :=
  match item with
  | JDict d =>
      match coerce_Finding (finding_nulls d) with
      | Some f => validate_Finding f
      | None => inl ValueError
      end
  | _ => inl ValueError
  end.

Fixpoint model_validate_all (items : list json) : exn + list Finding :=
  match items with
  | [] => inr []
  | item :: items' =>
      match model_validate_Finding item, model_validate_all items' with
      | inr f, inr fs => inr (f :: fs)
      | _, _ => inl ValueError
      end
  end.

(** [ReviewerFindingsDocument.model_validate(payload)]. *)
Definition model_validate_Document (payload : json) : exn + ReviewerFindingsDocument :=
  match payload with
  | JDict d =>
      match coerce_Document (document_nulls d) with
      | None => inl ValueError
      | Some (role, st, detail, items) =>
          match model_validate_all items with
          | inl e => inl e
          | inr fs =>
              validate_ReviewerFindingsDocument (mkReviewerFindingsDocument role st detail fs)
          end
      end
  | _ => inl ValueError
  end.

Definition _raw_finding_payload (item : json) : list (string * json) :=
  match item with JDict d => d | _ => [("value", item)] end.

Definition rescue_one (reviewer_role : string) (item : json) : json + RejectedFinding :=
  match model_validate_Finding item with
  | inl _ => inr (mkRejectedFinding (_raw_finding_payload item) reviewer_role schema_invalid
                    (validation_error item))
  | inr _ => inl item
  end.

Definition left_of {X Y} (x : X + Y) : option X :=
  match x with inl a => Some a | inr _ => None end.
Definition right_of {X Y} (x : X + Y) : option Y :=
  match x with inr b => Some b | inl _ => None end.

Definition _rescue_findings (payload : json) : json * list RejectedFinding :=
  match payload with
  | JDict d =>
      match dict_get "findings" d with
      | JList raw_findings =>
          let reviewer_role := json_str (dict_get_default "reviewer_role" (JStr "") d) in
          let outcomes := map (rescue_one reviewer_role) raw_findings in
          (JDict (dict_set "findings" (JList (omap left_of outcomes)) d),
           omap right_of outcomes)
      | _ => (payload, [])
      end
  | _ => (payload, [])
  end.

Definition parse_reviewer_document (payload : json)
  : exn + (ReviewerFindingsDocument * list RejectedFinding) :=
  let '(reduced, rejected) := _rescue_findings payload in
  match model_validate_Document reduced with
  | inl e => inl e
  | inr document => inr (document, rejected)
  end.
End Parse.

(** [counts[key] = counts.get(key, 0) + 1]. *)
Fixpoint count_up (key : string) (counts : list (string * Z)) : list (string * Z) :=
  match counts with
  | [] => [(key, 1%Z)]
  | (k, n) :: counts' =>
      if String.eqb key k then (k, (n + 1)%Z) :: counts' else (k, n) :: count_up key counts'
  end.

Definition tally (keys : list string) : list (string * Z) :=
  foldl (λ counts key, count_up key counts) [] keys.

Definition raw_severity (raw : list (string * json)) : string :=
  json_str (dict_get_default "severity" (JStr "unknown") raw).

(** The decoded form of the payload; undecodable text is [None]. *)
Definition _best_effort_discarded_tally (raw : option json) : Z * list (string * Z) :=
  match raw with
  | Some (JDict d) =>
      match dict_get "findings" d with
      | JList findings =>
          (Z.of_nat (length findings),
           tally (map (λ item, match item with
                               | JDict i => raw_severity i
                               | _ => "unknown"
                               end) findings))
      | _ => (0%Z, [])
      end
  | _ => (0%Z, [])
  end.

(** ** Merging across reviewers *)

Definition dkey : Type := string * string * Z * Z * string.

Definition _dedup_key (finding : Finding) : dkey :=
  (finding.(f_severity), finding.(f_file), default (-1)%Z finding.(f_line_start),
   default (-1)%Z finding.(f_line_end), finding.(f_evidence)).

(** Python's order on the key tuples; strings compare by code point, which on
    UTF-8 is byte order. *)
Definition then_compare (c d : comparison) : comparison :=
  match c with Eq => d | _ => c end.

Definition dkey_compare (a b : dkey) : comparison :=
  let '(a1, a2, a3, a4, a5) := a in
  let '(b1, b2, b3, b4, b5) := b in
  then_compare (String.compare a1 b1)
    (then_compare (String.compare a2 b2)
      (then_compare (Z.compare a3 b3)
        (then_compare (Z.compare a4 b4) (String.compare a5 b5)))).

Definition dkey_le (a b : dkey) : Prop := dkey_compare a b ≠ Gt.
#[export] Instance dkey_le_dec : RelDecision dkey_le.
Proof. intros a b. unfold dkey_le. apply not_dec. solve_decision. Defined.

Notation member := (string * Finding)%type.

(** [min(members, key=role)]: the first of the lowest roles. *)
Definition lower_role (best : member) (m : member) : member :=
  if bool_decide (String.compare m.1 best.1 = Lt) then m else best.

Definition _pick_representative (first : member) (rest : list member) : Finding :=
  let members := first :: rest in
  match filter (λ m : member, is_Some m.2.(f_escalation)) members with
  | [m] => m.2
  | _ => (foldl lower_role first rest).2
  end.

(** [groups.setdefault(key, []).append(member)]: a group is its key and its
    members, never empty. *)
Notation group := (dkey * (member * list member))%type.

Fixpoint group_add (k : dkey) (m : member) (groups : list group) : list group :=
  match groups with
  | [] => [(k, (m, []))]
  | (k', (m0, ms)) :: groups' =>
      if decide (k = k') then (k', (m0, ms ++ [m])) :: groups'
      else (k', (m0, ms)) :: group_add k m groups'
  end.

Definition merge_group (g : group) : AcceptedFinding :=
  let '(_, (m0, ms)) := g in
  new_accepted_finding (_pick_representative m0 ms)
    (merge_sort string_le (remove_dups (map fst (m0 :: ms)))).

Definition group_le (a b : group) : Prop := dkey_le a.1 b.1.
#[export] Instance group_le_dec : RelDecision group_le := λ a b, dkey_le_dec a.1 b.1.

Definition dedupe_findings (candidates : list member) : list AcceptedFinding :=
  let groups := foldl (λ gs m, group_add (_dedup_key m.2) m gs) [] candidates in
  map merge_group (merge_sort group_le groups).

(** [sum(1 for af in findings if ...)]. *)
Definition count_if {X} (p : X → bool) (xs : list X) : Z :=
  Z.of_nat (length (filter (λ x, p x = true) xs)).

Definition is_deferred (af : AcceptedFinding) : bool :=
  bool_decide (af.(af_disposition) = d_deferred).
Definition has_severity (s : string) (af : AcceptedFinding) : bool :=
  String.eqb af.(af_finding).(f_severity) s.

Definition derive_review_counts (findings : list AcceptedFinding)
  (fix_cycles_used agents_run rejected_count : Z)
  (rejected_count_by_severity : option (list (string * Z)))
  (reviewed_sha : option string) : Review :=
  mkReview
    (count_if (λ af, has_severity MUST_FIX af && negb (is_deferred af)) findings)
    (count_if (λ af, has_severity SHOULD_FIX af && negb (is_deferred af)) findings)
    fix_cycles_used
    (count_if (λ af, is_deferred af && (has_severity MUST_FIX af || has_severity SHOULD_FIX af))
       findings)
    agents_run rc_unknown (Some rejected_count)
    (Some (default [] rejected_count_by_severity)) reviewed_sha
    None None None None None None.

(** ** Decided constraints *)

Definition _HELD : Disposition * string :=
  (d_operator_actionable,
   "contests a decided constraint; held for the operator (`cw review settle` dismisses it)").
Definition _NOTE : Disposition * string :=
  (d_deferred, "contests a decided constraint; recorded as a non-blocking note").

Definition contested_disposition (finding : Finding) : option (Disposition * string) :=
  if is_blank finding.(f_contests_decision) then None
  else if String.eqb finding.(f_severity) MUST_FIX then Some _HELD
  else if String.eqb finding.(f_severity) SHOULD_FIX then Some _NOTE
  else None.

Definition set_must_fix (verdict : ReviewVerdict) (accepted : list AcceptedFinding)
  (must_fix : list Finding) : ReviewVerdict :=
  ((verdict <| v_accepted := accepted |>) <| v_must_fix := must_fix |>)
    <| v_blocking := negb (bool_decide (length must_fix = 0)) |>.

Definition stamp_contest (af : AcceptedFinding) : AcceptedFinding :=
  match contested_disposition af.(af_finding) with
  | Some (disposition, detail) =>
      if bool_decide (af.(af_disposition) = d_fixed)
      then (af <| af_disposition := disposition |>) <| af_disposition_detail := detail |>
      else af
  | None => af
  end.

Definition contest_stamps (af : AcceptedFinding) : bool :=
  is_Some_b (contested_disposition af.(af_finding))
  && bool_decide (af.(af_disposition) = d_fixed).

Definition stamp_decision_contests (verdict : ReviewVerdict) : ReviewVerdict :=
  if negb (existsb contest_stamps verdict.(v_accepted)) then verdict
  else
    let stamped := map stamp_contest verdict.(v_accepted) in
    set_must_fix verdict stamped
      (map af_finding
         (filter (λ af, has_severity MUST_FIX af = true ∧ af.(af_disposition) = d_fixed) stamped)).

Definition contested_findings (verdict : ReviewVerdict) : list AcceptedFinding :=
  filter (λ af, has_severity MUST_FIX af = true
                ∧ af.(af_disposition) = d_operator_actionable
                ∧ is_blank af.(af_finding).(f_contests_decision) = false) verdict.(v_accepted).

Definition has_contested_decision (verdict : ReviewVerdict) : bool :=
  negb (bool_decide (length (contested_findings verdict) = 0)).

(** ** The verdict *)

Definition claims_must_fix (rf : RejectedFinding) : bool :=
  json_is_str MUST_FIX (dict_get "severity" rf.(rf_raw)).

Definition _select_rejected_must_fix (rejected : list RejectedFinding) : list RejectedFinding :=
  filter (λ rf, claims_must_fix rf = true) rejected.

Definition _count_rejected_by_severity (rejected : list RejectedFinding)
  : list (string * Z) :=
  tally (map (λ rf, raw_severity rf.(rf_raw)) rejected).

Definition _GATING_DISCARD_SEVERITIES : list string := [MUST_FIX; SHOULD_FIX].

Definition discards_gating (f : ReviewerRunFailure) : bool :=
  existsb (λ sc, bool_decide (sc.1 ∈ _GATING_DISCARD_SEVERITIES) && Z.ltb 0 sc.2)
    f.(rrf_discarded_finding_severities).

Definition _select_run_failures_with_discards (failures : list ReviewerRunFailure)
  : list ReviewerRunFailure :=
  filter (λ f, discards_gating f = true) failures.

Definition _in_plan_scope (finding : Finding) (planned_files : option (list string))
  (changed : gset string) : option bool :=
  match planned_files with
  | None => None
  | Some planned =>
      if finding.(f_no_diff_anchor) then None
      else Some (bool_decide (finding.(f_file) ∈ planned)
                 || bool_decide (finding.(f_file) ∈ changed))
  end.

Definition stamp_scope (planned_files : option (list string)) (changed : gset string)
  (af : AcceptedFinding) : AcceptedFinding :=
  af <| af_in_plan_scope := _in_plan_scope af.(af_finding) planned_files changed |>.

Definition blocks (af : AcceptedFinding) : bool :=
  has_severity MUST_FIX af && negb (is_deferred af).

Section Consolidate.
Context {A : PyAst} {F : RepoFiles}.

Definition document_record (metrics : gmap string (list (string * json)))
  (diff : CapturedDiff) (worktree : option string) (doc : ReviewerFindingsDocument)
  : ReviewerRunRecord :=
  let '(accepted, _, _) := validate_reviewer_document doc diff worktree in
  mkReviewerRunRecord doc.(doc_reviewer_role) doc.(doc_status) doc.(doc_detail)
    (Z.of_nat (length accepted)) (default [] (metrics !! doc.(doc_reviewer_role))).

Definition failure_record (metrics : gmap string (list (string * json)))
  (failure : ReviewerRunFailure) : ReviewerRunRecord :=
  mkReviewerRunRecord failure.(rrf_role) health_failed "" 0%Z
    (default [] (metrics !! failure.(rrf_role))).

Definition doc_candidates (diff : CapturedDiff) (worktree : option string)
  (doc : ReviewerFindingsDocument) : list member :=
  map (pair doc.(doc_reviewer_role)) (validate_reviewer_document doc diff worktree).1.1.

Definition consolidate_verdict (documents : list ReviewerFindingsDocument)
  (diff : CapturedDiff) (reviewed_sha : string) (worktree : option string)
  (failed_reviewers : list ReviewerRunFailure) (fix_cycles_used : Z)
  (metrics_by_role : gmap string (list (string * json)))
  (pre_validation_rejected : list RejectedFinding)
  (planned_files : option (list string)) : ReviewVerdict :=
  let changed := _changed_files diff in
  let candidates := flat_map (doc_candidates diff worktree) documents in
  let all_rejected :=
    pre_validation_rejected
    ++ flat_map (λ doc, (validate_reviewer_document doc diff worktree).1.2) documents in
  let all_stripped :=
    flat_map (λ doc, (validate_reviewer_document doc diff worktree).2) documents in
  let run_records :=
    map (document_record metrics_by_role diff worktree) documents
    ++ map (failure_record metrics_by_role) failed_reviewers in
  let accepted_findings :=
    map (stamp_scope planned_files changed) (dedupe_findings candidates) in
  let rejected_count := Z.of_nat (length all_rejected) in
  let rejected_by_severity := _count_rejected_by_severity all_rejected in
  let review :=
    derive_review_counts accepted_findings fix_cycles_used (Z.of_nat (length documents))
      rejected_count (Some rejected_by_severity) (Some reviewed_sha) in
  let must_fix := map af_finding (filter (λ af, blocks af = true) accepted_findings) in
  mkReviewVerdict (negb (bool_decide (length must_fix = 0))) must_fix reviewed_sha
    accepted_findings all_rejected run_records review all_stripped
    (_select_rejected_must_fix all_rejected)
    (_select_run_failures_with_discards failed_reviewers)
    rejected_count rejected_by_severity 0 None None [] true 0 0 None [] [] [] [].
End Consolidate.
