(* ===== verification/FindingsProps.v ===== *)
(** * No finding is lost

    What validation, merging and consolidation promise: an accepted quote is
    in the diff, or its finding says why not, each finding of a document has exactly one fate, merging keeps
    every key, and a MUST_FIX either blocks the verdict or is reported as
    rejected. *)

From S2P Require Import Prelude PyStr PyText Markers ReviewModels TextMatch Findings.
#[local] Open Scope Z_scope.

(** ** Accepted evidence *)

Lemma str_contains_refl s : str_contains s s = true.
Proof.
  unfold str_contains. rewrite str_split1_eq.
  pose proof (starts_with_app s "") as H. rewrite sapp_nil_r in H. by rewrite H.
Qed.

Lemma reconcile_carries candidates text start end_ tolerance w :
  _reconcile_evidence_window candidates text start end_ tolerance = Some w →
  declared_hit candidates text w.1 w.2 = true.
Proof.
  unfold _reconcile_evidence_window. cbv zeta. destruct (str_contains _ _) eqn:E1.
  { intros [= <-]. unfold declared_hit. cbn [fst snd]. by rewrite E1. }
  destruct (_formatting_tolerant_contains _ _) eqn:E2.
  { intros [= <-]. unfold declared_hit. cbn [fst snd]. by rewrite E2, orb_true_r. }
  pose proof (widen_fold_spec candidates text start end_ tolerance) as H.
  intros Hf. rewrite Hf in H. destruct H as (_ & Hex & _).
  apply andb_true_iff in Hex as [_ Hex%String.eqb_eq].
  unfold declared_hit. by rewrite Hex, str_contains_refl.
Qed.

Lemma first_start_Some {A} (f : Z → option A) starts a :
  first_start f starts = Some a → ∃ start, start ∈ starts ∧ f start = Some a.
Proof.
  induction starts as [|s starts IH]; simpl; [done|]. destruct (f s) eqn:E.
  - intros [= ->]. exists s. split; [by left|done].
  - intros H. destruct (IH H) as (x & Hx & Hf). exists x. split; [by right|done].
Qed.

Lemma line_range_snoc start end_ :
  start ≤ end_ + 1 → line_range start (end_ + 1) = line_range start end_ ++ [end_ + 1].
Proof.
  intros H. unfold line_range. replace (end_ + 1 + 1 - start) with (end_ + 1 - start + 1) by lia.
  rewrite (seqZ_app start (end_ + 1 - start) 1) by lia. f_equal.
  replace (start + (end_ + 1 - start)) with (end_ + 1) by lia. done.
Qed.

Lemma grow_window_carries fuel candidates target limit run start end_ e :
  start ≤ end_ → run = omap (λ n, candidates !! n) (line_range start (end_ - 1)) →
  grow_window fuel candidates target limit run end_ = Some e →
  str_contains target (_formatting_normalized_text (join_window candidates start e)) = true.
Proof.
  revert run end_. induction fuel as [|fuel IH]; intros run end_ Hle Hrun; [done|].
  cbn [grow_window]. destruct (candidates !! end_) as [line|] eqn:E; [|done].
  assert (Hrun' : run ++ [line] = omap (λ n, candidates !! n) (line_range start end_)).
  { replace end_ with (end_ - 1 + 1) by lia. rewrite line_range_snoc by lia.
    rewrite omap_app, <- Hrun. cbn. replace (end_ - 1 + 1) with end_ by lia. by rewrite E. }
  destruct (str_contains target (_formatting_normalized_text (join_lines _))) eqn:Hc.
  - intros [= <-]. by rewrite Hrun' in Hc.
  - destruct (Nat.leb _ _); [done|]. apply IH; [lia|].
    by replace (end_ + 1 - 1) with end_ by lia.
Qed.

Lemma tolerant_window_carries candidates evidence w :
  _formatting_tolerant_window candidates evidence = Some w →
  declared_hit candidates evidence w.1 w.2 = true.
Proof.
  unfold _formatting_tolerant_window. cbv zeta.
  destruct (String.eqb_spec (_formatting_normalized_text evidence) "") as [|Hne]; [done|].
  intros (start & _ & H)%first_start_Some. apply fmap_Some in H as (e & H & ->).
  apply (grow_window_carries _ _ _ _ _ start) in H; [|lia|]; cycle 1.
  { unfold line_range. rewrite seqZ_nil by lia. done. }
  unfold declared_hit, _formatting_tolerant_contains. cbn [fst snd]. cbv zeta.
  rewrite H. apply String.eqb_neq in Hne. rewrite Hne. apply orb_true_r.
Qed.

Lemma rescue_carries candidates evidence w :
  _content_rescue_anchor candidates evidence = Some w →
  declared_hit candidates evidence w.1 w.2 = true.
Proof.
  unfold _content_rescue_anchor. case_bool_decide; [done|]. cbv zeta.
  destruct (first_start _ _) as [w'|] eqn:E.
  - intros [= ->]. apply first_start_Some in E as (s & _ & E). by apply reconcile_carries in E.
  - apply tolerant_window_carries.
Qed.

Lemma pair_rescue_real diff file text ls le :
  _diff_pair_rescue diff file text ls le = true →
  ∃ removed added, split_lines text = [removed; added]
    ∧ (str_contains (_normalize_diff_text removed)
         (_normalize_diff_text (default "" (cd_file_diffs diff !! file))) = true
       ∨ str_contains (_normalize_diff_text added)
         (_normalize_diff_text (default "" (cd_file_diffs diff !! file))) = true).
Proof.
  unfold _diff_pair_rescue. destruct (claimed_endpoints ls le) as [[s e]|]; [|done].
  destruct (negb _); [done|]. unfold _evidence_diff_pair. cbv zeta.
  destruct (split_lines text) as [|r [|a [|? ?]]]; try done. cbn [length Nat.eqb negb].
  destruct (_ || _); [done|]. intros [H|H]%orb_true_iff; exists r, a; auto.
Qed.

Lemma claimed_real diff file text ls le :
  _evidence_in_claimed_lines diff file text ls le = true →
  (∃ s e, declared_hit (window_lines diff file) text s e = true)
  ∨ str_contains (_normalize_diff_text text)
      (_normalize_diff_text (default "" (cd_file_diffs diff !! file))) = true
  ∨ _diff_pair_rescue diff file text ls le = true.
Proof.
  unfold _evidence_in_claimed_lines. destruct (_ && _); [by auto|].
  destruct (_resolve_hunk_window _ _ _ _) as [|[[s e]|]]; auto.
  intros [H|H]%orb_true_iff; [|auto]. left.
  destruct (_reconcile_evidence_window _ _ _ _ _) as [w|] eqn:E; [|done].
  apply reconcile_carries in E. eauto.
Qed.

Section Fates.
Context {A : PyAst} {F : RepoFiles}.

(** The quote is in the file's part of the diff: in a run of its lines, in its
    raw hunks, or half of a removed/added pair is. *)
Definition evidence_in_diff (diff : CapturedDiff) (f : Finding) : Prop :=
  (∃ s e, declared_hit (window_lines diff f.(f_file)) f.(f_evidence) s e = true)
  ∨ (∃ quote, (quote = f.(f_evidence)
               ∨ ∃ other, split_lines f.(f_evidence) = [quote; other]
                          ∨ split_lines f.(f_evidence) = [other; quote])
      ∧ str_contains (_normalize_diff_text quote)
          (_normalize_diff_text (default "" (cd_file_diffs diff !! f.(f_file)))) = true).

(** A finding with no objection disclaims a diff anchor or names a changed file
    whose diff holds its evidence. *)
Lemma unobjected_evidence f diff worktree :
  _classify_finding f diff (_changed_files diff) worktree = None →
  f.(f_severity) ∈ _VALID_SEVERITIES ∧ is_blank f.(f_evidence) = false
  ∧ (f.(f_no_diff_anchor) = true
     ∨ f.(f_file) ∈ _changed_files diff ∧ evidence_in_diff diff f).
Proof.
  unfold _classify_finding. case_bool_decide as Hs; [|done]. cbn [negb].
  destruct (is_blank _); [done|]. destruct (f_no_diff_anchor f); [auto|].
  intros H. split; [done|]. split; [done|]. right.
  unfold _classify_anchored_finding in H. case_bool_decide as Hc; [|done].
  split; [done|]. cbn [negb] in H. unfold evidence_in_diff.
  destruct (_line_reference_valid diff f worktree); cbn [negb] in H.
  - destruct (_evidence_in_claimed_lines _ _ _ _ _) eqn:E; cbn [negb] in H.
    + apply claimed_real in E as [?|[?|E]]; [by left|right; eauto|].
      apply pair_rescue_real in E as (r & a & Hl & [?|?]); right; eauto 6.
    + unfold _classify_mislocated_finding in H.
      destruct (_content_rescue_anchor _ _) as [w|] eqn:E'; [|done].
      apply rescue_carries in E'. left. eauto.
  - unfold _classify_drifted_finding in H.
    destruct (_content_rescue_anchor _ _) as [w|] eqn:E'.
    + apply rescue_carries in E'. left. eauto.
    + destruct worktree; [|done]. by repeat (destruct (_ : bool) in H).
Qed.
End Fates.

(** ** One fate per finding *)

(** Everything of a finding but its anchor, its flags and its escalation. *)
Definition content (f : Finding) :=
  (f.(f_severity), f.(f_file), f.(f_summary), f.(f_consequence), f.(f_suggested_fix),
   f.(f_evidence), f.(f_confidence), f.(f_no_diff_anchor), f.(f_contests_adjudication),
   f.(f_contests_decision)).

Lemma with_anchor_content f s e : content (_finding_with_anchor f s e) = content f.
Proof. unfold _finding_with_anchor. by repeat destruct (is_Some_b _). Qed.

Lemma resolved_content diff f : content (_resolved_finding diff f) = content f.
Proof.
  unfold _resolved_finding. destruct (_ && _); [done|]. cbv zeta.
  destruct (_resolve_line_window _ _ _ _) as [|[[s e]|]]; [| |].
  - destruct (_content_rescue_anchor _ _) as [[? ?]|]; [apply with_anchor_content|done].
  - destruct (repaired_anchor _ _ _ _). apply with_anchor_content.
  - destruct (_content_rescue_anchor _ _) as [[? ?]|]; [apply with_anchor_content|done].
Qed.

Lemma degraded_content f r : content (_degraded_finding f r) = content f.
Proof. unfold _degraded_finding. by case_bool_decide. Qed.

Lemma reset_content f : content (reset_degraded f) = content f.
Proof. unfold reset_degraded. by destruct (_ || _). Qed.

Lemma reset_severity f : (reset_degraded f).(f_severity) = f.(f_severity).
Proof. unfold reset_degraded. by destruct (_ || _). Qed.

(** The flag of a citation the mechanical check could not verify. *)
Definition flag (f : Finding) := (f.(f_anchor_degraded), f.(f_anchor_degraded_reason)).

Lemma with_anchor_flag f s e : flag (_finding_with_anchor f s e) = flag f.
Proof. unfold _finding_with_anchor. by repeat destruct (is_Some_b _). Qed.

Lemma resolved_flag diff f : flag (_resolved_finding diff f) = flag f.
Proof.
  unfold _resolved_finding. destruct (_ && _); [done|]. cbv zeta.
  destruct (_resolve_line_window _ _ _ _) as [|[[s e]|]];
    [|destruct (repaired_anchor _ _ _ _); apply with_anchor_flag|];
    (destruct (_content_rescue_anchor _ _) as [[? ?]|]; [apply with_anchor_flag|done]).
Qed.

Lemma degraded_flag f r : flag (_degraded_finding f r) = (true, reason_value r).
Proof. unfold _degraded_finding. by case_bool_decide. Qed.

Lemma reset_flag f : flag (reset_degraded f) = (false, "").
Proof.
  unfold reset_degraded, flag. destruct (f_anchor_degraded f) eqn:Hd; [done|].
  destruct (String.eqb_spec (f_anchor_degraded_reason f) "") as [Hr|]; [|done].
  cbn. by rewrite Hd, Hr.
Qed.

Lemma accept_accepts role diff i f :
  ∃ g st, accept_finding role diff i f = Accepted g st ∧ content g = content f
          ∧ flag g = flag f.
Proof.
  unfold accept_finding. cbv zeta. pose proof (resolved_content diff f) as H.
  pose proof (resolved_flag diff f) as H'.
  destruct (f_escalation f); [destruct (negb _)|]; eauto.
Qed.

Section Fates2.
Context {A : PyAst} {F : RepoFiles}.

Definition REJECTING_REASONS : list RejectedFindingReason :=
  [invalid_severity; missing_evidence; unknown_file; invalid_line_reference;
   line_reference_out_of_range].

(** The fate of one finding: accepted with its content, or rejected for one of
    the five reasons no adjudicator could decide on, with its payload kept. *)
Definition fate_of (role : string) (source : Finding) (v : Verdict1) : Prop :=
  match v with
  | Accepted g _ => content g = content source
  | Rejected rf =>
      rf.(rf_raw) = finding_dump (reset_degraded source)
      ∧ rf.(rf_reviewer_role) = role
      ∧ rf.(rf_reason) ∈ REJECTING_REASONS
  end.

Lemma rejecting_not_routed r :
  r ∈ REJECTING_REASONS → r ∉ schema_invalid :: _ADJUDICATION_ROUTED_REASONS.
Proof.
  intros H%(bool_decide_eq_true_2 (r ∈ REJECTING_REASONS)).
  apply (bool_decide_eq_false_1 (r ∈ _)). by destruct r.
Qed.

Lemma rejecting_of r :
  r ≠ schema_invalid → r ∉ _ADJUDICATION_ROUTED_REASONS → r ∈ REJECTING_REASONS.
Proof.
  intros Hne H%(bool_decide_eq_false_2 (r ∈ _ADJUDICATION_ROUTED_REASONS)).
  apply (bool_decide_eq_true_1 (r ∈ _)). by destruct r.
Qed.

Lemma classify_reasons f diff changed worktree r :
  _classify_finding f diff changed worktree = Some r →
  r ≠ schema_invalid.
Proof.
  unfold _classify_finding, _classify_anchored_finding, _classify_drifted_finding,
    _classify_mislocated_finding, _classify_unanchored_file.
  repeat (case_match; try congruence; try (intros [= <-]; congruence)).
Qed.

Lemma validate_one_fate role diff changed worktree i source :
  fate_of role source (validate_one role diff changed worktree i source).
Proof.
  unfold validate_one. cbv zeta.
  destruct (_classify_finding _ _ _ _) as [r|] eqn:E; cycle 1.
  { destruct (accept_accepts role diff i (reset_degraded source)) as (g & st & -> & H & _).
    simpl. by rewrite H, reset_content. }
  apply classify_reasons in E.
  destruct (negb _) eqn:Hr.
  - apply negb_true_iff, bool_decide_eq_false in Hr.
    split; [done|]. split; [done|]. by apply rejecting_of.
  - destruct (_ || _).
    + destruct (accept_accepts role diff i (_degraded_finding (reset_degraded source) r))
        as (g & st & -> & H & _). simpl. by rewrite H, degraded_content, reset_content.
    + destruct (accept_accepts role diff i (reset_degraded source)) as (g & st & -> & H & _).
      simpl. by rewrite H, reset_content.
Qed.

(** What the mechanical check knows of an accepted finding's quote: it flagged
    it, was told to expect no anchor, found it in the diff of a changed file,
    or found the file in the checkout only. *)
Definition vouched (diff : CapturedDiff) (worktree : option string) (g : Finding) : Prop :=
  (g.(f_anchor_degraded) = true
   ∧ g.(f_anchor_degraded_reason) ∈ map reason_value [line_anchor_degraded; evidence_not_in_diff])
  ∨ g.(f_anchor_degraded) = false
    ∧ (g.(f_no_diff_anchor) = true
       ∨ g.(f_file) ∈ _changed_files diff ∧ evidence_in_diff diff g
       ∨ g.(f_file) ∉ _changed_files diff
         ∧ ∃ w, worktree = Some w ∧ _file_in_repo_tree w g.(f_file) = true).

Lemma unanchored_file f diff worktree :
  _classify_finding f diff (_changed_files diff) worktree = Some unanchored →
  f.(f_file) ∉ _changed_files diff
  ∧ ∃ w, worktree = Some w ∧ _file_in_repo_tree w f.(f_file) = true.
Proof.
  unfold _classify_finding, _classify_anchored_finding, _classify_drifted_finding,
    _classify_mislocated_finding, _classify_unanchored_file.
  repeat (case_match; try congruence).
  intros _. split; [|eauto]. by eapply bool_decide_eq_false, negb_true_iff.
Qed.

Lemma classified_basics f diff changed worktree r :
  _classify_finding f diff changed worktree = r → r ≠ Some invalid_severity →
  r ≠ Some missing_evidence →
  f.(f_severity) ∈ _VALID_SEVERITIES ∧ is_blank f.(f_evidence) = false.
Proof.
  unfold _classify_finding. case_bool_decide as Hs; cbn [negb]; [|by intros <-].
  destruct (is_blank _); [by intros <-|done].
Qed.

Lemma validate_one_vouched role diff worktree i source g st :
  validate_one role diff (_changed_files diff) worktree i source = Accepted g st →
  content g = content source ∧ g.(f_severity) ∈ _VALID_SEVERITIES
  ∧ is_blank g.(f_evidence) = false ∧ vouched diff worktree g.
Proof.
  unfold validate_one. cbv zeta. set (f := reset_degraded source). intros Hv.
  pose proof (reset_content source : content f = _) as Hf.
  pose proof (reset_flag source : flag f = _) as Hz.
  pose proof (classified_basics f diff (_changed_files diff) worktree _ eq_refl) as Hb.
  destruct (_classify_finding _ _ _ _) as [r|] eqn:E.
  - destruct (bool_decide_reflect (r ∈ _ADJUDICATION_ROUTED_REASONS)) as [Hr|]; [|done].
    destruct Hb as [Hs He]; [by intros [= ->]; apply (bool_decide_eq_true_2 _) in Hr..|].
    cbn [negb] in Hv. destruct (_ || _) eqn:Hd.
    + destruct (accept_accepts role diff i (_degraded_finding f r)) as (g' & st' & Ha & Hc & Hg).
      rewrite Ha in Hv. injection Hv as <- <-. rewrite degraded_content in Hc.
      rewrite degraded_flag in Hg. injection Hg as Hg1 Hg2.
      assert (g'.(f_severity) = f.(f_severity) ∧ g'.(f_evidence) = f.(f_evidence)) as [-> ->]
        by (injection Hc; auto).
      split_and!; [by rewrite Hc|done|done|]. left. split; [done|]. rewrite Hg2.
      apply orb_true_iff in Hd as [->%bool_decide_eq_true| ->%bool_decide_eq_true]; set_solver.
    + destruct (accept_accepts role diff i f) as (g' & st' & Ha & Hc & Hg).
      rewrite Ha in Hv. injection Hv as <- <-. rewrite Hz in Hg. injection Hg as Hg1 Hg2.
      assert (r = unanchored) as ->.
      { apply orb_false_iff in Hd as [H1%bool_decide_eq_false H2%bool_decide_eq_false].
        unfold _ADJUDICATION_ROUTED_REASONS in Hr. set_solver. }
      apply unanchored_file in E.
      assert (g'.(f_severity) = f.(f_severity) ∧ g'.(f_evidence) = f.(f_evidence)
              ∧ g'.(f_file) = f.(f_file)) as (-> & -> & Hfile) by (injection Hc; auto).
      split_and!; [by rewrite Hc|done|done|]. right. split; [done|]. right. right.
      by rewrite Hfile.
  - destruct (accept_accepts role diff i f) as (g' & st' & Ha & Hc & Hg).
    rewrite Ha in Hv. injection Hv as <- <-. rewrite Hz in Hg. injection Hg as Hg1 Hg2.
    apply unobjected_evidence in E as (Hs & He & Hq).
    assert (g'.(f_severity) = f.(f_severity) ∧ g'.(f_evidence) = f.(f_evidence)
            ∧ g'.(f_file) = f.(f_file) ∧ g'.(f_no_diff_anchor) = f.(f_no_diff_anchor))
      as (-> & Hev & Hfile & Hnd) by (injection Hc; auto).
    split_and!; [by rewrite Hc|done|by rewrite Hev|]. right. split; [done|].
    unfold evidence_in_diff in *. rewrite Hev, Hfile, Hnd. tauto.
Qed.

(** C24: every finding a document's validation accepts has a valid severity, a
    quote, and a standing the mechanical check vouches for: it is flagged as
    degraded for one of two reasons; or it disclaims a diff anchor; or its file
    changed and the diff really holds its quote; or its file did not change and
    exists in the checkout, the one case in which an unverified quote passes
    without a flag. *)
Theorem accepted_evidence_is_vouched doc diff worktree g :
  g ∈ (validate_reviewer_document doc diff worktree).1.1 →
  g.(f_severity) ∈ _VALID_SEVERITIES ∧ is_blank g.(f_evidence) = false
  ∧ vouched diff worktree g
  ∧ ∃ source, source ∈ doc.(doc_findings) ∧ content g = content source.
Proof.
  unfold validate_reviewer_document, verdicts. cbn [fst]. intros (v & Hv & Hg)%list_elem_of_omap.
  apply list_elem_of_lookup in Hv as [i Hv]. rewrite list_lookup_imap in Hv.
  apply fmap_Some in Hv as (source & Hs & ->).
  destruct (validate_one _ _ _ _ _ _) as [g' st|] eqn:E; [|done]. injection Hg as ->.
  apply validate_one_vouched in E as (Hc & H1 & H2 & H3). split_and!; [done|done|done|].
  exists source. split; [by eapply list_elem_of_lookup_2|done].
Qed.

Lemma verdicts_lookup doc diff worktree i source :
  doc_findings doc !! i = Some source →
  verdicts doc diff worktree !! i
  = Some (validate_one (doc_reviewer_role doc) diff (_changed_files diff) worktree i source).
Proof. intros H. unfold verdicts. by rewrite list_lookup_imap, H. Qed.

Lemma fates_partition vs :
  (length (omap accepted_of vs) + length (omap rejected_of vs) = length vs)%nat.
Proof.
  induction vs as [|[f st|r] vs IH]; [done|..]; cbn in *; lia.
Qed.

Lemma document_fate doc diff worktree source :
  source ∈ doc.(doc_findings) →
  (∃ g, g ∈ (validate_reviewer_document doc diff worktree).1.1 ∧ content g = content source)
  ∨ (∃ rf, rf ∈ (validate_reviewer_document doc diff worktree).1.2
       ∧ rf.(rf_raw) = finding_dump (reset_degraded source)).
Proof.
  intros [i Hi]%list_elem_of_lookup. unfold validate_reviewer_document. cbv zeta. cbn [fst snd].
  pose proof (verdicts_lookup doc diff worktree i source Hi) as Hv.
  pose proof (validate_one_fate (doc_reviewer_role doc) diff (_changed_files diff) worktree
                i source) as Hf.
  set (v := validate_one _ _ _ _ _ _) in *.
  apply list_elem_of_lookup_2 in Hv. destruct v as [g st|rf]; simpl in Hf.
  - left. exists g. split; [|done]. apply list_elem_of_omap. by exists (Accepted g st).
  - right. exists rf. split; [|by destruct Hf]. apply list_elem_of_omap. by exists (Rejected rf).
Qed.

(** Validating a reviewer's document loses nothing: every finding is either
    accepted with its text untouched or rejected with its payload kept, the
    two lists account for every finding, and none is rejected for a citation
    an adjudicator could still read. *)
Theorem document_findings_partitioned doc diff worktree :
  let '(accepted, rejected, _) := validate_reviewer_document doc diff worktree in
  (length accepted + length rejected = length doc.(doc_findings))%nat
  ∧ (∀ source, source ∈ doc.(doc_findings) →
       (∃ g, g ∈ accepted ∧ content g = content source)
       ∨ (∃ rf, rf ∈ rejected ∧ rf.(rf_raw) = finding_dump (reset_degraded source)))
  ∧ (∀ rf, rf ∈ rejected →
       rf.(rf_reviewer_role) = doc.(doc_reviewer_role)
       ∧ rf.(rf_reason) ∉ schema_invalid :: _ADJUDICATION_ROUTED_REASONS).
Proof.
  pose proof (document_fate doc diff worktree) as Hfate.
  unfold validate_reviewer_document in *. cbv zeta in *. split_and!; [|exact Hfate|].
  - rewrite fates_partition. unfold verdicts. by rewrite length_imap.
  - intros rf (v & Hv & Hr)%list_elem_of_omap. apply list_elem_of_lookup in Hv as [i Hi].
    unfold verdicts in Hi. rewrite list_lookup_imap in Hi.
    destruct (doc_findings doc !! i) as [source|]; [|done]. injection Hi as <-.
    pose proof (validate_one_fate (doc_reviewer_role doc) diff (_changed_files diff) worktree
                  i source) as Hf.
    destruct (validate_one _ _ _ _ _ _) as [|rf']; [done|]. injection Hr as ->.
    destruct Hf as (_ & -> & Hreason). split; [done|].
    by apply rejecting_not_routed.
Qed.
End Fates2.

(** ** Merging *)

Definition group_members (g : group) : list member := g.2.1 :: g.2.2.

Definition groups_ok (gs : list group) : Prop :=
  NoDup gs.*1 ∧ ∀ g, g ∈ gs → ∀ m, m ∈ group_members g → _dedup_key m.2 = g.1.

Lemma group_add_keys k m gs :
  (group_add k m gs).*1 = if decide (k ∈ gs.*1) then gs.*1 else gs.*1 ++ [k].
Proof.
  induction gs as [|[k' [m0 ms]] gs IH]; csimpl; [done|].
  destruct (decide (k = k')) as [->|Hne]; csimpl.
  - rewrite decide_True by set_solver. done.
  - rewrite IH. destruct (decide (k ∈ gs.*1)).
    + by rewrite decide_True by set_solver.
    + by rewrite decide_False by set_solver.
Qed.

Lemma group_add_members k m gs g :
  g ∈ group_add k m gs → ∀ x, x ∈ group_members g →
  (x = m ∧ g.1 = k) ∨ ∃ g', g' ∈ gs ∧ g'.1 = g.1 ∧ x ∈ group_members g'.
Proof.
  induction gs as [|[k' [m0 ms]] gs IH]; simpl.
  - intros ->%list_elem_of_singleton x Hx. unfold group_members in Hx. simpl in Hx. set_solver.
  - destruct (decide (k = k')) as [->|Hne].
    + intros [->|Hg]%elem_of_cons x Hx.
      * unfold group_members in Hx. simpl in Hx.
        apply elem_of_cons in Hx as [->|[Hx| ->%list_elem_of_singleton]%elem_of_app].
        -- right. exists (k', (m0, ms)). unfold group_members. simpl. set_solver.
        -- right. exists (k', (m0, ms)). unfold group_members. simpl. set_solver.
        -- by left.
      * right. exists g. set_solver.
    + intros [->|Hg]%elem_of_cons x Hx.
      * right. exists (k', (m0, ms)). set_solver.
      * destruct (IH Hg x Hx) as [?|(g' & ? & ? & ?)]; [by left|right].
        exists g'. set_solver.
Qed.

Lemma group_add_has k m gs : ∃ g, g ∈ group_add k m gs ∧ g.1 = k ∧ m ∈ group_members g.
Proof.
  induction gs as [|[k' [m0 ms]] gs IH]; simpl.
  - exists (k, (m, [])). unfold group_members. simpl. set_solver.
  - destruct (decide (k = k')) as [->|Hne].
    + exists (k', (m0, ms ++ [m])). unfold group_members. simpl. set_solver.
    + destruct IH as (g & ? & ? & ?). exists g. set_solver.
Qed.

Lemma group_add_keeps k m gs g x :
  g ∈ gs → x ∈ group_members g → ∃ g', g' ∈ group_add k m gs ∧ g'.1 = g.1 ∧ x ∈ group_members g'.
Proof.
  induction gs as [|[k' [m0 ms]] gs IH]; simpl; [set_solver|].
  intros [->|Hg]%elem_of_cons Hx.
  - destruct (decide (k = k')) as [->|Hne].
    + exists (k', (m0, ms ++ [m])). unfold group_members in *. simpl in *. set_solver.
    + exists (k', (m0, ms)). set_solver.
  - destruct (decide (k = k')) as [->|Hne].
    + exists g. set_solver.
    + destruct (IH Hg Hx) as (g' & ? & ? & ?). exists g'. set_solver.
Qed.

Lemma groups_spec cands gs :
  groups_ok gs →
  let gs' := foldl (λ gs (m : member), group_add (_dedup_key m.2) m gs) gs cands in
  groups_ok gs'
  ∧ (∀ g m, g ∈ gs' → m ∈ group_members g →
       m ∈ cands ∨ ∃ g', g' ∈ gs ∧ m ∈ group_members g')
  ∧ (∀ m, m ∈ cands ∨ (∃ g', g' ∈ gs ∧ m ∈ group_members g') →
       ∃ g, g ∈ gs' ∧ m ∈ group_members g).
Proof.
  revert gs. induction cands as [|c cands IH]; intros gs [Hnd Hok]; simpl.
  - split_and!; [done| |]; [by eauto|]. intros m [Hm|?]; [by apply elem_of_nil in Hm|done].
  - assert (Hok' : groups_ok (group_add (_dedup_key c.2) c gs)).
    { split.
      - rewrite group_add_keys. destruct (decide _); [done|].
        apply NoDup_app. split; [done|]. split; [set_solver|apply NoDup_singleton].
      - intros g Hg m Hm. destruct (group_add_members _ _ _ _ Hg m Hm) as [[-> ->]|(g' & H & <- & ?)];
          [done|by apply (Hok g')]. }
    destruct (IH _ Hok') as (H1 & H2 & H3). split_and!; [done| |].
    + intros g m Hg Hm. destruct (H2 g m Hg Hm) as [?|(g' & Hg' & Hm')]; [left; set_solver|].
      destruct (group_add_members _ _ _ _ Hg' m Hm') as [[-> _]|(g'' & ? & _ & ?)];
        [left; set_solver|right; eauto].
    + intros m Hm. apply H3. destruct Hm as [[->|Hm]%elem_of_cons|(g' & Hg' & Hm)].
      * right. destruct (group_add_has (_dedup_key c.2) c gs) as (g & ? & _ & ?). eauto.
      * by left.
      * right. destruct (group_add_keeps (_dedup_key c.2) c gs g' m Hg' Hm) as (g & ? & _ & ?).
        eauto.
Qed.

Lemma lower_role_member ms m0 : foldl lower_role m0 ms ∈ m0 :: ms.
Proof.
  revert m0. induction ms as [|m ms IH]; intros m0; simpl; [set_solver|].
  unfold lower_role at 2. case_bool_decide; specialize (IH m) as H1; specialize (IH m0) as H2;
    set_solver.
Qed.

Lemma representative_member m0 ms :
  ∃ m, m ∈ m0 :: ms ∧ _pick_representative m0 ms = m.2.
Proof.
  unfold _pick_representative. cbv zeta.
  destruct (filter _ (m0 :: ms)) as [|m [|? ?]] eqn:E.
  - exists (foldl lower_role m0 ms). split; [apply lower_role_member|done].
  - exists m. split; [|done]. assert (H : m ∈ [m]) by set_solver. rewrite <- E in H.
    by apply list_elem_of_filter in H as [_ H].
  - exists (foldl lower_role m0 ms). split; [apply lower_role_member|done].
Qed.

Lemma merge_group_key g :
  (∀ m, m ∈ group_members g → _dedup_key m.2 = g.1) →
  _dedup_key (merge_group g).(af_finding) = g.1.
Proof.
  destruct g as [k [m0 ms]]. intros H. cbn.
  destruct (representative_member m0 ms) as (m & Hm & ->). by apply H.
Qed.

Lemma merge_group_reviewers g m :
  m ∈ group_members g → m.1 ∈ (merge_group g).(af_reviewers).
Proof.
  destruct g as [k [m0 ms]]. unfold group_members. cbn [fst snd]. intros Hm.
  cbn [merge_group af_reviewers new_accepted_finding].
  rewrite merge_sort_Permutation, elem_of_remove_dups. apply list_elem_of_fmap. eauto.
Qed.

Lemma groups_of_ok cands :
  groups_ok (foldl (λ gs m, group_add (_dedup_key m.2) m gs) [] cands).
Proof.
  apply (groups_spec cands []). split; [constructor|]. intros g Hg. by apply elem_of_nil in Hg.
Qed.

Lemma dedupe_keys_NoDup cands :
  NoDup (map (λ af, _dedup_key af.(af_finding)) (dedupe_findings cands)).
Proof.
  destruct (groups_of_ok cands) as [Hnd Hok]. unfold dedupe_findings. cbv zeta.
  rewrite map_map. erewrite (map_ext_in _ fst); cycle 1.
  { intros g Hg%list_elem_of_In. apply merge_group_key, Hok.
    by rewrite merge_sort_Permutation in Hg. }
  change (NoDup (merge_sort group_le (foldl (λ gs m, group_add (_dedup_key m.2) m gs) [] cands)).*1).
  by rewrite merge_sort_Permutation.
Qed.

Lemma dedupe_represents cands m :
  m ∈ cands → ∃ af, af ∈ dedupe_findings cands
    ∧ _dedup_key af.(af_finding) = _dedup_key m.2 ∧ m.1 ∈ af.(af_reviewers).
Proof.
  intros Hm. destruct (groups_of_ok cands) as [_ Hok].
  destruct (groups_spec cands []) as (_ & _ & Hout).
  { split; [constructor|]. intros g Hg. by apply elem_of_nil in Hg. }
  destruct (Hout m) as (g & Hg & Hgm); [by left|].
  exists (merge_group g). split.
  - apply list_elem_of_fmap. exists g. by rewrite merge_sort_Permutation.
  - split; [|by apply merge_group_reviewers].
    rewrite merge_group_key by by apply Hok. symmetry. by apply Hok.
Qed.

Lemma dedupe_comes_from cands af :
  af ∈ dedupe_findings cands →
  af.(af_disposition) = d_fixed ∧ ∃ m, m ∈ cands ∧ m.2 = af.(af_finding).
Proof.
  intros (g & -> & Hg)%list_elem_of_fmap. rewrite merge_sort_Permutation in Hg.
  destruct (groups_spec cands []) as (_ & Hin & _).
  { split; [constructor|]. intros g' Hg'. by apply elem_of_nil in Hg'. }
  destruct g as [k [m0 ms]]. split; [done|]. cbn.
  destruct (representative_member m0 ms) as (m & Hm & ->).
  exists m. split; [|done]. destruct (Hin _ m Hg Hm) as [?|(g' & Hg' & _)]; [done|].
  by apply elem_of_nil in Hg'.
Qed.

(** Merging keeps exactly the keys it is given, once each: every candidate
    is represented by an entry of its own key that names its reviewer, every
    entry is one of the candidates, and no two entries share a key. *)
Theorem dedupe_findings_correct cands :
  NoDup (map (λ af, _dedup_key af.(af_finding)) (dedupe_findings cands))
  ∧ (∀ m, m ∈ cands → ∃ af, af ∈ dedupe_findings cands
       ∧ _dedup_key af.(af_finding) = _dedup_key m.2 ∧ m.1 ∈ af.(af_reviewers))
  ∧ (∀ af, af ∈ dedupe_findings cands →
       af.(af_disposition) = d_fixed ∧ ∃ m, m ∈ cands ∧ m.2 = af.(af_finding)).
Proof.
  split; [apply dedupe_keys_NoDup|]. split.
  - intros m. apply dedupe_represents.
  - intros af. apply dedupe_comes_from.
Qed.

(** ** The verdict *)

Definition counted (d : list (string * Z)) : Z := foldr (λ kn acc, kn.2 + acc) 0 d.

Lemma count_up_counted k d : counted (count_up k d) = counted d + 1.
Proof.
  induction d as [|[k' n] d IH]; [done|]. cbn [count_up].
  destruct (String.eqb k k'); unfold counted in *; simpl in *; lia.
Qed.

Lemma tally_counted keys : counted (tally keys) = Z.of_nat (length keys).
Proof.
  unfold tally. enough (∀ d, counted (foldl (λ c k, count_up k c) d keys)
    = counted d + Z.of_nat (length keys)) as H by apply (H []).
  induction keys as [|k keys IH]; intros d; simpl; [lia|]. rewrite IH, count_up_counted. lia.
Qed.

Lemma dedupe_undecided cands af :
  af ∈ dedupe_findings cands → af.(af_disposition) = d_fixed.
Proof. intros H. by apply (dedupe_comes_from cands). Qed.

Section Scoped.
Context (cands : list member) (planned : option (list string)) (changed : gset string).

Let accepted := map (stamp_scope planned changed) (dedupe_findings cands).
Let must_fix := map af_finding (filter (λ af, blocks af = true) accepted).

Lemma scoped_elem af :
  af ∈ accepted ↔ ∃ a, a ∈ dedupe_findings cands ∧ af = stamp_scope planned changed a.
Proof. unfold accepted. rewrite list_elem_of_fmap. naive_solver. Qed.

Lemma scoped_blocks af :
  af ∈ accepted → blocks af = true ↔ af.(af_finding).(f_severity) = MUST_FIX.
Proof.
  intros (a & Ha%dedupe_undecided & ->)%scoped_elem. unfold blocks, is_deferred, has_severity.
  cbn. rewrite Ha, andb_true_r. apply String.eqb_eq.
Qed.

Lemma must_fix_elem f :
  f ∈ must_fix ↔ ∃ af, af ∈ accepted ∧ af.(af_finding) = f ∧ f.(f_severity) = MUST_FIX.
Proof.
  unfold must_fix. rewrite list_elem_of_fmap. split.
  - intros (af & -> & [Hb Hin]%list_elem_of_filter). exists af.
    by rewrite scoped_blocks in Hb.
  - intros (af & Hin & <- & Hs). exists af. rewrite list_elem_of_filter.
    by rewrite scoped_blocks.
Qed.

Lemma blocking_iff :
  negb (bool_decide (length must_fix = 0%nat)) = true
  ↔ ∃ af, af ∈ accepted ∧ af.(af_finding).(f_severity) = MUST_FIX.
Proof.
  rewrite negb_true_iff, bool_decide_eq_false. destruct must_fix as [|f fs] eqn:E.
  - split; [done|]. intros (af & Haf & Hs). exfalso.
    assert (Hf : af_finding af ∈ must_fix) by (apply must_fix_elem; eauto).
    rewrite E in Hf. by apply elem_of_nil in Hf.
  - split; [|done]. intros _. assert (Hf : f ∈ must_fix) by (rewrite E; by left).
    apply must_fix_elem in Hf as (af & ? & <- & ?). eauto.
Qed.
End Scoped.

Section Verdicts.
Context {A : PyAst} {F : RepoFiles}.

Definition same_claim (f g : Finding) : Prop :=
  f.(f_severity) = g.(f_severity) ∧ f.(f_file) = g.(f_file) ∧ f.(f_evidence) = g.(f_evidence).

Lemma claims_of_dump f :
  f.(f_severity) = MUST_FIX → json_is_str MUST_FIX (dict_get "severity" (finding_dump f)) = true.
Proof. intros H. cbn. by rewrite H. Qed.

Lemma candidate_survives docs diff worktree doc g :
  doc ∈ docs → g ∈ (validate_reviewer_document doc diff worktree).1.1 →
  ∃ af, af ∈ dedupe_findings (flat_map (doc_candidates diff worktree) docs)
        ∧ same_claim af.(af_finding) g.
Proof.
  intros Hdoc Hg.
  destruct (dedupe_represents (flat_map (doc_candidates diff worktree) docs)
              (doc_reviewer_role doc, g)) as (af & Haf & Hk & _).
  - apply list_elem_of_In, in_flat_map. exists doc. split; [by apply list_elem_of_In|].
    apply list_elem_of_In. unfold doc_candidates. apply list_elem_of_fmap. eauto.
  - exists af. split; [done|]. unfold _dedup_key in Hk. simpl in Hk.
    injection Hk as Hs Hf _ _ He. done.
Qed.

(** C23: No MUST_FIX disappears in consolidation: each one a reviewer's
    document carries is either in the blocking list, by severity, file and
    evidence, or in the list of rejected MUST_FIX findings with its payload,
    and so is each one rejected at parse time.  The verdict blocks exactly
    when an accepted MUST_FIX exists, and the counts it reports are the
    lengths of its lists. *)
Theorem must_fix_never_lost docs diff sha worktree failed cycles metrics pre planned :
  let v := consolidate_verdict docs diff sha worktree failed cycles metrics pre planned in
  (∀ doc source, doc ∈ docs → source ∈ doc.(doc_findings) → source.(f_severity) = MUST_FIX →
     (∃ g, g ∈ v.(v_must_fix) ∧ same_claim g source)
     ∨ (∃ rf, rf ∈ v.(v_rejected_must_fix) ∧ rf.(rf_raw) = finding_dump (reset_degraded source)))
  ∧ (∀ rf, rf ∈ pre → claims_must_fix rf = true → rf ∈ v.(v_rejected_must_fix))
  ∧ (v.(v_blocking) = true ↔
       ∃ af, af ∈ v.(v_accepted) ∧ af.(af_finding).(f_severity) = MUST_FIX)
  ∧ v.(v_review).(rv_must_fix_initial) = Z.of_nat (length v.(v_must_fix))
  ∧ v.(v_rejected_count) = Z.of_nat (length v.(v_rejected))
  ∧ counted v.(v_rejected_count_by_severity) = v.(v_rejected_count).
Proof.
  cbv zeta. unfold consolidate_verdict. cbv zeta. cbn [v_must_fix v_rejected_must_fix v_blocking
    v_accepted v_review v_rejected_count v_rejected v_rejected_count_by_severity
    derive_review_counts rv_must_fix_initial].
  split_and!.
  - intros doc source Hdoc Hsrc Hsev.
    destruct (document_fate doc diff worktree source Hsrc) as [(g & Hg & Hc)|(rf & Hr & Hraw)].
    + left. destruct (candidate_survives docs diff worktree doc g) as (af & Haf & S1 & S2 & S3);
        [done|done|].
      unfold content in Hc. injection Hc as Hc1 Hc2 _ _ _ Hc3 _ _ _ _.
      exists (af_finding af). split; [|split_and!; congruence].
      apply must_fix_elem. exists (stamp_scope planned (_changed_files diff) af).
      split; [apply scoped_elem; eauto|]. split; [done|congruence].
    + right. exists rf. split; [|done]. apply list_elem_of_filter. split.
      * unfold claims_must_fix. rewrite Hraw. apply claims_of_dump. by rewrite reset_severity.
      * apply elem_of_app. right. apply list_elem_of_In, in_flat_map. exists doc.
        split; by apply list_elem_of_In.
  - intros rf Hrf Hc. apply list_elem_of_filter. split; [done|]. apply elem_of_app. by left.
  - apply blocking_iff.
  - unfold count_if. by rewrite length_map.
  - done.
  - unfold _count_rejected_by_severity. by rewrite tally_counted, length_map.
Qed.
End Verdicts.

(** ** The tolerant parse *)

Section Rescue.
Context {S : ReviewSchema}.

Lemma survivors_validate role items :
  ∃ fs, model_validate_all (omap left_of (map (rescue_one role) items)) = inr fs.
Proof.
  induction items as [|item items [fs IH]]; [by exists []|].
  cbn [map omap list_omap]. unfold rescue_one at 1.
  destruct (model_validate_Finding item) as [e|f] eqn:E; cbn [left_of]; [by exists fs|].
  exists (f :: fs). cbn [model_validate_all]. by rewrite E, IH.
Qed.

Lemma rescue_lengths role items :
  (length (omap left_of (map (rescue_one role) items))
   + length (omap right_of (map (rescue_one role) items)) = length items)%nat.
Proof.
  induction items as [|item items IH]; [done|]. cbn [map omap list_omap length] in *.
  destruct (rescue_one role item); cbn [left_of right_of length]; lia.
Qed.

(** One unusable item of a document costs that item: what the rescue leaves
    always validates, every item is either left or rejected, and a rejected
    one keeps the payload the reviewer sent under the reason [schema_invalid]. *)
Theorem one_bad_finding_costs_one d items :
  dict_get "findings" d = JList items →
  ∃ d' survivors fs,
    (_rescue_findings (JDict d)).1 = JDict d'
    ∧ dict_get "findings" d' = JList survivors ∧ model_validate_all survivors = inr fs
    ∧ (length survivors + length (_rescue_findings (JDict d)).2 = length items)%nat
    ∧ (∀ rf, rf ∈ (_rescue_findings (JDict d)).2 →
         rf.(rf_reason) = schema_invalid
         ∧ ∃ item, item ∈ items ∧ rf.(rf_raw) = _raw_finding_payload item).
Proof.
  intros H. unfold _rescue_findings. rewrite H. cbv zeta. cbn [fst snd].
  set (role := json_str _).
  destruct (survivors_validate role items) as [fs Hfs].
  eexists _, _, fs. split; [done|]. split; [by rewrite dict_get_set|]. split; [done|].
  split; [apply rescue_lengths|].
  intros rf (x & Hx & Hr)%list_elem_of_omap. apply list_elem_of_fmap in Hx as (item & -> & Hi).
  unfold rescue_one in Hr. destruct (model_validate_Finding item); [|done].
  injection Hr as <-. eauto.
Qed.
End Rescue.

(** ** Concrete inputs *)

#[local] Instance sample_ast : PyAst := λ _, None.
#[local] Instance sample_files : RepoFiles :=
  {| resolve := λ _, None; is_file := λ _, false; read_text := λ _, None |}.
#[local] Instance sample_schema : ReviewSchema :=
  {| coerce_Finding := λ d, match dict_get "summary" d with
                            | JStr s => Some (mkFinding MUST_FIX "a.py" None None s "c" "s" "e"
                                         HIGH None false false "" "" "" "" "")
                            | _ => None
                            end;
     coerce_Document := λ _, None;
     validation_error := λ _, "invalid" |}.

Definition sample_diff : CapturedDiff :=
  mkCapturedDiff "+x = f(1)" {["a.py" := [2]]} {["a.py" := "+x = f(1)"]}
    {["a.py" := {[2 := "x = f(1)"]}]} {["a.py" := {[1 := "y"; 2 := "x = f(1)"]}]}.

Definition quoted (evidence : string) (line : Z) : Finding :=
  mkFinding MUST_FIX "a.py" (Some line) None "s" "c" "s" evidence HIGH None false false
    "" "" "" "" "".

Definition quoting_doc : ReviewerFindingsDocument :=
  mkReviewerFindingsDocument "general" health_ok "" [quoted "-  x = f( 1, )" 4; quoted "x = g(1)" 4].

(** The reflowed quote is accepted clean, the false one flagged. *)
Lemma accepted_evidence_is_vouched_witness :
  map (λ g, (g.(f_evidence), g.(f_anchor_degraded)))
    (validate_reviewer_document quoting_doc sample_diff None).1.1
  = [("-  x = f( 1, )", false); ("x = g(1)", true)]
  ∧ Forall (λ g, vouched sample_diff None g
                 ∧ (g.(f_anchor_degraded) = false → evidence_in_diff sample_diff g))
      (validate_reviewer_document quoting_doc sample_diff None).1.1.
Proof.
  split; [vm_compute; reflexivity|]. apply Forall_forall. intros g Hg.
  destruct (accepted_evidence_is_vouched _ _ _ _ Hg) as (_ & _ & Hv & Hs). split; [exact Hv|].
  intros Hd. destruct Hv as [[Hv _]|[_ Hv]]; [congruence|].
  destruct Hv as [Hn|[[_ He]|(_ & w & Hw & _)]]; [|exact He|done].
  exfalso. destruct Hs as (src & Hin & Hc). injection Hc as _ _ _ _ _ _ _ Hc _ _.
  rewrite Hn in Hc. revert Hc. unfold quoting_doc in Hin. cbn in Hin.
  apply elem_of_cons in Hin as [->|[->|[]%not_elem_of_nil]%elem_of_cons]; discriminate.
Defined.

Lemma one_bad_finding_costs_one_witness :
  ∃ d' survivors fs,
    (_rescue_findings (JDict [("findings", JList [JDict [("summary", JStr "s")]; JInt 3])])).1
    = JDict d'
    ∧ dict_get "findings" d' = JList survivors ∧ model_validate_all survivors = inr fs
    ∧ length survivors = 1%nat.
Proof.
  destruct (one_bad_finding_costs_one
    [("findings", JList [JDict [("summary", JStr "s")]; JInt 3])]
    [JDict [("summary", JStr "s")]; JInt 3]) as (d' & ss & fs & H1 & H2 & H3 & H4 & _).
  { reflexivity. }
  exists d', ss, fs. split_and!; [exact H1|exact H2|exact H3|].
  change (length ss + 1 = 2)%nat in H4. lia.
Defined.

(** The reflow-tolerant search returns the lowest start that reaches a match
    within its bound, not the tightest window: line 1 is no part of the quote. *)
Example tolerant_window_not_tightest :
  _formatting_tolerant_window {[1 := "a = 1"; 2 := "f(x,"; 3 := "  y)"]} "f(x, y)"
  = Some (1, 3)
  ∧ _formatting_tolerant_window {[2 := "f(x,"; 3 := "  y)"]} "f(x, y)" = Some (2, 3).
Proof. vm_compute. done. Qed.
