(* ===== verification/ReviewDebt.v ===== *)
(** * Review debt: [review_debt.py]

    The position- and count-independent identity of a finding, and the debt
    records keyed by it.  Text is read as characters; a backslash-[d] is an
    ASCII digit, and the case fold, the word characters and the white space
    outside ASCII are the Unicode character data's. *)

From S2P Require Import Prelude PyStr PyText ReviewModels.

Definition FINGERPRINT_VERSION : string := "FINGERPRINT_V1".
Definition _NO_ANCHOR_FILE : string := "N/A".
Definition _DIGIT_PLACEHOLDER : string := "N".

(** Characters outside ASCII: [str.lower] and word membership. *)
Class CaseData := {
  wide_lower : string → string;
  wide_word_char : string → bool }.

Section Debt.
Context {K : CaseData}.

Definition lower_one (w : string) : string :=
  match w with
  | String c EmptyString =>
      let n := nat_of_ascii c in
      if Nat.leb 65 n && Nat.leb n 90 then String (ascii_of_nat (n + 32)) EmptyString else w
  | _ => wide_lower w
  end.

Definition py_lower (s : string) : string := str_concat (map lower_one (chars s)).

Definition is_digit_char (w : string) : bool :=
  match w with
  | String c EmptyString => let n := nat_of_ascii c in Nat.leb 48 n && Nat.leb n 57
  | _ => false
  end.

Definition is_word (w : string) : bool :=
  match w with
  | String c EmptyString => is_ascii_alnum c || Ascii.eqb c "_"
  | _ => wide_word_char w
  end.

(** [p*] at the head, greedy: how many, and the rest. *)
Fixpoint run_of (p : string → bool) (cs : list string) : nat * list string :=
  match cs with
  | [] => (0, [])
  | w :: cs' => if p w then let '(n, r) := run_of p cs' in (S n, r) else (0, cs)
  end.

Definition some_run (p : string → bool) (cs : list string) : option (list string) :=
  match run_of p cs with (O, _) => None | (_, r) => Some r end.

Definition strip_lit (lit : string) (cs : list string) : option (list string) :=
  let l := chars lit in
  if bool_decide (take (length l) cs = l) then Some (drop (length l) cs) else None.

Definition at_boundary (before : bool) (cs : list string) : bool :=
  xorb before (match cs with [] => false | w :: _ => is_word w end).

(** [:\d+\b]: a shorter digit run never ends on a boundary. *)
Definition colon_position (cs : list string) : option (list string) :=
  r ← strip_lit ":" cs; r ← some_run is_digit_char r;
  if at_boundary true r then Some r else None.

(** [(?:\s*-\s*\d+)?]. *)
Definition range_tail (cs : list string) : list string :=
  match (r ← strip_lit "-" (run_of is_space_char cs).2;
         some_run is_digit_char (run_of is_space_char r).2) with
  | Some r => r
  | None => cs
  end.

(** [\blines?\s+\d+(...)?]; [before]: the character before is a word character. *)
Definition line_position (before : bool) (cs : list string) : option (list string) :=
  if negb (at_boundary before cs) then None
  else
    r ← strip_lit "line" cs;
    let r := default r (strip_lit "s" r) in
    r ← some_run is_space_char r; r ← some_run is_digit_char r;
    Some (range_tail r).

(** [\s*(...)]: the alternatives start with no white space, so the run is
    taken whole. *)
Definition spaced_position (before : bool) (cs : list string) : option (list string) :=
  let '(n, r) := run_of is_space_char cs in
  match colon_position r with
  | Some r' => Some r'
  | None => line_position (match n with O => before | _ => false end) r
  end.

(** [_POSITION_RE] at the head: with the leading [ at], else without. *)
Definition position_at (before : bool) (cs : list string) : option (list string) :=
  let with_at := r ← some_run is_space_char cs; r ← strip_lit "at" r; spaced_position true r in
  match with_at with Some r => Some r | None => spaced_position before cs end.

(** [_POSITION_RE.sub("", s)]: leftmost matches; fuel for the characters left. *)
Fixpoint strip_positions (fuel : nat) (before : bool) (cs : list string) : list string :=
  match fuel, cs with
  | S fuel', w :: cs' =>
      match position_at before cs with
      | Some r => strip_positions fuel' true r
      | None => w :: strip_positions fuel' (is_word w) cs'
      end
  | _, _ => cs
  end.

(** [_DIGIT_RUN_RE.sub("N", s)]. *)
Fixpoint mask_digits (in_run : bool) (cs : list string) : list string :=
  match cs with
  | [] => []
  | w :: cs' =>
      if is_digit_char w
      then (if in_run then [] else [_DIGIT_PLACEHOLDER]) ++ mask_digits true cs'
      else w :: mask_digits false cs'
  end.

Definition _normalize_summary (summary : string) : string :=
  let cs := chars (collapse_spaces (py_lower summary)) in
  let without_positions := strip_positions (length cs) false cs in
  collapse_spaces (str_concat (mask_digits false without_positions)).

Definition fingerprint_v1 (file summary : string) : option (string * string) :=
  if String.eqb file _NO_ANCHOR_FILE then None else Some (file, _normalize_summary summary).

(** [None] also stands for the [IndexError] of a finding with no reviewer,
    which no accepted finding is. *)
Definition promote_debt_finding (af : AcceptedFinding) (discovery_sha : string)
  : option DebtRecord :=
  fp ← fingerprint_v1 af.(af_finding).(f_file) af.(af_finding).(f_summary);
  reviewer ← head af.(af_reviewers);
  Some (mkDebtRecord fp FINGERPRINT_VERSION "" af.(af_finding).(f_file) ""
          af.(af_finding).(f_evidence) af.(af_finding).(f_summary)
          af.(af_finding).(f_suggested_fix) discovery_sha "NEEDS_FILING" reviewer).

(** The ledger dict, in insertion order. *)
Definition record_debt (ledger : list DebtRecord) (record : DebtRecord) : list DebtRecord :=
  if existsb (λ r, bool_decide (r.(dr_fingerprint) = record.(dr_fingerprint))) ledger
  then ledger else ledger ++ [record].

Definition dedupe_debt (records : list DebtRecord) : list DebtRecord :=
  fold_left record_debt records [].
End Debt.

(** ** What deduplication keeps *)

(** The records no earlier one shares a fingerprint with. *)
Definition first_discovered (records : list DebtRecord) (r : DebtRecord) : Prop :=
  ∃ i, records !! i = Some r
    ∧ ∀ j q, j < i → records !! j = Some q → q.(dr_fingerprint) ≠ r.(dr_fingerprint).

Lemma record_debt_fingerprints ledger r :
  NoDup (dr_fingerprint <$> ledger) → NoDup (dr_fingerprint <$> record_debt ledger r).
Proof.
  intros H. unfold record_debt. destruct (existsb _ _) eqn:E; [done|].
  rewrite fmap_app. apply NoDup_app. split; [done|]. split; [|apply NoDup_singleton].
  intros fp (q' & -> & Hq)%list_elem_of_fmap Hr%list_elem_of_singleton.
  apply not_true_iff_false in E. apply E. apply existsb_exists.
  exists q'. split; [by apply list_elem_of_In|by apply bool_decide_eq_true].
Qed.

(** The ledger holds the records the sweep has passed that were first. *)
Definition ledger_of (done ledger : list DebtRecord) : Prop :=
  NoDup (dr_fingerprint <$> ledger) ∧ ∀ r, r ∈ ledger ↔ first_discovered done r.

Lemma first_discovered_snoc done q r :
  first_discovered (done ++ [q]) r
  ↔ first_discovered done r
    ∨ (r = q ∧ ∀ p, p ∈ done → p.(dr_fingerprint) ≠ q.(dr_fingerprint)).
Proof.
  split.
  - intros (i & Hi & Hfirst). apply lookup_app_Some in Hi as [Hi|[Hle Hi]].
    + left. exists i. split; [done|]. intros j p Hj Hp. apply (Hfirst j); [done|].
      by apply lookup_app_l_Some.
    + apply list_lookup_singleton_Some in Hi as [Hz ->]. right. split; [done|].
      intros p [j Hj]%list_elem_of_lookup. apply (Hfirst j).
      * apply lookup_lt_Some in Hj. lia.
      * by apply lookup_app_l_Some.
  - intros [(i & Hi & Hfirst)|[-> Hnew]].
    + exists i. split; [by apply lookup_app_l_Some|]. intros j p Hj Hp.
      apply (Hfirst j); [done|]. apply lookup_lt_Some in Hi.
      rewrite lookup_app_l in Hp by lia. done.
    + exists (length done). split; [by apply list_lookup_middle|]. intros j p Hj Hp.
      rewrite lookup_app_l in Hp by lia. apply Hnew. by eapply list_elem_of_lookup_2.
Qed.

(** A fingerprint of a passed record is in the ledger. *)
Lemma first_of_fingerprint done p :
  p ∈ done → ∃ r, first_discovered done r ∧ r.(dr_fingerprint) = p.(dr_fingerprint).
Proof.
  revert p. induction done as [|q done IH] using rev_ind; [by intros p ?%not_elem_of_nil|].
  intros p [Hp| ->%list_elem_of_singleton]%elem_of_app.
  - destruct (IH p Hp) as (r & Hr & E). exists r. split; [|done].
    apply first_discovered_snoc. by left.
  - destruct (decide (Exists (λ r, r.(dr_fingerprint) = q.(dr_fingerprint)) done))
      as [(r & Hr & E)%Exists_exists|Hno].
    + destruct (IH r Hr) as (f & Hf & Ef). exists f. split; [|by rewrite Ef].
      apply first_discovered_snoc. by left.
    + exists q. split; [|done]. apply first_discovered_snoc. right. split; [done|].
      by rewrite <- Forall_Exists_neg, Forall_forall in Hno.
Qed.

Lemma record_debt_ledger done ledger q :
  ledger_of done ledger → ledger_of (done ++ [q]) (record_debt ledger q).
Proof.
  intros [Hnd Hin]. split; [by apply record_debt_fingerprints|].
  intros r. rewrite first_discovered_snoc. unfold record_debt.
  destruct (existsb _ _) eqn:E.
  - apply existsb_exists in E as (p & Hp & E). apply bool_decide_eq_true in E.
    apply list_elem_of_In, Hin in Hp. rewrite Hin. split; [by left|].
    intros [?|[-> Hnew]]; [done|]. destruct Hp as (i & Hi & _).
    destruct (Hnew p); [by eapply list_elem_of_lookup_2|done].
  - rewrite elem_of_app, list_elem_of_singleton, Hin. split; [|by intros [?|[? _]]; [left|right]].
    intros [?| ->]; [by left|]. right. split; [done|]. intros p Hp Heq.
    destruct (first_of_fingerprint _ _ Hp) as (f & Hf & Ef). apply Hin in Hf.
    apply not_true_iff_false in E. apply E. apply existsb_exists. exists f.
    split; [by apply list_elem_of_In|]. apply bool_decide_eq_true. by rewrite Ef.
Qed.

Lemma dedupe_ledger done ledger records :
  ledger_of done ledger → ledger_of (done ++ records) (fold_left record_debt records ledger).
Proof.
  revert done ledger. induction records as [|q records IH]; intros done ledger H; simpl.
  - by rewrite app_nil_r.
  - rewrite (cons_middle q done records), (assoc_L (++)). apply IH.
    by apply record_debt_ledger.
Qed.

(** deduplicating the debt ledger keeps one record per fingerprint, and
    the one it keeps is the first discovered: a record survives exactly when
    no earlier one has its fingerprint. So the earliest [discovery_sha] of a
    finding is never overwritten, and no fingerprint is lost. *)
Theorem dedupe_keeps_first_discovered records :
  NoDup (dr_fingerprint <$> dedupe_debt records)
  ∧ (∀ r, r ∈ dedupe_debt records ↔ first_discovered records r)
  ∧ (∀ r, r ∈ records →
       ∃ kept, kept ∈ dedupe_debt records ∧ kept.(dr_fingerprint) = r.(dr_fingerprint)).
Proof.
  assert (ledger_of [] []) as H0.
  { split; [constructor|]. intros r. split; [by intros ?%not_elem_of_nil|].
    intros (i & Hi & _). by rewrite lookup_nil in Hi. }
  destruct (dedupe_ledger [] [] records H0) as [Hnd Hin]. simpl in Hin.
  split; [done|]. split; [exact Hin|]. intros r Hr.
  destruct (first_of_fingerprint _ _ Hr) as (f & Hf & E). exists f. split; [by apply Hin|done].
Qed.
