(* ===== verification/Enums.v ===== *)
(** * Enumerations of [cw.models.enums]

    Each [StrEnum] of the source is an inductive type in a module of its own
    name, so a member reads as in Python ([QueueItemStatus.RUNNING]); a
    [*_value] function gives the member's string.  The derived constants
    ([OCCUPIED_LANE_STATUSES], ...) are finite sets. *)

From S2P Require Import Prelude.

(** Countability of an enumeration from an injective numbering. *)
Definition enum_countable {T : Type} `{EqDecision T} (num : T → nat) (of_num : nat → option T)
  (H : ∀ x, of_num (num x) = Some x) : Countable T.
Proof.
  refine {| encode x := encode (num x);
            decode p := n ← decode p; of_num n |}.
  intros x. rewrite decode_encode. simpl. apply H.
Defined.

(** ** Dev-queue row status *)

Module QueueItemStatus.
Inductive QueueItemStatus :=
  | PENDING
  | RUNNING
  | COMPLETED
  | FAILED
  | CANCELLED
  | BLOCKED_ON_USER
  | AWAITING_OPERATOR_SIGNOFF.

#[export] Instance status_eq_dec : EqDecision QueueItemStatus.
Proof. solve_decision. Defined.

Definition num (s : QueueItemStatus) : nat :=
  match s with
  | PENDING => 0 | RUNNING => 1 | COMPLETED => 2 | FAILED => 3 | CANCELLED => 4
  | BLOCKED_ON_USER => 5 | AWAITING_OPERATOR_SIGNOFF => 6
  end.

#[export] Instance status_countable : Countable QueueItemStatus.
Proof.
  refine (enum_countable num
    (λ n, [PENDING; RUNNING; COMPLETED; FAILED; CANCELLED; BLOCKED_ON_USER;
           AWAITING_OPERATOR_SIGNOFF] !! n) _).
  by intros [].
Defined.

Definition status_value (s : QueueItemStatus) : string :=
  match s with
  | PENDING => "pending"
  | RUNNING => "running"
  | COMPLETED => "completed"
  | FAILED => "failed"
  | CANCELLED => "cancelled"
  | BLOCKED_ON_USER => "blocked_on_user"
  | AWAITING_OPERATOR_SIGNOFF => "awaiting_operator_signoff"
  end.
End QueueItemStatus.
Export (hints) QueueItemStatus.
Abbreviation queue_status := QueueItemStatus.QueueItemStatus.

Definition OCCUPIED_LANE_STATUSES : gset queue_status :=
  {[ QueueItemStatus.RUNNING; QueueItemStatus.BLOCKED_ON_USER;
     QueueItemStatus.AWAITING_OPERATOR_SIGNOFF ]}.

Definition TERMINAL_QUEUE_STATUSES : gset queue_status :=
  {[ QueueItemStatus.COMPLETED; QueueItemStatus.FAILED; QueueItemStatus.CANCELLED ]}.

(** ** Pipeline stages *)

Module Stage.
Inductive Stage := HARDEN | PLAN | IMPL | REVIEW | FINALIZE.

#[export] Instance stage_eq_dec : EqDecision Stage.
Proof. solve_decision. Defined.

Definition stage_value (s : Stage) : string :=
  match s with
  | HARDEN => "harden"
  | PLAN => "plan"
  | IMPL => "impl"
  | REVIEW => "review"
  | FINALIZE => "finalize"
  end.

(** [Stage(value)]; [None] is the [ValueError]. *)
Definition of_value (v : string) : option Stage :=
  if String.eqb v "harden" then Some HARDEN
  else if String.eqb v "plan" then Some PLAN
  else if String.eqb v "impl" then Some IMPL
  else if String.eqb v "review" then Some REVIEW
  else if String.eqb v "finalize" then Some FINALIZE
  else None.

Lemma of_value_stage_value s : of_value (stage_value s) = Some s.
Proof. by destruct s. Qed.

#[export] Instance stage_countable : Countable Stage :=
  inj_countable stage_value of_value of_value_stage_value.

Lemma stage_value_of_value v s : of_value v = Some s → stage_value s = v.
Proof.
  unfold of_value.
  repeat (case_match eqn:E; [apply String.eqb_eq in E as ->; by intros [= <-]|clear E]).
  done.
Qed.
End Stage.
Export (hints) Stage.
Abbreviation StageT := Stage.Stage.

Module PipelinePosition.
Inductive PipelinePosition := INTERIOR | TERMINAL | OFF_PIPELINE.
End PipelinePosition.

(** [stages[-1]] is only read when [stage] is a member, so never on []. *)
Definition stage_position (s : StageT) (stages : list StageT)
  : PipelinePosition.PipelinePosition :=
  if negb (bool_decide (s ∈ stages)) then PipelinePosition.OFF_PIPELINE
  else if bool_decide (last stages = Some s) then PipelinePosition.TERMINAL
  else PipelinePosition.INTERIOR.

(** ** Sessions *)

Module SessionStatus.
Inductive SessionStatus := ACTIVE | IDLE | BACKGROUNDED | COMPLETED | TIMED_OUT.

#[export] Instance session_status_eq_dec : EqDecision SessionStatus.
Proof. solve_decision. Defined.
End SessionStatus.
Export (hints) SessionStatus.

Module SessionOrigin.
Inductive SessionOrigin := USER | DAEMON.

#[export] Instance session_origin_eq_dec : EqDecision SessionOrigin.
Proof. solve_decision. Defined.
End SessionOrigin.
Export (hints) SessionOrigin.

(** The [ReapReason] values the modelled code reads. *)
Definition TERMINAL_SIBLING_value : string := "terminal_sibling".
Definition SALVAGE_PARKED_value : string := "salvage_parked".
Definition COMPLETED_BACKSTOP_value : string := "completed_backstop".
Definition STALE_GATE_value : string := "stale_gate".

Module ReapPolicy.
Inductive ReapPolicy := SIGNAL_ONLY | AUTO.

#[export] Instance reap_policy_eq_dec : EqDecision ReapPolicy.
Proof. solve_decision. Defined.
End ReapPolicy.
Export (hints) ReapPolicy.

(** ** Event types

    A [StrEnum] member is its string; these are the types the modelled code
    records. *)
Definition TASK_TRANSITION : string := "task.transition".
Definition TASK_STAGE_CHANGED : string := "task.stage_changed".
Definition SESSION_NEEDS_ATTENTION : string := "session.needs_attention".
Definition SCOPE_ROUTING_DECISION : string := "dispatch.scope_routing_decision".
Definition SENTINEL_STAGE_MISMATCH : string := "sentinel.stage_mismatch".
Definition TICKET_REQUEUED : string := "ticket.requeued".
Definition LANE_PAUSED : string := "lane.paused".
Definition LANE_RESUMED : string := "lane.resumed".
Definition SESSION_COMPLETED : string := "session.completed".
Definition SESSION_REAP_PROPOSED : string := "session.reap_proposed".
Definition TASK_SESSION_ADOPTED : string := "task.session_adopted".

(** ** Dispatch skip reasons *)

Module DispatchSkipReason.
Inductive DispatchSkipReason :=
  | AVAILABILITY_GATE | SSH_KEY_GATE | DISK_PRESSURE_GATE | FRESHNESS_GATE
  | USAGE_LIMITED | HOST_CAPACITY_GATED | CAP_FULL | LANE_CAP_BLOCKED
  | ATTEMPT_CAP_BLOCKED | STALE_PR_BLOCKED | WORKTREE_OCCUPIED
  | TRACKER_MCP_GATE_BLOCKED | SPAWN_ERROR | LANE_CIRCUIT_PAUSED
  | SPAWN_ERROR_BACKOFF | NO_PENDING | NONE.

#[export] Instance skip_reason_eq_dec : EqDecision DispatchSkipReason.
Proof. solve_decision. Defined.

Definition skip_reason_value (r : DispatchSkipReason) : string :=
  match r with
  | AVAILABILITY_GATE => "availability_gate"
  | SSH_KEY_GATE => "ssh_key_gate"
  | DISK_PRESSURE_GATE => "disk_pressure_gate"
  | FRESHNESS_GATE => "freshness_gate"
  | USAGE_LIMITED => "usage_limited"
  | HOST_CAPACITY_GATED => "host_capacity_gated"
  | CAP_FULL => "cap_full"
  | LANE_CAP_BLOCKED => "lane_cap_blocked"
  | ATTEMPT_CAP_BLOCKED => "attempt_cap_blocked"
  | STALE_PR_BLOCKED => "stale_pr_blocked"
  | WORKTREE_OCCUPIED => "worktree_occupied"
  | TRACKER_MCP_GATE_BLOCKED => "tracker_mcp_gate_blocked"
  | SPAWN_ERROR => "spawn_error"
  | LANE_CIRCUIT_PAUSED => "lane_circuit_paused"
  | SPAWN_ERROR_BACKOFF => "spawn_error_backoff"
  | NO_PENDING => "no_pending"
  | NONE => "none"
  end.
End DispatchSkipReason.
Export (hints) DispatchSkipReason.
