(* ===== verification/Tasks.v ===== *)
(** * The dev-queue row and its store: [cw.models.tasks]

    [TicketTask] is the row every dispatch and reconcile component mutates;
    [new_task] is its constructor with the model's defaults.  Sub-models are
    records whose fields carry a prefix, since Rocq projections share one name
    space; a [datetime] is an integer (PyStr), a [Path] its string, a float
    its printed form. *)

From S2P Require Import Prelude.
From S2P Require Import PyStr.
From S2P Require Import Enums.

#[local] Open Scope cw_scope.

Definition DEFAULT_LANE : string := "default".
Definition DEFAULT_STAGE : StageT := Stage.PLAN.
Definition DEV_QUEUE_SCHEMA_VERSION : Z := 54.
Definition PARK_ON_ABANDONED_EXIT_KEY : string := "park_on_abandoned_exit".

(** ** Sub-models *)

Record PendingFixDispatch := mkPendingFixDispatch {
  pfd_prompt : string; pfd_label : string; pfd_cycle : Z;
  pfd_requested_by_session_id : string; pfd_requested_at : Z }.

Record LaunchedFixWorker := mkLaunchedFixWorker {
  lfw_surface_ref : string; lfw_launched_at : Z; lfw_attention_paged_at : option Z }.

Record UsageLimitAct := mkUsageLimitAct {
  ula_session_id : string; ula_branch : string; ula_started_at : Z;
  ula_reset_at : option Z; ula_until : Z; ula_audited_at : option Z }.

Record MustFixOverride := mkMustFixOverride {
  mfo_actor : string; mfo_reason : string; mfo_reviewed_sha : string;
  mfo_finding_ids : list (string * string); mfo_recorded_at : Z }.

Record ReviewFeedback := mkReviewFeedback {
  rf_repo : string; rf_pr_number : Z; rf_reviewed_sha : string;
  rf_captured_at : Z; rf_report : string }.

Record ShippedRedEpisode := mkShippedRedEpisode {
  sre_hydrated_fingerprint : string; sre_fingerprint : option string;
  sre_required_checks : list string; sre_head_sha : option string;
  sre_evaluated_at : Z; sre_alerted_at : option Z; sre_failures : Z;
  sre_retry_not_before : option Z }.

Record PrState := mkPrState {
  prs_state : string; prs_mergeable : option string; prs_merge_state_status : string;
  prs_ci_ok : bool; prs_review_decision : string; prs_attention_state : option string;
  prs_is_draft : bool; prs_reviewer_count : Z; prs_pending_count : Z;
  prs_failing_checks : list string; prs_hydrated_at : Z }.

(** [count >= 1] is the model's field constraint. *)
Record GateBlockBackoff := mkGateBlockBackoff {
  gb_count : Z; gb_fingerprint : string; gb_until : Z }.

Record FindingDisposition := mkFindingDisposition {
  fd_outcome : string; fd_rationale : string; fd_recorded_at : string;
  fd_actor : string; fd_reviewed_sha : string; fd_summary : string }.

Record OperatorResolution := mkOperatorResolution {
  or_text : string; or_recorded_at : Z; or_actor : string; or_round : Z }.

Record OperatorConstraint := mkOperatorConstraint {
  oc_text : string; oc_recorded_at : Z; oc_actor : string; oc_round : Z;
  oc_kind : string }.

(** ** The row *)

Record TicketTask := mkTicketTask {
  ticket_id : string;
  client : string;
  branch : option string;
  adopted_pr_url : option string;
  adopted_head_sha : option string;
  adopted_repin_due : bool;
  priority : Z;
  worktree_path : option string;
  linear_url : option string;
  scope_hint : option string;
  status : queue_status;
  created_at : Z;
  session_id : option string;
  attempts : Z;
  claimed_at : option Z;
  unproductive_attempts : Z;
  ever_spawned : bool;
  regress_attempts : Z;
  regressed_into_stage : option StageT;
  finalize_regress_branch_head : option string;
  finalize_regress_merge_conflict_detected : bool;
  pending_operator_comment : bool;
  plan_approved_at : option Z;
  plan_approved_fingerprint : option string;
  scope_drift_approved_extra_files : option (list string);
  scope_drift_approved_head : option string;
  must_fix_override : option MustFixOverride;
  review_approved_at : option Z;
  review_approver_kind : option string;
  review_approved_sha : option string;
  review_feedback : option ReviewFeedback;
  shipped_red : option ShippedRedEpisode;
  red_pr_recovery_sha : option string;
  auto_merge_rearm_pr_url : option string;
  auto_merge_rearm_pr_state : option PrState;
  auto_merge_rearm_owed_at : option Z;
  auto_merge_rearm_attention_at : option Z;
  headless_timeout_override : option Z;
  idle_watchdog_override : option Z;
  total_cost_usd : option string;
  plan_source : option string;
  computed_scope_tier : option string;
  lane : string;
  stage : StageT;
  stage_base_ref : option string;
  disposition : option string;
  pr_url : option string;
  completed_at : option Z;
  spawn_error_count : Z;
  next_eligible_at : option Z;
  gate_block : option GateBlockBackoff;
  false_park_recovery_count : Z;
  false_park_recovery_next_eligible_at : option Z;
  hook_context_conflict_session_id : option string;
  codex_orphan_session_id : option string;
  codex_orphan_rescan_next_eligible_at : option Z;
  pr_state : option PrState;
  signoff : option string;
  hold_finalize : option string;
  attention_digest_buffered_at : option Z;
  gate_recipes : option (gmap string bool);
  review_recipes : option (gmap string bool);
  park_on_abandoned_exit : option (gmap string bool);
  escalation_parked_at : option Z;
  escalation_fired_at : option Z;
  gate_recipe_failed_at : option Z;
  escalate_merge_block_fired_at : option Z;
  request_reviewer_fired_at : option Z;
  auto_fix_ci_fired_at : option Z;
  address_review_fired_at : option Z;
  last_blocked_result : option json;
  blocked_reason : option string;
  advisory_note : option string;
  cross_repo_override : bool;
  stage_high_water : option StageT;
  salvage_no_sentinel_at : option Z;
  finding_dispositions : gmap string FindingDisposition;
  operator_resolutions : list OperatorResolution;
  operator_constraints : list OperatorConstraint;
  stale_gate_detected_at : option Z;
  blocked_on_pr : option Z;
  pending_fix_dispatch : option PendingFixDispatch;
  fix_dispatch_session_id : option string;
  fix_dispatch_launched_worker : option LaunchedFixWorker;
  usage_limit_act : option UsageLimitAct }.

#[export] Instance TicketTask_eta : RecordEta TicketTask := λ t,
  mkTicketTask
    (t.(ticket_id)) (t.(client)) (t.(branch)) (t.(adopted_pr_url)) (t.(adopted_head_sha))
    (t.(adopted_repin_due)) (t.(priority)) (t.(worktree_path)) (t.(linear_url))
    (t.(scope_hint)) (t.(status)) (t.(created_at)) (t.(session_id)) (t.(attempts))
    (t.(claimed_at)) (t.(unproductive_attempts)) (t.(ever_spawned)) (t.(regress_attempts))
    (t.(regressed_into_stage)) (t.(finalize_regress_branch_head))
    (t.(finalize_regress_merge_conflict_detected)) (t.(pending_operator_comment))
    (t.(plan_approved_at)) (t.(plan_approved_fingerprint))
    (t.(scope_drift_approved_extra_files)) (t.(scope_drift_approved_head))
    (t.(must_fix_override)) (t.(review_approved_at)) (t.(review_approver_kind))
    (t.(review_approved_sha)) (t.(review_feedback)) (t.(shipped_red))
    (t.(red_pr_recovery_sha)) (t.(auto_merge_rearm_pr_url))
    (t.(auto_merge_rearm_pr_state)) (t.(auto_merge_rearm_owed_at))
    (t.(auto_merge_rearm_attention_at)) (t.(headless_timeout_override))
    (t.(idle_watchdog_override)) (t.(total_cost_usd)) (t.(plan_source))
    (t.(computed_scope_tier)) (t.(lane)) (t.(stage)) (t.(stage_base_ref))
    (t.(disposition)) (t.(pr_url)) (t.(completed_at)) (t.(spawn_error_count))
    (t.(next_eligible_at)) (t.(gate_block)) (t.(false_park_recovery_count))
    (t.(false_park_recovery_next_eligible_at)) (t.(hook_context_conflict_session_id))
    (t.(codex_orphan_session_id)) (t.(codex_orphan_rescan_next_eligible_at))
    (t.(pr_state)) (t.(signoff)) (t.(hold_finalize)) (t.(attention_digest_buffered_at))
    (t.(gate_recipes)) (t.(review_recipes)) (t.(park_on_abandoned_exit))
    (t.(escalation_parked_at)) (t.(escalation_fired_at)) (t.(gate_recipe_failed_at))
    (t.(escalate_merge_block_fired_at)) (t.(request_reviewer_fired_at))
    (t.(auto_fix_ci_fired_at)) (t.(address_review_fired_at)) (t.(last_blocked_result))
    (t.(blocked_reason)) (t.(advisory_note)) (t.(cross_repo_override))
    (t.(stage_high_water)) (t.(salvage_no_sentinel_at)) (t.(finding_dispositions))
    (t.(operator_resolutions)) (t.(operator_constraints)) (t.(stale_gate_detected_at))
    (t.(blocked_on_pr)) (t.(pending_fix_dispatch)) (t.(fix_dispatch_session_id))
    (t.(fix_dispatch_launched_worker)) (t.(usage_limit_act)).

#[export] Instance upd_ticket_id : Updater ticket_id := ltac:(derive_updater).
#[export] Instance upd_client : Updater client := ltac:(derive_updater).
#[export] Instance upd_branch : Updater branch := ltac:(derive_updater).
#[export] Instance upd_adopted_pr_url : Updater adopted_pr_url := ltac:(derive_updater).
#[export] Instance upd_adopted_head_sha : Updater adopted_head_sha := ltac:(derive_updater).
#[export] Instance upd_adopted_repin_due : Updater adopted_repin_due := ltac:(derive_updater).
#[export] Instance upd_priority : Updater priority := ltac:(derive_updater).
#[export] Instance upd_worktree_path : Updater worktree_path := ltac:(derive_updater).
#[export] Instance upd_linear_url : Updater linear_url := ltac:(derive_updater).
#[export] Instance upd_scope_hint : Updater scope_hint := ltac:(derive_updater).
#[export] Instance upd_status : Updater status := ltac:(derive_updater).
#[export] Instance upd_created_at : Updater created_at := ltac:(derive_updater).
#[export] Instance upd_session_id : Updater session_id := ltac:(derive_updater).
#[export] Instance upd_attempts : Updater attempts := ltac:(derive_updater).
#[export] Instance upd_claimed_at : Updater claimed_at := ltac:(derive_updater).
#[export] Instance upd_unproductive_attempts : Updater unproductive_attempts := ltac:(derive_updater).
#[export] Instance upd_ever_spawned : Updater ever_spawned := ltac:(derive_updater).
#[export] Instance upd_regress_attempts : Updater regress_attempts := ltac:(derive_updater).
#[export] Instance upd_regressed_into_stage : Updater regressed_into_stage := ltac:(derive_updater).
#[export] Instance upd_finalize_regress_branch_head : Updater finalize_regress_branch_head := ltac:(derive_updater).
#[export] Instance upd_finalize_regress_merge_conflict_detected : Updater finalize_regress_merge_conflict_detected := ltac:(derive_updater).
#[export] Instance upd_pending_operator_comment : Updater pending_operator_comment := ltac:(derive_updater).
#[export] Instance upd_plan_approved_at : Updater plan_approved_at := ltac:(derive_updater).
#[export] Instance upd_plan_approved_fingerprint : Updater plan_approved_fingerprint := ltac:(derive_updater).
#[export] Instance upd_scope_drift_approved_extra_files : Updater scope_drift_approved_extra_files := ltac:(derive_updater).
#[export] Instance upd_scope_drift_approved_head : Updater scope_drift_approved_head := ltac:(derive_updater).
#[export] Instance upd_must_fix_override : Updater must_fix_override := ltac:(derive_updater).
#[export] Instance upd_review_approved_at : Updater review_approved_at := ltac:(derive_updater).
#[export] Instance upd_review_approver_kind : Updater review_approver_kind := ltac:(derive_updater).
#[export] Instance upd_review_approved_sha : Updater review_approved_sha := ltac:(derive_updater).
#[export] Instance upd_review_feedback : Updater review_feedback := ltac:(derive_updater).
#[export] Instance upd_shipped_red : Updater shipped_red := ltac:(derive_updater).
#[export] Instance upd_red_pr_recovery_sha : Updater red_pr_recovery_sha := ltac:(derive_updater).
#[export] Instance upd_auto_merge_rearm_pr_url : Updater auto_merge_rearm_pr_url := ltac:(derive_updater).
#[export] Instance upd_auto_merge_rearm_pr_state : Updater auto_merge_rearm_pr_state := ltac:(derive_updater).
#[export] Instance upd_auto_merge_rearm_owed_at : Updater auto_merge_rearm_owed_at := ltac:(derive_updater).
#[export] Instance upd_auto_merge_rearm_attention_at : Updater auto_merge_rearm_attention_at := ltac:(derive_updater).
#[export] Instance upd_headless_timeout_override : Updater headless_timeout_override := ltac:(derive_updater).
#[export] Instance upd_idle_watchdog_override : Updater idle_watchdog_override := ltac:(derive_updater).
#[export] Instance upd_total_cost_usd : Updater total_cost_usd := ltac:(derive_updater).
#[export] Instance upd_plan_source : Updater plan_source := ltac:(derive_updater).
#[export] Instance upd_computed_scope_tier : Updater computed_scope_tier := ltac:(derive_updater).
#[export] Instance upd_lane : Updater lane := ltac:(derive_updater).
#[export] Instance upd_stage : Updater stage := ltac:(derive_updater).
#[export] Instance upd_stage_base_ref : Updater stage_base_ref := ltac:(derive_updater).
#[export] Instance upd_disposition : Updater disposition := ltac:(derive_updater).
#[export] Instance upd_pr_url : Updater pr_url := ltac:(derive_updater).
#[export] Instance upd_completed_at : Updater completed_at := ltac:(derive_updater).
#[export] Instance upd_spawn_error_count : Updater spawn_error_count := ltac:(derive_updater).
#[export] Instance upd_next_eligible_at : Updater next_eligible_at := ltac:(derive_updater).
#[export] Instance upd_gate_block : Updater gate_block := ltac:(derive_updater).
#[export] Instance upd_false_park_recovery_count : Updater false_park_recovery_count := ltac:(derive_updater).
#[export] Instance upd_false_park_recovery_next_eligible_at : Updater false_park_recovery_next_eligible_at := ltac:(derive_updater).
#[export] Instance upd_hook_context_conflict_session_id : Updater hook_context_conflict_session_id := ltac:(derive_updater).
#[export] Instance upd_codex_orphan_session_id : Updater codex_orphan_session_id := ltac:(derive_updater).
#[export] Instance upd_codex_orphan_rescan_next_eligible_at : Updater codex_orphan_rescan_next_eligible_at := ltac:(derive_updater).
#[export] Instance upd_pr_state : Updater pr_state := ltac:(derive_updater).
#[export] Instance upd_signoff : Updater signoff := ltac:(derive_updater).
#[export] Instance upd_hold_finalize : Updater hold_finalize := ltac:(derive_updater).
#[export] Instance upd_attention_digest_buffered_at : Updater attention_digest_buffered_at := ltac:(derive_updater).
#[export] Instance upd_gate_recipes : Updater gate_recipes := ltac:(derive_updater).
#[export] Instance upd_review_recipes : Updater review_recipes := ltac:(derive_updater).
#[export] Instance upd_park_on_abandoned_exit : Updater park_on_abandoned_exit := ltac:(derive_updater).
#[export] Instance upd_escalation_parked_at : Updater escalation_parked_at := ltac:(derive_updater).
#[export] Instance upd_escalation_fired_at : Updater escalation_fired_at := ltac:(derive_updater).
#[export] Instance upd_gate_recipe_failed_at : Updater gate_recipe_failed_at := ltac:(derive_updater).
#[export] Instance upd_escalate_merge_block_fired_at : Updater escalate_merge_block_fired_at := ltac:(derive_updater).
#[export] Instance upd_request_reviewer_fired_at : Updater request_reviewer_fired_at := ltac:(derive_updater).
#[export] Instance upd_auto_fix_ci_fired_at : Updater auto_fix_ci_fired_at := ltac:(derive_updater).
#[export] Instance upd_address_review_fired_at : Updater address_review_fired_at := ltac:(derive_updater).
#[export] Instance upd_last_blocked_result : Updater last_blocked_result := ltac:(derive_updater).
#[export] Instance upd_blocked_reason : Updater blocked_reason := ltac:(derive_updater).
#[export] Instance upd_advisory_note : Updater advisory_note := ltac:(derive_updater).
#[export] Instance upd_cross_repo_override : Updater cross_repo_override := ltac:(derive_updater).
#[export] Instance upd_stage_high_water : Updater stage_high_water := ltac:(derive_updater).
#[export] Instance upd_salvage_no_sentinel_at : Updater salvage_no_sentinel_at := ltac:(derive_updater).
#[export] Instance upd_finding_dispositions : Updater finding_dispositions := ltac:(derive_updater).
#[export] Instance upd_operator_resolutions : Updater operator_resolutions := ltac:(derive_updater).
#[export] Instance upd_operator_constraints : Updater operator_constraints := ltac:(derive_updater).
#[export] Instance upd_stale_gate_detected_at : Updater stale_gate_detected_at := ltac:(derive_updater).
#[export] Instance upd_blocked_on_pr : Updater blocked_on_pr := ltac:(derive_updater).
#[export] Instance upd_pending_fix_dispatch : Updater pending_fix_dispatch := ltac:(derive_updater).
#[export] Instance upd_fix_dispatch_session_id : Updater fix_dispatch_session_id := ltac:(derive_updater).
#[export] Instance upd_fix_dispatch_launched_worker : Updater fix_dispatch_launched_worker := ltac:(derive_updater).
#[export] Instance upd_usage_limit_act : Updater usage_limit_act := ltac:(derive_updater).

(** [TicketTask(ticket_id=..., client=...)] created at [now]. *)
Definition new_task (tid cl : string) (now : Z) : TicketTask := {|
  ticket_id := tid;
  client := cl;
  branch := None;
  adopted_pr_url := None;
  adopted_head_sha := None;
  adopted_repin_due := false;
  priority := 0%Z;
  worktree_path := None;
  linear_url := None;
  scope_hint := None;
  status := QueueItemStatus.PENDING;
  created_at := now;
  session_id := None;
  attempts := 0%Z;
  claimed_at := None;
  unproductive_attempts := 0%Z;
  ever_spawned := true;
  regress_attempts := 0%Z;
  regressed_into_stage := None;
  finalize_regress_branch_head := None;
  finalize_regress_merge_conflict_detected := false;
  pending_operator_comment := false;
  plan_approved_at := None;
  plan_approved_fingerprint := None;
  scope_drift_approved_extra_files := None;
  scope_drift_approved_head := None;
  must_fix_override := None;
  review_approved_at := None;
  review_approver_kind := None;
  review_approved_sha := None;
  review_feedback := None;
  shipped_red := None;
  red_pr_recovery_sha := None;
  auto_merge_rearm_pr_url := None;
  auto_merge_rearm_pr_state := None;
  auto_merge_rearm_owed_at := None;
  auto_merge_rearm_attention_at := None;
  headless_timeout_override := None;
  idle_watchdog_override := None;
  total_cost_usd := None;
  plan_source := None;
  computed_scope_tier := None;
  lane := DEFAULT_LANE;
  stage := DEFAULT_STAGE;
  stage_base_ref := None;
  disposition := None;
  pr_url := None;
  completed_at := None;
  spawn_error_count := 0%Z;
  next_eligible_at := None;
  gate_block := None;
  false_park_recovery_count := 0%Z;
  false_park_recovery_next_eligible_at := None;
  hook_context_conflict_session_id := None;
  codex_orphan_session_id := None;
  codex_orphan_rescan_next_eligible_at := None;
  pr_state := None;
  signoff := None;
  hold_finalize := None;
  attention_digest_buffered_at := None;
  gate_recipes := None;
  review_recipes := None;
  park_on_abandoned_exit := None;
  escalation_parked_at := None;
  escalation_fired_at := None;
  gate_recipe_failed_at := None;
  escalate_merge_block_fired_at := None;
  request_reviewer_fired_at := None;
  auto_fix_ci_fired_at := None;
  address_review_fired_at := None;
  last_blocked_result := None;
  blocked_reason := None;
  advisory_note := None;
  cross_repo_override := false;
  stage_high_water := None;
  salvage_no_sentinel_at := None;
  finding_dispositions := ∅;
  operator_resolutions := [];
  operator_constraints := [];
  stale_gate_detected_at := None;
  blocked_on_pr := None;
  pending_fix_dispatch := None;
  fix_dispatch_session_id := None;
  fix_dispatch_launched_worker := None;
  usage_limit_act := None |}.

(** ** Field validators *)

Definition ticket_id_char (c : ascii) : bool :=
  is_ascii_alnum c || existsb (Ascii.eqb c) ["."; "_"; "#"; "-"]%char.

Definition ticket_branch_char (c : ascii) : bool :=
  is_ascii_alnum c || existsb (Ascii.eqb c) ["/"; "_"; "."; "-"]%char.

Definition LF : ascii := ascii_of_nat 10.

Fixpoint drop_last_lf (s : string) : string :=
  match s with
  | EmptyString => EmptyString
  | String c EmptyString => if Ascii.eqb c LF then EmptyString else s
  | String c s' => String c (drop_last_lf s')
  end.

(** [re.match] of [^(?!.*\.\.)[a-zA-Z0-9][<cs>]*$]: [$] also matches before a
    final newline, and [.] in the lookahead stops at one. *)
Definition safe_id_match (cs : ascii → bool) (s : string) : bool :=
  let body := drop_last_lf s in
  match body with
  | EmptyString => false
  | String c rest =>
      negb (str_contains ".." body) && is_ascii_alnum c && str_forallb cs rest
  end.

Definition _check_ticket_id (value : string) : option string :=
  if String.eqb value "" then Some value
  else if safe_id_match ticket_id_char value then Some value else None.

Definition _check_branch (value : option string) : option (option string) :=
  match value with
  | None => Some None
  | Some b => if safe_id_match ticket_branch_char b then Some value else None
  end.

(** A pinned head needs the branch it pins. *)
Definition _check_adopted_pin_has_branch (t : TicketTask) : bool :=
  negb (is_Some_b t.(adopted_head_sha) && negb (is_Some_b t.(branch))).

Definition unknown_keys (recognized : gset string) (value : gmap string bool) : gset string :=
  dom value ∖ recognized.

Definition _validate_recipe_keys (recognized : gset string) (value : gmap string bool)
  : option (gmap string bool) :=
  if bool_decide (unknown_keys recognized value = ∅) then Some value else None.

Definition _validate_gate_recipe_keys : gmap string bool → option (gmap string bool) :=
  _validate_recipe_keys {[ "auto_approve_clean_review"; "auto_adopt_clean_plan" ]}.

Definition _validate_review_recipe_keys : gmap string bool → option (gmap string bool) :=
  _validate_recipe_keys
    {[ "address_review"; "auto_fix_ci"; "request_reviewer"; "escalate_merge_block";
       "repair_changelog_conflict"; "repair_mechanical_conflict" ]}.

Definition _validate_park_on_abandoned_exit_keys
  : gmap string bool → option (gmap string bool) :=
  _validate_recipe_keys {[ PARK_ON_ABANDONED_EXIT_KEY ]}.

(** ** Lane occupancy *)

Definition occupies_lane_slot (task : TicketTask) : bool :=
  if negb (bool_decide (task.(status) ∈ OCCUPIED_LANE_STATUSES)) then false
  else negb (bool_decide (task.(status) = QueueItemStatus.BLOCKED_ON_USER)
             && bool_decide (task.(disposition) = Some TERMINAL_SIBLING_value)).

(** ** The store *)

Record WatchedPr := mkWatchedPr {
  wp_pr_url : string; wp_repo : string; wp_pr_number : Z; wp_requested_at : Z;
  wp_requester_login : option string; wp_source : string; wp_status : string;
  wp_client : option string; wp_pr_state : option PrState }.

Record DevQueueStore := mkDevQueueStore {
  schema_version : Z;
  tasks : list TicketTask;
  watched_prs : list WatchedPr }.

Definition with_status (s : queue_status) (q : DevQueueStore) : list TicketTask :=
  filter (λ t, t.(status) = s) q.(tasks).

Definition pending : DevQueueStore → list TicketTask := with_status QueueItemStatus.PENDING.
Definition running : DevQueueStore → list TicketTask := with_status QueueItemStatus.RUNNING.
Definition completed : DevQueueStore → list TicketTask :=
  with_status QueueItemStatus.COMPLETED.
Definition cancelled : DevQueueStore → list TicketTask :=
  with_status QueueItemStatus.CANCELLED.
Definition by_client (c : string) (q : DevQueueStore) : list TicketTask :=
  filter (λ t, t.(client) = c) q.(tasks).

(** ** Sessions ([cw.models.session], the fields the queue's code reads) *)

Record Session := mkSession {
  sess_id : string;
  sess_status : SessionStatus.SessionStatus;
  sess_origin : SessionOrigin.SessionOrigin;
  sess_last_result : option json;
  sess_name : string;
  sess_client : string;
  sess_surface_ref : option string;
  sess_reap_reason : option string;
  sess_worktree_path : option string;
  sess_claude_session_id : option string;
  sess_started_at : Z;
  sess_completed_at : option Z;
  sess_recovery_disposition : option string;
  sess_recovery_reason : option string;
  sess_lane : option string }.

#[export] Instance Session_eta : RecordEta Session := λ s,
  mkSession s.(sess_id) s.(sess_status) s.(sess_origin) s.(sess_last_result) s.(sess_name)
    s.(sess_client) s.(sess_surface_ref) s.(sess_reap_reason) s.(sess_worktree_path)
    s.(sess_claude_session_id) s.(sess_started_at) s.(sess_completed_at)
    s.(sess_recovery_disposition) s.(sess_recovery_reason) s.(sess_lane).
#[export] Instance upd_sess_last_result : Updater sess_last_result := ltac:(derive_updater).
#[export] Instance upd_sess_reap_reason : Updater sess_reap_reason := ltac:(derive_updater).

(** ** Basic facts *)

(** Occupancy is membership in the occupied statuses minus the one
    terminal-sibling carve-out. *)
Lemma occupies_lane_slot_spec t :
  occupies_lane_slot t = true ↔
  t.(status) ∈ OCCUPIED_LANE_STATUSES
  ∧ ¬ (t.(status) = QueueItemStatus.BLOCKED_ON_USER
       ∧ t.(disposition) = Some TERMINAL_SIBLING_value).
Proof.
  unfold occupies_lane_slot.
  destruct (decide (t.(status) ∈ OCCUPIED_LANE_STATUSES)) as [H|H];
    [rewrite (bool_decide_true _ H)|rewrite (bool_decide_false _ H)]; simpl; [|naive_solver].
  rewrite negb_true_iff, andb_false_iff, !bool_decide_eq_false.
  destruct (decide (t.(status) = QueueItemStatus.BLOCKED_ON_USER));
    destruct (decide (t.(disposition) = Some TERMINAL_SIBLING_value)); naive_solver.
Qed.
