(* ===== verification/World.v ===== *)
(** * The state the row operations run on

    A handler mutates one [TicketTask] in place, appends orchestrator events
    ([record_event], the durable inbox) and reads the clock.  [World] threads
    the three; [Clock] gives the instant of the n-th [datetime.now(UTC)] call,
    so two reads in one handler may differ. *)

From S2P Require Import Prelude.
From S2P Require Import PyStr.
From S2P Require Import Enums.
From S2P Require Import Tasks.

#[local] Open Scope cw_scope.

Record event := mkEvent {
  ev_type : string;
  ev_payload : list (string * json);
  ev_correlation_id : option string }.

Record World := mkWorld {
  w_task : TicketTask;
  w_events : list event;
  w_ticks : nat }.

#[export] Instance World_eta : RecordEta World := λ w,
  mkWorld w.(w_task) w.(w_events) w.(w_ticks).
#[export] Instance upd_w_task : Updater w_task := ltac:(derive_updater).
#[export] Instance upd_w_events : Updater w_events := ltac:(derive_updater).
#[export] Instance upd_w_ticks : Updater w_ticks := ltac:(derive_updater).

(** The instant, in microseconds, of the n-th clock reading. *)
Class Clock := clock_at : nat → Z.

Definition now {C : Clock} : M World Z := λ w,
  (inr (clock_at w.(w_ticks)), w <| w_ticks := S w.(w_ticks) |>).

(** [task.f] and [task.f = v]. *)
Definition read {A} (f : TicketTask → A) : M World A := gets (λ w, f w.(w_task)).
Definition assign (f : TicketTask → TicketTask) : M World unit :=
  modify (λ w, w <| w_task := f w.(w_task) |>).

(** [record_event(type, payload, correlation_id=...)]. *)
Definition record_event (ty : string) (payload : list (string * json))
  (correlation_id : option string) : M World unit :=
  modify (λ w, w <| w_events := w.(w_events) ++ [mkEvent ty payload correlation_id] |>).

(** The 9-field [session.needs_attention] payload every park site builds from
    the row. *)
Definition attention_payload (t : TicketTask) (paused_status breadcrumbs : string)
  : list (string * json) :=
  [("session_id", JStr (default "" t.(session_id)));
   ("session_name", JStr "");
   ("client", JStr t.(client));
   ("ticket_id", JStr t.(ticket_id));
   ("claude_session_id", JNull);
   ("paused_status", JStr paused_status);
   ("breadcrumbs", JStr breadcrumbs);
   ("crashed", JBool false);
   ("lane", JStr t.(lane))].

Definition needs_attention (paused_status breadcrumbs : string) : M World unit :=
  t ← read id;
  record_event SESSION_NEEDS_ATTENTION (attention_payload t paused_status breadcrumbs)
    (Some t.(ticket_id)).

(** ** Runs of computations that do not raise

    [silent m]: [m] returns normally from every world. *)

Definition total {A} (m : M World A) : Prop := ∀ w, ∃ a, result m w = inr a.

Lemma read_run {A} (f : TicketTask → A) t evs n :
  read f (mkWorld t evs n) = (inr (f t), mkWorld t evs n).
Proof. done. Qed.

Lemma assign_run f t evs n :
  assign f (mkWorld t evs n) = (inr tt, mkWorld (f t) evs n).
Proof. done. Qed.

Lemma returns_read {A} (f : TicketTask → A) Q w : returns (read f) Q w ↔ Q (f (w_task w)) w.
Proof. done. Qed.

Lemma returns_assign f Q w :
  returns (assign f) Q w ↔ Q tt (w <| w_task := f (w_task w) |>).
Proof. done. Qed.

Section Runs.
Context {A B : Type}.

Lemma bind_run (m : M World A) (k : A → M World B) w a w' :
  m w = (inr a, w') → (m ≫= k) w = k a w'.
Proof. unfold mbind, M_bind. by intros ->. Qed.

Lemma exec_bind_ok (m : M World A) (k : A → M World B) w a :
  result m w = inr a → exec (m ≫= k) w = exec (k a) (exec m w).
Proof.
  unfold result, exec, mbind, M_bind. destruct (m w) as [r w']. simpl. by intros ->.
Qed.

Lemma result_bind_ok (m : M World A) (k : A → M World B) w a :
  result m w = inr a → result (m ≫= k) w = result (k a) (exec m w).
Proof.
  unfold result, exec, mbind, M_bind. destruct (m w) as [r w']. simpl. by intros ->.
Qed.

Lemma total_bind (m : M World A) (k : A → M World B) :
  total m → (∀ a, total (k a)) → total (m ≫= k).
Proof.
  intros Hm Hk w. destruct (Hm w) as [a Ha]. rewrite (result_bind_ok _ _ _ _ Ha). apply Hk.
Qed.
End Runs.

(** One statement of a straight-line body, on a world in constructor form. *)
Ltac run_step l := erewrite bind_run by (apply l).
Ltac run_reads := repeat first [run_step @read_run | run_step @assign_run].

Lemma total_ret {A} (a : A) : total (mret a).
Proof. intros w. by eexists. Qed.
Lemma total_read {A} (f : TicketTask → A) : total (read f).
Proof. intros w. by eexists. Qed.
Lemma total_assign f : total (assign f).
Proof. intros w. by eexists. Qed.
Lemma total_record_event ty p c : total (record_event ty p c).
Proof. intros w. by eexists. Qed.
Lemma total_now {C : Clock} : total now.
Proof. intros w. by eexists. Qed.
Lemma total_when b (m : M World unit) : total m → total (when b m).
Proof. destruct b; simpl; [done|]. intros _. apply total_ret. Qed.
Lemma total_needs_attention p b : total (needs_attention p b).
Proof. intros w. by eexists. Qed.

#[export] Hint Resolve total_ret total_read total_assign total_record_event total_now
  total_when total_needs_attention : cw.

(** Prove a sequence of non-raising statements total. *)
Ltac solve_total :=
  repeat first
    [ progress (intros; auto with cw)
    | apply total_bind; [|intro]
    | case_match ].

(** ** Invariants over a run

    [preserves P m]: every outcome of [m], a raise included, keeps [P]. *)
Definition preserves {A} (P : World → Prop) (m : M World A) : Prop :=
  ∀ w, P w → P (exec m w).

Section Preserves.
Context (P : World → Prop).

Lemma preserves_bind {A B} (m : M World A) (k : A → M World B) :
  preserves P m → (∀ a, preserves P (k a)) → preserves P (m ≫= k).
Proof.
  intros Hm Hk w Hw. specialize (Hm w Hw). unfold preserves, exec in *.
  unfold mbind, M_bind. destruct (m w) as [[e|a] w']; simpl in *; [done|]. by apply Hk.
Qed.

Lemma preserves_ret {A} (a : A) : preserves P (mret a).
Proof. by intros w. Qed.
Lemma preserves_raise {A} e : preserves P (raise e : M World A).
Proof. by intros w. Qed.
Lemma preserves_read {A} (f : TicketTask → A) : preserves P (read f).
Proof. by intros w. Qed.
Lemma preserves_when b m : preserves P m → preserves P (when b m).
Proof. destruct b; simpl; [done|]. intros _. by intros w. Qed.
End Preserves.

#[export] Hint Resolve preserves_ret preserves_raise preserves_read preserves_when : cw.

(** An invariant joins the postcondition of a run. *)
Lemma returns_preserves {A} (P : World → Prop) (m : M World A) Q w :
  preserves P m → P w → returns m Q w → returns m (λ a w', Q a w' ∧ P w') w.
Proof.
  intros Hm Hw HQ. unfold returns, wp in *. specialize (Hm w Hw).
  by destruct (result m w).
Qed.

(** A property of the task field alone is kept by events and clock reads. *)
Definition on_task (P : TicketTask → Prop) : World → Prop := λ w, P w.(w_task).

Lemma preserves_record_event P ty p c : preserves (on_task P) (record_event ty p c).
Proof. by intros w. Qed.
Lemma preserves_now {C : Clock} P : preserves (on_task P) now.
Proof. by intros w. Qed.
Lemma preserves_needs_attention P a b : preserves (on_task P) (needs_attention a b).
Proof. by intros w. Qed.
Lemma preserves_assign (P : TicketTask → Prop) f :
  (∀ t, P t → P (f t)) → preserves (on_task P) (assign f).
Proof. intros H w. apply H. Qed.

#[export] Hint Resolve preserves_record_event preserves_now preserves_needs_attention : cw.

Ltac solve_preserves :=
  repeat first
    [ progress (intros; auto with cw)
    | apply preserves_bind; [|intro]
    | apply preserves_assign; [done]
    | case_match ].
