(* ===== verification/Adjudication.v ===== *)
(** * Adjudicating findings

    [review_adjudication]: an adjudicator's decisions are matched to the
    accepted findings by location ([_match.py]), a claim that a finding was
    fixed is checked against the fix diff ([_verify.py]), findings an operator
    voided are suppressed by content ([_voided.py]), and the record carried to
    the pull request is merged ([merge_deferred_adjudications]).  Functions
    that record events return them after their result; logging is left out. *)

From S2P Require Import Prelude PyStr PyText Markers ReviewModels TextMatch Findings Enums Tasks World.
#[local] Open Scope cw_scope.

(** ** Models *)

Record Adjudication := mkAdjudication {
  a_severity : string;
  a_file : string;
  a_line_start : option Z;
  a_line_end : option Z;
  a_evidence : string;
  a_summary : string;
  a_outcome : AdjudicationOutcome;
  a_rationale : string;
  a_round : option Z;
  a_recorded_at : string }.

#[export] Instance Adjudication_eta : RecordEta Adjudication := λ t,
  mkAdjudication t.(a_severity) t.(a_file) t.(a_line_start) t.(a_line_end) t.(a_evidence)
    t.(a_summary) t.(a_outcome) t.(a_rationale) t.(a_round) t.(a_recorded_at).

#[export] Instance upd_a_severity : Updater a_severity := ltac:(derive_updater).
#[export] Instance upd_a_file : Updater a_file := ltac:(derive_updater).
#[export] Instance upd_a_line_start : Updater a_line_start := ltac:(derive_updater).
#[export] Instance upd_a_line_end : Updater a_line_end := ltac:(derive_updater).
#[export] Instance upd_a_evidence : Updater a_evidence := ltac:(derive_updater).
#[export] Instance upd_a_summary : Updater a_summary := ltac:(derive_updater).
#[export] Instance upd_a_outcome : Updater a_outcome := ltac:(derive_updater).
#[export] Instance upd_a_rationale : Updater a_rationale := ltac:(derive_updater).
#[export] Instance upd_a_round : Updater a_round := ltac:(derive_updater).
#[export] Instance upd_a_recorded_at : Updater a_recorded_at := ltac:(derive_updater).

(** The three model validators, in their order. *)
Definition _check_rationale_recorded (a : Adjudication) : bool :=
  bool_decide (a.(a_outcome) = o_fix) || negb (is_blank a.(a_rationale)).

Definition _check_operator_action_is_must_fix (a : Adjudication) : bool :=
  negb (bool_decide (a.(a_outcome) = o_operator_action))
  || String.eqb a.(a_severity) MUST_FIX.

Definition _check_operator_action_has_no_diff_anchor (a : Adjudication) : bool :=
  negb (bool_decide (a.(a_outcome) = o_operator_action))
  || (String.eqb a.(a_file) "N/A"
      && negb (is_Some_b a.(a_line_start)) && negb (is_Some_b a.(a_line_end))).

Definition validate_Adjudication (a : Adjudication) : exn + Adjudication :=
  if negb (_check_rationale_recorded a) then inl ValueError
  else if negb (_check_operator_action_is_must_fix a) then inl ValueError
  else if negb (_check_operator_action_has_no_diff_anchor a) then inl ValueError
  else inr a.

Record VoidedFinding := mkVoidedFinding {
  vf_severity : string;
  vf_file : string;
  vf_summary : string;
  vf_evidence : string;
  vf_operator_comment_id : string;
  vf_operator_comment_excerpt : string;
  vf_voided_at : string;
  vf_original_rationale : string }.

Definition validate_VoidedFinding (v : VoidedFinding) : exn + VoidedFinding :=
  if is_blank v.(vf_file) || is_blank v.(vf_summary) || is_blank v.(vf_evidence)
     || is_blank v.(vf_operator_comment_id)
  then inl ValueError else inr v.

(** ** Matching decisions to findings *)

Definition NO_ENTRY_DETAIL : string := "no adjudication entry recorded for this finding".

Definition lkey : Type := string * string * Z * Z.

Definition _location_key (severity file : string) (line_start line_end : option Z) : lkey :=
  (severity, file, default (-1)%Z line_start, default (-1)%Z line_end).

Definition _entry_key (entry : Adjudication) : lkey :=
  _location_key entry.(a_severity) entry.(a_file) entry.(a_line_start) entry.(a_line_end).

Definition _finding_key (finding : Finding) : lkey :=
  _location_key finding.(f_severity) finding.(f_file) finding.(f_line_start)
    finding.(f_line_end).

(** [[i for i, af in enumerate(accepted) if p(af)]]. *)
Definition indices_where (p : AcceptedFinding → bool) (accepted : list AcceptedFinding)
  : list nat :=
  filter (λ i, (if accepted !! i is Some af then p af else false) = true)
    (seq 0 (length accepted)).

Definition _candidates_for_entry (entry : Adjudication) (accepted : list AcceptedFinding)
  : list nat :=
  indices_where (λ af, bool_decide (_finding_key af.(af_finding) = _entry_key entry)) accepted.

Definition quotes (entry : Adjudication) (accepted : list AcceptedFinding) (i : nat) : bool :=
  match accepted !! i with
  | Some af => String.eqb af.(af_finding).(f_evidence) entry.(a_evidence)
  | None => false
  end.

Definition _resolve_entry (entry : Adjudication) (accepted : list AcceptedFinding)
  (candidates : list nat) : option nat :=
  match candidates with
  | [] => None
  | [i] => Some i
  | _ =>
      match filter (λ i, quotes entry accepted i = true) candidates with
      | [i] => Some i
      | _ => None
      end
  end.

(** The dict [matched] keeps its insertion order, which [matched_adjudications]
    returns. *)
Notation matches := (list (nat * Adjudication)).

Fixpoint matched_get (i : nat) (matched : matches) : option Adjudication :=
  match matched with
  | [] => None
  | (j, entry) :: matched' => if Nat.eqb i j then Some entry else matched_get i matched'
  end.

Definition match_entry (accepted : list AcceptedFinding) (st : matches * list Adjudication)
  (entry : Adjudication) : matches * list Adjudication :=
  let '(matched, unconsumed) := st in
  match _resolve_entry entry accepted (_candidates_for_entry entry accepted) with
  | None => (matched, unconsumed ++ [entry])
  | Some index =>
      if is_Some_b (matched_get index matched) then (matched, unconsumed ++ [entry])
      else (matched ++ [(index, entry)], unconsumed)
  end.

Definition _match_adjudications (accepted : list AcceptedFinding)
  (adjudications : list Adjudication) : matches * list Adjudication :=
  foldl (match_entry accepted) ([], []) adjudications.

Definition _overridden_by_contest (finding : Finding) (entry : Adjudication) : bool :=
  match contested_disposition finding with
  | Some (disposition, _) =>
      negb (bool_decide (disposition = _OUTCOME_DISPOSITIONS entry.(a_outcome)))
  | None => false
  end.

Definition applied_entry (accepted : list AcceptedFinding) (ie : nat * Adjudication) : bool :=
  match accepted !! ie.1 with
  | Some af => negb (_overridden_by_contest af.(af_finding) ie.2)
  | None => false
  end.

Definition matched_adjudications (accepted : list AcceptedFinding)
  (adjudications : list Adjudication) : list Adjudication :=
  map snd (filter (λ ie, applied_entry accepted ie = true)
             (_match_adjudications accepted adjudications).1).

(** [af.model_copy(update={disposition, disposition_detail, adjudicated_fix})]. *)
Definition decide_as (af : AcceptedFinding) (disposition : Disposition) (detail : string)
  (fix_ : bool) : AcceptedFinding :=
  ((af <| af_disposition := disposition |>) <| af_disposition_detail := detail |>)
    <| af_adjudicated_fix := fix_ |>.

(** [entry.rationale or forced[1]]. *)
Definition or_str (a b : string) : string := if String.eqb a "" then b else a.

Definition _stamp (accepted : AcceptedFinding) (entry : option Adjudication)
  : AcceptedFinding :=
  match entry with
  | None => decide_as accepted d_dropped NO_ENTRY_DETAIL false
  | Some entry =>
      match contested_disposition accepted.(af_finding) with
      | Some (disposition, detail) =>
          decide_as accepted disposition (or_str entry.(a_rationale) detail) false
      | None =>
          decide_as accepted (_OUTCOME_DISPOSITIONS entry.(a_outcome)) entry.(a_rationale)
            (bool_decide (entry.(a_outcome) = o_fix))
      end
  end.

Definition undecided_must_fix (af : AcceptedFinding) : bool :=
  has_severity MUST_FIX af && bool_decide (af.(af_disposition) = d_dropped).

Definition apply_adjudication (verdict : ReviewVerdict) (adjudications : list Adjudication)
  : ReviewVerdict :=
  let '(matched, unconsumed) := _match_adjudications verdict.(v_accepted) adjudications in
  let stamped := imap (λ i af, _stamp af (matched_get i matched)) verdict.(v_accepted) in
  let must_fix :=
    map af_finding (filter (λ af, undecided_must_fix af = true) stamped) in
  let deferred := (derive_review_counts stamped 0 0 0 None None).(rv_deferred) in
  let review := verdict.(v_review) <| rv_deferred := deferred |> in
  ((set_must_fix verdict stamped must_fix) <| v_review := review |>)
    <| v_unmatched_adjudication_count := Z.of_nat (length unconsumed) |>.

(** ** Checking a claimed fix against the fix diff *)

Definition _file_deleted_in_fix_diff (diff_text file : string) : bool :=
  let header := "diff --git a/" +:+ file +:+ " b/" +:+ file +:+ NLs in
  match str_split1 header diff_text with
  | None => false
  | Some (_, after) =>
      let rest := header +:+ after in
      let block :=
        match str_split1 (NLs +:+ "diff --git ") (str_drop 1 rest) with
        | None => rest
        | Some (before, _) => String.substring 0 1 rest +:+ before
        end in
      str_contains (NLs +:+ "deleted file mode ") block
      && str_contains (NLs +:+ "+++ /dev/null") block
  end.

Section Verify.
Context {A : PyAst} {F : RepoFiles}.

Definition _fix_is_substantiated (finding : Finding) (fix_diff : CapturedDiff) : bool :=
  if _file_deleted_in_fix_diff fix_diff.(cd_text) finding.(f_file) then true
  else if negb (is_Some_b finding.(f_line_start)) && negb (is_Some_b finding.(f_line_end))
  then bool_decide (finding.(f_file) ∈ dom fix_diff.(cd_files))
  else if _line_reference_valid fix_diff finding None then true
  else _evidence_removed_in_fix_diff fix_diff.(cd_file_diffs) finding.(f_file)
         finding.(f_evidence).

Definition REVIEW_FIXED_DISPOSITION_DOWNGRADED : string := "review.fixed_disposition_downgraded".

(** One downgraded finding. *)
Definition downgraded_finding (af : AcceptedFinding) : AcceptedFinding :=
  (af <| af_disposition := d_dropped |>)
    <| af_disposition_detail :=
         "fixed disposition claimed but fix-cycle diff does not touch "
         +:+ af.(af_finding).(f_file) +:+ ":" +:+ opt_Z_str af.(af_finding).(f_line_start) |>.

Definition downgrade_event (ticket_id : string) (af : AcceptedFinding) : event :=
  mkEvent REVIEW_FIXED_DISPOSITION_DOWNGRADED
    [("file", JStr af.(af_finding).(f_file));
     ("line_start", of_opt_Z af.(af_finding).(f_line_start));
     ("line_end", of_opt_Z af.(af_finding).(f_line_end));
     ("severity", JStr af.(af_finding).(f_severity));
     ("summary", JStr af.(af_finding).(f_summary));
     ("reviewers", JList (map JStr af.(af_reviewers)));
     ("disposition_detail", JStr (downgraded_finding af).(af_disposition_detail))]
    (Some ticket_id).

Definition claim_unfounded (fix_diff : CapturedDiff) (af : AcceptedFinding) : bool :=
  bool_decide (af.(af_disposition) = d_fixed)
  && negb (_fix_is_substantiated af.(af_finding) fix_diff).

Definition verify_fixed_dispositions (verdict : ReviewVerdict) (fix_diff : CapturedDiff)
  (ticket_id : string) : ReviewVerdict * list event :=
  let accepted :=
    map (λ af, if claim_unfounded fix_diff af then downgraded_finding af else af)
      verdict.(v_accepted) in
  let unfounded := filter (λ af, claim_unfounded fix_diff af = true) verdict.(v_accepted) in
  let downgraded := Z.of_nat (length unfounded) in
  let review := verdict.(v_review) <| rv_downgraded_disposition_count := Some downgraded |> in
  (((verdict <| v_accepted := accepted |>)
      <| v_downgraded_disposition_count := downgraded |>) <| v_review := review |>,
   map (downgrade_event ticket_id) unfounded).
End Verify.

(** ** Findings an operator voided *)

Definition fprint : Type := string * string * string * string.

Definition _normalize_finding_text (text : string) : string := collapse_spaces text.

Definition _voided_fingerprint (severity file summary evidence : string) : fprint :=
  (severity, file, _normalize_finding_text summary, _normalize_finding_text evidence).

Definition _entry_fingerprint (entry : VoidedFinding) : fprint :=
  _voided_fingerprint entry.(vf_severity) entry.(vf_file) entry.(vf_summary)
    entry.(vf_evidence).

Definition finding_fingerprint (f : Finding) : fprint :=
  _voided_fingerprint f.(f_severity) f.(f_file) f.(f_summary) f.(f_evidence).

(** [by_fingerprint.setdefault(key, entry)]. *)
Definition setdefault_void (m : gmap fprint VoidedFinding) (entry : VoidedFinding)
  : gmap fprint VoidedFinding :=
  match m !! _entry_fingerprint entry with
  | Some _ => m
  | None => <[_entry_fingerprint entry := entry]> m
  end.

Definition find_voided_matches (accepted : list AcceptedFinding) (voided : list VoidedFinding)
  : gmap nat VoidedFinding :=
  if bool_decide (voided = []) then ∅
  else
    let by_fingerprint := foldl setdefault_void ∅ voided in
    omap (λ af, by_fingerprint !! finding_fingerprint af.(af_finding)) (map_seq 0 accepted).

Definition VOIDED_RATIONALE_PREFIX : string :=
  "suppressed: matches finding voided by operator comment ".

Definition _voided_rationale (entry : VoidedFinding) : string :=
  VOIDED_RATIONALE_PREFIX +:+ entry.(vf_operator_comment_id) +:+ " ("
  +:+ or_str entry.(vf_voided_at) "date not recorded" +:+ ") — original rejection: "
  +:+ or_str entry.(vf_original_rationale) "not recorded".

Definition _voided_adjudication (accepted : AcceptedFinding) (entry : VoidedFinding)
  : Adjudication :=
  let finding := accepted.(af_finding) in
  mkAdjudication finding.(f_severity) finding.(f_file) finding.(f_line_start)
    finding.(f_line_end) finding.(f_evidence) finding.(f_summary) o_reject
    (_voided_rationale entry) None "".

Definition REVIEW_FINDING_VOIDED : string := "review.finding_voided".

Definition voided_event (ticket_id : string) (af : AcceptedFinding) (entry : VoidedFinding)
  : event :=
  mkEvent REVIEW_FINDING_VOIDED
    [("file", JStr af.(af_finding).(f_file));
     ("severity", JStr af.(af_finding).(f_severity));
     ("summary", JStr af.(af_finding).(f_summary));
     ("operator_comment_id", JStr entry.(vf_operator_comment_id));
     ("voided_at", JStr entry.(vf_voided_at));
     ("original_rationale", JStr entry.(vf_original_rationale))]
    (Some ticket_id).

Definition suppress (af : AcceptedFinding) (entry : option VoidedFinding) : AcceptedFinding :=
  match entry with
  | None => af
  | Some entry =>
      (af <| af_disposition := d_rejected |>)
        <| af_disposition_detail := _voided_rationale entry |>
  end.

(** The suppressed findings with their voids, in order. *)
Definition suppressions (accepted : list AcceptedFinding)
  (matched : gmap nat VoidedFinding) : list (AcceptedFinding * VoidedFinding) :=
  omap id (imap (λ i af, pair af <$> matched !! i) accepted).

Definition kept_must_fix (matched : gmap nat VoidedFinding) (i : nat) (af : AcceptedFinding)
  : option Finding :=
  if has_severity MUST_FIX af && negb (is_Some_b (matched !! i))
  then Some af.(af_finding) else None.

Definition apply_voided_suppression (verdict : ReviewVerdict) (voided : list VoidedFinding)
  (ticket_id : string) : ReviewVerdict * list Adjudication * list event :=
  let matched := find_voided_matches verdict.(v_accepted) voided in
  if bool_decide (matched = ∅) then (verdict, [], [])
  else
    let stamped := imap (λ i af, suppress af (matched !! i)) verdict.(v_accepted) in
    let hits := suppressions verdict.(v_accepted) matched in
    let must_fix := omap id (imap (kept_must_fix matched) stamped) in
    (set_must_fix verdict stamped must_fix,
     map (λ h, _voided_adjudication h.1 h.2) hits,
     map (λ h, voided_event ticket_id h.1 h.2) hits).

Definition dedup_void_step (st : gset fprint * list VoidedFinding) (entry : VoidedFinding)
  : gset fprint * list VoidedFinding :=
  let '(seen, unique) := st in
  if decide (_entry_fingerprint entry ∈ seen) then (seen, unique)
  else ({[_entry_fingerprint entry]} ∪ seen, unique ++ [entry]).

Definition _dedup_voided (entries : list VoidedFinding) : list VoidedFinding :=
  (foldl dedup_void_step (∅, []) entries).2.

(** ** The record carried to the pull request *)

Definition mkey : Type :=
  string * string * Z * Z * string * string * AdjudicationOutcome * string.

Definition _deferred_merge_fingerprint (e : Adjudication) : mkey :=
  (e.(a_severity), e.(a_file), default (-1)%Z e.(a_line_start), default (-1)%Z e.(a_line_end),
   e.(a_evidence), e.(a_summary), e.(a_outcome), e.(a_rationale)).

Definition merge_deferred_adjudications (prior new : list Adjudication) : list Adjudication :=
  let seen := map _deferred_merge_fingerprint prior in
  prior ++ filter (λ e, _deferred_merge_fingerprint e ∉ seen) new.
