(* ===== verification/AdjudicationProps.v ===== *)
(** * What adjudication decides

    The gate after adjudication blocks exactly on the MUST_FIX findings no
    entry decides, no entry decides two findings, a finding an operator voided
    stays decided through adjudication, and a claimed fix stands exactly when
    the fix diff bears it out. *)

From S2P Require Import Prelude PyStr PyText Markers ReviewModels TextMatch.
From S2P Require Import Findings FindingsProps Enums Tasks World Adjudication.
#[local] Open Scope nat_scope.
#[local] Open Scope cw_scope.

(** ** Which finding an entry decides *)

Section Matching.
Context (accepted : list AcceptedFinding).

(** The finding at [i] sits at the entry's location. *)
Definition located (e : Adjudication) (i : nat) : Prop :=
  ∃ af, accepted !! i = Some af ∧ _finding_key af.(af_finding) = _entry_key e.

Definition quoted_by (e : Adjudication) (i : nat) : Prop :=
  located e i ∧ quotes e accepted i = true.

(** The entry decides [i]: the only finding at its location, or the only one
    there that it quotes. *)
Definition decides (e : Adjudication) (i : nat) : Prop :=
  located e i
  ∧ ((∀ j, located e j → j = i) ∨ (quoted_by e i ∧ ∀ j, quoted_by e j → j = i)).

Definition resolved_index (e : Adjudication) : option nat :=
  _resolve_entry e accepted (_candidates_for_entry e accepted).

Lemma candidates_located e i : i ∈ _candidates_for_entry e accepted ↔ located e i.
Proof.
  unfold _candidates_for_entry, indices_where, located.
  rewrite list_elem_of_filter, elem_of_seq. destruct (accepted !! i) as [af|] eqn:E.
  - rewrite bool_decide_eq_true. apply lookup_lt_Some in E. naive_solver lia.
  - naive_solver.
Qed.

Lemma candidates_NoDup e : NoDup (_candidates_for_entry e accepted).
Proof. apply NoDup_filter, NoDup_seq. Qed.

Lemma singleton_unique {X} (xs : list X) x :
  NoDup xs → (xs = [x] ↔ x ∈ xs ∧ ∀ y, y ∈ xs → y = x).
Proof.
  intros Hnd. split.
  - intros ->. split; [by left|]. by intros y ->%list_elem_of_singleton.
  - intros [Hx Hall]. destruct xs as [|a xs]; [by apply elem_of_nil in Hx|].
    assert (a = x) as -> by (apply Hall; by left).
    destruct xs as [|b xs]; [done|].
    assert (b = x) as -> by (apply Hall; right; by left).
    apply NoDup_cons in Hnd as [H _]. exfalso. apply H. by left.
Qed.

Lemma tied_quoted e i :
  i ∈ filter (λ i, quotes e accepted i = true) (_candidates_for_entry e accepted)
  ↔ quoted_by e i.
Proof. rewrite list_elem_of_filter, candidates_located. unfold quoted_by. tauto. Qed.

Lemma resolve_decides e i : resolved_index e = Some i ↔ decides e i.
Proof.
  unfold resolved_index, _resolve_entry, decides.
  pose proof (singleton_unique (_candidates_for_entry e accepted) i (candidates_NoDup e)) as Hc.
  pose proof (singleton_unique _ i
    (NoDup_filter (λ i, quotes e accepted i = true) _ (candidates_NoDup e))) as Ht.
  setoid_rewrite candidates_located in Hc. setoid_rewrite tied_quoted in Ht.
  pose proof (candidates_located e) as Hl.
  destruct (_candidates_for_entry e accepted) as [|a [|b cs]].
  - split; [done|]. intros [Hi _]. by apply Hl, elem_of_nil in Hi.
  - split.
    + intros [= ->]. destruct Hc as [Hc _]. destruct (Hc eq_refl) as [H1 H2]. by split; [|left].
    + intros [Hi _]. apply Hl, list_elem_of_singleton in Hi. by rewrite Hi.
  - set (tied := filter _ _) in *. split.
    + destruct tied as [|t [|]] eqn:E; [done| |done]. intros [= ->].
      destruct (proj1 Ht eq_refl) as [H1 H2]. split; [apply H1|by right].
    + intros [Hi [Hone|Hq]]; cycle 1.
      { by rewrite (proj2 Ht Hq). }
      exfalso. destruct Hc as [_ Hc]. discriminate Hc. by split.
Qed.

(** ** The matching as a whole *)

Definition match_inv (seen : list Adjudication) (st : matches * list Adjudication) : Prop :=
  NoDup (st.1).*1
  ∧ (length st.1 + length st.2 = length seen)%nat
  ∧ (∀ i e, (i, e) ∈ st.1 → e ∈ seen ∧ resolved_index e = Some i)
  ∧ (∀ e i, e ∈ seen → resolved_index e = Some i → i ∈ (st.1).*1).

Lemma matched_get_Some i m e : matched_get i m = Some e → (i, e) ∈ m.
Proof.
  induction m as [|[j e'] m IH]; simpl; [done|]. destruct (Nat.eqb_spec i j) as [->|].
  - intros [= ->]. by left.
  - right. auto.
Qed.

Lemma matched_get_None i m : matched_get i m = None ↔ i ∉ m.*1.
Proof.
  induction m as [|[j e'] m IH]; csimpl.
  - split; [intros _ H; by apply elem_of_nil in H|done].
  - rewrite not_elem_of_cons. destruct (Nat.eqb_spec i j) as [->|]; naive_solver.
Qed.

Lemma match_entry_inv seen st e :
  match_inv seen st → match_inv (seen ++ [e]) (match_entry accepted st e).
Proof.
  destruct st as [m u]. intros (Hnd & Hlen & Hin & Hall). unfold match_entry.
  fold (resolved_index e). destruct (resolved_index e) as [i|] eqn:Hr.
  - destruct (matched_get i m) as [e0|] eqn:Hg; cbn [is_Some_b].
    + split_and!; cbn [fst snd] in *.
      * done.
      * rewrite !length_app. simpl. lia.
      * intros j e' H. destruct (Hin j e' H). split; [|done]. apply elem_of_app. by left.
      * intros e' j [H| ->%list_elem_of_singleton]%elem_of_app Hj; [by eapply Hall|].
        rewrite Hr in Hj. injection Hj as <-.
        apply matched_get_Some in Hg. apply list_elem_of_fmap. by exists (i, e0).
    + apply matched_get_None in Hg. split_and!; cbn [fst snd] in *.
      * rewrite fmap_app. apply NoDup_app. split; [done|]. split.
        -- intros j Hj ->%list_elem_of_singleton. done.
        -- apply NoDup_singleton.
      * rewrite !length_app. simpl. lia.
      * intros j e' [H|H%list_elem_of_singleton]%elem_of_app; cycle 1.
        { injection H as -> ->. split; [apply elem_of_app; right; by left|done]. }
        destruct (Hin j e' H). split; [|done]. apply elem_of_app. by left.
      * intros e' j [H| ->%list_elem_of_singleton]%elem_of_app Hj; rewrite fmap_app;
          apply elem_of_app; [left; by eapply Hall|right].
        rewrite Hr in Hj. injection Hj as <-. by left.
  - split_and!; cbn [fst snd] in *.
    + done.
    + rewrite !length_app. simpl. lia.
    + intros j e' H. destruct (Hin j e' H). split; [|done]. apply elem_of_app. by left.
    + intros e' j [H| ->%list_elem_of_singleton]%elem_of_app Hj; [by eapply Hall|]. congruence.
Qed.

Lemma match_fold_inv adjs seen st :
  match_inv seen st → match_inv (seen ++ adjs) (foldl (match_entry accepted) st adjs).
Proof.
  revert seen st. induction adjs as [|e adjs IH]; intros seen st H; simpl.
  - by rewrite app_nil_r.
  - change (e :: adjs) with ([e] ++ adjs). rewrite app_assoc. by apply IH, match_entry_inv.
Qed.

Lemma match_adjudications_inv adjs :
  match_inv adjs (_match_adjudications accepted adjs).
Proof.
  apply (match_fold_inv adjs [] ([], [])). split_and!; try done; [constructor| |].
  - intros i e H. by apply elem_of_nil in H.
  - intros e i H. by apply elem_of_nil in H.
Qed.

Lemma undecided_iff adjs i :
  matched_get i (_match_adjudications accepted adjs).1 = None
  ↔ ∀ e, e ∈ adjs → ¬ decides e i.
Proof.
  destruct (match_adjudications_inv adjs) as (_ & _ & Hin & Hall).
  rewrite matched_get_None. split.
  - intros Hn e He Hd%resolve_decides. by eapply Hn, Hall.
  - intros H ([j e] & -> & Hje)%list_elem_of_fmap. destruct (Hin j e Hje) as [He Hr].
    eapply H; [done|]. by apply resolve_decides.
Qed.
End Matching.

(** ** The stamped findings *)

Lemma imap_filter_length {X Y} (f : nat → X → Y) (P : Y → Prop) `{∀ y, Decision (P y)}
  (Q : nat → Prop) `{∀ i, Decision (Q i)} (xs : list X) k :
  (∀ i x, xs !! i = Some x → P (f i x) ↔ Q (k + i)) →
  length (filter P (imap f xs)) = length (filter Q (seq k (length xs))).
Proof.
  revert f k. induction xs as [|x xs IH]; intros f k Hf; [done|].
  pose proof (Hf 0 x eq_refl) as Hx. rewrite Nat.add_0_r in Hx. cbn [imap length seq].
  rewrite !filter_cons. specialize (IH (f ∘ S) (S k)).
  assert (length (filter P (imap (f ∘ S) xs)) = length (filter Q (seq (S k) (length xs)))).
  { apply IH. intros i y Hi. rewrite Nat.add_succ_l, <- Nat.add_succ_r. by apply (Hf (S i)). }
  destruct (decide (P (f 0 x))), (decide (Q k)); cbn [length]; tauto || lia.
Qed.

Lemma contested_not_dropped f d s : contested_disposition f = Some (d, s) → d ≠ d_dropped.
Proof.
  unfold contested_disposition. repeat case_match; intros [= <- _]; done.
Qed.

Lemma stamp_dropped af oe :
  (_stamp af oe).(af_disposition) = d_dropped ↔ oe = None.
Proof.
  unfold _stamp. destruct oe as [e|]; [|done].
  destruct (contested_disposition _) as [[d s]|] eqn:E.
  - apply contested_not_dropped in E. cbn. naive_solver.
  - cbn. by destruct (a_outcome e).
Qed.

Lemma stamp_keeps af oe :
  (_stamp af oe).(af_finding) = af.(af_finding)
  ∧ (_stamp af oe).(af_reviewers) = af.(af_reviewers)
  ∧ (_stamp af oe).(af_in_plan_scope) = af.(af_in_plan_scope).
Proof. unfold _stamp. by repeat case_match. Qed.

Lemma apply_accepted verdict adjs :
  (apply_adjudication verdict adjs).(v_accepted)
  = imap (λ i af, _stamp af (matched_get i (_match_adjudications verdict.(v_accepted) adjs).1))
      verdict.(v_accepted).
Proof. unfold apply_adjudication. by destruct (_match_adjudications _ _). Qed.

Lemma apply_must_fix verdict adjs :
  (apply_adjudication verdict adjs).(v_must_fix)
  = map af_finding (filter (λ af, undecided_must_fix af = true)
      (apply_adjudication verdict adjs).(v_accepted))
  ∧ (apply_adjudication verdict adjs).(v_blocking)
    = negb (bool_decide (length (apply_adjudication verdict adjs).(v_must_fix) = 0)).
Proof. unfold apply_adjudication. by destruct (_match_adjudications _ _). Qed.

Lemma decided_count accepted adjs :
  length (filter (λ af, af.(af_disposition) ≠ d_dropped)
            (imap (λ i af, _stamp af (matched_get i (_match_adjudications accepted adjs).1))
               accepted))
  = length (_match_adjudications accepted adjs).1.
Proof.
  destruct (match_adjudications_inv accepted adjs) as (Hnd & _ & Hin & _).
  set (m := (_match_adjudications accepted adjs).1) in *.
  rewrite (imap_filter_length _ _ (λ i, i ∈ m.*1) accepted 0).
  - rewrite <- (length_fmap fst m). apply Permutation_length, NoDup_Permutation;
      [apply NoDup_filter, NoDup_seq|done|].
    intros i. rewrite list_elem_of_filter, elem_of_seq. split; [tauto|]. intros Hi. split; [done|].
    apply list_elem_of_fmap in Hi as ([j e] & -> & Hje). destruct (Hin j e Hje) as [_ Hr].
    apply resolve_decides in Hr as [(af & Ha & _) _]. apply lookup_lt_Some in Ha. cbn. lia.
  - intros i af _. rewrite stamp_dropped, Nat.add_0_l, matched_get_None.
    split; [|tauto]. intros H. by destruct (decide (i ∈ m.*1)).
Qed.

Lemma length_pos_elem {X} (xs : list X) :
  negb (bool_decide (length xs = 0)) = true ↔ ∃ x, x ∈ xs.
Proof.
  rewrite negb_true_iff, bool_decide_eq_false. split.
  - destruct xs as [|x xs]; [done|]. exists x. by left.
  - intros [x Hx] H. apply nil_length_inv in H as ->. by apply elem_of_nil in Hx.
Qed.

Lemma undecided_must_fix_true af :
  undecided_must_fix af = true
  ↔ af.(af_finding).(f_severity) = MUST_FIX ∧ af.(af_disposition) = d_dropped.
Proof.
  unfold undecided_must_fix, has_severity. rewrite andb_true_iff, bool_decide_eq_true.
  by rewrite String.eqb_eq.
Qed.

(** C25: Adjudication decides each finding from at most one entry and spends each
    entry on at most one finding: the entries no finding used are counted, a
    finding reads as undecided exactly when no entry names it unambiguously,
    and the verdict blocks exactly on an undecided MUST_FIX.  The text of the
    findings and the counts frozen at the first round stay as they were. *)
Theorem adjudication_gate verdict adjs :
  let v := apply_adjudication verdict adjs in
  (∀ i af, verdict.(v_accepted) !! i = Some af → ∃ af', v.(v_accepted) !! i = Some af'
     ∧ af'.(af_finding) = af.(af_finding) ∧ af'.(af_reviewers) = af.(af_reviewers)
     ∧ (af'.(af_disposition) = d_dropped
        ↔ ∀ e, e ∈ adjs → ¬ decides verdict.(v_accepted) e i))
  ∧ (v.(v_blocking) = true
     ↔ ∃ i af, verdict.(v_accepted) !! i = Some af ∧ af.(af_finding).(f_severity) = MUST_FIX
         ∧ ∀ e, e ∈ adjs → ¬ decides verdict.(v_accepted) e i)
  ∧ (v.(v_unmatched_adjudication_count)
     + Z.of_nat (length (filter (λ af, af.(af_disposition) ≠ d_dropped) v.(v_accepted)))
     = Z.of_nat (length adjs))%Z
  ∧ v.(v_review) = verdict.(v_review) <| rv_deferred := v.(v_review).(rv_deferred) |>.
Proof.
  cbv zeta. destruct (apply_must_fix verdict adjs) as [Hmf Hbl].
  rewrite Hbl, length_pos_elem, Hmf, apply_accepted. split_and!.
  - intros i af Hi. eexists. split; [by rewrite list_lookup_imap, Hi|].
    pose proof (stamp_keeps af
      (matched_get i (_match_adjudications (v_accepted verdict) adjs).1)) as (H1 & H2 & _).
    split_and!; [done..|]. by rewrite stamp_dropped, undecided_iff.
  - split.
    + intros (x & (af' & -> & [[Hs Hd]%undecided_must_fix_true
        Haf']%list_elem_of_filter)%list_elem_of_fmap).
      apply list_elem_of_lookup in Haf' as [i Hi]. rewrite list_lookup_imap in Hi.
      destruct (v_accepted verdict !! i) as [af|] eqn:E; [|done]. injection Hi as <-.
      rewrite stamp_dropped, undecided_iff in Hd.
      destruct (stamp_keeps af (matched_get i (_match_adjudications (v_accepted verdict) adjs).1))
        as (H1 & _). rewrite H1 in Hs. eauto.
    + intros (i & af & Hi & Hs & Hd). rewrite <- undecided_iff in Hd.
      eexists. apply list_elem_of_fmap. eexists. split; [done|]. apply list_elem_of_filter.
      split; cycle 1.
      * apply list_elem_of_lookup. exists i. by rewrite list_lookup_imap, Hi.
      * apply undecided_must_fix_true. rewrite stamp_dropped. split; [|done].
        by destruct (stamp_keeps af
          (matched_get i (_match_adjudications (v_accepted verdict) adjs).1)) as (-> & _).
  - rewrite decided_count. destruct (match_adjudications_inv (v_accepted verdict) adjs)
      as (_ & Hlen & _). unfold apply_adjudication.
    destruct (_match_adjudications _ _) as [m u]. cbn in *. lia.
  - unfold apply_adjudication. by destruct (_match_adjudications _ _).
Qed.

(** ** Voided findings *)

(** The void that suppresses a finding: the first of its fingerprint. *)
Definition first_void (voided : list VoidedFinding) (k : fprint) : option VoidedFinding :=
  head (filter (λ e, _entry_fingerprint e = k) voided).

Lemma setdefault_lookup voided m k :
  foldl setdefault_void m voided !! k
  = match m !! k with Some e => Some e | None => first_void voided k end.
Proof.
  revert m. induction voided as [|e voided IH]; intros m; simpl.
  { by destruct (m !! k). }
  rewrite IH. unfold first_void at 2. rewrite filter_cons. unfold setdefault_void.
  destruct (decide (_entry_fingerprint e = k)) as [<-|Hk].
  - destruct (m !! _entry_fingerprint e) as [e0|] eqn:E; [by rewrite E|].
    by rewrite lookup_insert_eq.
  - assert (Heq : (match m !! _entry_fingerprint e with
                   | Some _ => m | None => <[_entry_fingerprint e:=e]> m end) !! k = m !! k).
    { destruct (m !! _entry_fingerprint e); [done|]. by rewrite lookup_insert_ne. }
    by rewrite Heq.
Qed.

Lemma voided_match_lookup accepted voided i :
  find_voided_matches accepted voided !! i
  = accepted !! i ≫= λ af, first_void voided (finding_fingerprint af.(af_finding)).
Proof.
  unfold find_voided_matches. case_bool_decide as Hv.
  { subst. rewrite lookup_empty. by destruct (accepted !! i). }
  rewrite lookup_omap, lookup_map_seq_0. destruct (accepted !! i) as [af|]; [|done]. cbn.
  by rewrite setdefault_lookup, lookup_empty.
Qed.

Lemma first_void_fingerprint voided k e :
  first_void voided k = Some e → e ∈ voided ∧ _entry_fingerprint e = k.
Proof.
  unfold first_void. intros H. apply head_Some_elem_of, list_elem_of_filter in H. tauto.
Qed.

(** What suppression does to each finding. *)
Definition suppressed (verdict : ReviewVerdict) (voided : list VoidedFinding) : ReviewVerdict :=
  (apply_voided_suppression verdict voided "").1.1.

Lemma suppression_ticket verdict voided t :
  (apply_voided_suppression verdict voided t).1.1 = suppressed verdict voided
  ∧ (apply_voided_suppression verdict voided t).1.2
    = (apply_voided_suppression verdict voided "").1.2.
Proof. unfold suppressed, apply_voided_suppression. by case_bool_decide. Qed.

Lemma suppressed_lookup verdict voided i :
  (suppressed verdict voided).(v_accepted) !! i
  = (λ af, suppress af (first_void voided (finding_fingerprint af.(af_finding))))
      <$> verdict.(v_accepted) !! i.
Proof.
  unfold suppressed, apply_voided_suppression. cbv zeta. case_bool_decide as Hm.
  - pose proof (voided_match_lookup (v_accepted verdict) voided i) as H.
    rewrite Hm, lookup_empty in H. cbn [fst].
    destruct (v_accepted verdict !! i) as [af|]; [|done]. cbn in H |- *. by rewrite <- H.
  - cbn [fst set_must_fix v_accepted]. change (v_accepted (set_must_fix ?v ?a ?m)) with a.
    rewrite list_lookup_imap.
    destruct (v_accepted verdict !! i) as [af|] eqn:E; [|done]. cbn.
    by rewrite voided_match_lookup, E.
Qed.

Lemma suppressions_elem accepted voided af e :
  (af, e) ∈ suppressions accepted (find_voided_matches accepted voided)
  ↔ af ∈ accepted ∧ first_void voided (finding_fingerprint af.(af_finding)) = Some e.
Proof.
  unfold suppressions. rewrite list_elem_of_omap. split.
  - intros (x & [i Hi]%list_elem_of_lookup & Hx). rewrite list_lookup_imap in Hi.
    destruct (accepted !! i) as [af'|] eqn:E; [|done]. injection Hi as <-. cbn in Hx.
    rewrite voided_match_lookup, E in Hx. cbn in Hx.
    destruct (first_void _ _) as [e'|] eqn:Ev; [|done]. injection Hx as -> ->.
    split; [by eapply list_elem_of_lookup_2|done].
  - intros [[i Hi]%list_elem_of_lookup Hv]. exists (Some (af, e)). split; [|done].
    apply list_elem_of_lookup. exists i. rewrite list_lookup_imap, Hi. cbn.
    rewrite voided_match_lookup, Hi. cbn. by rewrite Hv.
Qed.

Lemma suppress_finding af oe : (suppress af oe).(af_finding) = af.(af_finding).
Proof. by destruct oe. Qed.

Lemma no_match_no_void verdict voided af :
  find_voided_matches verdict.(v_accepted) voided = ∅ → af ∈ verdict.(v_accepted) →
  first_void voided (finding_fingerprint af.(af_finding)) = None.
Proof.
  intros Hm [i Hi]%list_elem_of_lookup.
  pose proof (voided_match_lookup (v_accepted verdict) voided i) as H.
  by rewrite Hm, lookup_empty, Hi in H.
Qed.

Lemma suppressed_must_fix verdict voided :
  find_voided_matches verdict.(v_accepted) voided ≠ ∅ →
  ∀ f, f ∈ (suppressed verdict voided).(v_must_fix) ↔
    ∃ af, af ∈ verdict.(v_accepted) ∧ af.(af_finding) = f ∧ f.(f_severity) = MUST_FIX
      ∧ first_void voided (finding_fingerprint f) = None.
Proof.
  intros Hm f. unfold suppressed, apply_voided_suppression. cbv zeta.
  rewrite bool_decide_false by done. cbn [fst].
  change (v_must_fix (set_must_fix ?v ?a ?m)) with m. rewrite list_elem_of_omap. split.
  - intros (x & [i Hi]%list_elem_of_lookup & Hx). rewrite !list_lookup_imap in Hi.
    destruct (v_accepted verdict !! i) as [af|] eqn:E; [|done]. injection Hi as <-.
    unfold kept_must_fix, has_severity, id in Hx. rewrite suppress_finding in Hx.
    rewrite voided_match_lookup, E in Hx. cbn in Hx. destruct (String.eqb_spec
      (f_severity (af_finding af)) MUST_FIX) as [Hs|]; [|done]. cbn in Hx.
    destruct (first_void _ _) eqn:Ev; [done|]. injection Hx as <-.
    exists af. split; [by eapply list_elem_of_lookup_2|done].
  - intros (af & [i Hi]%list_elem_of_lookup & <- & Hs & Hv).
    exists (Some (af_finding af)). split; [|done]. apply list_elem_of_lookup. exists i.
    rewrite !list_lookup_imap, Hi. cbn. unfold kept_must_fix, has_severity.
    rewrite suppress_finding, Hs, voided_match_lookup, Hi. cbn. by rewrite Hv.
Qed.

Lemma suppressions_count accepted voided :
  length (suppressions accepted (find_voided_matches accepted voided))
  = length (filter (λ af, is_Some (first_void voided (finding_fingerprint af.(af_finding))))
              accepted).
Proof.
  unfold suppressions.
  enough (∀ k (m : gmap nat VoidedFinding), (∀ i, accepted !! i ≫= (λ af, first_void voided
      (finding_fingerprint (af_finding af))) = m !! (k + i)) →
    length (omap id (imap (λ i af, pair af <$> m !! (k + i)) accepted))
    = length (filter (λ af, is_Some (first_void voided (finding_fingerprint (af_finding af))))
        accepted)) as H.
  { apply (H 0). intros i. by rewrite voided_match_lookup. }
  induction accepted as [|af accepted IH]; intros k m Hm; [done|].
  cbn [imap]. rewrite filter_cons. pose proof (Hm 0) as H0. cbn in H0.
  cbn [omap list_omap]. rewrite <- H0.
  assert (Hrest : length (omap id (imap ((λ i af0, pair af0 <$> m !! (k + i)) ∘ S) accepted))
    = length (filter (λ af, is_Some (first_void voided (finding_fingerprint (af_finding af))))
        accepted)).
  { rewrite <- (IH (S k) m).
    - f_equal. f_equal. apply imap_ext. intros i x _. cbn. by rewrite Nat.add_succ_r.
    - intros i. rewrite Nat.add_succ_l, <- Nat.add_succ_r. apply (Hm (S i)). }
  destruct (first_void _ _) as [e|] eqn:Ev; cbn.
  - rewrite decide_True by eauto. cbn. by f_equal.
  - rewrite decide_False by (intros [? ?]; done). done.
Qed.

(** The rationale text starts with a letter, so no void's decision is refused. *)
Lemma is_blank_first c s :
  is_space c = false → starts_cont s = false → is_blank (String c s) = false.
Proof.
  intros Hc Hs. unfold is_blank. change (String c s) with ((String c "") +:+ s).
  rewrite chars_app by done. by cbn; rewrite Hc.
Qed.

Lemma voided_adjudication_valid af e :
  validate_Adjudication (_voided_adjudication af e) = inr (_voided_adjudication af e).
Proof.
  unfold validate_Adjudication, _check_rationale_recorded. cbn [a_rationale a_outcome
    _voided_adjudication]. rewrite (bool_decide_false (o_reject = o_fix)) by done.
  unfold _voided_rationale, VOIDED_RATIONALE_PREFIX. rewrite !sapp_cons.
  by rewrite is_blank_first.
Qed.

(** Suppression stamps exactly the findings whose content an operator voided,
    wherever their lines moved, with the first such void's rationale; it
    returns one valid decision and records one event for each.  With nothing
    to suppress the verdict is returned as it came; otherwise it blocks
    exactly on the MUST_FIX findings no void covers. *)
Theorem voided_suppression_exact verdict voided ticket :
  let '(v, adjudications, events) := apply_voided_suppression verdict voided ticket in
  (∀ i, v.(v_accepted) !! i
     = (λ af, suppress af (first_void voided (finding_fingerprint af.(af_finding))))
         <$> verdict.(v_accepted) !! i)
  ∧ length adjudications
    = length (filter (λ af, is_Some (first_void voided (finding_fingerprint af.(af_finding))))
                verdict.(v_accepted))
  ∧ length events = length adjudications
  ∧ (∀ a, a ∈ adjudications → validate_Adjudication a = inr a)
  ∧ (if bool_decide (adjudications = []) then v = verdict
     else v.(v_blocking) = true
       ↔ ∃ af, af ∈ verdict.(v_accepted) ∧ af.(af_finding).(f_severity) = MUST_FIX
           ∧ first_void voided (finding_fingerprint af.(af_finding)) = None).
Proof.
  pose proof (suppressed_lookup verdict voided) as Hlook.
  pose proof (suppressed_must_fix verdict voided) as Hmf.
  pose proof (suppressions_count (v_accepted verdict) voided) as Hcount.
  pose proof (λ i, voided_match_lookup (v_accepted verdict) voided i) as Hmatch.
  unfold suppressed, apply_voided_suppression in *. cbv zeta in *.
  case_bool_decide as Hm; cbn [fst snd] in *.
  - split_and!; [done| |done|by intros a Ha%elem_of_nil|by rewrite bool_decide_true].
    rewrite <- Hcount. unfold suppressions. rewrite Hm. clear.
    generalize (v_accepted verdict) as xs. intros xs.
    assert (∀ (f : nat → AcceptedFinding → option (AcceptedFinding * VoidedFinding)),
      (∀ i x, f i x = None) → length (omap id (imap f xs)) = 0) as H.
    { induction xs as [|x xs IH]; intros f Hf; [done|]. cbn [imap omap list_omap].
      unfold id at 1. rewrite Hf. apply IH. intros i y. apply Hf. }
    rewrite H; [done|]. intros i x. by rewrite lookup_empty.
  - split_and!; [done|by rewrite length_map|by rewrite !length_map| |].
    + intros a (h & -> & _)%list_elem_of_fmap. apply voided_adjudication_valid.
    + rewrite bool_decide_false; cycle 1.
      { intros Hnil%map_eq_nil. apply Hm, map_empty. intros i. rewrite Hmatch.
        destruct (v_accepted verdict !! i) as [af|] eqn:E; [cbn|done].
        destruct (first_void _ _) as [e|] eqn:Ev; [|done].
        assert ((af, e) ∈ suppressions (v_accepted verdict)
          (find_voided_matches (v_accepted verdict) voided)) as Hin.
        { apply suppressions_elem. split; [by eapply list_elem_of_lookup_2|done]. }
        rewrite Hnil in Hin. by apply elem_of_nil in Hin. }
      change (v_blocking (set_must_fix ?v ?a ?m)) with (negb (bool_decide (length m = 0))).
      rewrite length_pos_elem. specialize (Hmf Hm). split.
      * intros (f & Hf%Hmf). naive_solver.
      * intros (af & Hin & Hs & Hv). exists (af_finding af). apply Hmf. eauto.
Qed.

(** ** Suppression and adjudication together *)

Lemma dedup_location f g :
  _dedup_key f = _dedup_key g ↔ _finding_key f = _finding_key g ∧ f.(f_evidence) = g.(f_evidence).
Proof. unfold _dedup_key, _finding_key, _location_key. naive_solver congruence. Qed.

Lemma voided_decides accepted i af e :
  NoDup (map (λ af, _dedup_key af.(af_finding)) accepted) →
  accepted !! i = Some af → decides accepted (_voided_adjudication af e) i.
Proof.
  intros Hnd Hi. assert (Hloc : located accepted (_voided_adjudication af e) i)
    by (exists af; done).
  split; [done|]. right. split.
  - split; [done|]. unfold quotes. rewrite Hi. by apply String.eqb_eq.
  - intros j [(af' & Hj & Hk) Hq]. unfold quotes in Hq. rewrite Hj in Hq.
    apply String.eqb_eq in Hq. eapply NoDup_lookup; [done| |].
    + change (map ?f ?xs !! j) with ((f <$> xs) !! j). rewrite list_lookup_fmap, Hj. done.
    + change (map ?f ?xs !! i) with ((f <$> xs) !! i). rewrite list_lookup_fmap, Hi. cbn.
      f_equal. symmetry. by apply dedup_location.
Qed.

Lemma decides_findings accepted accepted' e i :
  map af_finding accepted = map af_finding accepted' → decides accepted e i →
  decides accepted' e i.
Proof.
  intros H.
  assert (Hl : ∀ j, af_finding <$> accepted !! j = af_finding <$> accepted' !! j).
  { intros j. rewrite <- !list_lookup_fmap. by apply (f_equal (λ xs, xs !! j)) in H. }
  assert (Hloc : ∀ j, located accepted e j ↔ located accepted' e j).
  { intros j. unfold located. specialize (Hl j).
    destruct (accepted !! j) as [a|], (accepted' !! j) as [b|]; cbn in Hl; try done.
    injection Hl as Hl.
    split; intros (x & [= <-] & Hx); eexists; (split; [done|]); congruence. }
  assert (Hq : ∀ j, quotes e accepted j = quotes e accepted' j).
  { intros j. unfold quotes. specialize (Hl j).
    destruct (accepted !! j) as [a|], (accepted' !! j) as [b|]; cbn in Hl; try done.
    injection Hl as Hl. by rewrite Hl. }
  unfold decides, quoted_by. setoid_rewrite Hloc. by setoid_rewrite Hq.
Qed.

Lemma matched_get_app i m j e :
  matched_get i (m ++ [(j, e)])
  = match matched_get i m with
    | Some x => Some x
    | None => if Nat.eqb i j then Some e else None
    end.
Proof. induction m as [|[k x] m IH]; [done|]. cbn. by destruct (Nat.eqb i k). Qed.

(** A finding is decided by the first entry that names it. *)
Lemma matched_get_first accepted adjs st i :
  matched_get i (foldl (match_entry accepted) st adjs).1
  = match matched_get i st.1 with
    | Some e => Some e
    | None => head (filter (λ e, resolved_index accepted e = Some i) adjs)
    end.
Proof.
  revert st. induction adjs as [|e adjs IH]; intros [m u]; [by cbn; destruct (matched_get i m)|].
  cbn [foldl]. rewrite IH, filter_cons. unfold match_entry. fold (resolved_index accepted e).
  destruct (resolved_index accepted e) as [j|] eqn:Hr; cbn [fst].
  - destruct (matched_get j m) as [e0|] eqn:Hj; cbn [is_Some_b fst].
    + destruct (matched_get i m) eqn:Hi; [done|].
      rewrite decide_False; [done|]. intros [= ->]. congruence.
    + rewrite matched_get_app. destruct (matched_get i m) eqn:Hi; [done|].
      destruct (Nat.eqb_spec i j) as [->|Hij]; [by rewrite decide_True|].
      rewrite decide_False; [done|congruence].
  - destruct (matched_get i m); [done|]. by rewrite decide_False.
Qed.

Lemma decides_unique accepted e i j : decides accepted e i → decides accepted e j → i = j.
Proof. rewrite <- !resolve_decides. congruence. Qed.

Section Survives.
Context (verdict : ReviewVerdict) (voided : list VoidedFinding).
Context (Hnd : NoDup (map (λ af, _dedup_key af.(af_finding)) verdict.(v_accepted))).

Let v := suppressed verdict voided.
Let decisions := (apply_voided_suppression verdict voided "").1.2.

Lemma suppressed_findings : map af_finding verdict.(v_accepted) = map af_finding v.(v_accepted).
Proof.
  apply list_eq. intros i. change (map ?f ?xs !! i) with ((f <$> xs) !! i).
  rewrite !list_lookup_fmap. unfold v. rewrite suppressed_lookup.
  destruct (v_accepted verdict !! i); [|done]. cbn. by rewrite suppress_finding.
Qed.

Lemma decisions_elem a :
  a ∈ decisions → ∃ i af e, verdict.(v_accepted) !! i = Some af
    ∧ first_void voided (finding_fingerprint af.(af_finding)) = Some e
    ∧ a = _voided_adjudication af e.
Proof.
  unfold decisions, apply_voided_suppression. cbv zeta. case_bool_decide as Hm; cbn [fst snd].
  { by intros Hn%elem_of_nil. }
  intros ([af e] & -> & [[i Hi]%list_elem_of_lookup He]%suppressions_elem)%list_elem_of_fmap.
  by exists i, af, e.
Qed.

Lemma decision_of i af e :
  verdict.(v_accepted) !! i = Some af →
  first_void voided (finding_fingerprint af.(af_finding)) = Some e →
  _voided_adjudication af e ∈ decisions.
Proof.
  intros Hi He. unfold decisions, apply_voided_suppression. cbv zeta. case_bool_decide as Hm.
  - rewrite (no_match_no_void verdict voided af Hm) in He; [done|by eapply list_elem_of_lookup_2].
  - cbn [fst snd]. apply list_elem_of_fmap. exists (af, e). split; [done|].
    apply suppressions_elem. split; [by eapply list_elem_of_lookup_2|done].
Qed.

(** The entry that decides a voided finding after suppression. *)
Lemma voided_entry adjs i af e :
  verdict.(v_accepted) !! i = Some af →
  first_void voided (finding_fingerprint af.(af_finding)) = Some e →
  ∃ a, head (filter (λ a, resolved_index v.(v_accepted) a = Some i) (adjs ++ decisions)) = Some a
    ∧ (a ∈ adjs ∧ decides verdict.(v_accepted) a i ∨ a = _voided_adjudication af e).
Proof.
  intros Hi He.
  assert (Hdec : ∀ a j, resolved_index (v_accepted v) a = Some j
                        ↔ decides (v_accepted verdict) a j).
  { intros a j. rewrite resolve_decides.
    split; apply decides_findings; by rewrite suppressed_findings. }
  destruct (head (filter _ (adjs ++ decisions))) as [a|] eqn:Hhd.
  - exists a. split; [done|]. apply head_Some_elem_of, list_elem_of_filter in Hhd as [Hr Ha].
    apply Hdec in Hr. apply elem_of_app in Ha as [Ha|Ha]; [by left|right].
    apply decisions_elem in Ha as (j & af' & e' & Hj & He' & ->).
    assert (i = j) as <- by (eapply decides_unique; [exact Hr|by apply voided_decides]).
    congruence.
  - exfalso. destruct (filter _ (adjs ++ decisions)) as [|x xs] eqn:Hf; [|done].
    assert (_voided_adjudication af e ∈ filter (λ a, resolved_index v.(v_accepted) a = Some i)
      (adjs ++ decisions)) as Hin.
    { apply list_elem_of_filter. split; [by apply Hdec, voided_decides|].
      apply elem_of_app. right. by eapply decision_of. }
    rewrite Hf in Hin. by apply elem_of_nil in Hin.
Qed.
End Survives.

(** A finding an operator voided stays decided through adjudication: on a
    verdict merged by key, the decisions suppression returns each name their
    own finding, so the finding never comes back as undecided, whatever the
    adjudicator wrote, and it is rejected with the void's rationale unless an
    earlier entry names it or it contests a decided constraint. *)
Theorem suppression_survives_adjudication verdict voided ticket adjs i af e :
  NoDup (map (λ af, _dedup_key af.(af_finding)) verdict.(v_accepted)) →
  verdict.(v_accepted) !! i = Some af →
  first_void voided (finding_fingerprint af.(af_finding)) = Some e →
  let '(v, decisions, _) := apply_voided_suppression verdict voided ticket in
  ∃ af', (apply_adjudication v (adjs ++ decisions)).(v_accepted) !! i = Some af'
    ∧ af'.(af_disposition) ≠ d_dropped
    ∧ ((∀ a, a ∈ adjs → ¬ decides verdict.(v_accepted) a i) →
       contested_disposition af.(af_finding) = None →
       af'.(af_disposition) = d_rejected ∧ af'.(af_disposition_detail) = _voided_rationale e).
Proof.
  intros Hnd Hi He. destruct (suppression_ticket verdict voided ticket) as [Hv Hd].
  destruct (apply_voided_suppression verdict voided ticket) as [[v decisions] evs].
  cbn [fst snd] in Hv, Hd. subst v decisions.
  destruct (voided_entry verdict voided Hnd adjs i af e Hi He) as (a & Ha & Hor).
  eexists. split.
  { rewrite apply_accepted, list_lookup_imap, suppressed_lookup, Hi. cbn [fmap option_fmap
      option_map]. rewrite He. unfold _match_adjudications. rewrite matched_get_first. cbn [fst matched_get].
    by rewrite Ha. }
  split; [by rewrite stamp_dropped|].
  intros Hno Hc. destruct Hor as [[Hin Hdec]| ->]; [by destruct (Hno a Hin)|].
  unfold _stamp. rewrite suppress_finding, Hc. done.
Qed.

(** ** Claimed fixes *)

Section Fixes.
Context {A : PyAst} {F : RepoFiles}.

Lemma downgraded_not_unfounded fix_diff af :
  claim_unfounded fix_diff (if claim_unfounded fix_diff af then downgraded_finding af else af)
  = false.
Proof. destruct (claim_unfounded fix_diff af) eqn:E; [done|exact E]. Qed.

(** A claimed fix stands exactly when the fix diff bears it out: every
    finding still marked fixed is substantiated, every other one keeps its
    disposition, each downgrade is counted and recorded once, the gate fields
    are untouched, and checking again downgrades nothing. *)
Theorem fixed_dispositions_verified verdict fix_diff ticket :
  let '(v, events) := verify_fixed_dispositions verdict fix_diff ticket in
  (∀ i af, verdict.(v_accepted) !! i = Some af → ∃ af', v.(v_accepted) !! i = Some af'
     ∧ af'.(af_finding) = af.(af_finding)
     ∧ (af'.(af_disposition) = d_fixed ↔ af.(af_disposition) = d_fixed
          ∧ _fix_is_substantiated af.(af_finding) fix_diff = true)
     ∧ (af.(af_disposition) ≠ d_fixed → af' = af))
  ∧ v.(v_downgraded_disposition_count) = Z.of_nat (length events)
  ∧ v.(v_must_fix) = verdict.(v_must_fix) ∧ v.(v_blocking) = verdict.(v_blocking)
  ∧ (let '(v2, events2) := verify_fixed_dispositions v fix_diff ticket in
     v2.(v_accepted) = v.(v_accepted) ∧ events2 = []).
Proof.
  unfold verify_fixed_dispositions. cbv zeta. split_and!; [|by rewrite length_map|done|done| |].
  - intros i af Hi. eexists. split.
    { change (v_accepted (?v <| v_review := _ |>)) with (v_accepted v). cbn.
      change (map ?f ?xs !! i) with ((f <$> xs) !! i). by rewrite list_lookup_fmap, Hi. }
    unfold claim_unfounded. split; [by case_match|].
    destruct (decide (af_disposition af = d_fixed)) as [H|H].
    + rewrite bool_decide_true by done. cbn [andb].
      destruct (_fix_is_substantiated _ _) eqn:E; cbn; rewrite ?H; naive_solver.
    + rewrite bool_decide_false by done. cbn. naive_solver.
  - cbn. rewrite map_map. apply map_ext. intros af. by rewrite downgraded_not_unfounded.
  - cbn. match goal with |- map _ (filter _ ?l) = [] => enough (filter
      (λ af, claim_unfounded fix_diff af = true) l = []) as -> by done end.
    induction (v_accepted verdict) as [|af l IH]; [done|]. cbn [map].
    rewrite filter_cons, downgraded_not_unfounded, decide_False by done. exact IH.
Qed.
End Fixes.

(** Consolidation merges by key, so its verdicts meet the hypothesis of
    [suppression_survives_adjudication]. *)
Lemma consolidated_keys_NoDup `{PyAst, RepoFiles} docs diff sha worktree failed cycles metrics
    pre planned :
  NoDup (map (λ af, _dedup_key af.(af_finding))
    (consolidate_verdict docs diff sha worktree failed cycles metrics pre planned).(v_accepted)).
Proof.
  unfold consolidate_verdict. cbv zeta. cbn [v_accepted]. rewrite map_map.
  apply dedupe_keys_NoDup.
Qed.

(** ** The merged record *)

(** Merging keeps the prior record as it was, loses no new decision and is
    idempotent. *)
Lemma merge_deferred_spec prior new :
  (∃ rest, merge_deferred_adjudications prior new = prior ++ rest ∧ rest `sublist_of` new)
  ∧ (∀ e, e ∈ new → _deferred_merge_fingerprint e
       ∈ map _deferred_merge_fingerprint (merge_deferred_adjudications prior new))
  ∧ merge_deferred_adjudications (merge_deferred_adjudications prior new) new
    = merge_deferred_adjudications prior new.
Proof.
  unfold merge_deferred_adjudications. cbv zeta.
  assert (Hall : ∀ e, e ∈ new → _deferred_merge_fingerprint e ∈ map _deferred_merge_fingerprint
    (prior ++ filter (λ e, _deferred_merge_fingerprint e
                           ∉ map _deferred_merge_fingerprint prior) new)).
  { intros e He. rewrite map_app. apply elem_of_app.
    destruct (decide (_deferred_merge_fingerprint e ∈ map _deferred_merge_fingerprint prior));
      [by left|right]. apply list_elem_of_fmap. exists e. split; [done|].
    by apply list_elem_of_filter. }
  split_and!; [eexists; split; [done|apply sublist_filter]|done|].
  rewrite <- (app_nil_r (prior ++ _)) at 2. f_equal.
  match goal with |- ?l = [] => destruct l as [|x xs] eqn:E; [done|] end.
  assert (x ∈ x :: xs) as Hx by left. rewrite <- E in Hx.
  apply list_elem_of_filter in Hx as [Hn Hx]. by destruct (Hn (Hall x Hx)).
Qed.

(** ** Concrete inputs *)

Definition sample_af (summary evidence : string) (line : Z) : AcceptedFinding :=
  new_accepted_finding
    (mkFinding MUST_FIX "a.py" (Some line) None summary "c" "s" evidence HIGH None false false
       "" "" "" "" "") ["reviewer"].

Definition sample_void : VoidedFinding :=
  mkVoidedFinding MUST_FIX "a.py" "leaks  a handle" "open(p)" "42" "" "" "by design".

Definition sample_verdict : ReviewVerdict :=
  mkReviewVerdict true [] "sha" [sample_af "leaks a handle" "open(p)" 7;
    sample_af "no timeout" "get(u)" 7] [] [] (derive_review_counts [] 0 1 0 None None) [] [] [] 0 []
    0 None None [] true 0 0 None [] [] [] [].

(** Both findings sit on line 7; the operator voided the first.  The session's
    entry for the second one quotes neither, so it decides nothing. *)
Definition vague_entry : Adjudication :=
  mkAdjudication MUST_FIX "a.py" (Some 7%Z) None "" "" o_fix "" None "".

Lemma suppression_survives_adjudication_witness :
  let '(v, decisions, _) := apply_voided_suppression sample_verdict [sample_void] "T" in
  ∃ af', (apply_adjudication v ([vague_entry] ++ decisions)).(v_accepted) !! 0 = Some af'
    ∧ af'.(af_disposition) = d_rejected
    ∧ af'.(af_disposition_detail)
      = "suppressed: matches finding voided by operator comment 42 (date not recorded) — original rejection: by design"
    ∧ (apply_adjudication v ([vague_entry] ++ decisions)).(v_must_fix)
      = [(sample_af "no timeout" "get(u)" 7).(af_finding)].
Proof.
  pose proof (suppression_survives_adjudication sample_verdict [sample_void] "T" [vague_entry] 0
    (sample_af "leaks a handle" "open(p)" 7) sample_void) as H.
  specialize (H ltac:(apply (bool_decide_unpack _); vm_compute; exact I) eq_refl
                ltac:(vm_compute; reflexivity)).
  destruct (apply_voided_suppression _ _ _) as [[v ds] evs] eqn:E.
  vm_compute in E. injection E as <- <- <-.
  destruct H as (af' & Ha & _ & Hr). exists af'. split; [exact Ha|].
  destruct Hr as [H1 H2]; [|reflexivity|].
  - intros a ->%list_elem_of_singleton Hd. apply resolve_decides in Hd. vm_compute in Hd.
    discriminate Hd.
  - split; [exact H1|]. split; [rewrite H2; vm_compute; reflexivity|vm_compute; reflexivity].
Defined.
