(* ===== verification/ConvergenceModels.v ===== *)
(** * The converge-to-clean ledger

    [review_convergence/_models.py], [_identity.py] and [_backend.py]: the
    persisted state of one converge-to-clean review, its vocabulary and the
    identity of a finding.  A ledger is keyed by ticket and fork point; every
    engine function returns an updated copy.  List lengths and slice positions
    are [nat], counters and caps are [Z]. *)

From S2P Require Import Prelude PyStr PyText Markers ReviewModels TextMatch Findings Enums Tasks World Adjudication.
#[local] Open Scope cw_scope.

(** ** Vocabulary *)

(** Every kind a ledger can hold; [delta] is historical and never recorded. *)
Inductive RoundKind := k_loop | k_confirm | k_delta.

#[export] Instance RoundKind_eq_dec : EqDecision RoundKind.
Proof. solve_decision. Defined.

Definition RECORDABLE_ROUND_KINDS : list RoundKind := [k_loop; k_confirm].

Inductive ConfirmBackend := cb_codex | cb_claude | cb_none.

#[export] Instance ConfirmBackend_eq_dec : EqDecision ConfirmBackend.
Proof. solve_decision. Defined.

Definition backend_value (b : ConfirmBackend) : string :=
  match b with cb_codex => "codex" | cb_claude => "claude" | cb_none => "none" end.

Inductive LedgerStatus := in_progress | awaiting_confirm | converged | stopped.

#[export] Instance LedgerStatus_eq_dec : EqDecision LedgerStatus.
Proof. solve_decision. Defined.

Definition ledger_status_value (s : LedgerStatus) : string :=
  match s with
  | in_progress => "in_progress"
  | awaiting_confirm => "awaiting_confirm"
  | converged => "converged"
  | stopped => "stopped"
  end.

Inductive Decision :=
  | dec_clean
  | dec_continue
  | dec_confirm_required
  | dec_stop_not_converging
  | dec_stop_max_cycles
  | dec_stop_operator_action
  | dec_stop_confirm_unavailable
  | dec_stop_confirm_escalated.

#[export] Instance Decision_eq_dec : EqDecision Decision.
Proof. solve_decision. Defined.

Definition STOP_DECISIONS : list Decision :=
  [dec_stop_not_converging; dec_stop_max_cycles; dec_stop_operator_action;
   dec_stop_confirm_unavailable; dec_stop_confirm_escalated].

Inductive ReleaseCause :=
  new_commits | max_cycles_raised | operator_action_done | identities_settled.

#[export] Instance ReleaseCause_eq_dec : EqDecision ReleaseCause.
Proof. solve_decision. Defined.

Inductive TipReason :=
  no_clean_round | head_not_origin_tip | commits_after_clean_round | tip_check_fetch_failed.

#[export] Instance TipReason_eq_dec : EqDecision TipReason.
Proof. solve_decision. Defined.

Definition STOP_NO_PROGRESS : string := "no_progress".
Definition STOP_OSCILLATION : string := "oscillation".
Definition STOP_MAX_CYCLES : string := "max_cycles".
Definition STOP_OPERATOR_ACTION : string := "operator_action".

Definition STALL_WINDOW : nat := 2.
Definition STALL_NOISE_FLOOR : Z := 1.

(** ** Identity *)

Record FindingIdentity := mkFindingIdentity {
  id_severity : string;
  id_file : string;
  id_summary_normalized : string }.

#[export] Instance FindingIdentity_eq_dec : EqDecision FindingIdentity.
Proof. solve_decision. Defined.

#[export] Instance FindingIdentity_countable : Countable FindingIdentity.
Proof.
  refine (inj_countable' (λ i, (i.(id_severity), i.(id_file), i.(id_summary_normalized)))
            (λ t, mkFindingIdentity t.1.1 t.1.2 t.2) _).
  by intros [].
Defined.

Definition audit_key (i : FindingIdentity) : string :=
  i.(id_severity) +:+ "::" +:+ i.(id_file) +:+ "::" +:+ i.(id_summary_normalized).

Definition finding_identity (severity file summary : string) : FindingIdentity :=
  mkFindingIdentity severity file (_normalize_finding_text summary).

(** ** Entries *)

Record RoundFinding := mkRoundFinding {
  rn_severity : string;
  rn_file : string;
  rn_summary : string;
  rn_outcome : AdjudicationOutcome;
  rn_rationale : string }.

#[export] Instance RoundFinding_eta : RecordEta RoundFinding := λ t,
  mkRoundFinding t.(rn_severity) t.(rn_file) t.(rn_summary) t.(rn_outcome) t.(rn_rationale).

#[export] Instance upd_rn_severity : Updater rn_severity := ltac:(derive_updater).
#[export] Instance upd_rn_file : Updater rn_file := ltac:(derive_updater).
#[export] Instance upd_rn_summary : Updater rn_summary := ltac:(derive_updater).
#[export] Instance upd_rn_outcome : Updater rn_outcome := ltac:(derive_updater).
#[export] Instance upd_rn_rationale : Updater rn_rationale := ltac:(derive_updater).

(** The two outcomes a settled finding can have. *)
Inductive SettledOutcome := so_reject | so_defer.

Definition settled_outcome (o : SettledOutcome) : AdjudicationOutcome :=
  match o with so_reject => o_reject | so_defer => o_defer end.

Inductive SettleOrigin := by_adjudication | by_operator.

#[export] Instance SettleOrigin_eq_dec : EqDecision SettleOrigin.
Proof. solve_decision. Defined.

Record SettledEntry := mkSettledEntry {
  st_identity : FindingIdentity;
  st_outcome : SettledOutcome;
  st_rationale : string;
  st_round : nat;
  st_origin : SettleOrigin;
  st_actor : option string;
  st_settled_at : option string;
  st_reviewed_sha : option string }.

Record FixedEntry := mkFixedEntry {
  fx_identity : FindingIdentity;
  fx_round : nat;
  fx_reviewed_sha : string }.

Record StopRelease := mkStopRelease {
  sr_at : string;
  sr_round : nat;
  sr_reason : string;
  sr_cause : ReleaseCause;
  sr_sha : string }.

(** [previous_ledger] is the replaced ledger's JSON dump. *)
Record LedgerReset := mkLedgerReset {
  lr_at : string;
  lr_reason : string;
  lr_previous_ledger : json }.

Record ConfirmFailure := mkConfirmFailure {
  cf_at : string;
  cf_cause : string;
  cf_detail : string;
  cf_backend : string;
  cf_candidate_sha : string;
  cf_round : nat }.

Record SettleTarget := mkSettleTarget {
  tg_severity : string;
  tg_file : string;
  tg_summary : string }.

Definition validate_SettleTarget (t : SettleTarget) : exn + SettleTarget :=
  if is_blank t.(tg_file) || is_blank t.(tg_summary) then inl ValueError else inr t.

Record UnmatchedTarget := mkUnmatchedTarget {
  um_target : SettleTarget;
  um_nearest : option FindingIdentity }.

Record OperatorSettleReport := mkOperatorSettleReport {
  os_settled : list SettledEntry;
  os_unmatched : list UnmatchedTarget;
  os_releasable : bool }.

Record RoundRecord := mkRoundRecord {
  ro_round : nat;
  ro_kind : RoundKind;
  ro_backend : string;
  ro_reviewed_sha : string;
  ro_new_accepted : Z;
  ro_new_fix : Z;
  ro_new_operator_action : Z;
  ro_new_settled : Z;
  ro_resurfaced_settled : Z;
  ro_clean : bool;
  ro_roster : list string;
  ro_recorded_at : string;
  ro_shard_count : Z;
  ro_shards_reviewed : Z }.

Record FrozenCounts := mkFrozenCounts {
  fz_must_fix_initial : Z;
  fz_should_fix : Z;
  fz_agents_run : Z;
  fz_rejected_count : Z;
  fz_rejected_count_by_severity : list (string * Z) }.

(** ** The ledger *)

Record ConvergenceLedger := mkConvergenceLedger {
  lg_ticket_id : string;
  lg_fork_point : string;
  lg_diff_base : option string;
  lg_max_cycles : Z;
  lg_loop_backend : string;
  lg_confirm_backend : ConfirmBackend;
  lg_confirm_not_independent : bool;
  lg_stall_window : nat;
  lg_checkpoint_3a_sha : string;
  lg_frozen : option FrozenCounts;
  lg_rounds : list RoundRecord;
  lg_settled : list SettledEntry;
  lg_fixed : list FixedEntry;
  lg_confirm_failures : list ConfirmFailure;
  lg_awaiting_confirm_sha : option string;
  lg_last_clean_sha : option string;
  lg_epoch_start_round : nat;
  lg_window_start_round : nat;
  lg_fix_cycles_used : Z;
  lg_status : LedgerStatus;
  lg_stop_reason : option string;
  lg_stop_identities : list FindingIdentity;
  lg_releases : list StopRelease;
  lg_reset_history : list LedgerReset }.

#[export] Instance ConvergenceLedger_eta : RecordEta ConvergenceLedger := λ t,
  mkConvergenceLedger t.(lg_ticket_id) t.(lg_fork_point) t.(lg_diff_base) t.(lg_max_cycles)
    t.(lg_loop_backend) t.(lg_confirm_backend) t.(lg_confirm_not_independent)
    t.(lg_stall_window) t.(lg_checkpoint_3a_sha) t.(lg_frozen) t.(lg_rounds) t.(lg_settled)
    t.(lg_fixed) t.(lg_confirm_failures) t.(lg_awaiting_confirm_sha) t.(lg_last_clean_sha)
    t.(lg_epoch_start_round) t.(lg_window_start_round) t.(lg_fix_cycles_used) t.(lg_status)
    t.(lg_stop_reason) t.(lg_stop_identities) t.(lg_releases) t.(lg_reset_history).

#[export] Instance upd_lg_ticket_id : Updater lg_ticket_id := ltac:(derive_updater).
#[export] Instance upd_lg_fork_point : Updater lg_fork_point := ltac:(derive_updater).
#[export] Instance upd_lg_diff_base : Updater lg_diff_base := ltac:(derive_updater).
#[export] Instance upd_lg_max_cycles : Updater lg_max_cycles := ltac:(derive_updater).
#[export] Instance upd_lg_loop_backend : Updater lg_loop_backend := ltac:(derive_updater).
#[export] Instance upd_lg_confirm_backend : Updater lg_confirm_backend := ltac:(derive_updater).
#[export] Instance upd_lg_confirm_not_independent : Updater lg_confirm_not_independent := ltac:(derive_updater).
#[export] Instance upd_lg_stall_window : Updater lg_stall_window := ltac:(derive_updater).
#[export] Instance upd_lg_checkpoint_3a_sha : Updater lg_checkpoint_3a_sha := ltac:(derive_updater).
#[export] Instance upd_lg_frozen : Updater lg_frozen := ltac:(derive_updater).
#[export] Instance upd_lg_rounds : Updater lg_rounds := ltac:(derive_updater).
#[export] Instance upd_lg_settled : Updater lg_settled := ltac:(derive_updater).
#[export] Instance upd_lg_fixed : Updater lg_fixed := ltac:(derive_updater).
#[export] Instance upd_lg_confirm_failures : Updater lg_confirm_failures := ltac:(derive_updater).
#[export] Instance upd_lg_awaiting_confirm_sha : Updater lg_awaiting_confirm_sha := ltac:(derive_updater).
#[export] Instance upd_lg_last_clean_sha : Updater lg_last_clean_sha := ltac:(derive_updater).
#[export] Instance upd_lg_epoch_start_round : Updater lg_epoch_start_round := ltac:(derive_updater).
#[export] Instance upd_lg_window_start_round : Updater lg_window_start_round := ltac:(derive_updater).
#[export] Instance upd_lg_fix_cycles_used : Updater lg_fix_cycles_used := ltac:(derive_updater).
#[export] Instance upd_lg_status : Updater lg_status := ltac:(derive_updater).
#[export] Instance upd_lg_stop_reason : Updater lg_stop_reason := ltac:(derive_updater).
#[export] Instance upd_lg_stop_identities : Updater lg_stop_identities := ltac:(derive_updater).
#[export] Instance upd_lg_releases : Updater lg_releases := ltac:(derive_updater).
#[export] Instance upd_lg_reset_history : Updater lg_reset_history := ltac:(derive_updater).

(** ** Inputs and reports *)

(** Exactly one of the two sources is set. *)
Record RoundInput := mkRoundInput {
  ri_kind : RoundKind;
  ri_backend : string;
  ri_reviewed_sha : string;
  ri_roster : list string;
  ri_verdict : option ReviewVerdict;
  ri_findings : option (list RoundFinding) }.

Definition _exactly_one_source (i : RoundInput) : exn + RoundInput :=
  if Bool.eqb (is_Some_b i.(ri_verdict)) (is_Some_b i.(ri_findings))
  then inl ValueError else inr i.

Record UnreadFindings := mkUnreadFindings {
  un_rejected_must_fix : Z;
  un_discarded_run_failures : Z;
  un_failed_roles : list string;
  un_unreviewed_shards : Z }.

Definition unread_any (u : UnreadFindings) : bool :=
  negb (Z.eqb u.(un_rejected_must_fix) 0) || negb (Z.eqb u.(un_discarded_run_failures) 0)
  || negb (bool_decide (u.(un_failed_roles) = []))
  || negb (Z.eqb u.(un_unreviewed_shards) 0).

Definition coverage_gap (u : UnreadFindings) : bool :=
  negb (bool_decide (u.(un_failed_roles) = [])) || negb (Z.eqb u.(un_unreviewed_shards) 0).

Record RoundReport := mkRoundReport {
  rp_decision : Decision;
  rp_reason : option string;
  rp_round : nat;
  rp_new_accepted : Z;
  rp_new_settled : Z;
  rp_resurfaced_settled : Z;
  rp_fix_cycles_used : Z;
  rp_next_fix_cycle : Z;
  rp_history : list Z;
  rp_confirm_not_independent : bool }.

(** [TipVerdict]: accepted, or a re-review with its reason. *)
Inductive TipVerdict := tip_accepted | rereview_required (reason : TipReason).

#[export] Instance TipVerdict_eq_dec : EqDecision TipVerdict.
Proof. solve_decision. Defined.

Record Reconciled := mkReconciled {
  rec_ledger : ConvergenceLedger;
  rec_reset_reason : option string;
  rec_released : option StopRelease;
  rec_default_merge_tolerated : bool }.

(** ** Confirm backend resolution *)

Definition _LOOP_FAMILY (loop_backend : string) : option ConfirmBackend :=
  if String.eqb loop_backend "claude-native" then Some cb_claude
  else if String.eqb loop_backend "codex" then Some cb_codex
  else None.

Definition OPENCODE_BACKEND : string := "opencode".
Definition _FAMILYLESS_LOOPS : list string := [OPENCODE_BACKEND].

Record ResolvedBackend := mkResolvedBackend {
  rb_name : ConfirmBackend;
  rb_not_independent : bool }.

Definition resolve_confirm_backend (configured : option ConfirmBackend)
  (loop_backend : string) : ResolvedBackend :=
  let family := _LOOP_FAMILY loop_backend in
  match configured with
  | None =>
      let prefers_claude :=
        bool_decide (family = Some cb_codex)
        || bool_decide (loop_backend ∈ _FAMILYLESS_LOOPS) in
      mkResolvedBackend (if prefers_claude then cb_claude else cb_codex) false
  | Some cb_none => mkResolvedBackend cb_none false
  | Some b => mkResolvedBackend b (bool_decide (family = Some b))
  end.

Definition clean_mode_supported (loop_backend : string) : bool :=
  is_Some_b (_LOOP_FAMILY loop_backend) || bool_decide (loop_backend ∈ _FAMILYLESS_LOOPS).
