(* ===== verification/Convergence.v ===== *)
(** * The converge-to-clean state machine

    [review_convergence/_findings.py], [_policy.py], [_engine.py], [_tip.py]
    and [_status.py]: a review round is classified against the settled memory,
    recorded, and decides what happens next; operators settle findings, a
    confirm outage is counted, and the tip is accepted only when it is what
    was last reviewed clean.  Every function is pure and takes [now]. *)

From S2P Require Import Prelude PyStr PyText Markers ReviewModels TextMatch Findings Enums Tasks World Adjudication.
From S2P Require Import ConvergenceModels.
#[local] Open Scope cw_scope.

(** ** Round findings from a verdict *)

Definition _DISPOSITION_OUTCOME (d : Disposition) : option AdjudicationOutcome :=
  match d with
  | d_fixed => Some o_fix
  | d_rejected => Some o_reject
  | d_deferred => Some o_defer
  | d_operator_actionable => Some o_operator_action
  | d_dropped | d_unresolved => None
  end.

Definition _NO_RATIONALE : string := "settled earlier in this review (no rationale recorded)".

Definition gating_severity (severity : string) : option string :=
  if String.eqb severity MUST_FIX then Some MUST_FIX
  else if String.eqb severity SHOULD_FIX then Some SHOULD_FIX
  else None.

(** Python's [dict.fromkeys]: each key once, in first-seen order. *)
Definition first_seen {X} `{EqDecision X} (xs : list X) : list X :=
  foldl (λ seen x, if decide (x ∈ seen) then seen else seen ++ [x]) [] xs.

Definition unread_from_verdict (verdict : ReviewVerdict) : UnreadFindings :=
  mkUnreadFindings
    (Z.of_nat (length verdict.(v_rejected_must_fix)))
    (Z.of_nat (length verdict.(v_run_failures_with_should_fix_discards)))
    (first_seen (map rr_reviewer_role
       (filter (λ r, r.(rr_status) = health_failed) verdict.(v_agents_run))))
    (count_if (λ s, negb s.(sh_reviewed)) verdict.(v_shards)).

Definition round_finding (accepted : AcceptedFinding) (severity : string)
  (outcome : AdjudicationOutcome) : RoundFinding :=
  mkRoundFinding severity accepted.(af_finding).(f_file) accepted.(af_finding).(f_summary)
    outcome accepted.(af_disposition_detail).

Fixpoint verdict_findings (accepted : list AcceptedFinding) : exn + list RoundFinding :=
  match accepted with
  | [] => inr []
  | af :: rest =>
      match gating_severity af.(af_finding).(f_severity) with
      | None => verdict_findings rest
      | Some severity =>
          match _DISPOSITION_OUTCOME af.(af_disposition) with
          | None => inl (ConvergenceError "undecided finding: ")
          | Some outcome =>
              match verdict_findings rest with
              | inl e => inl e
              | inr fs => inr (round_finding af severity outcome :: fs)
              end
          end
      end
  end.

Definition from_verdict (verdict : ReviewVerdict)
  : exn + (list RoundFinding * UnreadFindings) :=
  match verdict_findings verdict.(v_accepted) with
  | inl e => inl e
  | inr fs => inr (fs, unread_from_verdict verdict)
  end.

Definition shard_tally_from_verdict (verdict : ReviewVerdict) : Z * Z :=
  if bool_decide (verdict.(v_shards) = []) then (1, 1)%Z
  else (Z.of_nat (length verdict.(v_shards)), count_if sh_reviewed verdict.(v_shards)).

Definition decided_finding (item : AcceptedFinding) (rationale : string) : AcceptedFinding :=
  if String.eqb item.(af_finding).(f_severity) SHOULD_FIX
     && negb (bool_decide (item.(af_disposition) ∈ [d_rejected; d_deferred]))
     && negb item.(af_adjudicated_fix)
  then (item <| af_disposition := d_deferred |>) <| af_disposition_detail := rationale |>
  else if String.eqb item.(af_finding).(f_severity) MUST_FIX
          && bool_decide (item.(af_disposition) ∈ [d_dropped; d_unresolved])
  then item <| af_disposition := d_fixed |>
  else item.

Definition decide_verdict (verdict : ReviewVerdict) (rationale : string) : ReviewVerdict :=
  verdict <| v_accepted :=
    map (λ item, decided_finding item rationale) verdict.(v_accepted) |>.

Definition round_input_findings (payload : RoundInput)
  : exn + (list RoundFinding * option UnreadFindings) :=
  match payload.(ri_verdict) with
  | Some verdict =>
      match from_verdict verdict with
      | inl e => inl e
      | inr (fs, unread) => inr (fs, Some unread)
      end
  | None => inr (default [] payload.(ri_findings), None)
  end.

Definition frozen_counts_from_verdict (verdict : ReviewVerdict) : FrozenCounts :=
  mkFrozenCounts verdict.(v_review).(rv_must_fix_initial) verdict.(v_review).(rv_should_fix)
    verdict.(v_review).(rv_agents_run) verdict.(v_rejected_count)
    verdict.(v_rejected_count_by_severity).

(** ** The settled memory *)

(** A dict built from entries: a later entry of one identity wins. *)
Definition settled_index (ledger : ConvergenceLedger) : gmap FindingIdentity SettledEntry :=
  foldl (λ m e, <[e.(st_identity) := e]> m) ∅ ledger.(lg_settled).

Definition identity_of (f : RoundFinding) : FindingIdentity :=
  finding_identity f.(rn_severity) f.(rn_file) f.(rn_summary).

Record Classified := mkClassified {
  cl_new_fix : list RoundFinding;
  cl_new_operator : list RoundFinding;
  cl_newly_settled : list SettledEntry;
  cl_resurfaced : Z }.

Definition cl_new_accepted (c : Classified) : Z :=
  (Z.of_nat (length c.(cl_new_fix)) + Z.of_nat (length c.(cl_new_operator)))%Z.

Definition adjudicated_entry (finding : RoundFinding) (round_number : nat) : SettledEntry :=
  mkSettledEntry (identity_of finding)
    (if bool_decide (finding.(rn_outcome) = o_reject) then so_reject else so_defer)
    finding.(rn_rationale) round_number by_adjudication None None None.

Definition classify_one (settled : gmap FindingIdentity SettledEntry) (round_number : nat)
  (c : Classified) (finding : RoundFinding) : Classified :=
  let identity := identity_of finding in
  let '(mkClassified new_fix new_operator newly_settled resurfaced) := c in
  match settled !! identity with
  | Some _ => mkClassified new_fix new_operator newly_settled (resurfaced + 1)
  | None =>
      match finding.(rn_outcome) with
      | o_fix => mkClassified (new_fix ++ [finding]) new_operator newly_settled resurfaced
      | o_operator_action =>
          mkClassified new_fix (new_operator ++ [finding]) newly_settled resurfaced
      | o_reject | o_defer =>
          if decide (identity ∈ map st_identity newly_settled) then c
          else mkClassified new_fix new_operator
                 (newly_settled ++ [adjudicated_entry finding round_number]) resurfaced
      end
  end.

Definition classify_findings (ledger : ConvergenceLedger) (findings : list RoundFinding)
  (round_number : nat) : Classified :=
  foldl (classify_one (settled_index ledger) round_number) (mkClassified [] [] [] 0) findings.

(** ** Suppressing settled findings *)

(** The constructor's validators run: a rationale of white space is refused. *)
Definition _adjudication_for (entry : SettledEntry) (severity file summary : string)
  (line_start line_end : option Z) (evidence : string) : exn + Adjudication :=
  validate_Adjudication
    (mkAdjudication severity file line_start line_end evidence summary
       (settled_outcome entry.(st_outcome)) (or_str entry.(st_rationale) _NO_RATIONALE) None "").

(** The values of a loop in which each step may raise. *)
Fixpoint all_ok {X} (xs : list (exn + X)) : exn + list X :=
  match xs with
  | [] => inr []
  | inl e :: _ => inl e
  | inr x :: xs' => match all_ok xs' with inl e => inl e | inr r => inr (x :: r) end
  end.

Definition suppress_finding_settled (settled : gmap FindingIdentity SettledEntry)
  (finding : RoundFinding) : RoundFinding :=
  match settled !! identity_of finding with
  | None => finding
  | Some entry =>
      (finding <| rn_outcome := settled_outcome entry.(st_outcome) |>)
        <| rn_rationale := entry.(st_rationale) |>
  end.

Definition settled_adjudication (settled : gmap FindingIdentity SettledEntry)
  (f : RoundFinding) : option (exn + Adjudication) :=
  entry ← settled !! identity_of f;
  Some (_adjudication_for entry f.(rn_severity) f.(rn_file) f.(rn_summary) None None "").

Definition _suppress_findings (ledger : ConvergenceLedger) (findings : list RoundFinding)
  : exn + (list RoundFinding * list Adjudication) :=
  let settled := settled_index ledger in
  match all_ok (omap (settled_adjudication settled) findings) with
  | inl e => inl e
  | inr adjudications => inr (map (suppress_finding_settled settled) findings, adjudications)
  end.

(** The settled entry of an accepted finding, with its gating severity. *)
Definition settled_match (settled : gmap FindingIdentity SettledEntry) (af : AcceptedFinding)
  : option (SettledEntry * string) :=
  severity ← gating_severity af.(af_finding).(f_severity);
  entry ← settled !! finding_identity severity af.(af_finding).(f_file)
            af.(af_finding).(f_summary);
  Some (entry, severity).

Definition stamp_settled (settled : gmap FindingIdentity SettledEntry) (af : AcceptedFinding)
  : AcceptedFinding :=
  match settled_match settled af with
  | None => af
  | Some (entry, _) =>
      (af <| af_disposition :=
           match entry.(st_outcome) with so_reject => d_rejected | so_defer => d_deferred end |>)
        <| af_disposition_detail := entry.(st_rationale) |>
  end.

(** A stamped finding keeps its severity and text, so the match is re-read from
    it. *)
Definition settled_must_fix (settled : gmap FindingIdentity SettledEntry) (af : AcceptedFinding)
  : bool :=
  has_severity MUST_FIX af && negb (is_Some_b (settled_match settled af))
  && negb (is_deferred af).

Definition match_adjudication (settled : gmap FindingIdentity SettledEntry)
  (af : AcceptedFinding) : option (exn + Adjudication) :=
  '(entry, severity) ← settled_match settled af;
  let f := af.(af_finding) in
  Some (_adjudication_for entry severity f.(f_file) f.(f_summary) f.(f_line_start)
          f.(f_line_end) f.(f_evidence)).

Definition _suppress_verdict (ledger : ConvergenceLedger) (verdict : ReviewVerdict)
  : exn + (ReviewVerdict * list Adjudication) :=
  let settled := settled_index ledger in
  if negb (existsb (λ af, is_Some_b (settled_match settled af)) verdict.(v_accepted))
  then inr (verdict, [])
  else
    match all_ok (omap (match_adjudication settled) verdict.(v_accepted)) with
    | inl e => inl e
    | inr adjudications =>
        let stamped := map (stamp_settled settled) verdict.(v_accepted) in
        let must_fix :=
          map af_finding (filter (λ af, settled_must_fix settled af = true) stamped) in
        inr (set_must_fix verdict stamped must_fix, adjudications)
    end.

(** ** Shared predicates *)

Definition max_cycles_exhausted (ledger : ConvergenceLedger) : bool :=
  Z.leb ledger.(lg_max_cycles) ledger.(lg_fix_cycles_used).

Fixpoint non_decreasing (counts : list Z) : bool :=
  match counts with
  | earlier :: ((later :: _) as rest) => Z.leb earlier later && non_decreasing rest
  | _ => true
  end.

(** [xs[-n:]]. *)
Definition take_last {X} (n : nat) (xs : list X) : list X := drop (length xs - n) xs.

Definition detect_no_progress (rounds : list RoundRecord) (window start : nat) : bool :=
  let considered := drop start rounds in
  if Nat.ltb (length considered) (window + 1) then false
  else
    let tail := take_last (window + 1) considered in
    if existsb ro_clean tail then false
    else
      let counts := map ro_new_accepted tail in
      if existsb (λ n, Z.leb n STALL_NOISE_FLOOR) counts then false
      else non_decreasing counts.

Definition fixed_index (ledger : ConvergenceLedger) : gmap FindingIdentity string :=
  foldl (λ m e, <[e.(fx_identity) := e.(fx_reviewed_sha)]> m) ∅ ledger.(lg_fixed).

Definition recurs (fixed_at : gmap FindingIdentity string) (reviewed_sha : string)
  (recurring : list FindingIdentity) (finding : RoundFinding) : list FindingIdentity :=
  let identity := identity_of finding in
  match fixed_at !! identity with
  | None => recurring
  | Some fixed_sha =>
      if String.eqb fixed_sha reviewed_sha then recurring
      else if decide (identity ∈ recurring) then recurring
      else recurring ++ [identity]
  end.

Definition detect_oscillation (ledger : ConvergenceLedger) (new_accepted : list RoundFinding)
  (reviewed_sha : string) : list FindingIdentity :=
  foldl (recurs (fixed_index ledger) reviewed_sha) [] new_accepted.

Definition is_operator_settle (entry : SettledEntry) : bool :=
  bool_decide (entry.(st_origin) = by_operator).

Definition _all_operator_settled (ledger : ConvergenceLedger) : bool :=
  match ledger.(lg_stop_identities) with
  | [] => false
  | identities =>
      let operator_settled :=
        map st_identity (filter (λ e, is_operator_settle e = true) ledger.(lg_settled)) in
      forallb (λ i, bool_decide (i ∈ operator_settled)) identities
  end.

Definition release_cause (ledger : ConvergenceLedger) : option ReleaseCause :=
  let reason := ledger.(lg_stop_reason) in
  if bool_decide (reason = Some STOP_MAX_CYCLES) && negb (max_cycles_exhausted ledger)
  then Some max_cycles_raised
  else if bool_decide (reason = Some STOP_OPERATOR_ACTION) then Some operator_action_done
  else if bool_decide (reason = Some STOP_OSCILLATION) && _all_operator_settled ledger
  then Some identities_settled
  else None.

(** The failure belongs to the run of [cause] at the ledger's candidate. *)
Definition same_run (ledger : ConvergenceLedger) (cause : string) (failure : ConfirmFailure)
  : bool :=
  String.eqb failure.(cf_cause) cause
  && bool_decide (Some failure.(cf_candidate_sha) = ledger.(lg_awaiting_confirm_sha))
  && Nat.eqb failure.(cf_round) (length ledger.(lg_rounds)).

Fixpoint run_length {X} (p : X → bool) (xs : list X) : Z :=
  match xs with
  | x :: xs' => if p x then (run_length p xs' + 1)%Z else 0%Z
  | [] => 0%Z
  end.

Definition consecutive_confirm_failures (ledger : ConvergenceLedger) (cause : string) : Z :=
  run_length (same_run ledger cause) (reverse ledger.(lg_confirm_failures)).

(** ** The tip *)

Definition finalize_ready (ledger : ConvergenceLedger) : bool :=
  bool_decide (ledger.(lg_status) = converged) && is_Some_b ledger.(lg_last_clean_sha).

Definition has_independent_confirm (ledger : ConvergenceLedger) : bool :=
  negb (bool_decide (ledger.(lg_confirm_backend) = cb_none))
  && negb ledger.(lg_confirm_not_independent).

Definition evaluate_tip (ledger : ConvergenceLedger) (head_sha origin_tip_sha : string)
  (default_merge_only : bool) : TipVerdict :=
  if negb (finalize_ready ledger) then rereview_required no_clean_round
  else if negb (String.eqb head_sha origin_tip_sha) then rereview_required head_not_origin_tip
  else if negb (bool_decide (Some head_sha = ledger.(lg_last_clean_sha)))
          && negb default_merge_only
  then rereview_required commits_after_clean_round
  else tip_accepted.

Definition demote_for_rereview (ledger : ConvergenceLedger) : ConvergenceLedger :=
  if negb (bool_decide (ledger.(lg_status) = converged)) then ledger
  else (ledger <| lg_status := in_progress |>) <| lg_awaiting_confirm_sha := None |>.

(** ** Recording a round *)

Definition CONFIRM_UNAVAILABLE_CAP : Z := 3.

Record Outcome := mkOutcome {
  oc_decision : Decision;
  oc_reason : option string;
  oc_stop_identities : list FindingIdentity }.

Definition new_ledger (ticket_id fork_point checkpoint_3a_sha : string) (max_cycles : Z)
  (loop_backend : string) (confirm : ResolvedBackend) : ConvergenceLedger :=
  mkConvergenceLedger ticket_id fork_point None max_cycles loop_backend confirm.(rb_name)
    confirm.(rb_not_independent) STALL_WINDOW checkpoint_3a_sha None [] [] [] [] None None 0 0 0
    in_progress None [] [] [].

Definition _require_recordable_kind (kind : RoundKind) : exn + unit :=
  if bool_decide (kind ∈ RECORDABLE_ROUND_KINDS) then inr tt
  else inl (ConvergenceError "record_round cannot record a ").

Definition _require_open_ledger (ledger : ConvergenceLedger) : exn + unit :=
  if bool_decide (ledger.(lg_status) ∈ [stopped; converged])
  then inl (ConvergenceError "cannot record a round on a ") else inr tt.

Definition _require_confirm_preconditions (ledger : ConvergenceLedger)
  (backend reviewed_sha : string) : exn + unit :=
  if negb (bool_decide (ledger.(lg_status) = awaiting_confirm))
  then inl (ConvergenceError "a confirm round requires an awaiting_confirm ledger ")
  else if negb (bool_decide (Some reviewed_sha = ledger.(lg_awaiting_confirm_sha)))
  then inl (ConvergenceError "confirm round sha ")
  else if negb (String.eqb backend (backend_value ledger.(lg_confirm_backend)))
  then inl (ConvergenceError "confirm round backend ")
  else inr tt.

Definition _guard_unread (unread : option UnreadFindings) : exn + unit :=
  match unread with
  | None => inr tt
  | Some u =>
      if negb (Z.eqb u.(un_rejected_must_fix) 0)
         || negb (Z.eqb u.(un_discarded_run_failures) 0)
      then inl (ConvergenceError "unread_findings: ")
      else if negb (bool_decide (u.(un_failed_roles) = []))
      then inl (ConvergenceError "failed_role: ")
      else if negb (Z.eqb u.(un_unreviewed_shards) 0)
      then inl (ConvergenceError "unreviewed_shard: ")
      else inr tt
  end.

Definition _clean_decision (ledger : ConvergenceLedger) (kind : RoundKind) : Decision :=
  if bool_decide (kind = k_loop) && has_independent_confirm ledger
  then dec_confirm_required else dec_clean.

Definition _decide (ledger : ConvergenceLedger) (classified : Classified)
  (record : RoundRecord) (rounds : list RoundRecord) : Outcome :=
  if record.(ro_clean) then mkOutcome (_clean_decision ledger record.(ro_kind)) None []
  else
    let accepted := classified.(cl_new_fix) ++ classified.(cl_new_operator) in
    match detect_oscillation ledger accepted record.(ro_reviewed_sha) with
    | (_ :: _) as recurring =>
        mkOutcome dec_stop_not_converging (Some STOP_OSCILLATION) recurring
    | [] =>
        if negb (bool_decide (classified.(cl_new_operator) = []))
        then mkOutcome dec_stop_operator_action (Some STOP_OPERATOR_ACTION)
               (first_seen (map identity_of classified.(cl_new_operator)))
        else
          let start := Nat.max ledger.(lg_epoch_start_round) ledger.(lg_window_start_round) in
          if detect_no_progress rounds ledger.(lg_stall_window) start
          then mkOutcome dec_stop_not_converging (Some STOP_NO_PROGRESS) []
          else if max_cycles_exhausted ledger
          then mkOutcome dec_stop_max_cycles (Some STOP_MAX_CYCLES) []
          else mkOutcome dec_continue None []
    end.

Definition fix_memory (record : RoundRecord) (fixed : list FixedEntry) (finding : RoundFinding)
  : list FixedEntry :=
  let identity := identity_of finding in
  if decide (identity ∈ map fx_identity fixed) then fixed
  else fixed ++ [mkFixedEntry identity record.(ro_round) record.(ro_reviewed_sha)].

Definition _fixed_after_continue (ledger : ConvergenceLedger) (classified : Classified)
  (record : RoundRecord) : list FixedEntry :=
  foldl (fix_memory record) ledger.(lg_fixed) classified.(cl_new_fix).

(** The ledger fields a decision changes; [prior] is the ledger before the
    round. *)
Definition _transition (prior : ConvergenceLedger) (outcome : Outcome)
  (classified : Classified) (record : RoundRecord) (ledger : ConvergenceLedger)
  : ConvergenceLedger :=
  match outcome.(oc_decision) with
  | dec_clean =>
      (ledger <| lg_status := converged |>)
        <| lg_last_clean_sha := Some record.(ro_reviewed_sha) |>
  | dec_confirm_required =>
      (ledger <| lg_status := awaiting_confirm |>)
        <| lg_awaiting_confirm_sha := Some record.(ro_reviewed_sha) |>
  | dec_continue =>
      ((ledger <| lg_status := in_progress |>)
         <| lg_fix_cycles_used := (prior.(lg_fix_cycles_used) + 1)%Z |>)
        <| lg_fixed := _fixed_after_continue prior classified record |>
  | _ =>
      ((ledger <| lg_status := stopped |>) <| lg_stop_reason := outcome.(oc_reason) |>)
        <| lg_stop_identities := outcome.(oc_stop_identities) |>
  end.

Definition round_history (ledger : ConvergenceLedger) : list Z :=
  map ro_new_accepted (drop ledger.(lg_epoch_start_round) ledger.(lg_rounds)).

Definition _report (ledger : ConvergenceLedger) (outcome : Outcome) (record : RoundRecord)
  : RoundReport :=
  let dispatched := bool_decide (outcome.(oc_decision) = dec_continue) in
  mkRoundReport outcome.(oc_decision) outcome.(oc_reason) record.(ro_round)
    record.(ro_new_accepted) record.(ro_new_settled) record.(ro_resurfaced_settled)
    ledger.(lg_fix_cycles_used)
    (ledger.(lg_fix_cycles_used) + (if dispatched then 0 else 1))%Z
    (round_history ledger) ledger.(lg_confirm_not_independent).

(** The arguments of [record_round] besides the ledger. *)
Record RoundArgs := mkRoundArgs {
  ra_kind : RoundKind;
  ra_backend : string;
  ra_reviewed_sha : string;
  ra_findings : list RoundFinding;
  ra_roster : list string;
  ra_now : string;
  ra_unread : option UnreadFindings;
  ra_frozen : option FrozenCounts;
  ra_shard_count : Z;
  ra_shards_reviewed : Z }.

#[export] Instance RoundArgs_eta : RecordEta RoundArgs := λ t,
  mkRoundArgs t.(ra_kind) t.(ra_backend) t.(ra_reviewed_sha) t.(ra_findings) t.(ra_roster)
    t.(ra_now) t.(ra_unread) t.(ra_frozen) t.(ra_shard_count) t.(ra_shards_reviewed).
#[export] Instance upd_ra_findings : Updater ra_findings := ltac:(derive_updater).

Definition round_record (ledger : ConvergenceLedger) (a : RoundArgs) (classified : Classified)
  : RoundRecord :=
  mkRoundRecord (length ledger.(lg_rounds) + 1) a.(ra_kind) a.(ra_backend) a.(ra_reviewed_sha)
    (cl_new_accepted classified)
    (Z.of_nat (length classified.(cl_new_fix)))
    (Z.of_nat (length classified.(cl_new_operator)))
    (Z.of_nat (length classified.(cl_newly_settled)))
    classified.(cl_resurfaced)
    (Z.eqb (cl_new_accepted classified) 0)
    a.(ra_roster) a.(ra_now) a.(ra_shard_count) a.(ra_shards_reviewed).

Definition set_frozen_once (frozen : option FrozenCounts) (ledger : ConvergenceLedger)
  : ConvergenceLedger :=
  match ledger.(lg_frozen), frozen with
  | None, Some f => ledger <| lg_frozen := Some f |>
  | _, _ => ledger
  end.

Definition _apply_round (ledger : ConvergenceLedger) (a : RoundArgs)
  : exn + (ConvergenceLedger * RoundReport) :=
  let round_number := length ledger.(lg_rounds) + 1 in
  let classified := classify_findings ledger a.(ra_findings) round_number in
  match (if Z.eqb (cl_new_accepted classified) 0 then _guard_unread a.(ra_unread) else inr tt)
  with
  | inl e => inl e
  | inr _ =>
      let record := round_record ledger a classified in
      let rounds := ledger.(lg_rounds) ++ [record] in
      let outcome := _decide ledger classified record rounds in
      let updated :=
        ((ledger <| lg_rounds := rounds |>)
           <| lg_settled := ledger.(lg_settled) ++ classified.(cl_newly_settled) |>)
          <| lg_awaiting_confirm_sha := None |> in
      let updated :=
        _transition ledger outcome classified record (set_frozen_once a.(ra_frozen) updated) in
      inr (updated, _report updated outcome record)
  end.

Definition record_round (ledger : ConvergenceLedger) (a : RoundArgs)
  : exn + (ConvergenceLedger * RoundReport) :=
  match _require_recordable_kind a.(ra_kind) with
  | inl e => inl e
  | inr _ =>
      match _require_open_ledger ledger with
      | inl e => inl e
      | inr _ =>
          match (if bool_decide (a.(ra_kind) = k_confirm)
                 then _require_confirm_preconditions ledger a.(ra_backend) a.(ra_reviewed_sha)
                 else inr tt) with
          | inl e => inl e
          | inr _ => _apply_round ledger a
          end
      end
  end.

(** ** A confirm backend that is down *)

Definition record_confirm_failure (ledger : ConvergenceLedger) (cause detail now : string)
  : exn + (ConvergenceLedger * RoundReport) :=
  match bool_decide (ledger.(lg_status) = awaiting_confirm), ledger.(lg_awaiting_confirm_sha) with
  | true, Some candidate =>
      let prior := consecutive_confirm_failures ledger cause in
      let entry :=
        mkConfirmFailure now cause detail (backend_value ledger.(lg_confirm_backend)) candidate
          (length ledger.(lg_rounds)) in
      let updated := ledger <| lg_confirm_failures := ledger.(lg_confirm_failures) ++ [entry] |> in
      let decision :=
        if Z.leb CONFIRM_UNAVAILABLE_CAP prior
        then dec_stop_confirm_escalated else dec_stop_confirm_unavailable in
      inr (updated,
           mkRoundReport decision (Some cause) (length updated.(lg_rounds)) 0 0 0
             updated.(lg_fix_cycles_used) (updated.(lg_fix_cycles_used) + 1)%Z
             (round_history updated) updated.(lg_confirm_not_independent))
  | _, _ => inl (ConvergenceError "a confirm failure requires an awaiting_confirm ledger ")
  end.

(** ** Operator settles *)

(** [difflib.get_close_matches(word, possibilities, n=1, cutoff=0.6)]: the
    closest of the possibilities, for the report only. *)
Class CloseMatch := get_close_match : string → list string → option string.

Definition _recorded_identities (ledger : ConvergenceLedger) : list FindingIdentity :=
  first_seen (ledger.(lg_stop_identities) ++ map fx_identity ledger.(lg_fixed)
              ++ map st_identity ledger.(lg_settled)).

(** [{k(x): x for x in xs}[key]]: the last one wins. *)
Definition last_with_key (key : string) (identities : list FindingIdentity)
  : option FindingIdentity :=
  last (filter (λ i, audit_key i = key) identities).

Definition _nearest `{CloseMatch} (identity : FindingIdentity)
  (recorded : list FindingIdentity) : option FindingIdentity :=
  close ← get_close_match (audit_key identity) (first_seen (map audit_key recorded));
  last_with_key close recorded.

(** [matched[identity] = entry] on an insertion-ordered dict. *)
Fixpoint put_entry (entry : SettledEntry) (matched : list SettledEntry) : list SettledEntry :=
  match matched with
  | [] => [entry]
  | e :: matched' =>
      if decide (e.(st_identity) = entry.(st_identity)) then entry :: matched'
      else e :: put_entry entry matched'
  end.

(** [pending.pop(identity, default)]. *)
Fixpoint pop_entry (identity : FindingIdentity) (pending : list SettledEntry)
  : option SettledEntry * list SettledEntry :=
  match pending with
  | [] => (None, [])
  | e :: pending' =>
      if decide (e.(st_identity) = identity) then (Some e, pending')
      else let '(found, rest) := pop_entry identity pending' in (found, e :: rest)
  end.

Fixpoint refresh_settled (settled pending : list SettledEntry)
  : list SettledEntry * list SettledEntry :=
  match settled with
  | [] => ([], pending)
  | entry :: settled' =>
      let '(found, pending) := pop_entry entry.(st_identity) pending in
      let '(rest, pending) := refresh_settled settled' pending in
      (default entry found :: rest, pending)
  end.

Definition target_identity (t : SettleTarget) : FindingIdentity :=
  finding_identity t.(tg_severity) t.(tg_file) t.(tg_summary).

Definition operator_entry (identity : FindingIdentity) (reason actor now reviewed_sha : string)
  (round : nat) : SettledEntry :=
  mkSettledEntry identity so_reject reason round by_operator (Some actor) (Some now)
    (Some reviewed_sha).

Section OperatorSettle.
Context {C : CloseMatch}.

Definition settle_target (recorded : list FindingIdentity) (reason actor now sha : string)
  (round : nat) (st : list SettledEntry * list UnmatchedTarget) (t : SettleTarget)
  : list SettledEntry * list UnmatchedTarget :=
  let '(matched, unmatched) := st in
  let identity := target_identity t in
  if decide (identity ∈ recorded)
  then (put_entry (operator_entry identity reason actor now sha round) matched, unmatched)
  else (matched, unmatched ++ [mkUnmatchedTarget t (_nearest identity recorded)]).

Definition operator_settle (ledger : ConvergenceLedger) (targets : list SettleTarget)
  (actor reason now : string) : exn + (ConvergenceLedger * OperatorSettleReport) :=
  match last ledger.(lg_rounds) with
  | None => inl (ConvergenceError "cannot settle findings on a ledger with no recorded rounds")
  | Some last_round =>
      let recorded := _recorded_identities ledger in
      let '(matched, unmatched) :=
        foldl (settle_target recorded reason actor now last_round.(ro_reviewed_sha)
                 (length ledger.(lg_rounds))) ([], []) targets in
      match matched with
      | [] =>
          inr (ledger,
               mkOperatorSettleReport [] unmatched (is_Some_b (release_cause ledger)))
      | _ =>
          let '(settled, pending) := refresh_settled ledger.(lg_settled) matched in
          let updated := ledger <| lg_settled := settled ++ pending |> in
          inr (updated,
               mkOperatorSettleReport matched unmatched (is_Some_b (release_cause updated)))
      end
  end.
End OperatorSettle.

(** ** The settle command: [cli/review/operator_settle.py]

    The payload [converge status] prints, as the JSON value it dumps. *)

Definition payload_entry (i : FindingIdentity) : json :=
  JDict [("severity", JStr i.(id_severity)); ("file", JStr i.(id_file));
         ("summary", JStr i.(id_summary_normalized))].

Definition settle_payload (ledger : ConvergenceLedger) : json :=
  match ledger.(lg_stop_identities) with
  | [] => JDict []
  | ids => JDict [("entries", JList (map payload_entry ids))]
  end.

(** [extra="forbid"]. *)
Definition only_keys (keys : list string) (d : list (string * json)) : bool :=
  forallb (λ kv, bool_decide (kv.1 ∈ keys)) d.

(** [SettleTarget.model_validate]. *)
Definition parse_SettleTarget (j : json) : exn + SettleTarget :=
  match j with
  | JDict d =>
      if negb (only_keys ["severity"; "file"; "summary"] d) then inl ValueError
      else match dict_get "severity" d, dict_get "file" d, dict_get "summary" d with
           | JStr severity, JStr file, JStr summary =>
               if is_Some_b (gating_severity severity)
               then validate_SettleTarget (mkSettleTarget severity file summary)
               else inl ValueError
           | _, _, _ => inl ValueError
           end
  | _ => inl ValueError
  end.

(** [_OperatorSettleInput.model_validate]: at least one entry, each valid. *)
Definition parse_settle_input (j : json) : exn + list SettleTarget :=
  match j with
  | JDict d =>
      if negb (only_keys ["entries"] d) then inl ValueError
      else match dict_get "entries" d with
           | JList [] => inl ValueError
           | JList es => all_ok (map parse_SettleTarget es)
           | _ => inl ValueError
           end
  | _ => inl ValueError
  end.

(** How the command ends: an error, exit 1 on a payload that does not validate
    or names an identity the ledger never recorded, or a saved ledger. *)
Inductive SettleCommand :=
  | sc_error (e : exn)
  | sc_bad_payload
  | sc_unmatched (unmatched : list UnmatchedTarget)
  | sc_saved (updated : ConvergenceLedger) (report : OperatorSettleReport).

Section SettleCommand.
Context {C : CloseMatch}.

(** The command on a resolved row and its ledger, up to the save; [actor] and
    [now] are resolved before the payload is read. *)
Definition converge_operator_settle (ticket_id reason actor now : string)
  (row : queue_status) (ledger : ConvergenceLedger) (payload : json) : SettleCommand :=
  if is_blank reason then sc_error (CwError "--reason must not be blank")
  else match parse_settle_input payload with
  | inl _ => sc_bad_payload
  | inr entries =>
      if bool_decide (row = QueueItemStatus.RUNNING)
      then sc_error (CwError "a live worker owns the convergence ledger")
      else if negb (String.eqb ledger.(lg_ticket_id) ticket_id)
      then sc_error (CwError "the ledger belongs to another ticket")
      else match operator_settle ledger entries actor reason now with
           | inl e => sc_error e
           | inr (updated, report) =>
               match report.(os_unmatched) with
               | [] => sc_saved updated report
               | un => sc_unmatched un
               end
           end
  end.
End SettleCommand.

(** ** Resuming *)

Inductive NextAction := na_loop_round | na_confirm | na_fix | na_done | na_stopped.

#[export] Instance NextAction_eq_dec : EqDecision NextAction.
Proof. solve_decision. Defined.

Definition released_since_last_round (ledger : ConvergenceLedger) : bool :=
  match last ledger.(lg_releases) with
  | Some r => Nat.eqb r.(sr_round) (length ledger.(lg_rounds))
  | None => false
  end.

Definition next_action (ledger : ConvergenceLedger) (head_sha : string)
  (default_merge_tolerated : bool) : NextAction :=
  if bool_decide (ledger.(lg_status) = converged)
     && (bool_decide (Some head_sha = ledger.(lg_last_clean_sha)) || default_merge_tolerated)
  then na_done
  else if bool_decide (ledger.(lg_status) = stopped) then na_stopped
  else if bool_decide (ledger.(lg_status) = awaiting_confirm)
          && bool_decide (Some head_sha = ledger.(lg_awaiting_confirm_sha))
  then na_confirm
  else if released_since_last_round ledger then na_loop_round
  else match last ledger.(lg_rounds) with
       | Some r =>
           if negb r.(ro_clean) && String.eqb r.(ro_reviewed_sha) head_sha
           then na_fix else na_loop_round
       | None => na_loop_round
       end.
