(* ===== verification/MergeTolerance.v ===== *)
(** * Moving past the clean sha by default-branch merges

    [merge_probe.py], [review_convergence/_merge_tolerance.py], [_release.py]
    and [_diff_base.py]: what git says about a merge, when a move of HEAD past
    the last clean round is tolerated, how [converge init] reconciles a
    persisted ledger with the world, and the review diff base.  git is the
    class [GitRepo]; the working directory is the worktree of the call. *)

From S2P Require Import Prelude PyStr PyText Markers ReviewModels TextMatch Findings Enums Tasks World Adjudication.
From S2P Require Import ConvergenceModels Convergence.
#[local] Open Scope cw_scope.

(** ** git *)

Record Completed := mkCompleted {
  returncode : Z;
  stdout : string;
  stderr : string }.

(** What a call that did not complete raised; the text of an [OSError] or
    [ValueError]. *)
Inductive GitFailure := OSError (msg : string) | GitValueError (msg : string) | TimeoutExpired.

(** [run_git(argv, cwd=worktree, capture_output=True)]. *)
Class GitRepo := run_git : list string → GitFailure + Completed.

Definition is_lower_hex (c : ascii) : bool :=
  let n := nat_of_ascii c in
  (Nat.leb 48 n && Nat.leb n 57) || (Nat.leb 97 n && Nat.leb n 102).

Fixpoint str_all (p : ascii → bool) (s : string) : bool :=
  match s with EmptyString => true | String c s' => p c && str_all p s' end.

(** [FULL_COMMIT_ID_RE.fullmatch]. *)
Definition FULL_COMMIT_ID_RE (s : string) : bool :=
  str_all is_lower_hex s
  && (Nat.eqb (String.length s) 40 || Nat.eqb (String.length s) 64).

(** [out.strip() or None]. *)
Definition strip_or_none (out : string) : option string :=
  if String.eqb (text_strip out) "" then None else Some (text_strip out).

Definition ok (r : GitFailure + Completed) : option string :=
  match r with
  | inr c => if Z.eqb c.(returncode) 0 then Some c.(stdout) else None
  | inl _ => None
  end.

(** [MergeTolerance(default_branch)]. *)
Notation MergeTolerance := string (only parsing).

Notation merge_parents := (list (string * list string)) (only parsing).

Section Git.
Context {G : GitRepo}.

(** ** Does a merge of the default branch conflict? *)

Definition _DETAIL_LIMIT : nat := 200.

Definition _git (argv : list string) : string + Completed :=
  let argv0 := default "" (head argv) in
  match run_git argv with
  | inr c => inr c
  | inl TimeoutExpired => inl ("git " +:+ argv0 +:+ " timed out after 10s")
  | inl (OSError e) | inl (GitValueError e) => inl ("git " +:+ argv0 +:+ " could not run: " +:+ e)
  end.

Definition _failure_detail (argv0 : string) (result : Completed) : string :=
  let lines := splitlines (text_strip result.(stderr)) in
  let reason := default "no output" (head lines) in
  cp_take _DETAIL_LIMIT
    ("git " +:+ argv0 +:+ " exited " +:+ str_of_Z result.(returncode) +:+ ": " +:+ reason).

Inductive MergeTreeStatus := mt_clean | mt_conflict | mt_unavailable.

Record MergeTreeResult := mkMergeTreeResult {
  mtr_status : MergeTreeStatus;
  mtr_tree : option string;
  mtr_conflicted_files : list string;
  mtr_detail : string }.

Definition _unavailable_tree (detail : string) : MergeTreeResult :=
  mkMergeTreeResult mt_unavailable None [] detail.

(** [s.split("\0")]: a list that is never empty. *)
Fixpoint split_nul (s : string) : string * list string :=
  match s with
  | EmptyString => ("", [])
  | String c s' =>
      let '(first, rest) := split_nul s' in
      if Nat.eqb (nat_of_ascii c) 0 then ("", first :: rest) else (String c first, rest)
  end.

(** [sorted({path for path in paths if path})]. *)
Definition sorted_paths (paths : list string) : list string :=
  merge_sort string_le (remove_dups (filter (λ p, p ≠ "") paths)).

Definition merge_tree (ours theirs : string) : MergeTreeResult :=
  match _git ["merge-tree"; "--write-tree"; "--no-messages"; "--name-only"; "-z"; ours; theirs]
  with
  | inl detail => _unavailable_tree detail
  | inr result =>
      if negb (Z.eqb result.(returncode) 0 || Z.eqb result.(returncode) 1)
      then _unavailable_tree (_failure_detail "merge-tree" result)
      else
        let '(first, rest) := split_nul result.(stdout) in
        let tree := text_strip first in
        let last_entry := default first (last rest) in
        if negb (FULL_COMMIT_ID_RE tree) || negb (String.eqb last_entry "")
        then _unavailable_tree "git merge-tree printed unreadable output"
        else if Z.eqb result.(returncode) 0
        then mkMergeTreeResult mt_clean (Some tree) [] ""
        else mkMergeTreeResult mt_conflict (Some tree) (sorted_paths (removelast rest)) ""
  end.

Inductive ProbeState := pr_up_to_date | pr_clean | pr_conflict | pr_unavailable.

Record MergeProbe := mkMergeProbe {
  mp_state : ProbeState;
  mp_base_sha : option string;
  mp_conflicted_files : list string;
  mp_detail : string }.

Definition _resolve_base (base : string) : string + string :=
  match _git ["rev-parse"; "--verify"; "--quiet";
              "refs/remotes/origin/" +:+ base +:+ "^{commit}"] with
  | inl detail => inl detail
  | inr result =>
      let sha := text_strip result.(stdout) in
      if negb (Z.eqb result.(returncode) 0) || negb (FULL_COMMIT_ID_RE sha)
      then inl ("origin/" +:+ base +:+ " does not resolve") else inr sha
  end.

Definition _already_merged (base_sha : string) : string + bool :=
  match _git ["merge-base"; "--is-ancestor"; base_sha; "HEAD"] with
  | inl detail => inl detail
  | inr result =>
      if Z.eqb result.(returncode) 0 then inr true
      else if Z.eqb result.(returncode) 1 then inr false
      else inl (_failure_detail "merge-base" result)
  end.

Definition probe_default_merge (base : string) : MergeProbe :=
  match _resolve_base base with
  | inl detail => mkMergeProbe pr_unavailable None [] detail
  | inr base_sha =>
      match _already_merged base_sha with
      | inl detail => mkMergeProbe pr_unavailable (Some base_sha) [] detail
      | inr true => mkMergeProbe pr_up_to_date (Some base_sha) [] ""
      | inr false =>
          let found := merge_tree "HEAD" base_sha in
          match found.(mtr_status) with
          | mt_unavailable => mkMergeProbe pr_unavailable (Some base_sha) [] found.(mtr_detail)
          | mt_clean => mkMergeProbe pr_clean (Some base_sha) found.(mtr_conflicted_files) ""
          | mt_conflict => mkMergeProbe pr_conflict (Some base_sha) found.(mtr_conflicted_files) ""
          end
      end
  end.

(** ** Which moves are tolerated *)

(** Seconds; the clock of the call returns microseconds. *)
Definition TIP_CHECK_BUDGET_SECONDS : Z := 30.
Definition _SHORT_SHA : nat := 7.

Definition REJECT_TOLERANCE_OFF : string := "tolerance_off".
Definition REJECT_NO_DEFAULT_REF : string := "no_default_ref".
Definition REJECT_CLEAN_NOT_ANCESTOR : string := "clean_not_ancestor".
Definition REJECT_NO_MERGE : string := "no_merge".
Definition REJECT_GIT_UNREADABLE : string := "git_unreadable".
Definition REJECT_NON_MERGE_COMMIT : string := "non_merge_commit".
Definition REJECT_NOT_TWO_PARENT : string := "not_two_parent".
Definition REJECT_SECOND_PARENT_NOT_ON_DEFAULT : string := "second_parent_not_on_default".
Definition REJECT_NOT_TEXTUALLY_CLEAN : string := "not_textually_clean".
Definition REJECT_MERGE_TREE_UNAVAILABLE : string := "merge_tree_unavailable".

Definition _STALE_DEFAULT_REF_REASONS : list string :=
  [REJECT_SECOND_PARENT_NOT_ON_DEFAULT; REJECT_NON_MERGE_COMMIT; REJECT_NO_DEFAULT_REF].

Definition is_stale_default_ref_symptom (rejection : string) : bool :=
  existsb (λ r, starts_with r rejection) _STALE_DEFAULT_REF_REASONS.

(** [context] and [review_obj] are JSON objects or [None]. *)
Definition tolerance_from_context (context review_obj : option (list (string * json)))
  : option MergeTolerance :=
  match context, review_obj with
  | Some ctx, Some review =>
      match dict_get_default "default_merge_tolerance" (JBool true) review with
      | JBool true =>
          match as_str (jget "origin_main_branch" (dict_get "world_state_snapshot" ctx)) with
          | Some branch => if String.eqb branch "" then None else Some branch
          | None => None
          end
      | _ => None
      end
  | _, _ => None
  end.

Definition git_stdout_or_none (argv : list string) : option string := ok (run_git argv).

Definition rev_parse_or_none (ref : string) : option string :=
  out ← git_stdout_or_none ["rev-parse"; ref]; strip_or_none out.

Fixpoint parse_merges (lines : list string) : option merge_parents :=
  match lines with
  | [] => Some []
  | line :: lines' =>
      match words line with
      | merge :: _ :: ((_ :: _) as others) =>
          rest ← parse_merges lines'; Some ((merge, others) :: rest)
      | _ => None
      end
  end.

Definition _merge_parents (span : string) : option merge_parents :=
  out ← git_stdout_or_none ["rev-list"; "--reverse"; "--first-parent"; "--parents"; "--merges"; span];
  parse_merges (splitlines out).

Definition _named (reason sha : string) : string := reason +:+ " " +:+ cp_take _SHORT_SHA sha.

Definition _own_commit_rejection (span default_sha : string) : option string :=
  match git_stdout_or_none ["rev-list"; "--reverse"; "--no-merges"; span; "^" +:+ default_sha] with
  | None => Some REJECT_GIT_UNREADABLE
  | Some own =>
      match words own with
      | [] => None
      | commit :: _ => Some (_named REJECT_NON_MERGE_COMMIT commit)
      end
  end.

Definition _merge_rejection (merge : string) (others : list string) (default_sha : string)
  : option string :=
  match others with
  | [other] =>
      if negb (is_Some_b
                 (git_stdout_or_none ["merge-base"; "--is-ancestor"; other; default_sha]))
      then Some (_named REJECT_SECOND_PARENT_NOT_ON_DEFAULT merge)
      else
        let written := merge_tree (merge +:+ "^1") (merge +:+ "^2") in
        match written.(mtr_status) with
        | mt_unavailable => Some (_named REJECT_MERGE_TREE_UNAVAILABLE merge)
        | st =>
            let own_tree := rev_parse_or_none (merge +:+ "^{tree}") in
            match st with
            | mt_clean =>
                if bool_decide (written.(mtr_tree) = own_tree) then None
                else Some (_named REJECT_NOT_TEXTUALLY_CLEAN merge)
            | _ => Some (_named REJECT_NOT_TEXTUALLY_CLEAN merge)
            end
        end
  | _ => Some (_named REJECT_NOT_TWO_PARENT merge)
  end.

Record Span := mkSpan {
  sp_default_sha : string;
  sp_span : string;
  sp_merges : merge_parents }.

Definition _span_or_rejection (clean_sha head_sha default_branch : string) : Span + string :=
  match rev_parse_or_none ("refs/remotes/origin/" +:+ default_branch +:+ "^{commit}") with
  | None => inr REJECT_NO_DEFAULT_REF
  | Some default_sha =>
      if negb (is_Some_b
                 (git_stdout_or_none ["merge-base"; "--is-ancestor"; clean_sha; head_sha]))
      then inr REJECT_CLEAN_NOT_ANCESTOR
      else
        let span := clean_sha +:+ ".." +:+ head_sha in
        match _merge_parents span with
        | None => inr REJECT_GIT_UNREADABLE
        | Some [] => inr REJECT_NO_MERGE
        | Some merges => inl (mkSpan default_sha span merges)
        end
  end.

(** The merge loop: the clock is read once before it and once per merge. *)
Fixpoint merges_rejection (clock : nat → Z) (started : Z) (reading : nat)
  (merges : merge_parents) (default_sha : string) : option string :=
  match merges with
  | [] => None
  | (merge, others) :: merges' =>
      if Z.leb (TIP_CHECK_BUDGET_SECONDS * 1000000) (clock reading - started)
      then Some (_named REJECT_MERGE_TREE_UNAVAILABLE merge)
      else match _merge_rejection merge others default_sha with
           | Some rejected => Some rejected
           | None => merges_rejection clock started (S reading) merges' default_sha
           end
  end.

Definition default_merge_rejection (clean_sha head_sha : string)
  (tolerance : option MergeTolerance) (clock : nat → Z) : option string :=
  match tolerance with
  | None => Some REJECT_TOLERANCE_OFF
  | Some default_branch =>
      match _span_or_rejection clean_sha head_sha default_branch with
      | inr reason => Some reason
      | inl found =>
          match _own_commit_rejection found.(sp_span) found.(sp_default_sha) with
          | Some own => Some own
          | None =>
              merges_rejection clock (clock 0) 1 found.(sp_merges) found.(sp_default_sha)
          end
      end
  end.

Definition default_merge_only (clean_sha head_sha : string) (tolerance : option MergeTolerance)
  (clock : nat → Z) : bool :=
  negb (is_Some_b (default_merge_rejection clean_sha head_sha tolerance clock)).

Definition converged_across_tolerated_merge (ledger : ConvergenceLedger) (head_sha : string)
  (tolerance : option MergeTolerance) (clock : nat → Z) : bool :=
  match ledger.(lg_last_clean_sha) with
  | None => false
  | Some clean =>
      if negb (finalize_ready ledger) || String.eqb head_sha clean then false
      else default_merge_only clean head_sha tolerance clock
  end.

(** The REVIEW staleness gate's question; [loaded] is the ledger read from the
    worktree, [None] for a missing or unreadable one. *)
Definition tolerates_review_move (clean_mode : bool) (tolerance : option MergeTolerance)
  (loaded : option ConvergenceLedger) (reviewed_sha head_sha : string) (clock : nat → Z)
  : bool :=
  if negb clean_mode then false
  else match loaded with
       | None => false
       | Some ledger =>
           if negb (bool_decide (ledger.(lg_last_clean_sha) = Some reviewed_sha)) then false
           else converged_across_tolerated_merge ledger head_sha tolerance clock
       end.

(** ** Reconciling at init *)

Definition _UNKNOWN_STOP : string := "unknown".

Definition history_rewritten (existing : option ConvergenceLedger) (head_sha : string)
  : exn + bool :=
  match existing ≫= (λ l, last l.(lg_rounds)) with
  | None => inr false
  | Some last_round =>
      match run_git ["merge-base"; "--is-ancestor"; last_round.(ro_reviewed_sha); head_sha] with
      | inl (OSError _) => inl (CwError "git merge-base could not run in ")
      | inl (GitValueError _) => inl ValueError
      | inl TimeoutExpired => inl TimeoutError
      | inr result =>
          if Z.eqb result.(returncode) 0 then inr false
          else if Z.eqb result.(returncode) 1 then inr true
          else inl (CwError "git merge-base --is-ancestor failed in ")
      end
  end.

Definition _reset_reason (existing : ConvergenceLedger) (ticket_id fork_point : string)
  (rewritten : bool) : option string :=
  if negb (String.eqb existing.(lg_ticket_id) ticket_id) then Some "ticket_mismatch"
  else if negb (String.eqb existing.(lg_fork_point) fork_point) then Some "fork_point_mismatch"
  else if rewritten then Some "history_rewritten"
  else None.

Definition _released (ledger : ConvergenceLedger) (cause : ReleaseCause) (head_sha now : string)
  (new_epoch : bool) : Reconciled :=
  let reason := if opt_truthy ledger.(lg_stop_reason) then default "" ledger.(lg_stop_reason)
                else _UNKNOWN_STOP in
  let release := mkStopRelease now (length ledger.(lg_rounds)) reason cause head_sha in
  let updated :=
    (((ledger <| lg_status := in_progress |>) <| lg_stop_reason := None |>)
       <| lg_stop_identities := [] |>)
      <| lg_releases := ledger.(lg_releases) ++ [release] |> in
  let updated :=
    if new_epoch
    then (updated <| lg_epoch_start_round := length ledger.(lg_rounds) |>)
           <| lg_fix_cycles_used := 0%Z |>
    else updated <| lg_window_start_round := length ledger.(lg_rounds) |> in
  mkReconciled updated None (Some release) false.

Definition _reconcile_stopped (ledger : ConvergenceLedger) (head_sha now : string) : Reconciled :=
  if negb (bool_decide (Some head_sha = ro_reviewed_sha <$> last ledger.(lg_rounds)))
  then _released ledger new_commits head_sha now true
  else match release_cause ledger with
       | None => mkReconciled ledger None None false
       | Some cause => _released ledger cause head_sha now false
       end.
End Git.

(** [ledger.model_dump(mode="json")]. *)
Class LedgerDump := ledger_dump : ConvergenceLedger → json.

Section Init.
Context {G : GitRepo} {D : LedgerDump}.

Definition reconcile_ledger_for_init (existing : option ConvergenceLedger)
  (fresh : ConvergenceLedger) (ticket_id fork_point : string) (rewritten : bool)
  (head_sha : string) (max_cycles : Z) (now : string) (default_merge_tolerated : bool)
  : Reconciled :=
  match existing with
  | None => mkReconciled fresh None None false
  | Some existing =>
      match _reset_reason existing ticket_id fork_point rewritten with
      | Some reset =>
          let previous := ledger_dump (existing <| lg_reset_history := [] |>) in
          mkReconciled (fresh <| lg_reset_history := [mkLedgerReset now reset previous] |>)
            (Some reset) None false
      | None =>
          let ledger := existing <| lg_max_cycles := max_cycles |> in
          let at_clean := bool_decide (Some head_sha = ledger.(lg_last_clean_sha)) in
          if bool_decide (ledger.(lg_status) = converged)
             && (at_clean || default_merge_tolerated)
          then mkReconciled ledger None None (negb at_clean)
          else
            let ledger :=
              (ledger <| lg_confirm_backend := fresh.(lg_confirm_backend) |>)
                <| lg_confirm_not_independent := fresh.(lg_confirm_not_independent) |> in
            match ledger.(lg_status) with
            | stopped => _reconcile_stopped ledger head_sha now
            | converged => mkReconciled (demote_for_rereview ledger) None None false
            | _ => mkReconciled ledger None None false
            end
      end
  end.

Definition owned_by (existing : option ConvergenceLedger) (ticket_id fork_point : string) : bool :=
  match existing with
  | Some l => String.eqb l.(lg_ticket_id) ticket_id && String.eqb l.(lg_fork_point) fork_point
  | None => false
  end.

Definition reconcile_for_init (existing : option ConvergenceLedger)
  (ticket_id fork_point head_sha : string) (max_cycles : Z) (loop_backend : string)
  (confirm : ResolvedBackend) (now : string) (tolerance : option MergeTolerance)
  (clock : nat → Z) : exn + Reconciled :=
  let fresh := new_ledger ticket_id fork_point head_sha max_cycles loop_backend confirm in
  let owned := owned_by existing ticket_id fork_point in
  match (if owned then history_rewritten existing head_sha else inr false) with
  | inl e => inl e
  | inr rewritten =>
      let tolerated :=
        match existing with
        | Some l =>
            owned && negb rewritten
            && converged_across_tolerated_merge l head_sha tolerance clock
        | None => false
        end in
      inr (reconcile_ledger_for_init existing fresh ticket_id fork_point rewritten head_sha
             max_cycles now tolerated)
  end.

(** ** The review diff base *)

(** [_git] of [_diff_base.py]: an [OSError] is a [CwError]. *)
Definition base_git (argv : list string) : exn + Completed :=
  match run_git argv with
  | inr c => inr c
  | inl (OSError _) => inl (CwError "git ")
  | inl (GitValueError _) => inl ValueError
  | inl TimeoutExpired => inl TimeoutError
  end.

Definition resolve_diff_base (default_branch ref : string) : exn + string :=
  match base_git ["merge-base"; "origin/" +:+ default_branch; ref] with
  | inl e => inl e
  | inr result =>
      if negb (Z.eqb result.(returncode) 0) then inl (CwError "git merge-base origin/")
      else match strip_or_none result.(stdout) with
           | None => inl (CwError "git merge-base origin/")
           | Some sha => inr sha
           end
  end.

Definition _origin_ref_resolves (default_branch : string) : exn + bool :=
  match base_git ["rev-parse"; "--verify"; "--quiet";
                  "origin/" +:+ default_branch +:+ "^{commit}"] with
  | inl e => inl e
  | inr probe =>
      inr (Z.eqb probe.(returncode) 0 && is_Some_b (strip_or_none probe.(stdout)))
  end.

Definition resolve_loop_diff_base (default_branch : string) : exn + string :=
  if FULL_COMMIT_ID_RE default_branch then inr default_branch
  else match _origin_ref_resolves default_branch with
       | inl e => inl e
       | inr false => inr default_branch
       | inr true => resolve_diff_base default_branch "HEAD"
       end.

Definition refresh_diff_base (default_branch : string) : exn + string :=
  match base_git ["fetch"; "origin"; default_branch] with
  | inl e => inl e
  | inr fetched =>
      if negb (Z.eqb fetched.(returncode) 0) then inl (CwError "git fetch origin ")
      else resolve_diff_base default_branch "HEAD"
  end.

Definition _require_ancestor (sha : string) : exn + unit :=
  match base_git ["merge-base"; "--is-ancestor"; sha; "HEAD"] with
  | inl e => inl e
  | inr result =>
      if Z.eqb result.(returncode) 0 then inr tt
      else if Z.eqb result.(returncode) 1 then inl (CwError "diff base ")
      else inl (CwError "git merge-base --is-ancestor failed in ")
  end.

Definition verify_diff_base (diff_base : option string) (default_branch : string)
  : exn + string :=
  match diff_base with
  | None => inl (CwError "the ledger records no diff base; ")
  | Some base =>
      match base_git ["rev-parse"; "--verify"; "--quiet"; base +:+ "^{commit}"] with
      | inl e => inl e
      | inr commit =>
          match Z.eqb commit.(returncode) 0, strip_or_none commit.(stdout) with
          | true, Some sha =>
              match _require_ancestor sha with
              | inl e => inl e
              | inr _ =>
                  match resolve_diff_base default_branch "HEAD" with
                  | inl e => inl e
                  | inr live =>
                      if String.eqb live sha then inr sha else inl (CwError "diff base ")
                  end
              end
          | _, _ => inl (CwError "diff base ")
          end
      end
  end.
End Init.
