(* ===== verification/ConvergenceProps.v ===== *)
(** * What the convergence ledger promises

    A ledger reached by any sequence of rounds, confirm outages, operator
    settles, inits and demotions is well formed: it converges only on a clean
    last round, confirmed at the same sha when an independent confirm applies.
    The engine refines a four-phase machine, dirty rounds are bounded by the
    cap, a settled finding never reopens the loop, and the settle payload of a
    stop releases it. *)

From S2P Require Import Prelude PyStr PyText Markers ReviewModels TextMatch Findings Enums Tasks World Adjudication.
From S2P Require Import ConvergenceModels Convergence MergeTolerance.
#[local] Open Scope nat_scope.
#[local] Open Scope cw_scope.

(** ** Dicts and first-seen lists *)

Section Dicts.
Context {K V E : Type} `{Countable K} (key : E → K) (val : E → V).

Lemma foldl_insert_None es (m : gmap K V) k :
  foldl (λ m e, <[key e := val e]> m) m es !! k = None ↔ m !! k = None ∧ k ∉ map key es.
Proof.
  revert m. induction es as [|e es IH]; intros m; simpl.
  { split; [|tauto]. intros Hk. split; [done|]. by intros Hn%elem_of_nil. }
  rewrite IH, lookup_insert_None, not_elem_of_cons. naive_solver.
Qed.

Lemma foldl_insert_Some es (m : gmap K V) k v :
  foldl (λ m e, <[key e := val e]> m) m es !! k = Some v →
  m !! k = Some v ∨ ∃ e, e ∈ es ∧ key e = k ∧ val e = v.
Proof.
  revert m. induction es as [|e es IH]; intros m; simpl; [by left|].
  intros [Hm|(e' & He' & Hk)]%IH.
  - apply lookup_insert_Some in Hm as [[Hk Hv]|[_ Hm]]; [|by left].
    right. exists e. split; [by left|done].
  - right. exists e'. split; [by right|done].
Qed.
End Dicts.

Lemma first_seen_spec {X} `{EqDecision X} (xs acc : list X) :
  NoDup acc →
  let out := foldl (λ seen x, if decide (x ∈ seen) then seen else seen ++ [x]) acc xs in
  NoDup out ∧ ∀ x, x ∈ out ↔ x ∈ acc ∨ x ∈ xs.
Proof.
  cbv zeta. revert acc. induction xs as [|x xs IH]; intros acc Hnd; simpl.
  { split; [done|]. intros x. split; [by left|]. by intros [?|?%elem_of_nil]. }
  destruct (decide (x ∈ acc)) as [Hx|Hx].
  - destruct (IH acc Hnd) as [H1 H2]. split; [done|]. intros y. rewrite H2, elem_of_cons.
    naive_solver.
  - destruct (IH (acc ++ [x])) as [H1 H2].
    { apply NoDup_app. split; [done|]. split; [|apply NoDup_singleton].
      intros y Hy ->%list_elem_of_singleton. done. }
    split; [done|]. intros y. rewrite H2, elem_of_app, list_elem_of_singleton, elem_of_cons.
    tauto.
Qed.

Lemma first_seen_elem {X} `{EqDecision X} (xs : list X) x : x ∈ first_seen xs ↔ x ∈ xs.
Proof.
  unfold first_seen. destruct (first_seen_spec xs [] ltac:(constructor)) as [_ H].
  rewrite H. split; [|by right]. by intros [Hn%elem_of_nil|].
Qed.

(** ** The new-accepted rule *)

Definition is_settled (ledger : ConvergenceLedger) (f : RoundFinding) : bool :=
  bool_decide (identity_of f ∈ map st_identity ledger.(lg_settled)).

Lemma settled_index_None ledger i :
  settled_index ledger !! i = None ↔ i ∉ map st_identity ledger.(lg_settled).
Proof.
  unfold settled_index. rewrite (foldl_insert_None st_identity id), lookup_empty. tauto.
Qed.

Lemma settled_index_is_settled ledger f :
  is_settled ledger f = is_Some_b (settled_index ledger !! identity_of f).
Proof.
  unfold is_settled. destruct (settled_index ledger !! identity_of f) eqn:E; cbn.
  - apply bool_decide_eq_true. destruct (decide (identity_of f ∈ map st_identity
      (lg_settled ledger))) as [|Hn]; [done|]. apply settled_index_None in Hn. congruence.
  - by apply bool_decide_eq_false, settled_index_None.
Qed.

Definition has_outcome (o : AdjudicationOutcome) (f : RoundFinding) : bool :=
  bool_decide (f.(rn_outcome) = o).

(** The findings of one outcome the ledger has not settled, in order. *)
Definition open_with (ledger : ConvergenceLedger) (o : AdjudicationOutcome)
  (findings : list RoundFinding) : list RoundFinding :=
  filter (λ f, has_outcome o f && negb (is_settled ledger f) = true) findings.

Definition newly_ok (ledger : ConvergenceLedger) (findings : list RoundFinding)
  (entries : list SettledEntry) : Prop :=
  NoDup (map st_identity entries)
  ∧ (∀ e, e ∈ entries → e.(st_origin) = by_adjudication
       ∧ e.(st_identity) ∉ map st_identity ledger.(lg_settled)
       ∧ ∃ f, f ∈ findings ∧ e.(st_identity) = identity_of f
            ∧ f.(rn_outcome) = settled_outcome e.(st_outcome))
  ∧ (∀ f, f ∈ findings → is_settled ledger f = false →
       f.(rn_outcome) = o_reject ∨ f.(rn_outcome) = o_defer →
       identity_of f ∈ map st_identity entries).

Lemma classify_one_step ledger n c f :
  let c' := classify_one (settled_index ledger) n c f in
  c'.(cl_new_fix) = c.(cl_new_fix)
    ++ (if has_outcome o_fix f && negb (is_settled ledger f) then [f] else [])
  ∧ c'.(cl_new_operator) = c.(cl_new_operator)
    ++ (if has_outcome o_operator_action f && negb (is_settled ledger f) then [f] else [])
  ∧ c'.(cl_resurfaced) = (c.(cl_resurfaced) + (if is_settled ledger f then 1 else 0))%Z.
Proof.
  cbv zeta. destruct c as [nf no ns rs]. unfold classify_one, has_outcome.
  rewrite settled_index_is_settled.
  destruct (settled_index ledger !! identity_of f); cbn.
  { by rewrite !andb_false_r, !app_nil_r. }
  destruct (rn_outcome f); cbn; repeat case_decide; rewrite ?app_nil_r; cbn;
    (split; [done|]; split; [done|]; lia).
Qed.

Lemma open_with_snoc ledger o fs f :
  open_with ledger o (fs ++ [f])
  = open_with ledger o fs ++ (if has_outcome o f && negb (is_settled ledger f) then [f] else []).
Proof.
  unfold open_with. rewrite filter_app, filter_cons. by destruct (_ && _).
Qed.

Lemma classify_open ledger findings n :
  let c := classify_findings ledger findings n in
  c.(cl_new_fix) = open_with ledger o_fix findings
  ∧ c.(cl_new_operator) = open_with ledger o_operator_action findings
  ∧ c.(cl_resurfaced) = count_if (is_settled ledger) findings.
Proof.
  cbv zeta. unfold classify_findings. induction findings as [|f fs IH] using rev_ind; [done|].
  rewrite foldl_app. cbn [foldl]. destruct IH as (H1 & H2 & H3).
  destruct (classify_one_step ledger n (foldl (classify_one (settled_index ledger) n)
    (mkClassified [] [] [] 0) fs) f) as (-> & -> & ->).
  rewrite H1, H2, H3, !open_with_snoc. split; [done|]. split; [done|].
  unfold count_if. rewrite filter_app, length_app, filter_cons, filter_nil.
  case_decide as Hd; [rewrite Hd|apply not_true_is_false in Hd; rewrite Hd]; cbn [length filter];
    lia.
Qed.

Lemma classify_one_newly ledger n c f fs :
  newly_ok ledger fs c.(cl_newly_settled) →
  newly_ok ledger (fs ++ [f]) (classify_one (settled_index ledger) n c f).(cl_newly_settled).
Proof.
  intros (Hnd & Hent & Hall). destruct c as [nf no ns rs]. cbn [cl_newly_settled] in *.
  pose proof (settled_index_is_settled ledger f) as Hs.
  assert (Hkeep : (is_settled ledger f = false →
      f.(rn_outcome) = o_reject ∨ f.(rn_outcome) = o_defer → identity_of f ∈ map st_identity ns) →
    newly_ok ledger (fs ++ [f]) ns).
  { intros Hf. split; [done|]. split.
    - intros e He. destruct (Hent e He) as (H1 & H2 & g & Hg & H3). split; [done|]. split; [done|].
      exists g. split; [apply elem_of_app; by left|done].
    - intros g [Hg| ->%list_elem_of_singleton]%elem_of_app; auto. }
  unfold classify_one. destruct (settled_index ledger !! identity_of f) eqn:Hidx; cbn in Hs.
  { apply Hkeep. congruence. }
  assert (Hnew : (f.(rn_outcome) = o_reject ∨ f.(rn_outcome) = o_defer) →
    identity_of f ∉ map st_identity ns →
    newly_ok ledger (fs ++ [f]) (ns ++ [adjudicated_entry f n])).
  { intros Ho Hni. split; [|split].
    - rewrite map_app. apply NoDup_app. split; [done|]. split; [|apply NoDup_singleton].
      intros i Hi ->%list_elem_of_singleton. done.
    - intros e [He| ->%list_elem_of_singleton]%elem_of_app.
      + destruct (Hent e He) as (H1 & H2 & g & Hg & H3). split; [done|]. split; [done|].
        exists g. split; [apply elem_of_app; by left|done].
      + split; [done|]. split; [by apply settled_index_None|]. exists f.
        split; [apply elem_of_app; right; by left|]. split; [done|].
        unfold adjudicated_entry. cbn [st_outcome]. destruct Ho as [-> | ->]; done.
    - intros g Hg Hgs Hgo. rewrite map_app, elem_of_app.
      apply elem_of_app in Hg as [Hg| ->%list_elem_of_singleton]; [left; auto|right; by left]. }
  destruct (rn_outcome f) eqn:Ho; cbn [cl_newly_settled];
    [apply Hkeep; by intros _ [?|?]| | |apply Hkeep; by intros _ [?|?]];
    (case_decide; [apply Hkeep; by intros _ _|apply Hnew; auto]).
Qed.

Lemma classify_newly ledger findings n :
  newly_ok ledger findings (classify_findings ledger findings n).(cl_newly_settled).
Proof.
  unfold classify_findings. induction findings as [|f fs IH] using rev_ind.
  - split; [constructor|]. split; [by intros e He%elem_of_nil|by intros f Hf%elem_of_nil].
  - rewrite foldl_app. by apply classify_one_newly.
Qed.

Lemma suppress_keeps_identity idx f : identity_of (suppress_finding_settled idx f) = identity_of f.
Proof.
  unfold suppress_finding_settled. destruct (idx !! identity_of f); [by destruct f|done].
Qed.

(** ** One recorded round *)

Definition round_class (L : ConvergenceLedger) (a : RoundArgs) : Classified :=
  classify_findings L a.(ra_findings) (length L.(lg_rounds) + 1).

Definition the_round (L : ConvergenceLedger) (a : RoundArgs) : RoundRecord :=
  round_record L a (round_class L a).

Definition the_outcome (L : ConvergenceLedger) (a : RoundArgs) : Outcome :=
  _decide L (round_class L a) (the_round L a) (L.(lg_rounds) ++ [the_round L a]).

(** The round keeps the loop open: some finding is accepted and unsettled. *)
Definition clean_round (L : ConvergenceLedger) (a : RoundArgs) : bool :=
  Z.eqb (cl_new_accepted (round_class L a)) 0.

Definition may_record (L : ConvergenceLedger) (a : RoundArgs) : Prop :=
  a.(ra_kind) ≠ k_delta
  ∧ (L.(lg_status) = in_progress ∨ L.(lg_status) = awaiting_confirm)
  ∧ (a.(ra_kind) = k_confirm →
       L.(lg_status) = awaiting_confirm ∧ L.(lg_awaiting_confirm_sha) = Some a.(ra_reviewed_sha)
       ∧ a.(ra_backend) = backend_value L.(lg_confirm_backend))
  ∧ (clean_round L a = true → ∀ u, a.(ra_unread) = Some u → unread_any u = false).

Definition with_round (L : ConvergenceLedger) (a : RoundArgs) : ConvergenceLedger :=
  set_frozen_once a.(ra_frozen)
    (((L <| lg_rounds := L.(lg_rounds) ++ [the_round L a] |>)
        <| lg_settled := L.(lg_settled) ++ (round_class L a).(cl_newly_settled) |>)
       <| lg_awaiting_confirm_sha := None |>).

Definition after_round (L : ConvergenceLedger) (a : RoundArgs) : ConvergenceLedger :=
  _transition L (the_outcome L a) (round_class L a) (the_round L a) (with_round L a).

Lemma guard_unread_ok u : _guard_unread u = inr tt ↔ ∀ x, u = Some x → unread_any x = false.
Proof.
  unfold _guard_unread, unread_any. destruct u as [u|]; [|naive_solver].
  split; [intros H x [= <-]|intros H; specialize (H u eq_refl)];
    destruct (Z.eqb (un_rejected_must_fix u) 0), (Z.eqb (un_discarded_run_failures u) 0),
      (bool_decide (un_failed_roles u = [])), (Z.eqb (un_unreviewed_shards u) 0);
    cbn in *; done.
Qed.

Lemma confirm_preconditions_ok L backend sha :
  _require_confirm_preconditions L backend sha = inr tt ↔
  L.(lg_status) = awaiting_confirm ∧ L.(lg_awaiting_confirm_sha) = Some sha
  ∧ backend = backend_value L.(lg_confirm_backend).
Proof.
  unfold _require_confirm_preconditions. case_bool_decide; cbn [negb]; [|naive_solver].
  case_bool_decide; cbn [negb]; [|naive_solver].
  destruct (String.eqb_spec backend (backend_value (lg_confirm_backend L))); cbn [negb];
    naive_solver.
Qed.

Lemma sum_unit_cases {E} (x : E + unit) : x = inr tt ∨ ∃ e, x = inl e.
Proof. destruct x as [e|[]]; eauto. Qed.

(** [record_round] records exactly when its preconditions hold, and then the
    result is [after_round]. *)
Lemma record_round_spec L a :
  (may_record L a ∧ record_round L a
     = inr (after_round L a, _report (after_round L a) (the_outcome L a) (the_round L a)))
  ∨ (¬ may_record L a ∧ ∃ e, record_round L a = inl e).
Proof.
  unfold record_round, may_record, _require_recordable_kind, _require_open_ledger.
  assert (Hk : ra_kind a ∈ RECORDABLE_ROUND_KINDS ↔ ra_kind a ≠ k_delta).
  { destruct (ra_kind a); vm_compute; set_solver. }
  assert (Ho : lg_status L ∈ [stopped; converged]
    ↔ ¬ (lg_status L = in_progress ∨ lg_status L = awaiting_confirm)).
  { rewrite !elem_of_cons, elem_of_nil. destruct (lg_status L); naive_solver. }
  case_bool_decide as Hk'; [|right; naive_solver].
  case_bool_decide as Ho'; [right; naive_solver|].
  destruct (sum_unit_cases (if bool_decide (ra_kind a = k_confirm)
    then _require_confirm_preconditions L (ra_backend a) (ra_reviewed_sha a) else inr tt))
    as [Hc|[e Hc]]; rewrite Hc; cycle 1.
  { right. split; [|by exists e]. intros (_ & _ & Hconf & _).
    case_bool_decide as Hkc; [|done]. specialize (Hconf Hkc).
    apply confirm_preconditions_ok in Hconf. congruence. }
  assert (Hc' : ra_kind a = k_confirm → lg_status L = awaiting_confirm
    ∧ lg_awaiting_confirm_sha L = Some (ra_reviewed_sha a)
    ∧ ra_backend a = backend_value (lg_confirm_backend L)).
  { intros Hkc. rewrite bool_decide_true in Hc by done. by apply confirm_preconditions_ok. }
  unfold _apply_round. fold (round_class L a). fold (clean_round L a).
  destruct (sum_unit_cases (if clean_round L a then _guard_unread (ra_unread a) else inr tt))
    as [Hg|[e Hg]]; rewrite Hg; [left|right].
  - split; [|done]. split; [by apply Hk|]. split; [destruct (lg_status L); naive_solver|].
    split; [done|]. intros Hcl. rewrite Hcl in Hg. by apply guard_unread_ok.
  - split; [|by exists e]. intros (_ & _ & _ & Hun).
    destruct (clean_round L a); [|done]. apply guard_unread_ok in Hun; [congruence|done].
Qed.

Lemma record_round_ok L a L' rep :
  record_round L a = inr (L', rep) →
  may_record L a ∧ L' = after_round L a
  ∧ rep = _report (after_round L a) (the_outcome L a) (the_round L a).
Proof.
  intros H. destruct (record_round_spec L a) as [[Hm Hr]|[_ [e Hr]]]; rewrite H in Hr;
    [by injection Hr as -> ->|done].
Qed.

(** What a round can decide. *)
Inductive outcome_case (L : ConvergenceLedger) (a : RoundArgs) : Outcome → Prop :=
  | oc_confirm :
      clean_round L a = true → a.(ra_kind) = k_loop → has_independent_confirm L = true →
      outcome_case L a (mkOutcome dec_confirm_required None [])
  | oc_clean :
      clean_round L a = true → (a.(ra_kind) = k_loop → has_independent_confirm L = false) →
      outcome_case L a (mkOutcome dec_clean None [])
  | oc_oscillates ids :
      clean_round L a = false → ids ≠ [] →
      ids = detect_oscillation L
        ((round_class L a).(cl_new_fix) ++ (round_class L a).(cl_new_operator))
        a.(ra_reviewed_sha) →
      outcome_case L a (mkOutcome dec_stop_not_converging (Some STOP_OSCILLATION) ids)
  | oc_operator ids :
      clean_round L a = false → (round_class L a).(cl_new_operator) ≠ [] →
      ids = first_seen (map identity_of (round_class L a).(cl_new_operator)) →
      outcome_case L a (mkOutcome dec_stop_operator_action (Some STOP_OPERATOR_ACTION) ids)
  | oc_stalled :
      clean_round L a = false →
      outcome_case L a (mkOutcome dec_stop_not_converging (Some STOP_NO_PROGRESS) [])
  | oc_capped :
      clean_round L a = false → max_cycles_exhausted L = true →
      outcome_case L a (mkOutcome dec_stop_max_cycles (Some STOP_MAX_CYCLES) [])
  | oc_continues :
      clean_round L a = false → max_cycles_exhausted L = false →
      outcome_case L a (mkOutcome dec_continue None []).

Lemma the_outcome_cases L a : outcome_case L a (the_outcome L a).
Proof.
  unfold the_outcome, _decide. change (ro_clean (the_round L a)) with (clean_round L a).
  destruct (clean_round L a) eqn:Hc.
  - change (ro_kind (the_round L a)) with (ra_kind a). unfold _clean_decision.
    case_bool_decide as Hk; cbn [andb]; [destruct (has_independent_confirm L) eqn:Hi|].
    + by apply oc_confirm.
    + by apply oc_clean.
    + by apply oc_clean.
  - cbv zeta. change (ro_reviewed_sha (the_round L a)) with (ra_reviewed_sha a).
    destruct (detect_oscillation L _ _) as [|i ids] eqn:Ho.
    + case_bool_decide as Hop; cbn [negb]; [|by apply oc_operator].
      destruct (detect_no_progress _ _ _); [by apply oc_stalled|].
      destruct (max_cycles_exhausted L) eqn:Hm; [by apply oc_capped|by apply oc_continues].
    + by apply oc_oscillates.
Qed.

(** The fields a recorded round leaves alone or sets, whatever it decided. *)
Lemma with_round_fields L a :
  (with_round L a).(lg_rounds) = L.(lg_rounds) ++ [the_round L a]
  ∧ (with_round L a).(lg_settled) = L.(lg_settled) ++ (round_class L a).(cl_newly_settled)
  ∧ (with_round L a).(lg_awaiting_confirm_sha) = None
  ∧ (with_round L a).(lg_fixed) = L.(lg_fixed)
  ∧ (with_round L a).(lg_stop_reason) = L.(lg_stop_reason)
  ∧ (with_round L a).(lg_stop_identities) = L.(lg_stop_identities)
  ∧ (with_round L a).(lg_last_clean_sha) = L.(lg_last_clean_sha)
  ∧ (with_round L a).(lg_epoch_start_round) = L.(lg_epoch_start_round)
  ∧ (with_round L a).(lg_window_start_round) = L.(lg_window_start_round)
  ∧ (with_round L a).(lg_fix_cycles_used) = L.(lg_fix_cycles_used)
  ∧ (with_round L a).(lg_max_cycles) = L.(lg_max_cycles)
  ∧ (with_round L a).(lg_confirm_backend) = L.(lg_confirm_backend)
  ∧ (with_round L a).(lg_confirm_not_independent) = L.(lg_confirm_not_independent)
  ∧ (with_round L a).(lg_releases) = L.(lg_releases)
  ∧ (with_round L a).(lg_confirm_failures) = L.(lg_confirm_failures).
Proof.
  unfold with_round, set_frozen_once. destruct L as [? ? ? ? ? ? ? ? ? [?|]]; cbn; [tauto|].
  destruct (ra_frozen a); cbn; tauto.
Qed.
