(* ===== verification/ConvergenceLife.v ===== *)
(** * The life of a convergence ledger

    Rounds, confirm outages, operator settles, inits, demotions and diff-base
    pins as a step relation, the invariant every reachable ledger keeps, and the
    four-phase machine the engine implements. *)

From S2P Require Import Prelude PyStr PyText Markers ReviewModels TextMatch Findings Enums Tasks World Adjudication.
From S2P Require Import ConvergenceModels Convergence MergeTolerance ConvergenceProps.
#[local] Open Scope nat_scope.
#[local] Open Scope cw_scope.

(** ** Settling *)

Notation ids := (map st_identity).

Lemma ids_perm (xs ys : list SettledEntry) : xs ≡ₚ ys → ids xs ≡ₚ ids ys.
Proof. apply fmap_Permutation. Qed.

Lemma ids_elem i (xs : list SettledEntry) : i ∈ ids xs ↔ ∃ e, e ∈ xs ∧ e.(st_identity) = i.
Proof. rewrite list_elem_of_fmap. naive_solver. Qed.

Lemma put_entry_spec e m :
  NoDup (ids m) →
  NoDup (ids (put_entry e m))
  ∧ e ∈ put_entry e m
  ∧ (∀ x, x ∈ put_entry e m → x = e ∨ x ∈ m)
  ∧ (∀ i, i ∈ ids (put_entry e m) ↔ i = e.(st_identity) ∨ i ∈ ids m).
Proof.
  induction m as [|x m IH]; cbn; intros Hnd.
  { split; [apply NoDup_singleton|]. split; [by left|].
    split; intros y; rewrite ?list_elem_of_singleton, ?elem_of_nil; tauto. }
  apply NoDup_cons in Hnd as [Hx Hnd]. destruct (IH Hnd) as (H1 & H2 & H3 & H4).
  destruct (decide (st_identity x = st_identity e)) as [Heq|Hne]; cbn [map].
  - rewrite <- Heq. split; [by apply NoDup_cons|]. split; [by left|].
    split; intros y; rewrite !elem_of_cons; tauto.
  - split; [apply NoDup_cons; split; [|done]; rewrite H4; naive_solver|].
    split; [by right|]. split.
    + intros y. rewrite !elem_of_cons. intros [?|Hy]; [tauto|]. destruct (H3 _ Hy); tauto.
    + intros i. rewrite !elem_of_cons, H4. tauto.
Qed.

Lemma pop_entry_spec i pending found rest :
  pop_entry i pending = (found, rest) →
  match found with
  | Some e => e.(st_identity) = i ∧ pending ≡ₚ e :: rest
  | None => i ∉ ids pending ∧ rest = pending
  end.
Proof.
  revert found rest. induction pending as [|x pending IH]; cbn; intros found rest.
  { intros [= <- <-]. split; [apply not_elem_of_nil|done]. }
  destruct (decide (st_identity x = i)) as [<-|Hne]; [by intros [= <- <-]|].
  destruct (pop_entry i pending) as [f r]. specialize (IH _ _ eq_refl). intros [= <- <-].
  destruct f as [e|].
  - destruct IH as [He Hp]. split; [done|]. rewrite Hp. apply Permutation_swap.
  - destruct IH as [Hn ->]. split; [|done]. rewrite not_elem_of_cons. naive_solver.
Qed.

Record refresh_ok (settled pending s p : list SettledEntry) : Prop := {
  rf_ids : ids s = ids settled;
  rf_nodup : NoDup (ids p);
  rf_fresh : ∀ i, i ∈ ids p → i ∉ ids settled;
  rf_kept : ∀ e, e ∈ pending → e ∈ s ∨ e ∈ p;
  rf_from_p : ∀ e, e ∈ p → e ∈ pending;
  rf_from_s : ∀ e, e ∈ s → e ∈ settled ∨ e ∈ pending }.

Lemma refresh_settled_ok settled pending s p :
  refresh_settled settled pending = (s, p) → NoDup (ids pending) → NoDup (ids settled) →
  refresh_ok settled pending s p.
Proof.
  revert pending s p. induction settled as [|x settled IH]; cbn; intros pending s p.
  { intros [= <- <-] Hp _. split; auto using not_elem_of_nil. }
  destruct (pop_entry (st_identity x) pending) as [f r] eqn:Hpop. apply pop_entry_spec in Hpop.
  destruct (refresh_settled settled r) as [s' p'] eqn:Hr. intros [= <- <-] Hnp Hns.
  apply NoDup_cons in Hns as [Hx Hns].
  destruct f as [e|]; cbn [default from_option id].
  - destruct Hpop as [He Hperm]. rewrite (ids_perm _ _ Hperm) in Hnp. cbn in Hnp.
    apply NoDup_cons in Hnp as [Her Hnr]. specialize (IH _ _ _ Hr Hnr Hns) as [H1 H2 H3 H4 H5 H6].
    assert (Hin : ∀ y, y ∈ pending ↔ y = e ∨ y ∈ r) by (intros y; by rewrite Hperm, elem_of_cons).
    split; cbn; [congruence|done| | | |].
    + intros i Hi. rewrite not_elem_of_cons. split; [|auto]. rewrite <- He. intros ->.
      apply ids_elem in Hi as (y & Hy & Hyi). apply Her, ids_elem. eauto.
    + intros y Hy. apply Hin in Hy as [->|Hy]; [left; by left|].
      destruct (H4 _ Hy); [left; by right|by right].
    + intros y Hy. apply Hin. auto.
    + intros y [->|Hy]%elem_of_cons; [right; apply Hin; auto|].
      destruct (H6 _ Hy); [left; by right|right; apply Hin; auto].
  - destruct Hpop as [Hn ->]. specialize (IH _ _ _ Hr Hnp Hns) as [H1 H2 H3 H4 H5 H6].
    split; cbn; [congruence|done| | |done|].
    + intros i Hi. rewrite not_elem_of_cons. split; [|auto]. intros ->.
      apply ids_elem in Hi as (y & Hy & Hyi). apply Hn, ids_elem. eauto.
    + intros y Hy. destruct (H4 _ Hy); [left; by right|by right].
    + intros y [->|Hy]%elem_of_cons; [left; by left|].
      destruct (H6 _ Hy); [left; by right|by right].
Qed.

(** The settled memory after a settle: one entry per identity, the recorded
    targets added, each with an operator entry. *)
Record settles (L : ConvergenceLedger) (targets : list SettleTarget)
  (s : list SettledEntry) : Prop := {
  se_nodup : NoDup (ids s);
  se_ids : ∀ i, i ∈ ids s ↔
    i ∈ ids L.(lg_settled) ∨ (i ∈ map target_identity targets ∧ i ∈ _recorded_identities L);
  se_operator : ∀ i, i ∈ map target_identity targets → i ∈ _recorded_identities L →
    ∃ e, e ∈ s ∧ e.(st_identity) = i ∧ is_operator_settle e = true }.

Section Settle.
Context {C : CloseMatch}.

Lemma settle_targets_spec recorded reason actor now sha round targets acc un matched un' :
  foldl (settle_target recorded reason actor now sha round) (acc, un) targets
    = (matched, un') →
  NoDup (ids acc) → (∀ e, e ∈ acc → is_operator_settle e = true) →
  NoDup (ids matched)
  ∧ (∀ e, e ∈ matched → is_operator_settle e = true)
  ∧ (∀ i, i ∈ ids matched ↔
       i ∈ ids acc ∨ (i ∈ map target_identity targets ∧ i ∈ recorded)).
Proof.
  revert acc un. induction targets as [|t targets IH]; cbn [foldl map]; intros acc un.
  { intros [= <- <-] Hnd Hop. split; [done|]. split; [done|]. intros i.
    rewrite elem_of_nil. tauto. }
  unfold settle_target at 2. case_decide as Hrec; intros Hf Hnd Hop.
  - set (e0 := operator_entry (target_identity t) reason actor now sha round) in *.
    destruct (put_entry_spec e0 acc Hnd) as (P1 & P2 & P3 & P4).
    destruct (IH _ _ Hf P1) as (H1 & H2 & H3).
    { intros e He. destruct (P3 _ He) as [->|]; auto. }
    split; [done|]. split; [done|]. intros i. rewrite H3, P4, elem_of_cons.
    change (st_identity e0) with (target_identity t). naive_solver.
  - destruct (IH _ _ Hf Hnd Hop) as (H1 & H2 & H3). split; [done|]. split; [done|].
    intros i. rewrite H3, elem_of_cons. naive_solver.
Qed.

Lemma set_settled_same L : L <| lg_settled := L.(lg_settled) |> = L.
Proof. by destruct L. Qed.

Lemma operator_settle_ok L targets actor reason now L' report :
  NoDup (ids L.(lg_settled)) →
  operator_settle L targets actor reason now = inr (L', report) →
  (∃ r, last L.(lg_rounds) = Some r)
  ∧ ∃ s, L' = L <| lg_settled := s |> ∧ settles L targets s.
Proof.
  intros Hnd. unfold operator_settle. destruct (last (lg_rounds L)) as [r|] eqn:Hl; [|done].
  destruct (foldl _ _ _) as [matched un] eqn:Hf. intros H. split; [by exists r|].
  apply settle_targets_spec in Hf as (M1 & M2 & M3);
    [|constructor|by intros e He%elem_of_nil].
  assert (M3' : ∀ i, i ∈ ids matched ↔ i ∈ map target_identity targets
    ∧ i ∈ _recorded_identities L).
  { intros i. rewrite M3. cbn. rewrite elem_of_nil. tauto. }
  destruct matched as [|m ms].
  - injection H as <- <-. exists L.(lg_settled). split; [by rewrite set_settled_same|].
    split; [done| |].
    + intros i. rewrite <- M3'. cbn. rewrite elem_of_nil. tauto.
    + intros i H1 H2. exfalso. apply (not_elem_of_nil i). by apply (M3' i).
  - destruct (refresh_settled (lg_settled L) (m :: ms)) as [s p] eqn:Hr.
    injection H as <- <-. exists (s ++ p). split; [done|].
    destruct (refresh_settled_ok _ _ _ _ Hr M1 Hnd) as [R1 R2 R3 R4 R5 R6].
    split.
    + rewrite map_app, R1. apply NoDup_app. split; [done|]. split; [|done].
      intros i Hi Hp. by apply (R3 _ Hp).
    + intros i. rewrite map_app, R1, elem_of_app, <- M3'. split; [intros [?|Hp]; [by left|]|].
      * right. apply ids_elem in Hp as (e & He & <-). apply ids_elem. eauto.
      * intros [?|Hm]; [by left|]. apply ids_elem in Hm as (e & He & <-).
        destruct (R4 _ He) as [Hs|Hp]; [left; rewrite <- R1|right]; apply ids_elem; eauto.
    + intros i H1 H2. assert (Hi : i ∈ ids (m :: ms)) by by apply M3'.
      apply ids_elem in Hi as (e & He & <-). exists e. split; [|split; [done|auto]].
      apply elem_of_app, R4, He.
Qed.
End Settle.

(** ** The life of a ledger *)

Section Life.
Context {C : CloseMatch} {G : GitRepo} {D : LedgerDump}.

(** Everything the command line does to a stored ledger; a call that raises
    saves nothing. *)
Inductive ledger_step : ConvergenceLedger → ConvergenceLedger → Prop :=
  | step_round L a L' report :
      record_round L a = inr (L', report) → ledger_step L L'
  | step_confirm_failure L cause detail now L' report :
      record_confirm_failure L cause detail now = inr (L', report) → ledger_step L L'
  | step_settle L targets actor reason now L' report :
      operator_settle L targets actor reason now = inr (L', report) → ledger_step L L'
  | step_init L ticket fork head max_cycles loop confirm now tolerance clock r :
      reconcile_for_init (Some L) ticket fork head max_cycles loop confirm now tolerance clock
        = inr r →
      ledger_step L r.(rec_ledger)
  | step_demote L : ledger_step L (demote_for_rereview L)
  | step_pin L base : ledger_step L (L <| lg_diff_base := Some base |>).

Inductive ledger_reachable : ConvergenceLedger → Prop :=
  | reach_new ticket fork head max_cycles loop confirm :
      ledger_reachable (new_ledger ticket fork head max_cycles loop confirm)
  | reach_step L L' : ledger_reachable L → ledger_step L L' → ledger_reachable L'.

(** [refreshed] is what [init] changes on a ledger it resumes. *)
Definition refreshed (L : ConvergenceLedger) (max_cycles : Z) (confirm : ResolvedBackend)
  : ConvergenceLedger :=
  ((L <| lg_max_cycles := max_cycles |>) <| lg_confirm_backend := confirm.(rb_name) |>)
    <| lg_confirm_not_independent := confirm.(rb_not_independent) |>.

(** What [init] makes of a ledger it finds. *)
Inductive init_case (L : ConvergenceLedger) (head : string) (max_cycles : Z)
  (confirm : ResolvedBackend) : ConvergenceLedger → Prop :=
  | ic_reset ticket fork loop history :
      init_case L head max_cycles confirm
        ((new_ledger ticket fork head max_cycles loop confirm) <| lg_reset_history := history |>)
  | ic_still_clean :
      L.(lg_status) = converged →
      init_case L head max_cycles confirm (L <| lg_max_cycles := max_cycles |>)
  | ic_reopened :
      L.(lg_status) = converged → Some head ≠ L.(lg_last_clean_sha) →
      init_case L head max_cycles confirm (demote_for_rereview (refreshed L max_cycles confirm))
  | ic_new_tip now :
      L.(lg_status) = stopped →
      Some head ≠ ro_reviewed_sha <$> last L.(lg_rounds) →
      init_case L head max_cycles confirm
        (rec_ledger (_released (refreshed L max_cycles confirm) new_commits head now true))
  | ic_released cause now :
      L.(lg_status) = stopped →
      Some head = ro_reviewed_sha <$> last L.(lg_rounds) →
      release_cause (refreshed L max_cycles confirm) = Some cause →
      init_case L head max_cycles confirm
        (rec_ledger (_released (refreshed L max_cycles confirm) cause head now false))
  | ic_still_stopped :
      L.(lg_status) = stopped →
      Some head = ro_reviewed_sha <$> last L.(lg_rounds) →
      release_cause (refreshed L max_cycles confirm) = None →
      init_case L head max_cycles confirm (refreshed L max_cycles confirm)
  | ic_resumed :
      L.(lg_status) = in_progress ∨ L.(lg_status) = awaiting_confirm →
      init_case L head max_cycles confirm (refreshed L max_cycles confirm).

Lemma init_cases L ticket fork head max_cycles loop confirm now tolerance clock r :
  reconcile_for_init (Some L) ticket fork head max_cycles loop confirm now tolerance clock
    = inr r →
  init_case L head max_cycles confirm r.(rec_ledger).
Proof.
  unfold reconcile_for_init. cbv zeta. destruct (if owned_by _ _ _ then _ else _) as [|rw];
    [done|].
  match goal with |- context [reconcile_ledger_for_init _ _ _ _ _ _ _ _ ?t] =>
    generalize t end. intros tolerated [= <-].
  unfold reconcile_ledger_for_init. destruct (_reset_reason L ticket fork rw).
  { apply ic_reset. }
  cbv zeta.
  change (lg_status (L <| lg_max_cycles := max_cycles |>)) with (lg_status L).
  change (lg_last_clean_sha (L <| lg_max_cycles := max_cycles |>)) with (lg_last_clean_sha L).
  fold (refreshed L max_cycles confirm).
  change (lg_status (refreshed L max_cycles confirm)) with (lg_status L).
  destruct (lg_status L) eqn:Hs.
  - apply ic_resumed. by left.
  - apply ic_resumed. by right.
  - rewrite bool_decide_true by done. cbn [andb].
    case_bool_decide as Hc; cbn [orb]; [by apply ic_still_clean|].
    destruct tolerated; [by apply ic_still_clean|by apply ic_reopened].
  - change (bool_decide (stopped = converged)) with false. cbn [andb].
    unfold _reconcile_stopped.
    change (lg_rounds (refreshed L max_cycles confirm)) with (lg_rounds L).
    case_bool_decide as Hl; cbn [negb]; [|by apply ic_new_tip].
    destruct (release_cause (refreshed L max_cycles confirm)) eqn:Hr.
    + by apply ic_released.
    + by apply ic_still_stopped.
Qed.
End Life.

(** ** The invariant *)

(** The counts a round record carries agree with each other. *)
Definition counts_ok (r : RoundRecord) : Prop :=
  r.(ro_new_accepted) = (r.(ro_new_fix) + r.(ro_new_operator_action))%Z
  ∧ (0 ≤ r.(ro_new_fix))%Z ∧ (0 ≤ r.(ro_new_operator_action))%Z
  ∧ r.(ro_clean) = Z.eqb r.(ro_new_accepted) 0.

(** Rounds are numbered from 1, and a confirm round directly follows a clean
    loop round of the same sha; [delta] is never recorded. *)
Inductive rounds_ok : list RoundRecord → Prop :=
  | ro_none : rounds_ok []
  | ro_loop rs r :
      rounds_ok rs → r.(ro_round) = length rs + 1 → r.(ro_kind) = k_loop → counts_ok r →
      rounds_ok (rs ++ [r])
  | ro_confirm rs c r :
      rounds_ok (rs ++ [c]) → c.(ro_kind) = k_loop → c.(ro_clean) = true →
      c.(ro_reviewed_sha) = r.(ro_reviewed_sha) →
      r.(ro_round) = length rs + 2 → r.(ro_kind) = k_confirm → counts_ok r →
      rounds_ok (rs ++ [c; r]).

Definition dirty_rounds (rs : list RoundRecord) : Z := count_if (λ r, negb r.(ro_clean)) rs.

Definition not_stopped (L : ConvergenceLedger) : Prop :=
  L.(lg_stop_reason) = None ∧ L.(lg_stop_identities) = [].

Definition status_ok (L : ConvergenceLedger) : Prop :=
  match L.(lg_status) with
  | in_progress => L.(lg_awaiting_confirm_sha) = None ∧ not_stopped L
  | awaiting_confirm =>
      not_stopped L ∧ ∃ r, last L.(lg_rounds) = Some r ∧ r.(ro_clean) = true
        ∧ r.(ro_kind) = k_loop ∧ L.(lg_awaiting_confirm_sha) = Some r.(ro_reviewed_sha)
  | converged =>
      L.(lg_awaiting_confirm_sha) = None ∧ not_stopped L
      ∧ ∃ r, last L.(lg_rounds) = Some r ∧ r.(ro_clean) = true
        ∧ L.(lg_last_clean_sha) = Some r.(ro_reviewed_sha)
        ∧ (r.(ro_kind) = k_confirm ∨ has_independent_confirm L = false)
  | stopped =>
      L.(lg_awaiting_confirm_sha) = None
      ∧ (∃ r, last L.(lg_rounds) = Some r ∧ r.(ro_clean) = false)
      ∧ ∃ why, L.(lg_stop_reason) = Some why
        ∧ why ∈ [STOP_NO_PROGRESS; STOP_OSCILLATION; STOP_MAX_CYCLES; STOP_OPERATOR_ACTION]
        ∧ (L.(lg_stop_identities) = [] ↔ why = STOP_NO_PROGRESS ∨ why = STOP_MAX_CYCLES)
  end.

(** An identity whose summary is already normalised: what [finding_identity]
    builds, and what makes a pasted-back payload match. *)
Definition normal_identity (i : FindingIdentity) : Prop :=
  _normalize_finding_text i.(id_summary_normalized) = i.(id_summary_normalized).

Record ledger_ok (L : ConvergenceLedger) : Prop := {
  lo_rounds : rounds_ok L.(lg_rounds);
  lo_status : status_ok L;
  lo_clean : ∀ sha, L.(lg_last_clean_sha) = Some sha →
    ∃ r, r ∈ L.(lg_rounds) ∧ r.(ro_clean) = true ∧ r.(ro_reviewed_sha) = sha;
  lo_epoch : L.(lg_epoch_start_round) ≤ length L.(lg_rounds)
    ∧ L.(lg_window_start_round) ≤ length L.(lg_rounds);
  lo_used : (0 ≤ L.(lg_fix_cycles_used)
    ≤ dirty_rounds (drop L.(lg_epoch_start_round) L.(lg_rounds)))%Z;
  lo_settled : NoDup (ids L.(lg_settled));
  lo_fixed : NoDup (map fx_identity L.(lg_fixed));
  lo_normal : Forall normal_identity
    (L.(lg_stop_identities) ++ map fx_identity L.(lg_fixed) ++ ids L.(lg_settled));
  lo_failures : Forall (λ f, f.(cf_round) ≤ length L.(lg_rounds)) L.(lg_confirm_failures) }.


(** ** Identities a round records *)

Lemma identity_of_normal f : normal_identity (identity_of f).
Proof. apply collapse_spaces_idemp. Qed.

Lemma normal_map_identity (fs : list RoundFinding) :
  Forall normal_identity (map identity_of fs).
Proof. apply Forall_forall. intros i (f & -> & _)%list_elem_of_fmap. apply identity_of_normal. Qed.

Lemma fix_memory_spec record fs fixed :
  let out := foldl (fix_memory record) fixed fs in
  (NoDup (map fx_identity fixed) → NoDup (map fx_identity out))
  ∧ (∀ i, i ∈ map fx_identity out ↔ i ∈ map fx_identity fixed ∨ i ∈ map identity_of fs).
Proof.
  cbv zeta. revert fixed. induction fs as [|f fs IH]; cbn [foldl map]; intros fixed.
  { split; [done|]. intros i. rewrite elem_of_nil. tauto. }
  destruct (IH (fix_memory record fixed f)) as [H1 H2]. unfold fix_memory in *.
  case_decide as Hin.
  - split; [done|]. intros i. rewrite H2, elem_of_cons. naive_solver.
  - rewrite map_app in H1, H2. cbn in H1, H2. split.
    + intros Hnd. apply H1, NoDup_app. split; [done|]. split; [|apply NoDup_singleton].
      intros i Hi ->%list_elem_of_singleton. done.
    + intros i. rewrite H2, elem_of_app, list_elem_of_singleton, elem_of_cons. tauto.
Qed.

Lemma detect_oscillation_elem L fs sha i :
  i ∈ detect_oscillation L fs sha ↔
  i ∈ map identity_of fs ∧ ∃ s, fixed_index L !! i = Some s ∧ s ≠ sha.
Proof.
  unfold detect_oscillation.
  assert (H : ∀ acc, i ∈ foldl (recurs (fixed_index L) sha) acc fs ↔
    i ∈ acc ∨ (i ∈ map identity_of fs ∧ ∃ s, fixed_index L !! i = Some s ∧ s ≠ sha)).
  { induction fs as [|f fs IH]; cbn [foldl map]; intros acc.
    { rewrite elem_of_nil. tauto. }
    rewrite IH. unfold recurs. rewrite elem_of_cons.
    destruct (fixed_index L !! identity_of f) as [s|] eqn:E.
    - destruct (String.eqb_spec s sha) as [->|Hne]; [naive_solver|].
      case_decide; [naive_solver|]. rewrite elem_of_app, list_elem_of_singleton. naive_solver.
    - naive_solver. }
  rewrite H, elem_of_nil. tauto.
Qed.

Lemma the_round_counts L a : counts_ok (the_round L a).
Proof.
  unfold counts_ok, the_round, round_record, cl_new_accepted.
  cbn [ro_new_accepted ro_new_fix ro_new_operator_action ro_clean].
  split; [done|]. split; [lia|]. by split; [lia|].
Qed.

Lemma dirty_snoc n rs r : n ≤ length rs →
  dirty_rounds (drop n (rs ++ [r]))
  = (dirty_rounds (drop n rs) + (if ro_clean r then 0 else 1))%Z.
Proof.
  intros Hn. rewrite drop_app_le by done. unfold dirty_rounds, count_if.
  rewrite filter_app, length_app, filter_cons, filter_nil.
  destruct (ro_clean r); cbn [negb]; case_decide; try done; cbn [length]; lia.
Qed.

Lemma rounds_ok_snoc L a :
  ledger_ok L → may_record L a → rounds_ok (L.(lg_rounds) ++ [the_round L a]).
Proof.
  intros [Hr Hs _ _ _ _ _ _ _] (Hk & _ & Hc & _).
  destruct (ra_kind a) eqn:Hka; [| |done].
  - apply ro_loop; [done|done|done|apply the_round_counts].
  - destruct (Hc eq_refl) as (Hst & Hsha & _). unfold status_ok in Hs. rewrite Hst in Hs.
    destruct Hs as (_ & r & Hl & Hcl & Hkr & Haw). rewrite Hsha in Haw. injection Haw as Haw.
    pose proof (the_round_counts L a) as Hcnt.
    assert (Hnum : ro_round (the_round L a) = length (lg_rounds L) + 1) by done.
    assert (Hkind : ro_kind (the_round L a) = k_confirm) by done.
    assert (Hrs : ro_reviewed_sha (the_round L a) = ra_reviewed_sha a) by done.
    revert Hcnt Hnum Hkind Hrs. generalize (the_round L a). intros new Hcnt Hnum Hkind Hrs.
    apply last_Some in Hl as [rs Hl]. rewrite Hl in *. rewrite <- app_assoc. cbn [app].
    rewrite length_app in Hnum. cbn in Hnum.
    apply ro_confirm; [done|done|done|congruence|lia|done|done].
Qed.

(** The part of the invariant that does not depend on what was decided. *)
Lemma settled_after_round_nodup L a :
  NoDup (ids L.(lg_settled)) →
  NoDup (ids (L.(lg_settled) ++ (round_class L a).(cl_newly_settled))).
Proof.
  intros Hnd. destruct (classify_newly L (ra_findings a) (length (lg_rounds L) + 1)) as (N1 & N2 & _).
  fold (round_class L a) in N1, N2. rewrite map_app. apply NoDup_app.
  split; [done|]. split; [|done]. intros i Hi Hn.
  apply ids_elem in Hn as (e & He & <-). by apply (N2 e He).
Qed.

Lemma newly_settled_normal L a : Forall normal_identity (ids (round_class L a).(cl_newly_settled)).
Proof.
  destruct (classify_newly L (ra_findings a) (length (lg_rounds L) + 1)) as (_ & N2 & _).
  fold (round_class L a) in N2. apply Forall_forall. intros i Hi.
  apply ids_elem in Hi as (e & He & <-).
  destruct (N2 e He) as (_ & _ & f & _ & -> & _). apply identity_of_normal.
Qed.

(** The stop identities of an outcome are of the round's findings. *)
Lemma outcome_ids_normal L a o :
  outcome_case L a o → Forall normal_identity o.(oc_stop_identities).
Proof.
  destruct 1; cbn [oc_stop_identities]; try constructor; subst; apply Forall_forall; intros i Hi.
  - apply detect_oscillation_elem in Hi as [Hi _].
    apply list_elem_of_fmap in Hi as (f & -> & _). apply identity_of_normal.
  - apply first_seen_elem, list_elem_of_fmap in Hi as (f & -> & _). apply identity_of_normal.
Qed.

Lemma outcome_is_stop L a o :
  outcome_case L a o →
  o.(oc_decision) ∈ STOP_DECISIONS →
  clean_round L a = false
  ∧ ∃ why, o.(oc_reason) = Some why
    ∧ why ∈ [STOP_NO_PROGRESS; STOP_OSCILLATION; STOP_MAX_CYCLES; STOP_OPERATOR_ACTION]
    ∧ (o.(oc_stop_identities) = [] ↔ why = STOP_NO_PROGRESS ∨ why = STOP_MAX_CYCLES).
Proof.
  intros Hc Hs. destruct Hc; cbn [oc_decision oc_reason oc_stop_identities] in *;
    try (exfalso; revert Hs; unfold STOP_DECISIONS; rewrite !elem_of_cons, elem_of_nil; naive_solver);
    (split; [done|]; eexists; split; [done|]; split;
     [rewrite !elem_of_cons; tauto|]).
  - split; [done|]. by intros [?|?].
  - split; [|by intros [?|?]]. intros ->. exfalso.
    destruct (cl_new_operator (round_class L a)) as [|f fs]; [done|].
    assert (Hf : identity_of f ∈ first_seen (map identity_of (f :: fs))).
    { apply first_seen_elem. by left. }
    replace (first_seen (map identity_of (f :: fs))) with (@nil FindingIdentity) in Hf by done.
    by apply elem_of_nil in Hf.
  - split; [by left|done].
  - split; [by right|done].
Qed.

Lemma open_not_stopped L :
  status_ok L → L.(lg_status) = in_progress ∨ L.(lg_status) = awaiting_confirm → not_stopped L.
Proof. unfold status_ok. intros H [Hs|Hs]; rewrite Hs in H; naive_solver. Qed.

Lemma last_after_round L a : last (L.(lg_rounds) ++ [the_round L a]) = Some (the_round L a).
Proof. apply last_snoc. Qed.

Ltac forall_app := rewrite ?Forall_app; repeat split; auto.

Lemma round_keeps_ok L a : ledger_ok L → may_record L a → ledger_ok (after_round L a).
Proof.
  intros Hok Hmay. pose proof (rounds_ok_snoc L a Hok Hmay) as Hrounds.
  pose proof (the_outcome_cases L a) as Hc. pose proof (outcome_ids_normal L a _ Hc) as Hids.
  pose proof (outcome_is_stop L a _ Hc) as Hstop.
  destruct Hok as [_ Hs Hcl [He Hw] Hu Hset Hfix Hn Hfail].
  assert (Hns : not_stopped L) by (apply open_not_stopped; [done|apply Hmay]).
  pose proof (dirty_snoc (lg_epoch_start_round L) (lg_rounds L) (the_round L a) He) as Hdirty.
  change (ro_clean (the_round L a)) with (clean_round L a) in Hdirty.
  destruct (fix_memory_spec (the_round L a) (cl_new_fix (round_class L a)) (lg_fixed L))
    as [Hfm1 Hfm2].
  pose proof (settled_after_round_nodup L a Hset) as Hset'.
  pose proof (newly_settled_normal L a) as Hnn.
  apply Forall_app in Hn as [Hn1 [Hn2 Hn3]%Forall_app].
  assert (Hfm3 : Forall normal_identity (map fx_identity
    (_fixed_after_continue L (round_class L a) (the_round L a)))).
  { apply Forall_forall. intros i [Hi|Hi]%Hfm2; [by eapply Forall_forall in Hn2|].
    eapply Forall_forall; [apply normal_map_identity|done]. }
  assert (Hcl' : ∀ sha, lg_last_clean_sha L = Some sha → ∃ r,
    r ∈ lg_rounds L ++ [the_round L a] ∧ ro_clean r = true ∧ ro_reviewed_sha r = sha).
  { intros sha (r & Hr & Hrc)%Hcl. exists r. split; [apply elem_of_app; by left|done]. }
  assert (Hlen : length (lg_rounds L ++ [the_round L a]) = length (lg_rounds L) + 1).
  { by rewrite length_app. }
  pose proof (last_after_round L a) as Hlast.
  assert (Hnew : clean_round L a = true → ∀ sha, Some (ra_reviewed_sha a) = Some sha → ∃ r,
    r ∈ lg_rounds L ++ [the_round L a] ∧ ro_clean r = true ∧ ro_reviewed_sha r = sha).
  { intros Hc1 sha [= <-]. exists (the_round L a). split; [|done].
    apply elem_of_app. right. by left. }
  destruct (with_round_fields L a) as (W1 & W2 & W3 & W4 & W5 & W6 & W7 & W8 & W9 & W10 & W11
    & W12 & W13 & W14 & W15).
  unfold after_round. remember (the_outcome L a) as o eqn:Ho. clear Ho.
  assert (Hnorm : Forall normal_identity
    (map fx_identity (lg_fixed L) ++ ids (lg_settled L ++ cl_newly_settled (round_class L a)))).
  { rewrite map_app. forall_app. }
  assert (Hnorm' : Forall normal_identity
    (map fx_identity (_fixed_after_continue L (round_class L a) (the_round L a))
     ++ ids (lg_settled L ++ cl_newly_settled (round_class L a)))).
  { rewrite map_app. forall_app. }
  assert (Hfail' : Forall (λ f, f.(cf_round) ≤ length (lg_rounds L ++ [the_round L a]))
    (lg_confirm_failures L)).
  { eapply Forall_impl; [exact Hfail|]. intros f Hf. cbn in Hf. lia. }
  destruct (with_round L a) as [w1 w2 w3 w4 w5 w6 w7 w8 w9 w10 w11 w12 w13 w14 w15 w16 w17 w18 w19 w20 w21 w22 w23 w24].
  cbn [lg_rounds lg_settled lg_awaiting_confirm_sha lg_fixed lg_stop_reason lg_stop_identities
       lg_last_clean_sha lg_epoch_start_round lg_window_start_round lg_fix_cycles_used
       lg_max_cycles lg_confirm_backend lg_confirm_not_independent lg_releases
       lg_confirm_failures] in W1, W2, W3, W4, W5, W6, W7, W8, W9, W10, W11, W12, W13, W14, W15.
  subst.
  destruct Hc as [Hcr Hk Hi|Hcr Hk|ix Hcr Hne _|ix Hcr Hop _|Hcr|Hcr Hmx|Hcr Hmx];
    cbn [oc_decision oc_reason oc_stop_identities _transition] in *;
    rewrite Hcr in Hdirty; cbn [negb] in Hdirty;
    (split;
     [exact Hrounds| |first [exact Hcl'|exact (Hnew Hcr)]|cbn; lia|cbn; lia
     |exact Hset'|first [exact Hfix|exact (Hfm1 Hfix)]| |exact Hfail']);
    try (apply Forall_app; split; [assumption|]; first [exact Hnorm|exact Hnorm']);
    unfold status_ok; cbn.
  3-6: (split; [done|]; split; [by exists (the_round L a)|]; apply Hstop; unfold STOP_DECISIONS;
        rewrite !elem_of_cons; tauto).
  - split; [exact Hns|]. exists (the_round L a). auto.
  - split; [done|]. split; [exact Hns|]. exists (the_round L a). repeat (split; [done|]).
    destruct (ra_kind a) eqn:Hka; [right; exact (Hk eq_refl)|by left|by destruct Hmay].
  - by split; [|exact Hns].
Qed.

(** A change of the other fields keeps the invariant. *)
Lemma ledger_ok_ext L L' :
  L'.(lg_rounds) = L.(lg_rounds) → L'.(lg_status) = L.(lg_status) →
  L'.(lg_awaiting_confirm_sha) = L.(lg_awaiting_confirm_sha) →
  L'.(lg_stop_reason) = L.(lg_stop_reason) → L'.(lg_stop_identities) = L.(lg_stop_identities) →
  L'.(lg_last_clean_sha) = L.(lg_last_clean_sha) →
  L'.(lg_epoch_start_round) = L.(lg_epoch_start_round) →
  L'.(lg_window_start_round) = L.(lg_window_start_round) →
  L'.(lg_fix_cycles_used) = L.(lg_fix_cycles_used) →
  L'.(lg_settled) = L.(lg_settled) → L'.(lg_fixed) = L.(lg_fixed) →
  (Forall (λ f, f.(cf_round) ≤ length L.(lg_rounds)) L.(lg_confirm_failures) →
   Forall (λ f, f.(cf_round) ≤ length L.(lg_rounds)) L'.(lg_confirm_failures)) →
  (L.(lg_status) = converged → has_independent_confirm L' = has_independent_confirm L) →
  ledger_ok L → ledger_ok L'.
Proof.
  intros E1 E2 E3 E4 E5 E6 E7 E8 E9 E10 E11 Hfail Hconf [H1 H2 H3 H4 H5 H6 H7 H8 H9].
  split; rewrite ?E1, ?E3, ?E5, ?E6, ?E7, ?E8, ?E9, ?E10, ?E11; auto.
  unfold status_ok, not_stopped in *. rewrite E1, E2, E3, E4, E5, E6.
  destruct (lg_status L); auto. by rewrite Hconf.
Qed.

Ltac same_ledger L := apply (ledger_ok_ext L); auto; destruct L; reflexivity.

Lemma new_ledger_ok ticket fork head max_cycles loop confirm history :
  ledger_ok ((new_ledger ticket fork head max_cycles loop confirm) <| lg_reset_history := history |>).
Proof.
  split; [apply ro_none|done|done|by split; cbn; lia|split; [apply Z.le_refl|apply Nat2Z.is_nonneg]|constructor|constructor| |];
  apply Forall_nil_2.
Qed.

Lemma recorded_normal L i :
  ledger_ok L → i ∈ _recorded_identities L → normal_identity i.
Proof.
  unfold _recorded_identities. rewrite first_seen_elem. intros Hok Hi. exact (proj1 (Forall_forall _ _) (lo_normal _ Hok) i Hi).
Qed.

Section Steps.
Context {C : CloseMatch} {G : GitRepo} {D : LedgerDump}.

Lemma settle_keeps_ok L targets actor reason now L' report :
  ledger_ok L → operator_settle L targets actor reason now = inr (L', report) → ledger_ok L'.
Proof.
  intros Hok Hset. destruct (operator_settle_ok _ _ _ _ _ _ _ (lo_settled _ Hok) Hset)
    as (_ & s & -> & [S1 S2 _]).
  assert (Hrec : ∀ i, i ∈ _recorded_identities L → normal_identity i).
  { intros i. by apply recorded_normal. }
  destruct Hok as [H1 H2 H3 H4 H5 H6 H7 H8 H9]. destruct L. split; auto. cbn in *.
  apply Forall_app in H8 as [Hn1 [Hn2 Hn3]%Forall_app]. rewrite !Forall_app.
  split; [done|]. split; [done|]. apply Forall_forall. intros i [Hi|[_ Hi]]%S2; [|auto].
  by eapply Forall_forall in Hn3.
Qed.

Lemma released_fields L cause head now new_epoch :
  let R := rec_ledger (_released L cause head now new_epoch) in
  R.(lg_rounds) = L.(lg_rounds) ∧ R.(lg_status) = in_progress
  ∧ R.(lg_awaiting_confirm_sha) = L.(lg_awaiting_confirm_sha)
  ∧ not_stopped R
  ∧ R.(lg_last_clean_sha) = L.(lg_last_clean_sha)
  ∧ R.(lg_settled) = L.(lg_settled) ∧ R.(lg_fixed) = L.(lg_fixed)
  ∧ R.(lg_epoch_start_round)
    = (if new_epoch then length L.(lg_rounds) else L.(lg_epoch_start_round))
  ∧ R.(lg_window_start_round)
    = (if new_epoch then L.(lg_window_start_round) else length L.(lg_rounds))
  ∧ R.(lg_fix_cycles_used) = (if new_epoch then 0%Z else L.(lg_fix_cycles_used))
  ∧ R.(lg_confirm_failures) = L.(lg_confirm_failures).
Proof.
  cbv zeta. unfold _released, not_stopped. cbv zeta.
  match goal with |- context [mkStopRelease now ?n ?r cause head] =>
    generalize (mkStopRelease now n r cause head) end. intros release.
  destruct L, new_epoch; cbn; tauto.
Qed.

Lemma released_ok L cause head now new_epoch :
  ledger_ok L → L.(lg_status) = stopped →
  ledger_ok (rec_ledger (_released L cause head now new_epoch)).
Proof.
  intros [H1 H2 H3 [H4 H4'] H5 H6 H7 H8 H9] Hs. unfold status_ok in H2. rewrite Hs in H2.
  destruct H2 as (Haw & _ & _). apply Forall_app in H8 as [_ Hn].
  destruct (released_fields L cause head now new_epoch) as (E1 & E2 & E3 & E4 & E5 & E6 & E7
    & E8 & E9 & E10 & E11).
  revert E1 E2 E3 E4 E5 E6 E7 E8 E9 E10 E11.
  generalize (rec_ledger (_released L cause head now new_epoch)). intros R E1 E2 E3 E4 E5 E6 E7
    E8 E9 E10 E11.
  split; rewrite ?E1, ?E5, ?E6, ?E7, ?E8, ?E9, ?E10, ?E11; try done.
  - unfold status_ok. rewrite E2, E3. done.
  - destruct new_epoch; lia.
  - destruct new_epoch; [|done]. rewrite drop_all. split; [apply Z.le_refl|apply Nat2Z.is_nonneg].
  - destruct E4 as [_ ->]. done.
Qed.

Lemma demote_ok L : ledger_ok L → ledger_ok (demote_for_rereview L).
Proof.
  intros Hok. unfold demote_for_rereview. case_bool_decide as Hs; cbn [negb]; [|done].
  destruct Hok as [H1 H2 H3 H4 H5 H6 H7 H8 H9]. unfold status_ok in H2. rewrite Hs in H2.
  destruct H2 as (_ & Hns & _). destruct L. by split.
Qed.

Lemma refreshed_ok L max_cycles confirm :
  L.(lg_status) ≠ converged → ledger_ok L → ledger_ok (refreshed L max_cycles confirm).
Proof. intros Hne. apply ledger_ok_ext; by destruct L. Qed.

Lemma init_keeps_ok L head max_cycles confirm L' :
  init_case L head max_cycles confirm L' → ledger_ok L → ledger_ok L'.
Proof.
  destruct 1 as [? ? ? ?|Hs|Hs Hh|now Hs|cause now Hs|Hs|Hs]; intros Hok.
  - apply new_ledger_ok.
  - apply (ledger_ok_ext L); by destruct L.
  - pose proof (demote_ok _ Hok) as Hd. unfold demote_for_rereview in *.
    change (lg_status (refreshed L max_cycles confirm)) with (lg_status L).
    rewrite Hs in *. cbn [bool_decide negb] in *.
    rewrite bool_decide_true in * by done. cbn [negb] in *.
    revert Hd. apply ledger_ok_ext; by destruct L.
  - apply released_ok; [|done]. apply refreshed_ok; [congruence|done].
  - apply released_ok; [|done]. apply refreshed_ok; [congruence|done].
  - apply refreshed_ok; [congruence|done].
  - apply refreshed_ok; [destruct Hs; congruence|done].
Qed.

Lemma step_keeps_ok L L' : ledger_step L L' → ledger_ok L → ledger_ok L'.
Proof.
  destruct 1 as [L a L' rep H|L cause detail now L' rep H|L ts actor reason now L' rep H
    |L ticket fork head mx loop confirm now tol clock r H|L|L base]; intros Hok.
  - apply record_round_ok in H as (Hmay & -> & _). by apply round_keeps_ok.
  - unfold record_confirm_failure in H.
    destruct (bool_decide _), (lg_awaiting_confirm_sha L); try done.
    injection H as <- _. revert Hok. apply ledger_ok_ext; try by destruct L.
    intros Hf. apply Forall_app. by split; [|repeat constructor].
  - by eapply settle_keeps_ok.
  - by eapply init_keeps_ok; [eapply init_cases|].
  - by apply demote_ok.
  - revert Hok. apply ledger_ok_ext; by destruct L.
Qed.

Lemma reachable_ok L : ledger_reachable L → ledger_ok L.
Proof.
  induction 1 as [ticket fork head mx loop confirm|L L' _ IH Hs].
  - apply (new_ledger_ok ticket fork head mx loop confirm []).
  - by eapply step_keeps_ok.
Qed.
End Steps.
