(* ===== verification/ConvergenceSafety.v ===== *)
(** * Convergence is earned, bounded and released

    The theorems about reachable ledgers: the invariant, the refinement of the
    four-phase machine, what an accepted tip was reviewed as, the bound on the
    rounds of one epoch, suppression as an identity on recording, the confirm
    outage cap and the settle payload that releases an oscillation stop. *)

From S2P Require Import Prelude PyStr PyText Markers ReviewModels TextMatch Findings Enums Tasks World Adjudication.
From S2P Require Import ConvergenceModels Convergence MergeTolerance ConvergenceProps ConvergenceLife.
#[local] Open Scope nat_scope.
#[local] Open Scope cw_scope.

(** ** A sample review *)

Module Sample.
Definition confirm : ResolvedBackend := resolve_confirm_backend None "claude-native".
Definition fresh : ConvergenceLedger := new_ledger "T-1" "f0" "s0" 1 "claude-native" confirm.
Definition bug (o : AdjudicationOutcome) : RoundFinding :=
  mkRoundFinding "MUST_FIX" "a.py" "off  by one" o "checked".
Definition args (kind : RoundKind) (backend sha : string) (fs : list RoundFinding) : RoundArgs :=
  mkRoundArgs kind backend sha fs ["security"] "now" (Some (mkUnreadFindings 0 0 [] 0)) None 1 1.
Definition loop_dirty : RoundArgs := args k_loop "claude-native" "s1" [bug o_fix].
Definition loop_clean : RoundArgs := args k_loop "claude-native" "s2" [bug o_reject].
Definition confirm_clean : RoundArgs := args k_confirm "codex" "s2" [bug o_fix].
Definition loop_again : RoundArgs := args k_loop "claude-native" "s2" [bug o_fix].

Definition after1 : ConvergenceLedger := after_round fresh loop_dirty.
Definition candidate : ConvergenceLedger := after_round after1 loop_clean.
Definition done_ : ConvergenceLedger := after_round candidate confirm_clean.
Definition oscillating : ConvergenceLedger := after_round after1 loop_again.

(** git answers nothing, difflib finds nothing, a dump is empty. *)
#[export] Instance no_git : GitRepo := λ _, inl TimeoutExpired.
#[export] Instance no_match : CloseMatch := λ _ _, None.
#[export] Instance no_dump : LedgerDump := λ _, JNull.
End Sample.

Example sample_status :
  map lg_status [Sample.fresh; Sample.after1; Sample.candidate; Sample.done_; Sample.oscillating]
  = [in_progress; in_progress; awaiting_confirm; converged; stopped].
Proof. vm_compute. reflexivity. Qed.

Definition round_of (r : exn + (ConvergenceLedger * RoundReport)) : option ConvergenceLedger :=
  match r with inr (L, _) => Some L | inl _ => None end.

Lemma step_round_of `{CloseMatch, GitRepo, LedgerDump} L a L' :
  round_of (record_round L a) = Some L' → ledger_step L L'.
Proof.
  intros Hr. destruct (record_round L a) as [|[X report]] eqn:E; [done|].
  injection Hr as ->. by eapply step_round.
Qed.

(** ** The phases of a review *)

Inductive Phase :=
  | ph_open
  | ph_candidate (sha : string)
  | ph_clean (sha : string)
  | ph_stopped (why : string).

Definition phase_of (L : ConvergenceLedger) : Phase :=
  match L.(lg_status) with
  | in_progress => ph_open
  | awaiting_confirm => ph_candidate (default "" L.(lg_awaiting_confirm_sha))
  | converged => ph_clean (default "" L.(lg_last_clean_sha))
  | stopped => ph_stopped (default "" L.(lg_stop_reason))
  end.

Definition ph_is_open (p : Phase) : Prop :=
  match p with ph_open | ph_candidate _ => True | _ => False end.

(** The contract of the engine; [confirms] is whether an independent confirm
    applies.  With one, the only way to [ph_clean sha] is the candidate of that
    very sha. *)
Inductive phase_step (confirms : bool) : Phase → Phase → Prop :=
  | ps_candidate p sha : confirms = true → ph_is_open p → phase_step confirms p (ph_candidate sha)
  | ps_earned p sha : confirms = false → ph_is_open p → phase_step confirms p (ph_clean sha)
  | ps_confirmed sha : phase_step confirms (ph_candidate sha) (ph_clean sha)
  | ps_stop p why : ph_is_open p → phase_step confirms p (ph_stopped why)
  | ps_reopen p : phase_step confirms p ph_open
  | ps_stay p : phase_step confirms p p.

Lemma open_phase L :
  L.(lg_status) = in_progress ∨ L.(lg_status) = awaiting_confirm → ph_is_open (phase_of L).
Proof. unfold phase_of. by intros [-> | ->]. Qed.

Lemma round_phase L a :
  ledger_ok L → may_record L a →
  phase_step (has_independent_confirm L) (phase_of L) (phase_of (after_round L a)).
Proof.
  intros Hok (Hk & Hopen & Hconf & _). apply open_phase in Hopen.
  pose proof (the_outcome_cases L a) as Hc. unfold after_round.
  destruct Hc as [Hcr Hkl Hi|Hcr Hkl|ix _ _ _|ix _ _ _|_|_ _|_ _]; unfold phase_of at 2;
    cbn [oc_decision oc_reason oc_stop_identities _transition].
  - by apply ps_candidate.
  - destruct (ra_kind a) eqn:Hka.
    + by apply ps_earned; [apply Hkl|].
    + destruct (Hconf eq_refl) as (Hs & Hsha & _).
      replace (phase_of L) with (ph_candidate (ra_reviewed_sha a)); [apply ps_confirmed|].
      unfold phase_of. by rewrite Hs, Hsha.
    + done.
  - by apply ps_stop.
  - by apply ps_stop.
  - by apply ps_stop.
  - by apply ps_stop.
  - apply ps_reopen.
Qed.

Lemma phase_same L L' :
  L'.(lg_status) = L.(lg_status) → L'.(lg_awaiting_confirm_sha) = L.(lg_awaiting_confirm_sha) →
  L'.(lg_last_clean_sha) = L.(lg_last_clean_sha) → L'.(lg_stop_reason) = L.(lg_stop_reason) →
  phase_of L' = phase_of L.
Proof. unfold phase_of. by intros -> -> -> ->. Qed.

Lemma rounds_ok_last rs c : rounds_ok (rs ++ [c]) → counts_ok c.
Proof.
  intros H. remember (rs ++ [c]) as l eqn:Hl. destruct H as [|rs' x _ _ _ Hc|rs' y x _ _ _ _ _ _ Hc].
  - by destruct rs.
  - apply app_inj_tail in Hl as [_ <-]. done.
  - change [y; x] with ([y] ++ [x]) in Hl. rewrite app_assoc in Hl.
    apply app_inj_tail in Hl as [_ <-]. done.
Qed.

Lemma phase_stay confirms L L' :
  L'.(lg_status) = L.(lg_status) → L'.(lg_awaiting_confirm_sha) = L.(lg_awaiting_confirm_sha) →
  L'.(lg_last_clean_sha) = L.(lg_last_clean_sha) → L'.(lg_stop_reason) = L.(lg_stop_reason) →
  phase_step confirms (phase_of L) (phase_of L').
Proof. intros H1 H2 H3 H4. rewrite (phase_same L L') by done. apply ps_stay. Qed.

(** A clean round that ends the list accepted nothing; a confirm round has its
    candidate before it. *)
Lemma clean_last_round L r :
  rounds_ok L.(lg_rounds) → last L.(lg_rounds) = Some r → r.(ro_clean) = true →
  r.(ro_kind) = k_confirm ∨ has_independent_confirm L = false →
  r.(ro_new_accepted) = 0%Z
  ∧ (has_independent_confirm L = true →
       r.(ro_kind) = k_confirm
       ∧ ∃ rs c, L.(lg_rounds) = rs ++ [c; r] ∧ c.(ro_kind) = k_loop
         ∧ c.(ro_new_accepted) = 0%Z ∧ c.(ro_reviewed_sha) = r.(ro_reviewed_sha)).
Proof.
  intros Hro Hl Hcl Hind.
  assert (Hcnt : ∀ x, counts_ok x → ro_clean x = true → ro_new_accepted x = 0%Z).
  { intros x (_ & _ & _ & Hx) Hx'. rewrite Hx in Hx'. by apply Z.eqb_eq. }
  destruct Hro as [|rs x Hrs Hn Hk Hc|rs c x Hrs Hkc Hcc Hsha Hn Hk Hc].
  - done.
  - rewrite last_snoc in Hl. injection Hl as ->. split; [auto|].
    intros Hi. destruct Hind; congruence.
  - change [c; x] with ([c] ++ [x]) in Hl. rewrite app_assoc, last_snoc in Hl.
    injection Hl as ->. split; [auto|]. intros _. split; [done|]. exists rs, c.
    split; [done|]. split; [done|]. split; [|done]. apply Hcnt; [|done].
    by eapply rounds_ok_last.
Qed.

Section Reachable.
Context {C : CloseMatch} {G : GitRepo} {D : LedgerDump}.

Lemma init_phase confirms L head max_cycles confirm L' :
  init_case L head max_cycles confirm L' → phase_step confirms (phase_of L) (phase_of L').
Proof.
  assert (Hstay : ∀ X, phase_of X = phase_of L → phase_step confirms (phase_of L) (phase_of X)).
  { intros X ->. apply ps_stay. }
  destruct 1 as [? ? ? ?|Hs|Hs Hh|now Hs|cause now Hs|Hs|Hs].
  - apply ps_reopen.
  - apply Hstay, phase_same; by destruct L.
  - replace (phase_of (demote_for_rereview _)) with ph_open; [apply ps_reopen|].
    unfold demote_for_rereview, phase_of.
    change (lg_status (refreshed L max_cycles confirm)) with (lg_status L). by rewrite Hs.
  - unfold phase_of at 2.
    destruct (released_fields (refreshed L max_cycles confirm) new_commits head now true)
      as (_ & -> & _). apply ps_reopen.
  - unfold phase_of at 2.
    destruct (released_fields (refreshed L max_cycles confirm) cause head now false)
      as (_ & -> & _). apply ps_reopen.
  - apply Hstay, phase_same; by destruct L.
  - apply Hstay, phase_same; by destruct L.
Qed.

Lemma demote_phase confirms L :
  phase_step confirms (phase_of L) (phase_of (demote_for_rereview L)).
Proof.
  unfold demote_for_rereview. case_bool_decide; cbn [negb]; [apply ps_reopen|apply ps_stay].
Qed.

(** C28: Every ledger reached by any sequence of recorded rounds, confirm
    outages, operator settles, inits, demotions and diff-base pins is well
    formed: rounds are numbered from 1 and no [delta] round exists; a confirm
    round directly follows a clean loop round of the same sha; a converged
    ledger's last round is the clean round at its clean sha, and a confirm round
    unless no independent confirm applies; a stopped ledger's last round is
    dirty and carries one of the four reasons; the cycles charged never exceed
    the dirty rounds of the epoch; and each finding identity is settled and
    fixed at most once, in normalised form. *)
Theorem convergence_ledger_sound (L : ConvergenceLedger) :
  ledger_reachable L → ledger_ok L.
Proof. apply reachable_ok. Qed.

(** C27: The engine implements the four-phase contract of converge-to-clean:
    every operation on a reachable ledger is one step of the machine whose only
    way to [clean sha], while an independent confirm applies, is from the
    candidate of that very sha; a review stops only from an open phase. *)
Theorem engine_refines_phases (L L' : ConvergenceLedger) :
  ledger_reachable L → ledger_step L L' →
  phase_step (has_independent_confirm L) (phase_of L) (phase_of L').
Proof.
  intros Hr Hs. pose proof (reachable_ok L Hr) as Hok.
  destruct Hs as [L a L' rep H|L cause detail now L' rep H|L ts actor reason now L' rep H
    |L ticket fork head mx loop confirm now tol clock r H|L|L base].
  - apply record_round_ok in H as (Hmay & -> & _). by apply round_phase.
  - unfold record_confirm_failure in H.
    destruct (bool_decide _), (lg_awaiting_confirm_sha L); try done.
    injection H as <- _. apply phase_stay; by destruct L.
  - destruct (operator_settle_ok _ _ _ _ _ _ _ (lo_settled _ Hok) H) as (_ & s & -> & _).
    apply phase_stay; by destruct L.
  - eapply init_phase, init_cases, H.
  - apply demote_phase.
  - apply phase_stay; by destruct L.
Qed.

(** C26: The tip of a reachable ledger is accepted exactly when the review
    converged, what is pushed is HEAD, and HEAD is the sha of the last recorded
    round -- or only tolerated default-branch merges followed it.  That last
    round found nothing new, and it is a confirm round directly after a clean
    loop round of the same sha unless no independent confirm applies. *)
Theorem accepted_tip_was_reviewed (L : ConvergenceLedger) (head origin : string)
  (merge_only : bool) :
  ledger_reachable L →
  (evaluate_tip L head origin merge_only = tip_accepted ↔
     L.(lg_status) = converged ∧ head = origin
     ∧ ∃ r, last L.(lg_rounds) = Some r
       ∧ (head = r.(ro_reviewed_sha) ∨ merge_only = true)
       ∧ r.(ro_new_accepted) = 0%Z
       ∧ (has_independent_confirm L = true →
            r.(ro_kind) = k_confirm
            ∧ ∃ rs c, L.(lg_rounds) = rs ++ [c; r] ∧ c.(ro_kind) = k_loop
              ∧ c.(ro_new_accepted) = 0%Z ∧ c.(ro_reviewed_sha) = r.(ro_reviewed_sha))).
Proof.
  intros Hr. destruct (reachable_ok L Hr) as [Hro Hst _ _ _ _ _ _ _].
  unfold evaluate_tip, finalize_ready, status_ok in *.
  case_bool_decide as Hs; cbn [andb negb]; [|split; [done|naive_solver]].
  rewrite Hs in Hst. destruct Hst as (_ & _ & r & Hl & Hcl & Hsha & Hind).
  rewrite Hsha. cbn [is_Some_b negb].
  destruct (String.eqb_spec head origin) as [->|Hne]; cbn [negb]; [|split; [done|naive_solver]].
  assert (Hlast : r.(ro_new_accepted) = 0%Z ∧ (has_independent_confirm L = true →
            r.(ro_kind) = k_confirm
            ∧ ∃ rs c, L.(lg_rounds) = rs ++ [c; r] ∧ c.(ro_kind) = k_loop
              ∧ c.(ro_new_accepted) = 0%Z ∧ c.(ro_reviewed_sha) = r.(ro_reviewed_sha))).
  { by apply clean_last_round. }
  case_bool_decide as Hh; cbn [negb andb].
  - injection Hh as ->. split; [|done]. intros _. split; [done|]. split; [done|].
    exists r. naive_solver.
  - destruct merge_only; cbn [negb].
    + split; [|done]. intros _. split; [done|]. split; [done|]. exists r. naive_solver.
    + split; [done|]. intros (_ & _ & r' & Hl' & [Hh'|?] & _); [|done].
      rewrite Hl in Hl'. injection Hl' as <-. congruence.
Qed.
End Reachable.

Section SampleLife.
Import Sample.

Lemma sample_fresh_reachable : ledger_reachable fresh.
Proof. apply reach_new. Defined.

Lemma sample_after1_reachable : ledger_reachable after1.
Proof.
  eapply reach_step; [apply sample_fresh_reachable|].
  apply (step_round_of _ loop_dirty). vm_compute. reflexivity.
Defined.

Lemma sample_candidate_reachable : ledger_reachable candidate.
Proof.
  eapply reach_step; [apply sample_after1_reachable|].
  apply (step_round_of _ loop_clean). vm_compute. reflexivity.
Defined.

Lemma sample_done_reachable : ledger_reachable done_.
Proof.
  eapply reach_step; [apply sample_candidate_reachable|].
  apply (step_round_of _ confirm_clean). vm_compute. reflexivity.
Defined.

Lemma sample_oscillating_reachable : ledger_reachable oscillating.
Proof.
  eapply reach_step; [apply sample_after1_reachable|].
  apply (step_round_of _ loop_again). vm_compute. reflexivity.
Defined.

Lemma convergence_ledger_sound_witness : ledger_ok done_.
Proof. apply convergence_ledger_sound, sample_done_reachable. Defined.

Lemma engine_refines_phases_witness :
  phase_step true (ph_candidate "s2") (ph_clean "s2").
Proof.
  apply (engine_refines_phases candidate done_); [apply sample_candidate_reachable|].
  apply (step_round_of _ confirm_clean). vm_compute. reflexivity.
Defined.

Lemma accepted_tip_was_reviewed_witness :
  evaluate_tip done_ "s2" "s2" false = tip_accepted
  ∧ evaluate_tip candidate "s2" "s2" false = rereview_required no_clean_round.
Proof.
  split; [|vm_compute; reflexivity].
  apply (proj2 (accepted_tip_was_reviewed done_ "s2" "s2" false sample_done_reachable)).
  split; [vm_compute; reflexivity|]. split; [reflexivity|].
  exists (the_round candidate confirm_clean).
  split; [vm_compute; reflexivity|]. split; [left; reflexivity|].
  split; [vm_compute; reflexivity|]. intros _. split; [reflexivity|].
  exists [the_round fresh loop_dirty], (the_round after1 loop_clean).
  vm_compute. repeat split.
Defined.
End SampleLife.
