(* ===== verification/ConvergenceRounds.v ===== *)
(** * What one recorded round decides, and how many there can be

    The decision priority of [record_round] against the unsettled findings of
    the round, the stall rule as a property of the last rounds, suppression as
    an identity on recording, and the bound on the rounds of one review. *)

From S2P Require Import Prelude PyStr PyText Markers ReviewModels TextMatch Findings Enums Tasks World Adjudication.
From S2P Require Import ConvergenceModels Convergence MergeTolerance ConvergenceProps ConvergenceLife ConvergenceSafety.
From Stdlib Require Import Sorted.
#[local] Open Scope nat_scope.
#[local] Open Scope cw_scope.

Lemma existsb_false {X} (p : X → bool) xs :
  existsb p xs = false ↔ ∀ x, x ∈ xs → p x = false.
Proof.
  induction xs as [|x xs IH]; cbn; [split; [by intros _ x Hx%elem_of_nil|done]|].
  rewrite orb_false_iff, IH. split.
  - intros [Hx Hxs] y [->|Hy]%elem_of_cons; auto.
  - intros H. split; [apply H; by left|]. intros y Hy. apply H. by right.
Qed.

(** ** The stall rule *)

Lemma non_decreasing_sorted counts : non_decreasing counts = true ↔ Sorted Z.le counts.
Proof.
  induction counts as [|x [|y ys] IH]; cbn -[Z.leb].
  - split; [constructor|done].
  - split; [repeat constructor|done].
  - fold (non_decreasing (y :: ys)). rewrite andb_true_iff, IH, Z.leb_le. split.
    + intros [Hxy Hs]. constructor; [done|by constructor].
    + intros Hs. apply Sorted_inv in Hs as [Hs Hd]. by inversion Hd.
Qed.

(** The last [window + 1] rounds since [start] are dirty, each accepted more
    than the noise floor, and no count fell. *)
Definition stalled (rounds : list RoundRecord) (window start : nat) : Prop :=
  ∃ earlier tail, drop start rounds = earlier ++ tail ∧ length tail = window + 1
    ∧ (∀ r, r ∈ tail → r.(ro_clean) = false ∧ (STALL_NOISE_FLOOR < r.(ro_new_accepted))%Z)
    ∧ Sorted Z.le (map ro_new_accepted tail).

Lemma detect_no_progress_spec rounds window start :
  detect_no_progress rounds window start = true ↔ stalled rounds window start.
Proof.
  unfold detect_no_progress, stalled. set (xs := drop start rounds).
  destruct (Nat.ltb_spec (length xs) (window + 1)) as [Hlt|Hge].
  { split; [done|]. intros (e & t & Heq & Hlen & _). rewrite Heq, length_app in Hlt. lia. }
  assert (Htl : take_last (window + 1) xs = drop (length xs - (window + 1)) xs) by done.
  assert (Hxs : xs = take (length xs - (window + 1)) xs ++ take_last (window + 1) xs).
  { by rewrite Htl, take_drop. }
  assert (Hlen : length (take_last (window + 1) xs) = window + 1).
  { rewrite Htl, length_drop. lia. }
  split.
  - intros H. exists (take (length xs - (window + 1)) xs), (take_last (window + 1) xs).
    split; [done|]. split; [done|]. revert H.
    destruct (existsb ro_clean _) eqn:Hc; [done|].
    destruct (existsb _ (map ro_new_accepted _)) eqn:Hf; [done|].
    intros Hnd. split; [|by apply non_decreasing_sorted]. intros r Hr.
    split.
    + by eapply existsb_false in Hc.
    + eapply existsb_false in Hf; [by apply Z.leb_gt, Hf|].
      apply list_elem_of_fmap. by exists r.
  - intros (e & t & Heq & Hlt & Hall & Hs).
    assert (Ht : t = take_last (window + 1) xs).
    { rewrite Hxs in Heq. apply app_inj_2 in Heq as [_ ->]; [done|]. congruence. }
    rewrite <- Ht.
    rewrite (proj2 (existsb_false ro_clean t)) by (intros r Hr; by apply Hall).
    rewrite (proj2 (existsb_false _ (map ro_new_accepted t))); [by apply non_decreasing_sorted|].
    intros n (r & -> & Hr)%list_elem_of_fmap. apply Z.leb_gt, Hall, Hr.
Qed.

(** ** The decision of a round *)

(** The findings that keep the loop open: accepted and not settled. *)
Definition open_fixes (L : ConvergenceLedger) (a : RoundArgs) : list RoundFinding :=
  open_with L o_fix a.(ra_findings).
Definition open_operator (L : ConvergenceLedger) (a : RoundArgs) : list RoundFinding :=
  open_with L o_operator_action a.(ra_findings).

(** A fix of [f] was dispatched before, for another sha. *)
Definition fixed_before (L : ConvergenceLedger) (sha : string) (f : RoundFinding) : Prop :=
  ∃ s, fixed_index L !! identity_of f = Some s ∧ s ≠ sha.

(** The documented priority, each stop with its reason. *)
Inductive decided (L : ConvergenceLedger) (a : RoundArgs) (rounds : list RoundRecord)
  : Decision → option string → Prop :=
  | dc_clean :
      open_fixes L a ++ open_operator L a = [] →
      (a.(ra_kind) = k_loop → has_independent_confirm L = false) →
      decided L a rounds dec_clean None
  | dc_confirm :
      open_fixes L a ++ open_operator L a = [] →
      a.(ra_kind) = k_loop → has_independent_confirm L = true →
      decided L a rounds dec_confirm_required None
  | dc_oscillation f :
      f ∈ open_fixes L a ++ open_operator L a → fixed_before L a.(ra_reviewed_sha) f →
      decided L a rounds dec_stop_not_converging (Some STOP_OSCILLATION)
  | dc_operator :
      (∀ f, f ∈ open_fixes L a ++ open_operator L a → ¬ fixed_before L a.(ra_reviewed_sha) f) →
      open_operator L a ≠ [] →
      decided L a rounds dec_stop_operator_action (Some STOP_OPERATOR_ACTION)
  | dc_no_progress :
      (∀ f, f ∈ open_fixes L a → ¬ fixed_before L a.(ra_reviewed_sha) f) →
      open_operator L a = [] → open_fixes L a ≠ [] →
      stalled rounds L.(lg_stall_window)
        (Nat.max L.(lg_epoch_start_round) L.(lg_window_start_round)) →
      decided L a rounds dec_stop_not_converging (Some STOP_NO_PROGRESS)
  | dc_max_cycles :
      (∀ f, f ∈ open_fixes L a → ¬ fixed_before L a.(ra_reviewed_sha) f) →
      open_operator L a = [] → open_fixes L a ≠ [] →
      ¬ stalled rounds L.(lg_stall_window)
          (Nat.max L.(lg_epoch_start_round) L.(lg_window_start_round)) →
      (L.(lg_max_cycles) ≤ L.(lg_fix_cycles_used))%Z →
      decided L a rounds dec_stop_max_cycles (Some STOP_MAX_CYCLES)
  | dc_continue :
      (∀ f, f ∈ open_fixes L a → ¬ fixed_before L a.(ra_reviewed_sha) f) →
      open_operator L a = [] → open_fixes L a ≠ [] →
      ¬ stalled rounds L.(lg_stall_window)
          (Nat.max L.(lg_epoch_start_round) L.(lg_window_start_round)) →
      (L.(lg_fix_cycles_used) < L.(lg_max_cycles))%Z →
      decided L a rounds dec_continue None.

Lemma round_class_open L a :
  (round_class L a).(cl_new_fix) = open_fixes L a
  ∧ (round_class L a).(cl_new_operator) = open_operator L a.
Proof.
  destruct (classify_open L (ra_findings a) (length (lg_rounds L) + 1)) as (H1 & H2 & _).
  done.
Qed.

Lemma clean_round_open L a :
  clean_round L a = bool_decide (open_fixes L a ++ open_operator L a = []).
Proof.
  unfold clean_round, cl_new_accepted. destruct (round_class_open L a) as [-> ->].
  destruct (open_fixes L a) as [|f fs], (open_operator L a) as [|g gs];
    cbn [length app]; case_bool_decide; try done; apply Z.eqb_neq; lia.
Qed.

Lemma no_oscillation L fs sha :
  detect_oscillation L fs sha = [] → ∀ f, f ∈ fs → ¬ fixed_before L sha f.
Proof.
  intros H f Hf Hb. apply (not_elem_of_nil (identity_of f)).
  rewrite <- H. apply detect_oscillation_elem. split; [|done].
  apply list_elem_of_fmap. by exists f.
Qed.

Lemma the_outcome_decided L a :
  decided L a (L.(lg_rounds) ++ [the_round L a])
    (the_outcome L a).(oc_decision) (the_outcome L a).(oc_reason).
Proof.
  unfold the_outcome, _decide. change (ro_clean (the_round L a)) with (clean_round L a).
  change (ro_kind (the_round L a)) with (ra_kind a).
  change (ro_reviewed_sha (the_round L a)) with (ra_reviewed_sha a).
  destruct (round_class_open L a) as [-> ->]. rewrite clean_round_open.
  case_bool_decide as Hopen.
  { unfold _clean_decision. case_bool_decide as Hk; cbn [andb].
    - destruct (has_independent_confirm L) eqn:Hi; [by apply dc_confirm|by apply dc_clean].
    - by apply dc_clean. }
  cbv zeta. destruct (detect_oscillation L _ _) as [|i ix] eqn:Ho.
  - pose proof (no_oscillation _ _ _ Ho) as Hno.
    case_bool_decide as Hop; cbn [negb]; [|by apply dc_operator].
    rewrite Hop, app_nil_r in *.
    pose proof (detect_no_progress_spec (lg_rounds L ++ [the_round L a]) (lg_stall_window L)
      (Nat.max (lg_epoch_start_round L) (lg_window_start_round L))) as Hst.
    destruct (detect_no_progress _ _ _); [by apply dc_no_progress; [..|apply Hst]|].
    assert (Hns : ¬ stalled (lg_rounds L ++ [the_round L a]) (lg_stall_window L)
      (Nat.max (lg_epoch_start_round L) (lg_window_start_round L))) by (by intros ?%Hst).
    unfold max_cycles_exhausted. destruct (Z.leb_spec (lg_max_cycles L) (lg_fix_cycles_used L)).
    + by apply dc_max_cycles.
    + by apply dc_continue.
  - assert (Hi : i ∈ detect_oscillation L (open_fixes L a ++ open_operator L a)
      (ra_reviewed_sha a)) by (rewrite Ho; by left).
    apply detect_oscillation_elem in Hi as [Hin Hb].
    apply list_elem_of_fmap in Hin as (f & -> & Hf). by apply (dc_oscillation L a _ f).
Qed.

(** ** Suppression *)

Lemma classify_one_suppressed idx n c f :
  classify_one idx n c (suppress_finding_settled idx f) = classify_one idx n c f.
Proof.
  unfold classify_one. rewrite suppress_keeps_identity.
  unfold suppress_finding_settled. by destruct (idx !! identity_of f) eqn:E.
Qed.

Lemma classify_suppressed L fs n :
  classify_findings L (map (suppress_finding_settled (settled_index L)) fs) n
  = classify_findings L fs n.
Proof.
  unfold classify_findings. generalize (mkClassified [] [] [] 0).
  induction fs as [|f fs IH]; intros c; cbn; [done|]. by rewrite classify_one_suppressed, IH.
Qed.

(** ** Runs of rounds *)

(** A caller records rounds one after the other; on a candidate it runs the
    confirm round [next_action] asks for. *)
Inductive review_run : ConvergenceLedger → list RoundArgs → ConvergenceLedger → Prop :=
  | run_nil L : review_run L [] L
  | run_cons L a L' report rest L'' :
      (L.(lg_status) = awaiting_confirm → a.(ra_kind) = k_confirm) →
      record_round L a = inr (L', report) →
      review_run L' rest L'' → review_run L (a :: rest) L''.

Definition cycles_left (L : ConvergenceLedger) : Z :=
  Z.max 0 (L.(lg_max_cycles) - L.(lg_fix_cycles_used)).

(** Two rounds per fix cycle left and for the last review, one fewer on a
    candidate. *)
Definition rounds_left (L : ConvergenceLedger) : Z :=
  match L.(lg_status) with
  | in_progress => 2 * (cycles_left L + 1)
  | awaiting_confirm => 2 * (cycles_left L + 1) - 1
  | converged | stopped => 0
  end.

Lemma round_uses_budget L a :
  may_record L a → (L.(lg_status) = awaiting_confirm → a.(ra_kind) = k_confirm) →
  (rounds_left (after_round L a) + 1 ≤ rounds_left L)%Z.
Proof.
  intros (Hk & Hopen & _ & _) Hcand.
  assert (Hpos : (1 ≤ rounds_left L)%Z ∧ (L.(lg_status) = in_progress →
    rounds_left L = 2 * (cycles_left L + 1))%Z ∧ (2 * (cycles_left L + 1) - 1 ≤ rounds_left L)%Z).
  { unfold rounds_left, cycles_left. destruct Hopen as [-> | ->]; split; [lia| |lia|]; naive_solver lia. }
  pose proof (with_round_fields L a) as W.
  assert (W10 : (with_round L a).(lg_fix_cycles_used) = L.(lg_fix_cycles_used)) by apply W.
  assert (W11 : (with_round L a).(lg_max_cycles) = L.(lg_max_cycles)) by apply W.
  clear W.
  pose proof (the_outcome_cases L a) as Hc. unfold after_round.
  destruct Hc as [_ Hkl _|_ _|ix _ _ _|ix _ _ _|_|_ _|_ Hmx];
    cbn [oc_decision oc_reason oc_stop_identities _transition].
  7: { unfold max_cycles_exhausted in Hmx. apply Z.leb_gt in Hmx.
    unfold rounds_left at 1, cycles_left.
    change (Z.max 0 (lg_max_cycles (with_round L a) - (lg_fix_cycles_used L + 1)))%Z
      with (Z.max 0 (lg_max_cycles (with_round L a) - (lg_fix_cycles_used L + 1)))%Z.
    cbn. rewrite W11. unfold cycles_left in *. lia. }
  all: unfold rounds_left at 1, cycles_left; cbn; try lia.
  destruct Hopen as [Ho|Ho]; [|by rewrite (Hcand Ho) in Hkl].
  destruct Hpos as (_ & Hp & _). rewrite (Hp Ho), W10, W11. unfold cycles_left. lia.
Qed.

(** A round is recorded exactly when its kind is recordable, the ledger is
    open, a confirm round is at the candidate's sha on the confirm backend, and
    -- when every accepted finding is already settled -- no finding or reviewer
    was lost; otherwise nothing is recorded.  A recorded round appends one
    record counting the unsettled findings, settles the newly rejected and
    deferred ones, and decides by the documented priority: clean, oscillation,
    operator action, no progress, max cycles, continue; only a continue charges
    a cycle. *)
Theorem record_round_decides (L : ConvergenceLedger) (a : RoundArgs) :
  match record_round L a with
  | inl _ => ¬ may_record L a
  | inr (L', report) =>
      may_record L a
      ∧ decided L a L'.(lg_rounds) report.(rp_decision) report.(rp_reason)
      ∧ (∃ r, L'.(lg_rounds) = L.(lg_rounds) ++ [r]
           ∧ r.(ro_new_accepted) = Z.of_nat (length (open_fixes L a ++ open_operator L a))
           ∧ r.(ro_resurfaced_settled) = count_if (is_settled L) a.(ra_findings))
      ∧ (∃ new, L'.(lg_settled) = L.(lg_settled) ++ new ∧ newly_ok L a.(ra_findings) new)
      ∧ L'.(lg_fix_cycles_used)
        = (L.(lg_fix_cycles_used)
           + if decide (report.(rp_decision) = dec_continue) then 1 else 0)%Z
  end.
Proof.
  destruct (record_round_spec L a) as [[Hm ->]|[Hn [e ->]]]; [|done].
  split; [done|].
  pose proof (with_round_fields L a) as W.
  assert (W1 : (with_round L a).(lg_rounds) = L.(lg_rounds) ++ [the_round L a]) by apply W.
  assert (W2 : (with_round L a).(lg_settled)
               = L.(lg_settled) ++ (round_class L a).(cl_newly_settled)) by apply W.
  assert (W10 : (with_round L a).(lg_fix_cycles_used) = L.(lg_fix_cycles_used)) by apply W.
  clear W.
  assert (Hf : ∀ o c r, (_transition L o c r (with_round L a)).(lg_rounds) = (with_round L a).(lg_rounds)
    ∧ (_transition L o c r (with_round L a)).(lg_settled) = (with_round L a).(lg_settled)
    ∧ (_transition L o c r (with_round L a)).(lg_fix_cycles_used)
      = (L.(lg_fix_cycles_used) + if decide (o.(oc_decision) = dec_continue) then 1 else 0)%Z).
  { intros o c r. unfold _transition.
    destruct (oc_decision o); case_decide; try done; cbn; rewrite ?W10; (split; [done|];
      split; [done|lia]). }
  destruct (Hf (the_outcome L a) (round_class L a) (the_round L a)) as (F1 & F2 & F3).
  fold (after_round L a) in F1, F2, F3. rewrite F1, F2, F3, W1, W2.
  destruct (round_class_open L a) as [O1 O2].
  destruct (classify_open L (ra_findings a) (length (lg_rounds L) + 1)) as (_ & _ & Hres).
  split; [apply the_outcome_decided|]. split; [|split; [|done]].
  - exists (the_round L a). split; [done|]. split; [|exact Hres].
    unfold the_round, round_record, cl_new_accepted. cbn [ro_new_accepted].
    rewrite O1, O2, length_app. lia.
  - exists (round_class L a).(cl_newly_settled). split; [done|]. apply classify_newly.
Qed.

(** Suppressing a round's findings first -- stamping every settled one with
    its recorded outcome -- changes nothing about recording the round: the same
    ledger, the same report and the same errors. *)
Theorem suppression_records_the_same (L : ConvergenceLedger) (a : RoundArgs)
  (findings : list RoundFinding) (adjudications : list Adjudication) :
  _suppress_findings L a.(ra_findings) = inr (findings, adjudications) →
  record_round L (a <| ra_findings := findings |>) = record_round L a.
Proof.
  unfold _suppress_findings. destruct (all_ok _); [done|]. intros [= <- _].
  unfold record_round, _apply_round. destruct a as [kind backend sha fs roster now un fr sc sr].
  cbn -[classify_findings _decide round_record _transition set_frozen_once _report].
  by rewrite classify_suppressed.
Qed.

(** A review ends: from any ledger, a caller that confirms its candidates
    records at most two rounds per fix cycle left plus two, however the
    reviewers answer -- after that every round is refused. *)
Theorem review_run_bounded (L L' : ConvergenceLedger) (rounds : list RoundArgs) :
  review_run L rounds L' →
  (Z.of_nat (length rounds) ≤ 2 * (cycles_left L + 1))%Z.
Proof.
  intros Hrun. assert (H : (Z.of_nat (length rounds) + rounds_left L' ≤ rounds_left L)%Z).
  { induction Hrun as [L|L a L1 report rest L2 Hc Hr _ IH]; [cbn; lia|].
    apply record_round_ok in Hr as (Hm & -> & _).
    pose proof (round_uses_budget L a Hm Hc). cbn [length]. lia. }
  assert (H0 : (0 ≤ rounds_left L')%Z ∧ (rounds_left L ≤ 2 * (cycles_left L + 1))%Z).
  { unfold rounds_left, cycles_left. destruct (lg_status L), (lg_status L'); lia. }
  lia.
Qed.

Section Witnesses.
Import Sample.

Lemma suppression_records_the_same_witness :
  record_round candidate (confirm_clean <| ra_findings := [bug o_reject] |>)
  = record_round candidate confirm_clean
  ∧ settled_index candidate !! identity_of (bug o_fix) ≠ None.
Proof.
  split; [|vm_compute; discriminate].
  apply (suppression_records_the_same candidate confirm_clean [bug o_reject]
    (match _suppress_findings candidate [bug o_fix] with inr (_, x) => x | inl _ => [] end)).
  vm_compute. reflexivity.
Defined.

Lemma run_cons_of L a rest L' L'' :
  (L.(lg_status) = awaiting_confirm → a.(ra_kind) = k_confirm) →
  round_of (record_round L a) = Some L' → review_run L' rest L'' → review_run L (a :: rest) L''.
Proof.
  intros Hc Hr Hrest. destruct (record_round L a) as [|[X report]] eqn:E; [done|].
  injection Hr as ->. by eapply run_cons.
Qed.

(** One cycle left: a dirty round, its candidate and the confirm round. *)
Lemma review_run_bounded_witness : (3 ≤ 2 * (cycles_left fresh + 1))%Z.
Proof.
  apply (review_run_bounded fresh done_ [loop_dirty; loop_clean; confirm_clean]).
  apply (run_cons_of _ _ _ after1); [discriminate|vm_compute; reflexivity|].
  apply (run_cons_of _ _ _ candidate); [discriminate|vm_compute; reflexivity|].
  apply (run_cons_of _ _ _ done_); [intros _; reflexivity|vm_compute; reflexivity|].
  apply run_nil.
Defined.
End Witnesses.
