(* ===== verification/ConvergenceSettle.v ===== *)
(** * Outages, settles and suppression

    The confirm-outage cap, the settle payload of a stop, the decision default
    of a verdict, and when suppression refuses a settled finding. *)

From S2P Require Import Prelude PyStr PyText Markers ReviewModels TextMatch Findings Enums Tasks World Adjudication.
From S2P Require Import ConvergenceModels Convergence MergeTolerance ConvergenceProps ConvergenceLife ConvergenceSafety.
#[local] Open Scope nat_scope.
#[local] Open Scope cw_scope.

(** ** Confirm outages *)

Lemma run_length_none {X} (p : X → bool) xs :
  (∀ x, x ∈ xs → p x = false) → run_length p xs = 0%Z.
Proof. destruct xs as [|x xs]; cbn; [done|]. intros H. by rewrite (H x) by (by left). Qed.

Definition with_outage (L : ConvergenceLedger) (entry : ConfirmFailure) : ConvergenceLedger :=
  L <| lg_confirm_failures := L.(lg_confirm_failures) ++ [entry] |>.

Lemma outage_run L entry cause :
  consecutive_confirm_failures (with_outage L entry) cause
  = (if same_run L cause entry then consecutive_confirm_failures L cause + 1 else 0)%Z.
Proof.
  unfold consecutive_confirm_failures.
  change (lg_confirm_failures (with_outage L entry)) with (lg_confirm_failures L ++ [entry]).
  rewrite reverse_snoc. cbn [run_length].
  change (same_run (with_outage L entry) cause) with (same_run L cause). done.
Qed.

(** ** Settling the payload of a stop *)

Lemma finding_identity_of_normal i :
  normal_identity i →
  finding_identity i.(id_severity) i.(id_file) i.(id_summary_normalized) = i.
Proof. unfold normal_identity, finding_identity. intros ->. by destruct i. Qed.

(** The target an identity is printed as. *)
Definition payload_target (i : FindingIdentity) : SettleTarget :=
  mkSettleTarget i.(id_severity) i.(id_file) i.(id_summary_normalized).

(** What the paste's validation takes: a gating severity, and a file and a
    summary that are not blank. *)
Definition pasteable (i : FindingIdentity) : Prop :=
  is_Some (gating_severity i.(id_severity)) ∧ is_blank i.(id_file) = false
  ∧ is_blank i.(id_summary_normalized) = false.

Lemma payload_identities L :
  ledger_ok L → map target_identity (map payload_target L.(lg_stop_identities))
                = L.(lg_stop_identities).
Proof.
  intros Hok. pose proof (lo_normal _ Hok) as Hn. apply Forall_app in Hn as [Hn _].
  rewrite map_map. induction Hn as [|i ix Hi _ IH]; [done|].
  cbn [map]. rewrite IH. f_equal. by apply finding_identity_of_normal.
Qed.

Lemma parse_entry i :
  match parse_SettleTarget (payload_entry i) with
  | inl _ => ¬ pasteable i
  | inr t => t = payload_target i ∧ pasteable i
  end.
Proof.
  unfold parse_SettleTarget, payload_entry.
  replace (only_keys _ _) with true by (vm_compute; reflexivity).
  cbn [negb dict_get String.eqb Ascii.eqb Bool.eqb]. unfold pasteable, validate_SettleTarget.
  cbn [tg_file tg_summary]. destruct (gating_severity _) as [g|]; cbn [is_Some_b]; [|by intros [[? ?] _]].
  destruct (is_blank (id_file i)); cbn [orb]; [by intros (_ & ? & _)|].
  destruct (is_blank (id_summary_normalized i)); [by intros (_ & _ & ?)|]. by split; eauto.
Qed.

Lemma parse_entries ids :
  match all_ok (map parse_SettleTarget (map payload_entry ids)) with
  | inl _ => ∃ i, i ∈ ids ∧ ¬ pasteable i
  | inr ts => ts = map payload_target ids ∧ Forall pasteable ids
  end.
Proof.
  induction ids as [|i ids IH]; [done|]. cbn [map all_ok]. pose proof (parse_entry i) as Hi.
  destruct (parse_SettleTarget _) as [e|t]; [exists i; split; [by left|done]|].
  destruct Hi as [-> Hi]. destruct (all_ok _) as [e|ts].
  - destruct IH as (j & Hj & Hn). exists j. split; [by right|done].
  - destruct IH as [-> IH]. split; [done|by constructor].
Qed.

(** A stop's payload, parsed back. *)
Lemma parse_payload L :
  L.(lg_stop_identities) ≠ [] →
  match parse_settle_input (settle_payload L) with
  | inl _ => ∃ i, i ∈ L.(lg_stop_identities) ∧ ¬ pasteable i
  | inr ts => ts = map payload_target L.(lg_stop_identities)
              ∧ Forall pasteable L.(lg_stop_identities)
  end.
Proof.
  intros Hne. unfold settle_payload. pose proof (parse_entries (lg_stop_identities L)) as H.
  destruct (lg_stop_identities L) as [|i ids]; [done|]. exact H.
Qed.

Lemma after_round_fields L a :
  (after_round L a).(lg_rounds) = L.(lg_rounds) ++ [the_round L a]
  ∧ (after_round L a).(lg_confirm_failures) = L.(lg_confirm_failures).
Proof.
  pose proof (with_round_fields L a) as W.
  assert (W1 : (with_round L a).(lg_rounds) = L.(lg_rounds) ++ [the_round L a]) by apply W.
  assert (W15 : (with_round L a).(lg_confirm_failures) = L.(lg_confirm_failures)) by apply W.
  clear W.
  unfold after_round, _transition. rewrite <- W1, <- W15.
  by destruct (oc_decision (the_outcome L a)).
Qed.

Section Settle.
Context {C : CloseMatch} {G : GitRepo} {D : LedgerDump}.

Lemma settle_all_recorded recorded reason actor now sha round targets acc un :
  (∀ i, i ∈ map target_identity targets → i ∈ recorded) →
  snd (foldl (settle_target recorded reason actor now sha round) (acc, un) targets) = un.
Proof.
  revert acc. induction targets as [|t targets IH]; cbn [foldl map]; intros acc H; [done|].
  unfold settle_target at 2. rewrite decide_True by (apply H; by left).
  apply IH. intros i Hi. apply H. by right.
Qed.

(** An operator settle that covers every stop identity releases the stop. *)
Lemma all_operator_settled L s targets :
  settles L targets s → L.(lg_stop_identities) ≠ [] →
  (∀ i, i ∈ L.(lg_stop_identities) → i ∈ map target_identity targets) →
  _all_operator_settled (L <| lg_settled := s |>) = true.
Proof.
  intros [_ _ Hop] Hne Hcov. unfold _all_operator_settled.
  change (lg_stop_identities (L <| lg_settled := s |>)) with (lg_stop_identities L).
  change (lg_settled (L <| lg_settled := s |>)) with s.
  destruct (lg_stop_identities L) as [|i ix] eqn:E; [done|].
  rewrite <- E in *. assert (Hall : ∀ j, j ∈ lg_stop_identities L →
    j ∈ map st_identity (filter (λ e, is_operator_settle e = true) s)).
  { intros j Hj. destruct (Hop j) as (e & He & <- & Ho); [auto| |].
    - unfold _recorded_identities. rewrite first_seen_elem, elem_of_app. by left.
    - apply ids_elem. exists e. split; [|done]. by apply list_elem_of_filter. }
  apply forallb_forall. intros j Hj. apply bool_decide_eq_true, Hall.
  by apply list_elem_of_In.
Qed.

Lemma release_oscillation X :
  X.(lg_stop_reason) = Some STOP_OSCILLATION → _all_operator_settled X = true →
  release_cause X = Some identities_settled.
Proof.
  intros Hr Ha. unfold release_cause. rewrite Hr, Ha. by rewrite !bool_decide_false by done.
Qed.

Lemma operator_settle_report L targets actor reason now L' report :
  operator_settle L targets actor reason now = inr (L', report) →
  ((∀ i, i ∈ map target_identity targets → i ∈ _recorded_identities L) →
   report.(os_unmatched) = [])
  ∧ report.(os_releasable) = is_Some_b (release_cause L').
Proof.
  unfold operator_settle. destruct (last (lg_rounds L)) as [r|]; [|done].
  destruct (foldl _ _ _) as [matched un] eqn:Hf. intros H. split.
  - intros Hall. assert (Hun : un = []).
    { pose proof (settle_all_recorded (_recorded_identities L) reason actor now
        (ro_reviewed_sha r) (length (lg_rounds L)) targets [] [] Hall) as Hs.
      by rewrite Hf in Hs. }
    destruct matched; [by injection H as _ <-|].
    destruct (refresh_settled _ _). by injection H as _ <-.
  - destruct matched; [by injection H as <- <-|].
    destruct (refresh_settled _ _). by injection H as <- <-.
Qed.

(** A same-tip init of an owned stopped ledger that has a release. *)
Lemma reconcile_released L ticket fork used head fresh max_cycles now :
  L.(lg_ticket_id) = ticket → L.(lg_fork_point) = fork → L.(lg_fix_cycles_used) = used →
  L.(lg_status) = stopped → L.(lg_stop_reason) = Some STOP_OSCILLATION →
  _all_operator_settled L = true → ro_reviewed_sha <$> last L.(lg_rounds) = Some head →
  let R := reconcile_ledger_for_init (Some L) fresh ticket fork false head max_cycles now false in
  R.(rec_ledger).(lg_status) = in_progress
  ∧ R.(rec_ledger).(lg_fix_cycles_used) = used
  ∧ sr_cause <$> R.(rec_released) = Some identities_settled.
Proof.
  intros <- <- <- Hs Hr Ha Hh. cbv zeta. unfold reconcile_ledger_for_init, _reset_reason.
  rewrite !String.eqb_refl. cbn [negb]. cbv zeta.
  set (X := (_ <| lg_confirm_backend := _ |>) <| lg_confirm_not_independent := _ |>).
  change (lg_status X) with (lg_status L).
  change (lg_status (L <| lg_max_cycles := max_cycles |>)) with (lg_status L).
  rewrite Hs, (bool_decide_false (stopped = converged)) by done. cbn [andb].
  unfold _reconcile_stopped. change (lg_rounds X) with (lg_rounds L).
  rewrite Hh, bool_decide_true by done. cbn [negb].
  rewrite (release_oscillation X Hr Ha).
  destruct (released_fields X identities_settled head now false)
    as (_ & E1 & _ & _ & _ & _ & _ & _ & _ & E2 & _).
  rewrite E1, E2. split; [done|]. by split.
Qed.

Lemma outage_bounded L entry f :
  ledger_ok L → entry.(cf_round) = length L.(lg_rounds) →
  f ∈ (with_outage L entry).(lg_confirm_failures) → f.(cf_round) ≤ length L.(lg_rounds).
Proof.
  intros Hok He Hf.
  change (lg_confirm_failures (with_outage L entry)) with (lg_confirm_failures L ++ [entry]) in Hf.
  apply elem_of_app in Hf as [Hf| ->%list_elem_of_singleton]; [|lia].
  exact (proj1 (Forall_forall _ _) (lo_failures _ Hok) f Hf).
Qed.

(** A round number is never reused, so no failure recorded before a round counts
    after it. *)
Lemma round_resets_run L a c :
  (∀ f, f ∈ L.(lg_confirm_failures) → f.(cf_round) ≤ length L.(lg_rounds)) →
  consecutive_confirm_failures (after_round L a) c = 0%Z.
Proof.
  intros Hold. destruct (after_round_fields L a) as [Hrs Hfs].
  unfold consecutive_confirm_failures. rewrite Hfs. apply run_length_none.
  intros f Hf. rewrite elem_of_reverse in Hf. apply Hold in Hf.
  unfold same_run. rewrite Hrs, length_app. cbn [length].
  rewrite (proj2 (Nat.eqb_neq _ _)) by lia. apply andb_false_r.
Qed.

(** A confirm outage is counted per cause and candidate: it is refused off a
    candidate; on one it changes nothing but the failure list, extends the run
    of its own cause by one and breaks every other run, and escalates exactly
    when the run had already reached the cap of three.  Recording a round resets
    every run. *)
Theorem confirm_outage_escalates (L : ConvergenceLedger) (cause detail now : string) :
  ledger_reachable L →
  match record_confirm_failure L cause detail now with
  | inl _ => L.(lg_status) ≠ awaiting_confirm
  | inr (L', report) =>
      L.(lg_status) = awaiting_confirm
      ∧ (∃ entry, L' = L <| lg_confirm_failures := L.(lg_confirm_failures) ++ [entry] |>)
      ∧ consecutive_confirm_failures L' cause = (consecutive_confirm_failures L cause + 1)%Z
      ∧ (∀ other, other ≠ cause → consecutive_confirm_failures L' other = 0%Z)
      ∧ report.(rp_decision)
        = (if Z.leb 3 (consecutive_confirm_failures L cause)
           then dec_stop_confirm_escalated else dec_stop_confirm_unavailable)
      ∧ report.(rp_fix_cycles_used) = L.(lg_fix_cycles_used)
      ∧ ∀ a L'' rep, record_round L' a = inr (L'', rep) →
          ∀ c, consecutive_confirm_failures L'' c = 0%Z
  end.
Proof.
  intros Hr. pose proof (reachable_ok L Hr) as Hok. pose proof (lo_status _ Hok) as Hs.
  unfold record_confirm_failure. case_bool_decide as Hst; [|done].
  unfold status_ok in Hs. rewrite Hst in Hs. destruct Hs as (_ & r & _ & _ & _ & Haw).
  rewrite Haw. set (entry := mkConfirmFailure _ _ _ _ _ _). fold (with_outage L entry).
  assert (Hself : same_run L cause entry = true).
  { unfold same_run, entry. cbn. rewrite Haw, String.eqb_refl, Nat.eqb_refl.
    by rewrite bool_decide_true. }
  split; [done|]. split; [by exists entry|].
  split; [by rewrite outage_run, Hself|]. split; [|split; [done|split; [by destruct L|]]].
  - intros other Hne. rewrite outage_run. unfold same_run, entry. cbn.
    destruct (String.eqb_spec cause other); [congruence|done].
  - intros a L'' rep (_ & -> & _)%record_round_ok c. apply round_resets_run.
    intros f. by apply (outage_bounded L entry f Hok).
Qed.

(** The settle of a stop's own targets releases it. *)
Lemma settle_targets_release (L : ConvergenceLedger) (actor reason now : string) :
  ledger_ok L → L.(lg_status) = stopped → L.(lg_stop_reason) = Some STOP_OSCILLATION →
  ∃ L' report,
    operator_settle L (map payload_target L.(lg_stop_identities)) actor reason now
      = inr (L', report)
    ∧ report.(os_unmatched) = [] ∧ report.(os_releasable) = true
    ∧ ∃ s, L' = L <| lg_settled := s |> ∧ _all_operator_settled L' = true.
Proof.
  intros Hok Hst Hwhy. set (targets := map payload_target _).
  pose proof (lo_status _ Hok) as Hs. unfold status_ok in Hs. rewrite Hst in Hs.
  destruct Hs as (_ & (r & Hl & _) & why & Hwhy' & _ & Hids).
  rewrite Hwhy in Hwhy'. injection Hwhy' as <-.
  assert (Hne : lg_stop_identities L ≠ []) by (intros [?|?]%Hids; done).
  pose proof (payload_identities L Hok) as Hpay. fold targets in Hpay.
  destruct (operator_settle L targets actor reason now) as [e|[L' report]] eqn:Ho.
  { unfold operator_settle in Ho. rewrite Hl in Ho.
    destruct (foldl _ _ _) as [[|? ?] ?]; [done|]. by destruct (refresh_settled _ _). }
  destruct (operator_settle_ok _ _ _ _ _ _ _ (lo_settled _ Hok) Ho) as (_ & s & HL' & Hsett).
  assert (Hcov : ∀ i, i ∈ L.(lg_stop_identities) → i ∈ map target_identity targets) by by rewrite Hpay.
  pose proof (all_operator_settled L s _ Hsett Hne Hcov) as Hall.
  destruct (operator_settle_report _ _ _ _ _ _ _ Ho) as [Hun Hre].
  exists L', report. split; [done|]. split.
  - apply Hun. intros i Hi. unfold _recorded_identities.
    rewrite first_seen_elem, elem_of_app. left. by rewrite <- Hpay.
  - assert (Hrel : release_cause L' = Some identities_settled)
      by (rewrite HL'; by apply release_oscillation).
    rewrite Hre, Hrel. split; [done|]. exists s. split; [done|by rewrite HL'].
Qed.

(** C40: The settle payload of a review stopped on oscillation, printed as JSON
    and pasted back into [operator-settle] with a reason on the parked row: the
    command refuses it exactly when a recurring finding was recorded with a
    blank file or summary (or a severity outside the type of a finding).
    Otherwise every target matches a recorded identity, the saved ledger's stop
    is releasable, and the next init at the same tip reopens the review for the
    identities settled, on the same fix-cycle budget. *)
Theorem settle_payload_releases (L : ConvergenceLedger) (actor reason now : string)
  (row : queue_status) :
  ledger_reachable L → L.(lg_status) = stopped → L.(lg_stop_reason) = Some STOP_OSCILLATION →
  is_blank reason = false → row ≠ QueueItemStatus.RUNNING →
  match converge_operator_settle L.(lg_ticket_id) reason actor now row L (settle_payload L) with
  | sc_bad_payload => ∃ i, i ∈ L.(lg_stop_identities) ∧ ¬ pasteable i
  | sc_saved L' report =>
      Forall pasteable L.(lg_stop_identities)
      ∧ report.(os_unmatched) = [] ∧ report.(os_releasable) = true
      ∧ ∀ fresh max_cycles head,
          ro_reviewed_sha <$> last L.(lg_rounds) = Some head →
          let R := reconcile_ledger_for_init (Some L') fresh L.(lg_ticket_id) L.(lg_fork_point)
                     false head max_cycles now false in
          R.(rec_ledger).(lg_status) = in_progress
          ∧ R.(rec_ledger).(lg_fix_cycles_used) = L.(lg_fix_cycles_used)
          ∧ sr_cause <$> R.(rec_released) = Some identities_settled
  | _ => False
  end.
Proof.
  intros Hr Hst Hwhy Hreason Hrow. pose proof (reachable_ok L Hr) as Hok.
  pose proof (lo_status _ Hok) as Hs. unfold status_ok in Hs. rewrite Hst in Hs.
  destruct Hs as (_ & _ & why & Hwhy' & _ & Hids).
  rewrite Hwhy in Hwhy'. injection Hwhy' as <-.
  assert (Hne : lg_stop_identities L ≠ []) by (intros [?|?]%Hids; done).
  unfold converge_operator_settle. rewrite Hreason. pose proof (parse_payload L Hne) as Hp.
  destruct (parse_settle_input _) as [e|ts]; [done|]. destruct Hp as [-> Hall].
  rewrite bool_decide_eq_false_2, String.eqb_refl by done. cbn [negb].
  destruct (settle_targets_release L actor reason now Hok Hst Hwhy)
    as (L' & report & -> & Hun & Hrel & s & HL' & Hset).
  rewrite Hun. split; [done|]. split; [done|]. split; [done|]. intros fresh mx head Hh. subst L'.
  by apply (reconcile_released (L <| lg_settled := s |>)).
Qed.
End Settle.

(** ** Suppression and the decision default *)

Lemma all_ok_spec {X} (xs : list (exn + X)) :
  (∃ r, all_ok xs = inr r) ↔ ∀ e, inl e ∉ xs.
Proof.
  induction xs as [|[e|x] xs IH]; cbn.
  - split; [intros _ e; apply not_elem_of_nil|by exists []].
  - split; [by intros [? ?]|]. intros H. exfalso. apply (H e). by left.
  - destruct (all_ok xs) as [e|r]; split.
    + by intros [? ?].
    + intros H. destruct (proj2 IH) as [r Hr]; [|done]. intros e' He'. apply (H e'). by right.
    + intros _ e' He'. apply elem_of_cons in He' as [?|He']; [done|].
      by apply (proj1 IH (ex_intro _ r eq_refl) e').
    + intros _. by exists (x :: r).
Qed.

Lemma all_ok_length {X} (xs : list (exn + X)) r : all_ok xs = inr r → length r = length xs.
Proof.
  revert r. induction xs as [|[e|x] xs IH]; cbn; intros r; [by intros [= <-]|done|].
  destruct (all_ok xs) as [|r']; [done|]. intros [= <-]. cbn. by rewrite (IH r').
Qed.

Definition is_inl {A B} (x : A + B) : bool := match x with inl _ => true | inr _ => false end.

Lemma omap_settled_length L fs :
  length (omap (settled_adjudication (settled_index L)) fs)
  = length (filter (λ f, is_settled L f = true) fs).
Proof.
  induction fs as [|f fs IH]; [done|]. rewrite filter_cons. cbn.
  rewrite settled_index_is_settled. unfold settled_adjudication at 1.
  destruct (settled_index L !! identity_of f); cbn; case_decide; try done; cbn; by rewrite IH.
Qed.

(** The rationale [_NO_RATIONALE] does not replace: not empty, but blank. *)
Definition unusable_rationale (entry : SettledEntry) : Prop :=
  entry.(st_rationale) ≠ "" ∧ is_blank entry.(st_rationale) = true.

Lemma adjudication_for_error entry severity file summary l1 l2 evidence :
  (∃ e, _adjudication_for entry severity file summary l1 l2 evidence = inl e)
  ↔ unusable_rationale entry.
Proof.
  unfold _adjudication_for, validate_Adjudication, _check_rationale_recorded,
    _check_operator_action_is_must_fix, _check_operator_action_has_no_diff_anchor,
    unusable_rationale, or_str. cbn [a_outcome a_rationale].
  assert (Hb : is_blank _NO_RATIONALE = false) by (vm_compute; reflexivity).
  rewrite !(bool_decide_false (settled_outcome _ = _)) by (by destruct (st_outcome entry)).
  cbn [orb negb].
  destruct (String.eqb_spec (st_rationale entry) "") as [->|Hne].
  - rewrite Hb. cbn. split; [by intros [? ?]|by intros [? _]].
  - destruct (is_blank (st_rationale entry)); cbn; [|split; [by intros [? ?]|by intros [_ ?]]].
    split; [done|]. intros _. by eexists.
Qed.

(** Suppressing a round's findings fails exactly when a finding's settled
    entry has a rationale of white space: the empty rationale is replaced by
    the placeholder, every other one is recorded verbatim, and a blank one makes
    the adjudication's validator raise. *)
Theorem suppression_fails_iff_blank_rationale (L : ConvergenceLedger)
  (findings : list RoundFinding) :
  match _suppress_findings L findings with
  | inl _ => ∃ f entry, f ∈ findings ∧ settled_index L !! identity_of f = Some entry
               ∧ unusable_rationale entry
  | inr (stamped, adjudications) =>
      (∀ f entry, f ∈ findings → settled_index L !! identity_of f = Some entry →
         ¬ unusable_rationale entry)
      ∧ map identity_of stamped = map identity_of findings
      ∧ length adjudications = length (filter (λ f, is_settled L f = true) findings)
  end.
Proof.
  unfold _suppress_findings. set (idx := settled_index L).
  pose proof (all_ok_spec (omap (settled_adjudication idx) findings)) as Hall.
  assert (Hin : (∃ e, inl e ∈ omap (settled_adjudication idx) findings) ↔
    ∃ f entry, f ∈ findings ∧ idx !! identity_of f = Some entry ∧ unusable_rationale entry).
  { split.
    - intros (e & (f & Hf & He)%list_elem_of_omap). unfold settled_adjudication in He.
      destruct (idx !! identity_of f) as [entry|] eqn:E; [|done]. injection He as He.
      exists f, entry. split; [done|]. split; [done|]. by eapply adjudication_for_error; eexists.
    - intros (f & entry & Hf & E & Hu).
      destruct (proj2 (adjudication_for_error entry (rn_severity f) (rn_file f) (rn_summary f)
        None None "") Hu) as [e He].
      exists e. apply list_elem_of_omap. exists f. split; [done|].
      unfold settled_adjudication. rewrite E. cbn. by rewrite He. }
  destruct (all_ok _) as [e|r] eqn:Er.
  - apply Hin. destruct (decide (Exists (λ x, is_inl x) (omap (settled_adjudication idx) findings)))
      as [Hex|Hnex].
    + apply Exists_exists in Hex as ([e'|?] & He' & ?); [by exists e'|done].
    + exfalso. destruct (proj2 Hall) as [r Hr]; [|done]. intros e' He'. apply Hnex, Exists_exists.
      by exists (inl e').
  - split; [|split].
    + intros f entry Hf E Hu. destruct (proj2 Hin) as [e He]; [by exists f, entry|].
      by apply (proj1 Hall (ex_intro _ r eq_refl) e).
    + rewrite map_map. apply map_ext. apply suppress_keeps_identity.
    + by rewrite (all_ok_length _ _ Er), (omap_settled_length L).
Qed.

(** What [decided_finding] cannot decide: an explicit fix of a SHOULD_FIX that
    was dropped or left unresolved. *)
Definition undecidable_fix (af : AcceptedFinding) : Prop :=
  af.(af_finding).(f_severity) = SHOULD_FIX ∧ af.(af_adjudicated_fix) = true
  ∧ (af.(af_disposition) = d_dropped ∨ af.(af_disposition) = d_unresolved).

Definition gates_round (af : AcceptedFinding) : bool :=
  is_Some_b (gating_severity af.(af_finding).(f_severity)).

Definition finding_text (f : RoundFinding) : string * string * string :=
  (f.(rn_severity), f.(rn_file), f.(rn_summary)).

Definition accepted_text (af : AcceptedFinding) : string * string * string :=
  (af.(af_finding).(f_severity), af.(af_finding).(f_file), af.(af_finding).(f_summary)).

Lemma decided_keeps_finding af rationale :
  (decided_finding af rationale).(af_finding) = af.(af_finding).
Proof.
  unfold decided_finding. destruct af. cbn. by repeat case_match.
Qed.

Lemma gating_severity_Some s g :
  gating_severity s = Some g → g = s ∧ (s = MUST_FIX ∨ s = SHOULD_FIX).
Proof.
  unfold gating_severity. destruct (String.eqb_spec s MUST_FIX) as [->|]; [intros [= <-]; auto|].
  destruct (String.eqb_spec s SHOULD_FIX) as [->|]; [intros [= <-]; auto|done].
Qed.

Lemma decided_disposition af rationale g :
  gating_severity af.(af_finding).(f_severity) = Some g →
  (_DISPOSITION_OUTCOME (decided_finding af rationale).(af_disposition) = None
   ↔ undecidable_fix af).
Proof.
  intros [_ Hg]%gating_severity_Some. unfold decided_finding, undecidable_fix.
  destruct af as [fi revs disp detail adj scope]. cbn in Hg |- *. destruct Hg as [-> | ->]; cbn.
  - destruct disp; cbn; naive_solver.
  - destruct disp, adj; cbn; naive_solver.
Qed.

(** A verdict passed through the decision default records, with one
    exception: it raises exactly when an accepted SHOULD_FIX carries an explicit
    adjudicated fix and was dropped or left unresolved.  Otherwise every gating
    finding is recorded, in order and with its text, and the tally of what
    nobody read is that of the original verdict. *)
Theorem decided_verdict_records (verdict : ReviewVerdict) (rationale : string) :
  match from_verdict (decide_verdict verdict rationale) with
  | inl _ => ∃ af, af ∈ verdict.(v_accepted) ∧ undecidable_fix af
  | inr (findings, unread) =>
      (∀ af, af ∈ verdict.(v_accepted) → ¬ undecidable_fix af)
      ∧ map finding_text findings
        = map accepted_text (filter (λ af, gates_round af = true) verdict.(v_accepted))
      ∧ unread = unread_from_verdict verdict
  end.
Proof.
  unfold from_verdict.
  change (v_accepted (decide_verdict verdict rationale))
    with (map (λ item, decided_finding item rationale) (v_accepted verdict)).
  replace (unread_from_verdict (decide_verdict verdict rationale))
    with (unread_from_verdict verdict) by (by destruct verdict).
  generalize (v_accepted verdict). intros accepted.
  assert (H : match verdict_findings (map (λ item, decided_finding item rationale) accepted) with
    | inl _ => ∃ af, af ∈ accepted ∧ undecidable_fix af
    | inr fs => (∀ af, af ∈ accepted → ¬ undecidable_fix af)
        ∧ map finding_text fs
          = map accepted_text (filter (λ af, gates_round af = true) accepted)
    end).
  { induction accepted as [|af accepted IH]; cbn [map verdict_findings].
    { split; [by intros af Haf%elem_of_nil|done]. }
    rewrite filter_cons, !decided_keeps_finding.
    destruct (gating_severity (f_severity (af_finding af))) as [g|] eqn:Hg.
    - rewrite decide_True by (unfold gates_round; by rewrite Hg).
      pose proof (decided_disposition af rationale g Hg) as Hd.
      destruct (_DISPOSITION_OUTCOME _) as [o|]; cycle 1.
      { exists af. split; [by left|by apply Hd]. }
      destruct (verdict_findings _) as [e|fs].
      + destruct IH as (x & Hx & Hu). exists x. split; [by right|done].
      + destruct IH as [IH1 IH2]. split.
        * intros x [->|Hx]%elem_of_cons; [by intros ?%Hd|auto].
        * cbn [map]. rewrite IH2. f_equal. unfold finding_text, accepted_text, round_finding. cbn.
          rewrite decided_keeps_finding. apply gating_severity_Some in Hg as [-> _]. done.
    - rewrite decide_False by (unfold gates_round; by rewrite Hg).
      destruct (verdict_findings _) as [e|fs].
      + destruct IH as (x & Hx & Hu). exists x. split; [by right|done].
      + destruct IH as [IH1 IH2]. split; [|done].
        intros x [->|Hx]%elem_of_cons; [|auto]. intros (Hs & _).
        by rewrite Hs in Hg. }
  destruct (verdict_findings _); [done|]. destruct H. done.
Qed.

Section Witnesses.
Import Sample.

Lemma confirm_outage_escalates_witness :
  ∃ L' report, record_confirm_failure candidate "rate_limit" "429" "now" = inr (L', report)
    ∧ report.(rp_decision) = dec_stop_confirm_unavailable.
Proof.
  pose proof (confirm_outage_escalates candidate "rate_limit" "429" "now"
    sample_candidate_reachable) as H.
  destruct (record_confirm_failure candidate "rate_limit" "429" "now") as [e|[L' report]] eqn:E.
  - exfalso. apply H. vm_compute. reflexivity.
  - exists L', report. split; [reflexivity|]. destruct H as (_ & _ & _ & _ & -> & _).
    vm_compute. reflexivity.
Defined.

(** The command's ending: saved and releasable, or refused. *)
Definition settle_saved (c : SettleCommand) : option bool :=
  match c with sc_saved _ report => Some report.(os_releasable) | _ => None end.

Lemma settle_payload_releases_witness :
  settle_payload oscillating
    = JDict [("entries", JList [JDict [("severity", JStr "MUST_FIX"); ("file", JStr "a.py");
                                       ("summary", JStr "off by one")]])]
  ∧ settle_saved (converge_operator_settle "T-1" "false positive" "ops" "now"
                    QueueItemStatus.BLOCKED_ON_USER oscillating (settle_payload oscillating))
    = Some true.
Proof.
  split; [vm_compute; reflexivity|].
  pose proof (settle_payload_releases oscillating "ops" "false positive" "now"
    QueueItemStatus.BLOCKED_ON_USER sample_oscillating_reachable eq_refl eq_refl eq_refl) as H.
  specialize (H ltac:(discriminate)). change (lg_ticket_id oscillating) with "T-1" in H.
  destruct (converge_operator_settle _ _ _ _ _ _ _) as [e| |un|L' report] eqn:E.
  - destruct H.
  - vm_compute in E. discriminate E.
  - destruct H.
  - destruct H as (_ & _ & H & _). unfold settle_saved. rewrite H. reflexivity.
Defined.

(** A finding recorded without a summary stops the review, and the payload
    printed for it is refused. *)
Definition nameless_args (sha : string) : RoundArgs :=
  args k_loop "claude-native" sha [mkRoundFinding "MUST_FIX" "a.py" "" o_fix "checked"].
Definition nameless : ConvergenceLedger :=
  after_round (after_round fresh (nameless_args "s1")) (nameless_args "s2").

Lemma nameless_reachable : ledger_reachable nameless.
Proof.
  apply (reach_step (after_round fresh (nameless_args "s1"))).
  - eapply reach_step; [apply sample_fresh_reachable|].
    apply (step_round_of _ (nameless_args "s1")). vm_compute. reflexivity.
  - apply (step_round_of _ (nameless_args "s2")). vm_compute. reflexivity.
Qed.

Example blank_summary_payload_is_refused :
  nameless.(lg_status) = stopped ∧ nameless.(lg_stop_reason) = Some STOP_OSCILLATION
  ∧ converge_operator_settle "T-1" "false positive" "ops" "now" QueueItemStatus.BLOCKED_ON_USER
      nameless (settle_payload nameless) = sc_bad_payload.
Proof. vm_compute. by split_and!. Qed.
End Witnesses.
