(* ===== verification/MergeToleranceProps.v ===== *)
(** * Which moves past the clean sha are tolerated

    The exact condition under which a move of HEAD past the last clean round
    counts as default-branch merges only, and the fresh-process rule of the
    REVIEW staleness gate. *)

From S2P Require Import Prelude PyStr PyText Markers ReviewModels TextMatch Findings Enums Tasks World Adjudication.
From S2P Require Import ConvergenceModels Convergence MergeTolerance.
#[local] Open Scope nat_scope.
#[local] Open Scope cw_scope.

Section Tolerance.
Context {G : GitRepo}.

Definition git_ok (argv : list string) : bool := is_Some_b (git_stdout_or_none argv).

Definition is_ancestor (a b : string) : Prop := git_ok ["merge-base"; "--is-ancestor"; a; b] = true.

(** One merge of the default branch that brought in the default's side only. *)
Definition clean_default_merge (default_sha : string) (m : string * list string) : Prop :=
  ∃ other, m.2 = [other] ∧ is_ancestor other default_sha
    ∧ (merge_tree (m.1 +:+ "^1") (m.1 +:+ "^2")).(mtr_status) = mt_clean
    ∧ (merge_tree (m.1 +:+ "^1") (m.1 +:+ "^2")).(mtr_tree) = rev_parse_or_none (m.1 +:+ "^{tree}").

Lemma merge_rejection_None merge others default_sha :
  _merge_rejection merge others default_sha = None ↔
  clean_default_merge default_sha (merge, others).
Proof.
  unfold _merge_rejection, clean_default_merge, is_ancestor, git_ok. cbn [fst snd].
  destruct others as [|other [|o2 os]]; [naive_solver| |naive_solver].
  destruct (is_Some_b (git_stdout_or_none _)) eqn:Ha; cbn [negb]; cycle 1.
  { split; [done|]. intros (o & [= <-] & Ho & _). congruence. }
  cbv zeta. destruct (merge_tree _ _) as [st tree files detail]. cbn [mtr_status mtr_tree].
  destruct st; [|split; [done|naive_solver]..].
  case_bool_decide; split; try done; [by eauto 8|naive_solver].
Qed.

(** The clock stays within the budget for the first [n] merges read from
    [reading] on. *)
Definition in_budget (clock : nat → Z) (started : Z) (reading n : nat) : Prop :=
  ∀ k, k < n → (clock (reading + k)%nat - started < TIP_CHECK_BUDGET_SECONDS * 1000000)%Z.

Lemma merges_rejection_None clock started reading merges default_sha :
  merges_rejection clock started reading merges default_sha = None ↔
  in_budget clock started reading (length merges)
  ∧ Forall (clean_default_merge default_sha) merges.
Proof.
  revert reading. induction merges as [|[m os] ms IH]; intros reading.
  { cbn. split; [|done]. intros _. split; [intros k; lia|constructor]. }
  cbn [merges_rejection length]. unfold in_budget.
  destruct (Z.leb_spec (TIP_CHECK_BUDGET_SECONDS * 1000000) (clock reading - started)) as [Hle|Hlt].
  { split; [done|]. intros [Hb _]. specialize (Hb 0). rewrite Nat.add_0_r in Hb. lia. }
  rewrite Forall_cons, <- merge_rejection_None.
  destruct (_merge_rejection m os default_sha) as [x|]; [naive_solver|].
  rewrite (IH (S reading)). unfold in_budget. split.
  - intros [Hb Hall]. split; [|done]. intros [|k] Hk; [by rewrite Nat.add_0_r|].
    specialize (Hb k). replace (reading + S k) with (S reading + k) by lia. apply Hb. lia.
  - intros [Hb [_ Hall]]. split; [|done]. intros k Hk. specialize (Hb (S k)).
    replace (S reading + k) with (reading + S k) by lia. apply Hb. lia.
Qed.

Definition no_own_commits (span default_sha : string) : Prop :=
  ∃ out, git_stdout_or_none ["rev-list"; "--reverse"; "--no-merges"; span; "^" +:+ default_sha]
    = Some out ∧ words out = [].

Lemma own_commit_rejection_None span default_sha :
  _own_commit_rejection span default_sha = None ↔ no_own_commits span default_sha.
Proof.
  unfold _own_commit_rejection, no_own_commits.
  destruct (git_stdout_or_none _) as [out|]; [|naive_solver].
  destruct (words out) eqn:Hw; (split; [|intros (o & [= <-] & Ho); congruence]); [|done].
  intros _. by exists out.
Qed.

(** A move of HEAD past the clean sha is tolerated exactly when the branch
    has a resolvable default ref, the clean sha is an ancestor of HEAD, the span
    holds at least one first-parent merge and no commit of its own off the
    default branch, and every merge has two parents, takes a default-branch
    commit in and has the tree git's own clean merge writes -- all checked within
    the time budget.  Anything git cannot answer is a refusal. *)
Theorem tolerated_move_is_default_merges (clean_sha head_sha : string)
  (tolerance : option MergeTolerance) (clock : nat → Z) :
  default_merge_only clean_sha head_sha tolerance clock = true ↔
  ∃ branch default_sha merges,
    tolerance = Some branch
    ∧ rev_parse_or_none ("refs/remotes/origin/" +:+ branch +:+ "^{commit}") = Some default_sha
    ∧ is_ancestor clean_sha head_sha
    ∧ _merge_parents (clean_sha +:+ ".." +:+ head_sha) = Some merges ∧ merges ≠ []
    ∧ no_own_commits (clean_sha +:+ ".." +:+ head_sha) default_sha
    ∧ in_budget clock (clock 0) 1 (length merges)
    ∧ Forall (clean_default_merge default_sha) merges.
Proof.
  unfold default_merge_only, default_merge_rejection. destruct tolerance as [branch|]; cycle 1.
  { cbn. split; [done|]. by intros (? & ? & ? & ? & _). }
  unfold _span_or_rejection, is_ancestor, git_ok.
  destruct (rev_parse_or_none _) as [default_sha|] eqn:Hrp; cycle 1.
  { cbn. split; [done|]. intros (? & ? & ? & [= <-] & Hd & _). congruence. }
  destruct (is_Some_b (git_stdout_or_none ["merge-base"; "--is-ancestor"; clean_sha; head_sha]))
    eqn:Hanc; cbn [negb]; cycle 1.
  { cbn. split; [done|]. intros (? & ? & ? & _ & _ & ? & _). congruence. }
  cbv zeta. destruct (_merge_parents _) as [[|m ms]|] eqn:Hmp.
  - cbn. split; [done|]. intros (? & ? & ? & _ & _ & _ & Hm & ? & _). congruence.
  - cbn [sp_span sp_default_sha sp_merges].
    pose proof (own_commit_rejection_None (clean_sha +:+ ".." +:+ head_sha) default_sha) as Hown.
    pose proof (merges_rejection_None clock (clock 0) 1 (m :: ms) default_sha) as Hmr.
    destruct (_own_commit_rejection _ _) as [x|].
    { cbn. split; [done|]. intros (? & ? & ? & [= <-] & Hd & _ & _ & _ & Ho & _).
      rewrite Hrp in Hd. injection Hd as <-. by apply Hown in Ho. }
    destruct (merges_rejection _ _ _ _ _) as [x|]; cbn.
    + split; [done|]. intros (? & ? & ? & [= <-] & Hd & _ & Hm & _ & _ & Hb & Hall).
      rewrite Hrp in Hd. injection Hd as <-. injection Hm as <-.
      pose proof (proj2 Hmr (conj Hb Hall)). done.
    + split; [|done]. intros _. destruct (proj1 Hmr eq_refl) as [Hb Hall].
      exists branch, default_sha, (m :: ms). repeat (split; [done|]). by split; [apply Hown|].
  - cbn. split; [done|]. intros (? & ? & ? & _ & _ & _ & Hm & _). congruence.
Qed.

(** The REVIEW gate lets a moved tip pass only for a converge-mode task
    whose stored ledger converged at exactly the reviewed sha, and only when
    the move from that clean sha is default-branch merges; a missing ledger, a
    reopened one or an unmoved tip never passes this way. *)
Theorem review_move_tolerated_iff (clean_mode : bool) (tolerance : option MergeTolerance)
  (loaded : option ConvergenceLedger) (reviewed_sha head_sha : string) (clock : nat → Z) :
  tolerates_review_move clean_mode tolerance loaded reviewed_sha head_sha clock = true ↔
  clean_mode = true ∧ head_sha ≠ reviewed_sha
  ∧ default_merge_only reviewed_sha head_sha tolerance clock = true
  ∧ ∃ ledger, loaded = Some ledger ∧ ledger.(lg_status) = converged
      ∧ ledger.(lg_last_clean_sha) = Some reviewed_sha.
Proof.
  unfold tolerates_review_move, converged_across_tolerated_merge, finalize_ready.
  destruct clean_mode; cbn [negb]; [|naive_solver].
  destruct loaded as [ledger|]; [|naive_solver].
  case_bool_decide as Hc; cbn [negb]; [|naive_solver]. rewrite Hc. cbn [is_Some_b].
  case_bool_decide as Hs; cbn [andb negb orb]; [|naive_solver].
  destruct (String.eqb_spec head_sha reviewed_sha) as [->|Hne]; [naive_solver|].
  split; [|naive_solver]. intros H. split; [done|]. split; [done|]. split; [done|].
  exists ledger. auto.
Qed.
End Tolerance.

(** ** A repository with one clean default-branch merge *)

Module SampleRepo.
Definition tree_id : string := "4b825dc642cb6eb9a060e54bf8d69288fbee4904".
Definition says (out : string) : GitFailure + Completed := inr (mkCompleted 0 out "").

#[export] Instance one_merge : GitRepo := λ argv,
  match argv with
  | ["rev-parse"; "refs/remotes/origin/main^{commit}"] => says "d0"
  | ["rev-parse"; "m0^{tree}"] => says tree_id
  | "merge-base" :: _ => says ""
  | "merge-tree" :: _ => says (tree_id +:+ String (ascii_of_nat 0) "")
  | ["rev-list"; "--reverse"; "--first-parent"; "--parents"; "--merges"; _] => says "m0 c0 d0"
  | "rev-list" :: _ => says ""
  | _ => inl TimeoutExpired
  end.
End SampleRepo.

Example one_merge_tolerated :
  default_merge_rejection (G := SampleRepo.one_merge) "c0" "m0" (Some "main") (λ _, 0%Z) = None
  ∧ default_merge_rejection (G := SampleRepo.one_merge) "c0" "m0" (Some "dev") (λ _, 0%Z)
    = Some REJECT_NO_DEFAULT_REF.
Proof. split; vm_compute; reflexivity. Qed.
