(* ===== verification/Vocab.v ===== *)
(** * Sentinel vocabulary: [cw.auto_dev_result.schema._vocab], dispositions

    The closed string sets that classify an [AUTO_DEV_RESULT] status, the
    blocker-reason registry, the dev-queue disposition constants
    ([cw.dev_queue.dispositions], [cw.dev_queue.gates]) and the pure functions
    that derive a disposition, a PR url or a queue status from a sentinel. *)

From S2P Require Import Prelude.
From S2P Require Import PyStr.
From S2P Require Import Enums.
From S2P Require Import Tasks.

(** Membership of a [str | None] in a frozenset of strings. *)
Definition opt_in (o : option string) (s : gset string) : bool :=
  match o with Some x => bool_decide (x ∈ s) | None => false end.

(** [o == s] for a [str | None]. *)
Definition opt_is (o : option string) (s : string) : bool := bool_decide (o = Some s).

(** ** Statuses *)

Definition Status : list string :=
  ["shipped"; "stage_complete"; "plan_pending_approval"; "review_pending_approval";
   "merge_gate_blocked"; "merge_pending"; "scope_exceeded"; "forbidden_area"; "blocked";
   "no_op"; "ambiguities_pending_resolution"; "premises_pending_verification";
   "empty_diff_blocked"; "stale_dispatch"].

Definition _V4_STATUSES : gset string :=
  {[ "ambiguities_pending_resolution"; "premises_pending_verification" ]}.

Definition SCOPE_GATED_APPROVAL_STATUSES : gset string :=
  {[ "plan_pending_approval"; "review_pending_approval" ]}.

Definition PAUSED_FOR_USER_INPUT_STATUSES : gset string :=
  _V4_STATUSES ∪ SCOPE_GATED_APPROVAL_STATUSES.

Definition STAGE_SUCCESS_STATUSES : gset string := {[ "shipped"; "stage_complete" ]}.

Definition STAGE_FAILURE_STATUSES : gset string :=
  {[ "blocked"; "merge_gate_blocked"; "scope_exceeded"; "forbidden_area";
     "empty_diff_blocked"; "stale_dispatch" ]}.

Definition SALVAGE_TERMINAL_STATUSES : gset string :=
  {[ "shipped"; "no_op"; "plan_pending_approval"; "review_pending_approval";
     "merge_gate_blocked"; "merge_pending"; "scope_exceeded"; "forbidden_area";
     "empty_diff_blocked"; "stale_dispatch" ]} ∪ PAUSED_FOR_USER_INPUT_STATUSES.

Definition INTERMEDIATE_ADVANCE_STATUSES : gset string :=
  STAGE_SUCCESS_STATUSES ∖ SALVAGE_TERMINAL_STATUSES.

Definition SALVAGE_HOLD_STATUSES : gset string :=
  STAGE_FAILURE_STATUSES ∪ PAUSED_FOR_USER_INPUT_STATUSES ∪ {[ "merge_pending" ]}.

(** ** Blocker reasons *)

Definition EMPTY_DIFF_BLOCKER_REASON : string := "empty_diff_no_commits".
Definition REVIEW_NOT_CONVERGING_BLOCKER_REASON : string := "review_not_converging".
Definition CONFIRM_BACKEND_UNAVAILABLE_BLOCKER_REASON : string := "confirm_backend_unavailable".
Definition STALE_DISPATCH_BLOCKER_REASON : string := "pr_already_open".
Definition IMPL_COMMENTS_UNREADABLE_AFTER_REGRESS_BLOCKER_REASON : string :=
  "impl_comments_unreadable_after_regress".
Definition DESTRUCTIVE_DIRECTIVE_BLOCKER_REASON : string :=
  "destructive_directive_requires_operator".
Definition EXTERNAL_STATE_BLOCKER_REASON : string := "external_state_block".
Definition PLAN_SCOPE_DRIFT_BLOCKER_REASON : string := "plan_scope_drift".
Definition FREEFORM_BLOCKER_REASON_PREFIX : string := "x_".

Definition FINALIZE_REGRESS_BLOCKER_REASONS : gset string := {[ "agent_block" ]}.

Definition OPERATOR_UNAVAILABLE_BLOCKER_REASONS : gset string :=
  {[ "push_auth_failed"; "operator_unavailable"; "dependency_unmerged";
     IMPL_COMMENTS_UNREADABLE_AFTER_REGRESS_BLOCKER_REASON;
     CONFIRM_BACKEND_UNAVAILABLE_BLOCKER_REASON ]}.

Definition KNOWN_BLOCKER_REASONS : gset string :=
  {[ "impl_not_pushed"; "impl_failed"; "review_blocked";
     REVIEW_NOT_CONVERGING_BLOCKER_REASON; "plan_deviation";
     "review_operator_actionable"; PLAN_SCOPE_DRIFT_BLOCKER_REASON;
     "plan_unreviewable"; "plan_unsound"; "ambiguity_scan_unconverged";
     "deferred_stub_unresolved"; "scope_tier_stale"; "fix_loop_pending_dispatch";
     "agent_block"; "tool_denied"; DESTRUCTIVE_DIRECTIVE_BLOCKER_REASON;
     EXTERNAL_STATE_BLOCKER_REASON ]}
  ∪ {[ "automerge_not_armed"; "clean_review_unsupported_backend";
       "local_main_diverged_from_origin"; "plan_ambiguous"; "plan_missing";
       "plan_missing_context"; "prior_pipeline_pr_open";
       "repair_entry_unsupported_backend" ]}
  ∪ {[ "codex_convergence_ledger_error"; "codex_fix_constraint_violation";
       "codex_fix_dirty_start"; "codex_fix_growth_budget_exceeded";
       "codex_fix_hook_failed"; "codex_fix_reverted_branch"; "codex_fix_scope_drift";
       "codex_fix_scope_violation"; "codex_must_fix_findings";
       "codex_must_fix_mechanically_rejected"; "codex_review_partial";
       "codex_review_unparseable"; "codex_review_worktree_mutated";
       "fix_loop_diverging"; "multiple_result_blocks"; "no_result_emitted";
       "pr_already_open_pre_dispatch"; "schema_version_unsupported"; "status_unknown";
       "tracker_mcp_unavailable_pre_dispatch"; "validation_failed" ]}
  ∪ {[ EMPTY_DIFF_BLOCKER_REASON; STALE_DISPATCH_BLOCKER_REASON ]}
  ∪ FINALIZE_REGRESS_BLOCKER_REASONS ∪ OPERATOR_UNAVAILABLE_BLOCKER_REASONS.

Definition FINALIZE_REGRESS_CAP : Z := 2.
Definition SCOPE_TIER_SMALL : string := "small".
Definition SCOPE_TIER_LARGE : string := "large".
Definition PLAN_SOURCE_NONE : string := "none".

(** The reasons Rule 5 keys on by name ([cw.codex_review], [cw.reconcile],
    [cw.queue_rows]). *)
Definition CODEX_MUST_FIX_MECHANICALLY_REJECTED : string :=
  "codex_must_fix_mechanically_rejected".
Definition CODEX_REVIEW_UNPARSEABLE : string := "codex_review_unparseable".
Definition FIX_LOOP_PENDING_DISPATCH : string := "fix_loop_pending_dispatch".
Definition FAMILY_PROVIDER_OVERLOAD : string := "provider_overload".
Definition BLOCKER_REASON_PRIOR_PIPELINE_PR_OPEN : string := "prior_pipeline_pr_open".
Definition _AUTOMERGE_NOT_ARMED_REASON : string := "automerge_not_armed".

Definition is_known_blocker_reason (reason : string) : bool :=
  bool_decide (reason ∈ KNOWN_BLOCKER_REASONS)
  || starts_with FREEFORM_BLOCKER_REASON_PREFIX reason.

Definition queue_status_for_terminal_sentinel (st : string) : queue_status :=
  if bool_decide (st ∈ SALVAGE_HOLD_STATUSES) then QueueItemStatus.BLOCKED_ON_USER
  else QueueItemStatus.COMPLETED.

(** ** [stage_reached] *)

Definition _STAGE_REACHED_CANONICAL : gset string :=
  {[ "stage1_pre_flight"; "stage1_plan"; "stage2_impl"; "stage3_review";
     "stage4a_merge_gate"; "stage4b_pr_create"; "stage5_post_create" ]}.

(** ** Dispositions *)

Definition SIGNOFF_GATE_DISPOSITION : string := "signoff_gate".
Definition AWAITING_OPERATOR_DISPOSITION : string := "awaiting_operator".
Definition FINALIZE_GATE_HELD_DISPOSITION : string := "finalize_gate_held".
Definition REVIEW_HEALTH_GATE_DISPOSITION : string := "review_health_gate".
Definition REVIEW_MUST_FIX_MECHANICALLY_REJECTED_DISPOSITION : string :=
  "codex_must_fix_mechanically_rejected".
Definition BRANCH_STALENESS_GATE_DISPOSITION : string := "branch_behind_main".
Definition EMPTY_DIFF_GATE_DISPOSITION : string := "empty_diff_gate".
Definition REVIEW_STALENESS_GATE_DISPOSITION : string := "review_artifacts_stale".
Definition UNCONCLUDED_FINALIZE_REGRESS_MERGE_GATE_DISPOSITION : string :=
  "unconcluded_finalize_regress_merge".
Definition STALE_DISPATCH_DISPOSITION : string := "stale_dispatch".
Definition _SALVAGE_NO_SENTINEL_DISPOSITION : string := "needs_salvage".
Definition APPROVAL_GATE_REASON : string := "approval_gate".
Definition MERGE_GATE_BLOCKED_STATUS : string := "merge_gate_blocked".
Definition REVIEW_PENDING_APPROVAL_STATUS : string := "review_pending_approval".
Definition FINALIZE_PARK_STAGE_REACHED : string := "stage4a_merge_gate".

Definition HOLD_DISPOSITIONS : gset string :=
  {[ AWAITING_OPERATOR_DISPOSITION; FINALIZE_GATE_HELD_DISPOSITION ]}.

(** The dispositions [cw dev-queue drain] may batch-release. *)
Definition DRAIN_DISPOSITIONS : gset string :=
  (HOLD_DISPOSITIONS ∖ {[ FINALIZE_GATE_HELD_DISPOSITION ]})
  ∪ {[ REVIEW_HEALTH_GATE_DISPOSITION; REVIEW_MUST_FIX_MECHANICALLY_REJECTED_DISPOSITION;
       REVIEW_STALENESS_GATE_DISPOSITION ]}.

Definition _VERBATIM_DISPOSITION_STATUSES : gset string :=
  STAGE_SUCCESS_STATUSES ∪ {[ "no_op"; "merge_pending" ]} ∪ STAGE_FAILURE_STATUSES
  ∪ PAUSED_FOR_USER_INPUT_STATUSES.

Definition _derive_disposition (st : option string) : string :=
  match st with
  | None => "abandoned"
  | Some s => if bool_decide (s ∈ _VERBATIM_DISPOSITION_STATUSES) then s else "abandoned"
  end.

Definition _hold_aware_disposition (st blocker_reason : option string) : string :=
  if opt_in blocker_reason OPERATOR_UNAVAILABLE_BLOCKER_REASONS
  then AWAITING_OPERATOR_DISPOSITION
  else _derive_disposition st.

(** [str(url) if url is not None else None]. *)
Definition url_str (j : json) : option string :=
  match j with JNull => None | _ => Some (json_str j) end.

Definition _extract_pr_url (last_result : json) : option string :=
  url_str (jget "url" (jget "pr" last_result)).

Definition _extract_pr_url_or_info (last_result : json) : option string :=
  match _extract_pr_url last_result with
  | Some url => Some url
  | None => url_str (jget "url" (jget "pr_info" last_result))
  end.

(** [blocker.reason], for a payload or [None]. *)
Definition _result_blocker_reason (result : json) : option string :=
  as_str (jget "reason" (jget "blocker" result)).

Definition is_finalize_park (last_result : json) : bool :=
  json_is_str REVIEW_PENDING_APPROVAL_STATUS (jget "status" last_result)
  && json_is_str FINALIZE_PARK_STAGE_REACHED (jget "stage_reached" last_result).

(** ** The approval gate ([cw.dev_queue.gates])

    A status that is no string is in no set; an unhashable one, which raises
    [TypeError] in Python, cannot pass the sentinel schema. *)

Definition _not_at_approval_gate (session : Session) (task : TicketTask) : bool :=
  if opt_is task.(disposition) BRANCH_STALENESS_GATE_DISPOSITION then true
  else if opt_is task.(disposition) REVIEW_STALENESS_GATE_DISPOSITION then true
  else
    let not_at_status_gate :=
      match session.(sess_last_result) with
      | None => true
      | Some lr =>
          negb (opt_in (as_str (jget "status" lr)) SCOPE_GATED_APPROVAL_STATUSES)
      end in
    let not_at_disposition_gate :=
      negb (opt_is task.(disposition) APPROVAL_GATE_REASON
            || opt_is task.(disposition) FINALIZE_GATE_HELD_DISPOSITION) in
    not_at_status_gate && not_at_disposition_gate.

(** ** Facts shared by the routing proofs *)

Lemma opt_in_true o s : opt_in o s = true ↔ ∃ x, o = Some x ∧ x ∈ s.
Proof. destruct o; simpl; [rewrite bool_decide_eq_true|]; naive_solver. Qed.

Lemma opt_is_true o x : opt_is o x = true ↔ o = Some x.
Proof. apply bool_decide_eq_true. Qed.

(** Decide a closed membership statement by computation. *)
Ltac vocab_decide := apply (bool_decide_unpack _); vm_compute; exact I.
