(* ===== verification/RearmOwed.v ===== *)
(** * The auto-merge re-arm marker: [cw.dev_queue.rearm_owed]

    A recovered red PR owes an auto-merge re-arm; the row carries the marker,
    and one attention event is emitted when the row is cancelled or stays
    parked for 30 minutes. *)

From S2P Require Import Prelude.
From S2P Require Import PyStr.
From S2P Require Import Enums.
From S2P Require Import Tasks.
From S2P Require Import World.
From S2P Require Import Vocab.

#[local] Open Scope cw_scope.

Definition AUTO_MERGE_REARM_OWED_PARK_MINUTES : Z := 30.
Definition _PARK_THRESHOLD : Z := AUTO_MERGE_REARM_OWED_PARK_MINUTES * MINUTE.
Definition _PAUSED_STATUS : string := "auto_merge_rearm_owed".

(** [f"{x}"] of a [str | None]. *)
Definition fmt_opt (o : option string) : string := default "None" o.

Definition rearm_owed_attention_payload (t : TicketTask) (reason breadcrumbs : string)
  : list (string * json) :=
  [("session_id", JStr (default "" t.(session_id)));
   ("session_name", JStr "");
   ("client", JStr t.(client));
   ("ticket_id", JStr t.(ticket_id));
   ("claude_session_id", JNull);
   ("paused_status", JStr _PAUSED_STATUS);
   ("breadcrumbs", JStr breadcrumbs);
   ("crashed", JBool false);
   ("lane", JStr t.(lane));
   ("reason", JStr reason);
   ("pr_url", of_opt_str (str_or t.(auto_merge_rearm_pr_url) t.(pr_url)));
   ("rearm_owed_at", of_opt_str (isoformat <$> t.(auto_merge_rearm_owed_at)))].

Section RearmOwed.
Context {C : Clock}.

Definition clear_auto_merge_rearm_owed : M World unit :=
  assign (λ t, t <| auto_merge_rearm_pr_url := None |>
                 <| auto_merge_rearm_pr_state := None |>
                 <| auto_merge_rearm_owed_at := None |>
                 <| auto_merge_rearm_attention_at := None |>).

Definition clear_after_verified_finalize_rearm (was_finalizing auto_merge_verified : bool)
  : M World bool :=
  owed ← read auto_merge_rearm_owed_at;
  if was_finalizing && auto_merge_verified && is_Some_b owed
  then clear_auto_merge_rearm_owed ;; mret true
  else mret false.

(** [now if now is not None else datetime.now(UTC)]. *)
Definition now_or (n : option Z) : M World Z :=
  match n with Some t => mret t | None => now end.

Definition emit_cancelled_rearm_owed_attention (n : option Z) : M World bool :=
  t ← read id;
  if negb (bool_decide (t.(status) = QueueItemStatus.CANCELLED))
     || negb (is_Some_b t.(auto_merge_rearm_owed_at))
     || is_Some_b t.(auto_merge_rearm_attention_at)
  then mret false
  else
    at_ ← now_or n;
    assign (λ t, t <| auto_merge_rearm_attention_at := Some at_ |>) ;;
    t ← read id;
    record_event SESSION_NEEDS_ATTENTION
      (rearm_owed_attention_payload t "cancelled"
         ("row " +:+ t.(ticket_id) +:+ " was cancelled while its recovered PR "
          +:+ fmt_opt (str_or t.(auto_merge_rearm_pr_url) t.(pr_url))
          +:+ " still owes an auto-merge re-arm; inspect the PR or requeue through cw."))
      (Some t.(ticket_id)) ;;
    mret true.

Definition mark_auto_merge_rearm_owed (expected_pr_url : string) (n : option Z)
  : M World bool :=
  t ← read id;
  let refused :=
    match t.(auto_merge_rearm_owed_at) with
    | Some _ => negb (opt_is t.(auto_merge_rearm_pr_url) expected_pr_url)
    | None =>
        negb (opt_is t.(pr_url) expected_pr_url)
        && negb (negb (is_Some_b t.(pr_url))
                 && (bool_decide (t.(status) = QueueItemStatus.PENDING)
                     || bool_decide (t.(status) = QueueItemStatus.CANCELLED)))
    end in
  if refused then mret false
  else
    (if is_Some_b t.(auto_merge_rearm_owed_at) then mret tt
     else
       at_ ← now_or n;
       assign (λ t, t <| auto_merge_rearm_pr_url := Some expected_pr_url |>
                      <| auto_merge_rearm_pr_state := None |>
                      <| auto_merge_rearm_owed_at := Some at_ |>
                      <| auto_merge_rearm_attention_at := None |>)) ;;
    emit_cancelled_rearm_owed_attention n ;;
    mret true.

(** One row of the watchdog sweep: whether it pages, at instant [at_]. *)
Definition rearm_owed_due (at_ : Z) (t : TicketTask) : bool :=
  bool_decide (t.(status) = QueueItemStatus.BLOCKED_ON_USER)
  && is_Some_b t.(auto_merge_rearm_owed_at)
  && negb (is_Some_b t.(auto_merge_rearm_attention_at))
  && match t.(completed_at) with
     | None => false
     | Some parked_at => Z.leb _PARK_THRESHOLD (at_ - parked_at)
     end.

Definition rearm_owed_page (t : TicketTask) : event :=
  mkEvent SESSION_NEEDS_ATTENTION
    (rearm_owed_attention_payload t "parked_past_threshold"
       ("red-shipped recovery disarmed auto-merge on " +:+ fmt_opt t.(pr_url)
        +:+ "; row has remained parked for at least "
        +:+ str_of_Z AUTO_MERGE_REARM_OWED_PARK_MINUTES
        +:+ " minutes. Requeue/review through cw so finalize can re-arm it."))
    (Some t.(ticket_id)).

(** The sweep over the store: the stamped rows, the pages (emitted after the
    save) and the paged ticket ids. *)
Definition run_rearm_owed_attention_sweep (at_ : Z) (ts : list TicketTask)
  : list TicketTask * list event * list string :=
  let stamp t := t <| auto_merge_rearm_attention_at := Some at_ |> in
  let due := filter (λ t, rearm_owed_due at_ t = true) ts in
  (map (λ t, if rearm_owed_due at_ t then stamp t else t) ts,
   map (λ t, rearm_owed_page (stamp t)) due,
   map ticket_id due).

Lemma total_emit_cancelled n : total (emit_cancelled_rearm_owed_attention n).
Proof. unfold emit_cancelled_rearm_owed_attention, now_or. solve_total. Qed.

#[local] Hint Resolve total_emit_cancelled : cw.

Lemma total_mark_owed url n : total (mark_auto_merge_rearm_owed url n).
Proof. unfold mark_auto_merge_rearm_owed, now_or. solve_total. Qed.

(** A row one sweep paged is due in no later sweep of the stamped store. *)
Lemma sweep_pages_once at1 at2 ts i t :
  ts !! i = Some t → rearm_owed_due at1 t = true →
  ∃ t', (run_rearm_owed_attention_sweep at1 ts).1.1 !! i = Some t'
        ∧ rearm_owed_due at2 t' = false.
Proof.
  intros Hi Hdue. eexists. split.
  - simpl. rewrite list_lookup_fmap, Hi. simpl. rewrite Hdue. done.
  - unfold rearm_owed_due. simpl. by rewrite andb_false_r.
Qed.
End RearmOwed.

#[export] Hint Resolve total_emit_cancelled total_mark_owed : cw.
