(* ===== verification/Lifecycle.v ===== *)
(** * Row lifecycle: [cw.dev_queue.lifecycle]

    [transition_task_status] is the single authority for a row's status; the
    stage-pointer helpers ([_advance_task_pointer], [_stage_regress],
    [_stamp_salvage_stage], [_advance_stage], [_clear_signoff_gate]) move it
    along the pipeline; [wait_for_terminal] polls it.  Every helper is a
    computation on [World]; [stages.index] and [stages[idx + 1]] raise as in
    Python. *)

From S2P Require Import Prelude.
From S2P Require Import PyStr.
From S2P Require Import Enums.
From S2P Require Import Tasks.
From S2P Require Import World.
From S2P Require Import Vocab.
From S2P Require Import RearmOwed.

#[local] Open Scope cw_scope.

Definition _TERMINAL_STATUSES : gset queue_status :=
  {[ QueueItemStatus.COMPLETED; QueueItemStatus.FAILED; QueueItemStatus.CANCELLED;
     QueueItemStatus.BLOCKED_ON_USER; QueueItemStatus.AWAITING_OPERATOR_SIGNOFF ]}.

Definition _TERMINAL_DISPOSITION_STATUSES : gset queue_status :=
  {[ QueueItemStatus.COMPLETED; QueueItemStatus.BLOCKED_ON_USER; QueueItemStatus.FAILED;
     QueueItemStatus.AWAITING_OPERATOR_SIGNOFF ]}.

Definition _RESET_DISPOSITION_STATUSES : gset queue_status :=
  {[ QueueItemStatus.PENDING; QueueItemStatus.CANCELLED ]}.

(** ** Plan signoff markers *)

Definition _PLAN_SPEC_MARKER : string := "<!-- plan-spec-reviewed".
Definition _PLAN_SOUNDNESS_MARKER : string := "<!-- plan-soundness-reviewed".

Definition _marker_version (body marker : string) : option string :=
  match str_split1 marker body with
  | None => None
  | Some (_, rest) =>
      match str_split1 "-->" rest with
      | None => None
      | Some (v, _) => Some (str_strip (lstrip_colon v))
      end
  end.

Definition _plan_body_signoff_ok (body : string) : bool :=
  is_Some_b (_marker_version body _PLAN_SPEC_MARKER)
  && is_Some_b (_marker_version body _PLAN_SOUNDNESS_MARKER).

Section Lifecycle.
Context {C : Clock}.

(** ** Status transitions *)

Definition stage_json (s : StageT) : json := JStr (Stage.stage_value s).
Definition status_json (s : queue_status) : json := JStr (QueueItemStatus.status_value s).

Definition clear_latches (t : TicketTask) : TicketTask :=
  t <| escalation_parked_at := None |>
    <| escalation_fired_at := None |>
    <| gate_recipe_failed_at := None |>
    <| attention_digest_buffered_at := None |>
    <| stale_gate_detected_at := None |>
    <| blocked_on_pr := None |>
    <| advisory_note := None |>
    <| usage_limit_act := None |>
    <| codex_orphan_session_id := None |>
    <| codex_orphan_rescan_next_eligible_at := None |>
    <| shipped_red := None |>.

Definition transition_payload (t : TicketTask) (old_status new_status : queue_status)
  (running_exit unproductive : bool) : list (string * json) :=
  [("ticket_id", JStr t.(ticket_id));
   ("client", JStr t.(client));
   ("lane", JStr t.(lane));
   ("stage", stage_json t.(stage));
   ("old_status", status_json old_status);
   ("new_status", status_json new_status);
   ("disposition", of_opt_str t.(disposition));
   ("session_id", of_opt_str t.(session_id));
   ("pr_url", of_opt_str t.(pr_url));
   ("blocked_reason", of_opt_str t.(blocked_reason));
   ("unproductive_attempts", JInt t.(unproductive_attempts));
   ("unproductive_charge", if running_exit then JBool unproductive else JNull)].

Definition transition_task_status (new_status : queue_status)
  (disp url reason : option string) (unproductive : bool) : M World unit :=
  old_status ← read status;
  assign (λ t, t <| status := new_status |>) ;;
  when (negb (bool_decide (old_status = new_status))
        && bool_decide (new_status = QueueItemStatus.CANCELLED))
    (emit_cancelled_rearm_owed_attention None ;; mret tt) ;;
  let running_exit := bool_decide (old_status = QueueItemStatus.RUNNING)
                      && negb (bool_decide (new_status = QueueItemStatus.RUNNING)) in
  when (running_exit && unproductive)
    (assign (λ t, t <| unproductive_attempts := (t.(unproductive_attempts) + 1)%Z |>)) ;;
  pin ← read adopted_head_sha;
  when (running_exit && is_Some_b pin) (assign (λ t, t <| adopted_repin_due := true |>)) ;;
  (if bool_decide (new_status ∈ _TERMINAL_DISPOSITION_STATUSES) then
     assign (λ t, t <| disposition := disp |>
                    <| pr_url := str_or url t.(adopted_pr_url) |>) ;;
     at_ ← now;
     assign (λ t, t <| completed_at := Some at_ |> <| blocked_reason := reason |>) ;;
     when (bool_decide (new_status = QueueItemStatus.BLOCKED_ON_USER)
           && opt_is disp _SALVAGE_NO_SENTINEL_DISPOSITION)
       (at_ ← now; assign (λ t, t <| salvage_no_sentinel_at := Some at_ |>))
   else when (bool_decide (new_status ∈ _RESET_DISPOSITION_STATUSES))
     (assign (λ t, t <| disposition := None |>
                     <| pr_url := t.(adopted_pr_url) |>
                     <| completed_at := None |>
                     <| blocked_reason := None |>))) ;;
  assign clear_latches ;;
  when (negb (bool_decide (old_status = new_status)))
    (t ← read id;
     record_event TASK_TRANSITION
       (transition_payload t old_status new_status running_exit unproductive)
       (Some t.(ticket_id))).

(** ** The stage pointer *)

Definition _emit_stage_change (old_stage new_stage : StageT) (direction : string)
  : M World unit :=
  if bool_decide (old_stage = new_stage) then mret tt
  else
    t ← read id;
    record_event TASK_STAGE_CHANGED
      [("ticket_id", JStr t.(ticket_id));
       ("client", JStr t.(client));
       ("old_stage", stage_json old_stage);
       ("new_stage", stage_json new_stage);
       ("direction", JStr direction)]
      (Some t.(ticket_id)).

Definition consume_red_recovery_evidence (t : TicketTask) (old_stage new_stage : StageT)
  : TicketTask :=
  match t.(review_feedback) with
  | Some feedback =>
      if bool_decide (old_stage = Stage.IMPL) && negb (bool_decide (new_stage = Stage.IMPL))
         && opt_is t.(red_pr_recovery_sha) feedback.(rf_reviewed_sha)
      then t <| review_feedback := None |> <| red_pr_recovery_sha := None |>
      else t
  | None => t
  end.

Definition _consume_red_recovery_evidence (old_stage new_stage : StageT) : M World unit :=
  assign (λ t, consume_red_recovery_evidence t old_stage new_stage).

(** [stages.index(x)]. *)
Definition py_index (x : StageT) (stages : list StageT) : M World nat :=
  match index_of x stages with Some i => mret i | None => raise ValueError end.

(** [stages.index(current) if current in stages else -1]. *)
Definition high_water_index (current : option StageT) (stages : list StageT) : Z :=
  match current with
  | None => (-1)%Z
  | Some c => match index_of c stages with Some i => Z.of_nat i | None => (-1)%Z end
  end.

Definition _raise_stage_high_water (stages : list StageT) (new_stage : StageT)
  : M World unit :=
  current ← read stage_high_water;
  i ← py_index new_stage stages;
  when (Z.ltb (high_water_index current stages) (Z.of_nat i))
    (assign (λ t, t <| stage_high_water := Some new_stage |>)).

Definition _advance_stage (stages : list StageT) (target_stage : StageT)
  : M World StageT :=
  old_stage ← read stage;
  assign (λ t, t <| stage := target_stage |>) ;;
  _consume_red_recovery_evidence old_stage target_stage ;;
  _raise_stage_high_water stages target_stage ;;
  _emit_stage_change old_stage target_stage "advance" ;;
  mret old_stage.

Definition _stamp_salvage_stage : M World unit :=
  old_stage ← read stage;
  assign (λ t, t <| stage := Stage.FINALIZE |>) ;;
  _consume_red_recovery_evidence old_stage Stage.FINALIZE ;;
  _emit_stage_change old_stage Stage.FINALIZE "advance".

Definition clear_session_anchors : M World unit :=
  assign (λ t, t <| session_id := None |> <| stage_base_ref := None |>).

Definition _advance_task_pointer (stages : list StageT) : M World unit :=
  old_stage ← read stage;
  idx ← py_index old_stage stages;
  match stages !! S idx with
  | None => raise IndexError
  | Some next =>
      assign (λ t, t <| stage := next |>) ;;
      _consume_red_recovery_evidence old_stage next ;;
      _raise_stage_high_water stages next ;;
      transition_task_status QueueItemStatus.PENDING None None None false ;;
      clear_session_anchors ;;
      _emit_stage_change old_stage next "advance"
  end.

Definition clear_review_approval (t : TicketTask) : TicketTask :=
  t <| review_approved_at := None |>
    <| review_approver_kind := None |>
    <| review_approved_sha := None |>.

Definition _clear_review_approval : M World unit := assign clear_review_approval.

Definition _stage_regress (target_stage : StageT) (merge_conflict_detected : bool)
  : M World unit :=
  old_stage ← read stage;
  assign (λ t, t <| stage := target_stage |>) ;;
  _consume_red_recovery_evidence old_stage target_stage ;;
  assign (λ t, t <| regress_attempts := (t.(regress_attempts) + 1)%Z |>
                 <| regressed_into_stage := Some target_stage |>
                 <| pending_operator_comment := true |>) ;;
  when (bool_decide (old_stage = Stage.FINALIZE))
    (assign (λ t, t <| finalize_regress_branch_head := t.(stage_base_ref) |>
                    <| finalize_regress_merge_conflict_detected := merge_conflict_detected |>)) ;;
  when (bool_decide (target_stage = Stage.PLAN))
    (assign (λ t, t <| plan_approved_at := None |> <| plan_approved_fingerprint := None |>)) ;;
  when (bool_decide (target_stage = Stage.REVIEW))
    (assign (λ t, t <| must_fix_override := None |>)) ;;
  _clear_review_approval ;;
  transition_task_status QueueItemStatus.PENDING None None None false ;;
  clear_session_anchors ;;
  _emit_stage_change old_stage target_stage "regress".

Definition _reset_for_same_stage_requeue : M World unit :=
  s ← read stage;
  when (bool_decide (s = Stage.REVIEW))
    (assign (λ t, t <| must_fix_override := None |>) ;; _clear_review_approval) ;;
  transition_task_status QueueItemStatus.PENDING None None None true ;;
  clear_session_anchors.

(** [stages[-1]]. *)
Definition py_last (stages : list StageT) : M World StageT :=
  match last stages with Some s => mret s | None => raise IndexError end.

Definition _clear_signoff_gate (stages : list StageT) : M World unit :=
  s ← read stage;
  l ← py_last stages;
  if bool_decide (s = l)
  then transition_task_status QueueItemStatus.COMPLETED
         (Some SIGNOFF_GATE_DISPOSITION) None None true
  else _advance_task_pointer stages.
End Lifecycle.

(** ** Membership of the status sets, by cases *)

Lemma in_terminal_disposition s :
  bool_decide (s ∈ _TERMINAL_DISPOSITION_STATUSES) =
  match s with
  | QueueItemStatus.COMPLETED | QueueItemStatus.BLOCKED_ON_USER | QueueItemStatus.FAILED
  | QueueItemStatus.AWAITING_OPERATOR_SIGNOFF => true
  | _ => false
  end.
Proof. destruct s; vm_compute; reflexivity. Qed.

Lemma in_reset_disposition s :
  bool_decide (s ∈ _RESET_DISPOSITION_STATUSES) =
  match s with
  | QueueItemStatus.PENDING | QueueItemStatus.CANCELLED => true
  | _ => false
  end.
Proof. destruct s; vm_compute; reflexivity. Qed.

Lemma in_occupied s :
  bool_decide (s ∈ OCCUPIED_LANE_STATUSES) =
  match s with
  | QueueItemStatus.RUNNING | QueueItemStatus.BLOCKED_ON_USER
  | QueueItemStatus.AWAITING_OPERATOR_SIGNOFF => true
  | _ => false
  end.
Proof. destruct s; vm_compute; reflexivity. Qed.

(** ** Closed form of a transition

    [transition_row] is the row a transition leaves, as a function of the
    three instants it may read; [transition_events] what it appends to the
    inbox.  [transition_run] is the refinement: the monadic body computes
    them, whatever the clock. *)

Definition running_exit (old new : queue_status) : bool :=
  bool_decide (old = QueueItemStatus.RUNNING)
  && negb (bool_decide (new = QueueItemStatus.RUNNING)).

Definition cancel_pages (t : TicketTask) (new : queue_status) : bool :=
  negb (bool_decide (t.(status) = new))
  && bool_decide (new = QueueItemStatus.CANCELLED)
  && is_Some_b t.(auto_merge_rearm_owed_at)
  && negb (is_Some_b t.(auto_merge_rearm_attention_at)).

Definition salvage_park (new : queue_status) (disp : option string) : bool :=
  bool_decide (new = QueueItemStatus.BLOCKED_ON_USER)
  && opt_is disp _SALVAGE_NO_SENTINEL_DISPOSITION.

Definition stamp_status (new : queue_status) (disp url reason : option string)
  (done_at salvage_at : Z) (t : TicketTask) : TicketTask :=
  if bool_decide (new ∈ _TERMINAL_DISPOSITION_STATUSES) then
    let t := t <| disposition := disp |> <| pr_url := str_or url t.(adopted_pr_url) |>
               <| completed_at := Some done_at |> <| blocked_reason := reason |> in
    if salvage_park new disp then t <| salvage_no_sentinel_at := Some salvage_at |> else t
  else if bool_decide (new ∈ _RESET_DISPOSITION_STATUSES) then
    t <| disposition := None |> <| pr_url := t.(adopted_pr_url) |>
      <| completed_at := None |> <| blocked_reason := None |>
  else t.

Definition leave_running (old new : queue_status) (unproductive : bool) (t : TicketTask)
  : TicketTask :=
  let t := if running_exit old new && unproductive
           then t <| unproductive_attempts := (t.(unproductive_attempts) + 1)%Z |> else t in
  if running_exit old new && is_Some_b t.(adopted_head_sha)
  then t <| adopted_repin_due := true |> else t.

Definition enter_status (new : queue_status) (page_at : Z) (t : TicketTask) : TicketTask :=
  let t' := t <| status := new |> in
  if cancel_pages t new then t' <| auto_merge_rearm_attention_at := Some page_at |> else t'.

Definition transition_row (new : queue_status) (disp url reason : option string)
  (unproductive : bool) (page_at done_at salvage_at : Z) (t : TicketTask) : TicketTask :=
  clear_latches
    (stamp_status new disp url reason done_at salvage_at
       (leave_running t.(status) new unproductive (enter_status new page_at t))).

(** The needs-attention page of a cancelled row that owes a re-arm. *)
Definition cancelled_page (t : TicketTask) : event :=
  mkEvent SESSION_NEEDS_ATTENTION
    (rearm_owed_attention_payload t "cancelled"
       ("row " +:+ t.(ticket_id) +:+ " was cancelled while its recovered PR "
        +:+ fmt_opt (str_or t.(auto_merge_rearm_pr_url) t.(pr_url))
        +:+ " still owes an auto-merge re-arm; inspect the PR or requeue through cw."))
    (Some t.(ticket_id)).

Definition transition_events (new : queue_status) (unproductive : bool) (page_at : Z)
  (t t' : TicketTask) : list event :=
  (if cancel_pages t new then [cancelled_page (enter_status new page_at t)] else [])
  ++ (if bool_decide (t.(status) = new) then []
      else [mkEvent TASK_TRANSITION
              (transition_payload t' t.(status) new (running_exit t.(status) new) unproductive)
              (Some t'.(ticket_id))]).

Section TransitionRun.
Context {C : Clock}.

Lemma emit_cancelled_none t evs n :
  t.(status) = QueueItemStatus.CANCELLED →
  emit_cancelled_rearm_owed_attention None (mkWorld t evs n)
  = if is_Some_b t.(auto_merge_rearm_owed_at)
       && negb (is_Some_b t.(auto_merge_rearm_attention_at))
    then let t' := t <| auto_merge_rearm_attention_at := Some (clock_at n) |> in
         (inr true, mkWorld t' (evs ++ [cancelled_page t']) (S n))
    else (inr false, mkWorld t evs n).
Proof.
  intros Hs. unfold emit_cancelled_rearm_owed_attention, mbind, M_bind; simpl.
  rewrite Hs. simpl.
  destruct (auto_merge_rearm_owed_at t), (auto_merge_rearm_attention_at t); done.
Qed.

Lemma cancel_run new t evs n :
  when (negb (bool_decide (t.(status) = new))
        && bool_decide (new = QueueItemStatus.CANCELLED))
    (emit_cancelled_rearm_owed_attention None ;; mret tt)
    (mkWorld (t <| status := new |>) evs n)
  = (inr tt, mkWorld (enter_status new (clock_at n) t)
       (evs ++ if cancel_pages t new then [cancelled_page (enter_status new (clock_at n) t)]
               else [])
       (if cancel_pages t new then S n else n)).
Proof.
  unfold enter_status, cancel_pages.
  destruct (bool_decide (t.(status) = new)) eqn:E1; simpl; [by rewrite app_nil_r|].
  destruct (decide (new = QueueItemStatus.CANCELLED)) as [->|E2];
    [|rewrite (bool_decide_false _ E2); simpl; by rewrite app_nil_r].
  rewrite bool_decide_true by done. simpl.
  unfold mbind, M_bind. rewrite emit_cancelled_none by done. simpl.
  destruct (is_Some_b _ && negb (is_Some_b _)); simpl; by rewrite ?app_nil_r.
Qed.

Lemma when_assign_run b f t evs n :
  when b (assign f) (mkWorld t evs n) = (inr tt, mkWorld (if b then f t else t) evs n).
Proof. by destruct b. Qed.

Lemma stamp_run new disp url reason t evs n :
  (if bool_decide (new ∈ _TERMINAL_DISPOSITION_STATUSES) then
     assign (λ t, t <| disposition := disp |>
                    <| pr_url := str_or url t.(adopted_pr_url) |>) ;;
     at_ ← now;
     assign (λ t, t <| completed_at := Some at_ |> <| blocked_reason := reason |>) ;;
     when (bool_decide (new = QueueItemStatus.BLOCKED_ON_USER)
           && opt_is disp _SALVAGE_NO_SENTINEL_DISPOSITION)
       (at_ ← now; assign (λ t, t <| salvage_no_sentinel_at := Some at_ |>))
   else when (bool_decide (new ∈ _RESET_DISPOSITION_STATUSES))
     (assign (λ t, t <| disposition := None |>
                     <| pr_url := t.(adopted_pr_url) |>
                     <| completed_at := None |>
                     <| blocked_reason := None |>))) (mkWorld t evs n)
  = (inr tt, mkWorld (stamp_status new disp url reason (clock_at n) (clock_at (S n)) t) evs
      (if bool_decide (new ∈ _TERMINAL_DISPOSITION_STATUSES)
       then if salvage_park new disp then S (S n) else S n else n)).
Proof.
  unfold stamp_status. case_match; simpl.
  - unfold salvage_park. by destruct (_ && _).
  - by destruct (bool_decide (new ∈ _RESET_DISPOSITION_STATUSES)).
Qed.

(** The world a transition leaves: the clock is read once for a page, once
    for [completed_at], once more for a salvage park. *)
Definition settled (new : queue_status) (disp url reason : option string)
  (unproductive : bool) (w : World) : World :=
  let t := w.(w_task) in
  let n := w.(w_ticks) in
  let n1 := if cancel_pages t new then S n else n in
  let t' := transition_row new disp url reason unproductive (clock_at n) (clock_at n1)
              (clock_at (S n1)) t in
  mkWorld t' (w.(w_events) ++ transition_events new unproductive (clock_at n) t t')
    (if bool_decide (new ∈ _TERMINAL_DISPOSITION_STATUSES)
     then if salvage_park new disp then S (S n1) else S n1 else n1).

Lemma transition_run new disp url reason unproductive w :
  transition_task_status new disp url reason unproductive w
  = (inr tt, settled new disp url reason unproductive w).
Proof.
  destruct w as [t evs n]. unfold settled. cbv zeta. cbn [w_task w_events w_ticks].
  set (n1 := if cancel_pages t new then S n else n).
  set (n2 := if bool_decide (new ∈ _TERMINAL_DISPOSITION_STATUSES) then _ else n1).
  set (t1 := enter_status new (clock_at n) t).
  set (t' := transition_row _ _ _ _ _ _ _ _ t).
  set (evs1 := evs ++ if cancel_pages t new then [cancelled_page t1] else []).
  unfold transition_task_status, transition_events.
  erewrite bind_run by reflexivity. erewrite bind_run by reflexivity. cbn [w_task id].
  erewrite bind_run by apply cancel_run. fold n1.
  fold (running_exit (status t) new).
  erewrite bind_run by apply when_assign_run.
  erewrite bind_run by reflexivity.
  erewrite bind_run by apply when_assign_run.
  erewrite bind_run by apply stamp_run.
  rewrite (bind_run (assign clear_latches) _ _ tt (mkWorld t' evs1 n2)).
  2: { unfold t', transition_row, leave_running, assign, modify.
       by destruct (running_exit (status t) new), unproductive. }
  clearbody t'. unfold evs1.
  destruct (bool_decide (t.(status) = new)); [by rewrite app_nil_r|].
  unfold mbind, M_bind, record_event, modify. simpl. by rewrite <- app_assoc.
Qed.
End TransitionRun.

(** ** What a transition does to each field *)

Section TransitionRow.
Context (new : queue_status) (disp url reason : option string) (unproductive : bool)
  (page_at done_at salvage_at : Z) (t : TicketTask).

Local Abbreviation row :=
  (transition_row new disp url reason unproductive page_at done_at salvage_at t).

(** A field no statement assigns keeps its value. *)
Ltac untouched :=
  unfold transition_row, clear_latches, stamp_status, leave_running, enter_status;
  repeat case_match; reflexivity.

Lemma row_status : row.(status) = new.
Proof. untouched. Qed.
Lemma row_ticket_id : row.(ticket_id) = t.(ticket_id).
Proof. untouched. Qed.
Lemma row_client : row.(client) = t.(client).
Proof. untouched. Qed.
Lemma row_lane : row.(lane) = t.(lane).
Proof. untouched. Qed.
Lemma row_stage : row.(stage) = t.(stage).
Proof. untouched. Qed.
Lemma row_session_id : row.(session_id) = t.(session_id).
Proof. untouched. Qed.
Lemma row_stage_base_ref : row.(stage_base_ref) = t.(stage_base_ref).
Proof. untouched. Qed.
Lemma row_stage_high_water : row.(stage_high_water) = t.(stage_high_water).
Proof. untouched. Qed.
Lemma row_regress_attempts : row.(regress_attempts) = t.(regress_attempts).
Proof. untouched. Qed.
Lemma row_regressed_into_stage : row.(regressed_into_stage) = t.(regressed_into_stage).
Proof. untouched. Qed.
Lemma row_pending_comment : row.(pending_operator_comment) = t.(pending_operator_comment).
Proof. untouched. Qed.
Lemma row_adopted_pr_url : row.(adopted_pr_url) = t.(adopted_pr_url).
Proof. untouched. Qed.
Lemma row_adopted_head_sha : row.(adopted_head_sha) = t.(adopted_head_sha).
Proof. untouched. Qed.
Lemma row_branch : row.(branch) = t.(branch).
Proof. untouched. Qed.
Lemma row_scope_tier : row.(computed_scope_tier) = t.(computed_scope_tier).
Proof. untouched. Qed.
Lemma row_plan_source : row.(plan_source) = t.(plan_source).
Proof. untouched. Qed.
Lemma row_review_approved_at : row.(review_approved_at) = t.(review_approved_at).
Proof. untouched. Qed.
Lemma row_owed_at : row.(auto_merge_rearm_owed_at) = t.(auto_merge_rearm_owed_at).
Proof. untouched. Qed.
Lemma row_gate_block : row.(gate_block) = t.(gate_block).
Proof. untouched. Qed.
Lemma row_attempts : row.(attempts) = t.(attempts).
Proof. untouched. Qed.
Lemma row_created_at : row.(created_at) = t.(created_at).
Proof. untouched. Qed.
Lemma row_next_eligible : row.(next_eligible_at) = t.(next_eligible_at).
Proof. untouched. Qed.
Lemma row_spawn_errors : row.(spawn_error_count) = t.(spawn_error_count).
Proof. untouched. Qed.

Lemma row_disposition :
  row.(disposition) =
  match new with
  | QueueItemStatus.RUNNING => t.(disposition)
  | QueueItemStatus.PENDING | QueueItemStatus.CANCELLED => None
  | _ => disp
  end.
Proof.
  unfold transition_row, clear_latches, stamp_status. rewrite in_terminal_disposition,
    in_reset_disposition.
  destruct new; unfold leave_running, enter_status; repeat case_match; reflexivity.
Qed.

Lemma row_blocked_reason :
  row.(blocked_reason) =
  match new with
  | QueueItemStatus.RUNNING => t.(blocked_reason)
  | QueueItemStatus.PENDING | QueueItemStatus.CANCELLED => None
  | _ => reason
  end.
Proof.
  unfold transition_row, clear_latches, stamp_status. rewrite in_terminal_disposition,
    in_reset_disposition.
  destruct new; unfold leave_running, enter_status; repeat case_match; reflexivity.
Qed.

Lemma row_completed_at :
  row.(completed_at) =
  match new with
  | QueueItemStatus.RUNNING => t.(completed_at)
  | QueueItemStatus.PENDING | QueueItemStatus.CANCELLED => None
  | _ => Some done_at
  end.
Proof.
  unfold transition_row, clear_latches, stamp_status. rewrite in_terminal_disposition,
    in_reset_disposition.
  destruct new; unfold leave_running, enter_status; repeat case_match; reflexivity.
Qed.

Lemma row_pr_url :
  row.(pr_url) =
  match new with
  | QueueItemStatus.RUNNING => t.(pr_url)
  | QueueItemStatus.PENDING | QueueItemStatus.CANCELLED => t.(adopted_pr_url)
  | _ => str_or url t.(adopted_pr_url)
  end.
Proof.
  unfold transition_row, clear_latches, stamp_status. rewrite in_terminal_disposition,
    in_reset_disposition.
  destruct new; unfold leave_running, enter_status; repeat case_match; reflexivity.
Qed.

Lemma row_unproductive :
  row.(unproductive_attempts) =
  (t.(unproductive_attempts)
   + if running_exit t.(status) new && unproductive then 1 else 0)%Z.
Proof.
  unfold transition_row, clear_latches, stamp_status, leave_running, enter_status.
  destruct (running_exit (status t) new && unproductive);
    repeat case_match; cbn; rewrite ?Z.add_0_r; reflexivity.
Qed.
End TransitionRow.

Create Rewrite HintDb row.
#[export] Hint Rewrite row_status row_ticket_id row_client row_lane row_stage row_session_id
  row_stage_base_ref row_stage_high_water row_regress_attempts row_regressed_into_stage
  row_pending_comment row_adopted_pr_url row_adopted_head_sha row_branch row_scope_tier
  row_plan_source row_review_approved_at row_owed_at row_gate_block row_attempts row_created_at
  row_next_eligible row_spawn_errors row_disposition
  row_blocked_reason row_completed_at row_pr_url row_unproductive : row.

(** ** Requeueing transitions

    [pend] is the row of a transition to PENDING: no clock is read and no page
    is due, so it is a function of the row alone. *)

Definition pend (unproductive : bool) (t : TicketTask) : TicketTask :=
  transition_row QueueItemStatus.PENDING None None None unproductive 0 0 0 t.

Definition pend_events (unproductive : bool) (t : TicketTask) : list event :=
  if bool_decide (t.(status) = QueueItemStatus.PENDING) then []
  else [mkEvent TASK_TRANSITION
          (transition_payload (pend unproductive t) t.(status) QueueItemStatus.PENDING
             (running_exit t.(status) QueueItemStatus.PENDING) unproductive)
          (Some t.(ticket_id))].

Definition stage_change_events (t : TicketTask) (old_stage new_stage : StageT)
  (direction : string) : list event :=
  if bool_decide (old_stage = new_stage) then []
  else [mkEvent TASK_STAGE_CHANGED
          [("ticket_id", JStr t.(ticket_id)); ("client", JStr t.(client));
           ("old_stage", stage_json old_stage); ("new_stage", stage_json new_stage);
           ("direction", JStr direction)] (Some t.(ticket_id))].

Definition drop_anchors (t : TicketTask) : TicketTask :=
  t <| session_id := None |> <| stage_base_ref := None |>.

Definition move_stage (new_stage : StageT) (t : TicketTask) : TicketTask :=
  consume_red_recovery_evidence (t <| stage := new_stage |>) t.(stage) new_stage.

Definition lift_high_water (stages : list StageT) (new_stage : StageT) (t : TicketTask)
  : TicketTask :=
  match index_of new_stage stages with
  | Some i => if Z.ltb (high_water_index t.(stage_high_water) stages) (Z.of_nat i)
              then t <| stage_high_water := Some new_stage |> else t
  | None => t
  end.

Definition count_regress (target : StageT) (merge_conflict : bool) (old : StageT)
  (t : TicketTask) : TicketTask :=
  let t := t <| regress_attempts := (t.(regress_attempts) + 1)%Z |>
             <| regressed_into_stage := Some target |>
             <| pending_operator_comment := true |> in
  let t := if bool_decide (old = Stage.FINALIZE)
           then t <| finalize_regress_branch_head := t.(stage_base_ref) |>
                  <| finalize_regress_merge_conflict_detected := merge_conflict |> else t in
  let t := if bool_decide (target = Stage.PLAN)
           then t <| plan_approved_at := None |> <| plan_approved_fingerprint := None |>
           else t in
  clear_review_approval
    (if bool_decide (target = Stage.REVIEW) then t <| must_fix_override := None |> else t).

Definition advance_row (stages : list StageT) (next : StageT) (t : TicketTask) : TicketTask :=
  drop_anchors (pend false (lift_high_water stages next (move_stage next t))).

Definition regress_row (target : StageT) (merge_conflict : bool) (t : TicketTask)
  : TicketTask :=
  drop_anchors (pend false (count_regress target merge_conflict t.(stage) (move_stage target t))).

Definition requeue_row (t : TicketTask) : TicketTask :=
  drop_anchors (pend true
    (if bool_decide (t.(stage) = Stage.REVIEW)
     then clear_review_approval (t <| must_fix_override := None |>) else t)).

Section PointerRun.
Context {C : Clock}.

Lemma pend_run unproductive t evs n :
  transition_task_status QueueItemStatus.PENDING None None None unproductive
    (mkWorld t evs n)
  = (inr tt, mkWorld (pend unproductive t) (evs ++ pend_events unproductive t) n).
Proof.
  rewrite transition_run. unfold settled, pend_events, transition_events. cbv zeta.
  cbn [w_task w_events w_ticks].
  assert (Hc : cancel_pages t QueueItemStatus.PENDING = false)
    by (unfold cancel_pages; by rewrite andb_false_r).
  assert (Hp : ∀ a b c, transition_row QueueItemStatus.PENDING None None None unproductive
                          a b c t = pend unproductive t).
  { intros a b c. unfold pend, transition_row, enter_status. by rewrite Hc. }
  rewrite Hp, Hc, in_terminal_disposition. cbn [app].
  assert (Hid : ticket_id (pend unproductive t) = ticket_id t)
    by (unfold pend; by rewrite row_ticket_id).
  rewrite Hid. done.
Qed.

Lemma emit_stage_change_run old new dir t evs n :
  _emit_stage_change old new dir (mkWorld t evs n)
  = (inr tt, mkWorld t (evs ++ stage_change_events t old new dir) n).
Proof.
  unfold _emit_stage_change, stage_change_events.
  case_match; [by rewrite app_nil_r|done].
Qed.

Lemma raise_high_water_run stages new t evs n :
  new ∈ stages →
  _raise_stage_high_water stages new (mkWorld t evs n)
  = (inr tt, mkWorld (lift_high_water stages new t) evs n).
Proof.
  intros [i Hi]%index_of_Some.
  unfold _raise_stage_high_water, lift_high_water, py_index, mbind, M_bind, when; simpl.
  rewrite Hi. simpl. by case_match.
Qed.

Lemma advance_run stages i next t evs n :
  index_of t.(stage) stages = Some i → stages !! S i = Some next →
  _advance_task_pointer stages (mkWorld t evs n)
  = (inr tt, mkWorld (advance_row stages next t)
       (evs ++ pend_events false (lift_high_water stages next (move_stage next t))
            ++ stage_change_events (advance_row stages next t) t.(stage) next "advance") n).
Proof.
  intros Hi Hn. unfold _advance_task_pointer.
  run_step @read_run. unfold py_index. rewrite Hi.
  erewrite bind_run by reflexivity. rewrite Hn.
  unfold _consume_red_recovery_evidence, clear_session_anchors. run_reads.
  rewrite (bind_run _ _ _ _ _ (raise_high_water_run _ _ _ _ _ (list_elem_of_lookup_2 _ _ _ Hn))).
  run_step @pend_run. run_reads.
  etransitivity; [apply emit_stage_change_run|].
  unfold advance_row, move_stage, drop_anchors. by rewrite app_assoc.
Qed.

Lemma regress_run target mc t evs n :
  _stage_regress target mc (mkWorld t evs n)
  = (inr tt, mkWorld (regress_row target mc t)
       (evs ++ pend_events false (count_regress target mc t.(stage) (move_stage target t))
            ++ stage_change_events (regress_row target mc t) t.(stage) target "regress") n).
Proof.
  unfold _stage_regress.
  unfold _consume_red_recovery_evidence, _clear_review_approval, clear_session_anchors.
  run_reads. do 3 run_step @when_assign_run. run_reads.
  run_step @pend_run. run_reads.
  etransitivity; [apply emit_stage_change_run|].
  unfold regress_row, count_regress, move_stage, drop_anchors. by rewrite app_assoc.
Qed.

Lemma requeue_run t evs n :
  _reset_for_same_stage_requeue (mkWorld t evs n)
  = (inr tt, mkWorld (requeue_row t)
       (evs ++ pend_events true
          (if bool_decide (t.(stage) = Stage.REVIEW)
           then clear_review_approval (t <| must_fix_override := None |>) else t)) n).
Proof.
  unfold _reset_for_same_stage_requeue.
  run_step @read_run.
  rewrite (bind_run (when _ _) _ _ tt
    (mkWorld (if bool_decide (t.(stage) = Stage.REVIEW)
              then clear_review_approval (t <| must_fix_override := None |>) else t) evs n))
    by (by case_match).
  run_step @pend_run. done.
Qed.
End PointerRun.



(** ** Fields of the pointer rows *)

Section PendRow.
Context (b : bool) (t : TicketTask).

Ltac pended := unfold pend; by autorewrite with row.

Lemma pend_status : (pend b t).(status) = QueueItemStatus.PENDING.
Proof. pended. Qed.
Lemma pend_ticket_id : (pend b t).(ticket_id) = t.(ticket_id).
Proof. pended. Qed.
Lemma pend_stage : (pend b t).(stage) = t.(stage).
Proof. pended. Qed.
Lemma pend_stage_high_water : (pend b t).(stage_high_water) = t.(stage_high_water).
Proof. pended. Qed.
Lemma pend_regress_attempts : (pend b t).(regress_attempts) = t.(regress_attempts).
Proof. pended. Qed.
Lemma pend_regressed_into : (pend b t).(regressed_into_stage) = t.(regressed_into_stage).
Proof. pended. Qed.
Lemma pend_disposition : (pend b t).(disposition) = None.
Proof. pended. Qed.
Lemma pend_completed_at : (pend b t).(completed_at) = None.
Proof. pended. Qed.
Lemma pend_blocked_reason : (pend b t).(blocked_reason) = None.
Proof. pended. Qed.
Lemma pend_pr_url : (pend b t).(pr_url) = t.(adopted_pr_url).
Proof. pended. Qed.
Lemma pend_adopted_pr_url : (pend b t).(adopted_pr_url) = t.(adopted_pr_url).
Proof. pended. Qed.
Lemma pend_pending_comment :
  (pend b t).(pending_operator_comment) = t.(pending_operator_comment).
Proof. pended. Qed.
Lemma pend_review_approved_at : (pend b t).(review_approved_at) = t.(review_approved_at).
Proof. pended. Qed.
Lemma pend_unproductive :
  (pend b t).(unproductive_attempts) =
  (t.(unproductive_attempts)
   + if bool_decide (t.(status) = QueueItemStatus.RUNNING) && b then 1 else 0)%Z.
Proof. unfold pend. rewrite row_unproductive. unfold running_exit. by rewrite andb_true_r. Qed.
End PendRow.

#[export] Hint Rewrite pend_status pend_ticket_id pend_stage pend_stage_high_water
  pend_regress_attempts pend_regressed_into pend_disposition pend_completed_at
  pend_blocked_reason pend_pr_url pend_adopted_pr_url pend_pending_comment
  pend_review_approved_at pend_unproductive : row.

(** Fields the pointer helpers leave alone, for any projection that ignores
    the fields they assign. *)
Section MoveFrame.
Context {A : Type} (f : TicketTask → A).

Lemma move_stage_frame s t :
  (∀ t v, f (t <| stage := v |>) = f t) →
  (∀ t v, f (t <| review_feedback := v |>) = f t) →
  (∀ t v, f (t <| red_pr_recovery_sha := v |>) = f t) →
  f (move_stage s t) = f t.
Proof.
  intros Hs Hr Hp. unfold move_stage, consume_red_recovery_evidence.
  repeat case_match; by rewrite ?Hp, ?Hr, ?Hs.
Qed.

Lemma lift_high_water_frame stages s t :
  (∀ t v, f (t <| stage_high_water := v |>) = f t) → f (lift_high_water stages s t) = f t.
Proof. intros H. unfold lift_high_water. repeat case_match; by rewrite ?H. Qed.
End MoveFrame.

Lemma move_stage_stage s t : (move_stage s t).(stage) = s.
Proof. unfold move_stage, consume_red_recovery_evidence. by repeat case_match. Qed.

Lemma count_regress_stage target mc old t : (count_regress target mc old t).(stage) = t.(stage).
Proof. unfold count_regress. by repeat case_match. Qed.
Lemma count_regress_status target mc old t :
  (count_regress target mc old t).(status) = t.(status).
Proof. unfold count_regress. by repeat case_match. Qed.
Lemma count_regress_high_water target mc old t :
  (count_regress target mc old t).(stage_high_water) = t.(stage_high_water).
Proof. unfold count_regress. by repeat case_match. Qed.
Lemma count_regress_unproductive target mc old t :
  (count_regress target mc old t).(unproductive_attempts) = t.(unproductive_attempts).
Proof. unfold count_regress. by repeat case_match. Qed.
Lemma count_regress_attempts target mc old t :
  (count_regress target mc old t).(regress_attempts) = (t.(regress_attempts) + 1)%Z.
Proof. unfold count_regress. by repeat case_match. Qed.
Lemma count_regress_into target mc old t :
  (count_regress target mc old t).(regressed_into_stage) = Some target.
Proof. unfold count_regress. by repeat case_match. Qed.

#[export] Hint Rewrite move_stage_stage count_regress_stage count_regress_status
  count_regress_high_water count_regress_unproductive count_regress_attempts
  count_regress_into : row.

Section MoveFields.
Context (s : StageT) (stages : list StageT) (t : TicketTask).

Lemma move_ticket_id : (move_stage s t).(ticket_id) = t.(ticket_id).
Proof. by apply (move_stage_frame ticket_id). Qed.
Lemma move_client : (move_stage s t).(client) = t.(client).
Proof. by apply (move_stage_frame client). Qed.
Lemma move_lane : (move_stage s t).(lane) = t.(lane).
Proof. by apply (move_stage_frame lane). Qed.
Lemma move_status : (move_stage s t).(status) = t.(status).
Proof. by apply (move_stage_frame status). Qed.
Lemma move_disposition : (move_stage s t).(disposition) = t.(disposition).
Proof. by apply (move_stage_frame disposition). Qed.
Lemma move_completed_at : (move_stage s t).(completed_at) = t.(completed_at).
Proof. by apply (move_stage_frame completed_at). Qed.
Lemma move_blocked_reason : (move_stage s t).(blocked_reason) = t.(blocked_reason).
Proof. by apply (move_stage_frame blocked_reason). Qed.
Lemma move_pr_url : (move_stage s t).(pr_url) = t.(pr_url).
Proof. by apply (move_stage_frame pr_url). Qed.
Lemma move_adopted_pr_url : (move_stage s t).(adopted_pr_url) = t.(adopted_pr_url).
Proof. by apply (move_stage_frame adopted_pr_url). Qed.
Lemma move_unproductive_attempts : (move_stage s t).(unproductive_attempts) = t.(unproductive_attempts).
Proof. by apply (move_stage_frame unproductive_attempts). Qed.
Lemma move_regress_attempts : (move_stage s t).(regress_attempts) = t.(regress_attempts).
Proof. by apply (move_stage_frame regress_attempts). Qed.
Lemma move_session_id : (move_stage s t).(session_id) = t.(session_id).
Proof. by apply (move_stage_frame session_id). Qed.
Lemma move_review_approved_at : (move_stage s t).(review_approved_at) = t.(review_approved_at).
Proof. by apply (move_stage_frame review_approved_at). Qed.
Lemma move_pending_operator_comment : (move_stage s t).(pending_operator_comment) = t.(pending_operator_comment).
Proof. by apply (move_stage_frame pending_operator_comment). Qed.
Lemma move_stage_high_water : (move_stage s t).(stage_high_water) = t.(stage_high_water).
Proof. by apply (move_stage_frame stage_high_water). Qed.
Lemma lift_ticket_id : (lift_high_water stages s t).(ticket_id) = t.(ticket_id).
Proof. by apply (lift_high_water_frame ticket_id). Qed.
Lemma lift_client : (lift_high_water stages s t).(client) = t.(client).
Proof. by apply (lift_high_water_frame client). Qed.
Lemma lift_lane : (lift_high_water stages s t).(lane) = t.(lane).
Proof. by apply (lift_high_water_frame lane). Qed.
Lemma lift_status : (lift_high_water stages s t).(status) = t.(status).
Proof. by apply (lift_high_water_frame status). Qed.
Lemma lift_disposition : (lift_high_water stages s t).(disposition) = t.(disposition).
Proof. by apply (lift_high_water_frame disposition). Qed.
Lemma lift_completed_at : (lift_high_water stages s t).(completed_at) = t.(completed_at).
Proof. by apply (lift_high_water_frame completed_at). Qed.
Lemma lift_blocked_reason : (lift_high_water stages s t).(blocked_reason) = t.(blocked_reason).
Proof. by apply (lift_high_water_frame blocked_reason). Qed.
Lemma lift_pr_url : (lift_high_water stages s t).(pr_url) = t.(pr_url).
Proof. by apply (lift_high_water_frame pr_url). Qed.
Lemma lift_adopted_pr_url : (lift_high_water stages s t).(adopted_pr_url) = t.(adopted_pr_url).
Proof. by apply (lift_high_water_frame adopted_pr_url). Qed.
Lemma lift_unproductive_attempts : (lift_high_water stages s t).(unproductive_attempts) = t.(unproductive_attempts).
Proof. by apply (lift_high_water_frame unproductive_attempts). Qed.
Lemma lift_regress_attempts : (lift_high_water stages s t).(regress_attempts) = t.(regress_attempts).
Proof. by apply (lift_high_water_frame regress_attempts). Qed.
Lemma lift_session_id : (lift_high_water stages s t).(session_id) = t.(session_id).
Proof. by apply (lift_high_water_frame session_id). Qed.
Lemma lift_review_approved_at : (lift_high_water stages s t).(review_approved_at) = t.(review_approved_at).
Proof. by apply (lift_high_water_frame review_approved_at). Qed.
Lemma lift_pending_operator_comment : (lift_high_water stages s t).(pending_operator_comment) = t.(pending_operator_comment).
Proof. by apply (lift_high_water_frame pending_operator_comment). Qed.
Lemma lift_stage : (lift_high_water stages s t).(stage) = t.(stage).
Proof. by apply (lift_high_water_frame stage). Qed.
End MoveFields.

#[export] Hint Rewrite move_ticket_id move_client move_lane move_status move_disposition
  move_completed_at move_blocked_reason move_pr_url move_adopted_pr_url
  move_unproductive_attempts move_regress_attempts move_session_id move_review_approved_at
  move_pending_operator_comment move_stage_high_water lift_ticket_id lift_client lift_lane
  lift_status lift_disposition lift_completed_at lift_blocked_reason lift_pr_url
  lift_adopted_pr_url lift_unproductive_attempts lift_regress_attempts lift_session_id
  lift_review_approved_at lift_pending_operator_comment lift_stage : row.

Section DropFields.
Context (t : TicketTask).

Lemma drop_ticket_id : (drop_anchors t).(ticket_id) = t.(ticket_id).
Proof. done. Qed.
Lemma drop_client : (drop_anchors t).(client) = t.(client).
Proof. done. Qed.
Lemma drop_lane : (drop_anchors t).(lane) = t.(lane).
Proof. done. Qed.
Lemma drop_stage : (drop_anchors t).(stage) = t.(stage).
Proof. done. Qed.
Lemma drop_status : (drop_anchors t).(status) = t.(status).
Proof. done. Qed.
Lemma drop_disposition : (drop_anchors t).(disposition) = t.(disposition).
Proof. done. Qed.
Lemma drop_completed_at : (drop_anchors t).(completed_at) = t.(completed_at).
Proof. done. Qed.
Lemma drop_blocked_reason : (drop_anchors t).(blocked_reason) = t.(blocked_reason).
Proof. done. Qed.
Lemma drop_pr_url : (drop_anchors t).(pr_url) = t.(pr_url).
Proof. done. Qed.
Lemma drop_adopted_pr_url : (drop_anchors t).(adopted_pr_url) = t.(adopted_pr_url).
Proof. done. Qed.
Lemma drop_unproductive_attempts : (drop_anchors t).(unproductive_attempts) = t.(unproductive_attempts).
Proof. done. Qed.
Lemma drop_regress_attempts : (drop_anchors t).(regress_attempts) = t.(regress_attempts).
Proof. done. Qed.
Lemma drop_regressed_into_stage : (drop_anchors t).(regressed_into_stage) = t.(regressed_into_stage).
Proof. done. Qed.
Lemma drop_stage_high_water : (drop_anchors t).(stage_high_water) = t.(stage_high_water).
Proof. done. Qed.
Lemma drop_review_approved_at : (drop_anchors t).(review_approved_at) = t.(review_approved_at).
Proof. done. Qed.
Lemma drop_pending_operator_comment : (drop_anchors t).(pending_operator_comment) = t.(pending_operator_comment).
Proof. done. Qed.
Lemma drop_session_id : (drop_anchors t).(session_id) = None.
Proof. done. Qed.
Lemma drop_stage_base_ref : (drop_anchors t).(stage_base_ref) = None.
Proof. done. Qed.
End DropFields.

#[export] Hint Rewrite drop_ticket_id drop_client drop_lane drop_stage drop_status
  drop_disposition drop_completed_at drop_blocked_reason drop_pr_url drop_adopted_pr_url
  drop_unproductive_attempts drop_regress_attempts drop_regressed_into_stage
  drop_stage_high_water drop_review_approved_at drop_pending_operator_comment
  drop_session_id drop_stage_base_ref : row.

Lemma count_regress_review_approved target mc old t :
  (count_regress target mc old t).(review_approved_at) = None.
Proof. done. Qed.
Lemma count_regress_comment target mc old t :
  (count_regress target mc old t).(pending_operator_comment) = true.
Proof. unfold count_regress. by repeat case_match. Qed.
#[export] Hint Rewrite count_regress_review_approved count_regress_comment : row.

Lemma lift_high_water_index stages s i t :
  index_of s stages = Some i →
  high_water_index (lift_high_water stages s t).(stage_high_water) stages
  = Z.max (high_water_index t.(stage_high_water) stages) (Z.of_nat i).
Proof.
  intros Hi. unfold lift_high_water. rewrite Hi.
  destruct (Z.ltb_spec (high_water_index (stage_high_water t) stages) (Z.of_nat i)).
  - unfold high_water_index at 1. cbn. rewrite Hi. lia.
  - lia.
Qed.

(** ** Reachable rows

    [lifecycle_step stages w w']: one call of a lifecycle operation of this
    module takes [w] to [w'], a raise included (the row as the raise leaves
    it). *)

Section Reachable.
Context {C : Clock} (stages : list StageT).

Inductive lifecycle_step (w : World) : World → Prop :=
  | step_transition new disp url reason unproductive :
      lifecycle_step w (exec (transition_task_status new disp url reason unproductive) w)
  | step_advance : lifecycle_step w (exec (_advance_task_pointer stages) w)
  | step_advance_stage s : lifecycle_step w (exec (_advance_stage stages s) w)
  | step_salvage : lifecycle_step w (exec _stamp_salvage_stage w)
  | step_regress s mc : lifecycle_step w (exec (_stage_regress s mc) w)
  | step_requeue : lifecycle_step w (exec _reset_for_same_stage_requeue w)
  | step_signoff : lifecycle_step w (exec (_clear_signoff_gate stages) w).

Definition lifecycle_steps : World → World → Prop := rtc lifecycle_step.

(** The disposition fields a status allows. *)
Definition row_wf (t : TicketTask) : Prop :=
  match t.(status) with
  | QueueItemStatus.PENDING | QueueItemStatus.CANCELLED =>
      t.(disposition) = None ∧ t.(completed_at) = None ∧ t.(blocked_reason) = None
      ∧ t.(pr_url) = t.(adopted_pr_url)
  | QueueItemStatus.RUNNING => True
  | _ => is_Some t.(completed_at)
  end.

Definition counters_le (t t' : TicketTask) : Prop :=
  (t.(unproductive_attempts) ≤ t'.(unproductive_attempts))%Z
  ∧ (t.(regress_attempts) ≤ t'.(regress_attempts))%Z
  ∧ (high_water_index t.(stage_high_water) stages
     ≤ high_water_index t'.(stage_high_water) stages)%Z
  ∧ t.(ticket_id) = t'.(ticket_id) ∧ t.(client) = t'.(client) ∧ t.(lane) = t'.(lane).

#[export] Instance counters_le_preorder : PreOrder counters_le.
Proof.
  split; [intros t; unfold counters_le; repeat split; lia|].
  intros a b c. unfold counters_le. intuition (try congruence; lia).
Qed.

Lemma row_wf_transition new disp url reason b x y z t :
  row_wf t → row_wf (transition_row new disp url reason b x y z t).
Proof.
  intros Hwf. unfold row_wf. autorewrite with row. destruct new; naive_solver.
Qed.

Lemma counters_le_transition new disp url reason b x y z t :
  counters_le t (transition_row new disp url reason b x y z t).
Proof.
  unfold counters_le. autorewrite with row. case_match; intuition lia.
Qed.

Lemma row_wf_drop t : row_wf (drop_anchors t) ↔ row_wf t.
Proof. done. Qed.

Lemma row_wf_pend b t : row_wf (pend b t).
Proof. unfold row_wf. by autorewrite with row. Qed.

Lemma counters_le_drop t t' : counters_le t (drop_anchors t') ↔ counters_le t t'.
Proof. done. Qed.

Lemma counters_le_pend b t : counters_le t (pend b t).
Proof. unfold pend. apply counters_le_transition. Qed.

Lemma counters_le_move s t : counters_le t (move_stage s t).
Proof. unfold counters_le. autorewrite with row. intuition lia. Qed.

Lemma counters_le_lift s t : counters_le t (lift_high_water stages s t).
Proof.
  unfold counters_le. autorewrite with row. split_and!; [lia|lia| |done..].
  destruct (index_of s stages) as [i|] eqn:Hi.
  - rewrite (lift_high_water_index _ _ _ _ Hi). lia.
  - unfold lift_high_water. rewrite Hi. lia.
Qed.

Lemma counters_le_regress s mc old t : counters_le t (count_regress s mc old t).
Proof.
  unfold counters_le. autorewrite with row. repeat split; try lia;
    unfold count_regress; repeat case_match; reflexivity.
Qed.

Lemma row_wf_move s t : row_wf t → row_wf (move_stage s t).
Proof. unfold row_wf. by autorewrite with row. Qed.
Lemma row_wf_lift s t : row_wf t → row_wf (lift_high_water stages s t).
Proof. unfold row_wf. by autorewrite with row. Qed.

(** The row an advance leaves, raises included. *)
Lemma advance_exec w :
  w_task (exec (_advance_task_pointer stages) w) = w_task w
  ∨ ∃ i next, index_of (w_task w).(stage) stages = Some i ∧ stages !! S i = Some next
      ∧ w_task (exec (_advance_task_pointer stages) w) = advance_row stages next (w_task w).
Proof.
  destruct w as [t evs n]. cbn [w_task].
  destruct (index_of (stage t) stages) as [i|] eqn:Hi.
  - destruct (stages !! S i) as [next|] eqn:Hn.
    + right. exists i, next. unfold exec. by rewrite (advance_run _ _ _ _ _ _ Hi Hn).
    + left. unfold exec, _advance_task_pointer, py_index, mbind, M_bind. simpl.
      rewrite Hi. simpl. by rewrite Hn.
  - left. unfold exec, _advance_task_pointer, py_index, mbind, M_bind. simpl.
    by rewrite Hi.
Qed.

Lemma advance_stage_exec s w :
  w_task (exec (_advance_stage stages s) w)
  = if bool_decide (s ∈ stages)
    then lift_high_water stages s (move_stage s (w_task w)) else move_stage s (w_task w).
Proof.
  destruct w as [t evs n]. cbn [w_task]. unfold exec, _advance_stage,
    _consume_red_recovery_evidence.
  run_reads. case_bool_decide as Hin.
  - rewrite (bind_run _ _ _ _ _ (raise_high_water_run _ _ _ _ _ Hin)).
    run_step @emit_stage_change_run. done.
  - apply index_of_None in Hin.
    unfold mbind at 1, M_bind, _raise_stage_high_water, py_index.
    unfold mbind, M_bind. simpl. by rewrite Hin.
Qed.

Lemma salvage_exec w :
  w_task (exec _stamp_salvage_stage w) = move_stage Stage.FINALIZE (w_task w).
Proof.
  destruct w as [t evs n]. cbn [w_task]. unfold exec, _stamp_salvage_stage,
    _consume_red_recovery_evidence.
  run_reads. rewrite emit_stage_change_run. reflexivity.
Qed.

(** Every lifecycle operation keeps the row well formed and never lowers a
    counter, the stage high-water mark or the row's identity. *)
Lemma lifecycle_step_sound w w' :
  lifecycle_step w w' →
  (row_wf (w_task w) → row_wf (w_task w')) ∧ counters_le (w_task w) (w_task w').
Proof.
  assert (Hadv : (row_wf (w_task w) → row_wf (w_task (exec (_advance_task_pointer stages) w)))
                 ∧ counters_le (w_task w) (w_task (exec (_advance_task_pointer stages) w))).
  { destruct (advance_exec w) as [->|(i & next & _ & _ & ->)]; [done|].
    unfold advance_row. rewrite row_wf_drop, counters_le_drop. split; [intros _; apply row_wf_pend|].
    etransitivity; [apply counters_le_move|].
    etransitivity; [apply counters_le_lift|apply counters_le_pend]. }
  intros [new disp url reason b| |s| |s mc| |].
  - unfold exec. rewrite transition_run. simpl.
    split; [apply row_wf_transition|apply counters_le_transition].
  - done.
  - rewrite advance_stage_exec. case_bool_decide.
    + split; [intros; by apply row_wf_lift, row_wf_move|].
      etransitivity; [apply counters_le_move|apply counters_le_lift].
    + split; [apply row_wf_move|apply counters_le_move].
  - rewrite salvage_exec. split; [apply row_wf_move|apply counters_le_move].
  - destruct w as [t evs n]. unfold exec. rewrite regress_run. simpl. unfold regress_row.
    rewrite row_wf_drop, counters_le_drop. split; [intros _; apply row_wf_pend|].
    etransitivity; [apply counters_le_move|].
    etransitivity; [apply counters_le_regress|apply counters_le_pend].
  - destruct w as [t evs n]. unfold exec. rewrite requeue_run. simpl. unfold requeue_row.
    rewrite row_wf_drop, counters_le_drop. split; [intros _; apply row_wf_pend|].
    etransitivity; [|apply counters_le_pend]. by case_match.
  - destruct w as [t evs n]. unfold _clear_signoff_gate, exec. run_reads.
    unfold py_last. destruct (last stages) as [l|]; [|done].
    erewrite bind_run by done. case_match; [|exact Hadv].
    rewrite transition_run. simpl.
    split; [apply row_wf_transition|apply counters_le_transition].
Qed.
End Reachable.

(** ** Properties *)

Section LifecycleProps.
Context {C : Clock}.

(** a status transition never raises and leaves the row in the new
    status with exactly the stamps that status calls for: a terminal
    transition stamps the caller's disposition and reason, the PR url
    falling back to the adopted PR, and a completion instant; PENDING and
    CANCELLED clear them (the PR url to the adopted one); RUNNING keeps
    them; every attention latch is cleared and the row's identity, lane,
    stage, session and branch anchors are untouched. *)
Theorem transition_outcome new disp url reason unproductive w :
  result (transition_task_status new disp url reason unproductive) w = inr tt
  ∧ let t := w_task w in
    let t' := w_task (exec (transition_task_status new disp url reason unproductive) w) in
    t'.(status) = new
    ∧ (t'.(disposition), t'.(pr_url), t'.(blocked_reason)) =
      match new with
      | QueueItemStatus.RUNNING => (t.(disposition), t.(pr_url), t.(blocked_reason))
      | QueueItemStatus.PENDING | QueueItemStatus.CANCELLED =>
          (None, t.(adopted_pr_url), None)
      | _ => (disp, str_or url t.(adopted_pr_url), reason)
      end
    ∧ (new ∈ _TERMINAL_DISPOSITION_STATUSES → is_Some t'.(completed_at))
    ∧ (new ∈ _RESET_DISPOSITION_STATUSES → t'.(completed_at) = None)
    ∧ (t'.(escalation_parked_at), t'.(escalation_fired_at), t'.(gate_recipe_failed_at),
       t'.(stale_gate_detected_at), t'.(advisory_note), t'.(usage_limit_act),
       t'.(shipped_red)) = (None, None, None, None, None, None, None)
    ∧ (t'.(ticket_id), t'.(client), t'.(lane), t'.(stage), t'.(session_id),
       t'.(stage_base_ref), t'.(branch))
      = (t.(ticket_id), t.(client), t.(lane), t.(stage), t.(session_id),
         t.(stage_base_ref), t.(branch)).
Proof.
  unfold result, exec. rewrite transition_run. cbn [fst snd]. unfold settled. cbv zeta.
  cbn [w_task]. split; [done|]. autorewrite with row. split_and!; try done.
  - by destruct new.
  - intros H%(bool_decide_eq_true_2 _). rewrite in_terminal_disposition in H.
    destruct new; naive_solver.
  - intros H%(bool_decide_eq_true_2 _). rewrite in_reset_disposition in H.
    destruct new; naive_solver.
Qed.

(** the attempt charge is single: a transition charges the unproductive
    counter by one exactly when it leaves RUNNING and the caller has no
    evidence of progress, so two transitions that route one claim (the
    first leaving RUNNING for good) never charge more than once in total. *)
Theorem transition_charges_once new1 new2 d1 u1 r1 d2 u2 r2 b1 b2 w :
  let w1 := exec (transition_task_status new1 d1 u1 r1 b1) w in
  let w2 := exec (transition_task_status new2 d2 u2 r2 b2) w1 in
  (w_task w1).(unproductive_attempts)
  = ((w_task w).(unproductive_attempts)
     + if bool_decide ((w_task w).(status) = QueueItemStatus.RUNNING)
          && negb (bool_decide (new1 = QueueItemStatus.RUNNING)) && b1 then 1 else 0)%Z
  ∧ (new1 ≠ QueueItemStatus.RUNNING →
     (w_task w2).(unproductive_attempts) = (w_task w1).(unproductive_attempts)).
Proof.
  cbv zeta. unfold exec. rewrite !transition_run. cbn [snd]. unfold settled. cbv zeta.
  cbn [w_task]. split; [by autorewrite with row|].
  intros Hne. rewrite row_unproductive, row_status.
  unfold running_exit. rewrite (bool_decide_false (new1 = _)) by done. simpl. lia.
Qed.

(** the durable inbox records a transition exactly when the status
    changes: the events a transition appends are an optional cancellation
    page (the row is newly CANCELLED, owes an auto-merge re-arm and was not
    paged yet) followed by one [task.transition] event for the ticket, and a
    re-assertion of the same status is silent. *)
Theorem transition_audited new disp url reason unproductive w :
  let t := w_task w in
  let w' := exec (transition_task_status new disp url reason unproductive) w in
  ∃ pages, w_events w' = w_events w ++ pages
    ++ (if bool_decide (t.(status) = new) then []
        else [mkEvent TASK_TRANSITION
                (transition_payload (w_task w') t.(status) new
                   (bool_decide (t.(status) = QueueItemStatus.RUNNING)
                    && negb (bool_decide (new = QueueItemStatus.RUNNING))) unproductive)
                (Some t.(ticket_id))])
    ∧ map ev_type pages
      = if negb (bool_decide (t.(status) = new))
           && bool_decide (new = QueueItemStatus.CANCELLED)
           && is_Some_b t.(auto_merge_rearm_owed_at)
           && negb (is_Some_b t.(auto_merge_rearm_attention_at))
        then [SESSION_NEEDS_ATTENTION] else [].
Proof.
  cbv zeta. unfold exec. rewrite transition_run. cbn [snd]. unfold settled. cbv zeta.
  cbn [w_task w_events]. unfold transition_events. rewrite row_ticket_id.
  eexists. split; [reflexivity|]. fold (cancel_pages (w_task w) new).
  by destruct (cancel_pages (w_task w) new).
Qed.

(** advancing the stage pointer moves the row to the pipeline's next
    stage as PENDING, with the session and base-ref anchors dropped, no
    unproductive charge and the high-water mark raised; a row whose stage
    is not in the pipeline raises ValueError and a row at the last stage
    raises IndexError, both leaving the row and the inbox untouched. *)
Theorem advance_task_pointer_correct stages w :
  let t := w_task w in
  let w' := exec (_advance_task_pointer stages) w in
  match index_of t.(stage) stages with
  | None => _advance_task_pointer stages w = (inl ValueError, w)
  | Some i =>
      match stages !! S i with
      | None => _advance_task_pointer stages w = (inl IndexError, w)
      | Some next =>
          result (_advance_task_pointer stages) w = inr tt
          ∧ (w_task w').(stage) = next
          ∧ (w_task w').(status) = QueueItemStatus.PENDING
          ∧ ((w_task w').(session_id), (w_task w').(stage_base_ref)) = (None, None)
          ∧ (w_task w').(unproductive_attempts) = t.(unproductive_attempts)
          ∧ (∀ j, index_of next stages = Some j →
               high_water_index (w_task w').(stage_high_water) stages
               = Z.max (high_water_index t.(stage_high_water) stages) (Z.of_nat j))
      end
  end.
Proof.
  destruct w as [t evs n]. cbv zeta. cbn [w_task].
  destruct (index_of (stage t) stages) as [i|] eqn:Hi.
  - destruct (stages !! S i) as [next|] eqn:Hn.
    + unfold result, exec. rewrite (advance_run _ _ _ _ _ _ Hi Hn).
      cbn [fst snd w_task]. unfold advance_row. autorewrite with row.
      split_and!; try done.
      * rewrite andb_false_r. lia.
      * intros j Hj. rewrite (lift_high_water_index _ _ _ _ Hj).
        by autorewrite with row.
    + unfold _advance_task_pointer. run_reads. unfold py_index. rewrite Hi.
      erewrite bind_run by reflexivity. by rewrite Hn.
  - unfold _advance_task_pointer. run_reads. unfold py_index. by rewrite Hi.
Qed.

(** over any sequence of lifecycle calls, whatever their arguments and
    whether or not they raise, a well-formed row stays well formed (a
    PENDING or CANCELLED row carries no disposition, completion instant or
    reason and its PR url is the adopted one; a settled row has a
    completion instant), the attempt and regress counters and the stage
    high-water mark never decrease, and the row keeps its identity. *)
Theorem lifecycle_reachable_sound stages w w' :
  lifecycle_steps stages w w' →
  (row_wf (w_task w) → row_wf (w_task w'))
  ∧ (w_task w).(ticket_id) = (w_task w').(ticket_id)
  ∧ (w_task w).(client) = (w_task w').(client)
  ∧ ((w_task w).(unproductive_attempts) ≤ (w_task w').(unproductive_attempts))%Z
  ∧ ((w_task w).(regress_attempts) ≤ (w_task w').(regress_attempts))%Z
  ∧ (high_water_index (w_task w).(stage_high_water) stages
     ≤ high_water_index (w_task w').(stage_high_water) stages)%Z.
Proof.
  intros Hs.
  assert ((row_wf (w_task w) → row_wf (w_task w'))
          ∧ counters_le stages (w_task w) (w_task w')) as [Hwf Hle].
  { induction Hs as [|w w1 w2 H1 _ [IHw IHc]]; [done|].
    destruct (lifecycle_step_sound _ _ _ H1) as [Hw Hc].
    split; [auto|by etransitivity]. }
  unfold counters_le in Hle. naive_solver.
Qed.

(** a regress always lands the row PENDING at the target stage with the
    regress counted, the operator comment owed, any review approval and the
    session anchors dropped, and never charges the unproductive counter. *)
Theorem stage_regress_correct target mc w :
  let t := w_task w in
  let t' := w_task (exec (_stage_regress target mc) w) in
  result (_stage_regress target mc) w = inr tt
  ∧ t'.(stage) = target ∧ t'.(status) = QueueItemStatus.PENDING
  ∧ t'.(regress_attempts) = (t.(regress_attempts) + 1)%Z
  ∧ t'.(regressed_into_stage) = Some target
  ∧ t'.(pending_operator_comment) = true
  ∧ t'.(review_approved_at) = None
  ∧ (t'.(session_id), t'.(stage_base_ref)) = (None, None)
  ∧ t'.(unproductive_attempts) = t.(unproductive_attempts)
  ∧ t'.(stage_high_water) = t.(stage_high_water).
Proof.
  destruct w as [t evs n]. cbv zeta. unfold result, exec. rewrite regress_run.
  cbn [fst snd w_task]. unfold regress_row. autorewrite with row.
  split_and!; try done. rewrite andb_false_r. lia.
Qed.
End LifecycleProps.

(** A row advanced from PLAN to IMPL. *)
Definition lifecycle_clock : Clock := λ n, Z.of_nat n.

Lemma lifecycle_reachable_sound_witness :
  let stages := [Stage.PLAN; Stage.IMPL] in
  let w := mkWorld (new_task "T-1" "acme" 0) [] 0 in
  row_wf (w_task (exec (_advance_task_pointer (C := lifecycle_clock) stages) w)).
Proof.
  set (w := mkWorld (new_task "T-1" "acme" 0) [] 0).
  apply (@lifecycle_reachable_sound lifecycle_clock [Stage.PLAN; Stage.IMPL] w).
  - apply rtc_once. apply step_advance.
  - vm_compute. auto.
Defined.
