(* ===== verification/GateBackoff.v ===== *)
(** * Gate-block backoff: [cw.dev_queue.gate_backoff]

    A row that keeps parking on the same merge gate has its claim clock pushed
    out by a doubling delay; the clock is shared with other backoffs, whose
    windows the module never shortens or erases. *)

From S2P Require Import Prelude.
From S2P Require Import PyStr.
From S2P Require Import Enums.
From S2P Require Import Tasks.
From S2P Require Import World.
From S2P Require Import Vocab.

#[local] Open Scope cw_scope.

(** ** The shared delay ([cw._util.exponential_backoff_seconds]) *)

Definition _BACKOFF_MAX_SHIFT : Z := 32.

Definition exponential_backoff_seconds (count initial_seconds cap_seconds : Z) : Z :=
  let shift := Z.min (Z.max (count - 1) 0) _BACKOFF_MAX_SHIFT in
  Z.min (Z.shiftl initial_seconds shift) cap_seconds.

Definition GATE_BLOCK_BACKOFF_INITIAL_SECONDS : Z := 60.
Definition GATE_BLOCK_BACKOFF_CAP_SECONDS : Z := 900.
Definition _FINGERPRINT_SEPARATOR : string := "|".

Definition is_gate_block (st blocker_reason : option string) : bool :=
  opt_is st MERGE_GATE_BLOCKED_STATUS
  || opt_is blocker_reason BLOCKER_REASON_PRIOR_PIPELINE_PR_OPEN.

(** [stage_override] is the pair of the two override parameters: the base ref
    is the caller's exactly when a stage is passed. *)
Definition _fingerprint (task : TicketTask) (st blocker_reason : option string)
  (blocking_pr : option Z) (stage_arg stage_base_ref_arg : option string) : string :=
  let parts :=
    [st; blocker_reason; str_of_Z <$> blocking_pr;
     Some (match stage_arg with None => Stage.stage_value task.(stage) | Some s => s end);
     match stage_arg with None => task.(stage_base_ref) | Some _ => stage_base_ref_arg end] in
  str_join _FINGERPRINT_SEPARATOR (map (default "") parts).

Definition gate_block_page_note (count next_eligible : Z) : string :=
  "occurrence=" +:+ str_of_Z count +:+ " next_eligible_at="
  +:+ isoformat (whole_seconds next_eligible).

(** [timedelta(seconds=n)]. *)
Definition seconds (n : Z) : Z := (n * MICROS)%Z.

Definition gate_block_delay (count : Z) : Z :=
  exponential_backoff_seconds count GATE_BLOCK_BACKOFF_INITIAL_SECONDS
    GATE_BLOCK_BACKOFF_CAP_SECONDS.

(** The stamp and the note of one park. *)
Definition record_gate_block (task : TicketTask) (st blocker_reason : option string)
  (blocking_pr : option Z) (now : Z) (fingerprint_stage fingerprint_stage_base_ref : option string)
  : TicketTask * string :=
  let fingerprint := _fingerprint task st blocker_reason blocking_pr fingerprint_stage
                       fingerprint_stage_base_ref in
  let count :=
    match task.(gate_block) with
    | Some prior => if String.eqb prior.(gb_fingerprint) fingerprint
                    then (prior.(gb_count) + 1)%Z else 1%Z
    | None => 1%Z
    end in
  let until := (now + seconds (gate_block_delay count))%Z in
  let effective := match task.(next_eligible_at) with
                   | None => until | Some existing => Z.max existing until end in
  (task <| next_eligible_at := Some effective |>
        <| gate_block := Some (mkGateBlockBackoff count fingerprint until) |>,
   gate_block_page_note count effective).

Definition owns_wait (task : TicketTask) : bool :=
  match task.(gate_block) with
  | Some record => bool_decide (task.(next_eligible_at) = Some record.(gb_until))
  | None => false
  end.

Definition clear_gate_block_wait (task : TicketTask) : TicketTask :=
  if owns_wait task then task <| next_eligible_at := None |> else task.

Definition gate_wait_released (task : TicketTask) (backoff_enabled : bool) : bool :=
  negb backoff_enabled && owns_wait task.

Definition reset_gate_block_unless_gate (task : TicketTask) (st blocker_reason : option string)
  : TicketTask :=
  if negb (is_gate_block st blocker_reason) then task <| gate_block := None |> else task.

(** ** The delay is bounded and monotone *)

Lemma backoff_shift count initial cap :
  exponential_backoff_seconds count initial cap
  = Z.min (initial * 2 ^ Z.min (Z.max (count - 1) 0) 32) cap.
Proof. unfold exponential_backoff_seconds, _BACKOFF_MAX_SHIFT. by rewrite Z.shiftl_mul_pow2 by lia. Qed.

Lemma backoff_mono c1 c2 initial cap :
  (0 ≤ initial → c1 ≤ c2 →
   exponential_backoff_seconds c1 initial cap ≤ exponential_backoff_seconds c2 initial cap)%Z.
Proof.
  intros Hi Hc. rewrite !backoff_shift. apply Z.min_le_compat_r.
  apply Z.mul_le_mono_nonneg_l; [done|]. apply Z.pow_le_mono_r; lia.
Qed.

Lemma backoff_bounds count initial cap :
  (0 ≤ initial → Z.min initial cap ≤ exponential_backoff_seconds count initial cap ≤ cap)%Z.
Proof.
  intros Hi. rewrite backoff_shift. split; [|lia].
  apply Z.min_le_compat_r.
  assert (1 ≤ 2 ^ Z.min (Z.max (count - 1) 0) 32)%Z; [|nia].
  change 1%Z with (2 ^ 0)%Z. apply Z.pow_le_mono_r; lia.
Qed.

(** A run of [n + 1] parks with the same key, each at its own instant and with
    any clock another writer left in between. *)
Fixpoint park_run (parks : list (Z * option Z)) (st blocker_reason : option string)
  (blocking_pr : option Z) (task : TicketTask) : TicketTask :=
  match parks with
  | [] => task
  | (at_, clock) :: ps =>
      park_run ps st blocker_reason blocking_pr
        (record_gate_block (task <| next_eligible_at := clock |>) st blocker_reason
           blocking_pr at_ None None).1
  end.

Lemma fingerprint_of_park task st br pr at_ s b :
  _fingerprint (record_gate_block task st br pr at_ s b).1 st br pr None None
  = _fingerprint task st br pr None None.
Proof. done. Qed.

Lemma park_run_count parks st br pr task k f u :
  task.(gate_block) = Some (mkGateBlockBackoff k f u) →
  f = _fingerprint task st br pr None None →
  ∃ u', (park_run parks st br pr task).(gate_block)
        = Some (mkGateBlockBackoff (k + Z.of_nat (length parks)) f u').
Proof.
  revert task k u. induction parks as [|[at_ clock] ps IH]; intros task k u Hgb Hf.
  - exists u. simpl. by rewrite Z.add_0_r.
  - set (t := task <| next_eligible_at := clock |>).
    assert (Hf' : _fingerprint t st br pr None None = f) by done.
    edestruct (IH (record_gate_block t st br pr at_ None None).1 (k + 1)%Z) as [u' Hu'].
    + unfold record_gate_block. rewrite Hf'. simpl. rewrite Hgb. simpl.
      rewrite String.eqb_refl. reflexivity.
    + by rewrite fingerprint_of_park.
    + exists u'. cbn [park_run length]. fold t. rewrite Hu'. do 2 f_equal. lia.
Qed.

(** ** Properties *)

(** the delay of the n-th consecutive gate park is 60 s doubled at each
    occurrence and capped at 900 s: the schedule 60, 120, 240, 480, 900, 900,
    ..., never below 60 s, never above 900 s, and it never shrinks as the run
    grows, whatever (even negative or huge) count it is given. *)
Theorem gate_block_delay_schedule :
  map gate_block_delay [1; 2; 3; 4; 5; 6; 1000000]%Z = [60; 120; 240; 480; 900; 900; 900]%Z
  ∧ (∀ count, 60 ≤ gate_block_delay count ≤ 900)%Z
  ∧ (∀ c1 c2, c1 ≤ c2 → gate_block_delay c1 ≤ gate_block_delay c2)%Z.
Proof.
  split_and!.
  - reflexivity.
  - intros count. apply (backoff_bounds count 60 900). lia.
  - intros c1 c2. by apply backoff_mono.
Qed.

(** over a run of consecutive parks with the same key (status, reason,
    blocking PR, stage and base ref), whatever other writers did to the shared
    claim clock in between, the record counts the occurrences from 1. *)
Theorem gate_block_run_counts parks st br pr task :
  task.(gate_block) = None → parks ≠ [] →
  gb_count <$> (park_run parks st br pr task).(gate_block) = Some (Z.of_nat (length parks)).
Proof.
  destruct parks as [|[at_ clock] ps]; [done|]. intros Hgb _. cbn [park_run].
  edestruct (park_run_count ps st br pr
    (record_gate_block (task <| next_eligible_at := clock |>) st br pr at_ None None).1 1)
    as [u Hu].
  - unfold record_gate_block. simpl. rewrite Hgb. simpl. reflexivity.
  - by rewrite fingerprint_of_park.
  - rewrite Hu. simpl. f_equal. lia.
Qed.

(** the gate never erases another writer's window: a park leaves the claim
    clock no earlier than both the instant it had and the gate's own [until];
    a clear only removes a clock that still equals the gate's stamp, so a
    later window written by another backoff survives park and clear, and a
    row whose only wait is the gate's is released by the clear. *)
Theorem gate_block_respects_clock st br pr now fs fb task existing :
  task.(next_eligible_at) = Some existing →
  let parked := (record_gate_block task st br pr now fs fb).1 in
  ∃ until : Z,
    gb_until <$> parked.(gate_block) = Some until
    ∧ (now + seconds 60 ≤ until ≤ now + seconds 900)%Z
    ∧ parked.(next_eligible_at) = Some (Z.max existing until)
    ∧ (clear_gate_block_wait parked).(next_eligible_at)
      = (if Z.leb existing until then None else Some existing)
    ∧ (clear_gate_block_wait parked).(gate_block) = parked.(gate_block).
Proof.
  intros Hx. cbv zeta. unfold record_gate_block. cbn [fst]. rewrite Hx.
  set (c := match gate_block task with Some _ => _ | None => _ end).
  set (u := (now + seconds (gate_block_delay c))%Z).
  exists u. split; [done|]. split.
  { pose proof (backoff_bounds c 60 900 ltac:(lia)). unfold u, seconds, MICROS.
    change (gate_block_delay c) with (exponential_backoff_seconds c 60 900). lia. }
  split; [done|]. unfold clear_gate_block_wait, owns_wait. simpl.
  destruct (Z.leb_spec existing u).
  - rewrite Z.max_r by lia. rewrite bool_decide_true by done. done.
  - rewrite Z.max_l by lia. rewrite bool_decide_false by (intros [= ?]; lia). done.
Qed.

(** The run and the clock on a fresh row parked twice at instants 0 and 10 s,
    under a usage-limit window reaching past the gate's. *)
Definition sample_task : TicketTask := new_task "T-1" "acme" 0.

Lemma gate_block_run_counts_witness :
  gb_count <$> (park_run [(0, None); (10000000, Some 5000000000)]%Z
                  (Some "merge_gate_blocked") None (Some 7%Z) sample_task).(gate_block)
  = Some 2%Z.
Proof. apply (gate_block_run_counts [(0, None); (10000000, Some 5000000000)]%Z); done. Defined.

Lemma gate_block_respects_clock_witness :
  let t := sample_task <| next_eligible_at := Some 5000000000%Z |> in
  let parked := (record_gate_block t (Some "merge_gate_blocked") None None 0 None None).1 in
  ∃ until : Z,
    gb_until <$> parked.(gate_block) = Some until
    ∧ (0 + seconds 60 ≤ until ≤ 0 + seconds 900)%Z
    ∧ parked.(next_eligible_at) = Some (Z.max 5000000000 until)
    ∧ (clear_gate_block_wait parked).(next_eligible_at)
      = (if Z.leb 5000000000 until then None else Some 5000000000%Z)
    ∧ (clear_gate_block_wait parked).(gate_block) = parked.(gate_block).
Proof.
  exact (gate_block_respects_clock (Some "merge_gate_blocked") None None 0 None None
           (sample_task <| next_eligible_at := Some 5000000000%Z |>) 5000000000 eq_refl).
Defined.
