(* ===== verification/ClaimEvidence.v ===== *)
(** * Claim evidence: [cw.claim_evidence]

    Whether a finished claim left evidence of progress, read off the raw
    sentinel payload; a claim without any is charged against the attempt
    ceiling. *)

From S2P Require Import Prelude.
From S2P Require Import PyStr.
From S2P Require Import Enums.
From S2P Require Import Tasks.
From S2P Require Import Vocab.

Definition _CHARGED_HUMAN_INPUT_PARKS : gset string := {[ "plan_pending_approval" ]}.
Definition _UNCHARGED_PARK_STATUSES : gset string :=
  PAUSED_FOR_USER_INPUT_STATUSES ∖ _CHARGED_HUMAN_INPUT_PARKS.

Record ClaimEvidence := mkClaimEvidence {
  had_commits : bool;
  had_findings : bool;
  resolution_consumed : bool;
  human_input_park : bool }.

(** The predicates below take the payload as a dict; [jget] of anything else
    is [None]. *)
Definition _has_commits (payload : json) : bool :=
  match jget "commits" payload with
  | JList l => Nat.ltb 0 (length l)
  | _ => false
  end.

(** [isinstance(x, int) and x > 0]; a bool is an int. *)
Definition positive_int (j : json) : bool :=
  match j with JInt z => Z.ltb 0 z | JBool b => b | _ => false end.

Definition _has_findings (payload : json) : bool :=
  match jget "review" payload with
  | JDict review =>
      existsb positive_int [dict_get "must_fix_initial" review; dict_get "should_fix" review]
  | _ => false
  end.

Definition _has_consumed_resolution (payload : json) : bool :=
  match jget "resolution_consumed" payload with
  | JBool true =>
      match jget "resolution_evidence" payload with
      | JDict d => Nat.ltb 0 (length d)
      | _ => false
      end
  | _ => false
  end.

Definition _is_human_input_park (payload : json) : bool :=
  if opt_in (as_str (jget "status" payload)) _UNCHARGED_PARK_STATUSES then true
  else match jget "blocker" payload with
       | JDict blocker =>
           opt_in (as_str (dict_get "reason" blocker)) OPERATOR_UNAVAILABLE_BLOCKER_REASONS
       | _ => false
       end.

Definition extract_claim_evidence (payload : json) : ClaimEvidence :=
  if negb (is_dict payload) then mkClaimEvidence false false false false
  else mkClaimEvidence (_has_commits payload) (_has_findings payload)
         (_has_consumed_resolution payload) (_is_human_input_park payload).

Definition is_unproductive (evidence : ClaimEvidence) : bool :=
  negb (evidence.(had_commits) || evidence.(had_findings)
        || evidence.(resolution_consumed) || evidence.(human_input_park)).

(** [is_unproductive(extract_claim_evidence(payload))]. *)
Definition payload_unproductive (payload : json) : bool :=
  is_unproductive (extract_claim_evidence payload).

Lemma unproductive_park payload s :
  jget "status" payload = JStr s → s ∈ _UNCHARGED_PARK_STATUSES →
  payload_unproductive payload = false.
Proof.
  intros Hs Hin. unfold payload_unproductive, extract_claim_evidence.
  destruct payload as [| | | | | |d]; try discriminate Hs. cbn [is_dict negb].
  unfold is_unproductive, _is_human_input_park. cbn [had_commits had_findings
    resolution_consumed human_input_park].
  rewrite Hs. simpl. rewrite bool_decide_true by done.
  by rewrite orb_true_r.
Qed.

(** ** Properties *)

(** a payload with no [commits] list, no [review] block, no consumed
    resolution, a blocker reason that is not an operator-unavailable one and a
    status outside the uncharged human-input parks is charged (so is a missing
    sentinel); a payload in an uncharged park status is never charged, and
    [plan_pending_approval] alone among the human-input parks is. *)
Theorem claim_charge_rule payload :
  let status := as_str (jget "status" payload) in
  let reason := as_str (jget "reason" (jget "blocker" payload)) in
  (jget "commits" payload = JNull → jget "review" payload = JNull →
   jget "resolution_consumed" payload = JNull →
   payload_unproductive payload
   = negb (opt_in status _UNCHARGED_PARK_STATUSES
           || opt_in reason OPERATOR_UNAVAILABLE_BLOCKER_REASONS))
  ∧ (is_dict payload = false → payload_unproductive payload = true)
  ∧ (∀ s, s ∈ PAUSED_FOR_USER_INPUT_STATUSES →
       (s ∈ _UNCHARGED_PARK_STATUSES ↔ s ≠ "plan_pending_approval")).
Proof.
  cbv zeta. split_and!.
  - intros Hc Hr Hres. unfold payload_unproductive, extract_claim_evidence.
    destruct payload as [| | | | | |d]; try done.
    unfold is_unproductive, _has_commits, _has_findings, _has_consumed_resolution,
      _is_human_input_park. rewrite Hc, Hr, Hres. simpl.
    case_match; [done|]. simpl. f_equal. by case_match.
  - intros Hd. unfold payload_unproductive, extract_claim_evidence. by rewrite Hd.
  - intros s Hs. unfold _UNCHARGED_PARK_STATUSES, _CHARGED_HUMAN_INPUT_PARKS.
    rewrite elem_of_difference, elem_of_singleton. naive_solver.
Qed.

Lemma claim_charge_rule_witness :
  let payload := JDict [("status", JStr "blocked");
                        ("blocker", JDict [("reason", JStr "agent_block")])] in
  payload_unproductive payload = true
  ∧ payload_unproductive JNull = true
  ∧ ("review_pending_approval" ∈ _UNCHARGED_PARK_STATUSES).
Proof.
  set (p := JDict [("status", JStr "blocked");
                   ("blocker", JDict [("reason", JStr "agent_block")])]).
  destruct (claim_charge_rule p) as (H & _ & H3).
  destruct (claim_charge_rule JNull) as (_ & H2 & _).
  split; [rewrite (H eq_refl eq_refl eq_refl); vm_compute; reflexivity|].
  split; [exact (H2 eq_refl)|].
  apply H3; [vocab_decide|discriminate].
Defined.
