(* ===== verification/Clients.v ===== *)
(** * Client configuration as dispatch reads it

    The fields of [cw.models] client, lane and pipeline configs the routing
    code uses, the lane walk and its resolvers ([executor/_resolve.py],
    [review_gates.resolve_signoff], [queue_rows.resolve_hold_finalize]). *)

From S2P Require Import Prelude.
From S2P Require Import PyStr.
From S2P Require Import Enums.
From S2P Require Import Tasks.
From S2P Require Import Vocab.

Definition CLAUDE_NATIVE_BACKEND : string := "claude-native".
Definition CODEX_BACKEND : string := "codex".
Definition LOCAL_BACKEND : string := "local".

(** Of a stage's executor config only the backend is read.  [spc_stages] is [None] when "stages" is not in [model_fields_set]; the
    model's default list then applies. *)
Record StagePipelineConfig := mkStagePipelineConfig {
  spc_stages : option (list StageT);
  spc_executors : gmap StageT string }.

Definition DEFAULT_PIPELINE_STAGES : list StageT :=
  [Stage.PLAN; Stage.IMPL; Stage.REVIEW; Stage.FINALIZE].

Definition spc_effective (p : StagePipelineConfig) : list StageT :=
  default DEFAULT_PIPELINE_STAGES p.(spc_stages).

(** The model validator: stages must be unique. *)
Definition _stages_unique (p : StagePipelineConfig) : bool :=
  bool_decide (NoDup (spc_effective p)).

(** [attempt_ceiling: false] and [attempt_ceiling: n]. *)
Inductive LaneCeiling := CeilingOff | CeilingAt (n : Z).

Record LaneConfig := mkLaneConfig {
  lc_name : string;
  lc_max_parallel : Z;
  lc_priority : Z;
  lc_paused : bool;
  lc_pipeline : option StagePipelineConfig;
  lc_signoff : option string;
  lc_finalize_gate : option string;
  lc_attempt_ceiling : option LaneCeiling;
  lc_reap_policy : option ReapPolicy.ReapPolicy }.

Definition new_lane (name : string) : LaneConfig :=
  mkLaneConfig name 1 0 false None None None None None.

Record TrackerMcpGateConfig := mkTrackerMcpGateConfig {
  tmg_enabled : bool; tmg_plugin_id : string; tmg_settings_path : string }.

Record ClientConfig := mkClientConfig {
  cc_default_branch : string;
  cc_feature_branch_prefix : string;
  cc_lanes : list LaneConfig;
  cc_pipeline : StagePipelineConfig;
  cc_gate_block_backoff_enabled : bool;
  cc_tracker_mcp_gate : option TrackerMcpGateConfig;
  cc_convergence : string;
  cc_operator_github_login : option string }.

(** The global defaults the resolvers fall back to. *)
Record OrchestratorConfig := mkOrchestratorConfig {
  default_signoff : string;
  default_finalize_gate : string;
  global_attempt_ceiling : Z;
  global_reap_policy : ReapPolicy.ReapPolicy }.

Definition Clients : Type := gmap string ClientConfig.

Definition effective_lanes (c : ClientConfig) : list LaneConfig :=
  match c.(cc_lanes) with
  | [] => [new_lane DEFAULT_LANE]
  | ls => ls
  end.

(** First lane of the given name that declares [f]: the walk
    [for lane in effective_lanes: if lane.name == x and lane.f is not None]. *)
Fixpoint lane_walk {A} (f : LaneConfig → option A) (name : string) (ls : list LaneConfig)
  : option A :=
  match ls with
  | [] => None
  | l :: ls' =>
      if String.eqb l.(lc_name) name
      then match f l with Some a => Some a | None => lane_walk f name ls' end
      else lane_walk f name ls'
  end.

Definition _lane_pipeline (c : ClientConfig) (lane_name : option string)
  : option StagePipelineConfig :=
  if negb (opt_truthy lane_name) then None
  else lane_walk lc_pipeline (default "" lane_name) (effective_lanes c).

(** [resolve_executor_config(stage, task, client).backend]: the lane's stage
    config, else the client's, else the default. *)
Definition resolve_executor_backend (s : StageT) (task : TicketTask) (c : ClientConfig)
  : string :=
  default (default CLAUDE_NATIVE_BACKEND (c.(cc_pipeline).(spc_executors) !! s))
    (p ← _lane_pipeline c (Some task.(lane)); p.(spc_executors) !! s).

Definition resolve_pipeline_stages (task : TicketTask) (c : ClientConfig) : list StageT :=
  match _lane_pipeline c (Some task.(lane)) with
  | Some p => match p.(spc_stages) with
              | Some stages => stages
              | None => spc_effective c.(cc_pipeline)
              end
  | None => spc_effective c.(cc_pipeline)
  end.

Definition pipeline_position (task : TicketTask) (c : option ClientConfig)
  : PipelinePosition.PipelinePosition :=
  match c with
  | None => PipelinePosition.INTERIOR
  | Some c => stage_position task.(stage) (resolve_pipeline_stages task c)
  end.

Definition resolve_signoff (task : TicketTask) (clients : Clients)
  (config : OrchestratorConfig) : option string :=
  match task.(signoff) with
  | Some s => Some s
  | None =>
      match (c ← clients !! task.(client); lane_walk lc_signoff task.(lane) (effective_lanes c))
      with
      | Some s => Some s
      | None => if String.eqb config.(default_signoff) "none" then None
                else Some config.(default_signoff)
      end
  end.

Definition resolve_hold_finalize (task : TicketTask) (clients : Clients)
  (config : OrchestratorConfig) : option string :=
  match task.(hold_finalize) with
  | Some s => Some s
  | None =>
      match (c ← clients !! task.(client);
             lane_walk lc_finalize_gate task.(lane) (effective_lanes c))
      with
      | Some s => Some s
      | None => if String.eqb config.(default_finalize_gate) "auto" then None
                else Some config.(default_finalize_gate)
      end
  end.

(** A client whose pipeline and lane pipelines passed the validator. *)
Definition client_wf (c : ClientConfig) : Prop :=
  _stages_unique c.(cc_pipeline) = true
  ∧ ∀ l p, l ∈ c.(cc_lanes) → l.(lc_pipeline) = Some p → _stages_unique p = true.

(** ** The lane walk *)

Lemma lane_walk_Some {A} (f : LaneConfig → option A) name ls a :
  lane_walk f name ls = Some a → ∃ l, l ∈ ls ∧ l.(lc_name) = name ∧ f l = Some a.
Proof.
  induction ls as [|l ls IH]; simpl; [done|].
  destruct (String.eqb_spec (lc_name l) name).
  - destruct (f l) eqn:Hf; [intros [= <-]; exists l; set_solver|].
    intros (l' & ? & ? & ?)%IH. exists l'. set_solver.
  - intros (l' & ? & ? & ?)%IH. exists l'. set_solver.
Qed.

(** Lanes named otherwise do not matter to the walk. *)
Lemma lane_walk_filter {A} (f : LaneConfig → option A) name ls :
  lane_walk f name ls = lane_walk f name (filter (λ l, l.(lc_name) = name) ls).
Proof.
  induction ls as [|l ls IH]; [done|]. rewrite filter_cons. simpl.
  destruct (String.eqb_spec (lc_name l) name); [rewrite decide_True by done|
    by rewrite decide_False by done].
  simpl. rewrite (proj2 (String.eqb_eq _ _)) by done. destruct (f l); [done|apply IH].
Qed.

Lemma resolve_pipeline_stages_unique task c :
  client_wf c → NoDup (resolve_pipeline_stages task c).
Proof.
  intros [Hp Hl]. apply bool_decide_eq_true in Hp.
  unfold resolve_pipeline_stages, _lane_pipeline.
  destruct (negb _); [done|].
  destruct (lane_walk _ _ _) as [p|] eqn:E; [|done].
  apply lane_walk_Some in E as (l & Hin & _ & Hlp).
  destruct (spc_stages p) as [st|] eqn:Hst; [|done].
  unfold effective_lanes in Hin.
  destruct (cc_lanes c) as [|l0 ls] eqn:Hc.
  - apply list_elem_of_singleton in Hin as ->. done.
  - assert (Hin' : l ∈ l0 :: ls) by done.
    specialize (Hl l p Hin' Hlp).
    apply bool_decide_eq_true in Hl. unfold spc_effective in Hl. by rewrite Hst in Hl.
Qed.

#[export] Hint Resolve resolve_pipeline_stages_unique : cw.
