(* ===== verification/LanePause.v ===== *)
(** * Lane overrides and the pause cause: [cw/lane_pause.py],
      [models/orchestrator_config/concurrency.py]

    The persisted per-lane and per-client overrides, the two breaker
    predicates the dispatch breaker and the ticket view share, and the pause
    view an operator reads ([build_lane_pause_view] and its text lines). *)

From S2P Require Import Prelude.
From S2P Require Import PyStr.
From S2P Require Import Enums.
From S2P Require Import Tasks.
From S2P Require Import Vocab.
From S2P Require Import Clients.

#[local] Open Scope cw_scope.

(** ** The override store *)

Record LaneConcurrencyOverride := mkLaneOverride {
  max_parallel : option Z;
  paused : option bool;
  consecutive_spawn_errors : Z;
  lane_starved_notify_next_eligible_at : option Z;
  consecutive_worktree_errors : Z;
  paused_at : option Z;
  pause_source : option string;
  pause_trigger : option string;
  recent_spawn_errors : list string;
  circuit_trip_streak : Z;
  circuit_auto_resume_at : option Z;
  circuit_half_open : bool }.

#[export] Instance LaneConcurrencyOverride_eta : RecordEta LaneConcurrencyOverride := λ o,
  mkLaneOverride o.(max_parallel) o.(paused) o.(consecutive_spawn_errors)
    o.(lane_starved_notify_next_eligible_at) o.(consecutive_worktree_errors) o.(paused_at)
    o.(pause_source) o.(pause_trigger) o.(recent_spawn_errors) o.(circuit_trip_streak)
    o.(circuit_auto_resume_at) o.(circuit_half_open).
#[export] Instance upd_paused : Updater paused := ltac:(derive_updater).
#[export] Instance upd_cse : Updater consecutive_spawn_errors := ltac:(derive_updater).
#[export] Instance upd_lsn : Updater lane_starved_notify_next_eligible_at :=
  ltac:(derive_updater).
#[export] Instance upd_cwe : Updater consecutive_worktree_errors := ltac:(derive_updater).
#[export] Instance upd_paused_at : Updater paused_at := ltac:(derive_updater).
#[export] Instance upd_pause_source : Updater pause_source := ltac:(derive_updater).
#[export] Instance upd_pause_trigger : Updater pause_trigger := ltac:(derive_updater).
#[export] Instance upd_recent : Updater recent_spawn_errors := ltac:(derive_updater).
#[export] Instance upd_streak : Updater circuit_trip_streak := ltac:(derive_updater).
#[export] Instance upd_resume_at : Updater circuit_auto_resume_at := ltac:(derive_updater).
#[export] Instance upd_half_open : Updater circuit_half_open := ltac:(derive_updater).

#[export] Instance LaneConcurrencyOverride_eq_dec : EqDecision LaneConcurrencyOverride.
Proof. solve_decision. Defined.

(** [LaneConcurrencyOverride()]. *)
Definition new_lane_override : LaneConcurrencyOverride :=
  mkLaneOverride None None 0 None 0 None None None [] 0 None false.

Record ClientConcurrencyOverride := mkClientOverride {
  ceiling : option Z;
  consecutive_freshness_blocks : Z;
  dispatch_stale_notify_next_eligible_at : option Z }.

#[export] Instance ClientConcurrencyOverride_eta : RecordEta ClientConcurrencyOverride := λ o,
  mkClientOverride o.(ceiling) o.(consecutive_freshness_blocks)
    o.(dispatch_stale_notify_next_eligible_at).
#[export] Instance upd_cfb : Updater consecutive_freshness_blocks := ltac:(derive_updater).

Definition new_client_override : ClientConcurrencyOverride := mkClientOverride None 0 None.

Record ConcurrencyOverrides := mkConcurrencyOverrides {
  max_parallel_clients : option Z;
  co_clients : gmap string ClientConcurrencyOverride;
  co_lanes : gmap string LaneConcurrencyOverride }.

#[export] Instance ConcurrencyOverrides_eta : RecordEta ConcurrencyOverrides := λ o,
  mkConcurrencyOverrides o.(max_parallel_clients) o.(co_clients) o.(co_lanes).
#[export] Instance upd_co_clients : Updater co_clients := ltac:(derive_updater).
#[export] Instance upd_co_lanes : Updater co_lanes := ltac:(derive_updater).

(** The override-dict key of a lane. *)
Definition lane_key (client_name lane_name : string) : string :=
  client_name +:+ "/" +:+ lane_name.

(** The lane loop of [load_effective_clients]: an override's non-None
    [paused] wins over the declared one. *)
Definition effective_paused (overrides : ConcurrencyOverrides) (client_name : string)
  (l : LaneConfig) : bool :=
  match overrides.(co_lanes) !! lane_key client_name l.(lc_name) with
  | Some o => match o.(paused) with Some b => b | None => l.(lc_paused) end
  | None => l.(lc_paused)
  end.

(** ** Pause sources and triggers *)

Module LanePauseSource.
Inductive LanePauseSource := CIRCUIT_BREAKER | OPERATOR | LEGACY | DECLARED.

#[export] Instance lane_pause_source_eq_dec : EqDecision LanePauseSource.
Proof. solve_decision. Defined.

Definition source_value (s : LanePauseSource) : string :=
  match s with
  | CIRCUIT_BREAKER => "circuit_breaker"
  | OPERATOR => "operator"
  | LEGACY => "legacy"
  | DECLARED => "declared"
  end.
End LanePauseSource.
Export (hints) LanePauseSource.

Module LanePauseTrigger.
Inductive LanePauseTrigger := SPAWN_ERRORS | WORKTREE_ERRORS.

#[export] Instance lane_pause_trigger_eq_dec : EqDecision LanePauseTrigger.
Proof. solve_decision. Defined.

Definition trigger_value (t : LanePauseTrigger) : string :=
  match t with
  | SPAWN_ERRORS => "spawn_errors"
  | WORKTREE_ERRORS => "worktree_errors"
  end.
End LanePauseTrigger.
Export (hints) LanePauseTrigger.

Definition WORKTREE_BREAKER_MULTIPLIER : Z := 3.

Definition worktree_breaker_threshold (threshold : Z) : Z :=
  (WORKTREE_BREAKER_MULTIPLIER * threshold)%Z.

Definition breaker_tripped (override : LaneConcurrencyOverride) (threshold : Z) : bool :=
  Z.leb threshold override.(consecutive_spawn_errors)
  || Z.leb (worktree_breaker_threshold threshold) override.(consecutive_worktree_errors).

(** ** The operator's view of a pause *)

Record LanePauseView := mkLanePauseView {
  v_client : string;
  v_lane : string;
  v_source : LanePauseSource.LanePauseSource;
  v_trigger : option LanePauseTrigger.LanePauseTrigger;
  v_since : option Z;
  v_trip_streak : Z;
  v_recent_errors : list string;
  v_auto_resume_at : option Z;
  v_auto_resume_enabled : bool;
  v_resume_command : string }.

Definition _PERSISTED_SOURCES (s : option string) : option LanePauseSource.LanePauseSource :=
  if opt_is s (LanePauseSource.source_value LanePauseSource.CIRCUIT_BREAKER)
  then Some LanePauseSource.CIRCUIT_BREAKER
  else if opt_is s (LanePauseSource.source_value LanePauseSource.OPERATOR)
  then Some LanePauseSource.OPERATOR
  else None.

Definition _PERSISTED_TRIGGERS (s : option string)
  : option LanePauseTrigger.LanePauseTrigger :=
  if opt_is s (LanePauseTrigger.trigger_value LanePauseTrigger.SPAWN_ERRORS)
  then Some LanePauseTrigger.SPAWN_ERRORS
  else if opt_is s (LanePauseTrigger.trigger_value LanePauseTrigger.WORKTREE_ERRORS)
  then Some LanePauseTrigger.WORKTREE_ERRORS
  else None.

Definition is_paused_by (o : LaneConcurrencyOverride) : bool :=
  match o.(paused) with Some b => b | None => false end.

Definition build_lane_pause_view (client_name lane_name : string)
  (override : option LaneConcurrencyOverride) (auto_resume_enabled : bool) : LanePauseView :=
  let resume_command := "cw lane resume " +:+ client_name +:+ " " +:+ lane_name in
  let declared := mkLanePauseView client_name lane_name LanePauseSource.DECLARED None None 0
                    [] None auto_resume_enabled resume_command in
  match override with
  | None => declared
  | Some o =>
      if negb (is_paused_by o) then declared
      else
        let source := default LanePauseSource.LEGACY (_PERSISTED_SOURCES o.(pause_source)) in
        let breaker := bool_decide (source = LanePauseSource.CIRCUIT_BREAKER) in
        mkLanePauseView client_name lane_name source
          (if breaker then _PERSISTED_TRIGGERS o.(pause_trigger) else None)
          o.(paused_at)
          (if breaker then o.(circuit_trip_streak) else 0%Z)
          o.(recent_spawn_errors)
          (if breaker && auto_resume_enabled then o.(circuit_auto_resume_at) else None)
          auto_resume_enabled resume_command
  end.

(** *** The text block *)

Open Scope Z_scope.

(** [format_compact_age]: minutes, hours or days; a negative age is [0m]. *)
Definition format_compact_age (delta : Z) : string :=
  let delta := Z.max delta 0 in
  if delta <? 60 * MINUTE then str_of_Z (delta / MINUTE) +:+ "m"
  else if delta <? 24 * 60 * MINUTE then str_of_Z (delta / (60 * MINUTE)) +:+ "h"
  else str_of_Z (delta / (24 * 60 * MINUTE)) +:+ "d".

(** [iso_z]: whole seconds, UTC, [Z] suffix. *)
Definition iso_z (t : Z) : string :=
  let secs := t / MICROS in
  let sod := secs mod 86400 in
  let '(y, m, d) := civil_of_days (secs / 86400) in
  str_of_Z y +:+ "-" +:+ zero_pad 2 m +:+ "-" +:+ zero_pad 2 d +:+ "T"
  +:+ zero_pad 2 (sod / 3600) +:+ ":" +:+ zero_pad 2 (sod / 60 mod 60) +:+ ":"
  +:+ zero_pad 2 (sod mod 60) +:+ "Z".

Close Scope Z_scope.

Definition _since_text (since : option Z) (now : Z) : string :=
  match since with
  | None => "unknown"
  | Some s => iso_z s +:+ " (" +:+ format_compact_age (now - s)%Z +:+ " ago)"
  end.

Definition _TRIGGER_TEXT (t : option LanePauseTrigger.LanePauseTrigger) : string :=
  match t with
  | Some LanePauseTrigger.WORKTREE_ERRORS => "worktree setup errors"
  | _ => "spawn errors"
  end.

Definition _first_line (view : LanePauseView) (now : Z) : string :=
  match view.(v_source) with
  | LanePauseSource.CIRCUIT_BREAKER =>
      "paused since " +:+ _since_text view.(v_since) now +:+ " by circuit_breaker ("
      +:+ _TRIGGER_TEXT view.(v_trigger) +:+ ", trip #" +:+ str_of_Z view.(v_trip_streak)
      +:+ ")"
  | LanePauseSource.OPERATOR =>
      "paused since " +:+ _since_text view.(v_since) now +:+ " by operator"
  | LanePauseSource.LEGACY => "paused: legacy, since unknown (no pause metadata recorded)"
  | LanePauseSource.DECLARED => "paused: declared in clients.yaml"
  end.

Definition _auto_resume_text (view : LanePauseView) (now : Z) : string :=
  match view.(v_source) with
  | LanePauseSource.OPERATOR => "no (operator-held)"
  | LanePauseSource.LEGACY => "no (legacy pause is operator-held)"
  | LanePauseSource.DECLARED => "no (declared in clients.yaml)"
  | LanePauseSource.CIRCUIT_BREAKER =>
      match view.(v_auto_resume_at) with
      | None =>
          if view.(v_auto_resume_enabled)
          then "no schedule (tripped before auto-resume was enabled)"
          else "off (lane_circuit_auto_resume_minutes=0)"
      | Some at_ =>
          if Z.ltb now at_
          then iso_z at_ +:+ " (in " +:+ format_compact_age (at_ - now)%Z +:+ ")"
          else iso_z at_ +:+ " (due; resumes on the next dispatch tick)"
      end
  end.

Definition render_lane_pause_lines (view : LanePauseView) (now : Z) : list string :=
  [_first_line view now]
  ++ (match view.(v_recent_errors) with
      | [] => []
      | errors => "  last spawn errors (oldest first):"
                  :: map (λ e, "    - " +:+ e) errors
      end)
  ++ ["  auto-resume: " +:+ _auto_resume_text view now;
      "  resume: " +:+ view.(v_resume_command)
      +:+ (if bool_decide (view.(v_source) = LanePauseSource.DECLARED)
           then " (overrides clients.yaml), or remove paused: true from clients.yaml"
           else "")].

Example render_ex :
  render_lane_pause_lines
    (build_lane_pause_view "acme" "default"
       (Some (mkLaneOverride None (Some true) 3 None 0 (Some 1786492800000000%Z)
          (Some "circuit_breaker") (Some "spawn_errors") ["boom"] 2
          (Some 1786494600000000%Z) false)) true) 1786492920000000%Z
  = ["paused since 2026-08-12T00:00:00Z (2m ago) by circuit_breaker (spawn errors, trip #2)";
     "  last spawn errors (oldest first):";
     "    - boom";
     "  auto-resume: 2026-08-12T00:30:00Z (in 28m)";
     "  resume: cw lane resume acme default"].
Proof. vm_compute. reflexivity. Qed.
