(* ===== verification/Crud.v ===== *)
(** * The dev queue: [dev_queue/crud.py], [dev_queue/adoption.py],
      [lifecycle.wait_for_terminal]

    The queue file as a store of rows, and the operator-facing mutations of
    it.  Each runs under the queue lock as one load-mutate-save; a raise
    before the save leaves the file as it was, since the mutated copy is
    dropped.  [id(t)] is a row's position. *)

From S2P Require Import Prelude.
From S2P Require Import PyStr.
From S2P Require Import Enums.
From S2P Require Import Tasks.
From S2P Require Import World.
From S2P Require Import Vocab.
From S2P Require Import Lifecycle.
From S2P Require Import Clients.

#[local] Open Scope cw_scope.

(** The queue file, the inbox, the clock; [q_saves] counts the file's writes. *)
Record QueueWorld := mkQueueWorld {
  q_store : DevQueueStore;
  q_events : list event;
  q_ticks : nat;
  q_saves : nat }.

#[export] Instance QueueWorld_eta : RecordEta QueueWorld := λ w,
  mkQueueWorld w.(q_store) w.(q_events) w.(q_ticks) w.(q_saves).
#[export] Instance upd_q_events : Updater q_events := ltac:(derive_updater).
#[export] Instance upd_q_ticks : Updater q_ticks := ltac:(derive_updater).

Definition set_tasks (ts : list TicketTask) (q : DevQueueStore) : DevQueueStore :=
  mkDevQueueStore q.(schema_version) ts q.(watched_prs).
Definition set_watched (ws : list WatchedPr) (q : DevQueueStore) : DevQueueStore :=
  mkDevQueueStore q.(schema_version) q.(tasks) ws.

Definition _UNMOVABLE_STATUSES : gset queue_status :=
  {[ QueueItemStatus.RUNNING; QueueItemStatus.BLOCKED_ON_USER;
     QueueItemStatus.AWAITING_OPERATOR_SIGNOFF ]}.
Definition _APPROVABLE_STATUSES : gset queue_status :=
  {[ QueueItemStatus.BLOCKED_ON_USER; QueueItemStatus.AWAITING_OPERATOR_SIGNOFF ]}.
Definition DEFAULT_PRUNE_OLDER_THAN_DAYS : Z := 90.
Definition TASK_DELETED : string := "task.deleted".
Definition WATCHED_PR_COLLISION : string := "watched_pr.collision".
Definition _GH_PR_STATE_OPEN : string := "OPEN".

(** The row of a (ticket, client) pair. *)
Definition is_row (tid cl : string) (t : TicketTask) : bool :=
  String.eqb t.(ticket_id) tid && String.eqb t.(client) cl.

Definition rows_of (tid cl : string) (ts : list TicketTask) : list TicketTask :=
  filter (λ t, is_row tid cl t = true) ts.

(** ** Adoption conflicts *)

Definition _LIVE_STATUSES : gset queue_status :=
  {[ QueueItemStatus.PENDING; QueueItemStatus.RUNNING; QueueItemStatus.BLOCKED_ON_USER;
     QueueItemStatus.AWAITING_OPERATOR_SIGNOFF ]}.

Definition is_live_row (task : TicketTask) : bool :=
  if bool_decide (task.(status) ∈ _LIVE_STATUSES) then true
  else if negb (bool_decide (task.(status) = QueueItemStatus.COMPLETED)) then false
  else match task.(pr_state) with
       | None => is_Some_b task.(pr_url)
       | Some s => String.eqb s.(prs_state) _GH_PR_STATE_OPEN
       end.

Definition resolve_feature_branch (tid : string) (c : option ClientConfig)
  (task : option TicketTask) : string :=
  let prefix := match c with Some c => c.(cc_feature_branch_prefix) | None => "dev" end in
  match (t ← task; t.(branch)) with
  | Some b => if String.eqb b "" then prefix +:+ "/" +:+ tid else b
  | None => prefix +:+ "/" +:+ tid
  end.

(** One row of the conflict scan. *)
Definition adoption_clash (client_cfg : option ClientConfig) (task existing : TicketTask)
  : bool :=
  String.eqb existing.(client) task.(client)
  && (String.eqb existing.(ticket_id) task.(ticket_id)
      || is_live_row existing
         && (is_Some_b existing.(adopted_pr_url)
               && bool_decide (existing.(adopted_pr_url) = task.(adopted_pr_url))
             || String.eqb (resolve_feature_branch existing.(ticket_id) client_cfg (Some existing))
                  (resolve_feature_branch task.(ticket_id) client_cfg (Some task)))).

(** The pin's compare-and-set ([_compare_and_set_pin]): the first adopted row
    of the pair. *)
Definition _find_adopted_row (ts : list TicketTask) (cl tid : string)
  : option (nat * TicketTask) :=
  list_find (λ t, String.eqb t.(client) cl && String.eqb t.(ticket_id) tid
                  && is_Some_b t.(adopted_head_sha) = true) ts.

(** ** Row selection *)

(** [max(tasks, key=created_at)]: the first of the newest. *)
Fixpoint newest_from (best : TicketTask) (ts : list TicketTask) : TicketTask :=
  match ts with
  | [] => best
  | t :: ts' => newest_from (if Z.ltb best.(created_at) t.(created_at) then t else best) ts'
  end.

Definition _newest_by_created_at (ts : list TicketTask) : option TicketTask :=
  match ts with [] => None | t :: ts' => Some (newest_from t ts') end.

Definition is_live_status (s : queue_status) : bool :=
  bool_decide (s = QueueItemStatus.PENDING) || bool_decide (s = QueueItemStatus.RUNNING).

(** [None] is the no-row [CwError]. *)
Definition _find_ticket (store : DevQueueStore) (tid cl : string) : option TicketTask :=
  let matches := rows_of tid cl store.(tasks) in
  let live := filter (λ t, is_live_status t.(status) = true) matches in
  let blocked := filter (λ t, t.(status) ∈ _APPROVABLE_STATUSES) matches in
  match live with
  | _ :: _ => _newest_by_created_at live
  | [] => match blocked with
          | _ :: _ => _newest_by_created_at blocked
          | [] => _newest_by_created_at matches
          end
  end.

Definition _prune_age_basis (task : TicketTask) : Z :=
  default task.(created_at) task.(completed_at).

Definition _select_clear_candidates (cl : string) (st : option queue_status) (t : TicketTask)
  : bool :=
  String.eqb t.(client) cl
  && match st with
     | None => negb (bool_decide (t.(status) ∈ OCCUPIED_LANE_STATUSES))
     | Some s => bool_decide (t.(status) = s)
     end.

Definition DAY : Z := (86400 * MICROS)%Z.

(** The refusals of [_select_prune_candidates], in order. *)
Definition prune_refused (statuses : gset queue_status) (older_than_days : Z)
  (cl : option string) (all_clients : bool) : bool :=
  (negb (is_Some_b cl) && negb all_clients)
  || (is_Some_b cl && all_clients)
  || negb (bool_decide (statuses ∩ OCCUPIED_LANE_STATUSES = ∅))
  || (bool_decide (QueueItemStatus.PENDING ∈ statuses) && all_clients)
  || Z.ltb older_than_days 0.

Definition _select_prune_candidates (statuses : gset queue_status) (cutoff : Z)
  (cl : option string) (all_clients : bool) (t : TicketTask) : bool :=
  bool_decide (t.(status) ∈ statuses)
  && (all_clients || bool_decide (Some t.(client) = cl))
  && Z.ltb (_prune_age_basis t) cutoff.

(** [list(filter)] and its complement. *)
Definition selected (p : TicketTask → bool) (ts : list TicketTask) : list TicketTask :=
  filter (λ t, p t = true) ts.
Definition unselected (p : TicketTask → bool) (ts : list TicketTask) : list TicketTask :=
  filter (λ t, p t = false) ts.

Definition deleted_event (reason : string) (removed : TicketTask) : event :=
  mkEvent TASK_DELETED
    [("ticket_id", JStr removed.(ticket_id));
     ("client", JStr removed.(client));
     ("stage", stage_json removed.(stage));
     ("status_at_deletion", JStr (QueueItemStatus.status_value removed.(status)));
     ("reason", JStr reason)]
    (Some removed.(ticket_id)).

(** ** The operations *)

Section Crud.
Context {C : Clock}.

Definition load_dev_queue : M QueueWorld DevQueueStore := gets q_store.

Definition save_dev_queue (store : DevQueueStore) : M QueueWorld unit :=
  modify (λ w, mkQueueWorld store w.(q_events) w.(q_ticks) (S w.(q_saves))).

Definition q_now : M QueueWorld Z := λ w,
  (inr (clock_at w.(q_ticks)), w <| q_ticks := S w.(q_ticks) |>).

Definition q_record (evs : list event) : M QueueWorld unit :=
  modify (λ w, w <| q_events := w.(q_events) ++ evs |>).

(** A row operation on one row of the loaded store: it appends its events and
    reads the clock of the queue. *)
Definition on_row (t : TicketTask) (m : M World unit) : M QueueWorld TicketTask := λ q,
  let '(r, w) := m (mkWorld t q.(q_events) q.(q_ticks)) in
  (match r with inl e => inl e | inr _ => inr (w_task w) end,
   q <| q_events := w_events w |> <| q_ticks := w_ticks w |>).

(** [_active | _parked] of [add_ticket]. *)
Definition is_open_status (s : queue_status) : bool := bool_decide (s ∈ _LIVE_STATUSES).

(** One row of the dedup loop. *)
Definition blocks_add (task existing : TicketTask) : bool :=
  is_row task.(ticket_id) task.(client) existing
  && (is_open_status existing.(status)
      || (bool_decide (existing.(status) = QueueItemStatus.COMPLETED)
          || bool_decide (existing.(status) = QueueItemStatus.CANCELLED))
         && bool_decide (existing.(stage) = task.(stage))).

Definition _validate_stage_in_pipeline (s : StageT) (stages : list StageT)
  : M QueueWorld unit :=
  if bool_decide (s ∈ stages) then mret tt else raise RequeueStageError.

(** The lane and stage checks of a known client; returns the row with its
    high-water mark raised for a later entry stage. *)
Definition admit_task (task : TicketTask) (c : ClientConfig) : M QueueWorld TicketTask :=
  if negb (bool_decide (task.(lane) ∈ map lc_name (effective_lanes c)))
  then raise LaneNotFoundError
  else
    let stages := resolve_pipeline_stages task c in
    _validate_stage_in_pipeline task.(stage) stages ;;
    if bool_decide (task.(stage) = DEFAULT_STAGE) then mret task
    else on_row task (_raise_stage_high_water stages task.(stage)).

Definition add_ticket (clients : Clients) (task : TicketTask) : M QueueWorld bool :=
  let client_cfg := clients !! task.(client) in
  task ← match client_cfg with None => mret task | Some c => admit_task task c end;
  store ← load_dev_queue;
  if is_Some_b task.(adopted_pr_url) && existsb (adoption_clash client_cfg task) store.(tasks)
  then raise AdoptionRefusedError
  else if existsb (blocks_add task) store.(tasks) then mret false
  else
    save_dev_queue (set_tasks (store.(tasks) ++ [task]) store) ;;
    mret true.

(** *** Watched PRs *)

Definition same_active_watch (watched existing : WatchedPr) : bool :=
  String.eqb existing.(wp_repo) watched.(wp_repo)
  && Z.eqb existing.(wp_pr_number) watched.(wp_pr_number)
  && String.eqb existing.(wp_status) "active".

Definition register_watched_pr (watched : WatchedPr) : M QueueWorld bool :=
  store ← load_dev_queue;
  if existsb (same_active_watch watched) store.(watched_prs) then mret false
  else
    save_dev_queue (set_watched (store.(watched_prs) ++ [watched]) store) ;;
    mret true.

Definition watch_with_client (cl : option string) (e : WatchedPr) : WatchedPr :=
  mkWatchedPr e.(wp_pr_url) e.(wp_repo) e.(wp_pr_number) e.(wp_requested_at)
    e.(wp_requester_login) e.(wp_source) e.(wp_status) cl e.(wp_pr_state).

(** The loop stops at the first active watch of the PR. *)
Definition register_or_adopt_watched_pr (watched : WatchedPr) : M QueueWorld string :=
  store ← load_dev_queue;
  match list_find (λ e, same_active_watch watched e = true) store.(watched_prs) with
  | Some (i, existing) =>
      match existing.(wp_client) with
      | None =>
          save_dev_queue (set_watched
            (<[i := watch_with_client watched.(wp_client) existing]> store.(watched_prs)) store) ;;
          mret "adopted"
      | Some cl =>
          if bool_decide (Some cl = watched.(wp_client)) then mret "already_active"
          else
            q_record [mkEvent WATCHED_PR_COLLISION
              [("client", of_opt_str watched.(wp_client));
               ("repo", JStr watched.(wp_repo));
               ("pr_number", JInt watched.(wp_pr_number));
               ("colliding_client", JStr cl);
               ("colliding_source", JStr existing.(wp_source))] watched.(wp_client)] ;;
            mret "collision"
      end
  | None =>
      save_dev_queue (set_watched (store.(watched_prs) ++ [watched]) store) ;;
      mret "inserted"
  end.

(** *** Removal *)

(** Drop the selected rows, save, then one event per dropped row. *)
Definition drop_rows (p : TicketTask → bool) (reason : string)
  : M QueueWorld (list TicketTask) :=
  store ← load_dev_queue;
  let removed := selected p store.(tasks) in
  save_dev_queue (set_tasks (unselected p store.(tasks)) store) ;;
  q_record (map (deleted_event reason) removed) ;;
  mret removed.

Definition remove_selector (tid cl : string) (st : option queue_status)
  (disp : option string) (t : TicketTask) : bool :=
  is_row tid cl t
  && match st with None => true | Some s => bool_decide (t.(status) = s) end
  && match disp with None => true | Some d => bool_decide (t.(disposition) = Some d) end.

Definition remove_ticket (tid cl : string) (remove_all : bool) (st : option queue_status)
  (disp : option string) : M QueueWorld unit :=
  store ← load_dev_queue;
  let n := length (selected (remove_selector tid cl st disp) store.(tasks)) in
  if Nat.eqb n 0 then raise (CwError "No dev-queue task found")
  else if Nat.ltb 1 n && negb remove_all then raise (CwError "Multiple dev-queue tasks")
  else drop_rows (remove_selector tid cl st disp) "operator_remove" ;; mret tt.

Definition clear_tickets (cl : string) (st : option queue_status)
  : M QueueWorld (list TicketTask) :=
  drop_rows (_select_clear_candidates cl st) "operator_clear".

(** The clock is read after the refusals. *)
Definition prune_tickets (statuses : gset queue_status) (older_than_days : Z)
  (cl : option string) (all_clients : bool) : M QueueWorld (list TicketTask) :=
  if prune_refused statuses older_than_days cl all_clients
  then raise (CwError "prune refused")
  else
    now ← q_now;
    drop_rows (_select_prune_candidates statuses (now - older_than_days * DAY)%Z cl all_clients)
      "operator_prune".

(** *** Cancel *)

(** The loop over the rows: cancelled rows and the cleared session ids. *)
Fixpoint cancel_rows (tid cl : string) (ts : list TicketTask)
  : M QueueWorld (list TicketTask * list (option string)) :=
  match ts with
  | [] => mret ([], [])
  | t :: ts' =>
      if is_row tid cl t && negb (bool_decide (t.(status) = QueueItemStatus.CANCELLED)) then
        t' ← on_row t (transition_task_status QueueItemStatus.CANCELLED None None None true ;;
                       assign (λ t, t <| session_id := None |>));
        r ← cancel_rows tid cl ts';
        mret (t' :: r.1, t.(session_id) :: r.2)
      else
        r ← cancel_rows tid cl ts';
        mret (t :: r.1, r.2)
  end.

Definition cancel_ticket (tid cl : string) : M QueueWorld (list (option string)) :=
  store ← load_dev_queue;
  if bool_decide (rows_of tid cl store.(tasks) = []) then raise (CwError "No dev-queue task found")
  else
    r ← cancel_rows tid cl store.(tasks);
    when (negb (bool_decide (r.2 = []))) (save_dev_queue (set_tasks r.1 store)) ;;
    mret r.2.

Definition running_task_for_session (store : DevQueueStore) (sid : string)
  : option (nat * TicketTask) :=
  list_find (λ t, t.(session_id) = Some sid ∧ t.(status) = QueueItemStatus.RUNNING)
    store.(tasks).

Definition cancel_task_for_session (sid : string) : M QueueWorld bool :=
  store ← load_dev_queue;
  match running_task_for_session store sid with
  | None => mret false
  | Some (i, t) =>
      t' ← on_row t (transition_task_status QueueItemStatus.CANCELLED None None None true ;;
                     assign (λ t, t <| session_id := None |>));
      save_dev_queue (set_tasks (<[i := t']> store.(tasks)) store) ;;
      mret true
  end.

(** *** Move *)

Record MoveResult := mkMoveResult {
  from_lane : option string; mv_to_lane : option string;
  from_priority : option Z; mv_to_priority : option Z }.

(** The target-lane check: an unknown client or an undeclared lane. *)
Definition move_lane_refused (clients : Clients) (cl : string) (to_lane : option string)
  : option exn :=
  match to_lane with
  | None => None
  | Some l =>
      match clients !! cl with
      | None => Some (CwError "Unknown client")
      | Some c => if bool_decide (l ∈ map lc_name (effective_lanes c)) then None
                  else Some LaneNotFoundError
      end
  end.

Definition move_ticket (clients : Clients) (tid cl : string) (to_lane : option string)
  (prio : option Z) : M QueueWorld MoveResult :=
  store ← load_dev_queue;
  match list_find (λ t, is_row tid cl t = true) store.(tasks) with
  | None => raise (CwError "No dev-queue task found")
  | Some (i, task) =>
      match move_lane_refused clients cl to_lane with
      | Some e => raise e
      | None =>
          if is_Some_b prio && negb (bool_decide (task.(status) = QueueItemStatus.PENDING))
          then raise LaneMoveError
          else if is_Some_b to_lane && bool_decide (task.(status) ∈ _UNMOVABLE_STATUSES)
          then raise LaneMoveError
          else
            let moved := match to_lane with Some l => task <| lane := l |> | None => task end in
            let moved := match prio with Some p => moved <| priority := p |> | None => moved end in
            save_dev_queue (set_tasks (<[i := moved]> store.(tasks)) store) ;;
            mret (mkMoveResult (match to_lane with Some _ => Some task.(lane) | None => None end)
                    to_lane
                    (match prio with Some _ => Some task.(priority) | None => None end) prio)
      end
  end.

(** *** The adopted pin *)

Definition _compare_and_set_pin (cl tid expected_old new_pin : string)
  (require_repin_due : bool) : M QueueWorld bool :=
  store ← load_dev_queue;
  match _find_adopted_row store.(tasks) cl tid with
  | None => mret false
  | Some (i, row) =>
      if negb (bool_decide (row.(adopted_head_sha) = Some expected_old))
         || require_repin_due && negb row.(adopted_repin_due)
      then mret false
      else
        save_dev_queue (set_tasks
          (<[i := row <| adopted_head_sha := Some new_pin |> <| adopted_repin_due := false |>]>
             store.(tasks)) store) ;;
        mret true
  end.
End Crud.

(** ** Waiting for a ticket

    [store_at n] is the store as loaded at the n-th poll (the 0-th before the
    loop), after whatever the other processes and the session consumer did;
    [monotonic n] the n-th reading of the monotonic clock. *)
Section Wait.
Context (store_at : nat → DevQueueStore) (monotonic : nat → Z).

Fixpoint wait_loop (fuel : nat) (n : nat) (tid cl : string) (deadline : Z)
  : exn + TicketTask :=
  match fuel with
  | O => inl Diverges
  | S fuel' =>
      match _find_ticket (store_at n) tid cl with
      | None => inl (CwError "No dev-queue task found")
      | Some task =>
          if bool_decide (task.(status) ∈ _TERMINAL_STATUSES) then inr task
          else if Z.leb deadline (monotonic n) then inl TimeoutError
          else wait_loop fuel' (S n) tid cl deadline
      end
  end.

Definition wait_for_terminal (fuel : nat) (tid cl : string) (timeout : Z) : exn + TicketTask :=
  match _find_ticket (store_at 0) tid cl with
  | None => inl (CwError "No dev-queue task found")
  | Some task =>
      if bool_decide (task.(status) ∈ _TERMINAL_STATUSES) then inr task
      else wait_loop fuel 1 tid cl (monotonic 0 + timeout)%Z
  end.
End Wait.
