(* ===== verification/CrudProps.v ===== *)
(** * The queue's contract

    Uniqueness of the open row of a ticket over every CRUD operation, and what
    each operation removes, changes, raises and records. *)

From S2P Require Import Prelude.
From S2P Require Import PyStr.
From S2P Require Import Enums.
From S2P Require Import Tasks.
From S2P Require Import World.
From S2P Require Import Vocab.
From S2P Require Import Lifecycle.
From S2P Require Import Clients.
From S2P Require Import Crud.

#[local] Open Scope cw_scope.

(** ** Open rows *)

Definition row_key (t : TicketTask) : string * string := (t.(ticket_id), t.(client)).

Definition is_open (t : TicketTask) : Prop := is_open_status t.(status) = true.

#[export] Instance is_open_dec t : Decision (is_open t).
Proof. unfold is_open. apply _. Defined.

Definition open_keys (ts : list TicketTask) : list (string * string) :=
  map row_key (filter is_open ts).

(** No ticket has two open rows. *)
Definition one_open_row (ts : list TicketTask) : Prop := NoDup (open_keys ts).

Lemma is_row_true tid cl t : is_row tid cl t = true ↔ row_key t = (tid, cl).
Proof.
  unfold is_row, row_key. rewrite andb_true_iff, !String.eqb_eq.
  split; [by intros [-> ->]|by intros [= -> ->]].
Qed.

Lemma open_keys_app ts us : open_keys (ts ++ us) = open_keys ts ++ open_keys us.
Proof. unfold open_keys. by rewrite filter_app, map_app. Qed.

Lemma open_keys_single t :
  open_keys [t] = if decide (is_open t) then [row_key t] else [].
Proof. unfold open_keys. rewrite filter_cons. by destruct (decide (is_open t)). Qed.

Lemma unselected_sublist p ts : unselected p ts `sublist_of` ts.
Proof. apply sublist_filter. Qed.

Lemma filter_sublist (P : TicketTask → Prop) `{∀ t, Decision (P t)} ts us :
  ts `sublist_of` us → filter P ts `sublist_of` filter P us.
Proof.
  induction 1 as [|t ts us _ IH|t ts us _ IH]; [done|..]; rewrite !filter_cons.
  - destruct (decide (P t)); [by apply sublist_skip|done].
  - destruct (decide (P t)); [by apply sublist_cons|done].
Qed.

Lemma map_sublist {A B} (f : A → B) l k :
  l `sublist_of` k → map f l `sublist_of` map f k.
Proof. induction 1; cbn; by constructor. Qed.

Lemma one_open_sublist ts us : ts `sublist_of` us → one_open_row us → one_open_row ts.
Proof.
  intros Hs Hu. eapply sublist_NoDup; [exact Hu|]. by apply map_sublist, filter_sublist.
Qed.

(** Rows change one for one; an open row afterwards was the same open row. *)
Definition keeps_open (t t' : TicketTask) : Prop :=
  is_open t' → is_open t ∧ row_key t' = row_key t.

Lemma keeps_open_sublist ts ts' :
  Forall2 keeps_open ts ts' → open_keys ts' `sublist_of` open_keys ts.
Proof.
  induction 1 as [|t t' ts ts' Hk _ IH]; [done|].
  unfold open_keys in *. rewrite !filter_cons.
  destruct (decide (is_open t')) as [Ho|Ho].
  - destruct (Hk Ho) as [Ho' Hkey]. rewrite decide_True by done. cbn. rewrite Hkey.
    by apply sublist_skip.
  - destruct (decide (is_open t)); [by apply sublist_cons|done].
Qed.

Lemma keeps_open_refl t : keeps_open t t.
Proof. by intros ?. Qed.

Lemma keeps_open_insert ts i t t' :
  ts !! i = Some t → keeps_open t t' → one_open_row ts → one_open_row (<[i := t']> ts).
Proof.
  intros Hi Hk Hnd. eapply sublist_NoDup; [exact Hnd|]. apply keeps_open_sublist.
  apply Forall2_same_length_lookup_2; [by rewrite length_insert|].
  intros j u u' Hu Hu'. destruct (decide (i = j)) as [->|Hne].
  - rewrite list_lookup_insert_eq in Hu' by by eapply lookup_lt_Some. naive_solver.
  - rewrite list_lookup_insert_ne in Hu' by done.
    assert (u = u') as -> by congruence. apply keeps_open_refl.
Qed.

(** ** Runs *)

Section Runs.
Context {C : Clock}.

(** [add_ticket]'s row at the dedup loop: the high-water mark may be raised. *)
Definition admitted (c : option ClientConfig) (task : TicketTask) : TicketTask :=
  match c with
  | None => task
  | Some c => if bool_decide (task.(stage) = DEFAULT_STAGE) then task
              else lift_high_water (resolve_pipeline_stages task c) task.(stage) task
  end.

Definition add_refused (c : option ClientConfig) (task : TicketTask) : option exn :=
  match c with
  | None => None
  | Some c =>
      if negb (bool_decide (task.(lane) ∈ map lc_name (effective_lanes c)))
      then Some LaneNotFoundError
      else if negb (bool_decide (task.(stage) ∈ resolve_pipeline_stages task c))
      then Some RequeueStageError
      else None
  end.

Lemma admit_run task c q :
  admit_task task c q
  = (match add_refused (Some c) task with
     | Some e => inl e
     | None => inr (admitted (Some c) task)
     end, q).
Proof.
  unfold admit_task, add_refused, _validate_stage_in_pipeline, admitted.
  destruct (negb (bool_decide (lane task ∈ _))); [done|]. unfold mbind, M_bind.
  destruct (decide (stage task ∈ resolve_pipeline_stages task c)) as [Hin|Hin];
    [rewrite (bool_decide_true _ Hin)|by rewrite (bool_decide_false _ Hin)].
  cbn [negb mret M_ret]. destruct (bool_decide (stage task = DEFAULT_STAGE)); [done|].
  unfold on_row. rewrite raise_high_water_run by done. by destruct q.
Qed.

Definition with_tasks (ts : list TicketTask) (q : QueueWorld) : QueueWorld :=
  mkQueueWorld (set_tasks ts q.(q_store)) q.(q_events) q.(q_ticks) (S q.(q_saves)).

Lemma add_run clients task q :
  let c := clients !! task.(client) in
  let task' := admitted c task in
  let ts := q.(q_store).(tasks) in
  add_ticket clients task q
  = match add_refused c task with
    | Some e => (inl e, q)
    | None =>
        if is_Some_b task'.(adopted_pr_url) && existsb (adoption_clash c task') ts
        then (inl AdoptionRefusedError, q)
        else if existsb (blocks_add task') ts then (inr false, q)
        else (inr true, with_tasks (ts ++ [task']) q)
    end.
Proof.
  cbv zeta. unfold add_ticket.
  assert (Hc : (match clients !! client task with None => mret task | Some c => admit_task task c end) q
    = (match add_refused (clients !! client task) task with
       | Some e => inl e | None => inr (admitted (clients !! client task) task) end, q)).
  { destruct (clients !! client task); [apply admit_run|done]. }
  unfold mbind at 1, M_bind at 1. rewrite Hc.
  destruct (add_refused _ task); [done|].
  unfold mbind, M_bind, load_dev_queue, gets. cbn -[adoption_clash blocks_add existsb].
  destruct (_ && existsb (adoption_clash _ _) _); [done|].
  by destruct (existsb (blocks_add _) _).
Qed.

Lemma drop_run p reason q :
  let ts := q.(q_store).(tasks) in
  drop_rows p reason q
  = (inr (selected p ts),
     mkQueueWorld (set_tasks (unselected p ts) q.(q_store))
       (q.(q_events) ++ map (deleted_event reason) (selected p ts)) q.(q_ticks) (S q.(q_saves))).
Proof. done. Qed.

Definition end_session (t : TicketTask) : TicketTask := t <| session_id := None |>.

Lemma end_session_fields t :
  let t' := end_session t in
  t'.(session_id) = None ∧ t'.(status) = t.(status) ∧ row_key t' = row_key t
  ∧ t'.(stage) = t.(stage) ∧ t'.(disposition) = t.(disposition)
  ∧ t'.(unproductive_attempts) = t.(unproductive_attempts).
Proof. cbv zeta. split_and!; reflexivity. Qed.

(** The row a cancel leaves. *)
Definition cancelled_row (n : nat) (t : TicketTask) : TicketTask :=
  let n1 := if cancel_pages t QueueItemStatus.CANCELLED then S n else n in
  end_session (transition_row QueueItemStatus.CANCELLED None None None true (clock_at n)
    (clock_at n1) (clock_at (S n1)) t).

Lemma cancel_row_run t q :
  ∃ q', on_row t (transition_task_status QueueItemStatus.CANCELLED None None None true ;;
                  assign (λ t, t <| session_id := None |>)) q
        = (inr (cancelled_row q.(q_ticks) t), q')
    ∧ q'.(q_store) = q.(q_store) ∧ q'.(q_saves) = q.(q_saves).
Proof.
  unfold on_row. erewrite bind_run by apply transition_run.
  unfold settled, assign, modify. cbn [w_task w_events w_ticks].
  eexists. split; [reflexivity|by split].
Qed.

Definition is_cancelled (t' : TicketTask) : Prop :=
  t'.(status) = QueueItemStatus.CANCELLED ∧ t'.(session_id) = None.

Lemma cancelled_row_spec n t :
  is_cancelled (cancelled_row n t) ∧ row_key (cancelled_row n t) = row_key t
  ∧ (cancelled_row n t).(stage) = t.(stage) ∧ (cancelled_row n t).(disposition) = None
  ∧ (cancelled_row n t).(unproductive_attempts)
    = (t.(unproductive_attempts)
       + if bool_decide (t.(status) = QueueItemStatus.RUNNING) then 1 else 0)%Z.
Proof.
  unfold cancelled_row. cbv zeta. set (r := transition_row _ _ _ _ _ _ _ _ t).
  destruct (end_session_fields r) as (E1 & E2 & E3 & E4 & E5 & E6).
  unfold is_cancelled. rewrite E1, E2, E3, E4, E5, E6. unfold r, row_key.
  rewrite row_ticket_id, row_client, row_stage, row_disposition, row_unproductive.
  split_and!; [apply row_status|reflexivity..|].
  unfold running_exit. destruct (bool_decide (status t = QueueItemStatus.RUNNING)); reflexivity || (symmetry; apply Z.add_0_r).
Qed.

(** The rows a cancel changes. *)
Definition cancel_target (tid cl : string) (t : TicketTask) : bool :=
  is_row tid cl t && negb (bool_decide (t.(status) = QueueItemStatus.CANCELLED)).

Definition cancel_rel (tid cl : string) (t t' : TicketTask) : Prop :=
  if cancel_target tid cl t then ∃ n, t' = cancelled_row n t else t' = t.

Lemma cancel_rows_run tid cl ts q :
  ∃ ts' q', cancel_rows tid cl ts q
    = (inr (ts', map session_id (selected (cancel_target tid cl) ts)), q')
    ∧ Forall2 (cancel_rel tid cl) ts ts'
    ∧ q'.(q_store) = q.(q_store) ∧ q'.(q_saves) = q.(q_saves).
Proof.
  revert q. induction ts as [|t ts IH]; intros q; [by eexists [], q|].
  cbn [cancel_rows]. unfold selected. rewrite filter_cons.
  fold (cancel_target tid cl t).
  destruct (cancel_target tid cl t) eqn:Ht.
  - rewrite decide_True by done. destruct (cancel_row_run t q) as (q1 & Hrun & S1 & V1).
    destruct (IH q1) as (ts' & q' & Hrec & HF & S2 & V2).
    unfold mbind, M_bind in *. rewrite Hrun, Hrec. eexists _, q'. split; [done|].
    split_and!; [|congruence|congruence]. constructor; [|done].
    unfold cancel_rel. rewrite Ht. by eexists.
  - rewrite decide_False by done. destruct (IH q) as (ts' & q' & Hrec & HF & S2 & V2).
    unfold mbind, M_bind in *. rewrite Hrec. eexists _, q'. split; [done|].
    split_and!; [|done|done]. constructor; [|done]. unfold cancel_rel. by rewrite Ht.
Qed.

Lemma cancel_rel_keeps tid cl t t' : cancel_rel tid cl t t' → keeps_open t t'.
Proof.
  unfold cancel_rel. destruct (cancel_target tid cl t).
  - intros [n ->] Ho. exfalso. unfold is_open in Ho.
    destruct (cancelled_row_spec n t) as ([Hs _] & _). by rewrite Hs in Ho.
  - intros ->. apply keeps_open_refl.
Qed.
End Runs.

Section Cancel.
Context {C : Clock}.

Lemma cancel_rel_key tid cl t t' : cancel_rel tid cl t t' → row_key t' = row_key t.
Proof.
  unfold cancel_rel. destruct (cancel_target tid cl t); [|by intros ->].
  intros [n ->]. by destruct (cancelled_row_spec n t) as (_ & H & _).
Qed.

Lemma cancel_rel_rows tid cl ts ts' :
  Forall2 (cancel_rel tid cl) ts ts' → rows_of tid cl ts ≠ [] → rows_of tid cl ts' ≠ [].
Proof.
  unfold rows_of. induction 1 as [|t t' ts ts' Hr _ IH]; [done|]. rewrite !filter_cons.
  apply cancel_rel_key in Hr.
  destruct (decide (is_row tid cl t = true)) as [Hd|Hd], (decide (is_row tid cl t' = true)) as [Hd'|Hd'];
    try done; rewrite is_row_true in Hd, Hd'; congruence.
Qed.

(** A cancelled ticket has nothing left to cancel. *)
Lemma cancel_rel_done tid cl ts ts' :
  Forall2 (cancel_rel tid cl) ts ts' → selected (cancel_target tid cl) ts' = [].
Proof.
  unfold selected. induction 1 as [|t t' ts ts' Hr _ IH]; [done|]. rewrite filter_cons, IH.
  unfold cancel_rel in Hr. destruct (cancel_target tid cl t) eqn:Ht.
  - destruct Hr as [n ->]. destruct (cancelled_row_spec n t) as ([Hs _] & _).
    unfold cancel_target. rewrite Hs, andb_false_r. done.
  - subst t'. by rewrite Ht.
Qed.

Lemma cancel_rel_none tid cl ts :
  selected (cancel_target tid cl) ts = [] → Forall2 (cancel_rel tid cl) ts ts.
Proof.
  unfold selected. induction ts as [|t ts IH]; [constructor|]. rewrite filter_cons.
  destruct (decide (cancel_target tid cl t = true)) as [Hd|Hd]; [done|].
  constructor; [|by apply IH]. unfold cancel_rel. apply not_true_iff_false in Hd. by rewrite Hd.
Qed.

Lemma cancel_outcome tid cl q :
  let ts := q.(q_store).(tasks) in
  rows_of tid cl ts ≠ [] →
  ∃ q', cancel_ticket tid cl q = (inr (map session_id (selected (cancel_target tid cl) ts)), q')
    ∧ Forall2 (cancel_rel tid cl) ts q'.(q_store).(tasks)
    ∧ (selected (cancel_target tid cl) ts = [] →
       q'.(q_store).(tasks) = ts ∧ q'.(q_saves) = q.(q_saves)).
Proof.
  cbv zeta. intros Hn. unfold cancel_ticket, mbind, M_bind, load_dev_queue, gets.
  rewrite (bool_decide_false _ Hn).
  destruct (cancel_rows_run tid cl (tasks (q_store q)) q) as (ts' & q' & Hrun & HF & S1 & V1).
  rewrite Hrun. cbn [fst snd].
  destruct (selected (cancel_target tid cl) (tasks (q_store q))) as [|t l] eqn:E.
  - rewrite bool_decide_true by done. cbn [negb when mret M_ret]. exists q'.
    split; [done|]. rewrite S1. split; [by apply cancel_rel_none|done].
  - rewrite bool_decide_false by done. cbn [negb when]. eexists. split; [reflexivity|].
    by split.
Qed.
End Cancel.

(** ** Operations as a sum *)

Inductive crud_op :=
  | OpAdd (clients : Clients) (task : TicketTask)
  | OpWatch (watched : WatchedPr)
  | OpAdoptWatch (watched : WatchedPr)
  | OpRemove (tid cl : string) (remove_all : bool) (st : option queue_status)
      (disp : option string)
  | OpClear (cl : string) (st : option queue_status)
  | OpPrune (statuses : gset queue_status) (older_than_days : Z) (cl : option string)
      (all_clients : bool)
  | OpCancel (tid cl : string)
  | OpCancelSession (sid : string)
  | OpMove (clients : Clients) (tid cl : string) (to_lane : option string) (prio : option Z)
  | OpPin (cl tid expected_old new_pin : string) (require_repin_due : bool).

Section Ops.
Context {C : Clock}.

Definition run_crud (op : crud_op) : M QueueWorld unit :=
  match op with
  | OpAdd clients task => add_ticket clients task ;; mret tt
  | OpWatch w => register_watched_pr w ;; mret tt
  | OpAdoptWatch w => register_or_adopt_watched_pr w ;; mret tt
  | OpRemove tid cl al st d => remove_ticket tid cl al st d
  | OpClear cl st => clear_tickets cl st ;; mret tt
  | OpPrune ss days cl al => prune_tickets ss days cl al ;; mret tt
  | OpCancel tid cl => cancel_ticket tid cl ;; mret tt
  | OpCancelSession sid => cancel_task_for_session sid ;; mret tt
  | OpMove clients tid cl l p => move_ticket clients tid cl l p ;; mret tt
  | OpPin cl tid old new due => _compare_and_set_pin cl tid old new due ;; mret tt
  end.

Definition run_cruds (ops : list crud_op) (q : QueueWorld) : QueueWorld :=
  foldl (λ q op, exec (run_crud op) q) q ops.

Definition q_tasks (q : QueueWorld) : list TicketTask := q.(q_store).(tasks).

Lemma exec_ignore {A} (m : M QueueWorld A) q : exec (m ;; mret tt) q = exec m q.
Proof. unfold exec, mbind, M_bind. by destruct (m q) as [[e|a] q']. Qed.

Lemma blocks_add_open task ts :
  existsb (blocks_add task) ts = false → row_key task ∉ open_keys ts.
Proof.
  intros Hb Hin. apply list_elem_of_fmap in Hin as (t & Hk & Ht).
  apply list_elem_of_filter in Ht as [Ho Ht].
  apply not_true_iff_false in Hb. apply Hb, existsb_exists. exists t.
  split; [by apply list_elem_of_In|]. unfold blocks_add. rewrite (proj2 (is_row_true _ _ _)) by done.
  unfold is_open in Ho. by rewrite Ho.
Qed.

Lemma add_one_open clients task q :
  one_open_row (q_tasks q) → one_open_row (q_tasks (exec (add_ticket clients task) q)).
Proof.
  intros Hq. unfold exec. rewrite add_run. cbv zeta. destruct (add_refused _ task); [done|].
  destruct (_ && _); [done|]. destruct (existsb (blocks_add _) _) eqn:Hb; [done|].
  unfold q_tasks. cbn [snd with_tasks q_store set_tasks tasks].
  unfold one_open_row. rewrite open_keys_app. apply NoDup_app. split; [done|].
  apply blocks_add_open in Hb. set (t := admitted _ task) in *.
  rewrite open_keys_single. destruct (decide (is_open t)).
  - split; [|apply NoDup_singleton]. intros k Hk ->%list_elem_of_singleton. by apply Hb.
  - split; [|apply NoDup_nil_2]. intros k _ Hk. by apply not_elem_of_nil in Hk.
Qed.

Lemma drop_one_open p reason q :
  one_open_row (q_tasks q) → one_open_row (q_tasks (exec (drop_rows p reason) q)).
Proof. unfold exec. rewrite drop_run. by apply one_open_sublist, unselected_sublist. Qed.

Lemma cancel_one_open tid cl q :
  one_open_row (q_tasks q) → one_open_row (q_tasks (exec (cancel_ticket tid cl) q)).
Proof.
  intros Hq. unfold exec, cancel_ticket, mbind, M_bind, load_dev_queue, gets.
  destruct (bool_decide (rows_of tid cl _ = [])); [done|].
  destruct (cancel_rows_run tid cl (tasks (q_store q)) q) as (ts' & q' & Hrun & HF & S1 & V1).
  rewrite Hrun. cbn [snd fst when]. destruct (bool_decide _); cbn [negb when].
  - unfold q_tasks. cbn. by rewrite S1.
  - unfold q_tasks. cbn. eapply sublist_NoDup; [exact Hq|]. apply keeps_open_sublist.
    eapply Forall2_impl; [exact HF|]. apply cancel_rel_keeps.
Qed.

Lemma list_find_row {P : TicketTask → Prop} `{∀ t, Decision (P t)} ts i t :
  list_find P ts = Some (i, t) → ts !! i = Some t.
Proof. by intros (? & _ & _)%list_find_Some. Qed.

Lemma move_one_open clients tid cl l p q :
  one_open_row (q_tasks q) → one_open_row (q_tasks (exec (move_ticket clients tid cl l p) q)).
Proof.
  intros Hq. unfold exec, move_ticket, mbind, M_bind, load_dev_queue, gets.
  destruct (list_find _ _) as [[i t]|] eqn:Hf; [|done]. apply list_find_row in Hf.
  destruct (move_lane_refused clients cl l); [done|].
  destruct (_ && _); [done|]. destruct (_ && _); [done|].
  unfold q_tasks. cbn [snd save_dev_queue modify q_store set_tasks tasks mret M_ret].
  eapply keeps_open_insert; [exact Hf| |exact Hq].
  intros Ho. destruct l, p; exact (conj Ho eq_refl).
Qed.

Lemma cancel_session_one_open sid q :
  one_open_row (q_tasks q) → one_open_row (q_tasks (exec (cancel_task_for_session sid) q)).
Proof.
  intros Hq. unfold exec, cancel_task_for_session, mbind at 1, M_bind at 1, load_dev_queue, gets.
  unfold running_task_for_session.
  destruct (list_find _ _) as [[i t]|] eqn:Hf; [|done]. apply list_find_row in Hf.
  destruct (cancel_row_run t q) as (q1 & Hrun & S1 & V1).
  unfold mbind at 1, M_bind at 1. rewrite Hrun. unfold q_tasks. cbn.
  eapply keeps_open_insert; [exact Hf| |exact Hq].
  intros Ho. exfalso. unfold is_open in Ho.
  destruct (cancelled_row_spec (q_ticks q) t) as ([Hs _] & _). by rewrite Hs in Ho.
Qed.

Lemma pin_one_open cl tid old new due q :
  one_open_row (q_tasks q) →
  one_open_row (q_tasks (exec (_compare_and_set_pin cl tid old new due) q)).
Proof.
  intros Hq. unfold exec, _compare_and_set_pin, mbind, M_bind, load_dev_queue, gets.
  unfold _find_adopted_row. destruct (list_find _ _) as [[i t]|] eqn:Hf; [|done].
  apply list_find_row in Hf. destruct (_ || _); [done|].
  unfold q_tasks. cbn [snd save_dev_queue modify q_store set_tasks tasks mret M_ret].
  eapply keeps_open_insert; [exact Hf| |exact Hq]. intros Ho. exact (conj Ho eq_refl).
Qed.

Lemma watch_tasks w q : q_tasks (exec (register_watched_pr w) q) = q_tasks q.
Proof.
  unfold exec, register_watched_pr, mbind, M_bind, load_dev_queue, gets.
  by destruct (existsb _ _).
Qed.

Lemma adopt_watch_tasks w q : q_tasks (exec (register_or_adopt_watched_pr w) q) = q_tasks q.
Proof.
  unfold exec, register_or_adopt_watched_pr, mbind, M_bind, load_dev_queue, gets.
  destruct (list_find _ _) as [[i e]|]; [|done]. destruct (wp_client e); [|done].
  by destruct (bool_decide _).
Qed.

Lemma crud_one_open op q :
  one_open_row (q_tasks q) → one_open_row (q_tasks (exec (run_crud op) q)).
Proof.
  intros Hq. destruct op; cbn [run_crud]; rewrite ?exec_ignore.
  - by apply add_one_open.
  - by rewrite watch_tasks.
  - by rewrite adopt_watch_tasks.
  - unfold exec, remove_ticket, mbind at 1, M_bind at 1, load_dev_queue, gets.
    destruct (Nat.eqb _ 0); [done|]. destruct (_ && _); [done|].
    change (one_open_row (q_tasks (exec (drop_rows (remove_selector tid cl st disp)
      "operator_remove" ;; mret tt) q))). rewrite exec_ignore. by apply drop_one_open.
  - by apply drop_one_open.
  - unfold exec, prune_tickets. destruct (prune_refused _ _ _ _); [done|].
    unfold mbind, M_bind, q_now.
    by apply (drop_one_open _ _ (q <| q_ticks := S q.(q_ticks) |>)).
  - by apply cancel_one_open.
  - by apply cancel_session_one_open.
  - by apply move_one_open.
  - by apply pin_one_open.
Qed.
End Ops.

(** ** Selection *)

Lemma selected_spec p ts t : t ∈ selected p ts ↔ p t = true ∧ t ∈ ts.
Proof. unfold selected. by rewrite list_elem_of_filter. Qed.

Lemma newest_from_spec best ts :
  let t := newest_from best ts in
  (t ∈ best :: ts) ∧ ∀ u, u ∈ best :: ts → (u.(created_at) ≤ t.(created_at))%Z.
Proof.
  cbv zeta. revert best. induction ts as [|t ts IH]; intros best; cbn [newest_from].
  { split; [by apply list_elem_of_here|]. intros u ->%list_elem_of_singleton. done. }
  destruct (Z.ltb_spec best.(created_at) t.(created_at)) as [Hlt|Hge].
  - destruct (IH t) as [H1 H2]. split; [set_solver|].
    intros u [->|Hu]%elem_of_cons; [|by apply H2].
    specialize (H2 t ltac:(by apply list_elem_of_here)). lia.
  - destruct (IH best) as [H1 H2]. split; [set_solver|].
    intros u [->|[->|Hu]%elem_of_cons]%elem_of_cons.
    + apply H2. by apply list_elem_of_here.
    + specialize (H2 best ltac:(by apply list_elem_of_here)). lia.
    + apply H2. by apply list_elem_of_further.
Qed.

(** [t] is among [ts] and none of them is newer. *)
Definition newest_of (ts : list TicketTask) (t : TicketTask) : Prop :=
  t ∈ ts ∧ ∀ u, u ∈ ts → (u.(created_at) ≤ t.(created_at))%Z.

Lemma newest_by_spec ts t : _newest_by_created_at ts = Some t → newest_of ts t.
Proof. destruct ts as [|u ts]; [done|]. intros [= <-]. apply newest_from_spec. Qed.

Lemma find_ticket_in store tid cl t :
  _find_ticket store tid cl = Some t → t ∈ rows_of tid cl store.(tasks).
Proof.
  unfold _find_ticket. cbv zeta.
  destruct (filter _ (rows_of _ _ _)) as [|u us] eqn:E1.
  - destruct (filter (λ t, _ ∈ _APPROVABLE_STATUSES) _) as [|u us] eqn:E2; cycle 1;
      intros [Hin _]%newest_by_spec; [|done].
    rewrite <- E2 in Hin. by apply list_elem_of_filter in Hin as [_ Hin].
  - intros [Hin _]%newest_by_spec. rewrite <- E1 in Hin.
    by apply list_elem_of_filter in Hin as [_ Hin].
Qed.

(** A live row is preferred. *)
Lemma find_live store tid cl t u :
  _find_ticket store tid cl = Some t → u ∈ rows_of tid cl store.(tasks) →
  is_live_status u.(status) = true → is_live_status t.(status) = true.
Proof.
  intros Ht Hu Hl. unfold _find_ticket in Ht. cbv zeta in Ht.
  destruct (filter (λ u, is_live_status u.(status) = true) _) as [|v vs] eqn:E.
  - exfalso. assert (Hx : u ∈ []) by (rewrite <- E; by apply list_elem_of_filter).
    by apply not_elem_of_nil in Hx.
  - apply newest_by_spec in Ht as [Hin _]. rewrite <- E in Hin.
    by apply list_elem_of_filter in Hin as [Hin _].
Qed.

(** ** Waiting *)

Section WaitFacts.
Context (store_at : nat → DevQueueStore) (monotonic : nat → Z).

Lemma wait_loop_enough fuel n tid cl deadline k :
  (deadline ≤ monotonic (n + k))%Z → k < fuel →
  ∃ m, n ≤ m ≤ n + k ∧
    match wait_loop store_at monotonic fuel n tid cl deadline with
    | inr t => _find_ticket (store_at m) tid cl = Some t ∧ t.(status) ∈ _TERMINAL_STATUSES
    | inl e => _find_ticket (store_at m) tid cl = None ∧ e = CwError "No dev-queue task found"
               ∨ e = TimeoutError ∧ (deadline ≤ monotonic m)%Z
                 ∧ ∀ i, n ≤ i ≤ m → ∃ t, _find_ticket (store_at i) tid cl = Some t
                                        ∧ t.(status) ∉ _TERMINAL_STATUSES
    end.
Proof.
  revert n k. induction fuel as [|fuel IH]; intros n k Hk Hf; [lia|]. cbn [wait_loop].
  destruct (_find_ticket (store_at n) tid cl) as [t|] eqn:Ht; cycle 1.
  { exists n. split; [lia|]. by left. }
  destruct (decide (t.(status) ∈ _TERMINAL_STATUSES)) as [Hin|Hin];
    [rewrite (bool_decide_true _ Hin)|rewrite (bool_decide_false _ Hin)].
  { exists n. split; [lia|]. done. }
  destruct (Z.leb_spec deadline (monotonic n)) as [Hd|Hd].
  { exists n. split; [lia|]. right. split_and!; [done|done|].
    intros i Hi. replace i with n by lia. eauto. }
  destruct k as [|k]; [rewrite Nat.add_0_r in Hk; lia|].
  destruct (IH (S n) k) as (m & Hm & Hres);
    [by replace (S n + k) with (n + S k) by lia|lia|].
  exists m. split; [lia|]. destruct (wait_loop _ _ _ _ _ _ _) as [e|t']; [|done].
  destruct Hres as [H|(He & Hdm & Hall)]; [by left|right]. split_and!; [done|done|].
  intros i Hi. destruct (decide (i = n)) as [->|]; [by eauto|apply Hall; lia].
Qed.
End WaitFacts.

(** ** Properties *)

Section Properties.
Context {C : Clock}.

(** the queue never holds two open rows (pending, running or parked) of
    one ticket: every add, removal, clear, prune, cancel, move, watch and pin
    operation keeps that, whether it succeeds, refuses or raises. *)
Theorem one_open_row_invariant ops q :
  one_open_row (q_tasks q) → one_open_row (q_tasks (run_cruds ops q)).
Proof.
  unfold run_cruds. revert q. induction ops as [|op ops IH]; intros q Hq; [done|].
  cbn [foldl]. apply IH, crud_one_open, Hq.
Qed.

(** adding a row appends exactly it (with its high-water mark raised for a
    later entry stage) and only when no open row, no finished row of the same
    stage and, for an adopted PR, no conflicting row is there; an undeclared
    lane, a stage outside the pipeline and a conflict raise; whatever is not
    an insertion writes nothing. *)
Theorem add_ticket_correct clients task q :
  let c := clients !! task.(client) in
  let task' := admitted c task in
  let m := add_ticket clients task in
  (result m q = inr true →
     q_tasks (exec m q) = q_tasks q ++ [task']
     ∧ (∀ e, e ∈ q_tasks q → row_key e = row_key task' →
          ¬ is_open e ∧ ((e.(status) = QueueItemStatus.COMPLETED
                          ∨ e.(status) = QueueItemStatus.CANCELLED) → e.(stage) ≠ task'.(stage)))
     ∧ add_refused c task = None
     ∧ (is_Some task'.(adopted_pr_url) → ∀ e, e ∈ q_tasks q → adoption_clash c task' e = false))
  ∧ (result m q ≠ inr true → exec m q = q)
  ∧ (∀ e, add_refused c task = Some e → result m q = inl e).
Proof.
  cbv zeta. unfold result, exec. rewrite add_run. cbv zeta.
  destruct (add_refused _ task) eqn:Hr; [by split_and!; [done| |intros ? [= ->]]|].
  set (t := admitted _ task).
  destruct (is_Some_b (adopted_pr_url t) && existsb _ _) eqn:Ha; [done|].
  destruct (existsb (blocks_add t) _) eqn:Hb; [done|]. cbn [fst snd].
  assert (Hnb : ∀ e, e ∈ q_tasks q → blocks_add t e = false).
  { intros e He. destruct (blocks_add t e) eqn:E; [|done]. exfalso.
    apply not_true_iff_false in Hb. apply Hb, existsb_exists. exists e.
    by split; [apply list_elem_of_In|]. }
  split_and!; [|done|done]. intros _. split_and!; [done| |done|].
  - intros e He Hk. specialize (Hnb e He). unfold blocks_add in Hnb.
    rewrite (proj2 (is_row_true _ _ _)) in Hnb by done. cbn [andb] in Hnb.
    apply orb_false_iff in Hnb as [Ho Hs]. split; [unfold is_open; by rewrite Ho|].
    intros Hst Hsg. rewrite (bool_decide_true _ Hsg), andb_true_r, orb_false_iff,
      !bool_decide_eq_false in Hs. tauto.
  - intros [u Hu] e He. rewrite Hu in Ha. cbn in Ha.
    destruct (adoption_clash _ t e) eqn:E; [|done]. exfalso.
    apply not_true_iff_false in Ha. apply Ha, existsb_exists. exists e.
    by split; [apply list_elem_of_In|].
Qed.

(** pruning never deletes live or parked work: a refused selection writes
    nothing; otherwise exactly the rows of the named statuses, in scope and
    strictly older than the cutoff are removed, none of them occupies a lane,
    a pending row goes only with a single client named, the rest keep their
    order, and each removed row leaves one deletion event. *)
Theorem prune_tickets_safe statuses days cl all_clients q :
  let m := prune_tickets statuses days cl all_clients in
  let cutoff := (clock_at q.(q_ticks) - days * DAY)%Z in
  let p := _select_prune_candidates statuses cutoff cl all_clients in
  if prune_refused statuses days cl all_clients
  then result m q = inl (CwError "prune refused") ∧ exec m q = q
  else result m q = inr (selected p (q_tasks q))
       ∧ q_tasks (exec m q) = unselected p (q_tasks q)
       ∧ (exec m q).(q_events)
         = q.(q_events) ++ map (deleted_event "operator_prune") (selected p (q_tasks q))
       ∧ ∀ t, t ∈ selected p (q_tasks q) →
           t.(status) ∈ statuses ∧ t.(status) ∉ OCCUPIED_LANE_STATUSES
           ∧ (_prune_age_basis t < cutoff)%Z
           ∧ (all_clients = false → cl = Some t.(client))
           ∧ (t.(status) = QueueItemStatus.PENDING → all_clients = false).
Proof.
  cbv zeta. unfold result, exec, prune_tickets.
  destruct (prune_refused statuses days cl all_clients) eqn:Hr; [done|].
  unfold prune_refused in Hr. rewrite !orb_false_iff in Hr.
  destruct Hr as ((((H1 & H2) & H3) & H4) & H5).
  apply negb_false_iff, bool_decide_eq_true in H3.
  unfold mbind, M_bind, q_now. rewrite drop_run. cbn [fst snd q_store q_events].
  split_and!; [done..|]. intros t [Hp Hin]%selected_spec. unfold _select_prune_candidates in Hp.
  rewrite !andb_true_iff, orb_true_iff, bool_decide_eq_true, Z.ltb_lt in Hp.
  destruct Hp as ((Hst & Hcl) & Hage). split_and!; [done|set_solver|done| |].
  - intros ->. destruct Hcl as [?|Hcl%bool_decide_eq_true]; done.
  - intros Hpend. rewrite Hpend in Hst. by rewrite (bool_decide_true _ Hst) in H4.
Qed.

(** cancelling a ticket cancels every row of it that is not cancelled yet
    and frees its session, charging the attempt only to a running row; other
    rows are untouched, the cleared session ids are returned in order, and a
    second cancel changes nothing; a ticket with no row raises. *)
Theorem cancel_ticket_correct tid cl q :
  let m := cancel_ticket tid cl in
  let q' := exec m q in
  if bool_decide (rows_of tid cl (q_tasks q) = [])
  then result m q = inl (CwError "No dev-queue task found") ∧ q' = q
  else result m q = inr (map session_id (selected (cancel_target tid cl) (q_tasks q)))
       ∧ Forall2 (λ t t', if cancel_target tid cl t
                          then is_cancelled t' ∧ row_key t' = row_key t
                               ∧ t'.(stage) = t.(stage)
                               ∧ t'.(unproductive_attempts) = (t.(unproductive_attempts)
                                   + if bool_decide (t.(status) = QueueItemStatus.RUNNING)
                                     then 1 else 0)%Z
                          else t' = t) (q_tasks q) (q_tasks q')
       ∧ result m q' = inr [] ∧ q_tasks (exec m q') = q_tasks q'
       ∧ (exec m q').(q_saves) = q'.(q_saves).
Proof.
  cbv zeta. unfold result, exec.
  destruct (decide (rows_of tid cl (q_tasks q) = [])) as [Hn|Hn];
    [rewrite (bool_decide_true _ Hn)|rewrite (bool_decide_false _ Hn)].
  { unfold cancel_ticket, mbind, M_bind, load_dev_queue, gets. by rewrite (bool_decide_true _ Hn). }
  destruct (cancel_outcome tid cl q Hn) as (q' & Hrun & HF & _).
  rewrite Hrun. cbn [fst snd].
  destruct (cancel_outcome tid cl q' (cancel_rel_rows _ _ _ _ HF Hn)) as (q2 & Hrun2 & HF2 & Hs2).
  rewrite (cancel_rel_done _ _ _ _ HF) in Hrun2, Hs2. rewrite Hrun2. cbn [fst snd].
  destruct (Hs2 eq_refl) as [Ht2 Hv2].
  split_and!; [done| |done|done|done]. eapply Forall2_impl; [exact HF|].
  intros t t'. unfold cancel_rel. destruct (cancel_target tid cl t); [|done].
  intros [n ->]. destruct (cancelled_row_spec n t) as (H1 & H2 & H3 & _ & H5). done.
Qed.
End Properties.

(** a ticket is resolved to its live work: the newest pending or running
    row if there is one, else the newest parked row, else the newest row; no
    row of the ticket, and only that, is an error. *)
Theorem find_ticket_priority store tid cl :
  let rows := rows_of tid cl store.(tasks) in
  let live := λ u, is_live_status u.(status) = true in
  let parked := λ u : TicketTask, u.(status) ∈ _APPROVABLE_STATUSES in
  match _find_ticket store tid cl with
  | None => rows = []
  | Some t =>
      row_key t = (tid, cl) ∧ t ∈ rows
      ∧ ((∃ u, u ∈ rows ∧ live u) → live t ∧ ∀ u, u ∈ rows → live u →
           (u.(created_at) ≤ t.(created_at))%Z)
      ∧ ((∀ u, u ∈ rows → ¬ live u) → (∃ u, u ∈ rows ∧ parked u) →
           parked t ∧ ∀ u, u ∈ rows → parked u → (u.(created_at) ≤ t.(created_at))%Z)
      ∧ ((∀ u, u ∈ rows → ¬ live u ∧ ¬ parked u) →
           ∀ u, u ∈ rows → (u.(created_at) ≤ t.(created_at))%Z)
  end.
Proof.
  cbv zeta. destruct (_find_ticket store tid cl) as [t|] eqn:Ht.
  - pose proof (find_ticket_in _ _ _ _ Ht) as Hin.
    split; [by apply list_elem_of_filter in Hin as [Hin%is_row_true _]|]. split; [done|].
    unfold _find_ticket in Ht. cbv zeta in Ht.
    set (rows := rows_of tid cl (tasks store)) in *.
    assert (Hf : ∀ (P : TicketTask → Prop) `{∀ u, Decision (P u)} x, newest_of (filter P rows) x →
      P x ∧ ∀ u, u ∈ rows → P u → (u.(created_at) ≤ x.(created_at))%Z).
    { intros P ? x [Hx Hn]. apply list_elem_of_filter in Hx as [Hx _]. split; [done|].
      intros u Hu HP. apply Hn. by apply list_elem_of_filter. }
    destruct (filter (λ u, is_live_status u.(status) = true) rows) as [|u us] eqn:E1.
    + assert (Hno : ∀ u, u ∈ rows → is_live_status (status u) ≠ true).
      { intros u Hu Hl. assert (Hx : u ∈ []) by (rewrite <- E1; by apply list_elem_of_filter).
        by apply not_elem_of_nil in Hx. }
      split; [intros (u & Hu & Hl); by destruct (Hno u Hu)|].
      destruct (filter (λ u, status u ∈ _APPROVABLE_STATUSES) rows) as [|u us] eqn:E2.
      * apply newest_by_spec in Ht as [_ Hn]. split; [|auto]. intros _ (u & Hu & Hp).
        assert (Hx : u ∈ []) by (rewrite <- E2; by apply list_elem_of_filter).
        by apply not_elem_of_nil in Hx.
      * apply newest_by_spec in Ht. rewrite <- E2 in Ht. apply Hf in Ht as [Hp Hn].
        split; [by intros _ _|]. intros Hnone. by destruct (Hnone t Hin).
    + apply newest_by_spec in Ht. rewrite <- E1 in Ht. apply Hf in Ht as [Hl Hn].
      split_and!; [done| |]; intros Hnone; by destruct (Hnone t Hin).
  - unfold _find_ticket in Ht. cbv zeta in Ht.
    destruct (filter _ (rows_of _ _ _)); [|done].
    destruct (filter (λ u, _ ∈ _APPROVABLE_STATUSES) _); [|done].
    by destruct (rows_of tid cl (tasks store)).
Qed.

(** waiting terminates and is bounded by the timeout: once some reading of
    the monotonic clock reaches the deadline, that many polls of fuel are
    enough; the wait returns a row in a terminal status as resolved at some
    poll, or raises because the row is gone, or times out - and then only
    after the deadline, with the row unfinished at every poll before. *)
Theorem wait_for_terminal_total (store_at : nat → DevQueueStore) (monotonic : nat → Z)
  tid cl timeout k fuel :
  (monotonic 0%nat + timeout ≤ monotonic (S k))%Z → k < fuel →
  match wait_for_terminal store_at monotonic fuel tid cl timeout with
  | inr t => ∃ m, _find_ticket (store_at m) tid cl = Some t ∧ t.(status) ∈ _TERMINAL_STATUSES
  | inl e =>
      e = CwError "No dev-queue task found" ∧ (∃ m, _find_ticket (store_at m) tid cl = None)
      ∨ e = TimeoutError ∧ ∃ m, 1 ≤ m ≤ S k ∧ (monotonic 0%nat + timeout ≤ monotonic m)%Z
          ∧ ∀ i, i ≤ m → ∃ t, _find_ticket (store_at i) tid cl = Some t
                              ∧ t.(status) ∉ _TERMINAL_STATUSES
  end.
Proof.
  intros Hk Hf. unfold wait_for_terminal.
  destruct (_find_ticket (store_at 0) tid cl) as [t|] eqn:Ht; [|by left; eauto].
  destruct (decide (t.(status) ∈ _TERMINAL_STATUSES)) as [Hin|Hin];
    [rewrite (bool_decide_true _ Hin); by eauto|rewrite (bool_decide_false _ Hin)].
  destruct (wait_loop_enough store_at monotonic fuel 1 tid cl (monotonic 0%nat + timeout)%Z k)
    as (m & Hm & Hres); [done..|].
  destruct (wait_loop _ _ _ _ _ _ _) as [e|t']; [|by exists m].
  destruct Hres as [[Hnone ->]|(-> & Hd & Hall)]; [left; by eauto|right].
  split; [done|]. exists m. split_and!; [lia|lia|done|].
  intros i Hi. destruct i as [|i]; [by eauto|apply Hall; lia].
Qed.

Section Move.
Context {C : Clock}.

Lemma list_find_first (P : TicketTask → Prop) `{∀ t, Decision (P t)} ts us t :
  (∀ u, u ∈ us → ¬ P u) → P t → list_find P (us ++ t :: ts) = Some (length us, t).
Proof.
  intros Hus Ht. apply list_find_Some. split_and!; [|done|].
  - by rewrite lookup_app_r, Nat.sub_diag by lia.
  - intros j u Hj Hlt. apply Hus. rewrite lookup_app_l in Hj by done.
    by eapply list_elem_of_lookup_2.
Qed.

(** moving or re-prioritising acts on the first row of the ticket in file
    order, whatever its status: behind an older finished row of the ticket, a
    pending row can be neither re-prioritised (the edit raises) nor moved to
    another lane (the finished row's lane changes instead), although the
    ticket resolves to the pending row. *)
Theorem move_ticket_takes_first_row clients tid cl c l p before old rest q :
  q_tasks q = before ++ old :: rest →
  (∀ u, u ∈ before → row_key u ≠ (tid, cl)) → row_key old = (tid, cl) →
  old.(status) ∈ ({[ QueueItemStatus.COMPLETED; QueueItemStatus.FAILED;
                     QueueItemStatus.CANCELLED ]} : gset queue_status) →
  clients !! cl = Some c → l ∈ map lc_name (effective_lanes c) →
  result (move_ticket clients tid cl None (Some p)) q = inl LaneMoveError
  ∧ (exec (move_ticket clients tid cl None (Some p)) q) = q
  ∧ q_tasks (exec (move_ticket clients tid cl (Some l) None) q)
    = before ++ (old <| lane := l |>) :: rest
  ∧ (∀ new, new ∈ rest → row_key new = (tid, cl) → new.(status) = QueueItemStatus.PENDING →
       ∀ t, _find_ticket q.(q_store) tid cl = Some t → is_live_status t.(status) = true).
Proof.
  intros Hq Hb Ho Hst Hc Hl. unfold q_tasks in Hq.
  assert (Hf : list_find (λ t, is_row tid cl t = true) (tasks (q_store q))
               = Some (length before, old)).
  { rewrite Hq. apply list_find_first; [|by apply is_row_true].
    intros u Hu Hr%is_row_true. by apply (Hb u Hu). }
  assert (Hne : old.(status) ≠ QueueItemStatus.PENDING ∧ old.(status) ∉ _UNMOVABLE_STATUSES).
  { unfold _UNMOVABLE_STATUSES. clear -Hst. destruct (status old); set_solver. }
  destruct Hne as [Hnp Hnu].
  split_and!.
  - unfold result, move_ticket, mbind, M_bind, load_dev_queue, gets. rewrite Hf. cbn.
    by rewrite (bool_decide_false _ Hnp).
  - unfold exec, move_ticket, mbind, M_bind, load_dev_queue, gets. rewrite Hf. cbn.
    by rewrite (bool_decide_false _ Hnp).
  - unfold exec, move_ticket, mbind, M_bind, load_dev_queue, gets. rewrite Hf.
    unfold move_lane_refused. rewrite Hc, (bool_decide_true _ Hl), (bool_decide_false _ Hnu).
    cbn [is_Some_b andb negb]. unfold q_tasks.
    cbn [snd save_dev_queue modify q_store set_tasks tasks mret M_ret]. rewrite Hq.
    by rewrite insert_app_r_alt, Nat.sub_diag by lia.
  - intros new Hnew Hk Hp t Ht.
    pose proof (find_live q.(q_store) tid cl t new) as Hlive. apply Hlive; [done| |by rewrite Hp].
    apply list_elem_of_filter. split; [by apply is_row_true|]. rewrite Hq. set_solver.
Qed.
End Move.

(** ** Witnesses *)

Definition sample_row (st : queue_status) (at_ : Z) : TicketTask :=
  (new_task "GEN-1" "acme" at_) <| status := st |>.

Definition sample_queue (ts : list TicketTask) : QueueWorld :=
  mkQueueWorld (mkDevQueueStore DEV_QUEUE_SCHEMA_VERSION ts []) [] 0 0.

Definition sample_client : ClientConfig :=
  mkClientConfig "main" "dev" [new_lane "default"; new_lane "hot"] (mkStagePipelineConfig None ∅)
    true None "blocking" None.

Definition queue_clock : Clock := λ n, Z.of_nat n.

Section Witnesses.
#[local] Existing Instance queue_clock.

(** Adding the pending ticket twice, cancelling, adding again. *)
Lemma one_open_row_invariant_witness :
  let add := OpAdd {[ "acme" := sample_client ]} (new_task "GEN-1" "acme" 5) in
  let q := run_cruds [add; add; OpCancel "GEN-1" "acme"; add] (sample_queue []) in
  one_open_row (q_tasks q)
  ∧ map status (q_tasks q) = [QueueItemStatus.CANCELLED].
Proof.
  cbv zeta. split.
  - apply one_open_row_invariant. apply NoDup_nil_2.
  - vm_compute. reflexivity.
Defined.

Lemma wait_for_terminal_total_witness :
  let stores := λ n, mkDevQueueStore 54 [sample_row
    (if Nat.ltb n 3 then QueueItemStatus.RUNNING else QueueItemStatus.COMPLETED) 0] [] in
  let r := wait_for_terminal stores (λ n, Z.of_nat n) 9 "GEN-1" "acme" 8 in
  match r with
  | inr t => ∃ m, _find_ticket (stores m) "GEN-1" "acme" = Some t
                  ∧ t.(status) ∈ _TERMINAL_STATUSES
  | inl _ => False
  end
  ∧ wait_for_terminal stores (λ n, Z.of_nat n) 9 "GEN-1" "acme" 1 = inl TimeoutError.
Proof.
  cbv zeta. set (stores := λ n, _).
  pose proof (wait_for_terminal_total stores (λ n, Z.of_nat n) "GEN-1" "acme" 8 7 9
    ltac:(cbn; lia) ltac:(lia)) as H.
  split; [|vm_compute; reflexivity].
  assert (Hr : ∃ t, wait_for_terminal stores (λ n, Z.of_nat n) 9 "GEN-1" "acme" 8 = inr t)
    by (eexists; vm_compute; reflexivity).
  destruct Hr as [t Hr]. rewrite Hr in *. exact H.
Defined.

Lemma move_ticket_takes_first_row_witness :
  let old := sample_row QueueItemStatus.COMPLETED 0 in
  let new := sample_row QueueItemStatus.PENDING 9 in
  let q := sample_queue [old; new] in
  let clients := {[ "acme" := sample_client ]} in
  result (move_ticket clients "GEN-1" "acme" None (Some 5%Z)) q = inl LaneMoveError
  ∧ map lane (q_tasks (exec (move_ticket clients "GEN-1" "acme" (Some "hot") None) q))
    = ["hot"; "default"]
  ∧ _find_ticket q.(q_store) "GEN-1" "acme" = Some new.
Proof.
  cbv zeta.
  destruct (move_ticket_takes_first_row {[ "acme" := sample_client ]} "GEN-1" "acme"
    sample_client "hot" 5 [] (sample_row QueueItemStatus.COMPLETED 0)
    [sample_row QueueItemStatus.PENDING 9]
    (sample_queue [sample_row QueueItemStatus.COMPLETED 0; sample_row QueueItemStatus.PENDING 9]))
    as (H1 & _ & H3 & _).
  - reflexivity.
  - intros u Hu. by apply not_elem_of_nil in Hu.
  - reflexivity.
  - apply (bool_decide_unpack _). vm_compute. exact I.
  - apply lookup_singleton_eq.
  - apply (bool_decide_unpack _). vm_compute. exact I.
  - split; [exact H1|]. split; [rewrite H3; reflexivity|]. vm_compute. reflexivity.
Defined.
End Witnesses.
