(* ===== verification/PrHydrate.v ===== *)
(** * Pull request hydration: [pr_hydrate.py]

    The state of every row's pull request, as the serve tick polls it from
    GitHub and the webhook pushes it.  Both producers go through one
    observation under the queue lock, which diffs the row's old state against
    the new one and emits the transition events.  [others n] is what other
    processes do to the queue before the n-th lock of a pass is taken. *)

From S2P Require Import Prelude PyStr PyText GhReads Enums Tasks World Vocab RearmOwed Clients Crud.

#[local] Open Scope cw_scope.

(** ** Vocabulary *)

Definition _FAILED_CHECKRUN_CONCLUSIONS : list string :=
  ["FAILURE"; "TIMED_OUT"; "CANCELLED"; "ACTION_REQUIRED"; "STALE"; "STARTUP_FAILURE"].
Definition _INFRA_ONLY_CHECKRUN_CONCLUSIONS : list string := ["CANCELLED"; "STARTUP_FAILURE"].
Definition _PENDING_CHECKRUN_STATUSES : list string :=
  ["IN_PROGRESS"; "QUEUED"; "WAITING"; "PENDING"; "REQUESTED"].
Definition _ROW1_MERGE_BLOCKING_STATES : list string := ["DIRTY"].
Definition _MERGEABLE_STATES : list string := ["CLEAN"; "UNSTABLE"; "HAS_HOOKS"].
Definition _TERMINAL_PR_STATES : list string := [_GH_PR_STATE_MERGED; _GH_PR_STATE_CLOSED].
Definition _PR_VIEW_FIELDS : string :=
  "state,mergeable,mergeStateStatus,statusCheckRollup,reviewDecision,isDraft,reviewRequests,comments".
Definition PR_MERGED : string := "pr.merged".
Definition PR_CI_FAILED : string := "pr.ci_failed".
Definition PR_REVIEW_RECEIVED : string := "pr.review_received".
Definition PR_MERGEABLE : string := "pr.mergeable".
Definition _REVIEW_HEADING_PREFIX : string := "## Review:".
Definition _BLOCKING_COMMENT_MARKERS : list string := ["MUST_FIX"; "BLOCKING"].
Definition _REVIEW_DECISION_COMMENTED : string := "COMMENTED".
Definition merge_blocked : string := "merge_blocked".
Definition ci_failing : string := "ci_failing".
Definition changes_requested : string := "changes_requested".
Definition no_reviewer : string := "no_reviewer".
Definition ready_to_approve : string := "ready_to_approve".

Definition str_in (s : string) (l : list string) : bool := bool_decide (s ∈ l).

(** [s.upper()] of the ASCII names GitHub uses. *)
Definition upper_char (c : ascii) : ascii :=
  let n := nat_of_ascii c in
  if Nat.leb 97 n && Nat.leb n 122 then ascii_of_nat (n - 32) else c.
Fixpoint str_upper (s : string) : string :=
  match s with EmptyString => EmptyString | String c s' => String (upper_char c) (str_upper s') end.

Definition lower_char (c : ascii) : ascii :=
  let n := nat_of_ascii c in
  if Nat.leb 65 n && Nat.leb n 90 then ascii_of_nat (n + 32) else c.
Fixpoint str_lower (s : string) : string :=
  match s with EmptyString => EmptyString | String c s' => String (lower_char c) (str_lower s') end.

(** ** Checks *)

Record FailingCheck := mkFailingCheck {
  fc_workflow : json; fc_name : json; fc_conclusion : string; fc_url : json }.

Record StatusSummary := mkStatusSummary {
  ss_failing : list FailingCheck; ss_pending_count : Z; ss_ok : bool }.

(** [(c.get(k) or "").upper()]. *)
Definition upper_field (k : string) (d : list (string * json)) : exn + string :=
  match json_or (dict_get k d) (JStr "") with
  | JStr s => inr (str_upper s)
  | _ => inl AttributeError
  end.

Inductive check_kind := Failing (f : FailingCheck) | Pending | Neutral.

Definition classify_check (c : json) : exn + check_kind :=
  match c with
  | JDict d =>
      let field k := json_or (dict_get k d) (JStr "") in
      if json_is_str "CheckRun" (dict_get_default "__typename" (JStr "") d) then
        match upper_field "status" d, upper_field "conclusion" d with
        | inr status, inr conclusion =>
            inr (if String.eqb status "COMPLETED" && str_in conclusion _FAILED_CHECKRUN_CONCLUSIONS
                 then Failing (mkFailingCheck (field "workflowName") (field "name") conclusion
                                 (field "detailsUrl"))
                 else if str_in status _PENDING_CHECKRUN_STATUSES then Pending else Neutral)
        | inl e, _ | _, inl e => inl e
        end
      else
        match upper_field "state" d with
        | inl e => inl e
        | inr state =>
            inr (if str_in state ["FAILURE"; "ERROR"]
                 then Failing (mkFailingCheck (JStr "") (field "context") state (field "targetUrl"))
                 else if String.eqb state "PENDING" then Pending else Neutral)
        end
  | _ => inl AttributeError
  end.

Fixpoint classify_checks (rollup : list json) : exn + list FailingCheck * Z :=
  match rollup with
  | [] => inr ([], 0%Z)
  | c :: rollup' =>
      match classify_check c, classify_checks rollup' with
      | inl e, _ | inr _, inl e => inl e
      | inr (Failing f), inr (fs, n) => inr (f :: fs, n)
      | inr Pending, inr (fs, n) => inr (fs, (n + 1)%Z)
      | inr Neutral, inr r => inr r
      end
  end.

Definition is_genuine (f : FailingCheck) : bool :=
  negb (str_in f.(fc_conclusion) _INFRA_ONLY_CHECKRUN_CONCLUSIONS).

Definition summarize_status_checks (rollup : list json) : exn + StatusSummary :=
  match classify_checks rollup with
  | inl e => inl e
  | inr (fs, n) => inr (mkStatusSummary fs n (negb (existsb is_genuine fs)))
  end.

(** ** Comments *)

(** Whether a character outside ASCII is a word character of [re]. *)
Class UnicodeData := wide_word : string → bool.

Section Comments.
Context {U : UnicodeData}.

(** [[\w-]]. *)
Definition is_word_or_hyphen (w : string) : bool :=
  match w with
  | String c EmptyString => is_ascii_alnum c || Ascii.eqb c "_" || Ascii.eqb c "-"
  | _ => wide_word w
  end.

Definition next_is_word (cs : list string) : bool :=
  match cs with [] => false | w :: _ => is_word_or_hyphen w end.

(** A marker on boundaries; [before]: the character before is no boundary. *)
Fixpoint marker_search (marker : list string) (before : bool) (cs : list string) : bool :=
  negb before && bool_decide (take (length marker) cs = marker)
    && negb (next_is_word (drop (length marker) cs))
  || match cs with
     | [] => false
     | w :: cs' => marker_search marker (is_word_or_hyphen w) cs'
     end.

Definition _comment_body_is_blocking (body : string) : bool :=
  starts_with _REVIEW_HEADING_PREFIX (text_strip body)
  || existsb (λ marker, marker_search (chars marker) false (chars body))
       _BLOCKING_COMMENT_MARKERS.

Definition comment_blocks (self_login : string) (comment : json) : bool :=
  match comment with
  | JDict d =>
      negb (json_is_str self_login (jget "login" (dict_get "author" d)))
      && match dict_get "body" d with
         | JStr body => _comment_body_is_blocking body
         | _ => false
         end
  | _ => false
  end.

Definition _has_blocking_comment_review (comments : list json) (self_login : option string)
  : bool :=
  match self_login with
  | None => false
  | Some me => existsb (comment_blocks me) comments
  end.
End Comments.

(** ** The attention state *)

Definition _blocked_attention_state (pending_count : Z) (review_decision : string)
  : option string :=
  if Z.ltb 0 pending_count then None
  else if String.eqb review_decision "REVIEW_REQUIRED" then Some ready_to_approve
  else None.

Definition _compute_attention_state (ci_ok : bool) (pending_count : Z)
  (merge_state_status review_decision : string) (is_draft : bool) (reviewer_count : Z)
  (has_blocking_comment_review : bool) : option string :=
  if is_draft then None
  else if str_in merge_state_status _ROW1_MERGE_BLOCKING_STATES then Some merge_blocked
  else if negb ci_ok then Some ci_failing
  else if has_blocking_comment_review || String.eqb review_decision "CHANGES_REQUESTED"
       then Some changes_requested
  else if String.eqb review_decision "REVIEW_REQUIRED" && Z.eqb reviewer_count 0
       then Some no_reviewer
  else if String.eqb merge_state_status "BLOCKED"
       then _blocked_attention_state pending_count review_decision
       else Some ready_to_approve.

(** ** URLs and slugs *)

Definition _slug_mismatch (pr_repo : string) (resolved : option string) : option string :=
  match resolved with
  | None => None
  | Some r => if String.eqb (str_lower r) (str_lower pr_repo) then None else Some r
  end.

(** ** Polling one pull request *)

Definition py_bool (j : json) : bool := json_truthy j.

(** [str(data.get(k) or d)]. *)
Definition str_field (k d : string) (data : list (string * json)) : string :=
  json_str (json_or (dict_get k data) (JStr d)).

(** [len(data.get("reviewRequests") or [])]; [TypeError] on a number or [true]. *)
Definition reviewer_len (j : json) : exn + Z :=
  match json_or j (JList []) with
  | JList l => inr (Z.of_nat (length l))
  | JDict d => inr (Z.of_nat (length d))
  | JStr s => inr (Z.of_nat (cp_length s))
  | _ => inl TypeError
  end.

Definition json_items (j : json) : list json := match j with JList l => l | _ => [] end.

Record HydrateConfig := mkHydrateConfig {
  pr_hydration_interval_seconds : Z;
  operator_github_login_by_repo : list (string * string) }.

Definition resolve_operator_login_for_repo (repo : string) (config : HydrateConfig)
  (fallback : option string) : option string :=
  match find (λ kv, String.eqb kv.1 repo) config.(operator_github_login_by_repo) with
  | Some kv => Some kv.2
  | None => fallback
  end.

Definition is_terminal_pr (state : string) : bool := str_in state _TERMINAL_PR_STATES.

(** The state derived from one answer of [gh], at the instant [at_]. *)
Definition derive_from_view {U : UnicodeData} (data : list (string * json))
  (self_login : option string) (at_ : Z) : exn + PrState :=
  match summarize_status_checks (json_items (dict_get "statusCheckRollup" data)),
        reviewer_len (dict_get "reviewRequests" data) with
  | inl e, _ | inr _, inl e => inl e
  | inr summary, inr reviewer_count =>
      let state := str_field "state" "OPEN" data in
      let merge_state_status := str_field "mergeStateStatus" "UNKNOWN" data in
      let review_decision := str_field "reviewDecision" "" data in
      let is_draft := py_bool (dict_get_default "isDraft" (JBool false) data) in
      let blocking := _has_blocking_comment_review (json_items (dict_get "comments" data))
                        self_login in
      let attention :=
        if is_terminal_pr state then None
        else _compute_attention_state summary.(ss_ok) summary.(ss_pending_count) merge_state_status
               review_decision is_draft reviewer_count blocking in
      let mergeable := match dict_get "mergeable" data with
                       | JNull => None | j => Some (json_str j) end in
      inr (mkPrState state mergeable merge_state_status summary.(ss_ok) review_decision attention
             is_draft reviewer_count summary.(ss_pending_count)
             (map (λ f, json_str f.(fc_name)) summary.(ss_failing)) at_)
  end.

(** ** Transitions *)

Definition _diff_transitions (old : option PrState) (new : PrState)
  (base : list (string * json)) : list (string * list (string * json)) :=
  let old_state := match old with Some o => o.(prs_state) | None => "" end in
  let on (p : PrState → bool) := match old with Some o => p o | None => false end in
  (if String.eqb new.(prs_state) _GH_PR_STATE_MERGED
      && negb (String.eqb old_state _GH_PR_STATE_MERGED)
   then [(PR_MERGED, base)] else [])
  ++ (if on prs_ci_ok && negb new.(prs_ci_ok)
      then [(PR_CI_FAILED,
             base ++ [("failing_checks", JList (map JStr new.(prs_failing_checks)))])] else [])
  ++ (if on (λ o, negb (String.eqb o.(prs_review_decision) new.(prs_review_decision)))
      then [(PR_REVIEW_RECEIVED,
             base ++ [("review_decision", JStr new.(prs_review_decision))])] else [])
  ++ (if on (λ o, negb (str_in o.(prs_merge_state_status) _MERGEABLE_STATES))
         && str_in new.(prs_merge_state_status) _MERGEABLE_STATES
      then [(PR_MERGEABLE,
             base ++ [("mergeStateStatus", JStr new.(prs_merge_state_status))])] else []).

Definition _is_candidate (task : TicketTask) : bool :=
  opt_truthy task.(pr_url)
  && match task.(pr_state) with
     | None => true
     | Some s => negb (is_terminal_pr s.(prs_state))
     end.

(** ** Operations on the queue *)

Class Login := cached_gh_login : option string.

Section Hydrate.
Context {C : Clock} {G : Gh} {U : UnicodeData} {L : Login}.
Context (others : nat → M QueueWorld unit).

Definition _derive_pr_state (url : string) (self_login : option string)
  : M QueueWorld (option PrState) :=
  match fetch_pr_view url _PR_VIEW_FIELDS with
  | None => mret None
  | Some data =>
      at_ ← q_now;
      match derive_from_view data self_login at_ with
      | inl e => raise e
      | inr s => mret (Some s)
      end
  end.

Definition row_base (repo : string) (number : Z) (t : TicketTask) : list (string * json) :=
  [("repo", JStr repo); ("pr_number", JInt number); ("ticket_id", JStr t.(ticket_id));
   ("client", JStr t.(client))].

Definition transitions_of (t : TicketTask) (new : PrState) : list event :=
  match parse_pr_url (default "" t.(pr_url)) with
  | None => []
  | Some (repo, number) =>
      map (λ p, mkEvent p.1 p.2 (Some t.(ticket_id)))
        (_diff_transitions t.(pr_state) new (row_base repo number t))
  end.

(** What the observation writes on the row. *)
Definition observe_row (new : PrState) : M World unit :=
  assign (λ t, t <| pr_state := Some new |>) ;;
  t ← read id;
  when (is_terminal_pr new.(prs_state)
        && bool_decide (t.(auto_merge_rearm_pr_url) = t.(pr_url)))
    clear_auto_merge_rearm_owed.

(** The first row of the pair; the save, and the events after the lock. *)
Definition observe (cl tid : string) (resolve : option PrState → M QueueWorld PrState)
  : M QueueWorld unit :=
  store ← load_dev_queue;
  match list_find (λ t, is_row tid cl t = true) store.(tasks) with
  | None => mret tt
  | Some (i, t) =>
      new ← resolve t.(pr_state);
      t' ← on_row t (observe_row new);
      save_dev_queue (set_tasks (<[i := t']> store.(tasks)) store) ;;
      q_record (transitions_of t new)
  end.

Definition apply_pr_state_observation (cl tid : string) (new_state : option PrState)
  (overlay : option (option PrState → M QueueWorld PrState)) : M QueueWorld unit :=
  match new_state, overlay with
  | Some new, None => observe cl tid (λ _, mret new)
  | None, Some f => observe cl tid f
  | _, _ => raise ValueError
  end.

Fixpoint _persist_and_emit (n : nat) (derived : list (TicketTask * PrState))
  : M QueueWorld nat :=
  match derived with
  | [] => mret n
  | (t, new) :: derived' =>
      others n ;;
      apply_pr_state_observation t.(client) t.(ticket_id) (Some new) None ;;
      _persist_and_emit (S n) derived'
  end.

Definition _persist_rearm_owed_pr_state (cl tid url : string) (new_state : PrState)
  : M QueueWorld unit :=
  store ← load_dev_queue;
  match list_find (λ t, is_row tid cl t && opt_is t.(auto_merge_rearm_pr_url) url = true)
          store.(tasks) with
  | None => mret tt
  | Some (i, t) =>
      t' ← on_row t
             (if is_terminal_pr new_state.(prs_state) then clear_auto_merge_rearm_owed
              else assign (λ t, t <| auto_merge_rearm_pr_state := Some new_state |>));
      save_dev_queue (set_tasks (<[i := t']> store.(tasks)) store)
  end.

(** *** Pushed events *)

Definition _resolve_task_by_pr_ref (store : DevQueueStore) (repo : string) (pr_number : Z)
  : option TicketTask :=
  find (λ t, bool_decide (parse_pr_url (default "" t.(pr_url)) = Some (repo, pr_number)))
    store.(tasks).

Definition default_pr_state (at_ : Z) : PrState :=
  mkPrState "OPEN" None "UNKNOWN" true "" None false 0 0 [] at_.

(** The fields the event implies; a malformed payload changes none. *)
Definition overlay_fields (event_type : string) (payload : list (string * json)) (base : PrState)
  (at_ : Z) : PrState :=
  let set state ci failing decision merge :=
    mkPrState state base.(prs_mergeable) merge ci decision base.(prs_attention_state)
      base.(prs_is_draft) base.(prs_reviewer_count) base.(prs_pending_count) failing at_ in
  let '(mkPrState state _ merge ci decision _ _ _ _ failing _) := base in
  if String.eqb event_type PR_MERGED then set _GH_PR_STATE_MERGED ci failing decision merge
  else if String.eqb event_type PR_CI_FAILED then
    set state false (match dict_get "failing_checks" payload with
                     | JList l => map json_str l | _ => failing end) decision merge
  else if String.eqb event_type PR_REVIEW_RECEIVED then
    set state ci failing (match dict_get "review_decision" payload with
                          | JNull => decision | j => json_str j end) merge
  else if String.eqb event_type PR_MERGEABLE then
    set state ci failing decision (match dict_get "merge_state_status" payload with
                                   | JNull => merge | j => json_str j end)
  else set state ci failing decision merge.

(** Whether row 2b produced the state the push starts from. *)
Definition had_blocking_comment_review (base : PrState) : bool :=
  opt_is base.(prs_attention_state) changes_requested
  && negb (String.eqb base.(prs_review_decision) "CHANGES_REQUESTED").

Definition with_attention (a : option string) (s : PrState) : PrState :=
  mkPrState s.(prs_state) s.(prs_mergeable) s.(prs_merge_state_status) s.(prs_ci_ok)
    s.(prs_review_decision) a s.(prs_is_draft) s.(prs_reviewer_count) s.(prs_pending_count)
    s.(prs_failing_checks) s.(prs_hydrated_at).

(** The attention state of the fields of [s]. *)
Definition attention_of (s : PrState) (blocking : bool) : option string :=
  if is_terminal_pr s.(prs_state) then None
  else _compute_attention_state s.(prs_ci_ok) s.(prs_pending_count) s.(prs_merge_state_status)
         s.(prs_review_decision) s.(prs_is_draft) s.(prs_reviewer_count) blocking.

Definition overlay_at (event_type : string) (payload : list (string * json))
  (old : option PrState) (baseline_at at_ : Z) : PrState :=
  let base := default (default_pr_state baseline_at) old in
  let s := overlay_fields event_type payload base at_ in
  with_attention (attention_of s (had_blocking_comment_review base)) s.

Definition _overlay_push_observation (event_type : string) (payload : list (string * json))
  (old : option PrState) : M QueueWorld PrState :=
  baseline_at ← (if is_Some_b old then mret 0%Z else q_now);
  at_ ← q_now;
  mret (overlay_at event_type payload old baseline_at at_).

Definition _emit_commented_review (repo : string) (pr_number : Z) (t : TicketTask)
  : M QueueWorld unit :=
  q_record [mkEvent PR_REVIEW_RECEIVED
    (row_base repo pr_number t ++ [("review_decision", JStr _REVIEW_DECISION_COMMENTED)])
    (Some t.(ticket_id))].

(** The event types [OrchestratorEventType("pr." + wire_event_type)] can
    name; those the overlay does not read only refresh the row. *)
Definition pr_event_types : list string :=
  ["pr.registered"; PR_CI_FAILED; PR_REVIEW_RECEIVED; PR_MERGEABLE; PR_MERGED;
   "pr.action_taken"; "pr.action_failed"].

Definition observe_pushed_event (repo : string) (pr_number : Z)
  (wire_event_type : string) (payload : list (string * json)) : M QueueWorld unit :=
  let event_type := "pr." +:+ wire_event_type in
  if negb (str_in event_type pr_event_types) then mret tt
  else
    store ← load_dev_queue;
    match _resolve_task_by_pr_ref store repo pr_number with
    | None => mret tt
    | Some t =>
        if String.eqb event_type PR_REVIEW_RECEIVED
           && String.eqb (str_upper (json_str (dict_get_default "review_decision" (JStr "") payload)))
                _REVIEW_DECISION_COMMENTED
        then _emit_commented_review repo pr_number t
        else
          others 0 ;;
          apply_pr_state_observation t.(client) t.(ticket_id) None
            (Some (_overlay_push_observation event_type payload))
    end.

(** *** Review requests *)

Definition _reviewer_node_login (node : json) : option string :=
  match jget "login" node with
  | JStr login => if String.eqb login "" then None else Some login
  | _ => None
  end.

Definition resolve_and_register_review_request (repo : string) (pr_number : Z) (url : string)
  (reviewer_nodes : list json) (operator_login : option string) (source : string)
  (requester_login : option string) : M QueueWorld (bool * string) :=
  match operator_login with
  | None => mret (false, "identity_unresolved")
  | Some me =>
      let logins := map _reviewer_node_login reviewer_nodes in
      if bool_decide (reviewer_nodes = []) then mret (false, "no_reviewer")
      else if negb (existsb (λ l, opt_is l me) logins) then
        mret (false, if existsb (λ l, negb (is_Some_b l)) logins then "team_targeted"
                     else "not_operator_targeted")
      else
        at_ ← q_now;
        inserted ← register_watched_pr
                     (mkWatchedPr url repo pr_number at_ requester_login source "active" None None);
        mret (if (inserted : bool) then (true, "registered") else (false, "already_registered"))
  end.

(** *** The serve-tick pass *)

Definition with_watch_state (s : PrState) (w : WatchedPr) : WatchedPr :=
  mkWatchedPr w.(wp_pr_url) w.(wp_repo) w.(wp_pr_number) w.(wp_requested_at)
    w.(wp_requester_login) w.(wp_source) w.(wp_status) w.(wp_client) (Some s).

Definition store_watch_state (w : WatchedPr) (s : PrState) : M QueueWorld unit :=
  store ← load_dev_queue;
  match list_find (λ p, same_active_watch w p = true) store.(watched_prs) with
  | None => mret tt
  | Some (i, p) =>
      save_dev_queue (set_watched (<[i := with_watch_state s p]> store.(watched_prs)) store)
  end.

Fixpoint _hydrate_watched_prs (n : nat) (config : HydrateConfig) (self_login : option string)
  (ws : list WatchedPr) : M QueueWorld unit :=
  match ws with
  | [] => mret tt
  | w :: ws' =>
      if negb (String.eqb w.(wp_status) "active")
      then _hydrate_watched_prs n config self_login ws'
      else
        s ← _derive_pr_state w.(wp_pr_url)
              (resolve_operator_login_for_repo w.(wp_repo) config self_login);
        match s with
        | None => _hydrate_watched_prs n config self_login ws'
        | Some s =>
            others n ;;
            store_watch_state w s ;;
            _hydrate_watched_prs (S n) config self_login ws'
        end
  end.

(** [max]; [None] on the empty list. *)
Definition latest (stamps : list Z) : option Z :=
  match stamps with [] => None | s :: ss => Some (fold_left Z.max ss s) end.

Definition hydration_stamps (ts : list TicketTask) (ws : list WatchedPr) : list Z :=
  omap (λ t, prs_hydrated_at <$> t.(pr_state)) ts
  ++ omap (λ t, prs_hydrated_at <$> t.(auto_merge_rearm_pr_state)) ts
  ++ omap (λ w, prs_hydrated_at <$> w.(wp_pr_state)) ws.

Definition _throttled (ts : list TicketTask) (ws : list WatchedPr) (interval_seconds : Z)
  : M QueueWorld bool :=
  match latest (hydration_stamps ts ws) with
  | None => mret false
  | Some newest =>
      at_ ← q_now;
      mret (Z.ltb (at_ - newest) (interval_seconds * MICROS))
  end.

Definition effective_login (config : HydrateConfig) (self_login : option string) (url : string)
  : option string :=
  match parse_pr_url url with
  | Some (repo, _) => resolve_operator_login_for_repo repo config self_login
  | None => self_login
  end.

Fixpoint derive_all (config : HydrateConfig) (self_login : option string)
  (candidates : list TicketTask) : M QueueWorld (list (TicketTask * PrState)) :=
  match candidates with
  | [] => mret []
  | t :: ts =>
      let url := default "" t.(pr_url) in
      s ← _derive_pr_state url (effective_login config self_login url);
      rest ← derive_all config self_login ts;
      mret (match s with Some s => (t, s) :: rest | None => rest end)
  end.

Fixpoint hydrate_owed (n : nat) (config : HydrateConfig) (self_login : option string)
  (owed : list TicketTask) : M QueueWorld nat :=
  match owed with
  | [] => mret n
  | t :: ts =>
      let url := default "" t.(auto_merge_rearm_pr_url) in
      s ← _derive_pr_state url (effective_login config self_login url);
      match s with
      | None => hydrate_owed n config self_login ts
      | Some s =>
          others n ;;
          _persist_rearm_owed_pr_state t.(client) t.(ticket_id) url s ;;
          hydrate_owed (S n) config self_login ts
      end
  end.

Definition owes_other_pr (t : TicketTask) : bool :=
  is_Some_b t.(auto_merge_rearm_pr_url)
  && negb (bool_decide (t.(auto_merge_rearm_pr_url) = t.(pr_url))).

Definition hydrate_pr_states (config : HydrateConfig) : M QueueWorld unit :=
  store ← load_dev_queue;
  throttled ← _throttled store.(tasks) store.(watched_prs) config.(pr_hydration_interval_seconds);
  if (throttled : bool) then mret tt
  else
    let candidates := filter (λ t, _is_candidate t = true) store.(tasks) in
    let owed := filter (λ t, owes_other_pr t = true) store.(tasks) in
    let watching := existsb (λ w, String.eqb w.(wp_status) "active") store.(watched_prs) in
    let self_login :=
      if negb (bool_decide (candidates = [])) || negb (bool_decide (owed = [])) || watching
      then cached_gh_login else None in
    derived ← derive_all config self_login candidates;
    n ← _persist_and_emit 0 derived;
    n ← hydrate_owed n config self_login owed;
    _hydrate_watched_prs n config self_login store.(watched_prs).
End Hydrate.
