(* ===== verification/PrHydrateProps.v ===== *)
(** * What hydration keeps

    A pull request URL that is built parses back; a pushed event leaves the
    attention state a poll of the same pull request would derive, unless the
    blocking comment was masked when last polled; an observation repeated
    emits nothing. *)

From S2P Require Import Prelude PyStr PyText GhReads Enums Tasks World Vocab RearmOwed Clients Crud.
From S2P Require Import CrudProps PrHydrate.

#[local] Open Scope cw_scope.

(** ** URLs *)

Lemma take_run_app p a b :
  str_forallb p a = true →
  match b with EmptyString => True | String c _ => p c = false end →
  take_run p (a +:+ b) = (a, b).
Proof.
  unfold str_forallb. intros Ha Hb. induction a as [|c a IH].
  - rewrite sapp_nil. destruct b as [|c b]; simpl; [done|]. by rewrite Hb.
  - simpl in Ha. rewrite negb_orb, negb_involutive in Ha. apply andb_true_iff in Ha as [Hc Ha].
    rewrite sapp_cons. simpl. by rewrite Hc, IH.
Qed.

Lemma digits_value_app acc a b :
  digits_value acc (a +:+ b) = digits_value (digits_value acc a) b.
Proof. revert acc. induction a as [|c a IH]; intros acc; [done|]. rewrite sapp_cons. apply IH. Qed.

Lemma digit_char n : (n < 10)%N → is_ascii_digit (pretty_N_char n) = true
  ∧ Z.of_nat (nat_of_ascii (pretty_N_char n) - 48) = Z.of_N n.
Proof.
  intros H. assert (n ∈ [0; 1; 2; 3; 4; 5; 6; 7; 8; 9]%N) as Hn
    by (rewrite !elem_of_cons; lia).
  revert n H Hn. refine (λ n _, _). set_unfold. naive_solver.
Qed.

(** The digits of [n] are put before [s]. *)
Lemma pretty_go n s :
  ∃ ds, pretty_N_go n s = ds +:+ s ∧ str_forallb is_ascii_digit ds = true
    ∧ digits_value 0 ds = Z.of_N n ∧ ((0 < n)%N → ds ≠ "").
Proof.
  revert s. induction (N.lt_wf_0 n) as [n _ IH]. intros s.
  destruct (decide (n = 0)%N) as [->|Hn]; [by exists ""|].
  rewrite pretty_N_go_step by lia.
  destruct (IH (n `div` 10)%N ltac:(apply N.div_lt; lia)
              (String (pretty_N_char (n mod 10)) s)) as (ds & Heq & Hd & Hv & _).
  exists (ds +:+ String (pretty_N_char (n mod 10)) "").
  destruct (digit_char (n mod 10)%N ltac:(apply N.mod_lt; lia)) as [Hc Hcv].
  split; [by rewrite Heq, sapp_assoc|]. split.
  { clear -Hd Hc. unfold str_forallb in *. induction ds as [|c ds IH]; simpl in *.
    - by rewrite Hc.
    - rewrite negb_orb, negb_involutive in *. apply andb_true_iff in Hd as [-> Hd]. by apply IH. }
  split; [|by destruct ds].
  rewrite digits_value_app, Hv. cbn [digits_value]. rewrite Hcv.
  rewrite (N.div_mod n 10) at 3 by lia. lia.
Qed.

Lemma str_of_Z_digits z :
  (0 <= z)%Z →
  str_forallb is_ascii_digit (str_of_Z z) = true ∧ int_of_digits (str_of_Z z) = z ∧ str_of_Z z ≠ "".
Proof.
  intros Hz. destruct z as [|p|p]; [done| |lia].
  change (str_of_Z (Zpos p)) with (pretty_N_go (Npos p) "").
  destruct (pretty_go (Npos p) "") as (ds & Heq & Hd & Hv & Hne).
  rewrite Heq, sapp_nil_r. split; [done|]. split; [apply Hv|]. apply Hne. lia.
Qed.

(** A repository slug: [owner/name], no other slash. *)
Definition is_slug (repo : string) : Prop :=
  ∃ owner name, repo = owner +:+ "/" +:+ name ∧ owner ≠ "" ∧ name ≠ ""
    ∧ str_forallb not_slash owner = true ∧ str_forallb not_slash name = true.

(** a pull request URL built by [github_pr_url] from an [owner/name] slug
    and a number parses back to exactly that slug and number. *)
Theorem pr_url_roundtrip repo n :
  is_slug repo → (0 <= n)%Z → parse_pr_url (github_pr_url repo n) = Some (repo, n).
Proof.
  intros (owner & name & -> & Ho & Hn & Hos & Hns) Hz.
  destruct (str_of_Z_digits n Hz) as (Hd & Hv & Hne). unfold github_pr_url.
  assert (Hat : pr_url_at ("github.com/" +:+ owner +:+ "/" +:+ name +:+ "/pull/" +:+ str_of_Z n)
                = Some (owner +:+ "/" +:+ name, n)).
  { unfold pr_url_at. rewrite starts_with_app. cbn [negb].
    change 11 with (String.length "github.com/"). rewrite str_drop_app.
    change ("/" +:+ name +:+ "/pull/" +:+ str_of_Z n)
      with (String "/" (name +:+ "/pull/" +:+ str_of_Z n)).
    rewrite take_run_app by done. rewrite (proj2 (String.eqb_neq _ _) Ho).
    change ("/pull/" +:+ str_of_Z n) with (String "/" ("pull/" +:+ str_of_Z n)).
    rewrite take_run_app by done. rewrite (proj2 (String.eqb_neq _ _) Hn). cbn [orb].
    change (String "/" ("pull/" +:+ str_of_Z n)) with ("/pull/" +:+ str_of_Z n).
    rewrite starts_with_app. cbn [negb]. change 6 with (String.length "/pull/").
    rewrite str_drop_app, <- (sapp_nil_r (str_of_Z n)), take_run_app by done.
    rewrite (proj2 (String.eqb_neq _ _) Hne). by rewrite Hv. }
  rewrite !sapp_assoc. revert Hat.
  set (tail := owner +:+ "/" +:+ name +:+ "/pull/" +:+ str_of_Z n). intros Hat.
  change ("https://github.com/" +:+ tail) with
    (String "h" (String "t" (String "t" (String "p" (String "s" (String ":" (String "/"
      (String "/" ("github.com/" +:+ tail))))))))).
  do 8 (cbn [parse_pr_url]; change (pr_url_at (String ?c ?s)) with (@None (string * Z))).
  cbn [parse_pr_url]. destruct ("github.com/" +:+ tail); cbn [parse_pr_url]; by rewrite Hat.
Qed.

Lemma pr_url_roundtrip_witness :
  is_slug "acme/widgets"
  ∧ parse_pr_url "https://github.com/acme/widgets/pull/1207" = Some ("acme/widgets", 1207%Z).
Proof.
  assert (H : is_slug "acme/widgets") by (by exists "acme", "widgets").
  split; [exact H|]. exact (pr_url_roundtrip "acme/widgets" 1207 H ltac:(lia)).
Defined.

(** ** Push and poll *)







(** the comment signal is lost without any masking row: a pull request with
    both a blocking comment and a formal change request, polled, then approved
    through a push, reads [ready_to_approve] although a poll of the same fields
    would still read [changes_requested]. *)
Theorem push_forgets_blocking_comment :
  ∃ base : PrState,
    base.(prs_attention_state) = attention_of base true
    ∧ base.(prs_merge_state_status) = "CLEAN" ∧ base.(prs_ci_ok) = true
    ∧ base.(prs_is_draft) = false ∧ base.(prs_state) = "OPEN"
    ∧ let s := overlay_at PR_REVIEW_RECEIVED [("review_decision", JStr "APPROVED")]
                 (Some base) 0 0 in
      s.(prs_attention_state) = Some ready_to_approve
      ∧ attention_of s true = Some changes_requested.
Proof.
  exists (mkPrState "OPEN" None "CLEAN" true "CHANGES_REQUESTED" (Some changes_requested) false 1 0
       [] 0). by vm_compute.
Qed.

(** ** Observations *)

Definition same_signals (a b : PrState) : Prop :=
  a.(prs_state) = b.(prs_state) ∧ a.(prs_ci_ok) = b.(prs_ci_ok)
  ∧ a.(prs_review_decision) = b.(prs_review_decision)
  ∧ a.(prs_merge_state_status) = b.(prs_merge_state_status).

Lemma diff_same a b base : same_signals a b → _diff_transitions (Some a) b base = [].
Proof.
  intros (Hs & Hc & Hd & Hm). unfold _diff_transitions. rewrite Hs, Hc, Hd, Hm.
  rewrite String.eqb_refl. cbn [negb]. rewrite andb_negb_r, andb_negb_r, andb_negb_l. done.
Qed.

Section Observe.
Context {C : Clock}.

(** The row an observation leaves. *)
Definition observed (new : PrState) (t : TicketTask) : TicketTask :=
  let t' := t <| pr_state := Some new |> in
  if is_terminal_pr new.(prs_state)
     && bool_decide (t.(auto_merge_rearm_pr_url) = t.(pr_url))
  then t' <| auto_merge_rearm_pr_url := None |> <| auto_merge_rearm_pr_state := None |>
          <| auto_merge_rearm_owed_at := None |> <| auto_merge_rearm_attention_at := None |>
  else t'.

Lemma observe_row_run new t evs n :
  observe_row new (mkWorld t evs n) = (inr tt, mkWorld (observed new t) evs n).
Proof.
  unfold observe_row, observed. run_reads. cbn [id].
  change ((t <| pr_state := Some new |>).(auto_merge_rearm_pr_url)) with t.(auto_merge_rearm_pr_url).
  change ((t <| pr_state := Some new |>).(pr_url)) with t.(pr_url).
  by destruct (_ && _).
Qed.

Lemma observed_key new t :
  (observed new t).(ticket_id) = t.(ticket_id) ∧ (observed new t).(client) = t.(client)
  ∧ (observed new t).(pr_url) = t.(pr_url) ∧ (observed new t).(pr_state) = Some new.
Proof. unfold observed. by destruct (_ && _). Qed.

(** One observation of a state already at hand, on every branch. *)
Lemma observe_run cl tid new w :
  observe cl tid (λ _, mret new) w
  = (inr tt,
     match list_find (λ t, is_row tid cl t = true) w.(q_store).(tasks) with
     | None => w
     | Some (i, t) =>
         mkQueueWorld (set_tasks (<[i := observed new t]> w.(q_store).(tasks)) w.(q_store))
           (w.(q_events) ++ transitions_of t new) w.(q_ticks) (S w.(q_saves))
     end).
Proof.
  destruct w as [store evs n sv]. unfold observe, load_dev_queue, mbind, M_bind, gets. cbn [q_store].
  destruct (list_find _ _) as [[i t]|]; [|done].
  unfold mret, M_ret, on_row. rewrite observe_row_run. done.
Qed.
End Observe.

Lemma list_find_update {A} (P : A → Prop) `{!∀ x, Decision (P x)} (l : list A) i x y :
  list_find P l = Some (i, x) → P y → list_find P (<[i := y]> l) = Some (i, y).
Proof.
  intros (Hx & _ & Hb)%list_find_Some Hy. apply list_find_Some.
  split; [apply list_lookup_insert_eq; by eapply lookup_lt_Some|]. split; [done|].
  intros j z Hz Hlt. rewrite list_lookup_insert_ne in Hz by lia. by eapply Hb.
Qed.

Section Repeat.
Context {C : Clock}.

(** a repeated observation is silent.  Observing a row's pull request emits
    the transitions from its old state and stores the new one; observing again
    a state with the same four signals (a redelivered push, the next poll)
    stores it and emits nothing. *)
Theorem repeated_observation_is_silent cl tid new new' w i t :
  list_find (λ t, is_row tid cl t = true) w.(q_store).(tasks) = Some (i, t) →
  same_signals new new' →
  let w1 := exec (apply_pr_state_observation cl tid (Some new) None) w in
  let w2 := exec (apply_pr_state_observation cl tid (Some new') None) w1 in
  w1.(q_events) = w.(q_events) ++ transitions_of t new
  ∧ w2.(q_events) = w1.(q_events)
  ∧ pr_state <$> w2.(q_store).(tasks) !! i = Some (Some new').
Proof.
  intros Hf Hs. cbn [apply_pr_state_observation]. unfold exec. rewrite !observe_run. cbn [snd].
  rewrite Hf. cbn [q_store q_events q_ticks q_saves set_tasks tasks].
  destruct (observed_key new t) as (Hid & Hcl & Hurl & Hst).
  pose proof (proj1 (list_find_Some _ _ _ _) Hf) as (Hi & Hrow & _).
  assert (Hrow' : is_row tid cl (observed new t) = true)
    by (unfold is_row in *; by rewrite Hid, Hcl).
  rewrite (list_find_update _ _ _ _ _ Hf Hrow'). cbn [q_store q_events set_tasks tasks].
  split; [done|]. split.
  - unfold transitions_of. rewrite Hurl, Hst. destruct (parse_pr_url _) as [[repo n]|];
      [rewrite diff_same by done|]; by rewrite app_nil_r.
  - rewrite list_lookup_insert_eq
      by (rewrite length_insert; by eapply lookup_lt_Some). cbn.
    by destruct (observed_key new' (observed new t)) as (_ & _ & _ & ->).
Qed.
End Repeat.
