(* ===== verification/LaneCircuit.v ===== *)
(** * The per-lane circuit breaker: [dispatch/lane_circuit.py]

    Counting spawn errors per lane, tripping the pause, the half-open
    auto-resume after a doubling cool-down, the starved-lane page, and the
    operator's [cw lane pause] / [cw lane resume] ([cli/config_cmds.py]) that
    share the override file.  Every operation runs under the override lock, so
    one operation is one atomic load-mutate-save on the store; the overrides a
    caller loaded earlier are an argument, which another process may have
    overtaken. *)

From S2P Require Import Prelude.
From S2P Require Import PyStr.
From S2P Require Import Enums.
From S2P Require Import Tasks.
From S2P Require Import World.
From S2P Require Import Vocab.
From S2P Require Import Clients.
From S2P Require Import LanePause.

#[local] Open Scope cw_scope.

(** The orchestrator settings the breaker reads. *)
Record BreakerConfig := mkBreakerConfig {
  lane_circuit_breaker_threshold : Z;
  lane_starved_notify_interval_minutes : Z;
  lane_circuit_auto_resume_minutes : Z;
  lane_circuit_auto_resume_max_minutes : Z }.

(** The override file, the durable inbox and the clock; [lw_saves] counts the
    writes of the file. *)
Record LaneWorld := mkLaneWorld {
  lw_overrides : ConcurrencyOverrides;
  lw_events : list event;
  lw_ticks : nat;
  lw_saves : nat }.

#[export] Instance LaneWorld_eta : RecordEta LaneWorld := λ w,
  mkLaneWorld w.(lw_overrides) w.(lw_events) w.(lw_ticks) w.(lw_saves).
#[export] Instance upd_lw_overrides : Updater lw_overrides := ltac:(derive_updater).
#[export] Instance upd_lw_events : Updater lw_events := ltac:(derive_updater).
#[export] Instance upd_lw_ticks : Updater lw_ticks := ltac:(derive_updater).
#[export] Instance upd_lw_saves : Updater lw_saves := ltac:(derive_updater).

(** [cw._text.redact], a list of regular-expression substitutions. *)
Class Redactor := redact : string → string.

Definition _LANE_PAUSE_SOURCE_CIRCUIT_BREAKER : string :=
  LanePauseSource.source_value LanePauseSource.CIRCUIT_BREAKER.
Definition _LANE_PAUSE_SOURCE_OPERATOR : string :=
  LanePauseSource.source_value LanePauseSource.OPERATOR.
Definition _RECENT_SPAWN_ERRORS_KEPT : nat := 5.
Definition _AUTO_RESUME_SOURCE : string := "auto_resume".
Definition _AUTO_RESUME_QUIET_TRIP_LIMIT : Z := 3.
Definition _COOLDOWN_EXPONENT_CAP : Z := 30.
Definition _SPAWN_ERROR_TEXT_MAX_CHARS : nat := 500.

(** ** The recorded error text *)

(** [s.split()] on ASCII white space; [cur] is the word being read. *)
Fixpoint str_words (cur s : string) : list string :=
  let flush := if String.eqb cur "" then [] else [cur] in
  match s with
  | EmptyString => flush
  | String c s' =>
      if is_space c then flush ++ str_words "" s'
      else str_words (cur +:+ String c "") s'
  end.

(** [" ".join(s.split())]. *)
Definition collapse (s : string) : string := str_join " " (str_words "" s).

Definition _sanitize_spawn_error_text {R : Redactor} (error : string) : string :=
  let text := redact (collapse error) in
  if Nat.ltb _SPAWN_ERROR_TEXT_MAX_CHARS (cp_length text)
  then cp_take _SPAWN_ERROR_TEXT_MAX_CHARS text
       +:+ String (ascii_of_nat 226) (String (ascii_of_nat 128) (String (ascii_of_nat 166) ""))
  else text.

(** [xs[-n:]] for a positive [n]. *)
Definition last_n {A} (n : nat) (xs : list A) : list A := drop (length xs - n) xs.

(** ** The pure breaker *)

Definition _pending_in_lane (lane_name : string) (queue_snapshot : DevQueueStore)
  (client_name : string) : nat :=
  length (filter (λ t : TicketTask,
    t.(client) = client_name ∧ t.(lane) = lane_name ∧ t.(status) = QueueItemStatus.PENDING)
    queue_snapshot.(tasks)).

Definition _check_lane_circuit_paused (lane_name : string) (queue_snapshot : DevQueueStore)
  (client_name : string) (overrides : ConcurrencyOverrides) (config : BreakerConfig) : bool :=
  match overrides.(co_lanes) !! lane_key client_name lane_name with
  | None => false
  | Some override =>
      if negb (breaker_tripped override config.(lane_circuit_breaker_threshold)) then false
      else Nat.ltb 0 (_pending_in_lane lane_name queue_snapshot client_name)
  end.

Record Trip := mkTrip {
  consecutive_count : Z;
  trigger : LanePauseTrigger.LanePauseTrigger;
  streak : Z;
  recent_errors : list string;
  auto_resume_at : option Z }.

Definition _auto_resume_cooldown_minutes (streak base max_minutes : Z) : Z :=
  let exponent := Z.min (Z.max (streak - 1) 0) _COOLDOWN_EXPONENT_CAP in
  Z.min (Z.shiftl base exponent) max_minutes.

Definition _is_operator_held (override : LaneConcurrencyOverride) : bool :=
  bool_decide (override.(paused) = Some true)
  && negb (opt_is override.(pause_source) _LANE_PAUSE_SOURCE_CIRCUIT_BREAKER).

(** [timedelta(minutes=n)]. *)
Definition minutes (n : Z) : Z := (n * MINUTE)%Z.

(** The schedule of a trip at [paused_at] that makes the streak [streak]. *)
Definition trip_schedule (config : BreakerConfig) (streak paused_at : Z) : option Z :=
  if Z.ltb 0 config.(lane_circuit_auto_resume_minutes)
  then Some (paused_at + minutes (_auto_resume_cooldown_minutes streak
               config.(lane_circuit_auto_resume_minutes)
               config.(lane_circuit_auto_resume_max_minutes)))%Z
  else None.

(** The override with the trip's pause fields, its streak and resume time;
    [now] is the clock reading behind [utc_now_seconds()]. *)
Definition _trip_updates (override : LaneConcurrencyOverride)
  (trigger : LanePauseTrigger.LanePauseTrigger) (config : BreakerConfig) (now : Z)
  : LaneConcurrencyOverride * Z * option Z :=
  let paused_at_ := whole_seconds now in
  let streak := (override.(circuit_trip_streak) + 1)%Z in
  let auto_resume_at := trip_schedule config streak paused_at_ in
  (override <| paused := Some true |>
            <| paused_at := Some paused_at_ |>
            <| pause_source := Some _LANE_PAUSE_SOURCE_CIRCUIT_BREAKER |>
            <| pause_trigger := Some (LanePauseTrigger.trigger_value trigger) |>
            <| circuit_trip_streak := streak |>
            <| circuit_auto_resume_at := auto_resume_at |>,
   streak, auto_resume_at).

(** The counter a failure kind counts on, its trip point and its trigger. *)
Definition error_counter (worktree_failure : bool) (o : LaneConcurrencyOverride) : Z :=
  if worktree_failure then o.(consecutive_worktree_errors) else o.(consecutive_spawn_errors).

Definition error_threshold (worktree_failure : bool) (config : BreakerConfig) : Z :=
  if worktree_failure
  then worktree_breaker_threshold config.(lane_circuit_breaker_threshold)
  else config.(lane_circuit_breaker_threshold).

Definition error_trigger (worktree_failure : bool) : LanePauseTrigger.LanePauseTrigger :=
  if worktree_failure then LanePauseTrigger.WORKTREE_ERRORS else LanePauseTrigger.SPAWN_ERRORS.

(** The override once the error is counted: the [updates] dict before a trip. *)
Definition count_error (override : LaneConcurrencyOverride) (error_text : string)
  (worktree_failure : bool) : LaneConcurrencyOverride :=
  let recent := last_n _RECENT_SPAWN_ERRORS_KEPT (override.(recent_spawn_errors) ++ [error_text]) in
  let count := (error_counter worktree_failure override + 1)%Z in
  let counted := if worktree_failure
                 then override <| consecutive_worktree_errors := count |>
                 else override <| consecutive_spawn_errors := count |> in
  counted <| recent_spawn_errors := recent |> <| circuit_half_open := false |>.

Definition _apply_recorded_error (override : LaneConcurrencyOverride) (error_text : string)
  (config : BreakerConfig) (worktree_failure : bool) (now : Z)
  : LaneConcurrencyOverride * option Trip :=
  let counted := count_error override error_text worktree_failure in
  let count := error_counter worktree_failure counted in
  if Z.ltb count (error_threshold worktree_failure config) || _is_operator_held override
  then (counted, None)
  else
    let '(updated, streak, auto_resume_at) :=
      _trip_updates counted (error_trigger worktree_failure) config now in
    (updated, Some (mkTrip count (error_trigger worktree_failure) streak
                      counted.(recent_spawn_errors) auto_resume_at)).

Definition _has_breaker_progress (override : LaneConcurrencyOverride) : bool :=
  negb (Z.eqb override.(consecutive_spawn_errors) 0)
  || negb (Z.eqb override.(consecutive_worktree_errors) 0)
  || negb (Z.eqb override.(circuit_trip_streak) 0)
  || negb (bool_decide (override.(recent_spawn_errors) = []))
  || override.(circuit_half_open).

Definition clear_progress (override : LaneConcurrencyOverride) : LaneConcurrencyOverride :=
  override <| consecutive_spawn_errors := 0%Z |>
           <| consecutive_worktree_errors := 0%Z |>
           <| circuit_trip_streak := 0%Z |>
           <| recent_spawn_errors := [] |>
           <| circuit_half_open := false |>.

Definition _auto_resume_due (override : option LaneConcurrencyOverride)
  (config : BreakerConfig) (now : Z) : bool :=
  Z.ltb 0 config.(lane_circuit_auto_resume_minutes)
  && match override with
     | None => false
     | Some o =>
         bool_decide (o.(paused) = Some true)
         && opt_is o.(pause_source) _LANE_PAUSE_SOURCE_CIRCUIT_BREAKER
         && match o.(circuit_auto_resume_at) with
            | None => false
            | Some at_ => Z.leb at_ now
            end
     end.

Definition _half_open (override : LaneConcurrencyOverride) (config : BreakerConfig)
  : LaneConcurrencyOverride :=
  let threshold := config.(lane_circuit_breaker_threshold) in
  let worktree_threshold := worktree_breaker_threshold threshold in
  override <| paused := None |>
           <| consecutive_spawn_errors :=
                Z.min override.(consecutive_spawn_errors) (Z.max 0 (threshold - 1)) |>
           <| consecutive_worktree_errors :=
                Z.min override.(consecutive_worktree_errors)
                  (Z.max 0 (worktree_threshold - 1)) |>
           <| circuit_half_open := true |>
           <| paused_at := None |>
           <| pause_source := None |>
           <| pause_trigger := None |>
           <| circuit_auto_resume_at := None |>
           <| lane_starved_notify_next_eligible_at := None |>.

Definition _quiet_paging (override : option LaneConcurrencyOverride) (config : BreakerConfig)
  : bool :=
  match override with
  | None => false
  | Some o =>
      Z.ltb 0 config.(lane_circuit_auto_resume_minutes)
      && is_Some_b o.(circuit_auto_resume_at)
      && Z.ltb o.(circuit_trip_streak) _AUTO_RESUME_QUIET_TRIP_LIMIT
  end.

(** [cw lane pause]: the override it writes. *)
Definition operator_pause (override : LaneConcurrencyOverride) (now : Z)
  : LaneConcurrencyOverride :=
  override <| paused := Some true |>
           <| paused_at := Some (whole_seconds now) |>
           <| pause_source := Some _LANE_PAUSE_SOURCE_OPERATOR |>
           <| pause_trigger := None |>
           <| circuit_auto_resume_at := None |>
           <| circuit_half_open := false |>.

(** [cw lane resume]: the override it writes. *)
Definition operator_resume (override : LaneConcurrencyOverride) : LaneConcurrencyOverride :=
  override <| paused := Some false |>
           <| consecutive_spawn_errors := 0%Z |>
           <| consecutive_worktree_errors := 0%Z |>
           <| lane_starved_notify_next_eligible_at := None |>
           <| paused_at := None |>
           <| pause_source := None |>
           <| pause_trigger := None |>
           <| recent_spawn_errors := [] |>
           <| circuit_auto_resume_at := None |>
           <| circuit_half_open := false |>.

(** [_charges_unproductive_attempt], on whether the exception is one of
    [_INFRA_SPAWN_ERRORS] and the overrides as loaded. *)
Definition _charges_unproductive_attempt (infra_error : bool) (overrides : ConcurrencyOverrides)
  (client_name lane_name : string) : bool :=
  if infra_error then false
  else negb (match overrides.(co_lanes) !! lane_key client_name lane_name with
             | Some o => o.(circuit_half_open)
             | None => false
             end).

(** ** The operations on the override file *)

Section Operations.
Context {C : Clock} {R : Redactor}.

Definition lane_now : M LaneWorld Z := λ w,
  (inr (clock_at w.(lw_ticks)), w <| lw_ticks := S w.(lw_ticks) |>).

Definition _load_concurrency_overrides : M LaneWorld ConcurrencyOverrides := gets lw_overrides.

Definition _save_concurrency_overrides (o : ConcurrencyOverrides) : M LaneWorld unit :=
  modify (λ w, w <| lw_overrides := o |> <| lw_saves := S w.(lw_saves) |>).

Definition lane_event (ty : string) (payload : list (string * json)) : M LaneWorld unit :=
  modify (λ w, w <| lw_events := w.(lw_events) ++ [mkEvent ty payload None] |>).

(** [overrides.lanes[key] = o]. *)
Definition set_lane (key : string) (o : LaneConcurrencyOverride)
  (overrides : ConcurrencyOverrides) : ConcurrencyOverrides :=
  overrides <| co_lanes := <[key := o]> overrides.(co_lanes) |>.

(** [overrides.lanes.get(key, LaneConcurrencyOverride())]. *)
Definition get_lane (key : string) (overrides : ConcurrencyOverrides)
  : LaneConcurrencyOverride :=
  default new_lane_override (overrides.(co_lanes) !! key).

Definition starved_payload (client_name lane_name : string) (pending_count : nat) (now : Z)
  : list (string * json) :=
  [("session_id", JStr ("lane:" +:+ lane_key client_name lane_name +:+ "@" +:+ isoformat now));
   ("session_name", JStr "");
   ("client", JStr client_name);
   ("ticket_id", JNull);
   ("claude_session_id", JNull);
   ("paused_status",
     JStr (DispatchSkipReason.skip_reason_value DispatchSkipReason.LANE_CIRCUIT_PAUSED));
   ("breadcrumbs", JStr ("pending=" +:+ str_of_nat pending_count));
   ("crashed", JBool false);
   ("lane", JStr lane_name)].

Definition _maybe_notify_lane_starved (client_name lane_name : string) (pending_count : nat)
  (config : BreakerConfig) : M LaneWorld unit :=
  if Nat.eqb pending_count 0 then mret tt
  else
    let key := lane_key client_name lane_name in
    now ← lane_now;
    overrides ← _load_concurrency_overrides;
    let override := get_lane key overrides in
    let should_emit := match override.(lane_starved_notify_next_eligible_at) with
                       | None => true
                       | Some at_ => Z.leb at_ now
                       end in
    when should_emit
      (_save_concurrency_overrides
         (set_lane key
            (override <| lane_starved_notify_next_eligible_at :=
                           Some (now + minutes config.(lane_starved_notify_interval_minutes))%Z |>)
            overrides)) ;;
    when should_emit
      (lane_event SESSION_NEEDS_ATTENTION (starved_payload client_name lane_name pending_count now)).

Definition trip_payload (client_name lane_name collapsed : string) (trip : Trip)
  : list (string * json) :=
  [("client", JStr client_name);
   ("lane", JStr lane_name);
   ("source", JStr _LANE_PAUSE_SOURCE_CIRCUIT_BREAKER);
   ("consecutive_count", JInt trip.(consecutive_count));
   ("last_error", JStr collapsed);
   ("trigger", JStr (LanePauseTrigger.trigger_value trip.(trigger)));
   ("trip_streak", JInt trip.(streak));
   ("recent_errors", JList (map JStr trip.(recent_errors)));
   ("auto_resume_at", of_opt_str (iso_z <$> trip.(auto_resume_at)))].

(** The clock is read only by a trip. *)
Definition _record_lane_spawn_error (lane_name client_name last_error : string)
  (config : BreakerConfig) (worktree_failure : bool) : M LaneWorld unit :=
  let collapsed := collapse last_error in
  let key := lane_key client_name lane_name in
  overrides ← _load_concurrency_overrides;
  n ← gets lw_ticks;
  let '(updated, trip) :=
    _apply_recorded_error (get_lane key overrides) (_sanitize_spawn_error_text last_error)
      config worktree_failure (clock_at n) in
  when (is_Some_b trip) (lane_now ;; mret tt) ;;
  _save_concurrency_overrides (set_lane key updated overrides) ;;
  match trip with
  | Some t => lane_event LANE_PAUSED (trip_payload client_name lane_name collapsed t)
  | None => mret tt
  end.

Definition _reset_lane_spawn_errors (lane_name client_name : string) : M LaneWorld unit :=
  let key := lane_key client_name lane_name in
  overrides ← _load_concurrency_overrides;
  match overrides.(co_lanes) !! key with
  | None => mret tt
  | Some override =>
      when (_has_breaker_progress override)
        (_save_concurrency_overrides (set_lane key (clear_progress override) overrides))
  end.

Definition resumed_payload (client_name lane_name : string) (override : LaneConcurrencyOverride)
  : list (string * json) :=
  [("client", JStr client_name);
   ("lane", JStr lane_name);
   ("source", JStr _AUTO_RESUME_SOURCE);
   ("trip_streak", JInt override.(circuit_trip_streak));
   ("paused_since", of_opt_str (iso_z <$> override.(paused_at)))].

(** [overrides] is the caller's snapshot; the store is loaded again under the
    lock. *)
Definition _maybe_auto_resume_lane (lane_name client_name : string)
  (overrides : ConcurrencyOverrides) (config : BreakerConfig) : M LaneWorld bool :=
  let key := lane_key client_name lane_name in
  now ← lane_now;
  if negb (_auto_resume_due (overrides.(co_lanes) !! key) config now) then mret false
  else
    current ← _load_concurrency_overrides;
    match current.(co_lanes) !! key with
    | None => mret false
    | Some override =>
        if negb (_auto_resume_due (Some override) config now) then mret false
        else
          _save_concurrency_overrides (set_lane key (_half_open override config) current) ;;
          lane_event LANE_RESUMED (resumed_payload client_name lane_name override) ;;
          mret true
    end.

Definition _handle_paused_lane (lane_name : string) (queue_snapshot : DevQueueStore)
  (client_name : string) (overrides : ConcurrencyOverrides) (config : BreakerConfig)
  : M LaneWorld bool :=
  lifted ← _maybe_auto_resume_lane lane_name client_name overrides config;
  if (lifted : bool) then mret false
  else
    let lane_paused_here :=
      _check_lane_circuit_paused lane_name queue_snapshot client_name overrides config in
    let override := overrides.(co_lanes) !! lane_key client_name lane_name in
    when (lane_paused_here && negb (_quiet_paging override config))
      (_maybe_notify_lane_starved client_name lane_name
         (_pending_in_lane lane_name queue_snapshot client_name) config) ;;
    mret lane_paused_here.

(** The commands; the lane-declared check that may refuse them comes before
    the lock and writes nothing. *)
Definition lane_pause (client_name name : string) (declared : list string)
  : M LaneWorld unit :=
  if negb (bool_decide (name ∈ declared)) then raise (CwError "Lane is not declared")
  else
    let key := lane_key client_name name in
    current ← _load_concurrency_overrides;
    now ← lane_now;
    _save_concurrency_overrides (set_lane key (operator_pause (get_lane key current) now) current) ;;
    lane_event LANE_PAUSED
      [("client", JStr client_name); ("lane", JStr name);
       ("source", JStr _LANE_PAUSE_SOURCE_OPERATOR)].

Definition lane_resume (client_name name : string) (declared : list string)
  : M LaneWorld unit :=
  if negb (bool_decide (name ∈ declared)) then raise (CwError "Lane is not declared")
  else
    let key := lane_key client_name name in
    current ← _load_concurrency_overrides;
    _save_concurrency_overrides (set_lane key (operator_resume (get_lane key current)) current) ;;
    lane_event LANE_RESUMED
      [("client", JStr client_name); ("lane", JStr name);
       ("source", JStr _LANE_PAUSE_SOURCE_OPERATOR)].
End Operations.
