(* ===== verification/LaneCircuitProps.v ===== *)
(** * The circuit breaker's contract

    [lane_change] is the abstract machine of one lane; every operation on the
    override file refines it, and the breaker's promises are invariants of the
    machine. *)

From S2P Require Import Prelude.
From S2P Require Import PyStr.
From S2P Require Import Enums.
From S2P Require Import Tasks.
From S2P Require Import World.
From S2P Require Import Vocab.
From S2P Require Import Clients.
From S2P Require Import LanePause.
From S2P Require Import LaneCircuit.

#[local] Open Scope cw_scope.

(** ** The abstract machine of one lane *)

(** Who acts: the dispatch loop or the operator at the command line. *)
Inductive actor := Loop | Operator.

(** The debounce gate of the starved-lane page. *)
Definition starved_due (o : LaneConcurrencyOverride) (now : Z) : bool :=
  match o.(lane_starved_notify_next_eligible_at) with
  | None => true
  | Some at_ => Z.leb at_ now
  end.

Definition starved_stamp (o : LaneConcurrencyOverride) (config : BreakerConfig) (now : Z)
  : LaneConcurrencyOverride :=
  o <| lane_starved_notify_next_eligible_at :=
         Some (now + minutes config.(lane_starved_notify_interval_minutes))%Z |>.

Inductive lane_change : actor → LaneConcurrencyOverride → LaneConcurrencyOverride → Prop :=
  | change_none a o : lane_change a o o
  | change_error o text config worktree now :
      lane_change Loop o (_apply_recorded_error o text config worktree now).1
  | change_success o : lane_change Loop o (clear_progress o)
  | change_lift o config now :
      _auto_resume_due (Some o) config now = true → lane_change Loop o (_half_open o config)
  | change_paged o config now :
      starved_due o now = true → lane_change Loop o (starved_stamp o config now)
  | change_pause o now : lane_change Operator o (operator_pause o now)
  | change_resume o : lane_change Operator o (operator_resume o).

(** ** Operations as a sum, and their runs *)

Inductive lane_op :=
  | OpError (lane_name client_name last_error : string) (config : BreakerConfig)
      (worktree_failure : bool)
  | OpSuccess (lane_name client_name : string)
  | OpPausedLane (lane_name : string) (queue : DevQueueStore) (client_name : string)
      (snapshot : ConcurrencyOverrides) (config : BreakerConfig)
  | OpPause (client_name lane_name : string) (declared : list string)
  | OpResume (client_name lane_name : string) (declared : list string).

Definition op_key (op : lane_op) : string :=
  match op with
  | OpError l c _ _ _ | OpSuccess l c | OpPausedLane l _ c _ _ => lane_key c l
  | OpPause c l _ | OpResume c l _ => lane_key c l
  end.

Definition op_actor (op : lane_op) : actor :=
  match op with OpPause _ _ _ | OpResume _ _ _ => Operator | _ => Loop end.

Definition lane_at (key : string) (w : LaneWorld) : LaneConcurrencyOverride :=
  get_lane key w.(lw_overrides).

Lemma get_set_lane k k' o ov :
  get_lane k (set_lane k' o ov) = if decide (k = k') then o else get_lane k ov.
Proof.
  unfold get_lane, set_lane. cbn. case_decide as Hk.
  - subst. by rewrite lookup_insert_eq.
  - by rewrite lookup_insert_ne by congruence.
Qed.

Section Runs.
Context {C : Clock} {R : Redactor}.

Definition run_op (op : lane_op) : M LaneWorld unit :=
  match op with
  | OpError l c e config wt => _record_lane_spawn_error l c e config wt
  | OpSuccess l c => _reset_lane_spawn_errors l c
  | OpPausedLane l q c snapshot config =>
      _handle_paused_lane l q c snapshot config ;; mret tt
  | OpPause c l d => lane_pause c l d
  | OpResume c l d => lane_resume c l d
  end.

Definition trip_events (cn ln err : string) (trip : option Trip) : list event :=
  match trip with
  | Some t => [mkEvent LANE_PAUSED (trip_payload cn ln (collapse err) t) None]
  | None => []
  end.

Lemma record_run ln cn err config wt ov evs n s :
  let key := lane_key cn ln in
  let r := _apply_recorded_error (get_lane key ov) (_sanitize_spawn_error_text err) config wt
             (clock_at n) in
  _record_lane_spawn_error ln cn err config wt (mkLaneWorld ov evs n s)
  = (inr tt, mkLaneWorld (set_lane key r.1 ov) (evs ++ trip_events cn ln err r.2)
       (if is_Some_b r.2 then S n else n) (S s)).
Proof.
  cbv zeta. unfold _record_lane_spawn_error, mbind, M_bind, gets, _load_concurrency_overrides.
  cbn -[_apply_recorded_error set_lane get_lane].
  destruct (_apply_recorded_error _ _ _ _ _) as [u [t|]]; [reflexivity|].
  cbn -[set_lane]. by rewrite app_nil_r.
Qed.

Lemma reset_run ln cn ov evs n s :
  let key := lane_key cn ln in
  _reset_lane_spawn_errors ln cn (mkLaneWorld ov evs n s)
  = (inr tt,
     match co_lanes ov !! key with
     | Some o => if _has_breaker_progress o
                 then mkLaneWorld (set_lane key (clear_progress o) ov) evs n (S s)
                 else mkLaneWorld ov evs n s
     | None => mkLaneWorld ov evs n s
     end).
Proof.
  cbv zeta. unfold _reset_lane_spawn_errors, mbind, M_bind, gets, _load_concurrency_overrides.
  cbn -[_has_breaker_progress clear_progress set_lane].
  destruct (co_lanes ov !! _) as [o|]; [|reflexivity].
  by destruct (_has_breaker_progress o).
Qed.

(** The lane is lifted: due by the caller's snapshot and by the store. *)
Definition lift_due (key : string) (snapshot ov : ConcurrencyOverrides) (config : BreakerConfig)
  (now : Z) : bool :=
  _auto_resume_due (co_lanes snapshot !! key) config now
  && _auto_resume_due (co_lanes ov !! key) config now.

Lemma auto_resume_run ln cn snapshot config ov evs n s :
  let key := lane_key cn ln in
  let o := get_lane key ov in
  let lifted := lift_due key snapshot ov config (clock_at n) in
  _maybe_auto_resume_lane ln cn snapshot config (mkLaneWorld ov evs n s)
  = (inr lifted,
     if lifted
     then mkLaneWorld (set_lane key (_half_open o config) ov)
            (evs ++ [mkEvent LANE_RESUMED (resumed_payload cn ln o) None]) (S n) (S s)
     else mkLaneWorld ov evs (S n) s).
Proof.
  cbv zeta. unfold _maybe_auto_resume_lane, lift_due, mbind, M_bind, lane_now, gets,
    _load_concurrency_overrides, get_lane.
  cbn -[_auto_resume_due _half_open set_lane].
  destruct (_auto_resume_due (co_lanes snapshot !! _) config (clock_at n)); [|done].
  cbn -[_auto_resume_due _half_open set_lane].
  destruct (co_lanes ov !! lane_key cn ln) as [o|] eqn:Ho; cbn -[_auto_resume_due _half_open set_lane].
  - by destruct (_auto_resume_due (Some o) config (clock_at n)).
  - unfold _auto_resume_due. by rewrite andb_false_r.
Qed.

Lemma notify_run cn ln pending config ov evs n s :
  let key := lane_key cn ln in
  let o := get_lane key ov in
  _maybe_notify_lane_starved cn ln pending config (mkLaneWorld ov evs n s)
  = (inr tt,
     if Nat.eqb pending 0 then mkLaneWorld ov evs n s
     else if starved_due o (clock_at n)
     then mkLaneWorld (set_lane key (starved_stamp o config (clock_at n)) ov)
            (evs ++ [mkEvent SESSION_NEEDS_ATTENTION
                       (starved_payload cn ln pending (clock_at n)) None]) (S n) (S s)
     else mkLaneWorld ov evs (S n) s).
Proof.
  cbv zeta. unfold _maybe_notify_lane_starved. destruct (Nat.eqb pending 0); [done|].
  unfold mbind, M_bind, lane_now, gets, _load_concurrency_overrides, starved_due, when.
  cbn -[set_lane get_lane Z.leb].
  destruct (lane_starved_notify_next_eligible_at _) as [at_|]; [|reflexivity].
  by destruct (Z.leb at_ (clock_at n)).
Qed.

Lemma pause_run cn ln declared ov evs n s :
  let key := lane_key cn ln in
  ln ∈ declared →
  lane_pause cn ln declared (mkLaneWorld ov evs n s)
  = (inr tt, mkLaneWorld (set_lane key (operator_pause (get_lane key ov) (clock_at n)) ov)
       (evs ++ [mkEvent LANE_PAUSED
          [("client", JStr cn); ("lane", JStr ln);
           ("source", JStr _LANE_PAUSE_SOURCE_OPERATOR)] None]) (S n) (S s)).
Proof.
  cbv zeta. intros Hd. unfold lane_pause. by rewrite bool_decide_true by done.
Qed.

Lemma resume_run cn ln declared ov evs n s :
  let key := lane_key cn ln in
  ln ∈ declared →
  lane_resume cn ln declared (mkLaneWorld ov evs n s)
  = (inr tt, mkLaneWorld (set_lane key (operator_resume (get_lane key ov)) ov)
       (evs ++ [mkEvent LANE_RESUMED
          [("client", JStr cn); ("lane", JStr ln);
           ("source", JStr _LANE_PAUSE_SOURCE_OPERATOR)] None]) n (S s)).
Proof.
  cbv zeta. intros Hd. unfold lane_resume. by rewrite bool_decide_true by done.
Qed.
End Runs.

(** ** Refinement *)

Section Refinement.
Context {C : Clock} {R : Redactor}.

Lemma exec_of {A} (m : M LaneWorld A) w a w' : m w = (inr a, w') → exec m w = w'.
Proof. unfold exec. by intros ->. Qed.

Lemma lane_at_set k k' o ov evs n s :
  lane_at k (mkLaneWorld (set_lane k' o ov) evs n s)
  = if decide (k = k') then o else get_lane k ov.
Proof. apply get_set_lane. Qed.

Lemma lift_due_get key snapshot ov config now :
  lift_due key snapshot ov config now = true →
  _auto_resume_due (Some (get_lane key ov)) config now = true.
Proof.
  unfold lift_due, get_lane. intros [_ H]%andb_true_iff. destruct (co_lanes ov !! key); [done|].
  unfold _auto_resume_due in H. by rewrite andb_false_r in H.
Qed.

(** The run of one paused lane: a lift, else at most one page. *)
Lemma handle_run ln q cn snapshot config ov evs n s :
  let key := lane_key cn ln in
  let pages := _check_lane_circuit_paused ln q cn snapshot config
               && negb (_quiet_paging (co_lanes snapshot !! key) config) in
  _handle_paused_lane ln q cn snapshot config (mkLaneWorld ov evs n s)
  = if lift_due key snapshot ov config (clock_at n)
    then (inr false, exec (_maybe_auto_resume_lane ln cn snapshot config) (mkLaneWorld ov evs n s))
    else (inr (_check_lane_circuit_paused ln q cn snapshot config),
          exec (when pages (_maybe_notify_lane_starved cn ln (_pending_in_lane ln q cn) config))
            (mkLaneWorld ov evs (S n) s)).
Proof.
  cbv zeta. pose proof (auto_resume_run ln cn snapshot config ov evs n s) as Hrun.
  unfold exec. rewrite Hrun. cbn [snd].
  unfold _handle_paused_lane, mbind at 1, M_bind at 1. rewrite Hrun. cbn match.
  destruct (lift_due _ snapshot ov config (clock_at n)); [reflexivity|].
  unfold mbind, M_bind. destruct (_ && _); cbn [when]; [|reflexivity].
  by rewrite notify_run.
Qed.

Lemma run_op_frame op k w : op_key op ≠ k → lane_at k (exec (run_op op) w) = lane_at k w.
Proof.
  intros Hk. destruct w as [ov evs n s].
  assert (Hset : ∀ o evs n s, lane_at k (mkLaneWorld (set_lane (op_key op) o ov) evs n s)
                              = get_lane k ov).
  { intros. rewrite lane_at_set. by rewrite decide_False by congruence. }
  destruct op as [l c e cfg wt|l c|l q c sn cfg|c l d|c l d]; cbn [op_key run_op] in *.
  - by rewrite (exec_of _ _ _ _ (record_run l c e cfg wt ov evs n s)).
  - rewrite (exec_of _ _ _ _ (reset_run l c ov evs n s)). by repeat case_match.
  - unfold exec, mbind, M_bind. rewrite handle_run.
    destruct (lift_due _ _ _ _ _) eqn:E; cbn [mret M_ret snd].
    + rewrite (exec_of _ _ _ _ (auto_resume_run l c sn cfg ov evs n s)). by rewrite E.
    + destruct (_ && _); cbn [when]; [|done].
      rewrite (exec_of _ _ _ _ (notify_run c l _ cfg ov evs (S n) s)). by repeat case_match.
  - destruct (decide (l ∈ d)).
    + by rewrite (exec_of _ _ _ _ (pause_run c l d ov evs n s ltac:(done))).
    + unfold lane_pause. by rewrite bool_decide_false by done.
  - destruct (decide (l ∈ d)).
    + by rewrite (exec_of _ _ _ _ (resume_run c l d ov evs n s ltac:(done))).
    + unfold lane_resume. by rewrite bool_decide_false by done.
Qed.

Lemma run_op_change op w :
  lane_change (op_actor op) (lane_at (op_key op) w) (lane_at (op_key op) (exec (run_op op) w)).
Proof.
  destruct w as [ov evs n s].
  assert (Hset : ∀ o evs n s, lane_at (op_key op) (mkLaneWorld (set_lane (op_key op) o ov) evs n s)
                              = o).
  { intros. rewrite lane_at_set. by rewrite decide_True. }
  destruct op as [l c e cfg wt|l c|l q c sn cfg|c l d|c l d]; cbn [op_key run_op op_actor] in *.
  - rewrite (exec_of _ _ _ _ (record_run l c e cfg wt ov evs n s)), Hset. apply change_error.
  - rewrite (exec_of _ _ _ _ (reset_run l c ov evs n s)).
    destruct (co_lanes ov !! lane_key c l) as [o|] eqn:Ho; [|apply change_none].
    destruct (_has_breaker_progress o); [|apply change_none].
    rewrite Hset. unfold lane_at, get_lane. cbn [lw_overrides]. rewrite Ho. apply change_success.
  - unfold exec, mbind, M_bind. rewrite handle_run.
    destruct (lift_due _ _ _ _ _) eqn:E; cbn [mret M_ret snd].
    + rewrite (exec_of _ _ _ _ (auto_resume_run l c sn cfg ov evs n s)), E, Hset.
      eapply change_lift, lift_due_get, E.
    + destruct (_ && _); cbn [when]; [|apply change_none].
      rewrite (exec_of _ _ _ _ (notify_run c l _ cfg ov evs (S n) s)).
      destruct (Nat.eqb _ 0); [apply change_none|].
      destruct (starved_due _ _) eqn:Hdue; [|apply change_none]. rewrite Hset.
      by eapply change_paged.
  - destruct (decide (l ∈ d)).
    + rewrite (exec_of _ _ _ _ (pause_run c l d ov evs n s ltac:(done))), Hset.
      apply change_pause.
    + unfold lane_pause. rewrite bool_decide_false by done. apply change_none.
  - destruct (decide (l ∈ d)).
    + rewrite (exec_of _ _ _ _ (resume_run c l d ov evs n s ltac:(done))), Hset.
      apply change_resume.
    + unfold lane_resume. rewrite bool_decide_false by done. apply change_none.
Qed.

Definition run_ops (ops : list lane_op) (w : LaneWorld) : LaneWorld :=
  foldl (λ w op, exec (run_op op) w) w ops.

(** An invariant of the machine's changes by the given actors is one of every
    run whose operations on the lane are by those actors. *)
Lemma run_ops_invariant (P : LaneConcurrencyOverride → Prop) (allowed : actor → Prop) k ops w :
  (∀ a o o', allowed a → lane_change a o o' → P o → P o') →
  Forall (λ op, op_key op = k → allowed (op_actor op)) ops →
  P (lane_at k w) → P (lane_at k (run_ops ops w)).
Proof.
  intros Hch. revert w. induction ops as [|op ops IH]; intros w Hall HP; [done|].
  apply Forall_cons in Hall as [Hop Hall]. cbn [run_ops foldl]. apply IH; [done|].
  destruct (decide (op_key op = k)) as [Hk|Hk].
  - subst k. eapply Hch; [by apply Hop|apply run_op_change|done].
  - by rewrite run_op_frame.
Qed.
End Refinement.

(** ** Invariants of one lane *)

Definition breaker_source : option string := Some _LANE_PAUSE_SOURCE_CIRCUIT_BREAKER.

(** A pause the breaker owns is complete, a schedule or a trigger belongs to
    such a pause, and a half-open probe is never paused. *)
Record lane_wf (o : LaneConcurrencyOverride) : Prop := {
  wf_counters : (0 ≤ o.(consecutive_spawn_errors) ∧ 0 ≤ o.(consecutive_worktree_errors)
                 ∧ 0 ≤ o.(circuit_trip_streak))%Z;
  wf_recent : length o.(recent_spawn_errors) ≤ _RECENT_SPAWN_ERRORS_KEPT;
  wf_breaker : o.(pause_source) = breaker_source →
               o.(paused) = Some true ∧ is_Some o.(paused_at);
  wf_schedule : is_Some o.(circuit_auto_resume_at) → o.(pause_source) = breaker_source;
  wf_trigger : is_Some o.(pause_trigger) → o.(pause_source) = breaker_source;
  wf_half_open : o.(circuit_half_open) = true → o.(paused) = None ∧ o.(pause_source) = None }.

Lemma new_lane_wf : lane_wf new_lane_override.
Proof. split; cbn; try lia; intros H; try done; by destruct H. Qed.

Lemma last_n_length {A} n (xs : list A) : length (last_n n xs) ≤ n.
Proof. unfold last_n. rewrite length_drop. lia. Qed.

Lemma count_error_wf o text wt : lane_wf o → lane_wf (count_error o text wt).
Proof.
  intros [Hc Hr Hb Hs Ht Hh]. unfold count_error. split; destruct wt; cbn; try done;
    try (apply last_n_length); lia.
Qed.

Lemma trip_wf o trig config now : lane_wf o → o.(circuit_half_open) = false →
  lane_wf (_trip_updates o trig config now).1.1.
Proof.
  intros [Hc Hr Hb Hs Ht Hh] Hho. unfold _trip_updates. split; cbn; try done; try lia.
  congruence.
Qed.

Lemma recorded_error_wf o text config wt now :
  lane_wf o → lane_wf (_apply_recorded_error o text config wt now).1.
Proof.
  intros Hwf. unfold _apply_recorded_error. cbv zeta.
  destruct (_ || _); [by apply count_error_wf|].
  pose proof (trip_wf (count_error o text wt) (error_trigger wt) config now) as Ht.
  destruct (_trip_updates _ _ _ _) as [[u st] ar]. cbn [fst].
  apply Ht; [by apply count_error_wf|]. by destruct wt.
Qed.

Lemma lane_change_wf a o o' : lane_change a o o' → lane_wf o → lane_wf o'.
Proof.
  intros [| | | | | |] Hwf; [done|by apply recorded_error_wf|..];
    destruct Hwf as [Hc Hr Hb Hs Ht Hh]; split; cbn; try done; try lia; try (by intros [? [=]]).
Qed.

(** What a hold fixes: who holds the lane, since when, and that it is held. *)
Definition hold (o : LaneConcurrencyOverride) : bool * option string * option Z :=
  (_is_operator_held o, o.(pause_source), o.(paused_at)).

Lemma operator_held_split o :
  _is_operator_held o = true ↔ o.(paused) = Some true ∧ o.(pause_source) ≠ breaker_source.
Proof.
  unfold _is_operator_held, opt_is.
  by rewrite andb_true_iff, bool_decide_eq_true, negb_true_iff, bool_decide_eq_false.
Qed.

(** ** The recorded error *)

Lemma record_trips o text config wt now :
  _is_operator_held o = false → (error_threshold wt config ≤ error_counter wt o + 1)%Z →
  let r := _apply_recorded_error o text config wt now in
  let n := (o.(circuit_trip_streak) + 1)%Z in
  r.1.(paused) = Some true ∧ r.1.(pause_source) = breaker_source
  ∧ r.1.(circuit_trip_streak) = n
  ∧ r.1.(circuit_auto_resume_at) = trip_schedule config n (whole_seconds now)
  ∧ r.1.(pause_trigger) = Some (LanePauseTrigger.trigger_value (error_trigger wt))
  ∧ error_counter wt r.1 = (error_counter wt o + 1)%Z
  ∧ r.1.(circuit_half_open) = false
  ∧ r.2 = Some (mkTrip (error_counter wt o + 1)%Z (error_trigger wt) n
                  (last_n _RECENT_SPAWN_ERRORS_KEPT (o.(recent_spawn_errors) ++ [text]))
                  (trip_schedule config n (whole_seconds now))).
Proof.
  intros Hh Hge. unfold _apply_recorded_error. cbv zeta.
  rewrite Hh, orb_false_r.
  assert (Hc : error_counter wt (count_error o text wt) = (error_counter wt o + 1)%Z)
    by by destruct wt.
  rewrite Hc, (proj2 (Z.ltb_ge _ _)) by done. destruct wt; cbn; by split_and!.
Qed.

Lemma record_counts o text config wt now :
  (error_counter wt o + 1 < error_threshold wt config)%Z ∨ _is_operator_held o = true →
  _apply_recorded_error o text config wt now = (count_error o text wt, None).
Proof.
  intros Hor. unfold _apply_recorded_error. cbv zeta.
  assert (Hc : error_counter wt (count_error o text wt) = (error_counter wt o + 1)%Z)
    by by destruct wt.
  rewrite Hc. destruct Hor as [Hlt|Hh].
  - by rewrite (proj2 (Z.ltb_lt _ _)).
  - by rewrite Hh, orb_true_r.
Qed.

Lemma count_error_fields o text wt :
  let o' := count_error o text wt in
  o'.(paused) = o.(paused) ∧ o'.(pause_source) = o.(pause_source)
  ∧ error_counter wt o' = (error_counter wt o + 1)%Z
  ∧ error_counter (negb wt) o' = error_counter (negb wt) o
  ∧ o'.(circuit_trip_streak) = o.(circuit_trip_streak) ∧ o'.(circuit_half_open) = false
  ∧ _is_operator_held o' = _is_operator_held o.
Proof. by destruct wt. Qed.

Lemma lane_change_hold o o' :
  lane_change Loop o o' → _is_operator_held o = true → hold o' = hold o.
Proof.
  intros Hch Hh. remember Loop as a eqn:Ha. destruct Hch; try done.
  - rewrite record_counts by by right. by destruct worktree.
  - apply operator_held_split in Hh as [_ Hh].
    revert H. unfold _auto_resume_due, opt_is.
    rewrite !andb_true_iff, !bool_decide_eq_true. tauto.
Qed.

Lemma error_threshold_pos wt config :
  (0 < config.(lane_circuit_breaker_threshold))%Z → (0 < error_threshold wt config)%Z.
Proof.
  unfold error_threshold, worktree_breaker_threshold, WORKTREE_BREAKER_MULTIPLIER.
  destruct wt; lia.
Qed.

Lemma half_open_counter wt o config :
  error_counter wt (_half_open o config)
  = Z.min (error_counter wt o) (Z.max 0 (error_threshold wt config - 1)).
Proof. by destruct wt. Qed.

Lemma charges_set_lane infra cn ln o ov :
  _charges_unproductive_attempt infra (set_lane (lane_key cn ln) o ov) cn ln
  = negb infra && negb o.(circuit_half_open).
Proof.
  unfold _charges_unproductive_attempt. destruct infra; [done|].
  unfold set_lane. cbn. by rewrite lookup_insert_eq.
Qed.

Section Steps.
Context {C : Clock} {R : Redactor}.

Lemma lane_at_record ln cn err config wt w :
  lane_at (lane_key cn ln) (exec (run_op (OpError ln cn err config wt)) w)
  = (_apply_recorded_error (lane_at (lane_key cn ln) w) (_sanitize_spawn_error_text err)
       config wt (clock_at w.(lw_ticks))).1.
Proof.
  destruct w as [ov evs n s]. cbn [run_op].
  rewrite (exec_of _ _ _ _ (record_run ln cn err config wt ov evs n s)), lane_at_set.
  by rewrite decide_True.
Qed.

Lemma events_record ln cn err config wt w :
  (exec (run_op (OpError ln cn err config wt)) w).(lw_events)
  = w.(lw_events) ++ trip_events cn ln err
      (_apply_recorded_error (lane_at (lane_key cn ln) w) (_sanitize_spawn_error_text err)
         config wt (clock_at w.(lw_ticks))).2.
Proof.
  destruct w as [ov evs n s]. cbn [run_op].
  by rewrite (exec_of _ _ _ _ (record_run ln cn err config wt ov evs n s)).
Qed.

(** Below its trip point a run of errors only counts; at it, the lane is
    paused and stays so. *)
Lemma errors_run ln cn config wt errs w :
  let key := lane_key cn ln in
  let ops := map (λ e, OpError ln cn e config wt) errs in
  let o := lane_at key w in
  let o' := lane_at key (run_ops ops w) in
  _is_operator_held o = false →
  ((error_counter wt o + Z.of_nat (length errs) < error_threshold wt config)%Z →
    o'.(paused) = o.(paused) ∧ error_counter wt o' = (error_counter wt o + Z.of_nat (length errs))%Z
    ∧ _is_operator_held o' = false)
  ∧ (errs ≠ [] → (error_threshold wt config ≤ error_counter wt o + Z.of_nat (length errs))%Z →
    o'.(paused) = Some true ∧ o'.(pause_source) = breaker_source).
Proof.
  cbv zeta. revert w. induction errs as [|e errs IH]; intros w Hh.
  { split; [|done]. cbn. intros _. split_and!; [done|lia|done]. }
  cbn [map run_ops foldl length]. set (w1 := exec (run_op _) w).
  assert (Hw1 : lane_at (lane_key cn ln) w1 = (_apply_recorded_error (lane_at (lane_key cn ln) w)
    (_sanitize_spawn_error_text e) config wt (clock_at w.(lw_ticks))).1) by apply lane_at_record.
  destruct (Z_lt_le_dec (error_counter wt (lane_at (lane_key cn ln) w) + 1)
              (error_threshold wt config)) as [Hlt|Hge].
  - rewrite record_counts in Hw1 by by left.
    destruct (count_error_fields (lane_at (lane_key cn ln) w) (_sanitize_spawn_error_text e) wt)
      as (Hp & _ & Hc & _ & _ & _ & Hh1).
    cbn [fst] in Hw1. rewrite <- Hw1 in Hp, Hc, Hh1. destruct (IH w1) as [IH1 IH2]; [congruence|].
    rewrite Hc, Hp in *. split.
    + intros Hle. destruct IH1 as (H1 & H2 & H3); [lia|]. split_and!; [done|etrans; [exact H2|lia]|done].
    + intros _ Hle. apply IH2; [|lia]. intros ->. cbn in *. lia.
  - destruct (record_trips (lane_at (lane_key cn ln) w) (_sanitize_spawn_error_text e) config wt
                (clock_at w.(lw_ticks)) Hh Hge) as (Hp & Hs & _ & _ & _ & Hc & _).
    rewrite <- Hw1 in Hp, Hs, Hc.
    assert (Hh1 : _is_operator_held (lane_at (lane_key cn ln) w1) = false).
    { apply not_true_iff_false. rewrite operator_held_split. tauto. }
    destruct (IH w1 Hh1) as [_ IH2]. split; [lia|]. intros _ _.
    destruct errs as [|e2 errs]; [done|]. apply IH2; [done|]. rewrite Hc. lia.
Qed.
End Steps.

(** ** The starved-lane page *)

Section Starved.
Context {C : Clock} {R : Redactor}.

(** The pages of a run of notifications for one lane: pending count and
    instant. *)
Fixpoint starved_pages (cn ln : string) (config : BreakerConfig) (pendings : list nat)
  (w : LaneWorld) : list (nat * Z) :=
  match pendings with
  | [] => []
  | p :: ps =>
      let now := clock_at w.(lw_ticks) in
      let w' := exec (_maybe_notify_lane_starved cn ln p config) w in
      let rest := starved_pages cn ln config ps w' in
      if negb (Nat.eqb p 0) && starved_due (lane_at (lane_key cn ln) w) now
      then (p, now) :: rest else rest
  end.

Definition notify_all (cn ln : string) (config : BreakerConfig) (pendings : list nat)
  (w : LaneWorld) : LaneWorld :=
  foldl (λ w p, exec (_maybe_notify_lane_starved cn ln p config) w) w pendings.

Definition page_event (cn ln : string) (pg : nat * Z) : event :=
  mkEvent SESSION_NEEDS_ATTENTION (starved_payload cn ln pg.1 pg.2) None.

Lemma starved_pages_emitted cn ln config pendings w :
  (notify_all cn ln config pendings w).(lw_events)
  = w.(lw_events) ++ map (page_event cn ln) (starved_pages cn ln config pendings w).
Proof.
  revert w. induction pendings as [|p ps IH]; intros w; [by rewrite app_nil_r|].
  cbn [notify_all foldl starved_pages]. etrans; [apply IH|].
  destruct w as [ov evs n s]. rewrite (exec_of _ _ _ _ (notify_run cn ln p config ov evs n s)).
  destruct (Nat.eqb p 0) eqn:Hp; cbn [negb andb]; [done|].
  unfold lane_at. cbn [lw_overrides lw_ticks].
  destruct (starved_due (get_lane (lane_key cn ln) ov) (clock_at n)); [|done].
  cbn [lw_events]. by rewrite <- app_assoc.
Qed.

(** A stamp holds the pages back until it elapses. *)
Lemma starved_pages_after cn ln config pendings w at_ :
  (lane_at (lane_key cn ln) w).(lane_starved_notify_next_eligible_at) = Some at_ →
  ∀ pg, starved_pages cn ln config pendings w !! 0 = Some pg → (at_ ≤ pg.2)%Z.
Proof.
  revert w. induction pendings as [|p ps IH]; intros w Hat pg; [done|].
  destruct w as [ov evs n s]. cbn [starved_pages lw_ticks].
  unfold starved_due. rewrite Hat.
  rewrite (exec_of _ _ _ _ (notify_run cn ln p config ov evs n s)).
  unfold starved_due. unfold lane_at in Hat. cbn [lw_overrides] in Hat. rewrite Hat.
  destruct (Nat.eqb p 0); cbn [negb andb]; [by apply IH|].
  destruct (Z.leb at_ (clock_at n)) eqn:Hle; [|by apply IH].
  cbn. intros [= <-]. cbn. by apply Z.leb_le.
Qed.
End Starved.

(** ** Properties *)

Section Properties.
Context {C : Clock} {R : Redactor}.

(** over any sequence of breaker and operator operations on the override
    file, each lane's record stays well formed: counters and streak never go
    negative, at most five errors are kept, a breaker-owned pause is complete,
    a resume schedule or a trip trigger belongs to such a pause, and a lane in
    its half-open probe is not paused. *)
Theorem lane_breaker_invariant ops w :
  (∀ key, lane_wf (lane_at key w)) → ∀ key, lane_wf (lane_at key (run_ops ops w)).
Proof.
  intros Hw key. apply (run_ops_invariant lane_wf (λ _, True)); [|by apply Forall_true|done].
  intros a o o' _. apply lane_change_wf.
Qed.

(** C38: an operator's (or a legacy) hold is sticky: whatever the dispatch loop
    does - spawn failures past the threshold, successes, due schedules, stale
    snapshots - the lane stays paused with the same source and the same stamp
    until the operator acts on it again. *)
Theorem operator_hold_sticky ops key w :
  _is_operator_held (lane_at key w) = true →
  Forall (λ op, op_key op = key → op_actor op = Loop) ops →
  let o' := lane_at key (run_ops ops w) in
  o'.(paused) = Some true ∧ o'.(pause_source) ≠ breaker_source
  ∧ o'.(pause_source) = (lane_at key w).(pause_source)
  ∧ o'.(paused_at) = (lane_at key w).(paused_at).
Proof.
  intros Hh Hops. cbv zeta.
  assert (Hinv : hold (lane_at key (run_ops ops w)) = hold (lane_at key w)).
  { apply (run_ops_invariant (λ o, hold o = hold (lane_at key w)) (λ a, a = Loop));
      [|done|done].
    intros a o o' -> Hch Ho. rewrite <- Ho. apply lane_change_hold; [done|].
    unfold hold in Ho. congruence. }
  unfold hold in Hinv. injection Hinv as H1 H2 H3. rewrite Hh in H1.
  apply operator_held_split in H1. tauto.
Qed.

(** from a lane whose counter is at zero, the breaker trips exactly at the
    threshold (three times it for worktree failures): fewer consecutive errors
    leave the pause as it was, the threshold-th pauses the lane in the
    breaker's name and further errors keep it paused; a lane the operator
    holds is out of scope. *)
Theorem breaker_trips_at_threshold ln cn config wt errs w :
  let key := lane_key cn ln in
  let o := lane_at key w in
  let o' := lane_at key (run_ops (map (λ e, OpError ln cn e config wt) errs) w) in
  _is_operator_held o = false → error_counter wt o = 0%Z →
  (0 < config.(lane_circuit_breaker_threshold))%Z →
  ((error_threshold wt config ≤ Z.of_nat (length errs))%Z →
     o'.(paused) = Some true ∧ o'.(pause_source) = breaker_source)
  ∧ ((Z.of_nat (length errs) < error_threshold wt config)%Z →
     o'.(paused) = o.(paused) ∧ error_counter wt o' = Z.of_nat (length errs)).
Proof.
  cbv zeta. intros Hh Hc Ht.
  destruct (errors_run ln cn config wt errs w Hh) as [Hlt Hge].
  rewrite Hc in Hlt, Hge. rewrite Z.add_0_l in Hlt, Hge.
  pose proof (error_threshold_pos wt config Ht) as Hpos.
  assert (Hne : (error_threshold wt config ≤ Z.of_nat (length errs))%Z → errs ≠ [])
    by (intros Hle ->; cbn in Hle; lia).
  split; tauto.
Qed.

(** the auto-resume lifts a lane exactly when the breaker's own pause is
    due both in the caller's snapshot and in the store as reloaded under the
    lock; otherwise, a racing operator command included, nothing is written
    or recorded.  A lift hands the lane back to its declared state. *)
Theorem auto_resume_exact ln cn snapshot config w :
  let key := lane_key cn ln in
  let m := _maybe_auto_resume_lane ln cn snapshot config in
  let now := clock_at w.(lw_ticks) in
  let w' := exec m w in
  if lift_due key snapshot w.(lw_overrides) config now
  then result m w = inr true
       ∧ (lane_at key w).(paused) = Some true ∧ (lane_at key w).(pause_source) = breaker_source
       ∧ lane_at key w' = _half_open (lane_at key w) config
       ∧ (∀ l, l.(lc_name) = ln → effective_paused w'.(lw_overrides) cn l = l.(lc_paused))
       ∧ w'.(lw_events) = w.(lw_events)
            ++ [mkEvent LANE_RESUMED (resumed_payload cn ln (lane_at key w)) None]
  else result m w = inr false ∧ w'.(lw_overrides) = w.(lw_overrides)
       ∧ w'.(lw_events) = w.(lw_events) ∧ w'.(lw_saves) = w.(lw_saves).
Proof.
  cbv zeta. destruct w as [ov evs n s]. unfold result, exec. rewrite auto_resume_run.
  cbn [lw_ticks lw_overrides fst snd].
  destruct (lift_due _ snapshot ov config (clock_at n)) eqn:E; [|done].
  pose proof (lift_due_get _ _ _ _ _ E) as Hdue.
  unfold _auto_resume_due, opt_is in Hdue.
  rewrite !andb_true_iff, !bool_decide_eq_true in Hdue.
  split_and!; try tauto; [|intros l Hl].
  - rewrite lane_at_set. by rewrite decide_True.
  - unfold effective_paused, set_lane. rewrite Hl. cbn. by rewrite lookup_insert_eq.
Qed.

(** the half-open probe: a lane the breaker tripped is lifted at the first
    tick at or after its resume time; until the first recorded failure no
    spawn failure is charged to a ticket; one more failure of the tripping
    kind pauses the lane again at once, one trip deeper, with the cool-down of
    the longer streak, and charging resumes. *)
Theorem half_open_probe ln cn config wt err at_ w :
  let key := lane_key cn ln in
  let o := lane_at key w in
  o.(paused) = Some true → o.(pause_source) = breaker_source →
  o.(circuit_auto_resume_at) = Some at_ → (at_ ≤ clock_at w.(lw_ticks))%Z →
  (error_threshold wt config ≤ error_counter wt o)%Z →
  (0 < config.(lane_circuit_breaker_threshold))%Z →
  (0 < config.(lane_circuit_auto_resume_minutes))%Z →
  let m := _maybe_auto_resume_lane ln cn w.(lw_overrides) config in
  let w1 := exec m w in
  let w2 := exec (run_op (OpError ln cn err config wt)) w1 in
  let o2 := lane_at key w2 in
  result m w = inr true
  ∧ (∀ infra, _charges_unproductive_attempt infra w1.(lw_overrides) cn ln = false)
  ∧ o2.(paused) = Some true ∧ o2.(pause_source) = breaker_source
  ∧ o2.(circuit_trip_streak) = (o.(circuit_trip_streak) + 1)%Z
  ∧ o2.(circuit_auto_resume_at)
    = trip_schedule config (o.(circuit_trip_streak) + 1) (whole_seconds (clock_at w1.(lw_ticks)))
  ∧ _charges_unproductive_attempt false w2.(lw_overrides) cn ln = true.
Proof.
  cbv zeta. intros Hp Hs Hat Hnow Hge Ht Hm.
  destruct w as [ov evs n s]. unfold lane_at in Hp, Hs, Hat, Hge.
  cbn [lw_overrides lw_ticks] in *.
  destruct (co_lanes ov !! lane_key cn ln) as [o|] eqn:Ho; cycle 1.
  { unfold get_lane in Hp. by rewrite Ho in Hp. }
  assert (Hg : get_lane (lane_key cn ln) ov = o) by (unfold get_lane; by rewrite Ho).
  rewrite Hg in *.
  assert (Hdue : lift_due (lane_key cn ln) ov ov config (clock_at n) = true).
  { unfold lift_due, _auto_resume_due, opt_is. rewrite Ho, Hat, !bool_decide_true by done.
    by rewrite (proj2 (Z.ltb_lt _ _)), (proj2 (Z.leb_le _ _)). }
  unfold result. set (w1 := exec _ _).
  assert (Hw1 : w1 = mkLaneWorld (set_lane (lane_key cn ln) (_half_open o config) ov)
    (evs ++ [mkEvent LANE_RESUMED (resumed_payload cn ln o) None]) (S n) (S s)).
  { unfold w1, exec. rewrite auto_resume_run, Hdue. by rewrite Hg. }
  change (lane_at (lane_key cn ln) (mkLaneWorld ov evs n s)) with (get_lane (lane_key cn ln) ov).
  rewrite lane_at_record, Hg.
  assert (H1 : lane_at (lane_key cn ln) w1 = _half_open o config)
    by (rewrite Hw1, lane_at_set; by rewrite decide_True).
  rewrite H1.
  destruct (record_trips (_half_open o config) (_sanitize_spawn_error_text err) config wt
    (clock_at w1.(lw_ticks))) as (T1 & T2 & T3 & T4 & _ & _ & T7 & _); [done| |].
  { rewrite half_open_counter. pose proof (error_threshold_pos wt config Ht). lia. }
  split_and!; [|intros infra|done|done|exact T3|exact T4|].
  - by rewrite auto_resume_run, Hdue.
  - rewrite Hw1. cbn [lw_overrides]. rewrite charges_set_lane. by destruct infra.
  - rewrite Hw1. cbn [run_op].
    rewrite (exec_of _ _ _ _ (record_run ln cn err config wt _ _ _ _)).
    cbn [lw_overrides]. rewrite charges_set_lane, get_set_lane, decide_True by done.
    rewrite Hw1 in T7. cbn [lw_ticks] in T7. by rewrite T7.
Qed.

(** the starved-lane page is debounced: over any run of checks of a lane,
    the inbox gains exactly the pages of the run, two consecutive pages are
    at least the configured interval apart whatever the clock does, and with
    no earlier stamp the first check with pending work pages. *)
Theorem starved_pages_debounced cn ln config pendings w :
  let pages := starved_pages cn ln config pendings w in
  (notify_all cn ln config pendings w).(lw_events)
    = w.(lw_events) ++ map (page_event cn ln) pages
  ∧ (∀ i a b, pages !! i = Some a → pages !! S i = Some b →
       a.2 + minutes config.(lane_starved_notify_interval_minutes) ≤ b.2)%Z
  ∧ (∀ p ps, pendings = p :: ps → p ≠ 0 →
       (lane_at (lane_key cn ln) w).(lane_starved_notify_next_eligible_at) = None →
       pages !! 0 = Some (p, clock_at w.(lw_ticks))).
Proof.
  cbv zeta. split_and!; [apply starved_pages_emitted| |].
  - revert w. induction pendings as [|p ps IH]; intros w i a b; [done|].
    cbn [starved_pages]. destruct (_ && _) eqn:E; [|apply IH].
    destruct i as [|i]; [|apply IH]. cbn [lookup list_lookup]. intros [= <-] Hb. cbn [snd].
    eapply starved_pages_after; [|exact Hb].
    apply andb_true_iff in E as [Hp%negb_true_iff Hd]. destruct w as [ov evs n s].
    rewrite (exec_of _ _ _ _ (notify_run cn ln p config ov evs n s)), Hp.
    unfold lane_at in Hd. cbn [lw_overrides lw_ticks] in *. rewrite Hd, lane_at_set.
    by rewrite decide_True.
  - intros p ps -> Hp%Nat.eqb_neq Hn. cbn [starved_pages]. unfold starved_due. by rewrite Hn, Hp.
Qed.
End Properties.

(** the auto-resume cool-down starts at the configured base, never
    exceeds the cap, never shrinks with the streak, and doubles with each
    consecutive trip until the cap or the exponent bound is reached. *)
Theorem cooldown_schedule base max_minutes :
  (0 ≤ base ≤ max_minutes)%Z →
  let cd := λ streak, _auto_resume_cooldown_minutes streak base max_minutes in
  cd 1%Z = base
  ∧ (∀ n, base ≤ cd n ≤ max_minutes)%Z
  ∧ (∀ n m, n ≤ m → cd n ≤ cd m)%Z
  ∧ (∀ n, 1 ≤ n ≤ _COOLDOWN_EXPONENT_CAP → cd (n + 1) = Z.min (2 * cd n) max_minutes)%Z.
Proof.
  intros Hb. cbv zeta. unfold _auto_resume_cooldown_minutes, _COOLDOWN_EXPONENT_CAP.
  assert (Hp : ∀ k, (0 ≤ k)%Z → (1 ≤ 2 ^ k)%Z)
    by (intros k Hk; change 1%Z with (2 ^ 0)%Z at 1; apply Z.pow_le_mono_r; lia).
  split_and!.
  - rewrite Z.shiftl_mul_pow2 by lia. change (Z.min (Z.max (1 - 1) 0) 30) with 0%Z. lia.
  - intros n. rewrite Z.shiftl_mul_pow2 by lia.
    specialize (Hp (Z.min (Z.max (n - 1) 0) 30) ltac:(lia)). nia.
  - intros n m Hnm. rewrite !Z.shiftl_mul_pow2 by lia. apply Z.min_le_compat_r.
    apply Z.mul_le_mono_nonneg_l; [lia|]. apply Z.pow_le_mono_r; lia.
  - intros n Hn. rewrite !Z.shiftl_mul_pow2 by lia.
    replace (Z.min (Z.max (n + 1 - 1) 0) 30) with (Z.succ (n - 1)) by lia.
    replace (Z.min (Z.max (n - 1) 0) 30) with (n - 1)%Z by lia.
    rewrite Z.pow_succ_r by lia. specialize (Hp (n - 1)%Z ltac:(lia)). nia.
Qed.

(** ** Witnesses *)

(** A clock that advances one minute per reading, and no redaction. *)
Definition minute_clock : Clock := λ n, minutes (Z.of_nat n).
Definition no_redaction : Redactor := λ s, s.
Definition sample_breaker : BreakerConfig := mkBreakerConfig 3 15 15 240.
Definition empty_overrides : ConcurrencyOverrides := mkConcurrencyOverrides None ∅ ∅.
Definition idle_world : LaneWorld := mkLaneWorld empty_overrides [] 0 0.
Definition spawn_failure (e : string) : lane_op := OpError "default" "acme" e sample_breaker false.

Section Witnesses.
#[local] Existing Instance minute_clock.
#[local] Existing Instance no_redaction.

Definition tripped_world : LaneWorld := run_ops (map spawn_failure ["a"; "b"; "c"]) idle_world.
Definition held_world : LaneWorld :=
  run_ops [OpPause "acme" "default" ["default"]] tripped_world.

(** The third failure trips for fifteen minutes. *)
Example tripped_schedule :
  (lane_at "acme/default" tripped_world).(circuit_auto_resume_at) = Some (minutes 15).
Proof. vm_compute. reflexivity. Qed.

Lemma lane_breaker_invariant_witness :
  lane_wf (lane_at "acme/default"
             (run_ops (map spawn_failure ["a"; "b"; "c"; "d"]) idle_world)).
Proof.
  apply (lane_breaker_invariant (map spawn_failure ["a"; "b"; "c"; "d"]) idle_world).
  intros key. unfold lane_at, get_lane, idle_world. cbn.
  rewrite lookup_empty. apply new_lane_wf.
Defined.

Lemma operator_hold_sticky_witness :
  let o := lane_at "acme/default" (run_ops (map spawn_failure ["d"; "e"; "f"; "g"]) held_world) in
  o.(paused) = Some true ∧ o.(pause_source) = Some "operator".
Proof.
  cbv zeta.
  destruct (operator_hold_sticky (map spawn_failure ["d"; "e"; "f"; "g"]) "acme/default"
              held_world) as (H1 & _ & H3 & _).
  - vm_compute. reflexivity.
  - apply Forall_forall. intros op Hop _.
    apply list_elem_of_fmap in Hop as (e & -> & _). reflexivity.
  - split; [exact H1|]. rewrite H3. vm_compute. reflexivity.
Defined.

Lemma breaker_trips_at_threshold_witness :
  let at_ := λ errs, lane_at "acme/default" (run_ops (map spawn_failure errs) idle_world) in
  (at_ ["a"; "b"; "c"]).(paused) = Some true ∧ (at_ ["a"; "b"]).(paused) = None.
Proof.
  cbv zeta. split.
  - apply (breaker_trips_at_threshold "default" "acme" sample_breaker false ["a"; "b"; "c"]
             idle_world); [reflexivity|reflexivity|reflexivity|].
    vm_compute. discriminate.
  - apply (breaker_trips_at_threshold "default" "acme" sample_breaker false ["a"; "b"]
             idle_world); reflexivity.
Defined.

(** One trip, then fifteen minutes later the probe. *)
Definition due_world : LaneWorld := tripped_world <| lw_ticks := 15 |>.

Lemma half_open_probe_witness :
  let m := _maybe_auto_resume_lane "default" "acme" due_world.(lw_overrides) sample_breaker in
  let w2 := exec (run_op (spawn_failure "d")) (exec m due_world) in
  result m due_world = inr true
  ∧ (lane_at "acme/default" w2).(circuit_trip_streak) = 2%Z
  ∧ (lane_at "acme/default" w2).(circuit_auto_resume_at) = Some (minutes 46).
Proof.
  cbv zeta.
  destruct (half_open_probe "default" "acme" sample_breaker false "d" (minutes 15) due_world)
    as (H1 & _ & _ & _ & H5 & H6 & _);
    [vm_compute; reflexivity|vm_compute; reflexivity|vm_compute; reflexivity
    |vm_compute; discriminate|vm_compute; discriminate|reflexivity|reflexivity|].
  split; [exact H1|]. split; [etrans; [exact H5|vm_compute; reflexivity]|].
  etrans; [exact H6|vm_compute; reflexivity].
Defined.
End Witnesses.

Lemma cooldown_schedule_witness :
  (0 ≤ 15 ≤ 240)%Z ∧ _auto_resume_cooldown_minutes 4 15 240 = 120%Z
  ∧ (∀ n, 15 ≤ _auto_resume_cooldown_minutes n 15 240 ≤ 240)%Z.
Proof.
  split; [lia|]. split; [reflexivity|].
  apply (cooldown_schedule 15 240). lia.
Defined.
