(* ===== verification/LaneDispatch.v ===== *)
(** * Lane admission: [dispatch/lanes.py], [dispatch/host_capacity.py],
      [dispatch/claim/lane_stats.py], the lane parts of [dispatch/tick.py]

    One client's turn of a tick: the slots it may fill, the walk over its
    lanes, the skip reason and the [dispatch.tick] event; and the fold of the
    fleet-wide host budget over the clients.  What a claim and its spawn do is
    an oracle: the n-th claim of a turn yields the n-th [ClaimResult].
    At the end, the bounds of a turn and of a tick. *)

From S2P Require Import Prelude.
From S2P Require Import PyStr.
From S2P Require Import Enums.
From S2P Require Import Tasks.
From S2P Require Import World.
From S2P Require Import Vocab.
From S2P Require Import Clients.
From S2P Require Import LanePause.
From S2P Require Import LaneCircuit.
From S2P Require Import LaneCircuitProps.

#[local] Open Scope cw_scope.
#[local] Open Scope Z_scope.

Definition DISPATCH_TICK : string := "dispatch.tick".

(** ** Host capacity *)

Definition _PARKED_STATUSES : gset queue_status :=
  {[ QueueItemStatus.BLOCKED_ON_USER; QueueItemStatus.AWAITING_OPERATOR_SIGNOFF ]}.

Definition parked_session_ids (queue : DevQueueStore) : gset string :=
  list_to_set (omap (λ t : TicketTask,
    if bool_decide (t.(status) ∈ _PARKED_STATUSES) then t.(session_id) else None)
    queue.(tasks)).

Definition counts_for_host (parked : gset string) (s : Session) : bool :=
  bool_decide (s.(sess_origin) = SessionOrigin.DAEMON)
  && (bool_decide (s.(sess_status) = SessionStatus.ACTIVE)
      || bool_decide (s.(sess_status) = SessionStatus.IDLE))
  && negb (bool_decide (s.(sess_id) ∈ parked)).

Definition resolve_host_capacity (sessions : list Session) (queue : DevQueueStore)
  (host_session_budget : option Z) : Z * option Z :=
  (Z.of_nat (length (filter (λ s, counts_for_host (parked_session_ids queue) s = true) sessions)),
   host_session_budget).

Record HostCapacityContext := mkHostCapacity {
  hc_running : Z; hc_budget : option Z; hc_remaining : option Z }.

Definition gated (hc : HostCapacityContext) : bool :=
  match hc.(hc_remaining) with None => false | Some r => r <=? 0 end.

Definition decremented (hc : HostCapacityContext) (spawned : Z) : HostCapacityContext :=
  match hc.(hc_remaining) with
  | None => hc
  | Some r => mkHostCapacity hc.(hc_running) hc.(hc_budget) (Some (r - spawned))
  end.

(** The tick's context: the remaining budget may start negative. *)
Definition _resolve_host_budget_snapshot (sessions : list Session) (queue : DevQueueStore)
  (host_session_budget : option Z) : HostCapacityContext :=
  let '(running, budget) := resolve_host_capacity sessions queue host_session_budget in
  mkHostCapacity running budget
    (match budget with None => None | Some b => Some (b - running) end).

Definition _apply_host_capacity_budget (available_client_slots : Z)
  (host_slots_remaining : option Z) : Z :=
  match host_slots_remaining with
  | None => available_client_slots
  | Some r => Z.min available_client_slots r
  end.

(** ** Lane occupancy *)

Definition in_lane (client_name lane_name : string) (t : TicketTask) : bool :=
  String.eqb t.(client) client_name && String.eqb t.(lane) lane_name.

Definition count_of {A} (p : A → bool) (l : list A) : Z :=
  Z.of_nat (length (filter (λ a, p a = true) l)).

(** An occupant: ticket id and status. *)
Definition lane_occupants (client_name lane_name : string) (queue : DevQueueStore)
  : list (string * queue_status) :=
  map (λ t : TicketTask, (t.(ticket_id), t.(status)))
    (filter (λ t, in_lane client_name lane_name t && occupies_lane_slot t = true)
       queue.(tasks)).

(** Later lanes of the same name overwrite earlier ones, with equal lists. *)
Definition _lane_occupants_for_client (client_name : string) (lanes : list LaneConfig)
  (queue : DevQueueStore) : list (string * list (string * queue_status)) :=
  map (λ l, (l.(lc_name), lane_occupants client_name l.(lc_name) queue)) lanes.

Definition lane_pending (client_name lane_name : string) (queue : DevQueueStore) : Z :=
  count_of (λ t : TicketTask, in_lane client_name lane_name t
              && bool_decide (t.(status) = QueueItemStatus.PENDING)) queue.(tasks).

Definition occupants_with (st : queue_status) (occupants : list (string * queue_status)) : Z :=
  count_of (λ o : string * queue_status, bool_decide (o.2 = st)) occupants.

Record LaneSlotBreakdown := mkBreakdown { bd_blocked : Z; bd_signoff : Z; bd_pending : Z }.

Definition _lane_slot_breakdown (occupants : list (string * queue_status))
  (queue : DevQueueStore) (client_name lane_name : string) : LaneSlotBreakdown :=
  mkBreakdown (occupants_with QueueItemStatus.BLOCKED_ON_USER occupants)
    (occupants_with QueueItemStatus.AWAITING_OPERATOR_SIGNOFF occupants)
    (lane_pending client_name lane_name queue).

(** [running_by_lane.get(lane, 0)] of [_resolve_client_lane_context]. *)
Definition running_by_lane (client_name : string) (queue : DevQueueStore) (lane_name : string)
  : Z :=
  count_of (λ t : TicketTask, String.eqb t.(client) client_name && occupies_lane_slot t
              && String.eqb t.(lane) lane_name) queue.(tasks).

Record LaneStat := mkLaneStat {
  ls_claimed : Z; ls_running : Z; ls_blocked : Z; ls_signoff : Z; ls_pending : Z }.

(** ** Claims *)

Record SpawnOutcome := mkSpawnOutcome {
  spawned : bool;
  usage_limit_detected : bool;
  usage_limit_reset_at : option Z;
  spawn_error : bool;
  so_error : option string;
  worktree_failure : bool;
  capability_parked : bool;
  occupied : bool }.

(** One [_claim_next_pending]: whether a backed-off row was skipped, and the
    spawn of the claimed row, if one was claimed. *)
Record ClaimResult := mkClaimResult {
  backoff_skipped : bool;
  spawn : option SpawnOutcome }.

(** The n-th claim of the turn. *)
Class ClaimOracle := claim_at : nat → ClaimResult.

(** The loop variables of a turn. *)
Record TurnState := mkTurnState {
  ts_running_count : Z;
  ts_client_spawned : Z;
  ts_available : Z;
  ts_limit : option SpawnOutcome;
  ts_error : option SpawnOutcome;
  ts_lane_cap_blocked : bool;
  ts_backoff_skipped : bool;
  ts_circuit_paused : bool;
  ts_overrides : option ConcurrencyOverrides;
  ts_lane_stats : list (string * LaneStat);
  ts_claims : nat }.

#[export] Instance TurnState_eta : RecordEta TurnState := λ s,
  mkTurnState s.(ts_running_count) s.(ts_client_spawned) s.(ts_available) s.(ts_limit)
    s.(ts_error) s.(ts_lane_cap_blocked) s.(ts_backoff_skipped) s.(ts_circuit_paused)
    s.(ts_overrides) s.(ts_lane_stats) s.(ts_claims).
#[export] Instance upd_ts_running : Updater ts_running_count := ltac:(derive_updater).
#[export] Instance upd_ts_spawned : Updater ts_client_spawned := ltac:(derive_updater).
#[export] Instance upd_ts_available : Updater ts_available := ltac:(derive_updater).
#[export] Instance upd_ts_limit : Updater ts_limit := ltac:(derive_updater).
#[export] Instance upd_ts_error : Updater ts_error := ltac:(derive_updater).
#[export] Instance upd_ts_cap : Updater ts_lane_cap_blocked := ltac:(derive_updater).
#[export] Instance upd_ts_backoff : Updater ts_backoff_skipped := ltac:(derive_updater).
#[export] Instance upd_ts_circuit : Updater ts_circuit_paused := ltac:(derive_updater).
#[export] Instance upd_ts_overrides : Updater ts_overrides := ltac:(derive_updater).
#[export] Instance upd_ts_stats : Updater ts_lane_stats := ltac:(derive_updater).
#[export] Instance upd_ts_claims : Updater ts_claims := ltac:(derive_updater).

Definition stopped (s : TurnState) : bool := is_Some_b s.(ts_limit) || is_Some_b s.(ts_error).

Section Turn.
Context {C : Clock} {R : Redactor} {CO : ClaimOracle}.
Context (client_name : string) (queue : DevQueueStore) (config : BreakerConfig).

(** The counters of a spawn outcome. *)
Definition note_outcome (o : SpawnOutcome) (s : TurnState) : TurnState :=
  let s := if o.(usage_limit_detected) then s <| ts_limit := Some o |> else s in
  let s := if o.(spawn_error) then s <| ts_error := Some o |> else s in
  if o.(spawned)
  then s <| ts_running_count := s.(ts_running_count) + 1 |>
         <| ts_client_spawned := s.(ts_client_spawned) + 1 |>
         <| ts_available := s.(ts_available) - 1 |>
  else s.

(** [for _ in range(max(0, grant))]: the claims of one lane. *)
Fixpoint claim_loop (n : nat) (lane_name : string) (lane_claimed : Z) (s : TurnState)
  : M LaneWorld (Z * TurnState) :=
  match n with
  | O => mret (lane_claimed, s)
  | S n' =>
      let r := claim_at s.(ts_claims) in
      let s := s <| ts_claims := S s.(ts_claims) |>
                 <| ts_backoff_skipped := s.(ts_backoff_skipped) || r.(backoff_skipped) |> in
      match r.(spawn) with
      | None => mret (lane_claimed, s)
      | Some o =>
          when o.(spawn_error)
            (_record_lane_spawn_error lane_name client_name (default "" o.(so_error)) config
               o.(worktree_failure)) ;;
          when o.(spawned) (_reset_lane_spawn_errors lane_name client_name) ;;
          let s := note_outcome o s in
          let lane_claimed := if o.(spawned) then lane_claimed + 1 else lane_claimed in
          if stopped s then mret (lane_claimed, s)
          else claim_loop n' lane_name lane_claimed s
      end
  end.

Definition lane_grant (l : LaneConfig) (available : Z) : Z :=
  Z.min (Z.min (l.(lc_max_parallel) - running_by_lane client_name queue l.(lc_name))
               (lane_pending client_name l.(lc_name) queue)) available.

(** A lane that is not paused. *)
Definition open_lane (l : LaneConfig) (s : TurnState) : M LaneWorld TurnState :=
  let running_in_lane := running_by_lane client_name queue l.(lc_name) in
  let bd := _lane_slot_breakdown (lane_occupants client_name l.(lc_name) queue) queue
              client_name l.(lc_name) in
  let grant := lane_grant l s.(ts_available) in
  let s := if (grant <=? 0) && (0 <? bd.(bd_pending))
           then s <| ts_lane_cap_blocked := true |> else s in
  r ← claim_loop (Z.to_nat grant) l.(lc_name) 0 s;
  mret (r.2 <| ts_lane_stats :=
    dict_set l.(lc_name)
      (mkLaneStat r.1 (running_in_lane - bd.(bd_blocked) - bd.(bd_signoff)) bd.(bd_blocked)
         bd.(bd_signoff) bd.(bd_pending)) r.2.(ts_lane_stats) |>).

(** A paused lane; the overrides are loaded once per turn. *)
Definition paused_lane (l : LaneConfig) (s : TurnState) : M LaneWorld TurnState :=
  overrides ← match s.(ts_overrides) with
              | Some o => mret o
              | None => _load_concurrency_overrides
              end;
  p ← _handle_paused_lane l.(lc_name) queue client_name overrides config;
  mret (s <| ts_overrides := Some overrides |>
          <| ts_circuit_paused := p || s.(ts_circuit_paused) |>).

Fixpoint lane_walk_loop (lanes : list LaneConfig) (s : TurnState) : M LaneWorld TurnState :=
  match lanes with
  | [] => mret s
  | l :: lanes' =>
      if s.(ts_available) <=? 0 then mret s
      else if l.(lc_paused) then
        s ← paused_lane l s;
        lane_walk_loop lanes' s
      else
        s ← open_lane l s;
        if stopped s then mret s else lane_walk_loop lanes' s
  end.
End Turn.

(** ** Skip reasons *)

Definition _resolve_low_precedence_skip_reason (lane_circuit_paused spawn_backoff_skipped : bool)
  (client_spawned : Z) : DispatchSkipReason.DispatchSkipReason :=
  if lane_circuit_paused then DispatchSkipReason.LANE_CIRCUIT_PAUSED
  else if client_spawned =? 0
  then if spawn_backoff_skipped then DispatchSkipReason.SPAWN_ERROR_BACKOFF
       else DispatchSkipReason.NO_PENDING
  else DispatchSkipReason.NONE.

Definition _resolve_dispatch_skip_reason (usage_limit_detected cap_full spawn_error
  lane_cap_blocked spawn_backoff_skipped lane_circuit_paused : bool) (client_spawned : Z)
  (host_capacity_gated : bool) : DispatchSkipReason.DispatchSkipReason :=
  if usage_limit_detected then DispatchSkipReason.USAGE_LIMITED
  else if host_capacity_gated then DispatchSkipReason.HOST_CAPACITY_GATED
  else if cap_full then DispatchSkipReason.CAP_FULL
  else if lane_cap_blocked then DispatchSkipReason.LANE_CAP_BLOCKED
  else if spawn_error then DispatchSkipReason.SPAWN_ERROR
  else _resolve_low_precedence_skip_reason lane_circuit_paused spawn_backoff_skipped
         client_spawned.

(** ** A client's turn *)

(** What [dispatch_tick] hands to a client's turn. *)
Record ClientTurn := mkClientTurn {
  ct_name : string;
  ct_lanes : list LaneConfig;
  ct_queue : DevQueueStore;
  ct_running_count : Z;
  ct_ceiling : Z;
  ct_cap : Z;
  ct_pending_count : Z;
  ct_cap_full : bool;
  ct_freshness_detail : option string }.

Record ClientDispatchResult := mkDispatchResult {
  dr_spawned : Z;
  dr_usage_limit_detected : bool;
  dr_usage_limit_reset_at : option Z }.

Definition stat_json (s : LaneStat) : json :=
  JDict [("claimed", JInt s.(ls_claimed)); ("running", JInt s.(ls_running));
         ("blocked", JInt s.(ls_blocked)); ("signoff", JInt s.(ls_signoff));
         ("pending", JInt s.(ls_pending))].

Definition occupant_json (o : string * queue_status) : json :=
  JDict [("ticket_id", JStr o.1); ("status", JStr (QueueItemStatus.status_value o.2))].

Definition of_opt_int (o : option Z) : json :=
  match o with Some z => JInt z | None => JNull end.

Section Dispatch.
Context {C : Clock} {R : Redactor}.

Definition tick_payload (ct : ClientTurn) (hc : HostCapacityContext) (s : TurnState)
  (skip_reason : DispatchSkipReason.DispatchSkipReason) : list (string * json) :=
  let occupants := _lane_occupants_for_client ct.(ct_name) ct.(ct_lanes) ct.(ct_queue) in
  [("client", JStr ct.(ct_name));
   ("claimed", JInt s.(ts_client_spawned));
   ("pending", JInt ct.(ct_pending_count));
   ("running", JInt s.(ts_running_count));
   ("cap", JInt ct.(ct_cap));
   ("skip_reason", JStr (DispatchSkipReason.skip_reason_value skip_reason));
   ("freshness_detail", of_opt_str ct.(ct_freshness_detail));
   ("lanes", JDict (map (λ kv, (kv.1, stat_json kv.2)) s.(ts_lane_stats)));
   ("lane_occupants", JDict (map (λ kv, (kv.1, JList (map occupant_json kv.2))) occupants));
   ("occupied", JInt (foldr Z.add 0 (map (λ kv, Z.of_nat (length kv.2)) occupants)));
   ("host_running", JInt hc.(hc_running));
   ("host_budget", of_opt_int hc.(hc_budget))]
  ++ match s.(ts_error) with
     | Some o => [("last_error", JStr (_sanitize_spawn_error_text (default "" o.(so_error))))]
     | None => []
     end.

Definition initial_turn (running_count available : Z) : TurnState :=
  mkTurnState running_count 0 available None None false false false None [] 0.

Definition turn_slots (ct : ClientTurn) (hc : HostCapacityContext) : Z :=
  _apply_host_capacity_budget (ct.(ct_ceiling) - ct.(ct_running_count)) hc.(hc_remaining).

Definition _dispatch_client_lanes (CO : ClaimOracle) (config : BreakerConfig) (ct : ClientTurn)
  (hc : HostCapacityContext) : M LaneWorld ClientDispatchResult :=
  s ← lane_walk_loop ct.(ct_name) ct.(ct_queue) config ct.(ct_lanes)
        (initial_turn ct.(ct_running_count) (turn_slots ct hc));
  let limited := is_Some_b s.(ts_limit) in
  let skip_reason := _resolve_dispatch_skip_reason limited ct.(ct_cap_full)
    (is_Some_b s.(ts_error)) s.(ts_lane_cap_blocked) s.(ts_backoff_skipped)
    s.(ts_circuit_paused) s.(ts_client_spawned) (gated hc) in
  lane_event DISPATCH_TICK (tick_payload ct hc s skip_reason) ;;
  mret (mkDispatchResult s.(ts_client_spawned) limited
          (match s.(ts_limit) with Some o => o.(usage_limit_reset_at) | None => None end)).

(** The host-capacity fold of [dispatch_tick] over the clients that reach
    their turn, each with its own claims. *)
Fixpoint dispatch_clients (config : BreakerConfig) (turns : list (ClaimOracle * ClientTurn))
  (hc : HostCapacityContext) : M LaneWorld (Z * HostCapacityContext) :=
  match turns with
  | [] => mret (0, hc)
  | (CO, ct) :: turns' =>
      r ← _dispatch_client_lanes CO config ct hc;
      rest ← dispatch_clients config turns' (decremented hc r.(dr_spawned));
      mret (r.(dr_spawned) + rest.1, rest.2)
  end.
End Dispatch.

(** * Admission bounds of a tick

    Slots, lane caps, the host budget and the skip reason. *)

(** ** The lane operations return *)

Section Returns.
Context {C : Clock} {R : Redactor}.

Lemma returns_of {A} (m : M LaneWorld A) w a w' : m w = (inr a, w') → returns m (λ _ _, True) w.
Proof. intros H. unfold returns, wp, result. by rewrite H. Qed.

Lemma record_returns ln cn e config wt w :
  returns (_record_lane_spawn_error ln cn e config wt) (λ _ _, True) w.
Proof. destruct w. by eapply returns_of, record_run. Qed.

Lemma reset_returns ln cn w : returns (_reset_lane_spawn_errors ln cn) (λ _ _, True) w.
Proof. destruct w. by eapply returns_of, reset_run. Qed.

Lemma handle_returns ln q cn snapshot config w :
  returns (_handle_paused_lane ln q cn snapshot config) (λ _ _, True) w.
Proof.
  destruct w. unfold returns, wp, result. rewrite handle_run. by destruct (lift_due _ _ _ _ _).
Qed.

Lemma returns_when b (m : M LaneWorld unit) w :
  returns m (λ _ _, True) w → returns (when b m) (λ _ _, True) w.
Proof. by destruct b. Qed.
End Returns.

(** ** One lane's claims *)

(** A claim that does not end the turn. *)
Definition calm (r : ClaimResult) : Prop :=
  match r.(spawn) with
  | Some o => o.(usage_limit_detected) = false ∧ o.(spawn_error) = false
  | None => True
  end.

(** [k] sessions were started between two states of the turn. *)
Definition started (k : Z) (s s' : TurnState) : Prop :=
  s'.(ts_client_spawned) = s.(ts_client_spawned) + k
  ∧ s'.(ts_running_count) = s.(ts_running_count) + k
  ∧ s'.(ts_available) = s.(ts_available) - k.

Section TurnProps.
Context {C : Clock} {R : Redactor} {CO : ClaimOracle}.
Context (client_name : string) (queue : DevQueueStore) (config : BreakerConfig).

(** The claims of a stretch of the turn: all but the last are calm, and the
    last too unless the turn stopped there. *)
Definition claims_calm (s s' : TurnState) : Prop :=
  (s.(ts_claims) ≤ s'.(ts_claims))%nat
  ∧ (∀ j, (s.(ts_claims) ≤ j)%nat → (S j < s'.(ts_claims))%nat → calm (claim_at j))
  ∧ (stopped s' = false → ∀ j, (s.(ts_claims) ≤ j < s'.(ts_claims))%nat → calm (claim_at j)).

Lemma claims_calm_refl s : claims_calm s s.
Proof. split_and!; intros; lia. Qed.

Lemma claims_calm_trans s s1 s2 :
  claims_calm s s1 → stopped s1 = false → claims_calm s1 s2 → claims_calm s s2.
Proof.
  intros (A1 & A2 & A3) Hs (B1 & B2 & B3). split_and!; [lia| |].
  - intros j Hj Hj2. destruct (decide (j < ts_claims s1)%nat); [apply A3; [done|lia]|].
    apply B2; lia.
  - intros Hs2 j Hj. destruct (decide (j < ts_claims s1)%nat); [apply A3; [done|lia]|].
    apply B3; [done|lia].
Qed.

Lemma note_outcome_spec o s :
  let s' := note_outcome o s in
  started (if o.(spawned) then 1 else 0) s s'
  ∧ s'.(ts_lane_stats) = s.(ts_lane_stats) ∧ s'.(ts_claims) = s.(ts_claims)
  ∧ (stopped s' = false → o.(usage_limit_detected) = false ∧ o.(spawn_error) = false)
  ∧ (stopped s' = false ↔ stopped s = false ∧ o.(usage_limit_detected) = false
                          ∧ o.(spawn_error) = false).
Proof.
  unfold note_outcome, stopped, started.
  destruct (usage_limit_detected o), (spawn_error o), (spawned o); cbn; split_and!;
    try reflexivity; try lia; rewrite ?orb_true_r; try done; naive_solver.
Qed.

Lemma claim_loop_returns n ln lc s w :
  stopped s = false →
  returns (claim_loop client_name config n ln lc s)
    (λ r _, ∃ k, r.1 = lc + k ∧ 0 ≤ k ≤ Z.of_nat n ∧ started k s r.2
              ∧ r.2.(ts_lane_stats) = s.(ts_lane_stats) ∧ claims_calm s r.2) w.
Proof.
  revert lc s w. induction n as [|n IH]; intros lc s w Hs; cbn [claim_loop].
  { apply returns_ret. exists 0. cbn [fst snd]. split_and!; try lia; try done.
    - unfold started. lia.
    - apply claims_calm_refl. }
  set (r := claim_at (ts_claims s)). set (s1 := s <| ts_claims := _ |> <| ts_backoff_skipped := _ |>).
  assert (H1 : started 0 s s1 ∧ ts_lane_stats s1 = ts_lane_stats s
               ∧ ts_claims s1 = S (ts_claims s) ∧ stopped s1 = stopped s).
  { unfold s1, started. cbn. split_and!; lia || done. }
  destruct H1 as (St1 & L1 & C1 & P1). clearbody s1.
  destruct (spawn r) as [o|] eqn:Ho; cycle 1.
  { apply returns_ret. exists 0. cbn [fst snd]. split_and!; try lia; try done.
    unfold claims_calm. rewrite C1. split_and!; [lia|intros; lia|].
    intros _ j Hj. replace j with (ts_claims s) by lia. unfold calm. fold r. by rewrite Ho. }
  eapply returns_seq; [apply returns_when, record_returns|]. intros [] w1 _.
  eapply returns_seq; [apply returns_when, reset_returns|]. intros [] w2 _. cbv zeta.
  destruct (note_outcome_spec o s1) as (St2 & L2 & C2 & P2 & P3).
  set (s2 := note_outcome o s1) in *. clearbody s2.
  assert (Hcalm : stopped s2 = false → calm r) by (intros Hc; unfold calm; rewrite Ho; auto).
  destruct (stopped s2) eqn:Hst.
  { apply returns_ret. exists (if spawned o then 1 else 0). cbn [fst snd].
    split_and!; [destruct (spawned o); lia|destruct (spawned o); lia|destruct (spawned o); lia| | |].
    - unfold started in *. lia.
    - congruence.
    - unfold claims_calm. rewrite C2, C1, Hst. split_and!; [lia|intros; lia|done]. }
  eapply returns_mono; [by apply IH|]. intros [lc' s'] w3 (k & Hk & Hkb & Hst' & Hl & Hc).
  cbn [fst snd] in *. exists (k + if spawned o then 1 else 0).
  split_and!; [destruct (spawned o); lia|destruct (spawned o); lia|destruct (spawned o); lia| | |].
  - unfold started in *. lia.
  - congruence.
  - eapply claims_calm_trans; [|exact Hst|exact Hc]. unfold claims_calm. rewrite C2, C1.
    split_and!; [lia|intros; lia|]. intros _ j Hj. replace j with (ts_claims s) by lia.
    by apply Hcalm.
Qed.

(** ** The lane walk *)

(** The claims a lane's own cap allows. *)
Definition lane_room (l : LaneConfig) : Z :=
  Z.max 0 (Z.min (l.(lc_max_parallel) - running_by_lane client_name queue l.(lc_name))
                 (lane_pending client_name l.(lc_name) queue)).

(** A lane's entry of the tick is within the lane's room. *)
Definition stat_ok (lanes : list LaneConfig) (kv : string * LaneStat) : Prop :=
  ∃ l, l ∈ lanes ∧ l.(lc_name) = kv.1 ∧ l.(lc_paused) = false
       ∧ 0 ≤ kv.2.(ls_claimed) ≤ lane_room l.

Lemma dict_set_elem {A} k (v : A) d kv : kv ∈ dict_set k v d → kv = (k, v) ∨ kv ∈ d.
Proof.
  induction d as [|[k' v'] d IH]; cbn; [set_solver|]. destruct (String.eqb k k'); set_solver.
Qed.

Lemma open_lane_returns l s w :
  l.(lc_paused) = false → stopped s = false → 0 < s.(ts_available) →
  returns (open_lane client_name queue config l s)
    (λ s' _, ∃ k, 0 ≤ k ≤ s.(ts_available) ∧ started k s s' ∧ claims_calm s s'
       ∧ ∀ kv, kv ∈ s'.(ts_lane_stats) → kv ∈ s.(ts_lane_stats) ∨ stat_ok [l] kv) w.
Proof.
  intros Hp Hs Ha. unfold open_lane. cbv zeta.
  set (s1 := if (_ && _)%bool then _ else s).
  assert (H1 : started 0 s s1 ∧ ts_lane_stats s1 = ts_lane_stats s ∧ ts_claims s1 = ts_claims s
               ∧ stopped s1 = stopped s).
  { unfold s1, started. destruct (_ && _)%bool; cbn; split_and!; lia || done. }
  destruct H1 as (St1 & L1 & C1 & P1). clearbody s1.
  eapply returns_seq; [apply claim_loop_returns; congruence|].
  intros [lc s2] w2 (k & Hk & Hkb & St2 & L2 & Hc). cbn [fst snd] in *.
  apply returns_ret. exists k.
  assert (Hg : k ≤ Z.max 0 (lane_grant client_name queue l s.(ts_available))) by lia.
  assert (Hroom : k ≤ lane_room l ∧ k ≤ s.(ts_available)).
  { unfold lane_grant in Hg. unfold lane_room. lia. }
  split_and!; [lia|lia|unfold started in *; cbn; lia| |].
  - unfold claims_calm in *. cbn. rewrite C1 in Hc. exact Hc.
  - cbn. intros kv [->|Hin]%dict_set_elem; [right|left; congruence].
    exists l. cbn. split_and!; [by apply list_elem_of_singleton|done|done|lia|lia].
Qed.

Lemma paused_lane_returns l s w :
  returns (paused_lane client_name queue config l s)
    (λ s' _, started 0 s s' ∧ claims_calm s s' ∧ stopped s' = stopped s
             ∧ s'.(ts_lane_stats) = s.(ts_lane_stats)) w.
Proof.
  unfold paused_lane. eapply (returns_seq _ _ (λ _ _, True)).
  { by destruct (ts_overrides s). }
  intros ov w1 _. eapply returns_seq; [apply handle_returns|]. intros p w2 _.
  apply returns_ret. unfold started, claims_calm. cbn. split_and!; try lia; try done; intros; lia.
Qed.

Lemma lane_walk_returns lanes s w :
  stopped s = false →
  returns (lane_walk_loop client_name queue config lanes s)
    (λ s' _, ∃ k, 0 ≤ k ≤ Z.max 0 s.(ts_available) ∧ started k s s' ∧ claims_calm s s'
       ∧ ∀ kv, kv ∈ s'.(ts_lane_stats) → kv ∈ s.(ts_lane_stats) ∨ stat_ok lanes kv) w.
Proof.
  revert s w. induction lanes as [|l lanes IH]; intros s w Hs; cbn [lane_walk_loop].
  { apply returns_ret. exists 0. split_and!; [lia|lia|unfold started; lia|apply claims_calm_refl|auto]. }
  destruct (Z.leb_spec s.(ts_available) 0) as [Ha|Ha].
  { apply returns_ret. exists 0. split_and!; [lia|lia|unfold started; lia|apply claims_calm_refl|auto]. }
  assert (Hmore : ∀ kv, stat_ok lanes kv → stat_ok (l :: lanes) kv).
  { intros kv (l' & Hin & Hr). exists l'. split; [by apply list_elem_of_further|done]. }
  assert (Hone : ∀ kv, stat_ok [l] kv → stat_ok (l :: lanes) kv).
  { intros kv (l' & Hin%list_elem_of_singleton & Hr). subst l'. exists l.
    split; [apply list_elem_of_here|done]. }
  destruct (lc_paused l) eqn:Hp.
  - eapply returns_seq; [apply paused_lane_returns|]. intros s1 w1 (St1 & C1 & P1 & L1).
    eapply returns_mono; [apply IH; congruence|]. intros s2 w2 (k & Hk & St2 & C2 & L2).
    exists k. unfold started in *. split_and!; [lia|lia|lia|lia|lia| |].
    + eapply claims_calm_trans; [exact C1|congruence|done].
    + intros kv [Hin|Hok]%L2; [left; congruence|right; auto].
  - eapply returns_seq; [by apply open_lane_returns|]. intros s1 w1 (k1 & Hk1 & St1 & C1 & L1).
    destruct (stopped s1) eqn:Hs1.
    + apply returns_ret. exists k1. split_and!; [lia|lia|done|done|].
      intros kv [Hin|Hok]%L1; [by left|right; auto].
    + eapply returns_mono; [by apply IH|]. intros s2 w2 (k & Hk & St2 & C2 & L2).
      exists (k1 + k). unfold started in *. split_and!; [lia|lia|lia|lia|lia| |].
      * by eapply claims_calm_trans.
      * intros kv [[Hin|Hok]%L1|Hok]%L2; auto.
Qed.
End TurnProps.

Section DispatchProps.
Context {C : Clock} {R : Redactor}.

(** What one turn promises. *)
Lemma dispatch_returns CO config ct hc w :
  returns (_dispatch_client_lanes CO config ct hc)
    (λ r _, 0 ≤ r.(dr_spawned) ≤ Z.max 0 (turn_slots ct hc)) w.
Proof.
  unfold _dispatch_client_lanes.
  eapply returns_seq; [by apply (lane_walk_returns (CO := CO))|].
  intros s w1 (k & Hk & (St & _ & _) & _). cbn [initial_turn ts_client_spawned ts_available] in *.
  rewrite returns_bind. unfold lane_event. rewrite returns_modify. apply returns_ret. cbn. lia.
Qed.
End DispatchProps.

(** ** Properties *)

Section Properties.
Context {C : Clock} {R : Redactor}.

(** a client's turn terminates without raising and within its caps: it
    starts at most as many sessions as its ceiling and the host budget leave;
    each lane that claims is open and claims no more than its own cap leaves
    and its backlog holds; the running count moves with the starts; and no
    claim is made after the first usage limit or spawn error of the turn. *)
Theorem lane_admission_bounded (CO : ClaimOracle) config ct hc w :
  let m := lane_walk_loop ct.(ct_name) ct.(ct_queue) config ct.(ct_lanes)
             (initial_turn ct.(ct_running_count) (turn_slots ct hc)) in
  ∃ s, result m w = inr s
    ∧ 0 ≤ s.(ts_client_spawned) ≤ Z.max 0 (ct.(ct_ceiling) - ct.(ct_running_count))
    ∧ (∀ r, hc.(hc_remaining) = Some r → s.(ts_client_spawned) ≤ Z.max 0 r)
    ∧ s.(ts_running_count) = ct.(ct_running_count) + s.(ts_client_spawned)
    ∧ (∀ name st, (name, st) ∈ s.(ts_lane_stats) →
         ∃ l, l ∈ ct.(ct_lanes) ∧ l.(lc_name) = name ∧ l.(lc_paused) = false
              ∧ 0 ≤ st.(ls_claimed) ≤ lane_room ct.(ct_name) ct.(ct_queue) l)
    ∧ (∀ j, (S j < s.(ts_claims))%nat → calm (claim_at j)).
Proof.
  cbv zeta.
  destruct (returns_exec _ _ _ (lane_walk_returns (CO := CO) ct.(ct_name) ct.(ct_queue) config
    ct.(ct_lanes) (initial_turn ct.(ct_running_count) (turn_slots ct hc)) w eq_refl))
    as (s & Hr & k & Hk & (S1 & S2 & S3) & (_ & Hc & _) & Hl).
  exists s. cbn [initial_turn ts_client_spawned ts_available ts_running_count ts_lane_stats
    ts_claims] in *. unfold turn_slots, _apply_host_capacity_budget in Hk.
  split_and!; [done|lia|destruct (hc_remaining hc); lia| |lia| |].
  - intros r Hrem. rewrite Hrem in Hk. lia.
  - intros name st Hin. destruct (Hl _ Hin) as [Hnil|Hok]; [by apply not_elem_of_nil in Hnil|].
    exact Hok.
  - intros j Hj. apply Hc; [lia|done].
Qed.

(** the host budget is never overrun in a tick: over any sequence of
    client turns, the sessions started together stay within what was left,
    the remaining budget is exactly what is left after them and never goes
    below a non-negative start, and with no budget configured nothing is
    tracked. *)
Theorem host_budget_respected config turns hc w :
  ∃ n hc', result (dispatch_clients config turns hc) w = inr (n, hc')
    ∧ 0 ≤ n
    ∧ hc'.(hc_running) = hc.(hc_running) ∧ hc'.(hc_budget) = hc.(hc_budget)
    ∧ match hc.(hc_remaining) with
      | None => hc' = hc
      | Some r => hc'.(hc_remaining) = Some (r - n) ∧ n ≤ Z.max 0 r
      end.
Proof.
  assert (H : returns (dispatch_clients config turns hc)
    (λ r _, 0 ≤ r.1 ∧ r.2.(hc_running) = hc.(hc_running) ∧ r.2.(hc_budget) = hc.(hc_budget)
       ∧ match hc.(hc_remaining) with
         | None => r.2 = hc
         | Some rem => r.2.(hc_remaining) = Some (rem - r.1) ∧ r.1 ≤ Z.max 0 rem
         end) w).
  { revert hc w. induction turns as [|[CO ct] turns IH]; intros hc w; cbn [dispatch_clients].
    { apply returns_ret. cbn. destruct (hc_remaining hc) as [r|] eqn:E; split_and!; try done; try lia.
      f_equal. lia. }
    eapply returns_seq; [apply dispatch_returns|]. intros r w1 Hr.
    eapply returns_seq; [apply IH|]. intros [n hc'] w2 (Hn & H1 & H2 & H3).
    apply returns_ret. cbn [fst snd] in *. unfold decremented in *.
    destruct (hc_remaining hc) as [rem|] eqn:E.
    - cbn [hc_running hc_budget hc_remaining] in *. destruct H3 as [H3 H4].
      unfold turn_slots, _apply_host_capacity_budget in Hr. rewrite E in Hr.
      split_and!; [lia|done|done| |lia]. rewrite H3. f_equal. lia.
    - rewrite E in H3. split_and!; [lia|done|done|done]. }
  apply returns_exec in H as ([n hc'] & Hr & H). by exists n, hc'.
Qed.
End Properties.
