(* ===== verification/ScopeTier.v ===== *)
(** * Scope tier, carried context and PR references

    [dispatch/routing/scope_tier.py], [dispatch/routing/pr_refs.py] and the
    scope-routing audit event of [dispatch/routing/__init__.py].  A
    [last_result] is the raw sentinel dict, [JNull] for [None]; the sentinel
    schema has admitted it, so it is never another JSON value. *)

From S2P Require Import Prelude.
From S2P Require Import PyStr.
From S2P Require Import Enums.
From S2P Require Import Tasks.
From S2P Require Import World.
From S2P Require Import Vocab.

#[local] Open Scope cw_scope.

Definition _extract_scope_tier (last_result : json) : json :=
  jget "tier" (jget "scope" last_result).

Definition persist_carried_context (t : TicketTask) (last_result : json) : TicketTask :=
  if negb (is_dict last_result) then t
  else
    let t := match as_str (jget "plan_source" last_result) with
             | Some s => if String.eqb s "" || String.eqb s PLAN_SOURCE_NONE then t
                         else t <| plan_source := Some s |>
             | None => t
             end in
    match as_str (_extract_scope_tier last_result) with
    | Some tier => if String.eqb tier "" then t else t <| computed_scope_tier := Some tier |>
    | None => t
    end.

Definition _persist_carried_context (last_result : json) : M World unit :=
  assign (λ t, persist_carried_context t last_result).

Definition _resolve_scope_tier (last_result : json) (task : TicketTask) : option string :=
  let tier := as_str (_extract_scope_tier last_result) in
  if opt_is task.(scope_hint) SCOPE_TIER_LARGE || opt_is tier SCOPE_TIER_LARGE
  then Some SCOPE_TIER_LARGE
  else match tier with
       | Some s => Some s
       | None => task.(scope_hint)
       end.

(** The [rule] values of the audit event. *)
Definition _RULE_SCOPE_GATED_APPROVAL : string := "Rule 1".
Definition _RULE_STAGE_SUCCESS : string := "Rule 3".
Definition _RULE_STAGE_WALK : string := "stage_walk".

Definition _record_scope_routing_decision (last_result : json) (rule : string)
  : M World unit :=
  t ← read id;
  record_event SCOPE_ROUTING_DECISION
    [("ticket_id", JStr t.(ticket_id));
     ("client", JStr t.(client));
     ("scope_hint", of_opt_str t.(scope_hint));
     ("sentinel_tier", _extract_scope_tier last_result);
     ("resolved_tier", of_opt_str (_resolve_scope_tier last_result t));
     ("rule", JStr rule);
     ("disposition", of_opt_str t.(disposition))]
    (Some t.(ticket_id)).

(** ** [re.findall(r"PR #(\d+)", details)]

    Non-overlapping matches, left to right; [\d+] is greedy.  Digits are the
    ASCII ones (a Unicode digit, which [\d] also matches, is not read). *)

Definition digit_val (c : ascii) : option Z :=
  let n := nat_of_ascii c in
  if Nat.leb 48 n && Nat.leb n 57 then Some (Z.of_nat n - 48)%Z else None.

(** The value of the longest digit prefix and the text after it; [None] when
    the first character is no digit. *)
Fixpoint take_digits (acc : option Z) (s : string) : option Z * string :=
  match s with
  | EmptyString => (acc, s)
  | String c s' =>
      match digit_val c with
      | Some d => take_digits (Some (default 0 acc * 10 + d)%Z) s'
      | None => (acc, s)
      end
  end.

Definition PR_PREFIX : string := "PR #".

Fixpoint pr_numbers (fuel : nat) (s : string) : list Z :=
  match fuel with
  | O => []
  | S fuel' =>
      match s with
      | EmptyString => []
      | String _ s' =>
          if starts_with PR_PREFIX s then
            match take_digits None (str_drop (String.length PR_PREFIX) s) with
            | (Some n, rest) => n :: pr_numbers fuel' rest
            | (None, _) => pr_numbers fuel' s'
            end
          else pr_numbers fuel' s'
      end
  end.

Definition _extract_blocked_on_pr (details : json) : option Z :=
  match details with
  | JStr s =>
      match pr_numbers (S (String.length s)) s with
      | [n] => Some n
      | _ => None
      end
  | _ => None
  end.

Example blocked_on_pr_one :
  _extract_blocked_on_pr (JStr "PR #42 (feat/x) is open and shares files") = Some 42%Z.
Proof. reflexivity. Qed.
Example blocked_on_pr_two : _extract_blocked_on_pr (JStr "PR #42 and PR #7") = None.
Proof. reflexivity. Qed.
Example blocked_on_pr_none : _extract_blocked_on_pr (JStr "PR #x, pr #1") = None.
Proof. reflexivity. Qed.

(** ** Lemmas *)

Lemma take_digits_length acc s : String.length (take_digits acc s).2 ≤ String.length s.
Proof.
  revert acc. induction s as [|c s IH]; intros acc; simpl; [done|].
  destruct (digit_val c); simpl; [|done]. specialize (IH (Some (default 0 acc * 10 + z)%Z)). lia.
Qed.

(** The scan is fuel-independent once the fuel covers the text. *)
Lemma pr_numbers_fuel f1 f2 s :
  String.length s < f1 → String.length s < f2 → pr_numbers f1 s = pr_numbers f2 s.
Proof.
  revert f2 s. induction f1 as [|f1 IH]; intros f2 s H1 H2; [lia|].
  destruct f2 as [|f2]; [lia|]. destruct s as [|c s]; [done|]. cbn [pr_numbers].
  simpl in H1, H2. case_match; [|apply IH; lia].
  destruct (take_digits None _) as [[n|] rest] eqn:E; [|apply IH; lia].
  pose proof (take_digits_length None (str_drop (String.length PR_PREFIX) (String c s))) as Hl.
  pose proof (str_drop_length 3 s) as Hd.
  change (str_drop (String.length PR_PREFIX) (String c s)) with (str_drop 3 s) in *.
  rewrite E in Hl. cbn [snd] in Hl. f_equal. apply IH; lia.
Qed.

(** The context a sentinel carries never clears a stored value. *)
Lemma carried_context_keeps t lr :
  (is_Some t.(plan_source) → is_Some (persist_carried_context t lr).(plan_source))
  ∧ (is_Some t.(computed_scope_tier) →
     is_Some (persist_carried_context t lr).(computed_scope_tier)).
Proof.
  unfold persist_carried_context. split; repeat case_match; simpl; eauto.
Qed.

(** A projection the carried context does not assign. *)
Lemma carried_frame {A} (f : TicketTask → A) t lr :
  (∀ t v, f (t <| plan_source := v |>) = f t) →
  (∀ t v, f (t <| computed_scope_tier := v |>) = f t) →
  f (persist_carried_context t lr) = f t.
Proof.
  intros Hp Hc. unfold persist_carried_context. repeat case_match; by rewrite ?Hc, ?Hp.
Qed.

Lemma resolve_scope_tier_large lr t :
  _resolve_scope_tier lr t = Some SCOPE_TIER_LARGE ↔
  t.(scope_hint) = Some SCOPE_TIER_LARGE
  ∨ as_str (_extract_scope_tier lr) = Some SCOPE_TIER_LARGE.
Proof.
  unfold _resolve_scope_tier.
  destruct (opt_is (scope_hint t) SCOPE_TIER_LARGE) eqn:E1; [apply opt_is_true in E1; naive_solver|].
  destruct (opt_is (as_str _) SCOPE_TIER_LARGE) eqn:E2; [apply opt_is_true in E2; naive_solver|].
  simpl. unfold opt_is in *. apply bool_decide_eq_false in E1, E2.
  destruct (as_str (_extract_scope_tier lr)); naive_solver.
Qed.

(** ** Properties *)

(** the scope tier is escalate-only: it is "large" exactly when the
    operator's hint or the sentinel's tier says so, so no sentinel can remove
    an operator's "large" and no hint can lower a sentinel's; and a sentinel
    without a tier routes at the hint. *)
Theorem scope_tier_escalate_only lr t :
  (_resolve_scope_tier lr t = Some SCOPE_TIER_LARGE ↔
   t.(scope_hint) = Some SCOPE_TIER_LARGE
   ∨ as_str (_extract_scope_tier lr) = Some SCOPE_TIER_LARGE)
  ∧ (as_str (_extract_scope_tier lr) = None → _resolve_scope_tier lr t = t.(scope_hint)).
Proof.
  split; [apply resolve_scope_tier_large|].
  intros Hn. unfold _resolve_scope_tier. rewrite Hn. simpl. rewrite orb_false_r.
  unfold opt_is. case_bool_decide; congruence.
Qed.

Lemma scope_tier_escalate_only_witness :
  _resolve_scope_tier (JDict [("scope", JDict [("tier", JNull)])])
    ((new_task "T-1" "acme" 0) <| scope_hint := Some "small" |>) = Some "small".
Proof.
  exact (proj2 (scope_tier_escalate_only (JDict [("scope", JDict [("tier", JNull)])])
    ((new_task "T-1" "acme" 0) <| scope_hint := Some "small" |>)) eq_refl).
Defined.
