(* ===== verification/ReviewGates.v ===== *)
(** * The ship-checkpoint gates

    [dispatch/review_gates.py] (REVIEW), [dispatch/impl_gates.py] (IMPL) and
    the finalize-regress repeat signal [dispatch/regress_repeat.py].  What the
    predicates read from outside the row (git probes, the branch-conflict
    verdict, the review-move rule, the gate recipes and the loaded config) is
    a [GateEnv]: one snapshot, as all reads of one routing pass happen under
    the queue lock. *)

From S2P Require Import Prelude.
From S2P Require Import PyStr.
From S2P Require Import Enums.
From S2P Require Import Tasks.
From S2P Require Import World.
From S2P Require Import Vocab.
From S2P Require Import RearmOwed.
From S2P Require Import Lifecycle.
From S2P Require Import Clients.
From S2P Require Import ScopeTier.

#[local] Open Scope cw_scope.

Class GateEnv := {
  branch_worktree : string → option string → ClientConfig → option string;
  git_head : string → option string;
  git_rev_count : string → string → option Z;
  git_merge_head : string → option bool;
  conflicting_branch : string → string → bool;
  tolerates_review_move : option ClientConfig → string → string → string → bool;
  recipe_will_release : TicketTask → json → Clients → OrchestratorConfig → bool;
  effective_config : OrchestratorConfig }.

Definition _FINALIZE_HOLD_REASON : string := "finalize_hold".
Definition _SIGNOFF_GATE_REASON : string := "signoff_gate".
Definition _REVIEW_HEALTH_GATE_REASON : string := "review_health_gate".
Definition _BRANCH_STALENESS_REASON : string := "branch_behind_main".
Definition _EMPTY_DIFF_GATE_REASON : string := "empty_diff_gate".
Definition _REVIEW_STALENESS_REASON : string := "review_artifacts_stale".
Definition _DEGRADED_HEALTH_RECOMMENDATION : string := "EXIT_FOR_HUMAN_REVIEW".
Definition _UNCONCLUDED_MERGE_REASON : string := "unconcluded_finalize_regress_merge".
Definition _FINALIZE_REGRESS_REPEAT_REASON : string := "finalize_regress_repeat".

Section Probes.
Context {E : GateEnv}.

(** [worktree._paths.resolve_task_worktree]. *)
Definition resolve_task_worktree (task : TicketTask) (c : option ClientConfig)
  : option string :=
  match task.(worktree_path) with
  | Some p => Some p
  | None => match c with None => None | Some c => branch_worktree task.(ticket_id) task.(branch) c end
  end.

(** [branch_ahead]: a missing worktree is unmeasurable. *)
Definition commits_ahead_of_default (worktree : option string) (default_branch : string)
  : option Z := p ← worktree; git_rev_count p default_branch.
Definition current_head_sha (worktree : option string) : option string :=
  worktree ≫= git_head.
Definition merge_in_progress (worktree : option string) : option bool :=
  worktree ≫= git_merge_head.
End Probes.

(** ** Reads of the raw sentinel *)

Definition _resolve_health_recommendation (last_result : json) : option string :=
  as_str (jget "recommendation" (jget "health" last_result)).

Definition _resolve_review_agents_run (last_result : json) : option Z :=
  match jget "review" last_result with
  | JDict review =>
      match dict_get_default "agents_run" (JInt 0) review with
      | JInt n => Some n
      | _ => None
      end
  | _ => None
  end.

Definition _reports_review_content (last_result : json) : bool :=
  is_dict (jget "review" last_result).

Definition _resolve_review_reviewed_sha (last_result : json) : option string :=
  as_str (jget "reviewed_sha" (jget "review" last_result)).

(** ** The gate predicates *)

Section Gates.
Context {E : GateEnv}.

Definition _should_gate_for_review_staleness (task : TicketTask) (last_result : json)
  (clients : Clients) : bool :=
  if negb (_reports_review_content last_result) then false
  else match _resolve_review_reviewed_sha last_result with
       | None => true
       | Some reviewed_sha =>
           let c := clients !! task.(client) in
           match resolve_task_worktree task c with
           | None => true
           | Some worktree =>
               match current_head_sha (Some worktree) with
               | None => true
               | Some head_sha =>
                   if String.eqb reviewed_sha head_sha then false
                   else negb (tolerates_review_move c worktree reviewed_sha head_sha)
               end
           end
       end.

Definition _should_gate_for_review_health (last_result : json) : bool :=
  opt_is (_resolve_health_recommendation last_result) _DEGRADED_HEALTH_RECOMMENDATION
  || bool_decide (_resolve_review_agents_run last_result = Some 0%Z).

Definition _should_gate_for_scope_hint (task : TicketTask) (last_result : json) : bool :=
  opt_is (_resolve_scope_tier last_result task) SCOPE_TIER_LARGE.

Definition _should_gate_for_signoff (task : TicketTask) (clients : Clients) : bool :=
  is_Some_b (resolve_signoff task clients effective_config).

Definition _gate_recipe_will_release (task : TicketTask) (last_result : json)
  (clients : Clients) : bool := recipe_will_release task last_result clients effective_config.

Definition _should_force_hold_finalize (task : TicketTask) (clients : Clients) : bool :=
  is_Some_b (resolve_hold_finalize task clients effective_config).

Definition _should_gate_for_branch_staleness (task : TicketTask) (clients : Clients) : bool :=
  match clients !! task.(client) with
  | None => false
  | Some _ => conflicting_branch task.(client) task.(ticket_id)
  end.

Definition _should_gate_for_empty_diff (task : TicketTask) (clients : Clients) : bool :=
  match clients !! task.(client) with
  | None => false
  | Some c =>
      bool_decide (commits_ahead_of_default task.(worktree_path) c.(cc_default_branch)
                   = Some 0%Z)
  end.

(** [impl_gates]. *)
Definition _should_gate_for_unconcluded_finalize_regress_merge (task : TicketTask)
  (clients : Clients) : bool :=
  match task.(finalize_regress_branch_head) with
  | None => false
  | Some branch_head =>
      match resolve_task_worktree task (clients !! task.(client)) with
      | None => true
      | Some worktree =>
          if negb (bool_decide (merge_in_progress (Some worktree) = Some false)) then true
          else if negb task.(finalize_regress_merge_conflict_detected) then false
          else match current_head_sha (Some worktree) with
               | None => true
               | Some head_sha => String.eqb head_sha branch_head
               end
      end
  end.
End Gates.

(** ** The parks *)

Section Parks.
Context {C : Clock}.

(** The body every [_park_*] helper of the two modules repeats. *)
Definition park_gate (paused_status : string) (new_status : queue_status) (disp : string)
  : M World unit :=
  needs_attention paused_status "" ;;
  transition_task_status new_status (Some disp) None None true.

Definition _park_finalize_hold : M World unit :=
  park_gate _FINALIZE_HOLD_REASON QueueItemStatus.BLOCKED_ON_USER
    FINALIZE_GATE_HELD_DISPOSITION.
Definition _park_signoff_gate : M World unit :=
  park_gate _SIGNOFF_GATE_REASON QueueItemStatus.AWAITING_OPERATOR_SIGNOFF
    SIGNOFF_GATE_DISPOSITION.
Definition _park_scope_hint_gate : M World unit :=
  park_gate APPROVAL_GATE_REASON QueueItemStatus.BLOCKED_ON_USER APPROVAL_GATE_REASON.
Definition _park_review_health_gate : M World unit :=
  park_gate _REVIEW_HEALTH_GATE_REASON QueueItemStatus.BLOCKED_ON_USER
    REVIEW_HEALTH_GATE_DISPOSITION.
Definition _park_branch_staleness_gate : M World unit :=
  park_gate _BRANCH_STALENESS_REASON QueueItemStatus.BLOCKED_ON_USER
    BRANCH_STALENESS_GATE_DISPOSITION.
Definition _park_empty_diff_gate : M World unit :=
  park_gate _EMPTY_DIFF_GATE_REASON QueueItemStatus.BLOCKED_ON_USER
    EMPTY_DIFF_GATE_DISPOSITION.
Definition _park_review_staleness_gate : M World unit :=
  park_gate _REVIEW_STALENESS_REASON QueueItemStatus.BLOCKED_ON_USER
    REVIEW_STALENESS_GATE_DISPOSITION.
Definition _park_unconcluded_finalize_regress_merge_gate : M World unit :=
  park_gate _UNCONCLUDED_MERGE_REASON QueueItemStatus.BLOCKED_ON_USER
    UNCONCLUDED_FINALIZE_REGRESS_MERGE_GATE_DISPOSITION.

(** ** The finalize-regress repeat marker *)

Definition clear_regress_marker (t : TicketTask) : TicketTask :=
  t <| finalize_regress_branch_head := None |>
    <| finalize_regress_merge_conflict_detected := false |>.

Definition _consume_finalize_regress_repeat (current_branch_head : option string)
  : M World bool :=
  t ← read id;
  if negb (bool_decide (t.(stage) = Stage.REVIEW)) then mret false
  else
    assign clear_regress_marker ;;
    match t.(finalize_regress_branch_head) with
    | None => mret false
    | Some marker => mret (bool_decide (Some marker = current_branch_head))
    end.

Definition is_parked (s : queue_status) : bool :=
  bool_decide (s = QueueItemStatus.BLOCKED_ON_USER)
  || bool_decide (s = QueueItemStatus.AWAITING_OPERATOR_SIGNOFF).

Definition _maybe_emit_finalize_regress_repeat_signal (is_repeat : bool) : M World unit :=
  if negb is_repeat then mret tt
  else
    t ← read id;
    if negb (is_parked t.(status)) then mret tt
    else needs_attention _FINALIZE_REGRESS_REPEAT_REASON
           ("attempts=" +:+ str_of_Z t.(regress_attempts)
            +:+ " branch_head=" +:+ py_repr t.(stage_base_ref)
            +:+ " pr_url=" +:+ py_repr t.(pr_url)
            +:+ " disposition=" +:+ py_repr t.(disposition)).
End Parks.
