(* ===== verification/Requeue.v ===== *)
(** * Operator releases: [dev_queue/requeue.py], the requeue half of
      [dev_queue/adoption.py], [dev_queue/drain.py]

    [requeue_ticket] puts a parked row back to PENDING, at its stage or at
    another one; [precheck_requeue] predicts its refusals without writing;
    [drain_held_tickets] requeues every availability park of a client;
    [unblock_ticket] clears a salvage park.  The row is mutated in place under
    the queue lock and saved last, so a raise before the save drops the row's
    mutations - but not the events already recorded.  What is read outside the
    queue and the session file is the class [OpsEnv]. *)

From S2P Require Import Prelude PyStr Enums Tasks World Vocab RearmOwed Lifecycle GateBackoff.
From S2P Require Import Clients Crud ScopeTier ReviewGates.

#[local] Open Scope cw_scope.

(** ** Names *)

Definition AUTO_DEV_LABEL_PREFIX : string := "auto-dev/".
Definition SHORT_SESSION_ID_LEN : nat := 8.
Definition TRACKER_GITHUB_ISSUES : string := "github-issues".
Definition REQUEUE_REVIEW_DELIVERY_DEGRADED : string := "requeue.review_delivery_degraded".
Definition ADOPTED_HEAD_DRIFT_DISPOSITION : string := "adopted_head_drift".
Definition LEGACY_ADOPT_PR_NOT_GREEN_DISPOSITION : string := "adopt_pr_not_green".
Definition ADOPT_PR_STATE_UNKNOWN_DISPOSITION : string := "adopt_pr_state_unknown".
Definition ADOPT_PR_PARK_DISPOSITIONS : gset string :=
  {[ ADOPT_PR_STATE_UNKNOWN_DISPOSITION; LEGACY_ADOPT_PR_NOT_GREEN_DISPOSITION ]}.
Definition ANCESTRY_SAME : string := "same".
Definition ANCESTRY_DESCENDANT : string := "descendant".
Definition ANCESTRY_NOT_DESCENDANT : string := "not_descendant".
Definition ANCESTRY_UNKNOWN : string := "unknown".

(** A re-pin lands at review or earlier. *)
Definition _REPIN_ALLOWED_STAGES : list StageT :=
  [Stage.HARDEN; Stage.PLAN; Stage.IMPL; Stage.REVIEW].

Definition _REQUEUE_FROM_CANCELLED_STATUSES : gset queue_status :=
  {[ QueueItemStatus.CANCELLED ]}.
Definition _REQUEUE_FROM_FAILED_STATUSES : gset queue_status := {[ QueueItemStatus.FAILED ]}.
Definition _REQUEUE_FROM_COMPLETED_STATUSES : gset queue_status :=
  {[ QueueItemStatus.COMPLETED ]}.

Record AdoptedPrSnapshot := mkAdoptedPrSnapshot {
  aps_pr_url : string; aps_branch : string; aps_head_sha : string; aps_is_draft : bool }.

(** What a re-pin reports. *)
Record Repinned := mkRepinned {
  adopted_head_sha_old : string;
  adopted_head_sha_new : string;
  adopted_ancestry_result : option string }.

(** The keyword arguments of [requeue_ticket]. *)
Record RequeueArgs := mkRequeueArgs {
  stage_override : option string;
  allow_regress : bool;
  from_cancelled : bool;
  from_failed : bool;
  from_completed : bool;
  ignore_session_ids : gset string;
  idempotent_pending : bool;
  infer_regress : bool;
  reset_attempts : bool;
  repin_adopted_head : bool;
  adopt_recheck : option AdoptedPrSnapshot;
  new_feedback : option ReviewFeedback }.

Definition default_args : RequeueArgs :=
  mkRequeueArgs None false false false false ∅ false false false false None None.

Record RequeueResult := mkRequeueResult {
  rr_from_stage : StageT;
  rr_to_stage : StageT;
  rr_ticket_id : string;
  rr_client : string;
  regressed : bool;
  rr_regress_attempts : Z;
  from_cancelled_applied : bool;
  from_failed_applied : bool;
  from_completed_applied : bool;
  already_pending : bool;
  regress_inferred : bool;
  attempts_reset : bool;
  prior_unproductive_attempts : Z;
  attempts_reset_was_capped : bool;
  rr_adopted : option Repinned }.

(** ** The outside world

    [roster]: the fail-closed roster read, [None] when it raised [OSError] or
    [ValueError], [Some None] when it was unreadable.  Paths are strings;
    [read_text] is [None] for a missing, unreadable or undecodable file. *)
Class OpsEnv := {
  roster : option (option (gset string));
  worktree_path_for : ClientConfig → string → string;
  path_exists : string → bool;
  _checked_out_branch : string → option string;
  read_text : string → option string;
  resolve_tracker : ClientConfig → option string;
  fetch_approved_plan_comment : string → ClientConfig → option string;
  branch_head_sha_on_origin : string → ClientConfig → option string;
  is_ancestor : ClientConfig → string → string → option bool }.

(** A pure refusal as a step of a computation. *)
Definition of_sum {S A} (r : exn + A) : M S A :=
  match r with inl e => raise e | inr a => mret a end.

(** A row computation with a result on one row of the loaded store. *)
Definition with_row {A} (t : TicketTask) (m : M World A) : M QueueWorld (A * TicketTask) :=
  λ q,
  let '(r, w) := m (mkWorld t q.(q_events) q.(q_ticks)) in
  (match r with inl e => inl e | inr a => inr (a, w_task w) end,
   q <| q_events := w_events w |> <| q_ticks := w_ticks w |>).

(** ** The row [_find_ticket] returns, with its position *)

Definition indexed (ts : list TicketTask) : list (nat * TicketTask) := imap pair ts.

Fixpoint newest_at (best : nat * TicketTask) (l : list (nat * TicketTask))
  : nat * TicketTask :=
  match l with
  | [] => best
  | p :: l' => newest_at (if Z.ltb best.2.(created_at) p.2.(created_at) then p else best) l'
  end.

Definition _newest_at (l : list (nat * TicketTask)) : option (nat * TicketTask) :=
  match l with [] => None | p :: l' => Some (newest_at p l') end.

Definition _find_ticket_at (store : DevQueueStore) (tid cl : string)
  : option (nat * TicketTask) :=
  let matches := filter (λ p, is_row tid cl p.2 = true) (indexed store.(tasks)) in
  let live := filter (λ p, is_live_status p.2.(status) = true) matches in
  let blocked := filter (λ p, p.2.(status) ∈ _APPROVABLE_STATUSES) matches in
  match live with
  | _ :: _ => _newest_at live
  | [] => match blocked with
          | _ :: _ => _newest_at blocked
          | [] => _newest_at matches
          end
  end.

(** ** Live sessions *)

Definition is_hex_char (c : ascii) : bool :=
  let n := nat_of_ascii c in
  (Nat.leb 48 n && Nat.leb n 57) || (Nat.leb 97 n && Nat.leb n 102).

Definition _is_native_surface_ref (ref : string) : bool :=
  Nat.eqb (String.length ref) SHORT_SESSION_ID_LEN && str_forallb is_hex_char ref.

(** [name.partition("/")] keeps what follows the first slash. *)
Definition ticket_id_for_session (session_name : string) : option string :=
  let tail := match str_split1 "/" session_name with Some (_, b) => b | None => "" end in
  if starts_with AUTO_DEV_LABEL_PREFIX tail
  then Some (str_drop (String.length AUTO_DEV_LABEL_PREFIX) tail)
  else None.

Definition session_is_live (s : Session) : bool :=
  bool_decide (s.(sess_status) = SessionStatus.ACTIVE)
  || bool_decide (s.(sess_status) = SessionStatus.IDLE).

(** [session_daemon_liveness(...).in_roster], which entails [native_surface]. *)
Definition session_in_roster (live_short_ids : gset string) (s : Session) : bool :=
  match s.(sess_surface_ref) with
  | None => false
  | Some ref => _is_native_surface_ref ref && bool_decide (ref ∈ live_short_ids)
  end.

Definition live_for_ticket (tid cl : string) (live_short_ids : gset string) (s : Session)
  : bool :=
  String.eqb s.(sess_client) cl && session_is_live s
  && opt_is (ticket_id_for_session s.(sess_name)) tid
  && session_in_roster live_short_ids s.

Definition find_live_sessions_for_ticket (sessions : list Session) (tid cl : string)
  (live_short_ids : gset string) : list Session :=
  filter (λ s, live_for_ticket tid cl live_short_ids s = true) sessions.

(** ** Stage gates of a requeue *)

Definition is_pending_requeue_noop (task : TicketTask) (override : option string)
  (regress : bool) : bool :=
  bool_decide (task.(status) = QueueItemStatus.PENDING)
  && negb regress
  && match override with
     | None => true
     | Some v => String.eqb v (Stage.stage_value task.(stage))
     end.

Definition _validate_requeue_stages (task : TicketTask) (stages : list StageT)
  (target : StageT) : exn + unit :=
  if negb (bool_decide (task.(stage) ∈ stages)) then inl RequeueStageError
  else if negb (bool_decide (target ∈ stages)) then inl RequeueStageError
  else inr tt.

(** [stages.index(a) < stages.index(b)]; both are members where it is read. *)
Definition stage_before (stages : list StageT) (a b : StageT) : bool :=
  match index_of a stages, index_of b stages with
  | Some i, Some j => Nat.ltb i j
  | _, _ => false
  end.

(** [true] is ["regress"]. *)
Definition _classify_requeue_move (task : TicketTask) (stages : list StageT) (target : StageT)
  (regress infer : bool) : exn + bool :=
  match _validate_requeue_stages task stages target with
  | inl e => inl e
  | inr _ =>
      if negb (stage_before stages target task.(stage)) then inr false
      else if negb (regress || infer) then inl RequeueStageError
      else if negb (bool_decide (task.(status) ∈ _APPROVABLE_STATUSES))
           then inl RequeueStageError
      else inr true
  end.

Definition _forward_gate_applied (task : TicketTask) (a : RequeueArgs)
  : exn + bool * bool * bool :=
  let approvable := bool_decide (task.(status) ∈ _APPROVABLE_STATUSES) in
  let cancelled_ok :=
    a.(from_cancelled) && bool_decide (task.(status) ∈ _REQUEUE_FROM_CANCELLED_STATUSES) in
  let failed_ok :=
    a.(from_failed) && bool_decide (task.(status) ∈ _REQUEUE_FROM_FAILED_STATUSES) in
  let completed_ok :=
    a.(from_completed) && bool_decide (task.(status) ∈ _REQUEUE_FROM_COMPLETED_STATUSES) in
  if negb (approvable || cancelled_ok || failed_ok || completed_ok)
  then inl RequeueStateError
  else inr (cancelled_ok, failed_ok, completed_ok).

(** ** The adoption half *)

Definition _repin_target_stage (task : TicketTask) (override : option string)
  : exn + StageT :=
  match override with
  | None => inr task.(stage)
  | Some v => match Stage.of_value v with Some s => inr s | None => inl ValueError end
  end.

(** [inr true] is a refusal. *)
Definition adopted_requeue_refusal (task : TicketTask) (a : RequeueArgs) : exn + bool :=
  let repin := a.(repin_adopted_head) in
  let recheck := is_Some_b a.(adopt_recheck) in
  let drift := opt_is task.(disposition) ADOPTED_HEAD_DRIFT_DISPOSITION in
  let intake := opt_in task.(disposition) ADOPT_PR_PARK_DISPOSITIONS in
  if drift && negb repin then inr true
  else if repin && negb drift then inr true
  else
    let rest := inr (intake && negb recheck || recheck && negb intake) in
    if repin || recheck then
      match _repin_target_stage task a.(stage_override) with
      | inl e => inl e
      | inr s => if negb (bool_decide (s ∈ _REPIN_ALLOWED_STAGES)) then inr true else rest
      end
    else rest.

(** ** The operations *)

Section Requeue.
Context {C : Clock} {G : GateEnv} {E : OpsEnv}.

Definition _live_short_ids_or_refuse : exn + gset string :=
  match roster with
  | Some (Some ids) => inr ids
  | _ => inl RequeueRosterUnreadableError
  end.

Definition _refuse_if_live_session (sessions : list Session) (tid cl : string)
  (ignored : gset string) : exn + unit :=
  match _live_short_ids_or_refuse with
  | inl e => inl e
  | inr ids =>
      match filter (λ s, s.(sess_id) ∉ ignored)
              (find_live_sessions_for_ticket sessions tid cl ids) with
      | [] => inr tt
      | live => inl (RequeueLiveSessionError (map sess_id live))
      end
  end.

Definition _impl_bypass_worktree_path (task : TicketTask) (c : ClientConfig) : string :=
  worktree_path_for c (resolve_feature_branch task.(ticket_id) (Some c) (Some task)).

Record _ImplBypassPlanCheck := mkImplBypassPlanCheck {
  available : bool; tracker_checked : bool; tracker : option string }.

Definition local_plan_ok (task : TicketTask) (c : ClientConfig) : bool :=
  let branch := resolve_feature_branch task.(ticket_id) (Some c) (Some task) in
  let wt_path := _impl_bypass_worktree_path task c in
  path_exists wt_path && bool_decide (_checked_out_branch wt_path = Some branch)
  && match read_text (wt_path +:+ "/.cw/plan.md") with
     | Some body => _plan_body_signoff_ok body
     | None => false
     end.

Definition _impl_bypass_plan_available (task : TicketTask) (c : ClientConfig)
  (allow_tracker_fallback : bool) : _ImplBypassPlanCheck :=
  if local_plan_ok task c then mkImplBypassPlanCheck true false None
  else if negb allow_tracker_fallback then mkImplBypassPlanCheck false false None
  else
    let tr := resolve_tracker c in
    if is_Some_b tr && negb (opt_is tr TRACKER_GITHUB_ISSUES)
    then mkImplBypassPlanCheck false false tr
    else
      mkImplBypassPlanCheck
        match fetch_approved_plan_comment task.(ticket_id) c with
        | Some body => _plan_body_signoff_ok body
        | None => false
        end true tr.

(** A forward bypass into IMPL needs an approved plan. *)
Definition impl_bypass_refused (task : TicketTask) (c : ClientConfig) (stages : list StageT)
  (target : StageT) : bool :=
  bool_decide (target = Stage.IMPL) && stage_before stages task.(stage) target
  && negb (_impl_bypass_plan_available task c true).(available).

Definition _apply_requeue_stage (stages : list StageT) (c : ClientConfig) (a : RequeueArgs)
  : M World bool :=
  match a.(stage_override) with
  | None => mret false
  | Some v =>
      match Stage.of_value v with
      | None => raise ValueError
      | Some target =>
          task ← read id;
          regress ← of_sum (_classify_requeue_move task stages target a.(allow_regress)
                              a.(infer_regress));
          if (regress : bool) then
            let merge_conflict_detected :=
              bool_decide (task.(stage) = Stage.FINALIZE)
              && bool_decide (merge_in_progress (resolve_task_worktree task (Some c)) = Some true)
            in
            _stage_regress target merge_conflict_detected ;;
            mret true
          else if impl_bypass_refused task c stages target then raise RequeueStageError
          else
            _advance_stage stages target ;;
            mret false
      end
  end.

Record _ReviewDeliverability := mkReviewDeliverability {
  deliverable : bool; rd_reason : string; rd_backend : string; rd_tracker : option string }.

Definition _review_reentry_deliverable (task : TicketTask) (client_name : string)
  (c : ClientConfig) : _ReviewDeliverability :=
  let backend := resolve_executor_backend Stage.REVIEW task c in
  let tr := resolve_tracker c in
  if String.eqb backend CLAUDE_NATIVE_BACKEND then mkReviewDeliverability true "" backend tr
  else if String.eqb backend CODEX_BACKEND then
    if opt_is tr TRACKER_GITHUB_ISSUES then mkReviewDeliverability true "" backend tr
    else mkReviewDeliverability false
           ("REVIEW-stage backend 'codex' for client " +:+ py_repr (Some client_name)
            +:+ " can only deliver operator tracker comments on a github-issues tracker")
           backend tr
  else mkReviewDeliverability false
         ("REVIEW-stage backend " +:+ py_repr (Some backend)
          +:+ " has no operator-comment delivery path") backend tr.

(** *** Adoption *)

Definition classify_ancestry (c : ClientConfig) (old new : string) : string :=
  if String.eqb old new then ANCESTRY_SAME
  else match is_ancestor c old new with
       | None => ANCESTRY_UNKNOWN
       | Some true => ANCESTRY_DESCENDANT
       | Some false => ANCESTRY_NOT_DESCENDANT
       end.

Definition set_pin (sha : string) (t : TicketTask) : TicketTask :=
  t <| adopted_head_sha := Some sha |> <| adopted_repin_due := false |>.

Definition _repin_to_origin_head (c : ClientConfig) : M World Repinned :=
  task ← read id;
  match task.(adopted_head_sha) with
  | None => raise RequeueStateError
  | Some old =>
      let branch := resolve_feature_branch task.(ticket_id) (Some c) (Some task) in
      match branch_head_sha_on_origin branch c with
      | None => raise RequeueStateError
      | Some head =>
          if negb (bool_decide (is_ancestor c old head = Some true))
          then raise RequeueStateError
          else
            assign (set_pin head) ;;
            mret (mkRepinned old head None)
      end
  end.

Definition _repin_to_recheck (c : ClientConfig) (recheck : AdoptedPrSnapshot)
  : M World Repinned :=
  task ← read id;
  if negb (bool_decide (Some recheck.(aps_pr_url) = task.(adopted_pr_url)))
     || negb (bool_decide (Some recheck.(aps_branch) = task.(branch)))
  then raise RequeueStateError
  else
    let old := default "" task.(adopted_head_sha) in
    let ancestry := classify_ancestry c old recheck.(aps_head_sha) in
    assign (set_pin recheck.(aps_head_sha)) ;;
    mret (mkRepinned old recheck.(aps_head_sha) (Some ancestry)).

Definition apply_adopted_requeue (c : ClientConfig) (a : RequeueArgs)
  : M World (option Repinned) :=
  task ← read id;
  refused ← of_sum (adopted_requeue_refusal task a);
  if (refused : bool) then raise RequeueStateError
  else if a.(repin_adopted_head) then r ← _repin_to_origin_head c; mret (Some r)
  else match a.(adopt_recheck) with
       | Some recheck => r ← _repin_to_recheck c recheck; mret (Some r)
       | None => mret None
       end.

(** *** The requeue *)

(** [(prior, was_capped)]. *)
Definition _reset_unproductive_attempts : M World (Z * bool) :=
  task ← read id;
  let was_capped := opt_is task.(disposition)
    (DispatchSkipReason.skip_reason_value DispatchSkipReason.ATTEMPT_CAP_BLOCKED) in
  assign (λ t, t <| unproductive_attempts := 0%Z |>) ;;
  mret (task.(unproductive_attempts), was_capped).

(** The idempotent no-op's result: the defaults of [_requeue_result]. *)
Definition pending_result (task : TicketTask) (from_stage : StageT) : RequeueResult :=
  mkRequeueResult from_stage task.(stage) task.(ticket_id) task.(client)
    false 0 false false false true false false 0 false None.

Definition _requeue_result (a : RequeueArgs) (task : TicketTask) (from_stage : StageT)
  (reg : bool) (applied : bool * bool * bool) (prior : Z) (capped : bool)
  (adopted : option Repinned) : RequeueResult :=
  mkRequeueResult from_stage task.(stage) task.(ticket_id) task.(client)
    reg (if reg then task.(regress_attempts) else 0%Z)
    applied.1.1 applied.1.2 applied.2 false (reg && negb a.(allow_regress))
    a.(reset_attempts) prior capped adopted.

Definition forward_reset (t : TicketTask) : TicketTask :=
  t <| regress_attempts := 0%Z |> <| regressed_into_stage := None |>.

(** The forward/same-stage half: the gate reads the row as it was found. *)
Definition requeue_forward (found : TicketTask) (a : RequeueArgs)
  : M World (bool * bool * bool) :=
  applied ← of_sum (_forward_gate_applied found a);
  _reset_for_same_stage_requeue ;;
  assign forward_reset ;;
  mret applied.

Definition delivery_degraded (tid cl : string) (d : _ReviewDeliverability)
  : list (string * json) :=
  [("ticket_id", JStr tid); ("client", JStr cl); ("reason", JStr d.(rd_reason));
   ("backend", JStr d.(rd_backend)); ("tracker", of_opt_str d.(rd_tracker))].

Definition warn_review_delivery (tid cl : string) (c : ClientConfig) : M World unit :=
  task ← read id;
  let d := _review_reentry_deliverable task cl c in
  when (bool_decide (task.(stage) = Stage.REVIEW) && negb d.(deliverable))
    (record_event REQUEUE_REVIEW_DELIVERY_DEGRADED (delivery_degraded tid cl d) (Some tid)).

(** What precedes the client lookup: the mutations a refusal discards. *)
Definition requeue_prepare (a : RequeueArgs) : M World (Z * bool) :=
  match a.(new_feedback) with
  | Some f => assign (λ t, t <| review_feedback := Some f |>)
  | None => mret tt
  end ;;
  pc ← if a.(reset_attempts) then _reset_unproductive_attempts else mret (0%Z, false);
  assign clear_gate_block_wait ;;
  mret pc.

(** What follows the idempotent no-op. *)
Definition requeue_move (a : RequeueArgs) (tid cl : string) (c : ClientConfig)
  (stages : list StageT) (from_stage : StageT) (pc : Z * bool) : M World RequeueResult :=
  adopted ← apply_adopted_requeue c a;
  if a.(allow_regress) && negb (is_Some_b a.(stage_override)) then raise RequeueStageError
  else
    found ← read id;
    reg ← _apply_requeue_stage stages c a;
    applied ← (if (reg : bool) then mret (false, false, false) else requeue_forward found a);
    warn_review_delivery tid cl c ;;
    task ← read id;
    mret (_requeue_result a task from_stage reg applied pc.1 pc.2 adopted).

(** The body under the lock on the found row; [true] when the store is saved. *)
Definition requeue_body (clients : Clients) (a : RequeueArgs) (tid cl : string)
  : M World (RequeueResult * bool) :=
  pc ← requeue_prepare a;
  match clients !! cl with
  | None => raise (CwError "Unknown client")
  | Some c =>
      task ← read id;
      let stages := resolve_pipeline_stages task c in
      if a.(idempotent_pending)
         && is_pending_requeue_noop task a.(stage_override) a.(allow_regress)
      then mret (pending_result task task.(stage), false)
      else
        r ← requeue_move a tid cl c stages task.(stage) pc;
        mret (r, true)
  end.

Definition requeue_ticket (sessions : list Session) (clients : Clients) (tid cl : string)
  (a : RequeueArgs) : M QueueWorld RequeueResult :=
  of_sum (_refuse_if_live_session sessions tid cl a.(ignore_session_ids)) ;;
  store ← load_dev_queue;
  match _find_ticket_at store tid cl with
  | None => raise (CwError "No dev-queue task found")
  | Some (i, task) =>
      r ← with_row task (requeue_body clients a tid cl);
      when r.1.2 (save_dev_queue (set_tasks (<[i := r.2]> store.(tasks)) store)) ;;
      mret r.1.1
  end.

(** *** The prediction *)

Definition precheck_row (clients : Clients) (a : RequeueArgs) (cl : string)
  (task : TicketTask) : exn + unit :=
  match adopted_requeue_refusal task a with
  | inl e => inl e
  | inr true => inl RequeueStateError
  | inr false =>
      match clients !! cl with
      | None => inl (CwError "Unknown client")
      | Some c =>
          let stages := resolve_pipeline_stages task c in
          let forward := match _forward_gate_applied task a with
                         | inl e => inl e | inr _ => inr tt end in
          match a.(stage_override) with
          | None => if a.(allow_regress) then inl RequeueStageError else forward
          | Some v =>
              match Stage.of_value v with
              | None => inl ValueError
              | Some target =>
                  match _classify_requeue_move task stages target a.(allow_regress)
                          a.(infer_regress) with
                  | inl e => inl e
                  | inr true => inr tt
                  | inr false => forward
                  end
              end
          end
      end
  end.

Definition precheck_requeue (sessions : list Session) (clients : Clients) (tid cl : string)
  (a : RequeueArgs) (store : DevQueueStore) : exn + unit :=
  let no_row := CwError "No dev-queue task found" in
  let rest :=
    match _refuse_if_live_session sessions tid cl a.(ignore_session_ids) with
    | inl e => inl e
    | inr _ => match _find_ticket_at store tid cl with
               | None => inl no_row
               | Some (_, task) => precheck_row clients a cl task
               end
    end in
  if a.(idempotent_pending) then
    match _find_ticket_at store tid cl with
    | None => inl no_row
    | Some (_, task) =>
        if is_pending_requeue_noop task a.(stage_override) a.(allow_regress) then inr tt
        else rest
    end
  else rest.
End Requeue.

(** ** Drain *)

Inductive DrainStatus :=
  | REQUEUED | FAILED | WOULD_REQUEUE | SKIPPED_LIVE_SESSION | SKIPPED_ROSTER_UNREADABLE.

Record DrainOutcome := mkDrainOutcome {
  do_ticket_id : string;
  do_client : string;
  do_status : DrainStatus;
  do_error : option exn;
  do_from_stage : option StageT;
  do_to_stage : option StageT }.

Definition select_held_tickets (store : DevQueueStore) (cl : string) (ln : option string)
  : list TicketTask :=
  filter (λ t, String.eqb t.(client) cl && opt_in t.(disposition) DRAIN_DISPOSITIONS
               && match ln with None => true | Some l => String.eqb t.(lane) l end = true)
    store.(tasks).

Definition classify_requeue_live_session_error (e : exn) : option DrainStatus :=
  match e with
  | RequeueRosterUnreadableError => Some SKIPPED_ROSTER_UNREADABLE
  | RequeueLiveSessionError _ => Some SKIPPED_LIVE_SESSION
  | _ => None
  end.

(** The two [except] clauses; [None] lets the exception through. *)
Definition drain_failure (task : TicketTask) (cl : string) (e : exn) : option DrainOutcome :=
  match classify_requeue_live_session_error e with
  | Some st => Some (mkDrainOutcome task.(ticket_id) cl st (Some e) None None)
  | None => if is_CwError e
            then Some (mkDrainOutcome task.(ticket_id) cl FAILED (Some e) None None)
            else None
  end.

(** Between two requeues of a batch no lock is held: [Ambient] is what the
    other processes did before the n-th one and what that one reads. *)
Class Ambient := {
  amb_queue : nat → QueueWorld → QueueWorld;
  amb_sessions : nat → list Session;
  amb_gate : nat → GateEnv;
  amb_ops : nat → OpsEnv }.

Section Drain.
Context {C : Clock} {A : Ambient}.

Definition drain_one (clients : Clients) (cl : string) (n : nat) (task : TicketTask)
  : M QueueWorld DrainOutcome := λ q,
  let q := amb_queue n q in
  match @requeue_ticket C (amb_gate n) (amb_ops n) (amb_sessions n) clients
          task.(ticket_id) cl default_args q with
  | (inr r, q') => (inr (mkDrainOutcome task.(ticket_id) cl REQUEUED None
                           (Some r.(rr_from_stage)) (Some r.(rr_to_stage))), q')
  | (inl e, q') => match drain_failure task cl e with
                   | Some o => (inr o, q')
                   | None => (inl e, q')
                   end
  end.

Fixpoint drain_loop (clients : Clients) (cl : string) (n : nat) (held : list TicketTask)
  : M QueueWorld (list DrainOutcome) :=
  match held with
  | [] => mret []
  | task :: held' =>
      o ← drain_one clients cl n task;
      os ← drain_loop clients cl (S n) held';
      mret (o :: os)
  end.

Definition would_requeue (cl : string) (task : TicketTask) : DrainOutcome :=
  mkDrainOutcome task.(ticket_id) cl WOULD_REQUEUE None None None.

Definition drain_held_tickets (clients : Clients) (cl : string) (ln : option string)
  (dry_run : bool) : M QueueWorld (list DrainOutcome) :=
  store ← load_dev_queue;
  let held := select_held_tickets store cl ln in
  if dry_run then mret (map (would_requeue cl) held)
  else drain_loop clients cl 0 held.
End Drain.

(** ** Unblock *)

(** The queue file and the session file. *)
Record OpsWorld := mkOpsWorld { ow_queue : QueueWorld; ow_sessions : list Session }.

Definition on_queue {A} (m : M QueueWorld A) : M OpsWorld A := λ w,
  let '(r, q) := m w.(ow_queue) in (r, mkOpsWorld q w.(ow_sessions)).

(** [CwState.find_by_name_or_id]: the scan runs from the newest session. *)
Definition find_by_name_or_id (sessions : list Session) (identifier : string)
  : exn + option (nat * Session) :=
  let newest_first := reverse (imap pair sessions) in
  match list_find (λ p : nat * Session, String.eqb p.2.(sess_id) identifier = true)
          newest_first with
  | Some (_, p) => inr (Some p)
  | None =>
      match filter (λ p : nat * Session, String.eqb p.2.(sess_name) identifier = true)
              newest_first with
      | [] => inr None
      | [p] => inr (Some p)
      | _ => inl (AmbiguousSessionIdentifierError identifier)
      end
  end.

(** The bound session, when it is park-marked. *)
Definition parked_session (sessions : list Session) (sid : option string)
  : exn + (nat * Session) :=
  match sid with
  | None => inl UnblockStateError
  | Some s =>
      match find_by_name_or_id sessions s with
      | inl e => inl e
      | inr None => inl UnblockStateError
      | inr (Some p) =>
          if opt_is p.2.(sess_reap_reason) SALVAGE_PARKED_value then inr p
          else inl UnblockStateError
      end
  end.

Section Unblock.
Context {C : Clock}.

Definition unblock_row : M World unit :=
  task ← read id;
  if negb (bool_decide (task.(status) = QueueItemStatus.BLOCKED_ON_USER))
  then raise UnblockStateError
  else transition_task_status QueueItemStatus.PENDING None None None true ;;
       clear_session_anchors.

(** The part under the queue lock. *)
Definition unblock_locked (tid cl : string) : M QueueWorld unit :=
  store ← load_dev_queue;
  match _find_ticket_at store tid cl with
  | None => raise (CwError "No dev-queue task found")
  | Some (i, task) =>
      t' ← on_row task unblock_row;
      save_dev_queue (set_tasks (<[i := t']> store.(tasks)) store)
  end.

(** [race]: what the other processes do between the unlocked pre-check and
    the sessions lock. *)
Definition unblock_ticket (race : OpsWorld → OpsWorld) (tid cl : string) : M OpsWorld unit :=
  w ← get;
  match _find_ticket_at w.(ow_queue).(q_store) tid cl with
  | None => raise (CwError "No dev-queue task found")
  | Some (_, task) =>
      if negb (bool_decide (task.(status) = QueueItemStatus.BLOCKED_ON_USER))
      then raise UnblockStateError
      else
        modify race ;;
        w ← get;
        p ← of_sum (parked_session w.(ow_sessions) task.(session_id));
        on_queue (unblock_locked tid cl) ;;
        modify (λ w, mkOpsWorld w.(ow_queue)
          (<[p.1 := p.2 <| sess_last_result := None |> <| sess_reap_reason := None |>]>
             w.(ow_sessions)))
  end.
End Unblock.
