(* ===== verification/RequeueProps.v ===== *)
(** * The operator releases' contract

    [requeue_effect] is the closed form of a requeue on one row: the refusal
    and the events already recorded, or the row that is saved.  From it: what
    a requeue lands and clears on every branch, that a refusal leaves the
    queue file alone, that the lock-free prediction agrees with the call, that
    no live session is overtaken, that a drain never aborts and releases
    every park it selected, and that unblocking is all or nothing. *)

From S2P Require Import Prelude PyStr Enums Tasks World Vocab RearmOwed Lifecycle GateBackoff.
From S2P Require Import Clients Crud CrudProps ScopeTier ReviewGates Requeue.

#[local] Open Scope cw_scope.

(** ** The found row *)

Lemma newest_at_snd p l :
  snd (newest_at p l) = newest_from p.2 (map snd l)
  ∧ (newest_at p l = p ∨ newest_at p l ∈ l).
Proof.
  revert p. induction l as [|p' l IH]; intros p; cbn [newest_at newest_from map]; [by auto|].
  destruct (IH (if Z.ltb p.2.(created_at) p'.2.(created_at) then p' else p)) as [-> H].
  split; [by destruct (Z.ltb _ _)|].
  destruct H as [->|H]; [|right; by apply list_elem_of_further].
  destruct (Z.ltb _ _); [right; apply list_elem_of_here|by left].
Qed.

Lemma newest_at_spec l p : _newest_at l = Some p →
  _newest_by_created_at (map snd l) = Some p.2 ∧ p ∈ l.
Proof.
  destruct l as [|p0 l]; [done|]. intros [= <-]. cbn.
  destruct (newest_at_snd p0 l) as [-> H]. split; [done|].
  destruct H as [->|H]; [apply list_elem_of_here|by apply list_elem_of_further].
Qed.

Lemma newest_at_None l : _newest_at l = None → l = [].
Proof. by destruct l. Qed.

Lemma filter_snd (P : TicketTask → Prop) `{∀ t, Decision (P t)} (l : list (nat * TicketTask)) :
  map snd (filter (λ p, P p.2) l) = filter P (map snd l).
Proof.
  induction l as [|p l IH]; [done|]. cbn [map]. rewrite !filter_cons.
  destruct (decide (P p.2)); cbn [map]; by rewrite IH.
Qed.

Lemma indexed_snd ts : map snd (indexed ts) = ts.
Proof.
  unfold indexed. change (map snd) with (fmap (M := list) (@snd nat TicketTask)).
  rewrite fmap_imap. induction ts as [|t ts IH] using rev_ind; [done|].
  rewrite imap_app, IH. done.
Qed.

Lemma indexed_lookup ts i t : (i, t) ∈ indexed ts → ts !! i = Some t.
Proof.
  intros [j Hj]%list_elem_of_lookup_1. unfold indexed in Hj.
  rewrite list_lookup_imap in Hj. apply fmap_Some in Hj as (u & Hu & [= -> ->]). done.
Qed.

Lemma find_at_spec store tid cl i t :
  _find_ticket_at store tid cl = Some (i, t) →
  _find_ticket store tid cl = Some t ∧ store.(tasks) !! i = Some t
  ∧ is_row tid cl t = true.
Proof.
  unfold _find_ticket_at, _find_ticket, rows_of. cbv zeta.
  pose proof (filter_snd (λ t, is_row tid cl t = true) (indexed store.(tasks))) as Hr.
  rewrite indexed_snd in Hr. cbv beta in Hr. rewrite <- Hr.
  pose proof (filter_snd (λ t, is_live_status t.(status) = true)) as Hl.
  pose proof (filter_snd (λ t, t.(status) ∈ _APPROVABLE_STATUSES)) as Hb.
  cbv beta in Hl, Hb. rewrite <- Hl, <- Hb. clear Hr Hl Hb.
  set (m := filter (λ p, is_row tid cl p.2 = true) (indexed (tasks store))).
  assert (Hm : ∀ p, p ∈ m → tasks store !! p.1 = Some p.2 ∧ is_row tid cl p.2 = true).
  { intros [j u] [Hr Hin]%list_elem_of_filter. split; [by apply indexed_lookup|done]. }
  assert (Hf : ∀ l p, (∀ x, x ∈ l → x ∈ m) → _newest_at l = Some p →
            _newest_by_created_at (map snd l) = Some p.2
            ∧ tasks store !! p.1 = Some p.2 ∧ is_row tid cl p.2 = true).
  { intros l p Hl [H1 H2]%newest_at_spec. split; [done|]. by apply Hm, Hl. }
  destruct (filter (λ p, is_live_status p.2.(status) = true) m) as [|p1 l1] eqn:E1.
  - cbn [map]. destruct (filter (λ p, p.2.(status) ∈ _APPROVABLE_STATUSES) m) as [|p2 l2] eqn:E2.
    + cbn [map]. intros H. apply (Hf m (i, t)) in H; [done|done].
    + intros H. cbn [map]. apply (Hf (p2 :: l2) (i, t)) in H; [done|].
      intros x Hx. rewrite <- E2 in Hx. by apply list_elem_of_filter in Hx as [_ ?].
  - intros H. cbn [map]. apply (Hf (p1 :: l1) (i, t)) in H; [done|].
    intros x Hx. rewrite <- E1 in Hx. by apply list_elem_of_filter in Hx as [_ ?].
Qed.

(** Nothing open is passed over for a closed row. *)
Lemma find_at_open store tid cl i t u :
  _find_ticket_at store tid cl = Some (i, t) →
  u ∈ rows_of tid cl store.(tasks) → is_open u → is_open t.
Proof.
  intros (Hf & _ & _)%find_at_spec Hu Ho.
  unfold _find_ticket in Hf. cbv zeta in Hf.
  assert (Hopen : ∀ s, is_live_status s = true ∨ s ∈ _APPROVABLE_STATUSES →
            is_open_status s = true) by (intros []; vm_compute; intuition congruence).
  assert (Hsplit : is_live_status u.(status) = true ∨ u.(status) ∈ _APPROVABLE_STATUSES).
  { unfold is_open in Ho. destruct u.(status) eqn:Es; vm_compute in Ho;
      try done; try (by left); right; vocab_decide. }
  destruct (filter (λ t, is_live_status t.(status) = true) _) as [|v vs] eqn:E1.
  - destruct (filter (λ t, t.(status) ∈ _APPROVABLE_STATUSES) _) as [|w ws] eqn:E2.
    + exfalso. destruct Hsplit as [Hl|Hb].
      * assert (Hx : u ∈ []) by (rewrite <- E1; by apply list_elem_of_filter).
        by apply not_elem_of_nil in Hx.
      * assert (Hx : u ∈ []) by (rewrite <- E2; by apply list_elem_of_filter).
        by apply not_elem_of_nil in Hx.
    + apply newest_by_spec in Hf as [Hin _]. rewrite <- E2 in Hin.
      apply list_elem_of_filter in Hin as [Hin _]. apply Hopen. by right.
  - apply newest_by_spec in Hf as [Hin _]. rewrite <- E1 in Hin.
    apply list_elem_of_filter in Hin as [Hin _]. apply Hopen. by left.
Qed.

(** ** The closed form of a requeue on one row *)

(** A refusal with what is already in the inbox, or the result, whether the
    store is saved, the row and the events. *)
Inductive Effect (A : Type) :=
  | Refused (e : exn) (evs : list event)
  | Done (a : A) (t : TicketTask) (evs : list event).
Arguments Refused {A} e evs.
Arguments Done {A} a t evs.

Lemma Done_inj {A} (a b : A) t u evs evs' :
  Done a t evs = Done b u evs' → b = a ∧ u = t ∧ evs' = evs.
Proof. by intros [= -> -> ->]. Qed.

(** [m] on [t] has the effect [eff], wherever the inbox and the clock are. *)
Definition has_effect {A} (m : M World A) (t : TicketTask) (eff : Effect A) : Prop :=
  ∀ evs n,
    match eff with
    | Refused e evs' => ∃ t', m (mkWorld t evs n) = (inl e, mkWorld t' (evs ++ evs') n)
    | Done a t' evs' => m (mkWorld t evs n) = (inr a, mkWorld t' (evs ++ evs') n)
    end.

(** Sequencing: what [k] does to the row and the events [m] left. *)
Definition then_effect {A B} (eff : Effect A) (k : A → TicketTask → Effect B) : Effect B :=
  match eff with
  | Refused e evs => Refused e evs
  | Done a t evs => match k a t with
                    | Refused e evs' => Refused e (evs ++ evs')
                    | Done b t' evs' => Done b t' (evs ++ evs')
                    end
  end.

Lemma effect_bind {A B} (m : M World A) (k : A → M World B) t eff keff :
  has_effect m t eff → (∀ a t', has_effect (k a) t' (keff a t')) →
  has_effect (m ≫= k) t (then_effect eff keff).
Proof.
  intros Hm Hk evs n. specialize (Hm evs n). unfold mbind, M_bind.
  destruct eff as [e evs'|a t' evs']; cbn [then_effect].
  - destruct Hm as [t' ->]. eauto.
  - rewrite Hm. specialize (Hk a t' (evs ++ evs') n).
    destruct (keff a t') as [e evs''|b t'' evs'']; rewrite app_assoc; done.
Qed.

Lemma effect_ret {A} (a : A) t : has_effect (mret a) t (Done a t []).
Proof. intros evs n. by rewrite app_nil_r. Qed.
Lemma effect_raise {A} e t : has_effect (raise e : M World A) t (Refused e []).
Proof. intros evs n. exists t. by rewrite app_nil_r. Qed.
Lemma effect_of_sum {A} (r : exn + A) t :
  has_effect (of_sum r) t match r with inl e => Refused e [] | inr a => Done a t [] end.
Proof. destruct r; [apply effect_raise|apply effect_ret]. Qed.
Lemma effect_read {A} (f : TicketTask → A) t : has_effect (read f) t (Done (f t) t []).
Proof. intros evs n. by rewrite app_nil_r. Qed.
Lemma effect_assign f t : has_effect (assign f) t (Done tt (f t) []).
Proof. intros evs n. by rewrite app_nil_r. Qed.

#[export] Hint Resolve effect_ret effect_raise effect_of_sum effect_read effect_assign : cw.

(** The first statement is a read: its value is known. *)
Lemma effect_read_bind {A B} (f : TicketTask → A) (k : A → M World B) t eff :
  has_effect (k (f t)) t eff → has_effect (read f ≫= k) t eff.
Proof. intros H evs n. apply H. Qed.

Lemma effect_sum_bind {A B} (r : exn + A) (k : A → M World B) t eff :
  match r with
  | inl e => eff = Refused e []
  | inr a => has_effect (k a) t eff
  end → has_effect (of_sum r ≫= k) t eff.
Proof. destruct r as [e|a]; [intros ->; apply effect_raise|by intros H evs n; apply H]. Qed.

Lemma effect_assign_ret {A} f (a : A) t :
  has_effect (assign f ;; mret a) t (Done a (f t) []).
Proof. intros evs n. by rewrite app_nil_r. Qed.

Lemma effect_fmap {A B} (m : M World A) (f : A → B) t eff :
  has_effect m t eff →
  has_effect (a ← m; mret (f a)) t
    match eff with Refused e evs => Refused e evs | Done a t' evs => Done (f a) t' evs end.
Proof.
  intros Hm evs n. specialize (Hm evs n). unfold mbind, M_bind.
  destruct eff as [e evs'|a t' evs']; [destruct Hm as [t' ->]; eauto|by rewrite Hm].
Qed.

#[export] Hint Resolve effect_assign_ret : cw.

Lemma effect_eq {A} {m : M World A} {t eff} eff' :
  has_effect m t eff → eff = eff' → has_effect m t eff'.
Proof. by intros H <-. Qed.

Inductive Move := Stay | Forward (s : StageT) | Back (s : StageT).

Definition is_back (m : Move) : bool := match m with Back _ => true | _ => false end.

(** The sequence of a requeue's statements after its adoption half, over any
    helpers, flattened into cases. *)
Lemma sequence_eq {P R : Type} (rp : exn + P) (pin : P → TicketTask) (needs_stage : bool)
  (plan : TicketTask → exn + Move) (mrow : Move → TicketTask → TicketTask)
  (mev : Move → TicketTask → list event) (gate : TicketTask → exn + bool * bool * bool)
  (fin : TicketTask → TicketTask) (fev wev : TicketTask → list event)
  (res : P → bool → bool * bool * bool → TicketTask → R) :
  then_effect match rp with inl e => Refused e [] | inr r => Done r (pin r) [] end
    (λ r t1, if needs_stage then Refused RequeueStageError []
       else then_effect
         match plan t1 with
         | inl e => Refused e []
         | inr m => Done (is_back m) (mrow m t1) (mev m t1)
         end
         (λ reg t2, then_effect
           (if (reg : bool) then Done (false, false, false) t2 []
            else match gate t1 with
                 | inl e => Refused e []
                 | inr ap => Done ap (fin t2) (fev t2)
                 end)
           (λ ap t3, Done (res r reg ap t3) t3 ([] ++ wev t3))))
  = match rp with
    | inl e => Refused e []
    | inr r =>
        if needs_stage then Refused RequeueStageError []
        else
          match plan (pin r) with
          | inl e => Refused e []
          | inr m =>
              let t2 := mrow m (pin r) in
              if is_back m
              then Done (res r true (false, false, false) t2) t2 (mev m (pin r) ++ wev t2)
              else match gate (pin r) with
                   | inl e => Refused e (mev m (pin r))
                   | inr ap => Done (res r false ap (fin t2)) (fin t2)
                                 ((mev m (pin r) ++ fev t2) ++ wev (fin t2))
                   end
          end
    end.
Proof.
  destruct rp as [e|r]; [done|]. cbn [then_effect]. destruct needs_stage; [done|].
  destruct (plan (pin r)) as [e|m]; [done|]. cbn [then_effect].
  destruct (is_back m); [done|]. destruct (gate (pin r)); cbn [then_effect app];
    [by rewrite app_nil_r|by rewrite app_assoc].
Qed.

Section Effects.
Context {C : Clock} {G : GateEnv} {E : OpsEnv}.

(** *** Preparation *)

Definition prepared (a : RequeueArgs) (t : TicketTask) : TicketTask :=
  let t := match a.(new_feedback) with
           | Some f => t <| review_feedback := Some f |> | None => t end in
  clear_gate_block_wait
    (if a.(reset_attempts) then t <| unproductive_attempts := 0%Z |> else t).

Definition prior_charge (a : RequeueArgs) (t : TicketTask) : Z * bool :=
  if a.(reset_attempts)
  then (t.(unproductive_attempts),
        opt_is t.(disposition)
          (DispatchSkipReason.skip_reason_value DispatchSkipReason.ATTEMPT_CAP_BLOCKED))
  else (0%Z, false).

Lemma prepare_effect a t :
  has_effect (requeue_prepare a) t (Done (prior_charge a t) (prepared a t) []).
Proof.
  intros evs n. rewrite app_nil_r.
  unfold requeue_prepare, prior_charge, prepared, _reset_unproductive_attempts.
  destruct (new_feedback a), (reset_attempts a); reflexivity.
Qed.

(** *** Adoption *)

Definition repin_of (c : ClientConfig) (a : RequeueArgs) (t : TicketTask)
  : exn + option Repinned :=
  match adopted_requeue_refusal t a with
  | inl e => inl e
  | inr true => inl RequeueStateError
  | inr false =>
      if a.(repin_adopted_head) then
        match t.(adopted_head_sha) with
        | None => inl RequeueStateError
        | Some old =>
            match branch_head_sha_on_origin
                    (resolve_feature_branch t.(ticket_id) (Some c) (Some t)) c with
            | None => inl RequeueStateError
            | Some head => if bool_decide (is_ancestor c old head = Some true)
                           then inr (Some (mkRepinned old head None))
                           else inl RequeueStateError
            end
        end
      else match a.(adopt_recheck) with
           | None => inr None
           | Some r =>
               if bool_decide (Some r.(aps_pr_url) = t.(adopted_pr_url))
                  && bool_decide (Some r.(aps_branch) = t.(branch))
               then let old := default "" t.(adopted_head_sha) in
                    inr (Some (mkRepinned old r.(aps_head_sha)
                                 (Some (classify_ancestry c old r.(aps_head_sha)))))
               else inl RequeueStateError
           end
  end.

Lemma repin_origin_run c t :
  has_effect (_repin_to_origin_head c) t
    match t.(adopted_head_sha) with
    | None => Refused RequeueStateError []
    | Some old =>
        match branch_head_sha_on_origin
                (resolve_feature_branch t.(ticket_id) (Some c) (Some t)) c with
        | None => Refused RequeueStateError []
        | Some head => if bool_decide (is_ancestor c old head = Some true)
                       then Done (mkRepinned old head None) (set_pin head t) []
                       else Refused RequeueStateError []
        end
    end.
Proof.
  apply effect_read_bind. cbn [id].
  destruct (adopted_head_sha t) as [old|]; [|apply effect_raise].
  destruct (branch_head_sha_on_origin _ c) as [head|]; [|apply effect_raise].
  destruct (bool_decide _); [apply effect_assign_ret|apply effect_raise].
Qed.

Lemma repin_recheck_run c r t :
  has_effect (_repin_to_recheck c r) t
    (if bool_decide (Some r.(aps_pr_url) = t.(adopted_pr_url))
        && bool_decide (Some r.(aps_branch) = t.(branch))
     then let old := default "" t.(adopted_head_sha) in
          Done (mkRepinned old r.(aps_head_sha)
                  (Some (classify_ancestry c old r.(aps_head_sha)))) (set_pin r.(aps_head_sha) t) []
     else Refused RequeueStateError []).
Proof.
  apply effect_read_bind. cbn [id].
  destruct (bool_decide (Some (aps_pr_url r) = _)); [|apply effect_raise].
  destruct (bool_decide (Some (aps_branch r) = _)); [apply effect_assign_ret|apply effect_raise].
Qed.

Definition repinned_row (r : option Repinned) (t : TicketTask) : TicketTask :=
  match r with Some p => set_pin p.(adopted_head_sha_new) t | None => t end.

Definition adopt_effect (c : ClientConfig) (a : RequeueArgs) (t : TicketTask)
  : Effect (option Repinned) :=
  match repin_of c a t with
  | inl e => Refused e []
  | inr r => Done r (repinned_row r t) []
  end.

Lemma adopt_run c a t : has_effect (apply_adopted_requeue c a) t (adopt_effect c a t).
Proof.
  unfold adopt_effect, repin_of, apply_adopted_requeue.
  apply effect_read_bind, effect_sum_bind. cbn [id].
  destruct (adopted_requeue_refusal t a) as [e|[]]; [done|apply effect_raise|].
  destruct (repin_adopted_head a); [|destruct (adopt_recheck a) as [r|]].
  - eapply effect_eq; [apply effect_fmap, repin_origin_run|].
    destruct (adopted_head_sha t); [|done]. destruct (branch_head_sha_on_origin _ c); [|done].
    by destruct (bool_decide _).
  - eapply effect_eq; [apply effect_fmap, repin_recheck_run|].
    by destruct (bool_decide _ && bool_decide _).
  - apply effect_ret.
Qed.

(** *** The stage *)

Definition plan_move (c : ClientConfig) (a : RequeueArgs) (stages : list StageT)
  (t : TicketTask) : exn + Move :=
  match a.(stage_override) with
  | None => inr Stay
  | Some v =>
      match Stage.of_value v with
      | None => inl ValueError
      | Some s =>
          match _classify_requeue_move t stages s a.(allow_regress) a.(infer_regress) with
          | inl e => inl e
          | inr true => inr (Back s)
          | inr false => if impl_bypass_refused t c stages s then inl RequeueStageError
                         else inr (Forward s)
          end
      end
  end.

Definition merge_flag (c : ClientConfig) (t : TicketTask) : bool :=
  bool_decide (t.(stage) = Stage.FINALIZE)
  && bool_decide (merge_in_progress (resolve_task_worktree t (Some c)) = Some true).

Definition move_row (c : ClientConfig) (stages : list StageT) (m : Move) (t : TicketTask)
  : TicketTask :=
  match m with
  | Stay => t
  | Forward s => lift_high_water stages s (move_stage s t)
  | Back s => regress_row s (merge_flag c t) t
  end.

Definition move_events (c : ClientConfig) (stages : list StageT) (m : Move) (t : TicketTask)
  : list event :=
  match m with
  | Stay => []
  | Forward s => stage_change_events t t.(stage) s "advance"
  | Back s =>
      pend_events false (count_regress s (merge_flag c t) t.(stage) (move_stage s t))
      ++ stage_change_events t t.(stage) s "regress"
  end.

Lemma classify_inr t stages s reg inf b :
  _classify_requeue_move t stages s reg inf = inr b →
  t.(stage) ∈ stages ∧ s ∈ stages ∧ b = stage_before stages s t.(stage)
  ∧ (b = true → reg || inf = true ∧ t.(status) ∈ _APPROVABLE_STATUSES).
Proof.
  unfold _classify_requeue_move, _validate_requeue_stages.
  destruct (bool_decide (stage t ∈ stages)) eqn:E1; [|done].
  destruct (bool_decide (s ∈ stages)) eqn:E2; [|done]. cbn.
  apply bool_decide_eq_true in E1, E2.
  destruct (stage_before stages s (stage t)); cbn; [|intros [= <-]; done].
  destruct (reg || inf) eqn:E3; [|done]. cbn.
  destruct (bool_decide (status t ∈ _)) eqn:E4; [|done]. apply bool_decide_eq_true in E4.
  by intros [= <-].
Qed.

Lemma stage_change_same t t' old new dir :
  t'.(ticket_id) = t.(ticket_id) → t'.(client) = t.(client) →
  stage_change_events t' old new dir = stage_change_events t old new dir.
Proof. unfold stage_change_events. by intros -> ->. Qed.

Lemma advance_stage_effect stages s t :
  s ∈ stages →
  has_effect (_advance_stage stages s) t
    (Done t.(stage) (lift_high_water stages s (move_stage s t))
       (stage_change_events t t.(stage) s "advance")).
Proof.
  intros Hin evs n. unfold _advance_stage, _consume_red_recovery_evidence.
  run_reads. rewrite (bind_run _ _ _ _ _ (raise_high_water_run _ _ _ _ _ Hin)).
  change (consume_red_recovery_evidence (t <| stage := s |>) t.(stage) s) with (move_stage s t).
  run_step @emit_stage_change_run.
  rewrite (stage_change_same t); [done|by autorewrite with row..].
Qed.

Lemma count_regress_keys s mc old t :
  (count_regress s mc old t).(ticket_id) = t.(ticket_id)
  ∧ (count_regress s mc old t).(client) = t.(client)
  ∧ (count_regress s mc old t).(lane) = t.(lane).
Proof. unfold count_regress. by repeat case_match. Qed.

Lemma regress_row_keys s mc t :
  (regress_row s mc t).(ticket_id) = t.(ticket_id)
  ∧ (regress_row s mc t).(client) = t.(client) ∧ (regress_row s mc t).(lane) = t.(lane).
Proof.
  unfold regress_row, pend. autorewrite with row.
  destruct (count_regress_keys s mc t.(stage) (move_stage s t)) as (-> & -> & ->).
  by autorewrite with row.
Qed.

Lemma regress_effect s mc t :
  has_effect (_stage_regress s mc) t
    (Done tt (regress_row s mc t)
       (pend_events false (count_regress s mc t.(stage) (move_stage s t))
        ++ stage_change_events t t.(stage) s "regress")).
Proof.
  intros evs n. destruct (regress_row_keys s mc t) as (H1 & H2 & _).
  rewrite regress_run, (stage_change_same t _ _ _ _ H1 H2). reflexivity.
Qed.

Lemma apply_stage_effect stages c a t :
  has_effect (_apply_requeue_stage stages c a) t
    match plan_move c a stages t with
    | inl e => Refused e []
    | inr m => Done (is_back m) (move_row c stages m t) (move_events c stages m t)
    end.
Proof.
  unfold _apply_requeue_stage, plan_move.
  destruct (stage_override a) as [v|]; [|apply effect_ret].
  destruct (Stage.of_value v) as [s|]; [|apply effect_raise].
  apply effect_read_bind, effect_sum_bind. cbn [id].
  destruct (_classify_requeue_move _ _ _ _ _) as [e|[]] eqn:Ec; [done|..].
  - cbv zeta. fold (merge_flag c t).
    apply (effect_fmap (A := unit) _ (λ _, true) _ _ (regress_effect s (merge_flag c t) t)).
  - destruct (impl_bypass_refused t c stages s); [apply effect_raise|].
    apply classify_inr in Ec as (_ & Hs & _).
    apply (effect_fmap _ (λ _, false) _ _ (advance_stage_effect stages s t Hs)).
Qed.

(** *** The forward reset and the delivery warning *)

Definition requeue_events (t : TicketTask) : list event :=
  pend_events true
    (if bool_decide (t.(stage) = Stage.REVIEW)
     then clear_review_approval (t <| must_fix_override := None |>) else t).

Definition warn_events (tid cl : string) (c : ClientConfig) (t : TicketTask) : list event :=
  let d := _review_reentry_deliverable t cl c in
  if bool_decide (t.(stage) = Stage.REVIEW) && negb d.(deliverable)
  then [mkEvent REQUEUE_REVIEW_DELIVERY_DEGRADED (delivery_degraded tid cl d) (Some tid)]
  else [].

Lemma forward_effect found a t :
  has_effect (requeue_forward found a) t
    match _forward_gate_applied found a with
    | inl e => Refused e []
    | inr applied => Done applied (forward_reset (requeue_row t)) (requeue_events t)
    end.
Proof.
  apply effect_sum_bind. destruct (_forward_gate_applied found a) as [e|applied]; [done|].
  intros evs n. by rewrite (bind_run _ _ _ _ _ (requeue_run t evs n)).
Qed.

Lemma warn_effect tid cl c t :
  has_effect (warn_review_delivery tid cl c) t (Done tt t (warn_events tid cl c t)).
Proof.
  apply effect_read_bind. cbn [id]. unfold warn_events. cbv zeta.
  destruct (bool_decide _ && negb _); [done|]. apply effect_ret.
Qed.

(** *** The whole body *)

Definition landed (a : RequeueArgs) (tid cl : string) (c : ClientConfig) (from : StageT)
  (pc : Z * bool) (rp : option Repinned) (reg : bool) (applied : bool * bool * bool)
  (t : TicketTask) (evs : list event) : Effect RequeueResult :=
  Done (_requeue_result a t from reg applied pc.1 pc.2 rp) t (evs ++ warn_events tid cl c t).

Definition move_effect (a : RequeueArgs) (tid cl : string) (c : ClientConfig)
  (stages : list StageT) (from : StageT) (pc : Z * bool) (t : TicketTask)
  : Effect RequeueResult :=
  match repin_of c a t with
  | inl e => Refused e []
  | inr rp =>
      if a.(allow_regress) && negb (is_Some_b a.(stage_override))
      then Refused RequeueStageError []
      else
        let t1 := repinned_row rp t in
        match plan_move c a stages t1 with
        | inl e => Refused e []
        | inr m =>
            let t2 := move_row c stages m t1 in
            let evs := move_events c stages m t1 in
            if is_back m then landed a tid cl c from pc rp true (false, false, false) t2 evs
            else match _forward_gate_applied t1 a with
                 | inl e => Refused e evs
                 | inr applied => landed a tid cl c from pc rp false applied
                                    (forward_reset (requeue_row t2))
                                    (evs ++ requeue_events t2)
                 end
        end
  end.

Lemma landing_effect a tid cl c from pc rp reg applied t :
  has_effect (warn_review_delivery tid cl c ;;
              task ← read id; mret (_requeue_result a task from reg applied pc.1 pc.2 rp)) t
    (landed a tid cl c from pc rp reg applied t []).
Proof. intros evs n. by rewrite (bind_run _ _ _ _ _ (warn_effect tid cl c t evs n)). Qed.

(** The statements after the adoption half, in sequence. *)
Definition stage_effect (c : ClientConfig) (a : RequeueArgs) (stages : list StageT)
  (t : TicketTask) : Effect bool :=
  match plan_move c a stages t with
  | inl e => Refused e []
  | inr m => Done (is_back m) (move_row c stages m t) (move_events c stages m t)
  end.

Definition gate_effect (found : TicketTask) (a : RequeueArgs) (reg : bool) (t : TicketTask)
  : Effect (bool * bool * bool) :=
  if reg then Done (false, false, false) t []
  else match _forward_gate_applied found a with
       | inl e => Refused e []
       | inr applied => Done applied (forward_reset (requeue_row t)) (requeue_events t)
       end.

Definition after_adoption (a : RequeueArgs) (tid cl : string) (c : ClientConfig)
  (stages : list StageT) (from : StageT) (pc : Z * bool) (rp : option Repinned)
  (t1 : TicketTask) : Effect RequeueResult :=
  if a.(allow_regress) && negb (is_Some_b a.(stage_override))
  then Refused RequeueStageError []
  else then_effect (stage_effect c a stages t1) (λ reg t2,
         then_effect (gate_effect t1 a reg t2) (λ applied t3,
           landed a tid cl c from pc rp reg applied t3 [])).

Lemma gate_run found a reg t :
  has_effect (if (reg : bool) then mret (false, false, false) else requeue_forward found a) t
    (gate_effect found a reg t).
Proof. destruct reg; [apply effect_ret|apply forward_effect]. Qed.

Lemma after_adoption_run a tid cl c stages from pc rp t1 :
  has_effect
    (if a.(allow_regress) && negb (is_Some_b a.(stage_override)) then raise RequeueStageError
     else
       found ← read id;
       reg ← _apply_requeue_stage stages c a;
       applied ← (if (reg : bool) then mret (false, false, false) else requeue_forward found a);
       warn_review_delivery tid cl c ;;
       task ← read id;
       mret (_requeue_result a task from reg applied pc.1 pc.2 rp)) t1
    (after_adoption a tid cl c stages from pc rp t1).
Proof.
  unfold after_adoption. destruct (allow_regress a && _); [apply effect_raise|].
  apply effect_read_bind, effect_bind; [apply apply_stage_effect|].
  intros reg t2. apply effect_bind; [apply gate_run|].
  intros applied t3. apply landing_effect.
Qed.

Lemma after_adoption_eq a tid cl c stages from pc t :
  then_effect (adopt_effect c a t) (after_adoption a tid cl c stages from pc)
  = move_effect a tid cl c stages from pc t.
Proof.
  exact (sequence_eq (repin_of c a t) (λ rp, repinned_row rp t)
           (a.(allow_regress) && negb (is_Some_b a.(stage_override)))
           (plan_move c a stages) (move_row c stages) (move_events c stages)
           (λ t1, _forward_gate_applied t1 a) (λ t2, forward_reset (requeue_row t2))
           requeue_events (warn_events tid cl c)
           (λ rp reg applied t3, _requeue_result a t3 from reg applied pc.1 pc.2 rp)).
Qed.

Lemma move_run a tid cl c stages from pc t :
  has_effect (requeue_move a tid cl c stages from pc) t
    (move_effect a tid cl c stages from pc t).
Proof.
  rewrite <- after_adoption_eq. unfold requeue_move.
  apply effect_bind; [apply adopt_run|]. intros rp t1. apply after_adoption_run.
Qed.

Definition requeue_effect (clients : Clients) (a : RequeueArgs) (tid cl : string)
  (t : TicketTask) : Effect (RequeueResult * bool) :=
  let t0 := prepared a t in
  match clients !! cl with
  | None => Refused (CwError "Unknown client") []
  | Some c =>
      if a.(idempotent_pending)
         && is_pending_requeue_noop t0 a.(stage_override) a.(allow_regress)
      then Done (pending_result t0 t0.(stage), false) t0 []
      else match move_effect a tid cl c (resolve_pipeline_stages t0 c) t0.(stage)
                   (prior_charge a t) t0 with
           | Refused e evs => Refused e evs
           | Done r t' evs => Done (r, true) t' evs
           end
  end.

Lemma body_run clients a tid cl t :
  has_effect (requeue_body clients a tid cl) t (requeue_effect clients a tid cl t).
Proof.
  intros evs n. unfold requeue_body, requeue_effect. cbv zeta.
  pose proof (prepare_effect a t evs n) as Hp. cbv beta iota in Hp. rewrite app_nil_r in Hp.
  rewrite (bind_run _ _ _ _ _ Hp). generalize (prepared a t). intros t0.
  destruct (clients !! cl) as [c|]; [|exact (effect_raise _ t0 evs n)].
  rewrite (bind_run (read id) _ _ t0 (mkWorld t0 evs n)) by reflexivity.
  destruct (idempotent_pending a && _); [exact (effect_ret _ t0 evs n)|].
  refine (effect_fmap _ (λ r, (r, true)) t0 _ (move_run a tid cl c _ _ _ t0) evs n).
Qed.
End Effects.

(** ** The closed form on the queue file *)

Definition q_append (evs : list event) (q : QueueWorld) : QueueWorld :=
  mkQueueWorld q.(q_store) (q.(q_events) ++ evs) q.(q_ticks) q.(q_saves).

Definition q_put (i : nat) (t : TicketTask) (evs : list event) (q : QueueWorld) : QueueWorld :=
  mkQueueWorld (set_tasks (<[i := t]> q.(q_store).(tasks)) q.(q_store))
    (q.(q_events) ++ evs) q.(q_ticks) (S q.(q_saves)).

Definition NO_TASK : exn := CwError "No dev-queue task found".

Section QueueRun.
Context {C : Clock} {G : GateEnv} {E : OpsEnv}.

Lemma with_row_run {A} t (m : M World A) eff q :
  has_effect m t eff →
  with_row t m q = match eff with
                   | Refused e evs => (inl e, q_append evs q)
                   | Done a t' evs => (inr (a, t'), q_append evs q)
                   end.
Proof.
  intros H. unfold with_row. specialize (H q.(q_events) q.(q_ticks)).
  destruct eff as [e evs|a t' evs]; [destruct H as [t' ->]|rewrite H]; by destruct q.
Qed.

Definition requeue_outcome (sessions : list Session) (clients : Clients) (tid cl : string)
  (a : RequeueArgs) (q : QueueWorld) : (exn + RequeueResult) * QueueWorld :=
  match _refuse_if_live_session sessions tid cl a.(ignore_session_ids) with
  | inl e => (inl e, q)
  | inr _ =>
      match _find_ticket_at q.(q_store) tid cl with
      | None => (inl NO_TASK, q)
      | Some (i, t) =>
          match requeue_effect clients a tid cl t with
          | Refused e evs => (inl e, q_append evs q)
          | Done (r, false) _ evs => (inr r, q_append evs q)
          | Done (r, true) t' evs => (inr r, q_put i t' evs q)
          end
      end
  end.

Lemma requeue_ticket_run sessions clients tid cl a q :
  requeue_ticket sessions clients tid cl a q = requeue_outcome sessions clients tid cl a q.
Proof.
  unfold requeue_ticket, requeue_outcome.
  destruct (_refuse_if_live_session _ _ _ _) as [e|[]]; [done|].
  unfold mbind at 1, M_bind at 1. cbn [of_sum mret M_ret].
  unfold mbind at 1, M_bind at 1, load_dev_queue, gets.
  destruct (_find_ticket_at (q_store q) tid cl) as [[i t]|]; [|done].
  unfold mbind at 1, M_bind at 1.
  rewrite (with_row_run t _ _ q (body_run clients a tid cl t)).
  destruct (requeue_effect clients a tid cl t) as [e evs|[r []] t' evs]; done.
Qed.
End QueueRun.

(** ** Fields of the landed row *)

(** What the refusals and the moves read of a row. *)
Definition core (t : TicketTask)
  : string * string * string * queue_status * StageT * option string * Z :=
  (t.(ticket_id), t.(client), t.(lane), t.(status), t.(stage), t.(disposition),
   t.(regress_attempts)).

Lemma prepared_core a t : core (prepared a t) = core t.
Proof.
  unfold prepared, clear_gate_block_wait.
  destruct (owns_wait _), (reset_attempts a), (new_feedback a); reflexivity.
Qed.

Lemma repinned_core rp t : core (repinned_row rp t) = core t.
Proof. by destruct rp. Qed.

Lemma prepared_charge a t :
  (prepared a t).(unproductive_attempts)
  = if a.(reset_attempts) then 0%Z else t.(unproductive_attempts).
Proof.
  unfold prepared, clear_gate_block_wait.
  destruct (owns_wait _), (reset_attempts a), (new_feedback a); reflexivity.
Qed.

Lemma repinned_charge rp t :
  (repinned_row rp t).(unproductive_attempts) = t.(unproductive_attempts).
Proof. by destruct rp. Qed.

Lemma core_stages t u c : core t = core u →
  resolve_pipeline_stages t c = resolve_pipeline_stages u c.
Proof. unfold core, resolve_pipeline_stages. by intros [= _ _ -> _ _ _ _]. Qed.

Lemma core_gate t u a : core t = core u →
  _forward_gate_applied t a = _forward_gate_applied u a.
Proof. unfold core, _forward_gate_applied. by intros [= _ _ _ -> _ _ _]. Qed.

Lemma core_classify t u stages s reg inf : core t = core u →
  _classify_requeue_move t stages s reg inf = _classify_requeue_move u stages s reg inf.
Proof.
  unfold core, _classify_requeue_move, _validate_requeue_stages.
  by intros [= _ _ _ -> -> _ _].
Qed.

Lemma core_noop t u o reg : core t = core u →
  is_pending_requeue_noop t o reg = is_pending_requeue_noop u o reg.
Proof. unfold core, is_pending_requeue_noop. by intros [= _ _ _ -> -> _ _]. Qed.

Lemma core_refusal t u a : core t = core u →
  adopted_requeue_refusal t a = adopted_requeue_refusal u a.
Proof.
  unfold core, adopted_requeue_refusal, _repin_target_stage.
  by intros [= _ _ _ _ -> -> _].
Qed.

(** A requeued row: pending, unanchored, with no park left on it. *)
Definition released (t t' : TicketTask) : Prop :=
  t'.(status) = QueueItemStatus.PENDING
  ∧ t'.(session_id) = None ∧ t'.(stage_base_ref) = None
  ∧ t'.(disposition) = None ∧ t'.(blocked_reason) = None ∧ t'.(completed_at) = None
  ∧ t'.(ticket_id) = t.(ticket_id) ∧ t'.(client) = t.(client) ∧ t'.(lane) = t.(lane).

Definition review_reset (t : TicketTask) : TicketTask :=
  if bool_decide (t.(stage) = Stage.REVIEW)
  then clear_review_approval (t <| must_fix_override := None |>) else t.

Lemma review_reset_core t :
  core (review_reset t) = core t
  ∧ (review_reset t).(unproductive_attempts) = t.(unproductive_attempts)
  ∧ (review_reset t).(review_approved_at)
    = if bool_decide (t.(stage) = Stage.REVIEW) then None else t.(review_approved_at).
Proof. unfold review_reset. by destruct (bool_decide _). Qed.

Lemma pend_lane b t : (pend b t).(lane) = t.(lane).
Proof. unfold pend. by autorewrite with row. Qed.
Lemma pend_client b t : (pend b t).(client) = t.(client).
Proof. unfold pend. by autorewrite with row. Qed.

Lemma requeue_row_released t :
  released t (forward_reset (requeue_row t))
  ∧ (forward_reset (requeue_row t)).(stage) = t.(stage)
  ∧ (forward_reset (requeue_row t)).(regress_attempts) = 0%Z
  ∧ (forward_reset (requeue_row t)).(regressed_into_stage) = None
  ∧ (t.(status) ≠ QueueItemStatus.RUNNING →
     (forward_reset (requeue_row t)).(unproductive_attempts) = t.(unproductive_attempts))
  ∧ (t.(stage) = Stage.REVIEW →
     (forward_reset (requeue_row t)).(review_approved_at) = None).
Proof.
  change (requeue_row t) with (drop_anchors (pend true (review_reset t))).
  destruct (review_reset_core t) as (Hc & Hu & Hr).
  revert Hc Hu Hr. generalize (review_reset t). intros u Hc Hu Hr.
  injection Hc as H1 H2 H3 H4 H5 H6 H7.
  assert (Hf : ∀ {A} (f : TicketTask → A) x,
    (∀ y v, f (y <| regress_attempts := v |>) = f y) →
    (∀ y v, f (y <| regressed_into_stage := v |>) = f y) → f (forward_reset x) = f x).
  { intros A f x Ha Hb. unfold forward_reset. by rewrite Hb, Ha. }
  unfold released.
  rewrite !(Hf _ status), !(Hf _ session_id), !(Hf _ stage_base_ref), !(Hf _ disposition),
    !(Hf _ blocked_reason), !(Hf _ completed_at), !(Hf _ ticket_id), !(Hf _ client),
    !(Hf _ lane), !(Hf _ stage), !(Hf _ unproductive_attempts), !(Hf _ review_approved_at)
    by reflexivity.
  autorewrite with row. rewrite ?pend_lane, ?pend_client.
  rewrite H1, H2, H3, H5, Hu, H4. split_and!; try done.
  - intros Hs. rewrite bool_decide_false by done. apply Z.add_0_r.
  - intros Hs. by rewrite Hr, bool_decide_true.
Qed.

Lemma regress_row_released s mc t :
  released t (regress_row s mc t)
  ∧ (regress_row s mc t).(stage) = s
  ∧ (regress_row s mc t).(regress_attempts) = (t.(regress_attempts) + 1)%Z
  ∧ (regress_row s mc t).(regressed_into_stage) = Some s
  ∧ (regress_row s mc t).(unproductive_attempts) = t.(unproductive_attempts)
  ∧ (regress_row s mc t).(review_approved_at) = None
  ∧ (regress_row s mc t).(pending_operator_comment) = true.
Proof.
  destruct (regress_row_keys s mc t) as (H1 & H2 & H3).
  unfold released. rewrite H1, H2, H3. clear H1 H2 H3.
  unfold regress_row. autorewrite with row. rewrite andb_false_r, Z.add_0_r.
  by split_and!.
Qed.

Section Landing.
Context {C : Clock} {G : GateEnv} {E : OpsEnv}.

(** The stage a requeue of [t] asks for. *)
Definition target_stage (a : RequeueArgs) (t : TicketTask) : StageT :=
  default t.(stage) (a.(stage_override) ≫= Stage.of_value).

Lemma plan_move_inr c a stages t m :
  plan_move c a stages t = inr m →
  match m with
  | Stay => a.(stage_override) = None
  | Forward s => a.(stage_override) = Some (Stage.stage_value s)
                 ∧ t.(stage) ∈ stages ∧ s ∈ stages
                 ∧ stage_before stages s t.(stage) = false
                 ∧ impl_bypass_refused t c stages s = false
  | Back s => a.(stage_override) = Some (Stage.stage_value s)
              ∧ t.(stage) ∈ stages ∧ s ∈ stages
              ∧ stage_before stages s t.(stage) = true
              ∧ a.(allow_regress) || a.(infer_regress) = true
              ∧ t.(status) ∈ _APPROVABLE_STATUSES
  end.
Proof.
  unfold plan_move. destruct (stage_override a) as [v|]; [|by intros [= <-]].
  destruct (Stage.of_value v) as [s|] eqn:Hv; [|done].
  apply Stage.stage_value_of_value in Hv as <-.
  destruct (_classify_requeue_move _ _ _ _ _) as [e|b] eqn:Hc; [done|].
  apply classify_inr in Hc as (H1 & H2 & H3 & H4).
  destruct b; [intros [= <-]; destruct (H4 eq_refl); done|].
  destruct (impl_bypass_refused t c stages s) eqn:Hi; [done|]. by intros [= <-].
Qed.

(** The row of a forward or same-stage move, before the reset. *)
Lemma move_row_forward c stages m t :
  is_back m = false →
  let t2 := move_row c stages m t in
  t2.(ticket_id) = t.(ticket_id) ∧ t2.(client) = t.(client) ∧ t2.(lane) = t.(lane)
  ∧ t2.(status) = t.(status) ∧ t2.(unproductive_attempts) = t.(unproductive_attempts)
  ∧ t2.(stage) = match m with Forward s => s | _ => t.(stage) end.
Proof. destruct m; [done| |done]. cbn [move_row]. intros _. by autorewrite with row. Qed.

(** What a saved requeue of [t] made of it. *)
Definition landing (a : RequeueArgs) (c : ClientConfig) (t t' : TicketTask)
  (r : RequeueResult) : Prop :=
  released t t'
  ∧ t'.(stage) = target_stage a t
  ∧ t'.(unproductive_attempts)
    = (if a.(reset_attempts) then 0%Z else t.(unproductive_attempts))
  ∧ r.(rr_from_stage) = t.(stage) ∧ r.(rr_to_stage) = t'.(stage)
  ∧ r.(already_pending) = false
  ∧ r.(regressed) = is_Some_b a.(stage_override)
                    && stage_before (resolve_pipeline_stages t c) t'.(stage) t.(stage)
  ∧ if r.(regressed)
    then a.(allow_regress) || a.(infer_regress) = true
         ∧ t.(status) ∈ _APPROVABLE_STATUSES
         ∧ t'.(regress_attempts) = (t.(regress_attempts) + 1)%Z
         ∧ t'.(regressed_into_stage) = Some t'.(stage)
         ∧ t'.(pending_operator_comment) = true
         ∧ t'.(review_approved_at) = None
    else (∃ applied, _forward_gate_applied t a = inr applied)
         ∧ t'.(regress_attempts) = 0%Z ∧ t'.(regressed_into_stage) = None
         ∧ (t'.(stage) = Stage.REVIEW → t'.(review_approved_at) = None).

Lemma gate_not_running t a applied :
  _forward_gate_applied t a = inr applied → t.(status) ≠ QueueItemStatus.RUNNING.
Proof.
  unfold _forward_gate_applied. intros H Hs. rewrite Hs in H.
  destruct (from_cancelled a), (from_failed a), (from_completed a); by vm_compute in H.
Qed.

Lemma move_landing a tid cl c t r t' evs :
  let t0 := prepared a t in
  move_effect a tid cl c (resolve_pipeline_stages t0 c) t0.(stage) (prior_charge a t) t0
  = Done r t' evs →
  landing a c t t' r.
Proof.
  cbv zeta. pose proof (prepared_core a t) as H0. pose proof (prepared_charge a t) as U0.
  revert H0 U0. generalize (prepared a t). intros t0 H0 U0.
  rewrite (core_stages t0 t c H0). unfold move_effect.
  destruct (repin_of c a t0) as [e|rp]; [done|]. destruct (allow_regress a && _); [done|].
  cbv zeta. pose proof (repinned_core rp t0) as H1. pose proof (repinned_charge rp t0) as U1.
  rewrite H0 in H1. rewrite U0 in U1. revert H1 U1. generalize (repinned_row rp t0).
  intros t1 H1 U1. rewrite (core_gate t1 t a H1).
  set (stages := resolve_pipeline_stages t c).
  destruct (plan_move c a stages t1) as [e|m] eqn:Hm; [done|].
  apply plan_move_inr in Hm. unfold core in H0, H1.
  injection H0 as _ _ _ _ Hs0 _ _. injection H1 as K1 K2 K3 Hst Hsg _ Hra.
  destruct (is_back m) eqn:Hb.
  - destruct m as [| |s]; try done. destruct Hm as (Ho & _ & _ & Hlt & Hreg & Happ).
    cbn [move_row].
    destruct (regress_row_released s (merge_flag c t1) t1) as (Hrel & F1 & F2 & F3 & F4 & F5 & F6).
    revert Hrel F1 F2 F3 F4 F5 F6. generalize (regress_row s (merge_flag c t1) t1).
    intros t3 Hrel F1 F2 F3 F4 F5 F6. intros (-> & -> & _)%Done_inj.
    unfold landing, target_stage, _requeue_result. cbn. rewrite F1, Ho. cbn.
    rewrite Stage.of_value_stage_value. fold stages. rewrite <- Hsg, Hlt, F2, F3, F4, F5, F6.
    rewrite Hs0, U1, Hra, <- Hst, Hsg. split_and!; try done.
    unfold released in *. by rewrite <- K1, <- K2, <- K3.
  - destruct (_forward_gate_applied t a) as [e|applied] eqn:Hg; [done|].
    pose proof (gate_not_running t a applied Hg) as Hnr.
    destruct (move_row_forward c stages m t1 Hb) as (M1 & M2 & M3 & M4 & M5 & M6).
    revert M1 M2 M3 M4 M5 M6. generalize (move_row c stages m t1). intros t2 M1 M2 M3 M4 M5 M6.
    destruct (requeue_row_released t2) as (Hrel & F1 & F2 & F3 & F4 & F5).
    revert Hrel F1 F2 F3 F4 F5. generalize (forward_reset (requeue_row t2)).
    intros t3 Hrel F1 F2 F3 F4 F5. intros (-> & -> & _)%Done_inj.
    assert (Ht3 : t3.(stage) = target_stage a t).
    { rewrite F1, M6. unfold target_stage.
      destruct m as [|s|]; [|destruct Hm as [Hm _]|done]; rewrite Hm; cbn; [done|].
      by rewrite Stage.of_value_stage_value. }
    unfold landing, _requeue_result. cbn. rewrite F2, F3, F4 by (rewrite M4, Hst; done).
    rewrite M5, U1, Hs0. split_and!; try done.
    + unfold released in *. by rewrite <- K1, <- K2, <- K3, <- M1, <- M2, <- M3.
    + destruct m as [|s|]; [by rewrite Hm| |done]. destruct Hm as (Ho & _ & _ & Hlt & _).
      rewrite Ho, F1, M6. cbn. fold stages. rewrite <- Hsg. by rewrite Hlt.
    + by exists applied.
    + rewrite F1. exact F5.
Qed.
End Landing.

(** ** Refusals *)

Section Refusals.
Context {C : Clock} {G : GateEnv} {E : OpsEnv}.

Lemma stage_before_asym stages x y :
  stage_before stages x y = true → stage_before stages y x = false.
Proof.
  unfold stage_before. destruct (index_of x stages), (index_of y stages); try done.
  rewrite Nat.ltb_lt, Nat.ltb_ge. lia.
Qed.

Lemma gate_refused t a e :
  _forward_gate_applied t a = inl e →
  e = RequeueStateError ∧ t.(status) ∉ _APPROVABLE_STATUSES.
Proof.
  unfold _forward_gate_applied. cbv zeta.
  destruct (bool_decide (status t ∈ _APPROVABLE_STATUSES)) eqn:Ha; [done|].
  apply bool_decide_eq_false in Ha. destruct (negb _); [|done]. by intros [= <-].
Qed.

(** A refusal leaves no event, but for the stage move of a row the status
    gate then turned away. *)
Lemma move_refused a tid cl c stages from pc t e evs :
  move_effect a tid cl c stages from pc t = Refused e evs →
  evs = []
  ∨ ∃ s t1, core t1 = core t ∧ a.(stage_override) = Some (Stage.stage_value s)
      ∧ e = RequeueStateError ∧ t1.(status) ∉ _APPROVABLE_STATUSES
      ∧ evs = stage_change_events t1 t1.(stage) s "advance".
Proof.
  unfold move_effect. destruct (repin_of c a t) as [e1|rp]; [intros [= _ ->]; by left|].
  destruct (allow_regress a && _); [intros [= _ ->]; by left|]. cbv zeta.
  pose proof (repinned_core rp t) as Hc. revert Hc. generalize (repinned_row rp t).
  intros t1 Hc. destruct (plan_move c a stages t1) as [e1|m] eqn:Hm; [intros [= _ ->]; by left|].
  apply plan_move_inr in Hm. destruct (is_back m) eqn:Hb; [done|].
  destruct (_forward_gate_applied t1 a) as [e1|ap] eqn:Hg; [|done].
  apply gate_refused in Hg as [-> Hst]. intros [= <- <-].
  destruct m as [|s|]; [by left|right|done]. destruct Hm as [Ho _].
  exists s, t1. by split_and!.
Qed.

Lemma requeue_refused clients a tid cl t e evs :
  requeue_effect clients a tid cl t = Refused e evs →
  evs = []
  ∨ ∃ s, a.(stage_override) = Some (Stage.stage_value s) ∧ s ≠ t.(stage)
      ∧ e = RequeueStateError ∧ t.(status) ∉ _APPROVABLE_STATUSES
      ∧ evs = stage_change_events t t.(stage) s "advance".
Proof.
  unfold requeue_effect. cbv zeta. pose proof (prepared_core a t) as Hc.
  revert Hc. generalize (prepared a t). intros t0 Hc.
  destruct (clients !! cl) as [c|]; [|intros [= _ <-]; by left].
  destruct (idempotent_pending a && _); [done|].
  destruct (move_effect _ _ _ _ _ _ _ t0) as [e1 evs1|] eqn:Hm; [|done].
  intros [= <- <-]. apply move_refused in Hm as [->|(s & t1 & H1 & Ho & He & Hst & ->)];
    [by left|].
  rewrite Hc in H1. unfold core in H1. injection H1 as K1 K2 _ K4 K5 _ _.
  rewrite K4 in Hst. rewrite K5.
  rewrite (stage_change_same t t1 _ _ _ K1 K2).
  destruct (decide (s = t.(stage))) as [->|Hne].
  - left. unfold stage_change_events. by rewrite bool_decide_true.
  - right. exists s. by split_and!.
Qed.
End Refusals.

(** ** One row per open ticket *)

Lemma open_key_in ts t : t ∈ ts → is_open t → row_key t ∈ open_keys ts.
Proof.
  intros Hin Ho. unfold open_keys. apply list_elem_of_fmap. exists t. split; [done|].
  by apply list_elem_of_filter.
Qed.

Lemma one_open_unique ts i j t u :
  one_open_row ts → ts !! i = Some t → ts !! j = Some u → is_open t → is_open u →
  row_key t = row_key u → i = j.
Proof.
  unfold one_open_row. revert i j. induction ts as [|x ts IH]; intros i j Hnd Hi Hj Ht Hu Hk;
    [done|].
  change (x :: ts) with ([x] ++ ts) in Hnd.
  rewrite open_keys_app, open_keys_single in Hnd.
  destruct i as [|i], j as [|j]; cbn in Hi, Hj.
  - done.
  - exfalso. injection Hi as ->. rewrite decide_True in Hnd by done.
    apply NoDup_cons in Hnd as [Hni _]. apply Hni. rewrite Hk.
    apply open_key_in; [by eapply list_elem_of_lookup_2|done].
  - exfalso. injection Hj as ->. rewrite decide_True in Hnd by done.
    apply NoDup_cons in Hnd as [Hni _]. apply Hni. rewrite <- Hk.
    apply open_key_in; [by eapply list_elem_of_lookup_2|done].
  - f_equal. apply NoDup_app in Hnd as (_ & _ & Hnd). by apply (IH i j).
Qed.

Lemma indexed_elem ts i t : ts !! i = Some t → (i, t) ∈ indexed ts.
Proof.
  intros Hi. apply list_elem_of_lookup_2 with i. unfold indexed.
  by rewrite list_lookup_imap, Hi.
Qed.

(** The open row of a ticket is the one every operator command acts on. *)
Lemma find_at_unique store i t :
  one_open_row store.(tasks) → store.(tasks) !! i = Some t → is_open t →
  _find_ticket_at store t.(ticket_id) t.(client) = Some (i, t).
Proof.
  intros Hone Hi Ho.
  assert (Hr : is_row t.(ticket_id) t.(client) t = true) by by apply is_row_true.
  destruct (_find_ticket_at store _ _) as [[j u]|] eqn:Hf.
  - pose proof (find_at_spec _ _ _ _ _ Hf) as (_ & Hj & Hru). apply is_row_true in Hru.
    assert (Hou : is_open u).
    { eapply (find_at_open _ _ _ _ _ t Hf); [|done]. apply list_elem_of_filter.
      split; [done|by eapply list_elem_of_lookup_2]. }
    assert (i = j) as <- by by apply (one_open_unique _ _ _ _ _ Hone Hi Hj Ho Hou).
    congruence.
  - exfalso. unfold _find_ticket_at in Hf. cbv zeta in Hf.
    assert (Hm : (i, t) ∈ filter (λ p : nat * TicketTask,
              is_row t.(ticket_id) t.(client) p.2 = true) (indexed (tasks store)))
      by (apply list_elem_of_filter; split; [done|by apply indexed_elem]).
    destruct (filter (λ p, is_live_status _ = true) _); [|done].
    destruct (filter (λ p, _ ∈ _APPROVABLE_STATUSES) _); [|done].
    apply newest_at_None in Hf. rewrite Hf in Hm. by apply not_elem_of_nil in Hm.
Qed.

(** A row that a command found may be reopened: no other open row is passed
    over for a closed one. *)
Lemma found_reopen store tid cl i t t' :
  _find_ticket_at store tid cl = Some (i, t) → row_key t' = row_key t →
  one_open_row store.(tasks) → one_open_row (<[i := t']> store.(tasks)).
Proof.
  intros Hf Hk Hone. pose proof (find_at_spec _ _ _ _ _ Hf) as (_ & Hi & Hr).
  destruct (decide (is_open t)) as [Ho|Ho].
  { eapply keeps_open_insert; [exact Hi| |done]. by intros _. }
  assert (Hno : ∀ u, u ∈ store.(tasks) → is_open u → row_key u ≠ row_key t).
  { intros u Hu Hou Hku. apply Ho. eapply (find_at_open _ _ _ _ _ u Hf); [|done].
    apply list_elem_of_filter. split; [|done]. apply is_row_true. rewrite Hku.
    by apply is_row_true. }
  apply list_elem_of_split_length in Hi as (l1 & l2 & Hl & ->).
  unfold one_open_row in *. rewrite Hl in Hone, Hno |- *.
  rewrite insert_app_r_alt, Nat.sub_diag by lia. cbn [list_insert insert].
  change (t :: l2) with ([t] ++ l2) in Hone. change (t' :: l2) with ([t'] ++ l2).
  rewrite !open_keys_app, open_keys_single in Hone. rewrite decide_False in Hone by done.
  rewrite !open_keys_app, open_keys_single.
  destruct (decide (is_open t')) as [Ho'|]; [|done].
  cbn [app] in *. rewrite <- Permutation_middle. apply NoDup_cons. split; [|done].
  rewrite Hk. intros Hin. rewrite <- open_keys_app in Hin.
  apply list_elem_of_fmap in Hin as (u & Hku & [Hou Hu]%list_elem_of_filter).
  apply (Hno u); [|done|done]. rewrite elem_of_app, elem_of_cons. apply elem_of_app in Hu. tauto.
Qed.
