(* ===== verification/RequeueContract.v ===== *)
(** * What the requeue promises

    The claims on [requeue_ticket], [precheck_requeue], [drain_held_tickets]
    and [unblock_ticket], from the closed forms of [RequeueProps]. *)

From S2P Require Import Prelude PyStr Enums Tasks World Vocab RearmOwed Lifecycle GateBackoff.
From S2P Require Import Clients Crud CrudProps ScopeTier ReviewGates Requeue RequeueProps.

#[local] Open Scope cw_scope.

(** ** Live sessions *)

(** [s] may still move the ticket: it is active, named after the ticket, and
    its daemon short id is in the roster. *)
Definition overtakes (tid cl : string) (ids : gset string) (s : Session) : Prop :=
  s.(sess_client) = cl
  ∧ (s.(sess_status) = SessionStatus.ACTIVE ∨ s.(sess_status) = SessionStatus.IDLE)
  ∧ ticket_id_for_session s.(sess_name) = Some tid
  ∧ ∃ ref, s.(sess_surface_ref) = Some ref ∧ _is_native_surface_ref ref = true ∧ ref ∈ ids.

Lemma live_for_ticket_spec tid cl ids s :
  live_for_ticket tid cl ids s = true ↔ overtakes tid cl ids s.
Proof.
  unfold live_for_ticket, overtakes, session_is_live, session_in_roster.
  rewrite !andb_true_iff, String.eqb_eq, orb_true_iff, !bool_decide_eq_true, opt_is_true.
  destruct (sess_surface_ref s) as [ref|].
  - rewrite andb_true_iff, bool_decide_eq_true. naive_solver.
  - split; [by intros (_ & ?)|]. by intros (_ & _ & _ & ref & ? & _).
Qed.

Section Live.
Context {E : OpsEnv}.

Lemma guard_passes sessions tid cl ignored :
  _refuse_if_live_session sessions tid cl ignored = inr tt ↔
  ∃ ids, roster = Some (Some ids)
    ∧ ∀ s, s ∈ sessions → overtakes tid cl ids s → s.(sess_id) ∈ ignored.
Proof.
  unfold _refuse_if_live_session, _live_short_ids_or_refuse.
  destruct roster as [[ids|]|]; [|split; [done|by intros (? & ? & _)]..].
  unfold find_live_sessions_for_ticket.
  destruct (filter (λ s, sess_id s ∉ ignored) _) as [|s0 l] eqn:Hf.
  - split; [intros _|done]. exists ids. split; [done|]. intros s Hs Ho.
    destruct (decide (s.(sess_id) ∈ ignored)) as [|Hni]; [done|exfalso].
    assert (Hx : s ∈ []); [|by apply not_elem_of_nil in Hx].
    rewrite <- Hf. apply list_elem_of_filter. split; [done|].
    apply list_elem_of_filter. split; [by apply live_for_ticket_spec|done].
  - split; [done|]. intros (ids' & [= <-] & Hall). exfalso.
    assert (Hx : s0 ∈ s0 :: l) by apply list_elem_of_here. rewrite <- Hf in Hx.
    apply list_elem_of_filter in Hx as [Hni [Hl Hs]%list_elem_of_filter].
    apply Hni, Hall; [done|]. by apply live_for_ticket_spec.
Qed.
End Live.

(** ** The requeue *)

Section Contract.
Context {C : Clock} {G : GateEnv} {E : OpsEnv}.

(** C12: a requeue never overtakes a live session: unless the daemon roster was
    readable and every session of that client that is active, named after the
    ticket and listed in the roster is one the caller excluded, the call
    raises a live-session refusal and changes nothing - no row, no save, no
    event.  An unreadable roster counts as a live session. *)
Theorem requeue_never_over_live sessions clients tid cl a q :
  (∃ ids, roster = Some (Some ids)
     ∧ ∀ s, s ∈ sessions → overtakes tid cl ids s → s.(sess_id) ∈ a.(ignore_session_ids))
  ∨ ∃ e, classify_requeue_live_session_error e ≠ None
         ∧ requeue_ticket sessions clients tid cl a q = (inl e, q).
Proof.
  rewrite <- (guard_passes sessions tid cl a.(ignore_session_ids)), requeue_ticket_run.
  unfold requeue_outcome.
  destruct (_refuse_if_live_session _ _ _ _) as [e|[]] eqn:Hg; [right|by left].
  exists e. split; [|done]. revert Hg. unfold _refuse_if_live_session, _live_short_ids_or_refuse.
  destruct roster as [[ids|]|]; [|by intros [= <-]..].
  destruct (filter _ _); [done|]. by intros [= <-].
Qed.

(** C10: a requeue that returns either was the idempotent no-op, which writes
    nothing at all, or saved exactly the found row: pending, unbound from its
    session and base, its park cleared, at the stage asked for (its own when
    none was), its attempt counter untouched or zeroed on request.  It
    reports a regress exactly when the target precedes the row's stage in the
    lane's pipeline; a regress needs the flag and a parked row, is counted,
    marked and voids the review approval, while a forward move needs a parked
    row or the matching recovery flag and clears the regress marks. *)
Theorem requeue_lands sessions clients tid cl a q r q' :
  requeue_ticket sessions clients tid cl a q = (inr r, q') →
  ∃ i t, _find_ticket_at q.(q_store) tid cl = Some (i, t)
    ∧ ((a.(idempotent_pending) = true
        ∧ is_pending_requeue_noop t a.(stage_override) a.(allow_regress) = true
        ∧ r.(already_pending) = true ∧ q' = q)
       ∨ ∃ c t' evs, clients !! cl = Some c ∧ q' = q_put i t' evs q ∧ landing a c t t' r).
Proof.
  rewrite requeue_ticket_run. unfold requeue_outcome.
  destruct (_refuse_if_live_session _ _ _ _) as [e|_]; [done|].
  destruct (_find_ticket_at _ _ _) as [[i t]|]; [|done].
  intros H. exists i, t. split; [done|]. revert H. unfold requeue_effect. cbv zeta.
  destruct (clients !! cl) as [c|]; [|done].
  rewrite (core_noop (prepared a t) t) by apply prepared_core.
  destruct (idempotent_pending a && _) eqn:Hn.
  - apply andb_true_iff in Hn as [H1 H2]. intros [= <- <-]. left. split_and!; try done.
    unfold q_append. rewrite app_nil_r. by destruct q.
  - destruct (move_effect _ _ _ _ _ _ _ _) as [e evs|r0 t' evs] eqn:Hm; [done|].
    intros [= <- <-]. right. exists c, t', evs. split_and!; try done.
    by eapply move_landing.
Qed.

(** a requeue that is refused, for whatever reason, leaves the queue file
    as it was: no row changed, nothing saved.  It leaves no event either,
    with one exception: a row that is not parked (running, pending, ended)
    asked for another stage is refused only after its stage move was put in
    the inbox, which then reports a change of stage that never happened. *)
Theorem refused_requeue_keeps_file sessions clients tid cl a q e q' :
  requeue_ticket sessions clients tid cl a q = (inl e, q') →
  q'.(q_store) = q.(q_store) ∧ q'.(q_saves) = q.(q_saves) ∧ q'.(q_ticks) = q.(q_ticks)
  ∧ (q'.(q_events) = q.(q_events)
     ∨ ∃ i t s, _find_ticket_at q.(q_store) tid cl = Some (i, t)
         ∧ a.(stage_override) = Some (Stage.stage_value s) ∧ s ≠ t.(stage)
         ∧ e = RequeueStateError ∧ t.(status) ∉ _APPROVABLE_STATUSES
         ∧ q'.(q_events) = q.(q_events) ++ stage_change_events t t.(stage) s "advance").
Proof.
  rewrite requeue_ticket_run. unfold requeue_outcome.
  destruct (_refuse_if_live_session _ _ _ _) as [e1|_];
    [intros [= _ <-]; split_and!; try done; by left|].
  destruct (_find_ticket_at _ _ _) as [[i t]|];
    [|intros [= _ <-]; split_and!; try done; by left].
  destruct (requeue_effect clients a tid cl t) as [e1 evs|[r []] t' evs] eqn:Hr; [|done..].
  intros [= -> <-]. split_and!; [done..|].
  apply requeue_refused in Hr as [->|(s & Ho & Hs & He & Hst & ->)].
  - left. apply app_nil_r.
  - right. exists i, t, s. by split_and!.
Qed.
End Contract.

(** ** The prediction *)

Section Precheck.
Context {C : Clock} {G : GateEnv} {E : OpsEnv}.

(** The refusal of the reads the prediction does not make: the head of the
    adopted PR, and the plan of a forward move into IMPL. *)
Definition io_refusal (c : ClientConfig) (a : RequeueArgs) (t : TicketTask) : option exn :=
  let t0 := prepared a t in
  match adopted_requeue_refusal t a, repin_of c a t0 with
  | inr false, inl e => Some e
  | inr false, inr rp =>
      match a.(stage_override) ≫= Stage.of_value with
      | Some s => if bool_decide (s ∈ resolve_pipeline_stages t c)
                     && bool_decide (t.(stage) ∈ resolve_pipeline_stages t c)
                     && impl_bypass_refused (repinned_row rp t0) c
                          (resolve_pipeline_stages t c) s
                     && negb (a.(allow_regress) && negb (is_Some_b a.(stage_override)))
                  then Some RequeueStageError else None
      | None => None
      end
  | _, _ => None
  end.

Lemma bypass_not_regress t c stages s reg inf :
  impl_bypass_refused t c stages s = true →
  t.(stage) ∈ stages → s ∈ stages →
  _classify_requeue_move t stages s reg inf = inr false.
Proof.
  unfold impl_bypass_refused. intros [[_ Hb]%andb_true_iff _]%andb_true_iff Ht Hs.
  apply stage_before_asym in Hb. unfold _classify_requeue_move, _validate_requeue_stages.
  rewrite !bool_decide_true by done. cbn. by rewrite Hb.
Qed.

Lemma plan_move_agrees c a stages t t1 s :
  core t1 = core t → a.(stage_override) ≫= Stage.of_value = Some s →
  plan_move c a stages t1
  = match _classify_requeue_move t stages s a.(allow_regress) a.(infer_regress) with
    | inl e => inl e
    | inr true => inr (Back s)
    | inr false => if impl_bypass_refused t1 c stages s then inl RequeueStageError
                   else inr (Forward s)
    end.
Proof.
  intros Hc Ho. unfold plan_move. destruct (stage_override a) as [v|]; [|done].
  cbn in Ho. rewrite Ho. by rewrite (core_classify t1 t).
Qed.

(** The outcome of a row's requeue, as the prediction sees it. *)
Definition verdict {A} (eff : Effect A) : exn + unit :=
  match eff with Refused e _ => inl e | Done _ _ _ => inr tt end.

Lemma row_predicted clients a tid cl c t :
  clients !! cl = Some c →
  a.(idempotent_pending)
    && is_pending_requeue_noop t a.(stage_override) a.(allow_regress) = false →
  match io_refusal c a t with
  | None => verdict (requeue_effect clients a tid cl t) = precheck_row clients a cl t
  | Some e => verdict (requeue_effect clients a tid cl t) = inl e
  end.
Proof.
  intros Hc Hn. unfold requeue_effect. cbv zeta. rewrite Hc.
  pose proof (prepared_core a t) as H0.
  rewrite (core_noop _ t _ _ H0), Hn, (core_stages _ t _ H0).
  unfold io_refusal, precheck_row, move_effect. cbv zeta. rewrite Hc.
  revert H0. generalize (prepared a t). intros t0 H0.
  assert (Hrr : adopted_requeue_refusal t0 a = adopted_requeue_refusal t a)
    by by apply core_refusal.
  assert (Hre : ∀ e, adopted_requeue_refusal t a = inl e → repin_of c a t0 = inl e)
    by (intros e He; unfold repin_of; by rewrite Hrr, He).
  assert (Hrt : adopted_requeue_refusal t a = inr true → repin_of c a t0 = inl RequeueStateError)
    by (intros He; unfold repin_of; by rewrite Hrr, He).
  destruct (adopted_requeue_refusal t a) as [e|[]];
    [by rewrite (Hre e)|by rewrite Hrt|]. clear Hre Hrt Hrr.
  destruct (repin_of c a t0) as [e|rp]; [done|].
  pose proof (repinned_core rp t0) as H1. rewrite H0 in H1. revert H1.
  generalize (repinned_row rp t0). intros t1 H1. clear H0.
  set (stages := resolve_pipeline_stages t c).
  rewrite (core_gate t1 t a H1).
  destruct (stage_override a) as [v|] eqn:Ho.
  - cbn [is_Some_b negb]. rewrite andb_false_r. cbn [negb mbind option_bind].
    destruct (Stage.of_value v) as [s|] eqn:Hv; cycle 1.
    { unfold plan_move. by rewrite Ho, Hv. }
    rewrite andb_true_r.
    assert (Hp : a.(stage_override) ≫= Stage.of_value = Some s) by by rewrite Ho.
    rewrite (plan_move_agrees c a stages t t1 s H1 Hp).
    assert (Hst : t1.(stage) = t.(stage)) by by injection H1.
    destruct (impl_bypass_refused t1 c stages s) eqn:Hi.
    + destruct (bool_decide (s ∈ stages)) eqn:Es; destruct (bool_decide (t.(stage) ∈ stages)) eqn:Et;
        cbn [andb]; cycle 1.
      1-3: unfold _classify_requeue_move, _validate_requeue_stages; rewrite Et, ?Es; done.
      apply bool_decide_eq_true in Es, Et.
      rewrite <- (core_classify t1 t) by done.
      by rewrite (bypass_not_regress t1 c stages s) by (rewrite ?Hst; done).
    + rewrite !andb_false_r.
      destruct (_classify_requeue_move t stages s _ _) as [e|[]]; [done|done|].
      cbn [is_back]. by destruct (_forward_gate_applied t a).
  - cbn [is_Some_b negb]. rewrite andb_true_r. unfold plan_move. rewrite Ho. cbn [mbind option_bind].
    destruct (allow_regress a); [done|]. cbn [is_back]. by destruct (_forward_gate_applied t a).
Qed.

(** C11: the lock-free prediction agrees with the call, on the same state:
    unless one of the reads it does not make (the adopted PR's head, the plan
    of a forward move into IMPL) refuses, [requeue_ticket] raises exactly the
    exception [precheck_requeue] raises and succeeds exactly when it passes;
    when such a read refuses, the call raises that refusal, or the live-session
    one before it.  The idempotent no-op passes the prediction, and only a
    live session can still refuse it. *)
Theorem precheck_predicts_requeue sessions clients tid cl a q i t c :
  _find_ticket_at q.(q_store) tid cl = Some (i, t) → clients !! cl = Some c →
  let predicted := precheck_requeue sessions clients tid cl a q.(q_store) in
  let actual := match result (requeue_ticket sessions clients tid cl a) q with
                | inl e => inl e | inr _ => inr tt end in
  let guard := _refuse_if_live_session sessions tid cl a.(ignore_session_ids) in
  if a.(idempotent_pending)
     && is_pending_requeue_noop t a.(stage_override) a.(allow_regress)
  then predicted = inr tt ∧ actual = guard
  else match io_refusal c a t with
       | None => actual = predicted
       | Some e => actual = match guard with inl e' => inl e' | inr _ => inl e end
       end.
Proof.
  intros Hf Hc. cbv zeta. unfold result. rewrite requeue_ticket_run.
  unfold requeue_outcome, precheck_requeue. rewrite Hf.
  set (g := _refuse_if_live_session _ _ _ _).
  destruct (idempotent_pending a && is_pending_requeue_noop t _ _) eqn:Hn.
  - pose proof Hn as Hn2. apply andb_true_iff in Hn2 as [-> ->]. split; [done|].
    destruct g as [e|[]]; [done|]. unfold requeue_effect. cbv zeta.
    rewrite Hc, (core_noop (prepared a t) t) by apply prepared_core. by rewrite Hn.
  - pose proof (row_predicted clients a tid cl c t Hc Hn) as Hp.
    assert (Hpre : (if idempotent_pending a then
              if is_pending_requeue_noop t (stage_override a) (allow_regress a) then inr tt
              else match g with inl e => inl e | inr _ => precheck_row clients a cl t end
            else match g with inl e => inl e | inr _ => precheck_row clients a cl t end)
            = match g with inl e => inl e | inr _ => precheck_row clients a cl t end).
    { destruct (idempotent_pending a); [|done]. cbn in Hn. by rewrite Hn. }
    rewrite Hpre. clear Hpre. destruct g as [e|[]]; [by destruct (io_refusal c a t)|].
    destruct (io_refusal c a t) as [e|].
    + destruct (requeue_effect clients a tid cl t) as [e' evs|[r []] t' evs]; cbn in *;
        by simplify_eq.
    + rewrite <- Hp. by destruct (requeue_effect clients a tid cl t) as [e' evs|[r []] t' evs].
Qed.
End Precheck.

(** ** Drain *)

(** The row a drain leaves of a parked one. *)
Definition drained (t : TicketTask) : TicketTask :=
  forward_reset (requeue_row (clear_gate_block_wait t)).

Section DefaultRequeue.
Context {C : Clock} {G : GateEnv} {E : OpsEnv}.

Lemma drain_disposition_free t :
  opt_in t.(disposition) DRAIN_DISPOSITIONS = true →
  adopted_requeue_refusal t default_args = inr false.
Proof.
  unfold adopted_requeue_refusal. cbn. rewrite andb_true_r, andb_true_r, orb_false_r.
  intros (d & Hd & Hin)%opt_in_true. rewrite Hd.
  assert (Hdr : opt_is (Some d) ADOPTED_HEAD_DRIFT_DISPOSITION = false
                ∧ opt_in (Some d) ADOPT_PR_PARK_DISPOSITIONS = false); [|by destruct Hdr as [-> ->]].
  revert Hin. unfold DRAIN_DISPOSITIONS, HOLD_DISPOSITIONS.
  rewrite elem_of_union, elem_of_difference, !elem_of_union, !elem_of_singleton.
  intros [[[->| ->] _]|[[->| ->]| ->]]; by vm_compute.
Qed.

Lemma default_effect clients tid cl c t :
  clients !! cl = Some c → opt_in t.(disposition) DRAIN_DISPOSITIONS = true →
  t.(status) = QueueItemStatus.BLOCKED_ON_USER →
  ∃ r evs, requeue_effect clients default_args tid cl t = Done (r, true) (drained t) evs
           ∧ r.(rr_from_stage) = t.(stage) ∧ r.(rr_to_stage) = t.(stage).
Proof.
  intros Hc Hd Hs. unfold requeue_effect. cbv zeta. rewrite Hc. cbn [idempotent_pending default_args andb].
  pose proof (prepared_core default_args t) as H0.
  change (drained t) with (forward_reset (requeue_row (prepared default_args t))).
  revert H0. generalize (prepared default_args t). intros t0 H0.
  unfold move_effect, repin_of. rewrite (core_refusal t0 t) by done.
  rewrite drain_disposition_free by done. cbn [repin_adopted_head adopt_recheck default_args].
  cbn [allow_regress andb repinned_row]. cbv zeta. unfold plan_move. cbn [stage_override].
  cbn [is_back move_row move_events].
  rewrite (core_gate t0 t) by done. unfold _forward_gate_applied. rewrite Hs.
  change (bool_decide (QueueItemStatus.BLOCKED_ON_USER ∈ _APPROVABLE_STATUSES)) with true.
  cbn [orb negb]. unfold landed. eexists _, _. split; [reflexivity|].
  destruct (requeue_row_released t0) as (_ & Hst & _). unfold _requeue_result.
  cbn [rr_from_stage rr_to_stage move_row]. rewrite Hst. unfold core in H0. by injection H0.
Qed.

Lemma default_refused clients tid cl t e evs :
  requeue_effect clients default_args tid cl t = Refused e evs → is_CwError e = true.
Proof.
  unfold requeue_effect. cbv zeta. destruct (clients !! cl) as [c|]; [|by intros [= <- _]].
  cbn [idempotent_pending default_args andb]. generalize (prepared default_args t). intros t0.
  unfold move_effect, repin_of.
  assert (Hr : ∃ b, adopted_requeue_refusal t0 default_args = inr b).
  { unfold adopted_requeue_refusal. cbn. destruct (_ && _); eauto. }
  destruct Hr as [b ->]. destruct b; [by intros [= <- _]|].
  cbn [repin_adopted_head adopt_recheck default_args allow_regress andb repinned_row].
  cbv zeta. unfold plan_move. cbn [stage_override is_back].
  destruct (_forward_gate_applied t0 default_args) as [e1|ap] eqn:Hg; [|done].
  apply gate_refused in Hg as [-> _]. by intros [= <- _].
Qed.

Lemma default_requeue_errors sessions clients tid cl q e q' :
  requeue_ticket sessions clients tid cl default_args q = (inl e, q') → is_CwError e = true.
Proof.
  rewrite requeue_ticket_run. unfold requeue_outcome.
  destruct (_refuse_if_live_session _ _ _ _) as [e1|u] eqn:Hg.
  - intros [= <- _]. revert Hg. unfold _refuse_if_live_session, _live_short_ids_or_refuse.
    destruct roster as [[ids|]|]; [|by intros [= <-]..].
    destruct (filter _ _); [done|]. by intros [= <-].
  - destruct (_find_ticket_at _ _ _) as [[i t]|]; [|by intros [= <- _]].
    destruct (requeue_effect _ _ _ _ t) as [e1 evs|[r []] t' evs] eqn:Hr; [|done..].
    intros [= <- _]. by eapply default_refused.
Qed.
End DefaultRequeue.

Section Drains.
Context {C : Clock} {A : Ambient}.

(** One outcome of a batch entry: requeued, or the refusal it met. *)
Definition drain_reports (cl : string) (t : TicketTask) (o : DrainOutcome) : Prop :=
  o.(do_ticket_id) = t.(ticket_id) ∧ o.(do_client) = cl
  ∧ match o.(do_error) with
    | None => o.(do_status) = REQUEUED
              ∧ is_Some o.(do_from_stage) ∧ is_Some o.(do_to_stage)
    | Some e => is_CwError e = true ∧ o.(do_from_stage) = None ∧ o.(do_to_stage) = None
                ∧ o.(do_status) = default FAILED (classify_requeue_live_session_error e)
    end.

Lemma drain_one_total clients cl n t q :
  ∃ o q', drain_one clients cl n t q = (inr o, q') ∧ drain_reports cl t o.
Proof.
  unfold drain_one.
  destruct (requeue_ticket _ _ _ _ _ (amb_queue n q)) as [[e|r] q'] eqn:Hr.
  - apply (@default_requeue_errors C (amb_gate n) (amb_ops n)) in Hr as He.
    unfold drain_failure. destruct (classify_requeue_live_session_error e) as [st|] eqn:Hcl.
    + eexists _, _. split; [done|]. unfold drain_reports. cbn. by rewrite He, Hcl.
    + rewrite He. eexists _, _. split; [done|]. unfold drain_reports. cbn. by rewrite He, Hcl.
  - eexists _, _. split; [done|]. unfold drain_reports. cbn. by split_and!.
Qed.

Lemma drain_loop_total clients cl n held q :
  ∃ os q', drain_loop clients cl n held q = (inr os, q') ∧ Forall2 (drain_reports cl) held os.
Proof.
  revert n q. induction held as [|t held IH]; intros n q; [by exists [], q|].
  cbn [drain_loop]. destruct (drain_one_total clients cl n t q) as (o & q1 & Ho & Hr).
  destruct (IH (S n) q1) as (os & q2 & Hos & HF).
  exists (o :: os), q2. split; [|by constructor].
  unfold mbind, M_bind. by rewrite Ho, Hos.
Qed.

(** C32: a drain always finishes, whatever the other processes do to the queue,
    the sessions and the roster between its steps: it never raises, and it
    reports every selected row once, in queue order, as requeued with its
    stages or with the refusal it met (a live session and an unreadable roster
    under their own tags).  A dry run writes nothing. *)
Theorem drain_never_aborts clients cl ln dry_run q :
  ∃ os q', drain_held_tickets clients cl ln dry_run q = (inr os, q')
    ∧ let held := select_held_tickets q.(q_store) cl ln in
      if dry_run then q' = q ∧ os = map (would_requeue cl) held
      else Forall2 (drain_reports cl) held os.
Proof.
  unfold drain_held_tickets, mbind, M_bind, load_dev_queue, gets. destruct dry_run.
  - by eexists _, q.
  - destruct (drain_loop_total clients cl 0 (select_held_tickets (q_store q) cl ln) q)
      as (os & q' & Hl & HF). by exists os, q'.
Qed.

(** *** With nobody else at work *)

Definition held_row (cl : string) (ln : option string) (t : TicketTask) : bool :=
  String.eqb t.(client) cl && opt_in t.(disposition) DRAIN_DISPOSITIONS
  && match ln with None => true | Some l => String.eqb t.(lane) l end.

Definition drain_result (t : TicketTask) : DrainOutcome :=
  mkDrainOutcome t.(ticket_id) t.(client) REQUEUED None (Some t.(stage)) (Some t.(stage)).

Definition drain_map (cl : string) (ln : option string) (t : TicketTask) : TicketTask :=
  if held_row cl ln t then drained t else t.

Lemma drained_key t : row_key (drained t) = row_key t ∧ is_open (drained t).
Proof.
  unfold drained, row_key, is_open.
  destruct (requeue_row_released (clear_gate_block_wait t)) as ((H1 & _ & _ & _ & _ & _ & H2 & H3 & _) & _).
  rewrite H1, H2, H3. split; [|done]. unfold clear_gate_block_wait. by destruct (owns_wait t).
Qed.

Lemma open_keys_drain cl ln ts :
  Forall (λ t, held_row cl ln t = true → t.(status) = QueueItemStatus.BLOCKED_ON_USER) ts →
  open_keys (map (drain_map cl ln) ts) = open_keys ts.
Proof.
  induction 1 as [|t ts Ht _ IH]; [done|]. cbn [map].
  change (drain_map cl ln t :: map (drain_map cl ln) ts)
    with ([drain_map cl ln t] ++ map (drain_map cl ln) ts).
  change (t :: ts) with ([t] ++ ts). rewrite !open_keys_app, IH. f_equal.
  rewrite !open_keys_single. unfold drain_map. destruct (held_row cl ln t); [|done].
  destruct (drained_key t) as [-> Ho]. rewrite decide_True by done.
  rewrite decide_True; [done|]. unfold is_open. by rewrite Ht.
Qed.
End Drains.

Section QuietDrain.
Context {C : Clock} {A : Ambient} (clients : Clients) (cl : string) (c : ClientConfig)
  (ln : option string).
Hypothesis Hclient : clients !! cl = Some c.
(** No other process writes, and no session of the client is live. *)
Hypothesis Hquiet : ∀ n q, amb_queue n q = q.
Hypothesis Hidle : ∀ n, ∃ ids, @roster (amb_ops n) = Some (Some ids)
  ∧ ∀ s tid, s ∈ amb_sessions n → ¬ overtakes tid cl ids s.

Lemma quiet_guard n tid :
  @_refuse_if_live_session (amb_ops n) (amb_sessions n) tid cl
    default_args.(ignore_session_ids) = inr tt.
Proof.
  apply (@guard_passes (amb_ops n)). destruct (Hidle n) as (ids & Hr & Hno).
  exists ids. split; [done|]. intros s Hs Ho. by destruct (Hno s tid Hs).
Qed.

Lemma quiet_drain_one n q i t :
  one_open_row q.(q_store).(tasks) → q.(q_store).(tasks) !! i = Some t →
  t.(client) = cl → opt_in t.(disposition) DRAIN_DISPOSITIONS = true →
  t.(status) = QueueItemStatus.BLOCKED_ON_USER →
  ∃ evs, drain_one clients cl n t q = (inr (drain_result t), q_put i (drained t) evs q).
Proof.
  intros Hone Hi Hcl Hd Hs. unfold drain_one. rewrite Hquiet, requeue_ticket_run.
  unfold requeue_outcome. rewrite quiet_guard.
  pose proof (find_at_unique q.(q_store) i t Hone Hi) as Hf.
  rewrite Hcl in Hf. rewrite Hf by (unfold is_open; by rewrite Hs). clear Hf.
  destruct (@default_effect (amb_gate n) (amb_ops n) clients t.(ticket_id) cl c t Hclient Hd Hs)
    as (r & evs & -> & H1 & H2).
  exists evs. unfold drain_result. by rewrite H1, H2, Hcl.
Qed.

Lemma quiet_drain_loop pre post n q :
  q.(q_store).(tasks) = map (drain_map cl ln) pre ++ post →
  one_open_row (pre ++ post) →
  Forall (λ t, held_row cl ln t = true → t.(status) = QueueItemStatus.BLOCKED_ON_USER)
    (pre ++ post) →
  let held := filter (λ t, held_row cl ln t = true) post in
  ∃ q', drain_loop clients cl n held q = (inr (map drain_result held), q')
    ∧ q'.(q_store) = set_tasks (map (drain_map cl ln) (pre ++ post)) q.(q_store)
    ∧ q'.(q_saves) = q.(q_saves) + length held.
Proof.
  cbv zeta. revert pre n q. induction post as [|t post IH]; intros pre n q Hq Hone Hall.
  { exists q. rewrite app_nil_r in *. split_and!; [done| |cbn; lia].
    rewrite <- Hq. by destruct q as [[] ? ? ?]. }
  rewrite filter_cons.
  assert (Hsplit : pre ++ t :: post = (pre ++ [t]) ++ post) by by rewrite <- app_assoc.
  destruct (decide (held_row cl ln t = true)) as [Hh|Hh].
  - pose proof Hh as Hh2. unfold held_row in Hh2.
    apply andb_true_iff in Hh2 as [[Hcl Hd]%andb_true_iff _]. apply String.eqb_eq in Hcl.
    assert (Hs : t.(status) = QueueItemStatus.BLOCKED_ON_USER).
    { rewrite Forall_forall in Hall. apply Hall; [|done]. rewrite elem_of_app. right.
      apply list_elem_of_here. }
    assert (Hone' : one_open_row q.(q_store).(tasks)).
    { rewrite Hq. unfold one_open_row in *. rewrite open_keys_app in *.
      rewrite open_keys_drain; [done|]. by apply Forall_app in Hall as [? _]. }
    assert (Hi : q.(q_store).(tasks) !! length (map (drain_map cl ln) pre) = Some t)
      by (rewrite Hq, lookup_app_r, Nat.sub_diag by lia; done).
    destruct (quiet_drain_one n q _ t Hone' Hi Hcl Hd Hs) as (evs & Ho).
    cbn [drain_loop map]. unfold mbind at 1, M_bind at 1. rewrite Ho.
    destruct (IH (pre ++ [t]) (S n) (q_put (length (map (drain_map cl ln) pre)) (drained t) evs q))
      as (q' & Hl & Hst & Hsv).
    + unfold q_put. cbn [q_store set_tasks tasks]. rewrite Hq, insert_app_r_alt, Nat.sub_diag by lia.
      rewrite map_app, <- app_assoc. cbn. unfold drain_map at 3. by rewrite Hh.
    + by rewrite <- Hsplit.
    + by rewrite <- Hsplit.
    + exists q'. rewrite Hsplit. split_and!.
      * unfold mbind, M_bind. by rewrite Hl.
      * rewrite Hst. unfold q_put. by destruct q as [[] ? ? ?].
      * rewrite Hsv. cbn. lia.
  - destruct (IH (pre ++ [t]) n q) as (q' & Hl & Hst & Hsv).
    + rewrite Hq, map_app, <- app_assoc. cbn. unfold drain_map at 3.
      apply not_true_iff_false in Hh. by rewrite Hh.
    + by rewrite <- Hsplit.
    + by rewrite <- Hsplit.
    + exists q'. rewrite Hsplit. by split_and!.
Qed.

(** with no other writer and no live session, a drain releases exactly
    what it selects: on a queue without duplicate open rows whose selected
    rows are parked, every row of the client (and lane) held for availability,
    review health, rejected findings or stale review is pending again at its
    own stage, one save each, and reported so, and every other row - the
    operator's force holds among them - is what it was. *)
Theorem drain_releases_parks q :
  one_open_row q.(q_store).(tasks) →
  Forall (λ t, t.(status) = QueueItemStatus.BLOCKED_ON_USER)
    (select_held_tickets q.(q_store) cl ln) →
  let held := select_held_tickets q.(q_store) cl ln in
  ∃ q', drain_held_tickets clients cl ln false q = (inr (map drain_result held), q')
    ∧ q'.(q_store) = set_tasks (map (drain_map cl ln) q.(q_store).(tasks)) q.(q_store)
    ∧ q'.(q_saves) = q.(q_saves) + length held
    ∧ (∀ t, held_row cl ln t = true → released t (drain_map cl ln t)
                                      ∧ (drain_map cl ln t).(stage) = t.(stage))
    ∧ ∀ t, t.(disposition) = Some FINALIZE_GATE_HELD_DISPOSITION → drain_map cl ln t = t.
Proof.
  intros Hone Hall. cbv zeta. unfold drain_held_tickets, mbind, M_bind, load_dev_queue, gets.
  change (select_held_tickets (q_store q) cl ln)
    with (filter (λ t, held_row cl ln t = true) q.(q_store).(tasks)) in *.
  destruct (quiet_drain_loop [] q.(q_store).(tasks) 0 q) as (q' & Hl & Hst & Hsv);
    [done|done| |].
  { rewrite Forall_forall in *. intros t Ht Hh. apply Hall. by apply list_elem_of_filter. }
  exists q'. split_and!; [done|done|done| |].
  - intros t Hh. unfold drain_map. rewrite Hh.
    destruct (requeue_row_released (clear_gate_block_wait t)) as (Hr & Hs & _).
    unfold drained. rewrite Hs. revert Hr. unfold released, clear_gate_block_wait.
    by destruct (owns_wait t).
  - intros t Hd. unfold drain_map, held_row. rewrite Hd.
    replace (opt_in (Some FINALIZE_GATE_HELD_DISPOSITION) DRAIN_DISPOSITIONS) with false
      by by vm_compute.
    by rewrite andb_false_r.
Qed.
End QuietDrain.

(** ** Unblock *)

Section Unblocks.
Context {C : Clock}.

Lemma unblock_row_effect t :
  has_effect unblock_row t
    (if bool_decide (t.(status) = QueueItemStatus.BLOCKED_ON_USER)
     then Done tt (drop_anchors (pend true t)) (pend_events true t)
     else Refused UnblockStateError []).
Proof.
  apply effect_read_bind. cbn [id]. destruct (bool_decide _); cbn [negb]; [|apply effect_raise].
  intros evs n. by rewrite (bind_run _ _ _ _ _ (pend_run true t evs n)).
Qed.

Lemma on_row_run t m eff q :
  has_effect m t eff →
  on_row t m q = match eff with
                 | Refused e evs => (inl e, q_append evs q)
                 | Done _ t' evs => (inr t', q_append evs q)
                 end.
Proof.
  intros H. unfold on_row. specialize (H q.(q_events) q.(q_ticks)).
  destruct eff as [e evs|a t' evs]; [destruct H as [t' ->]|rewrite H]; by destruct q.
Qed.

Lemma q_append_nil q : q_append [] q = q.
Proof. unfold q_append. rewrite app_nil_r. by destruct q. Qed.

Lemma unblock_locked_run tid cl q :
  unblock_locked tid cl q =
  match _find_ticket_at q.(q_store) tid cl with
  | None => (inl NO_TASK, q)
  | Some (i, t) =>
      if bool_decide (t.(status) = QueueItemStatus.BLOCKED_ON_USER)
      then (inr tt, q_put i (drop_anchors (pend true t)) (pend_events true t) q)
      else (inl UnblockStateError, q)
  end.
Proof.
  unfold unblock_locked. unfold mbind at 1, M_bind at 1, load_dev_queue, gets.
  destruct (_find_ticket_at _ _ _) as [[i t]|]; [|done].
  unfold mbind at 1, M_bind at 1. rewrite (on_row_run t _ _ q (unblock_row_effect t)).
  destruct (bool_decide _); [done|]. by rewrite q_append_nil.
Qed.

Lemma unblocked_row t :
  t.(status) = QueueItemStatus.BLOCKED_ON_USER →
  released t (drop_anchors (pend true t))
  ∧ (drop_anchors (pend true t)).(stage) = t.(stage)
  ∧ (drop_anchors (pend true t)).(unproductive_attempts) = t.(unproductive_attempts).
Proof.
  intros Hs. unfold released. autorewrite with row. rewrite pend_client, pend_lane, Hs.
  rewrite bool_decide_false by done. cbn [andb]. by rewrite Z.add_0_r.
Qed.

(** unblocking is all or nothing.  When it raises, neither the queue nor
    the session file differs from what the other processes left.  When it
    returns, the session the row was bound to before the locks bore the
    salvage-park mark, the ticket's row under the lock was parked, that row
    alone is pending again at its stage, unbound and not charged, in one save,
    and the session lost its mark and its result.  Only the row's status is
    checked again under the lock, not that it still binds that session. *)
Theorem unblock_all_or_nothing race tid cl w :
  let w1 := race w in
  match unblock_ticket race tid cl w with
  | (inl _, w') => w' = w ∨ w' = w1
  | (inr _, w') =>
      ∃ t0 sid j s i t t',
        (∃ i0, _find_ticket_at w.(ow_queue).(q_store) tid cl = Some (i0, t0))
        ∧ t0.(session_id) = Some sid
        ∧ find_by_name_or_id w1.(ow_sessions) sid = inr (Some (j, s))
        ∧ s.(sess_reap_reason) = Some SALVAGE_PARKED_value
        ∧ _find_ticket_at w1.(ow_queue).(q_store) tid cl = Some (i, t)
        ∧ t.(status) = QueueItemStatus.BLOCKED_ON_USER
        ∧ w'.(ow_queue) = q_put i t' (pend_events true t) w1.(ow_queue)
        ∧ released t t' ∧ t'.(stage) = t.(stage)
        ∧ t'.(unproductive_attempts) = t.(unproductive_attempts)
        ∧ w'.(ow_sessions)
          = <[j := s <| sess_last_result := None |> <| sess_reap_reason := None |>]>
              w1.(ow_sessions)
  end.
Proof.
  cbv zeta. unfold unblock_ticket. unfold mbind at 1, M_bind at 1, get.
  destruct (_find_ticket_at (q_store (ow_queue w)) tid cl) as [[i0 t0]|] eqn:Hf0; [|by left].
  destruct (bool_decide (status t0 = _)); cbn [negb]; [|by left].
  unfold mbind at 1, M_bind at 1, modify. unfold mbind at 1, M_bind at 1, get.
  unfold mbind at 1, M_bind at 1, of_sum.
  unfold parked_session. destruct (session_id t0) as [sid|] eqn:Hsid; [|by right].
  destruct (find_by_name_or_id _ sid) as [e|[[j s]|]] eqn:Hs; [by right| |by right].
  cbn [snd fst]. destruct (opt_is (sess_reap_reason s) _) eqn:Hr; [|by right].
  apply opt_is_true in Hr. cbn [mret M_ret].
  unfold mbind at 1, M_bind at 1, on_queue. rewrite unblock_locked_run.
  destruct (_find_ticket_at (q_store (ow_queue (race w))) tid cl) as [[i t]|] eqn:Hf;
    [|right; by destruct (race w)].
  destruct (bool_decide (status t = _)) eqn:Hst; [|right; by destruct (race w)].
  apply bool_decide_eq_true in Hst. cbn [modify fst snd ow_queue ow_sessions].
  destruct (unblocked_row t Hst) as (H1 & H2 & H3).
  exists t0, sid, j, s, i, t, (drop_anchors (pend true t)).
  split_and!; try done. by exists i0.
Qed.
End Unblocks.

(** ** The claims at concrete inputs *)

Definition demo_clock : Clock := λ n, Z.of_nat n.

Definition demo_gate : GateEnv := {|
  branch_worktree := λ _ _ _, Some "/wt";
  git_head := λ _, Some "f00d";
  git_rev_count := λ _ _, Some 1%Z;
  git_merge_head := λ _, Some false;
  conflicting_branch := λ _ _, false;
  tolerates_review_move := λ _ _ _ _, false;
  recipe_will_release := λ _ _ _ _, false;
  effective_config := mkOrchestratorConfig "none" "auto" 10 ReapPolicy.SIGNAL_ONLY |}.

Definition demo_ops : OpsEnv := {|
  roster := Some (Some {[ "0a1b2c3d" ]});
  worktree_path_for := λ _ b, "/wt/" +:+ b;
  path_exists := λ _, false;
  _checked_out_branch := λ _, None;
  read_text := λ _, None;
  resolve_tracker := λ _, None;
  fetch_approved_plan_comment := λ _ _, None;
  branch_head_sha_on_origin := λ _ _, None;
  is_ancestor := λ _ _ _, None |}.

Definition demo_client : ClientConfig :=
  mkClientConfig "main" "dev" [] (mkStagePipelineConfig None ∅) false None "blocking" None.
Definition demo_clients : Clients := {[ "acme" := demo_client ]}.

Definition demo_row (st : queue_status) (d : option string) (sg : StageT) : TicketTask :=
  (new_task "T-1" "acme" 0) <| status := st |> <| disposition := d |> <| stage := sg |>
    <| session_id := Some "s1" |>.

Definition demo_queue (ts : list TicketTask) : QueueWorld :=
  mkQueueWorld (mkDevQueueStore 48 ts []) [] 0 0.

(** A park sent back to IMPL from FINALIZE, the regress inferred. *)
Definition demo_back : RequeueArgs :=
  mkRequeueArgs (Some "impl") false false false false ∅ true true false false None None.

Lemma requeue_lands_witness :
  let q := demo_queue [demo_row QueueItemStatus.BLOCKED_ON_USER (Some "merge_gate_blocked")
                         Stage.FINALIZE] in
  let r := @requeue_ticket demo_clock demo_gate demo_ops [] demo_clients "T-1" "acme" demo_back q in
  ∃ res, r.1 = inr res ∧ res.(regressed) = true
    ∧ ∃ i t, _find_ticket_at q.(q_store) "T-1" "acme" = Some (i, t)
        ∧ ((demo_back.(idempotent_pending) = true
            ∧ is_pending_requeue_noop t demo_back.(stage_override) demo_back.(allow_regress) = true
            ∧ res.(already_pending) = true ∧ r.2 = q)
           ∨ ∃ c t' evs, demo_clients !! "acme" = Some c ∧ r.2 = q_put i t' evs q
               ∧ landing demo_back c t t' res).
Proof.
  cbv zeta. eexists. split; [vm_compute; reflexivity|]. split; [reflexivity|].
  eapply (@requeue_lands demo_clock demo_gate demo_ops [] demo_clients "T-1" "acme" demo_back).
  vm_compute. reflexivity.
Defined.

(** A running row asked for a later stage: refused, and the inbox reports the
    move. *)
Definition demo_forward : RequeueArgs :=
  mkRequeueArgs (Some "finalize") false false false false ∅ true true false false None None.

Lemma refused_requeue_keeps_file_witness :
  let q := demo_queue [demo_row QueueItemStatus.RUNNING None Stage.REVIEW] in
  let r := @requeue_ticket demo_clock demo_gate demo_ops [] demo_clients "T-1" "acme"
             demo_forward q in
  r.1 = inl RequeueStateError
  ∧ map ev_type r.2.(q_events) = [TASK_STAGE_CHANGED]
  ∧ r.2.(q_store) = q.(q_store) ∧ r.2.(q_saves) = q.(q_saves) ∧ r.2.(q_ticks) = q.(q_ticks)
  ∧ (r.2.(q_events) = q.(q_events)
     ∨ ∃ i t s, _find_ticket_at q.(q_store) "T-1" "acme" = Some (i, t)
         ∧ demo_forward.(stage_override) = Some (Stage.stage_value s) ∧ s ≠ t.(stage)
         ∧ RequeueStateError = RequeueStateError ∧ t.(status) ∉ _APPROVABLE_STATUSES
         ∧ r.2.(q_events) = q.(q_events) ++ stage_change_events t t.(stage) s "advance").
Proof.
  cbv zeta. split; [vm_compute; reflexivity|]. split; [vm_compute; reflexivity|].
  apply (@refused_requeue_keeps_file demo_clock demo_gate demo_ops [] demo_clients "T-1" "acme"
           demo_forward _ RequeueStateError).
  vm_compute. reflexivity.
Defined.

(** A forward move into IMPL without a plan: the prediction passes, the call
    refuses. *)
Definition demo_to_impl : RequeueArgs :=
  mkRequeueArgs (Some "impl") false false false false ∅ true true false false None None.

Lemma precheck_predicts_requeue_witness :
  let q := demo_queue [demo_row QueueItemStatus.BLOCKED_ON_USER (Some "plan_pending_approval")
                         Stage.PLAN] in
  let t := demo_row QueueItemStatus.BLOCKED_ON_USER (Some "plan_pending_approval") Stage.PLAN in
  let r := @requeue_ticket demo_clock demo_gate demo_ops [] demo_clients "T-1" "acme"
             demo_to_impl q in
  let predicted := @precheck_requeue demo_ops [] demo_clients "T-1" "acme" demo_to_impl
                     q.(q_store) in
  predicted = inr tt ∧ r.1 = inl RequeueStageError
  ∧ if demo_to_impl.(idempotent_pending)
       && is_pending_requeue_noop t demo_to_impl.(stage_override) demo_to_impl.(allow_regress)
    then predicted = inr tt
         ∧ match result (@requeue_ticket demo_clock demo_gate demo_ops [] demo_clients "T-1"
                           "acme" demo_to_impl) q with inl e => inl e | inr _ => inr tt end
           = @_refuse_if_live_session demo_ops [] "T-1" "acme" demo_to_impl.(ignore_session_ids)
    else match @io_refusal demo_ops demo_client demo_to_impl t with
         | None => match result (@requeue_ticket demo_clock demo_gate demo_ops [] demo_clients
                                   "T-1" "acme" demo_to_impl) q with
                   | inl e => inl e | inr _ => inr tt end = predicted
         | Some e =>
             match result (@requeue_ticket demo_clock demo_gate demo_ops [] demo_clients "T-1"
                             "acme" demo_to_impl) q with inl e => inl e | inr _ => inr tt end
             = match @_refuse_if_live_session demo_ops [] "T-1" "acme"
                       demo_to_impl.(ignore_session_ids) with
               | inl e' => inl e' | inr _ => inl e end
         end.
Proof.
  cbv zeta. split; [vm_compute; reflexivity|]. split; [vm_compute; reflexivity|].
  apply (@precheck_predicts_requeue demo_clock demo_gate demo_ops [] demo_clients "T-1" "acme"
           demo_to_impl _ 0 _ demo_client); vm_compute; reflexivity.
Defined.

(** A batch of one availability park beside a force hold. *)
Definition demo_ambient : Ambient := {|
  amb_queue := λ _ q, q; amb_sessions := λ _, [];
  amb_gate := λ _, demo_gate; amb_ops := λ _, demo_ops |}.

Definition demo_held : TicketTask :=
  demo_row QueueItemStatus.BLOCKED_ON_USER (Some AWAITING_OPERATOR_DISPOSITION) Stage.REVIEW.
Definition demo_hold : TicketTask :=
  (demo_row QueueItemStatus.BLOCKED_ON_USER (Some FINALIZE_GATE_HELD_DISPOSITION) Stage.REVIEW)
    <| ticket_id := "T-2" |>.

Lemma drain_releases_parks_witness :
  let q := demo_queue [demo_held; demo_hold] in
  let held := select_held_tickets q.(q_store) "acme" None in
  map ticket_id held = ["T-1"]
  ∧ ∃ q', @drain_held_tickets demo_clock demo_ambient demo_clients "acme" None false q
          = (inr (map drain_result held), q')
    ∧ q'.(q_store) = set_tasks (map (drain_map "acme" None) q.(q_store).(tasks)) q.(q_store)
    ∧ q'.(q_saves) = q.(q_saves) + length held
    ∧ (∀ t, held_row "acme" None t = true → released t (drain_map "acme" None t)
                                            ∧ (drain_map "acme" None t).(stage) = t.(stage))
    ∧ ∀ t, t.(disposition) = Some FINALIZE_GATE_HELD_DISPOSITION → drain_map "acme" None t = t.
Proof.
  cbv zeta. split; [vm_compute; reflexivity|].
  apply (@drain_releases_parks demo_clock demo_ambient demo_clients "acme" demo_client None).
  - reflexivity.
  - reflexivity.
  - intros n. exists {[ "0a1b2c3d" ]}. split; [reflexivity|]. intros s tid Hs.
    by apply not_elem_of_nil in Hs.
  - unfold one_open_row. apply (bool_decide_unpack _). vm_compute. exact I.
  - change (Forall (λ t, t.(status) = QueueItemStatus.BLOCKED_ON_USER) [demo_held]).
    by constructor.
Defined.
