(* ===== verification/PlanFingerprint.v ===== *)
(** * Plan-draft fingerprints: [plan_fingerprint.py]

    The leading bookkeeping block of [.cw/plan-draft.md], the digest of what
    follows it, the ticket-body digest, and the binding of a producer's claim
    to the digest of the draft on disk.  Text is its UTF-8 bytes; the anchored
    patterns are recognisers that return the rest of the text.
    [hashlib.sha256] is written out.  At the end, the rule's contract. *)

From S2P Require Import Prelude PyStr PyText.

#[local] Open Scope cw_scope.

(** ** SHA-256 *)

Definition W32 : N := 4294967296.
Definition add32 (a b : N) : N := ((a + b) mod W32)%N.
Definition rotr (n x : N) : N := N.lor (N.shiftr x n) (N.shiftl x (32 - n) mod W32).
Definition not32 (x : N) : N := N.lxor x (W32 - 1).

(** The round constants are the first 32 bits after the point of the cube roots
    of the first 64 primes, the initial state those of the square roots of the
    first 8.  [root_bits k e n]: the largest [r < 2^k] with [r^e <= n]. *)
Fixpoint root_bits (k : nat) (e n r : N) : N :=
  match k with
  | O => r
  | S k' =>
      let r' := (r + 2 ^ N.of_nat k')%N in
      root_bits k' e n (if N.leb (r' ^ e) n then r' else r)
  end.

Definition is_prime (n : nat) : bool :=
  forallb (λ d, negb (Nat.eqb (n mod d) 0)) (seq 2 (n - 2)).

Definition primes_to (n : nat) : list N := map N.of_nat (filter (λ p, is_prime p = true) (seq 2 (n - 1))).

Definition root_fraction (e p : N) : N := (root_bits 40 e (p * 2 ^ (32 * e)) 0 mod W32)%N.

Definition sha_K : list N := Eval vm_compute in map (root_fraction 3) (primes_to 311).
Definition sha_H0 : list N := Eval vm_compute in map (root_fraction 2) (primes_to 19).

Fixpoint bytes_of (s : string) : list N :=
  match s with EmptyString => [] | String c s' => N_of_ascii c :: bytes_of s' end.

(** The last [k] big-endian bytes of [n]. *)
Fixpoint be_bytes (k : nat) (n : N) : list N :=
  match k with
  | O => []
  | S k' => be_bytes k' (N.shiftr n 8) ++ [(n mod 256)%N]
  end.

(** [1] bit, zeros up to 56 mod 64 bytes, the length in bits. *)
Definition sha_pad (m : list N) : list N :=
  let n := length m in
  m ++ [128%N] ++ replicate ((119 - n mod 64) mod 64) 0%N ++ be_bytes 8 (8 * N.of_nat n).

Fixpoint words_of (l : list N) : list N :=
  match l with
  | a :: b :: c :: d :: l' => (a * 16777216 + b * 65536 + c * 256 + d)%N :: words_of l'
  | _ => []
  end.

(** The message schedule: [w] holds the words so far, newest first. *)
Definition schedule_next (w : list N) : N :=
  let at_ i := nth i w 0%N in
  let s0 x := N.lxor (N.lxor (rotr 7 x) (rotr 18 x)) (N.shiftr x 3) in
  let s1 x := N.lxor (N.lxor (rotr 17 x) (rotr 19 x)) (N.shiftr x 10) in
  add32 (add32 (s1 (at_ 1)) (at_ 6)) (add32 (s0 (at_ 14)) (at_ 15)).

Fixpoint schedule (n : nat) (w : list N) : list N :=
  match n with O => w | S n' => schedule n' (schedule_next w :: w) end.

Definition sha_round (st : list N) (kw : N * N) : list N :=
  match st with
  | [a; b; c; d; e; f; g; h] =>
      let S1 := N.lxor (N.lxor (rotr 6 e) (rotr 11 e)) (rotr 25 e) in
      let ch := N.lxor (N.land e f) (N.land (not32 e) g) in
      let t1 := add32 (add32 (add32 h S1) (add32 ch kw.1)) kw.2 in
      let S0 := N.lxor (N.lxor (rotr 2 a) (rotr 13 a)) (rotr 22 a) in
      let maj := N.lxor (N.lxor (N.land a b) (N.land a c)) (N.land b c) in
      [add32 t1 (add32 S0 maj); a; b; c; add32 d t1; e; f; g]
  | _ => st
  end.

Definition sha_block (st : list N) (block : list N) : list N :=
  let w := reverse (schedule 48 (reverse block)) in
  zip_with add32 st (fold_left sha_round (zip sha_K w) st).

Fixpoint sha_blocks (fuel : nat) (st ws : list N) : list N :=
  match fuel, ws with
  | S fuel', _ :: _ => sha_blocks fuel' (sha_block st (take 16 ws)) (drop 16 ws)
  | _, _ => st
  end.

Definition hex_of_byte (n : N) : string :=
  String (hex_digit (N.to_nat (n / 16))) (String (hex_digit (N.to_nat (n mod 16))) "").

(** [hashlib.sha256(text.encode("utf-8")).hexdigest()]. *)
Definition sha256_hex (s : string) : string :=
  let ws := words_of (sha_pad (bytes_of s)) in
  let st := sha_blocks (S (length ws)) sha_H0 ws in
  str_concat (map hex_of_byte (concat (map (be_bytes 4) st))).

Example sha256_empty :
  sha256_hex "" = "e3b0c44298fc1c149afbf4c8996fb92427ae41e4649b934ca495991b7852b855".
Proof. vm_compute. reflexivity. Qed.
Example sha256_abc :
  sha256_hex "abc" = "ba7816bf8f01cfea414140de5dae2223b00361a396177a9cb410ff61f20015ad".
Proof. vm_compute. reflexivity. Qed.
Example sha256_two_blocks :
  sha256_hex "abcdbcdecdefdefgefghfghighijhijkijkljklmklmnlmnomnopnopq"
  = "248d6a61d20638b8e5c026930c3e6039a33ce45964ff2167f6ecedd419db06c1".
Proof. vm_compute. reflexivity. Qed.

(** ** Recognisers *)

Definition eat (lit s : string) : option string :=
  if starts_with lit s then Some (str_drop (String.length lit) s) else None.

(** [[cs]+], greedy; what follows never starts with a member of [cs]. *)
Fixpoint span (cs : ascii → bool) (s : string) : string * string :=
  match s with
  | String c s' => if cs c then let '(a, b) := span cs s' in (String c a, b)
                   else (EmptyString, s)
  | EmptyString => (EmptyString, EmptyString)
  end.

Definition some_of (cs : ascii → bool) (s : string) : option string :=
  let '(a, b) := span cs s in if String.eqb a "" then None else Some b.

Definition is_digit (c : ascii) : bool :=
  let n := nat_of_ascii c in Nat.leb 48 n && Nat.leb n 57.
Definition is_lower (c : ascii) : bool :=
  let n := nat_of_ascii c in Nat.leb 97 n && Nat.leb n 122.
Definition is_hex (c : ascii) : bool :=
  is_digit c || (let n := nat_of_ascii c in Nat.leb 97 n && Nat.leb n 102).

(** [[0-9a-f]{64}]: the digest and the rest. *)
Fixpoint hex_run (n : nat) (s : string) : option (string * string) :=
  match n, s with
  | O, _ => Some (EmptyString, s)
  | S n', String c s' =>
      if is_hex c then match hex_run n' s' with
                       | Some (a, b) => Some (String c a, b)
                       | None => None
                       end
      else None
  | S _, EmptyString => None
  end.

Definition CLOSE : string := " -->".

(** [ -->\n?]. *)
Definition close_line (s : string) : option string :=
  rest ← eat CLOSE s;
  Some (match eat NLs rest with Some r => r | None => rest end).

(** [[^\n]+? -->\n?]: the first close after at least one character, on the
    same line. *)
Fixpoint lazy_close (s : string) : option string :=
  match s with
  | EmptyString => None
  | String c s' =>
      if Ascii.eqb c NL then None
      else match close_line s' with
           | Some r => Some r
           | None => lazy_close s'
           end
  end.

(** The first alternative that matches. *)
Definition first_of (a b : option string) : option string :=
  match a with Some r => Some r | None => b end.

(** ** The bookkeeping lines *)

Definition _ROUND_LINE (s : string) : option string :=
  s ← eat "<!-- plan-stage-scan-round: " s;
  s ← some_of is_digit s;
  close_line s.

(** The digest and the rest. *)
Definition _LAST_EVALUATED_LINE (s : string) : option (string * string) :=
  s ← eat "<!-- plan-stage-last-evaluated: operator_comment=" s;
  s ← some_of (λ c, negb (Ascii.eqb c "|" || Ascii.eqb c NL)) s;
  s ← eat "|body_sha=" s;
  p ← hex_run 64 s;
  s ← close_line p.2;
  Some (p.1, s).

Definition settled_answer (s : string) : option string :=
  first_of
    (s ← eat "A" s; s ← some_of is_digit s; s ← eat ": " s;
     first_of (eat "ADOPTED" s)
       (s ← eat "ALT-" s;
        match s with String c s' => if is_lower c then Some s' else None | _ => None end))
    (s ← eat "P" s; s ← some_of is_digit s; s ← eat ": " s;
     first_of (eat "CONFIRMED" s) (first_of (eat "REFUTED" s) (eat "DEFERRED" s))).

Definition _SETTLED_LINE (s : string) : option string :=
  s ← eat "<!-- plan-stage-settled: " s;
  s ← settled_answer s;
  close_line s.

Definition not_semicolon (c : ascii) : bool := negb (Ascii.eqb c ";" || Ascii.eqb c NL).

Definition _RESOLUTIONS_ATTEMPTED_LINE (s : string) : option string :=
  s ← eat "<!-- plan-stage-resolutions-attempted: source=" s;
  s ← some_of not_semicolon s;
  s ← eat "; outcome=" s;
  first_of (s ← eat "started; lease_until=" s; lazy_close s)
    (s ← first_of (eat "failed" s) (eat "succeeded" s); close_line s).

Definition _APPROVAL_REVOKED_LINE (s : string) : option string :=
  s ← eat "<!-- plan-stage-approval-revoked: at=" s;
  s ← some_of not_semicolon s;
  s ← eat "; fingerprint=" s;
  p ← hex_run 64 s;
  close_line p.2.

(** [(?::[0-9a-f]{64})?], then the close. *)
Definition optional_digest_close (s : string) : option string :=
  first_of (s ← eat ":" s; p ← hex_run 64 s; close_line p.2) (close_line s).

Definition _RESOLUTIONS_APPLIED_LINE (s : string) : option string :=
  s ← eat "<!-- plan-stage-resolutions-applied: source=" s;
  first_of (s ← eat "comment:" s; lazy_close s)
    (first_of (s ← eat "body:" s; p ← hex_run 64 s; close_line p.2)
       (first_of (s ← eat "row:" s; s ← some_of is_digit s; optional_digest_close s)
          (s ← eat "none" s; close_line s))).

Definition _TRAILING_BOOKKEEPING_LINES : list (string → option string) :=
  [_RESOLUTIONS_ATTEMPTED_LINE; _APPROVAL_REVOKED_LINE; _RESOLUTIONS_APPLIED_LINE].

(** ** The rule *)

Definition is_plan_draft_fingerprint (value : string) : bool :=
  match hex_run 64 value with Some (_, rest) => String.eqb rest "" | None => false end.

(** [while settled_match := ...]: each line takes characters, so the length
    of the text is enough fuel. *)
Fixpoint skip_settled (fuel : nat) (s : string) : string :=
  match fuel with
  | O => s
  | S fuel' => match _SETTLED_LINE s with Some s' => skip_settled fuel' s' | None => s end
  end.

Definition skip (line : string → option string) (s : string) : string :=
  match line s with Some s' => s' | None => s end.

(** The text after the leading bookkeeping block. *)
Definition strip_bookkeeping (text : string) : string :=
  match _ROUND_LINE text with
  | None => text
  | Some s =>
      let s := skip (λ s, snd <$> _LAST_EVALUATED_LINE s) s in
      let s := skip_settled (String.length s) s in
      fold_left (λ s line, skip line s) _TRAILING_BOOKKEEPING_LINES s
  end.

Definition compute_plan_draft_fingerprint (text : string) : string :=
  sha256_hex (strip_bookkeeping text).

(** [str.rstrip()]. *)
Definition text_rstrip (s : string) : string :=
  str_concat (reverse (drop_spaces (reverse (chars s)))).

Definition compute_body_sha (body : string) : string := sha256_hex (text_rstrip body).

Definition extract_persisted_body_sha (draft_text : string) : option string :=
  s ← _ROUND_LINE draft_text;
  fst <$> _LAST_EVALUATED_LINE s.

(** ** Binding a claim *)

Definition PLAN_DRAFT_FINGERPRINT_KEY : string := "plan_draft_fingerprint".

Record FingerprintBinding := mkFingerprintBinding {
  fb_fingerprint : string; fb_draft_path : string; fb_replaced : bool }.

(** [read]: [None] when the file does not exist, [Some None] when it cannot
    be read as UTF-8.  [inl tt] is [PlanDraftBindingError]; the payload
    returned is the mutated one. *)
Definition bind_claimed_fingerprint (payload : list (string * json)) (draft_path : string)
  (read : option (option string))
  : unit + (option FingerprintBinding * list (string * json)) :=
  let claimed := dict_get PLAN_DRAFT_FINGERPRINT_KEY payload in
  if is_null claimed then inr (None, payload)
  else match read with
       | Some (Some draft_text) =>
           let computed := compute_plan_draft_fingerprint draft_text in
           inr (Some (mkFingerprintBinding computed draft_path
                        (negb (json_is_str computed claimed))),
                dict_set PLAN_DRAFT_FINGERPRINT_KEY (JStr computed) payload)
       | _ => inl tt
       end.

Definition sanitize_persisted_fingerprint (last_result : list (string * json))
  : list (string * json) :=
  match dict_get PLAN_DRAFT_FINGERPRINT_KEY last_result with
  | JStr raw => if is_plan_draft_fingerprint raw then last_result
                else dict_set PLAN_DRAFT_FINGERPRINT_KEY JNull last_result
  | _ => last_result
  end.

(** * The fingerprint rule's contract

    Every digest cw computes passes cw's own validator; the fingerprint is a
    digest of the plan content alone, whatever the leading bookkeeping says;
    and the body digest a plan stage persisted is read back. *)

(** ** Digests are well formed *)

Lemma be_bytes_bound k n : Forall (λ b, (b < 256)%N) (be_bytes k n).
Proof.
  revert n. induction k as [|k IH]; intros n; cbn [be_bytes]; [constructor|].
  apply Forall_app. split; [apply IH|]. constructor; [|constructor].
  by apply N.mod_upper_bound.
Qed.

Lemma be_bytes_length k n : length (be_bytes k n) = k.
Proof. revert n. induction k; intros n; cbn [be_bytes]; [done|]. rewrite length_app, IHk. cbn. lia. Qed.

Lemma sha_round_length st kw : length st = 8 → length (sha_round st kw) = 8.
Proof. intros H. do 9 (destruct st as [|? st]; try done). Qed.

Lemma sha_rounds_length l st : length st = 8 → length (fold_left sha_round l st) = 8.
Proof.
  revert st. induction l as [|kw l IH]; intros st H; [done|]. apply IH. by apply sha_round_length.
Qed.

Lemma sha_block_length st b : length st = 8 → length (sha_block st b) = 8.
Proof.
  intros H. unfold sha_block. rewrite length_zip_with, sha_rounds_length by done.
  by rewrite H.
Qed.

Lemma sha_blocks_length fuel st ws : length st = 8 → length (sha_blocks fuel st ws) = 8.
Proof.
  revert st ws. induction fuel as [|fuel IH]; intros st ws H; [done|]. cbn [sha_blocks].
  destruct ws; [done|]. by apply IH, sha_block_length.
Qed.

(** [p] holds of every byte. *)
Fixpoint every (p : ascii → bool) (s : string) : bool :=
  match s with EmptyString => true | String c s' => p c && every p s' end.

Lemma every_app p a b : every p (a +:+ b) = every p a && every p b.
Proof. induction a as [|c a IH]; [done|]. rewrite sapp_cons. cbn. by rewrite IH, andb_assoc. Qed.

Lemma slength_app a b : String.length (a +:+ b) = String.length a + String.length b.
Proof. induction a as [|c a IH]; [done|]. rewrite sapp_cons. cbn. by rewrite IH. Qed.

(** A string of [n] hex digits. *)
Definition hex_string (n : nat) (s : string) : Prop :=
  String.length s = n ∧ every is_hex s = true.

Lemma hex_run_app n s rest : hex_string n s → hex_run n (s +:+ rest) = Some (s, rest).
Proof.
  intros [Hl Hh]. revert n Hl Hh. induction s as [|c s IH]; intros n Hl Hh; [by subst n|].
  destruct n as [|n]; [done|]. injection Hl as Hl.
  cbn in Hh. apply andb_true_iff in Hh as [Hc Hs].
  rewrite sapp_cons. cbn [hex_run]. by rewrite Hc, (IH n Hl Hs).
Qed.

Lemma hex_run_spec n s a b : hex_run n s = Some (a, b) → s = a +:+ b ∧ hex_string n a.
Proof.
  revert s a b. induction n as [|n IH]; intros s a b; cbn [hex_run]; [by intros [= <- <-]|].
  destruct s as [|c s]; [done|]. destruct (is_hex c) eqn:Hc; [|done].
  destruct (hex_run n s) as [[a' b']|] eqn:E; [|done]. intros [= <- <-].
  apply IH in E as (-> & Hl & Hh). split; [done|]. split; cbn; [by rewrite Hl|by rewrite Hc].
Qed.

Lemma fingerprint_spec s : is_plan_draft_fingerprint s = true ↔ hex_string 64 s.
Proof.
  unfold is_plan_draft_fingerprint. split.
  - destruct (hex_run 64 s) as [[a b]|] eqn:E; [|done].
    intros ->%String.eqb_eq. apply hex_run_spec in E as [-> H]. by rewrite sapp_nil_r.
  - intros H. pose proof (hex_run_app 64 s "" H) as E. rewrite sapp_nil_r in E. by rewrite E.
Qed.

Lemma hex_digit_hex n : n < 16 → is_hex (hex_digit n) = true.
Proof. intros H. do 16 (destruct n as [|n]; [reflexivity|]). lia. Qed.

Lemma hex_of_byte_string b : (b < 256)%N → hex_string 2 (hex_of_byte b).
Proof.
  intros Hb. split; [done|]. unfold hex_of_byte. cbn [every].
  rewrite !hex_digit_hex; [done| |].
  - pose proof (N.mod_upper_bound b 16 ltac:(done)). lia.
  - assert (b / 16 < 16)%N by (apply N.Div0.div_lt_upper_bound; lia). lia.
Qed.

Lemma hex_of_bytes bs :
  Forall (λ b, (b < 256)%N) bs → hex_string (2 * length bs) (str_concat (map hex_of_byte bs)).
Proof.
  induction 1 as [|b bs Hb _ [IHl IHh]]; [done|]. cbn [map str_concat].
  destruct (hex_of_byte_string b Hb) as [Hl Hh]. split.
  - rewrite slength_app, Hl, IHl. cbn. lia.
  - by rewrite every_app, Hh, IHh.
Qed.

Lemma digest_bytes st :
  Forall (λ b, (b < 256)%N) (concat (map (be_bytes 4) st))
  ∧ length (concat (map (be_bytes 4) st)) = 4 * length st.
Proof.
  induction st as [|w st [IH1 IH2]]; [by split|]. cbn [map concat]. split.
  - apply Forall_app. split; [apply be_bytes_bound|done].
  - rewrite length_app, be_bytes_length, IH2. cbn. lia.
Qed.

Lemma sha256_hex_string s : hex_string 64 (sha256_hex s).
Proof.
  unfold sha256_hex. cbv zeta.
  set (st := sha_blocks _ _ _). assert (Hl : length st = 8) by by apply sha_blocks_length.
  destruct (digest_bytes st) as [Hb Hn]. rewrite Hl in Hn.
  change 64 with (2 * (4 * 8)). rewrite <- Hn. by apply hex_of_bytes.
Qed.

#[export] Hint Resolve sha256_hex_string : cw.

(** ** Written bookkeeping is recognised *)

Lemma eat_app lit s : eat lit (lit +:+ s) = Some s.
Proof. unfold eat. by rewrite starts_with_app, str_drop_app. Qed.

(** [rest] does not continue a run of [cs]. *)
Definition stops (cs : ascii → bool) (rest : string) : bool :=
  match rest with String c _ => negb (cs c) | EmptyString => true end.

Lemma span_app cs a rest :
  every cs a = true → stops cs rest = true → span cs (a +:+ rest) = (a, rest).
Proof.
  intros Ha Hr. induction a as [|c a IH].
  - rewrite sapp_nil. destruct rest as [|c rest]; [done|]. cbn in *. by destruct (cs c).
  - cbn in Ha. apply andb_true_iff in Ha as [Hc Ha]. rewrite sapp_cons. cbn [span].
    by rewrite Hc, IH.
Qed.

Lemma some_of_app cs a rest :
  every cs a = true → a ≠ "" → stops cs rest = true → some_of cs (a +:+ rest) = Some rest.
Proof.
  intros Ha Hne Hr. unfold some_of. rewrite span_app by done.
  destruct (String.eqb_spec a ""); done.
Qed.

Definition END_LINE : string := CLOSE +:+ NLs.

Lemma close_line_app s : close_line (END_LINE +:+ s) = Some s.
Proof.
  unfold close_line, END_LINE. rewrite sapp_assoc, eat_app. cbn [mbind option_bind].
  by rewrite eat_app.
Qed.

(** A settled answer: the number of its question and what was answered. *)
Inductive Answer := Adopted | Alternative (letter : ascii) | Confirmed | Refuted | Deferred.

Definition answer_text (q : string) (a : Answer) : string :=
  match a with
  | Adopted => "A" +:+ q +:+ ": ADOPTED"
  | Alternative c => "A" +:+ q +:+ ": ALT-" +:+ String c ""
  | Confirmed => "P" +:+ q +:+ ": CONFIRMED"
  | Refuted => "P" +:+ q +:+ ": REFUTED"
  | Deferred => "P" +:+ q +:+ ": DEFERRED"
  end.

(** A leading bookkeeping block as a plan stage writes it. *)
Record Header := mkHeader {
  h_round : string;
  h_comment : string;
  h_body_sha : string;
  h_settled : list (string * Answer) }.

Definition number (q : string) : Prop := q ≠ "" ∧ every is_digit q = true.

Definition answer_ok (a : string * Answer) : Prop :=
  number a.1 ∧ match a.2 with Alternative c => is_lower c = true | _ => True end.

Definition header_ok (h : Header) : Prop :=
  number h.(h_round) ∧ h.(h_comment) ≠ ""
  ∧ every (λ c, negb (Ascii.eqb c "|" || Ascii.eqb c NL)) h.(h_comment) = true
  ∧ hex_string 64 h.(h_body_sha) ∧ Forall answer_ok h.(h_settled).

Definition settled_line (a : string * Answer) : string :=
  "<!-- plan-stage-settled: " +:+ answer_text a.1 a.2 +:+ END_LINE.

Definition header_text (h : Header) : string :=
  "<!-- plan-stage-scan-round: " +:+ h.(h_round) +:+ END_LINE
  +:+ "<!-- plan-stage-last-evaluated: operator_comment=" +:+ h.(h_comment)
  +:+ "|body_sha=" +:+ h.(h_body_sha) +:+ END_LINE
  +:+ str_concat (map settled_line h.(h_settled)).

Lemma number_app q rest :
  number q → stops is_digit rest = true → some_of is_digit (q +:+ rest) = Some rest.
Proof. intros [Hne Hd] Hr. by apply some_of_app. Qed.

Lemma settled_line_app a s : answer_ok a → _SETTLED_LINE (settled_line a +:+ s) = Some s.
Proof.
  intros [Hq Ha]. unfold _SETTLED_LINE, settled_line. rewrite !sapp_assoc, eat_app.
  cbn [mbind option_bind].
  assert (Hs : settled_answer (answer_text a.1 a.2 +:+ END_LINE +:+ s) = Some (END_LINE +:+ s)).
  { unfold settled_answer, answer_text. destruct (a.2) as [|c| | |]; cbn -[is_lower] in Ha.
    all: rewrite !sapp_assoc.
    1,2: rewrite (eat_app "A"); cbn [mbind option_bind]; rewrite number_app by done;
      cbn [mbind option_bind first_of].
    1: reflexivity.
    1: { set (t := END_LINE +:+ s).
         assert (eat ": " (": ALT-" +:+ String c "" +:+ t) = Some ("ALT-" +:+ String c t)) as ->
           by reflexivity.
         cbn [mbind option_bind].
         assert (eat "ADOPTED" ("ALT-" +:+ String c t) = None) as -> by reflexivity.
         rewrite eat_app. cbn [mbind option_bind]. by rewrite Ha. }
    all: change (eat "A" ("P" +:+ _)) with (@None string);
         cbn [first_of mbind option_bind]; rewrite (eat_app "P"); cbn [mbind option_bind];
         rewrite number_app by done; cbn [mbind option_bind first_of]; reflexivity. }
  rewrite Hs. cbn [mbind option_bind]. apply close_line_app.
Qed.

Lemma round_line_app h s :
  header_ok h →
  _ROUND_LINE ("<!-- plan-stage-scan-round: " +:+ h.(h_round) +:+ END_LINE +:+ s) = Some s.
Proof.
  intros (Hr & _). unfold _ROUND_LINE. rewrite eat_app. cbn [mbind option_bind].
  rewrite number_app by done. cbn [mbind option_bind]. apply close_line_app.
Qed.

Lemma last_evaluated_app h s :
  header_ok h →
  _LAST_EVALUATED_LINE
    ("<!-- plan-stage-last-evaluated: operator_comment=" +:+ h.(h_comment)
     +:+ "|body_sha=" +:+ h.(h_body_sha) +:+ END_LINE +:+ s)
  = Some (h.(h_body_sha), s).
Proof.
  intros (_ & Hc & Hs & Hb & _). unfold _LAST_EVALUATED_LINE. rewrite eat_app.
  cbn [mbind option_bind]. rewrite some_of_app by done. cbn [mbind option_bind].
  rewrite eat_app. cbn [mbind option_bind]. rewrite hex_run_app by done.
  cbn [mbind option_bind fst snd]. by rewrite close_line_app.
Qed.

Lemma skip_settled_app fuel l s :
  Forall answer_ok l → length l ≤ fuel → _SETTLED_LINE s = None →
  skip_settled fuel (str_concat (map settled_line l) +:+ s) = s.
Proof.
  intros Hl Hf Hs. revert fuel Hf. induction Hl as [|a l Ha _ IH]; intros fuel Hf.
  - destruct fuel; cbn [map str_concat skip_settled]; by rewrite sapp_nil, ?Hs.
  - cbn [length] in Hf. destruct fuel as [|fuel]; [lia|].
    cbn [map str_concat skip_settled]. rewrite sapp_assoc, settled_line_app by done.
    apply IH. lia.
Qed.

Lemma settled_line_takes a s : S (String.length s) ≤ String.length (settled_line a +:+ s).
Proof. rewrite slength_app. unfold settled_line. rewrite slength_app. cbn [String.length]. lia. Qed.

(** The text left is enough fuel for the settled lines it starts with. *)
Lemma settled_lines_length l s :
  length l + String.length s ≤ String.length (str_concat (map settled_line l) +:+ s).
Proof.
  induction l as [|a l IH]; cbn [map str_concat length]; [by rewrite sapp_nil|].
  rewrite sapp_assoc. pose proof (settled_line_takes a (str_concat (map settled_line l) +:+ s)).
  lia.
Qed.

(** The trailing lines a body may start with. *)
Definition skip_trailing (s : string) : string :=
  fold_left (λ s line, skip line s) _TRAILING_BOOKKEEPING_LINES s.

Lemma skip_to line s s' : line s = Some s' → skip line s = s'.
Proof. unfold skip. by intros ->. Qed.

Lemma skip_none line s : line s = None → skip line s = s.
Proof. unfold skip. by intros ->. Qed.

Lemma header_stripped h body :
  header_ok h → _SETTLED_LINE body = None →
  strip_bookkeeping (header_text h +:+ body) = skip_trailing body.
Proof.
  intros Hh Hs. unfold strip_bookkeeping, header_text. rewrite !sapp_assoc, round_line_app by done.
  cbv zeta. rewrite (skip_to _ _ (str_concat (map settled_line h.(h_settled)) +:+ body))
    by (cbv beta; by rewrite last_evaluated_app).
  unfold skip_trailing. f_equal. apply skip_settled_app; [apply Hh| |done].
  pose proof (settled_lines_length (h_settled h) body). lia.
Qed.

Lemma skip_trailing_none body :
  Forall (λ line, line body = None) _TRAILING_BOOKKEEPING_LINES → skip_trailing body = body.
Proof.
  unfold skip_trailing. generalize _TRAILING_BOOKKEEPING_LINES as ls.
  induction 1 as [|line ls Hn _ IH]; [done|]. cbn [fold_left]. by rewrite skip_none.
Qed.

(** ** The contract *)

(** the plan-draft fingerprint covers the plan and nothing else.  Two
    drafts with the same content under any two well-formed leading
    bookkeeping blocks (round counter, last-evaluated line, settled markers)
    have the same fingerprint, which is the SHA-256 of the content when no
    trailing bookkeeping line opens it; a draft without a round-counter line
    is hashed whole. *)
Theorem fingerprint_ignores_bookkeeping (h1 h2 : Header) (body text : string) :
  header_ok h1 → header_ok h2 → _SETTLED_LINE body = None →
  compute_plan_draft_fingerprint (header_text h1 +:+ body)
  = compute_plan_draft_fingerprint (header_text h2 +:+ body)
  ∧ (Forall (λ line, line body = None) _TRAILING_BOOKKEEPING_LINES →
     compute_plan_draft_fingerprint (header_text h1 +:+ body) = sha256_hex body)
  ∧ (_ROUND_LINE text = None → compute_plan_draft_fingerprint text = sha256_hex text).
Proof.
  intros H1 H2 Hs. unfold compute_plan_draft_fingerprint. rewrite !header_stripped by done.
  split; [done|]. split; [intros Ht; by rewrite skip_trailing_none|].
  intros Hn. unfold strip_bookkeeping. by rewrite Hn.
Qed.

Lemma body_sha_newline body : compute_body_sha (body +:+ NLs) = compute_body_sha body.
Proof.
  unfold compute_body_sha, text_rstrip. rewrite chars_app by done.
  by rewrite reverse_app.
Qed.

(** what a plan stage writes into its bookkeeping block is what the
    approval's drift check reads back: the persisted body digest, and that is
    the recomputed digest whenever the body differs only in a newline added at
    the end; a block that is not opened by a round line persists nothing. *)
Theorem body_sha_roundtrip (h : Header) (body rest text : string) :
  header_ok h → h.(h_body_sha) = compute_body_sha body →
  extract_persisted_body_sha (header_text h +:+ rest) = Some (compute_body_sha (body +:+ NLs))
  ∧ (_ROUND_LINE text = None → extract_persisted_body_sha text = None).
Proof.
  intros Hh Hb. split.
  - unfold extract_persisted_body_sha, header_text.
    rewrite !sapp_assoc, round_line_app by done. cbn [mbind option_bind].
    rewrite last_evaluated_app by done. cbn [fmap option_fmap option_map fst].
    by rewrite Hb, body_sha_newline.
  - intros Hn. unfold extract_persisted_body_sha. by rewrite Hn.
Qed.

Lemma body_sha_roundtrip_witness :
  extract_persisted_body_sha
    (header_text (mkHeader "3" "none" (compute_body_sha "Fix it") [("1", Adopted)]) +:+ "## Plan")
  = Some (compute_body_sha ("Fix it" +:+ NLs)).
Proof.
  refine (proj1 (body_sha_roundtrip
           (mkHeader "3" "none" (compute_body_sha "Fix it") [("1", Adopted)])
           "Fix it" "## Plan" "" _ _)); [|reflexivity].
  split; [split; [discriminate|reflexivity]|]. split; [discriminate|].
  split; [reflexivity|]. split; [split; vm_compute; reflexivity|].
  constructor; [|constructor]. split; [split; [discriminate|reflexivity]|exact I].
Defined.

Lemma fingerprint_ignores_bookkeeping_witness :
  compute_plan_draft_fingerprint
    (header_text (mkHeader "1" "none" (sha256_hex "a") []) +:+ "## Plan")
  = compute_plan_draft_fingerprint
      (header_text (mkHeader "12" "c7" (sha256_hex "b") [("2", Alternative "b"); ("3", Refuted)])
       +:+ "## Plan").
Proof.
  refine (proj1 (fingerprint_ignores_bookkeeping
           (mkHeader "1" "none" (sha256_hex "a") [])
           (mkHeader "12" "c7" (sha256_hex "b") [("2", Alternative "b"); ("3", Refuted)])
           "## Plan" "" _ _ _)); [| |reflexivity].
  all: (split; [split; [discriminate|reflexivity]|]); (split; [discriminate|]);
    (split; [reflexivity|]); (split; [split; vm_compute; reflexivity|]).
  - constructor.
  - constructor; [split; [split; [discriminate|reflexivity]|reflexivity]|].
    constructor; [split; [split; [discriminate|reflexivity]|exact I]|constructor].
Defined.

(** C39: a fingerprint cw records is always a well-formed digest.  Binding
    leaves a payload that claims nothing alone, and otherwise writes the
    digest of the draft on disk, whatever the payload claimed, or refuses
    without touching the payload; sanitising leaves a well-formed or absent
    value alone and turns a malformed text into an absent one. *)
Theorem recorded_fingerprint_valid (payload : list (string * json)) (path : string)
  (read : option (option string)) :
  match bind_claimed_fingerprint payload path read with
  | inl _ => is_null (dict_get PLAN_DRAFT_FINGERPRINT_KEY payload) = false
             ∧ mjoin read = None
  | inr (None, payload') => payload' = payload
  | inr (Some b, payload') =>
      is_plan_draft_fingerprint b.(fb_fingerprint) = true
      ∧ dict_get PLAN_DRAFT_FINGERPRINT_KEY payload' = JStr b.(fb_fingerprint)
      ∧ ∃ text, read = Some (Some text)
                ∧ b.(fb_fingerprint) = compute_plan_draft_fingerprint text
  end
  ∧ (∀ raw, dict_get PLAN_DRAFT_FINGERPRINT_KEY (sanitize_persisted_fingerprint payload) = JStr raw
            → is_plan_draft_fingerprint raw = true
              ∧ sanitize_persisted_fingerprint payload = payload).
Proof.
  split.
  - unfold bind_claimed_fingerprint.
    destruct (is_null (dict_get PLAN_DRAFT_FINGERPRINT_KEY payload)); [done|].
    destruct read as [[text|]|]; try (by split). cbn [fb_fingerprint].
    split; [apply fingerprint_spec, sha256_hex_string|]. split; [|by eauto].
    by rewrite dict_get_set.
  - intros raw. unfold sanitize_persisted_fingerprint.
    destruct (dict_get PLAN_DRAFT_FINGERPRINT_KEY payload) as [| | | |x| |] eqn:Hx.
    5: destruct (is_plan_draft_fingerprint x) eqn:Hv.
    all: rewrite ?dict_get_set; try (intros E; rewrite Hx in E; discriminate).
    + rewrite Hx. intros [= <-]. done.
    + done.
Qed.
