(* ===== verification/RowOutcome.v ===== *)
(** * Outcomes of a routed claim

    What one routing operation may do to a row: park it, complete it, advance
    its stage pointer, regress it, retry it or leave it.  The relations compare
    the fields routing decides; [config] is the part of a row no routing
    operation writes. *)

From S2P Require Import Prelude.
From S2P Require Import PyStr.
From S2P Require Import Enums.
From S2P Require Import Tasks.
From S2P Require Import World.
From S2P Require Import Vocab.
From S2P Require Import RearmOwed.
From S2P Require Import Lifecycle.
From S2P Require Import Clients.
From S2P Require Import ScopeTier.
From S2P Require Import ReviewGates.

#[local] Open Scope cw_scope.

(** The fields the gates, the pipeline resolver and the classifier read. *)
Definition config (t : TicketTask) :=
  (t.(client), t.(lane), t.(ticket_id), t.(worktree_path), t.(scope_hint), t.(signoff),
   t.(hold_finalize), t.(branch)).

(** [b] is the caller's [unproductive] argument. *)
Definition charged (b : bool) (t t' : TicketTask) : Prop :=
  t'.(unproductive_attempts) =
  (t.(unproductive_attempts)
   + if bool_decide (t.(status) = QueueItemStatus.RUNNING) && b then 1 else 0)%Z.

Definition parked (s : queue_status) (d : option string) (b : bool) (t t' : TicketTask) : Prop :=
  is_parked s = true ∧ t'.(status) = s ∧ t'.(disposition) = d ∧ t'.(stage) = t.(stage)
  ∧ charged b t t' ∧ t'.(regress_attempts) = t.(regress_attempts).

Definition completed_as (d : option string) (t t' : TicketTask) : Prop :=
  t'.(status) = QueueItemStatus.COMPLETED ∧ t'.(disposition) = d ∧ t'.(stage) = t.(stage)
  ∧ t'.(unproductive_attempts) = t.(unproductive_attempts)
  ∧ t'.(regress_attempts) = t.(regress_attempts).

(** One rung along [stages]. *)
Definition advanced (stages : list StageT) (t t' : TicketTask) : Prop :=
  ∃ i, index_of t.(stage) stages = Some i ∧ stages !! S i = Some t'.(stage)
  ∧ t'.(status) = QueueItemStatus.PENDING
  ∧ t'.(unproductive_attempts) = t.(unproductive_attempts)
  ∧ t'.(regress_attempts) = t.(regress_attempts).

Definition regressed (target : StageT) (t t' : TicketTask) : Prop :=
  t'.(stage) = target ∧ t'.(status) = QueueItemStatus.PENDING
  ∧ t'.(unproductive_attempts) = t.(unproductive_attempts)
  ∧ t'.(regress_attempts) = (t.(regress_attempts) + 1)%Z.

Definition retried (t t' : TicketTask) : Prop :=
  t'.(stage) = t.(stage) ∧ t'.(status) = QueueItemStatus.PENDING ∧ charged true t t'
  ∧ t'.(regress_attempts) = t.(regress_attempts).

Definition kept (t t' : TicketTask) : Prop :=
  t'.(stage) = t.(stage) ∧ t'.(status) = t.(status)
  ∧ t'.(unproductive_attempts) = t.(unproductive_attempts)
  ∧ t'.(regress_attempts) = t.(regress_attempts).

(** ** Computations that only append events *)

Definition events_only {A} (m : M World A) : Prop :=
  ∀ w, ∃ a, result m w = inr a ∧ w_task (exec m w) = w_task w.

Section EventsOnly.
Lemma events_only_bind {A B} (m : M World A) (k : A → M World B) :
  events_only m → (∀ a, events_only (k a)) → events_only (m ≫= k).
Proof.
  intros Hm Hk w. destruct (Hm w) as (a & Ha & Hw).
  destruct (Hk a (exec m w)) as (b & Hb & Hw').
  exists b. rewrite (result_bind_ok _ _ _ _ Ha), (exec_bind_ok _ _ _ _ Ha). split; [done|congruence].
Qed.
Lemma events_only_ret {A} (a : A) : events_only (mret a).
Proof. intros w. by exists a. Qed.
Lemma events_only_read {A} (f : TicketTask → A) : events_only (read f).
Proof. intros w. by exists (f (w_task w)). Qed.
Lemma events_only_record ty p c : events_only (record_event ty p c).
Proof. intros w. by exists tt. Qed.
Lemma events_only_attention p b : events_only (needs_attention p b).
Proof. intros w. by exists tt. Qed.
Lemma events_only_when b m : events_only m → events_only (when b m).
Proof. destruct b; simpl; [done|]. intros _. apply events_only_ret. Qed.
Lemma events_only_scope lr r : events_only (_record_scope_routing_decision lr r).
Proof. intros w. by exists tt. Qed.
Lemma events_only_repeat b : events_only (_maybe_emit_finalize_regress_repeat_signal b).
Proof.
  unfold _maybe_emit_finalize_regress_repeat_signal.
  destruct b; simpl; [|apply events_only_ret].
  apply events_only_bind; [apply events_only_read|]. intros t.
  destruct (negb _); [apply events_only_ret|apply events_only_attention].
Qed.
End EventsOnly.

#[export] Hint Resolve events_only_bind events_only_ret events_only_read events_only_record
  events_only_attention events_only_when events_only_scope events_only_repeat : cw.

Lemma events_only_returns {A} (m : M World A) w :
  events_only m → returns m (λ _ w', w_task w' = w_task w) w.
Proof.
  intros Hm. destruct (Hm w) as (a & Ha & Hw). unfold returns, wp. by rewrite Ha.
Qed.

(** A property of the row survives a trailing events-only statement. *)
Lemma returns_then_events {A B} (m : M World A) (k : A → M World B) (Q : TicketTask → Prop) w :
  returns m (λ _ w', Q (w_task w')) w → (∀ a, events_only (k a)) →
  returns (m ≫= k) (λ _ w', Q (w_task w')) w.
Proof.
  intros Hm Hk. eapply returns_seq; [exact Hm|]. intros a w' HQ. cbn beta in HQ.
  eapply returns_mono; [by apply events_only_returns|]. intros b w'' Hw. cbn beta in Hw.
  by rewrite Hw.
Qed.

(** A leading events-only statement does not change what follows may assume of
    the row. *)
Lemma returns_after_events {A B} (m : M World A) (k : A → M World B) Q w :
  events_only m → (∀ a w', w_task w' = w_task w → returns (k a) Q w') → returns (m ≫= k) Q w.
Proof. intros Hm Hk. eapply returns_seq; [by apply events_only_returns|]. exact Hk. Qed.

(** ** The row operations, as outcomes *)

Section Outcomes.
Context {C : Clock}.

Lemma transition_returns new disp url reason b Q w :
  (∀ a d s n evs, Q tt (mkWorld (transition_row new disp url reason b a d s (w_task w))
                          evs n)) →
  returns (transition_task_status new disp url reason b) Q w.
Proof.
  intros H. unfold returns, wp, result, exec. rewrite transition_run. cbn [fst snd].
  unfold settled. cbv zeta. apply H.
Qed.

Lemma transition_parks s disp url reason b w :
  is_parked s = true →
  returns (transition_task_status s disp url reason b)
    (λ _ w', parked s disp b (w_task w) (w_task w')) w.
Proof.
  intros Hs. apply transition_returns. intros a d sa n evs. cbn [w_task].
  unfold parked, charged. autorewrite with row.
  destruct s; try discriminate Hs; (split_and!; try done); unfold running_exit;
    by rewrite andb_true_r.
Qed.

Lemma park_gate_parks paused s d w :
  is_parked s = true →
  returns (park_gate paused s d) (λ _ w', parked s (Some d) true (w_task w) (w_task w')) w.
Proof.
  intros Hs. unfold park_gate.
  apply returns_after_events; [auto with cw|]. intros _ w' Hw. rewrite <- Hw.
  by apply transition_parks.
Qed.

Lemma transition_completes d url reason w :
  returns (transition_task_status QueueItemStatus.COMPLETED d url reason false)
    (λ _ w', completed_as d (w_task w) (w_task w')) w.
Proof.
  apply transition_returns. intros a dn sa n evs. cbn [w_task].
  unfold completed_as. autorewrite with row. split_and!; try done.
  rewrite andb_false_r. lia.
Qed.

Lemma advance_advances stages w :
  (∃ i, index_of (w_task w).(stage) stages = Some i ∧ is_Some (stages !! S i)) →
  returns (_advance_task_pointer stages)
    (λ _ w', advanced stages (w_task w) (w_task w')) w.
Proof.
  intros (i & Hi & next & Hn). destruct w as [t evs n]. cbn [w_task] in *.
  unfold returns, wp, result, exec. rewrite (advance_run _ _ _ _ _ _ Hi Hn).
  cbn [fst snd w_task]. exists i. unfold advance_row. autorewrite with row.
  split_and!; try done. rewrite andb_false_r. lia.
Qed.

Lemma regress_regresses target mc w :
  returns (_stage_regress target mc)
    (λ _ w', regressed target (w_task w) (w_task w')) w.
Proof.
  destruct w as [t evs n]. unfold returns, wp, result, exec. rewrite regress_run.
  cbn [fst snd w_task]. unfold regressed, regress_row. autorewrite with row.
  split_and!; try done. rewrite andb_false_r. lia.
Qed.

(** ** No routing operation writes [config] *)

Lemma config_transition_row new d u r b x y z t :
  config (transition_row new d u r b x y z t) = config t.
Proof.
  unfold transition_row, clear_latches, stamp_status, leave_running, enter_status.
  repeat case_match; reflexivity.
Qed.

Lemma config_pend b t : config (pend b t) = config t.
Proof. unfold pend. rewrite config_transition_row. reflexivity. Qed.

Lemma config_move s t : config (move_stage s t) = config t.
Proof. by apply (move_stage_frame config). Qed.

Lemma config_drop t : config (drop_anchors t) = config t.
Proof. reflexivity. Qed.

Lemma config_advance_row stages next t : config (advance_row stages next t) = config t.
Proof.
  unfold advance_row.
  rewrite config_drop, config_pend, (lift_high_water_frame config) by done. apply config_move.
Qed.

Lemma preserves_config_transition v new d u r b :
  preserves (on_task (λ t, config t = v)) (transition_task_status new d u r b).
Proof.
  intros w Hw. unfold exec. rewrite transition_run. cbn [snd]. unfold on_task, settled.
  cbv zeta. cbn [w_task]. by rewrite config_transition_row.
Qed.

Lemma preserves_config_advance v stages :
  preserves (on_task (λ t, config t = v)) (_advance_task_pointer stages).
Proof.
  intros w Hw. unfold on_task in *.
  destruct (advance_exec stages w) as [->|(i & next & _ & _ & ->)]; [done|].
  by rewrite config_advance_row.
Qed.

Lemma preserves_config_park v p s d :
  preserves (on_task (λ t, config t = v)) (park_gate p s d).
Proof.
  unfold park_gate. apply preserves_bind; [auto with cw|]. intros _.
  apply preserves_config_transition.
Qed.
End Outcomes.

#[export] Hint Resolve preserves_config_transition preserves_config_advance
  preserves_config_park : cw.
