(* ===== verification/Approval.v ===== *)
(** * Operator approvals: [dev_queue/approval.py], [dev_queue/plan_promotion.py],
      [dev_queue/scope_drift.py], the plan-review gate of [dev_queue/lifecycle.py]

    [_approve_ticket_locked] releases a parked row: it clears a sign-off, or
    checks the approval gate of the bound session and then holds, re-parks,
    re-queues or advances the row.  [promote_plan_draft] replaces the plan by
    the approved draft, [revoke_plan_approval] takes a plan approval back,
    [_approve_scope_drift_locked] grants extra files.  The queue file, the
    worktree files and the recovery marker are state; a file write replaces
    the whole file or leaves it alone ([atomic_write_text]), and which writes
    and which events fail is the class [ApproveEnv].  The rows of the calls
    into [lifecycle.py] are mutated in memory and reach the queue file only
    with the save; the events those calls record are never the ones that
    fail. *)

From stdpp Require Import sorting.
From S2P Require Import Prelude PyStr Enums Tasks World Vocab RearmOwed Lifecycle GateBackoff.
From S2P Require Import Clients Crud ScopeTier ReviewGates Requeue PlanFingerprint.

#[local] Open Scope cw_scope.

(** ** Names *)

Definition DEV_QUEUE_APPROVE_ACTOR : string := "cw dev-queue approve".
Definition PLAN_APPROVAL_REVOKED : string := "plan.approval_revoked".
Definition PLAN_APPROVAL_BODY_DRIFT_WARNED : string := "plan.approval_body_drift_warned".
Definition PLAN_DRAFT_PROMOTED : string := "plan.draft_promoted".
Definition TICKET_APPROVED : string := "ticket.approved".
Definition TICKET_APPROVAL_FAILED : string := "ticket.approval_failed".
Definition _RULE_GATE_RELEASE : string := "gate_release".
Definition SCOPE_DRIFT_APPROVED_EXTRA_FILES_KEY : string := "scope_drift_approved_extra_files".
Definition SCOPE_DRIFT_APPROVED_HEAD_KEY : string := "scope_drift_approved_head".

(** ** The state *)

Record ApWorld := mkApWorld {
  aw_queue : QueueWorld;
  aw_files : gmap string string;
  aw_marker : list (list (string * json));
  aw_writes : nat }.

(** [write_fault n]: the n-th file write raises [OSError].  [inbox_fault ty]:
    recording an event of that type raises it, with the line written or not.
    [unreadable]: [read_text] of a file that exists raises. *)
Class ApproveEnv := {
  fetch_issue_body : string → ClientConfig → option string;
  write_fault : nat → bool;
  inbox_fault : string → option bool;
  marker_fault : bool;
  unreadable : string → bool;
  undeletable : string → bool }.

Definition on_q {A} (m : M QueueWorld A) : M ApWorld A := λ w,
  let '(r, q) := m w.(aw_queue) in
  (r, mkApWorld q w.(aw_files) w.(aw_marker) w.(aw_writes)).

Definition put_files (f : gmap string string → gmap string string) : M ApWorld unit :=
  modify (λ w, mkApWorld w.(aw_queue) (f w.(aw_files)) w.(aw_marker) w.(aw_writes)).

Section Io.
Context {A : ApproveEnv}.

(** One atomic write: [OSError] and nothing changed, or the effect. *)
Definition write (m : M ApWorld unit) : M ApWorld unit :=
  n ← gets aw_writes;
  modify (λ w, mkApWorld w.(aw_queue) w.(aw_files) w.(aw_marker) (S n)) ;;
  if write_fault n then raise OSError else m.

Definition atomic_write_text (path text : string) : M ApWorld unit :=
  write (put_files (<[path := text]>)).

Definition save (store : DevQueueStore) : M ApWorld unit := write (on_q (save_dev_queue store)).

Definition unlink (path : string) : M ApWorld unit :=
  if undeletable path then raise OSError else put_files (delete path).

(** [path.read_text()] of an existing file. *)
Definition read_file (path : string) : M ApWorld string :=
  files ← gets aw_files;
  match files !! path with
  | Some text => if unreadable path then raise OSError else mret text
  | None => raise OSError
  end.

Definition record (ty : string) (payload : list (string * json)) (corr : option string)
  : M ApWorld unit :=
  let append := on_q (q_record [mkEvent ty payload corr]) in
  match inbox_fault ty with
  | None => append
  | Some written => when written append ;; raise OSError
  end.
End Io.

(** ** The approved row *)

Definition _resolve_approval_target (store : DevQueueStore) (tid cl : string)
  (resolved_task : option TicketTask) : exn + nat * TicketTask :=
  match resolved_task with
  | None => match _find_ticket_at store tid cl with
            | Some p => inr p
            | None => inl (CwError "No dev-queue task found")
            end
  | Some r =>
      match list_find (λ t, String.eqb t.(ticket_id) r.(ticket_id)
                            && String.eqb t.(client) r.(client)
                            && Z.eqb t.(created_at) r.(created_at) = true) store.(tasks) with
      | Some (i, t) =>
          if negb (bool_decide (t.(status) = r.(status))) then inl ApproveGateError
          else inr (i, t)
      | None => inl ApproveGateError
      end
  end.

Definition session_result (s : Session) : json := default JNull s.(sess_last_result).

(** [(session.last_result or {}).get("plan_draft_fingerprint")], a text. *)
Definition claimed_fingerprint (s : Session) : option string :=
  as_str (jget PLAN_DRAFT_FINGERPRINT_KEY (session_result s)).

Definition stamped_fingerprint (s : Session) : option string :=
  match claimed_fingerprint s with
  | Some f => if is_plan_draft_fingerprint f then Some f else None
  | None => None
  end.

Definition snapshot : Type := list (string * json).

Definition _review_approval_snapshot (task : TicketTask) : snapshot :=
  [("approved_at", match task.(review_approved_at) with
                   | Some t => JStr (isoformat t) | None => JNull end);
   ("approver_kind", of_opt_str task.(review_approver_kind));
   ("reviewed_sha", of_opt_str task.(review_approved_sha))].

Section Rows.
Context {C : Clock}.

Definition _stamp_plan_approval (session : Session) : M World (option string) :=
  from_stage ← read stage;
  if negb (bool_decide (from_stage = Stage.PLAN)) then mret None
  else
    n ← now;
    assign (λ t, t <| plan_approved_at := Some n |>
                   <| plan_approved_fingerprint := stamped_fingerprint session |>) ;;
    read plan_approved_fingerprint.

Record ReviewStamp := mkReviewStamp {
  st_kind : string; st_sha : option string; st_before : snapshot }.

Definition _stamp_review_approval (from_stage : StageT) (session : Session)
  (operator_initiated finalize_held : bool) : M World (option ReviewStamp) :=
  if negb (bool_decide (from_stage = Stage.REVIEW)) || finalize_held then mret None
  else
    before ← read _review_approval_snapshot;
    let kind := if operator_initiated then "operator" else "recipe" in
    n ← now;
    assign (λ t, t <| review_approved_at := Some n |> <| review_approver_kind := Some kind |>
                   <| review_approved_sha :=
                        _resolve_review_reviewed_sha (session_result session) |>) ;;
    sha ← read review_approved_sha;
    mret (Some (mkReviewStamp kind sha before)).
End Rows.

(** ** Worktree files *)

Definition PLAN_DRAFT_RELATIVE_PATH : string := "/.cw/plan-draft.md".
Definition PLAN_RELATIVE_PATH : string := "/.cw/plan.md".

Section Approval.
Context {C : Clock} {G : GateEnv} {E : OpsEnv} {A : ApproveEnv}.

Definition _tracker_allows_github_fetch (client_cfg : option ClientConfig) : bool :=
  match client_cfg with
  | None => true
  | Some c => match resolve_tracker c with
              | None => true
              | Some t => String.eqb t TRACKER_GITHUB_ISSUES
              end
  end.

Definition _local_plan_path (task : TicketTask) (client_cfg : option ClientConfig)
  : option string :=
  wt ← resolve_task_worktree task client_cfg; Some (wt +:+ PLAN_RELATIVE_PATH).

(** A missing or unreadable file is [None]. *)
Definition text_of (files : gmap string string) (path : string) : option string :=
  if unreadable path then None else files !! path.

Definition _local_plan_body (files : gmap string string) (task : TicketTask)
  (client_cfg : option ClientConfig) : option string :=
  p ← _local_plan_path task client_cfg; text_of files p.

Definition _plan_is_reviewed (files : gmap string string) (task : TicketTask)
  (c : ClientConfig) : bool :=
  let fetched := if _tracker_allows_github_fetch (Some c)
                 then fetch_approved_plan_comment task.(ticket_id) c else None in
  match (match fetched with Some b => Some b
         | None => _local_plan_body files task (Some c) end) with
  | Some body => _plan_body_signoff_ok body
  | None => false
  end.

(** *** Promotion *)

(** One attempt, its failure dropped: only the message tells. *)
Definition _restore_prior_plan (plan_path : string) (old_plan_text : option string)
  : M ApWorld unit :=
  try_except
    match old_plan_text with
    | None => files ← gets aw_files;
              when (is_Some_b (files !! plan_path)) (unlink plan_path)
    | Some old => atomic_write_text plan_path old
    end (λ _, mret tt).

(** [contextlib.suppress(OSError)]. *)
Definition suppress_os {B} (d : B) (m : M ApWorld B) : M ApWorld B :=
  try_except m (λ e, if decide (e = OSError) then mret d else raise e).

Definition promoted_payload (task : TicketTask) (wt actor new : string) (old : option string)
  (draft_deleted : bool) : list (string * json) :=
  [("ticket_id", JStr task.(ticket_id)); ("client", JStr task.(client));
   ("worktree_path", JStr wt); ("actor", JStr actor);
   ("old_content_fingerprint", of_opt_str (compute_plan_draft_fingerprint <$> old));
   ("new_content_fingerprint", JStr new); ("draft_deleted", JBool draft_deleted)].

Definition as_gate_error {B} (m : M ApWorld B) : M ApWorld B :=
  try_except m (λ e, raise (if decide (e = OSError) then ApproveGateError else e)).

(** The draft and the prior plan, [None] when there is no draft. *)
Definition read_draft (draft_path plan_path : string) (expected : option string)
  : M ApWorld (option (string * option string)) :=
  files ← gets aw_files;
  if negb (is_Some_b (files !! draft_path)) then mret None
  else match expected with
       | Some fp =>
           if negb (is_plan_draft_fingerprint fp) then raise ApproveGateError
           else
             draft_text ← read_file draft_path;
             if negb (String.eqb (compute_plan_draft_fingerprint draft_text) fp)
             then raise ApproveGateError
             else if is_Some_b (files !! plan_path)
                  then old ← read_file plan_path; mret (Some (draft_text, Some old))
                  else mret (Some (draft_text, None))
       | None => raise ApproveGateError
       end.

Definition promote_plan_draft (task : TicketTask) (client_cfg : option ClientConfig)
  (actor : string) (expected : option string) : M ApWorld bool :=
  match resolve_task_worktree task client_cfg with
  | None => mret false
  | Some wt =>
      let draft_path := wt +:+ PLAN_DRAFT_RELATIVE_PATH in
      let plan_path := wt +:+ PLAN_RELATIVE_PATH in
      texts ← as_gate_error (read_draft draft_path plan_path expected);
      match texts with
      | None => mret false
      | Some (draft_text, old_plan_text) =>
          try_except (atomic_write_text plan_path draft_text)
            (λ _, _restore_prior_plan plan_path old_plan_text ;; raise ApproveGateError) ;;
          draft_deleted ← suppress_os false (unlink draft_path ;; mret true);
          suppress_os tt
            (record PLAN_DRAFT_PROMOTED
               (promoted_payload task wt actor (compute_plan_draft_fingerprint draft_text)
                  old_plan_text draft_deleted) (Some task.(ticket_id))) ;;
          mret true
      end
  end.

Definition _promote_plan_draft_on_direct_advance (task : TicketTask) (c : ClientConfig)
  (plan_reviewed : option bool) (session : Session) : M ApWorld bool :=
  if negb (bool_decide (task.(stage) = Stage.PLAN)) || is_Some_b plan_reviewed then mret false
  else promote_plan_draft task (Some c) DEV_QUEUE_APPROVE_ACTOR
         (Some (default "" (claimed_fingerprint session))).

(** *** Body drift *)

Definition _read_persisted_body_sha (files : gmap string string) (task : TicketTask)
  (c : ClientConfig) : option string :=
  wt ← resolve_task_worktree task (Some c);
  text_of files (wt +:+ PLAN_DRAFT_RELATIVE_PATH) ≫= extract_persisted_body_sha.

Definition drift_payload (task : TicketTask) (persisted live : string) : list (string * json) :=
  [("ticket_id", JStr task.(ticket_id)); ("client", JStr task.(client));
   ("persisted_body_sha", JStr persisted); ("live_body_sha", JStr live);
   ("plan_approved_fingerprint", of_opt_str task.(plan_approved_fingerprint));
   ("actor", JStr DEV_QUEUE_APPROVE_ACTOR)].

Definition _record_body_drift (task : TicketTask) (c : ClientConfig)
  : M ApWorld (option (string * string)) :=
  files ← gets aw_files;
  match _read_persisted_body_sha files task c with
  | None => mret None
  | Some persisted =>
      if negb (_tracker_allows_github_fetch (Some c)) then mret None
      else match fetch_issue_body task.(ticket_id) c with
           | None => mret None
           | Some body =>
               let live := compute_body_sha body in
               if String.eqb live persisted then mret None
               else
                 try_except
                   (record PLAN_APPROVAL_BODY_DRIFT_WARNED (drift_payload task persisted live)
                      (Some task.(ticket_id)))
                   (λ _, raise ApproveGateError) ;;
                 mret (Some (persisted, live))
           end
  end.

(** *** The gate-release audit *)

Definition gate_release_disposition (finalize_held awaiting_signoff plan_requeued : bool)
  : string :=
  if finalize_held then "finalize_hold_branch"
  else if awaiting_signoff then "signoff_branch"
  else if plan_requeued then "plan_requeued" else "advanced".

Definition gate_release_payload (tid cl : string) (task : TicketTask) (session : Session)
  (disp : string) (review_stamp : option ReviewStamp) : list (string * json) :=
  let lr := session_result session in
  [("ticket_id", JStr tid); ("client", JStr cl); ("scope_hint", of_opt_str task.(scope_hint));
   ("sentinel_tier", _extract_scope_tier lr);
   ("resolved_tier", of_opt_str (_resolve_scope_tier lr task));
   ("rule", JStr _RULE_GATE_RELEASE); ("disposition", JStr disp);
   ("approver_kind", of_opt_str (st_kind <$> review_stamp));
   ("reviewed_sha", of_opt_str (review_stamp ≫= st_sha));
   ("review_approval_before",
     JDict match review_stamp with
           | Some s => s.(st_before) | None => _review_approval_snapshot task end);
   ("review_approval_after", JDict (_review_approval_snapshot task))].

(** The exceptions the best-effort audit swallows. *)
Definition audit_swallowed (e : exn) : bool :=
  bool_decide (e = OSError) || bool_decide (e = ValueError) || is_CwError e.

Definition _save_approval_and_audit (store : DevQueueStore) (tid cl : string)
  (task : TicketTask) (session : Session) (disp : string) (review_stamp : option ReviewStamp)
  : M ApWorld bool :=
  save store ;;
  try_except
    (record SCOPE_ROUTING_DECISION
       (gate_release_payload tid cl task session disp review_stamp) (Some tid) ;;
     mret true)
    (λ e, if audit_swallowed e then mret false else raise e).

(** *** Approve *)

Record ApproveResult := mkApproveResult {
  ar_from_stage : StageT;
  ar_to_stage : StageT;
  awaiting_signoff : bool;
  plan_requeued : bool;
  finalize_held : bool;
  ar_plan_approved_fingerprint : option string;
  plan_promoted : bool;
  ar_body_drift : option (string * string);
  ar_review_approver_kind : option string;
  ar_review_approved_sha : option string;
  audit_event_recorded : option bool }.

(** Where the branch chain took the row. *)
Inductive Branch := FinalizeHeld | SignoffParked | PlanRequeued | Advanced (promoted : bool).

Definition release_branch (c : ClientConfig) (cl : string) (stages : list StageT)
  (session : Session) (plan_reviewed : option bool) (operator_initiated : bool)
  (task : TicketTask) : M ApWorld (Branch * TicketTask) :=
  let clients : Clients := {[ cl := c ]} in
  files ← gets aw_files;
  if bool_decide (task.(stage) = Stage.REVIEW) && negb operator_initiated
     && _should_force_hold_finalize task clients
  then mret (FinalizeHeld, task)
  else if bool_decide (task.(stage) = Stage.REVIEW) && _should_gate_for_signoff task clients
  then t ← on_q (on_row task _park_signoff_gate); mret (SignoffParked, t)
  else if bool_decide (task.(stage) = Stage.PLAN)
          && negb match plan_reviewed with
                  | Some b => b | None => _plan_is_reviewed files task c end
  then t ← on_q (on_row task _reset_for_same_stage_requeue); mret (PlanRequeued, t)
  else
    promoted ← _promote_plan_draft_on_direct_advance task c plan_reviewed session;
    t ← on_q (on_row task (_advance_task_pointer stages));
    mret (Advanced promoted, t).

Definition is_held (b : Branch) : bool := match b with FinalizeHeld => true | _ => false end.
Definition is_parked_for_signoff (b : Branch) : bool :=
  match b with SignoffParked => true | _ => false end.
Definition is_requeued (b : Branch) : bool := match b with PlanRequeued => true | _ => false end.
Definition is_promoted (b : Branch) : bool := match b with Advanced p => p | _ => false end.

(** The row's session, when the row is at a gate [approve] may release. *)
Definition approval_session (sessions : list Session) (task : TicketTask)
  (stages : list StageT) : exn + Session :=
  match task.(session_id) with
  | None => inl ApproveGateError
  | Some sid =>
      match find_by_name_or_id sessions sid with
      | inl e => inl e
      | inr None => inl ApproveGateError
      | inr (Some (_, session)) =>
          if _not_at_approval_gate session task then inl ApproveGateError
          else match stage_position task.(stage) stages with
               | PipelinePosition.TERMINAL => inl ApproveGateError
               | _ => inr session
               end
      end
  end.

(** The sign-off gate: no session is consulted. *)
Definition approve_signoff (store : DevQueueStore) (i : nat) (task : TicketTask)
  (stages : list StageT) : M ApWorld ApproveResult :=
  t ← on_q (on_row task (_clear_signoff_gate stages));
  save (set_tasks (<[i := t]> store.(tasks)) store) ;;
  mret (mkApproveResult task.(stage) t.(stage) false false false None false None None None None).

Definition approve_gate (store : DevQueueStore) (i : nat) (task : TicketTask) (tid cl : string)
  (c : ClientConfig) (stages : list StageT) (session : Session) (plan_reviewed : option bool)
  (operator_initiated : bool) : M ApWorld ApproveResult :=
  p ← on_q (with_row task (_stamp_plan_approval session));
  let '(stamped, task1) := p in
  drift ← if operator_initiated && bool_decide (task1.(stage) = Stage.PLAN)
          then _record_body_drift task1 c else mret None;
  q ← release_branch c cl stages session plan_reviewed operator_initiated task1;
  let '(branch, task2) := q in
  r ← on_q (with_row task2
              (_stamp_review_approval task.(stage) session operator_initiated (is_held branch)));
  let '(stamp, task3) := r in
  recorded ← _save_approval_and_audit (set_tasks (<[i := task3]> store.(tasks)) store) tid cl
               task3 session
               (gate_release_disposition (is_held branch) (is_parked_for_signoff branch)
                  (is_requeued branch)) stamp;
  mret (mkApproveResult task.(stage) task3.(stage) (is_parked_for_signoff branch)
          (is_requeued branch) (is_held branch) stamped (is_promoted branch) drift
          (st_kind <$> stamp) (stamp ≫= st_sha) (Some recorded)).

Definition _approve_ticket_locked (clients : Clients) (sessions : list Session) (tid cl : string)
  (resolved_task : option TicketTask) (plan_reviewed : option bool) (operator_initiated : bool)
  : M ApWorld ApproveResult :=
  store ← on_q load_dev_queue;
  p ← of_sum (_resolve_approval_target store tid cl resolved_task);
  let '(i, task) := p in
  if negb (bool_decide (task.(status) ∈ _APPROVABLE_STATUSES)) then raise ApproveGateError
  else match clients !! cl with
  | None => raise (CwError "Client not found")
  | Some c =>
      let stages := resolve_pipeline_stages task c in
      if negb (bool_decide (task.(stage) ∈ stages)) then raise ApproveGateError
      else if bool_decide (task.(status) = QueueItemStatus.AWAITING_OPERATOR_SIGNOFF)
      then approve_signoff store i task stages
      else
        session ← of_sum (approval_session sessions task stages);
        approve_gate store i task tid cl c stages session plan_reviewed operator_initiated
  end.

Definition approve_ticket (clients : Clients) (sessions : list Session) (tid cl : string)
  : M ApWorld ApproveResult :=
  _approve_ticket_locked clients sessions tid cl None None true.

(** *** Revoke *)

Record RevokeResult := mkRevokeResult { cleared : bool; previous_fingerprint : option string }.

Definition revoked_payload (tid cl resolutions_source reason : string) (task : TicketTask)
  (revoked_at : Z) : list (string * json) :=
  [("ticket_id", JStr tid); ("client", JStr cl);
   ("previous_fingerprint", of_opt_str task.(plan_approved_fingerprint));
   ("revoked_at", JStr (isoformat revoked_at));
   ("initiating_service", JStr "cw dev-queue revoke-plan-approval");
   ("resolutions_source", JStr resolutions_source); ("reason", JStr reason)].

Definition clear_plan_approval (t : TicketTask) : TicketTask :=
  t <| plan_approved_at := None |> <| plan_approved_fingerprint := None |>.

Definition revoke_plan_approval (tid cl resolutions_source reason : string)
  : M ApWorld RevokeResult :=
  store ← on_q load_dev_queue;
  match _find_ticket_at store tid cl with
  | None => raise (CwError "No dev-queue task found")
  | Some (i, task) =>
      if negb (is_Some_b task.(plan_approved_at) || is_Some_b task.(plan_approved_fingerprint))
      then mret (mkRevokeResult false task.(plan_approved_fingerprint))
      else
        n ← on_q q_now;
        record PLAN_APPROVAL_REVOKED (revoked_payload tid cl resolutions_source reason task n)
          (Some tid) ;;
        save (set_tasks (<[i := clear_plan_approval task]> store.(tasks)) store) ;;
        mret (mkRevokeResult true task.(plan_approved_fingerprint))
  end.

(** *** Scope drift *)

Definition sorted_set (l : list string) : list string := merge_sort string_le (remove_dups l).

Definition mark_recovery (payload : list (string * json)) : M ApWorld unit :=
  modify (λ w, if marker_fault then w
               else mkApWorld w.(aw_queue) w.(aw_files) (w.(aw_marker) ++ [payload])
                      w.(aw_writes)).

Definition _emit_scope_drift_compensation (tid cl : string)
  (approval_payload : list (string * json)) (error : string) (rolled_back : bool)
  : M ApWorld unit :=
  let payload :=
    [("ticket_id", JStr tid); ("client", JStr cl); ("approval_event", JStr TICKET_APPROVED);
     ("approval_payload", JDict approval_payload); ("error", JStr error);
     ("rolled_back", JBool rolled_back); ("recovery_required", JBool (negb rolled_back))] in
  try_except (record TICKET_APPROVAL_FAILED payload (Some tid))
    (λ _, mark_recovery payload).

Record ScopeDriftApproval := mkScopeDriftApproval {
  sd_from_stage : StageT; sd_to_stage : StageT; sd_extra_files : list string;
  sd_approved_head : string }.

Definition scope_drift_refused (task : TicketTask) (files : list string) : bool :=
  negb (bool_decide (task.(status) = QueueItemStatus.BLOCKED_ON_USER))
  || negb (bool_decide (task.(stage) = Stage.IMPL))
  || negb (opt_is task.(blocked_reason) PLAN_SCOPE_DRIFT_BLOCKER_REASON)
  || bool_decide (files = []).

Definition grant_scope_drift (files : list string) (head : string) : M World unit :=
  assign (λ t, t <| scope_drift_approved_extra_files := Some files |>
                 <| scope_drift_approved_head := Some head |>) ;;
  _reset_for_same_stage_requeue.

Definition approval_payload (tid cl : string) (from to : StageT) (files : list string)
  (head : string) : list (string * json) :=
  [("ticket_id", JStr tid); ("client", JStr cl); ("from_stage", stage_json from);
   ("to_stage", stage_json to);
   (SCOPE_DRIFT_APPROVED_EXTRA_FILES_KEY, JList (map JStr files));
   (SCOPE_DRIFT_APPROVED_HEAD_KEY, JStr head)].

(** The rollback of a grant whose audit event failed.  [repr]: the text of the
    exceptions. *)
Definition scope_drift_audit_failed (original : DevQueueStore) (tid cl : string)
  (payload : list (string * json)) (event_error : exn) (repr : exn → string) : M ApWorld unit :=
  try_except (save original)
    (λ rollback_error,
      mark_recovery
        [("ticket_id", JStr tid); ("client", JStr cl); ("approval_payload", JDict payload);
         ("event_error", JStr (repr event_error)); ("rollback_error", JStr (repr rollback_error));
         ("recovery_required", JBool true)] ;;
      _emit_scope_drift_compensation tid cl payload (repr rollback_error) false ;;
      raise rollback_error) ;;
  _emit_scope_drift_compensation tid cl payload (repr event_error) true ;;
  raise event_error.

Definition _approve_scope_drift_locked (clients : Clients) (repr : exn → string)
  (tid cl : string) (extra_files : list string) : M ApWorld ScopeDriftApproval :=
  store ← on_q load_dev_queue;
  p ← of_sum (_resolve_approval_target store tid cl None);
  let '(i, task) := p in
  let approved_files := sorted_set extra_files in
  if scope_drift_refused task approved_files then raise ApproveGateError
  else match clients !! cl with
  | None => raise (CwError "Client not found")
  | Some c =>
      match branch_head_sha_on_origin (resolve_feature_branch tid (Some c) (Some task)) c with
      | None => raise ApproveGateError
      | Some head_sha =>
          t ← on_q (on_row task (grant_scope_drift approved_files head_sha));
          let payload := approval_payload tid cl task.(stage) t.(stage) approved_files head_sha in
          save (set_tasks (<[i := t]> store.(tasks)) store) ;;
          try_except (record TICKET_APPROVED payload None)
            (λ e, scope_drift_audit_failed store tid cl payload e repr) ;;
          mret (mkScopeDriftApproval task.(stage) t.(stage) approved_files head_sha)
      end
  end.
End Approval.
