(* ===== verification/ApprovalProps.v ===== *)
(** * What each step of an approval does

    Inversion of the steps of [approval.py], [plan_promotion.py] and
    [scope_drift.py]: which part of the state a step can change, on a return
    and on a raise, and what it leaves on the row. *)

From stdpp Require Import sorting.
From S2P Require Import Prelude PyStr Enums Tasks World Vocab RearmOwed Lifecycle GateBackoff.
From S2P Require Import Clients Crud CrudProps ScopeTier ReviewGates Requeue RequeueProps.
From S2P Require Import PlanFingerprint Approval.

#[local] Open Scope cw_scope.

(** ** Inversion *)

Section Inversion.
Context {S : Type}.

Lemma bind_returned {A B} (m : M S A) (k : A → M S B) s b s' :
  (m ≫= k) s = (inr b, s') → ∃ a s1, m s = (inr a, s1) ∧ k a s1 = (inr b, s').
Proof. unfold mbind, M_bind. destruct (m s) as [[e|a] s1]; [done|]. eauto. Qed.

Lemma bind_raised {A B} (m : M S A) (k : A → M S B) s e s' :
  (m ≫= k) s = (inl e, s') →
  m s = (inl e, s') ∨ ∃ a s1, m s = (inr a, s1) ∧ k a s1 = (inl e, s').
Proof.
  unfold mbind, M_bind. destruct (m s) as [[e'|a] s1]; [|by eauto].
  intros [= -> ->]. by left.
Qed.

Lemma try_inv {A} (m : M S A) h s r s' :
  try_except m h s = (r, s') →
  (∃ a, r = inr a ∧ m s = (inr a, s')) ∨ ∃ e s1, m s = (inl e, s1) ∧ h e s1 = (r, s').
Proof. unfold try_except. destruct (m s) as [[e|a] s1]; [by eauto|]. intros [= <- <-]. eauto. Qed.

Lemma of_sum_inv {A} (x : exn + A) (s : S) r s' : of_sum x s = (r, s') → r = x ∧ s' = s.
Proof. destruct x; by intros [= <- <-]. Qed.
End Inversion.

(** What only a save or a file write changes. *)
Definition durable (w : ApWorld)
  : DevQueueStore * nat * gmap string string * list (list (string * json)) :=
  (w.(aw_queue).(q_store), w.(aw_queue).(q_saves), w.(aw_files), w.(aw_marker)).

(** Nothing durable changed but the inbox. *)
Definition quiet (w w' : ApWorld) : Prop := durable w' = durable w.

(** Nothing changed at all but the count of attempted writes. *)
Definition silent (w w' : ApWorld) : Prop := quiet w w' ∧ w'.(aw_queue) = w.(aw_queue).

Lemma quiet_refl w : quiet w w.
Proof. done. Qed.
Lemma quiet_trans w1 w2 w3 : quiet w1 w2 → quiet w2 w3 → quiet w1 w3.
Proof. unfold quiet. by intros <- <-. Qed.
Lemma silent_refl w : silent w w.
Proof. done. Qed.
Lemma silent_quiet w w' : silent w w' → quiet w w'.
Proof. by intros []. Qed.

Lemma quiet_inv w w' : quiet w w' →
  w'.(aw_queue).(q_store) = w.(aw_queue).(q_store)
  ∧ w'.(aw_queue).(q_saves) = w.(aw_queue).(q_saves)
  ∧ w'.(aw_files) = w.(aw_files) ∧ w'.(aw_marker) = w.(aw_marker).
Proof. by intros [= -> -> -> ->]. Qed.

#[export] Hint Resolve quiet_refl silent_refl silent_quiet : cw.

(** ** Row steps *)

Section Steps.
Context {C : Clock}.

(** [m] run on [t], whatever the inbox and the clock are. *)
Definition yields {A} (m : M World A) (t : TicketTask) (r : exn + A * TicketTask) : Prop :=
  ∃ evs n w, match r with
             | inl e => m (mkWorld t evs n) = (inl e, w)
             | inr (a, t') => m (mkWorld t evs n) = (inr a, w) ∧ t' = w.(w_task)
             end.

Lemma with_row_inv {A} t (m : M World A) w r w' :
  on_q (with_row t m) w = (r, w') → quiet w w' ∧ yields m t r.
Proof.
  unfold on_q, with_row. destruct (m _) as [[e|a] w1] eqn:E; intros [= <- <-].
  - split; [done|]. by exists (q_events (aw_queue w)), (q_ticks (aw_queue w)), w1.
  - split; [done|]. by exists (q_events (aw_queue w)), (q_ticks (aw_queue w)), w1.
Qed.

Lemma on_row_inv t (m : M World unit) w r w' :
  on_q (on_row t m) w = (r, w') →
  quiet w w' ∧ yields m t match r with inl e => inl e | inr t' => inr (tt, t') end.
Proof.
  unfold on_q, on_row. destruct (m _) as [[e|[]] w1] eqn:E; intros [= <- <-].
  - split; [done|]. by exists (q_events (aw_queue w)), (q_ticks (aw_queue w)), w1.
  - split; [done|]. by exists (q_events (aw_queue w)), (q_ticks (aw_queue w)), w1.
Qed.

(** A row computation that never raises. *)
Lemma yields_total {A} (m : M World A) t e : total m → ¬ yields m t (inl e).
Proof.
  intros Hm (evs & n & w & H). destruct (Hm (mkWorld t evs n)) as [a Ha].
  unfold result in Ha. by rewrite H in Ha.
Qed.

Lemma yields_returns {A} (m : M World A) (Q : A → TicketTask → Prop) t a t' :
  (∀ evs n, returns m (λ a w, Q a w.(w_task)) (mkWorld t evs n)) →
  yields m t (inr (a, t')) → Q a t'.
Proof.
  intros Hm (evs & n & w & H & ->). specialize (Hm evs n).
  unfold returns, wp, result, exec in Hm. by rewrite H in Hm.
Qed.

Definition plan_stamped (session : Session) (at_ : Z) (t : TicketTask) : TicketTask :=
  if bool_decide (t.(stage) = Stage.PLAN)
  then (t <| plan_approved_at := Some at_ |>
          <| plan_approved_fingerprint := stamped_fingerprint session |>)
  else t.

Lemma stamp_plan_yields session t r :
  yields (_stamp_plan_approval session) t r →
  ∃ at_, r = inr (if bool_decide (t.(stage) = Stage.PLAN)
                  then stamped_fingerprint session else None, plan_stamped session at_ t).
Proof.
  intros (evs & n & w & H). exists (clock_at n). revert H.
  unfold _stamp_plan_approval, plan_stamped, mbind, M_bind, read, gets, now, assign, modify.
  cbn [w_task]. destruct r as [e|[a t']]; destruct (bool_decide _); cbn [negb];
    unfold mret, M_ret; cbn; try done; by intros [[= <- <-] ->].
Qed.

Definition review_kind (operator_initiated : bool) : string :=
  if operator_initiated then "operator" else "recipe".

Definition review_stamped (session : Session) (operator_initiated : bool) (at_ : Z)
  (t : TicketTask) : TicketTask :=
  t <| review_approved_at := Some at_ |>
    <| review_approver_kind := Some (review_kind operator_initiated) |>
    <| review_approved_sha := _resolve_review_reviewed_sha (session_result session) |>.

Lemma stamp_review_yields from session op held t r :
  yields (_stamp_review_approval from session op held) t r →
  if bool_decide (from = Stage.REVIEW) && negb held
  then ∃ at_, r = inr (Some (mkReviewStamp (review_kind op)
                               (_resolve_review_reviewed_sha (session_result session))
                               (_review_approval_snapshot t)), review_stamped session op at_ t)
  else r = inr (None, t).
Proof.
  intros (evs & n & w & H). revert H. unfold _stamp_review_approval.
  destruct (bool_decide _), held; cbn [negb orb andb].
  2: { unfold mbind, M_bind, now, read, gets, assign, modify, mret, M_ret.
       intros H. exists (clock_at n). revert H.
       destruct r as [e|[a t']]; [done|].
       cbn -[_review_approval_snapshot _resolve_review_reviewed_sha session_result].
       intros [[= <- <-] ->]. done. }
  all: destruct r as [e|[a t']]; [done|]; by intros [[= <- <-] ->].
Qed.
End Steps.

(** ** I/O steps *)

Section Io.
Context {A : ApproveEnv}.

Lemma write_inv m w r w' :
  write m w = (r, w') →
  (r = inl OSError ∧ silent w w')
  ∨ ∃ w1, silent w w1 ∧ m w1 = (r, w').
Proof.
  unfold write, mbind, M_bind, gets, modify. destruct (write_fault (aw_writes w)).
  - intros [= <- <-]. by left.
  - intros H. right. eexists. split; [|exact H]. done.
Qed.

Lemma atomic_write_inv path text w r w' :
  atomic_write_text path text w = (r, w') →
  (r = inl OSError ∧ silent w w')
  ∨ (r = inr tt ∧ w'.(aw_queue) = w.(aw_queue) ∧ w'.(aw_marker) = w.(aw_marker)
     ∧ w'.(aw_files) = <[path := text]> w.(aw_files)).
Proof.
  intros [?|(w1 & [(Hs & Hn & Hf & Hm)%quiet_inv Hq] & H)]%write_inv; [by left|right].
  unfold put_files, modify in H. injection H as <- <-. cbn. by rewrite Hf, Hq, Hm.
Qed.

(** A save replaces the store in one write, or fails and leaves it. *)
Lemma save_inv store w r w' :
  save store w = (r, w') →
  (r = inl OSError ∧ silent w w')
  ∨ (r = inr tt ∧ w'.(aw_queue).(q_store) = store
     ∧ w'.(aw_queue).(q_events) = w.(aw_queue).(q_events)
     ∧ w'.(aw_queue).(q_saves) = S w.(aw_queue).(q_saves)
     ∧ w'.(aw_files) = w.(aw_files) ∧ w'.(aw_marker) = w.(aw_marker)).
Proof.
  intros [?|(w1 & [(Hs & Hn & Hf & Hm)%quiet_inv Hq] & H)]%write_inv; [by left|right].
  unfold on_q, save_dev_queue, modify in H. injection H as <- <-. cbn. by rewrite Hq.
Qed.

Lemma unlink_inv path w r w' :
  unlink path w = (r, w') →
  (r = inl OSError ∧ w' = w)
  ∨ (r = inr tt ∧ w'.(aw_queue) = w.(aw_queue) ∧ w'.(aw_marker) = w.(aw_marker)
     ∧ w'.(aw_files) = delete path w.(aw_files)).
Proof. unfold unlink. destruct (undeletable path); intros [= <- <-]; [by left|by right]. Qed.

Lemma read_file_inv path w r w' :
  read_file path w = (r, w') →
  w' = w ∧ (r = inl OSError ∨ ∃ text, r = inr text ∧ w.(aw_files) !! path = Some text).
Proof.
  unfold read_file, mbind, M_bind, gets. destruct (aw_files w !! path) as [text|].
  - destruct (unreadable path); intros [= <- <-]; eauto.
  - intros [= <- <-]. eauto.
Qed.

(** Recording an event is an append, or an [OSError] after an append that may
    have happened. *)
Lemma record_inv ty p c w r w' :
  record ty p c w = (r, w') →
  quiet w w'
  ∧ match inbox_fault ty with
    | None => r = inr tt
              ∧ w'.(aw_queue).(q_events) = w.(aw_queue).(q_events) ++ [mkEvent ty p c]
    | Some written =>
        r = inl OSError
        ∧ w'.(aw_queue).(q_events)
          = w.(aw_queue).(q_events) ++ if written then [mkEvent ty p c] else []
    end.
Proof.
  unfold record. destruct (inbox_fault ty) as [[]|]; intros [= <- <-]; (split; [done|]);
    split; try done. cbn. by rewrite app_nil_r.
Qed.

Lemma suppress_inv {B} (d : B) m w r w' :
  suppress_os d m w = (r, w') →
  (∃ b, r = inr b ∧ m w = (inr b, w'))
  ∨ (r = inr d ∧ m w = (inl OSError, w'))
  ∨ ∃ e, r = inl e ∧ e ≠ OSError ∧ m w = (inl e, w').
Proof.
  intros [(b & -> & H)|(e & w1 & H & Hh)]%try_inv; [eauto|].
  destruct (decide (e = OSError)) as [->|]; injection Hh as <- <-; eauto 10.
Qed.

Lemma gate_error_inv {B} (m : M ApWorld B) w r w' :
  as_gate_error m w = (r, w') →
  (∃ b, r = inr b ∧ m w = (inr b, w'))
  ∨ ∃ e, m w = (inl e, w') ∧ r = inl (if decide (e = OSError) then ApproveGateError else e).
Proof.
  intros [(b & -> & H)|(e & w1 & H & Hh)]%try_inv; [eauto|]. injection Hh as <- <-. eauto.
Qed.

(** *** Promotion *)

Lemma read_draft_inv draft plan expected w r w' :
  read_draft draft plan expected w = (r, w') →
  w' = w
  ∧ match r with
    | inl e => e = OSError ∨ e = ApproveGateError
    | inr None => w.(aw_files) !! draft = None
    | inr (Some (text, old)) =>
        w.(aw_files) !! draft = Some text ∧ w.(aw_files) !! plan = old
        ∧ expected = Some (compute_plan_draft_fingerprint text)
    end.
Proof.
  unfold read_draft. unfold mbind at 1, M_bind at 1, gets.
  destruct (aw_files w !! draft) as [d|] eqn:Hd; cbn [is_Some_b negb];
    [|by intros [= <- <-]].
  destruct expected as [fp|]; [|intros [= <- <-]; auto].
  destruct (is_plan_draft_fingerprint fp); cbn [negb]; [|intros [= <- <-]; auto].
  unfold mbind, M_bind. destruct (read_file draft w) as [[e|text] w1] eqn:E1;
    apply read_file_inv in E1 as [-> E1].
  { intros [= <- <-]. split; [done|]. destruct E1 as [[= ->]|(t & [=] & _)]. by left. }
  destruct E1 as [[=]|(t & [= ->] & E1)].
  destruct (String.eqb_spec (compute_plan_draft_fingerprint t) fp) as [<-|]; cbn [negb];
    [|intros [= <- <-]; auto].
  destruct (aw_files w !! plan) as [o|] eqn:Hp; cbn [is_Some_b];
    [|intros [= <- <-]; split_and!; congruence].
  destruct (read_file plan w) as [[e|old] w2] eqn:E2; apply read_file_inv in E2 as [-> E2].
  { intros [= <- <-]. split; [done|]. destruct E2 as [[= ->]|(t2 & [=] & _)]. by left. }
  destruct E2 as [[=]|(t2 & [= ->] & E2)]. intros [= <- <-]. split; [done|].
  split_and!; congruence.
Qed.

(** The restore puts back what was there. *)
Lemma restore_inv plan old w r w' :
  w.(aw_files) !! plan = old → _restore_prior_plan plan old w = (r, w') →
  r = inr tt ∧ silent w w'.
Proof.
  intros Hp. unfold _restore_prior_plan.
  intros [([] & -> & H)|(e & w1 & H & Hh)]%try_inv.
  - split; [done|]. destruct old as [old|].
    + apply atomic_write_inv in H as [[[=] _]|(_ & Hq & Hm & Hf)].
      unfold silent, quiet, durable. rewrite Hq, Hm, Hf, insert_id by done. done.
    + unfold mbind, M_bind, gets in H. rewrite Hp in H. injection H as <-. done.
  - injection Hh as <- <-. split; [done|]. destruct old as [old|].
    + apply atomic_write_inv in H as [[_ H]|([=] & _)]. done.
    + unfold mbind, M_bind, gets in H. by rewrite Hp in H.
Qed.
End Io.

(** The plan of worktree [wt] is now the draft with fingerprint [fp]. *)
Definition promoted_files (wt fp : string) (f f' : gmap string string) : Prop :=
  let draft := wt +:+ PLAN_DRAFT_RELATIVE_PATH in
  let plan := wt +:+ PLAN_RELATIVE_PATH in
  ∃ text, f !! draft = Some text ∧ compute_plan_draft_fingerprint text = fp
    ∧ f' !! plan = Some text
    ∧ (∀ p, p ≠ plan → p ≠ draft → f' !! p = f !! p)
    ∧ (f' !! draft = None ∨ f' !! draft = Some text).

Section Promote.
Context {G : GateEnv} {A : ApproveEnv}.

Lemma draft_not_plan wt : wt +:+ PLAN_DRAFT_RELATIVE_PATH ≠ wt +:+ PLAN_RELATIVE_PATH.
Proof.
  unfold PLAN_DRAFT_RELATIVE_PATH, PLAN_RELATIVE_PATH. induction wt as [|c wt IH]; [done|].
  rewrite !sapp_cons. by intros [= H].
Qed.

(** Clearing the draft and the audit are best effort. *)
Lemma promote_tail_inv task wt actor new old draft w r w' :
  (draft_deleted ← suppress_os false (unlink draft ;; mret true);
   suppress_os tt (record PLAN_DRAFT_PROMOTED
     (promoted_payload task wt actor new old draft_deleted) (Some task.(ticket_id))) ;;
   mret true) w = (r, w') →
  r = inr true
  ∧ w'.(aw_queue).(q_store) = w.(aw_queue).(q_store)
  ∧ w'.(aw_queue).(q_saves) = w.(aw_queue).(q_saves)
  ∧ w'.(aw_marker) = w.(aw_marker)
  ∧ (w'.(aw_files) = w.(aw_files) ∨ w'.(aw_files) = delete draft w.(aw_files)).
Proof.
  intros H. unfold mbind at 1, M_bind at 1 in H.
  destruct (suppress_os false _ w) as [r1 w1] eqn:E1.
  assert (H1 : (∃ b, r1 = inr b) ∧ w1.(aw_queue) = w.(aw_queue) ∧ w1.(aw_marker) = w.(aw_marker)
            ∧ (w1.(aw_files) = w.(aw_files) ∨ w1.(aw_files) = delete draft w.(aw_files))).
  { unfold suppress_os, try_except, mbind, M_bind in E1.
    destruct (unlink draft w) as [r2 w2] eqn:E2.
    apply unlink_inv in E2 as [[-> ->]|(-> & Hq & Hm & Hf)].
    - rewrite decide_True in E1 by done. injection E1 as <- <-. eauto 10.
    - injection E1 as <- <-. eauto 10. }
  destruct H1 as ([b ->] & Hq & Hm & Hf).
  unfold mbind, M_bind in H. destruct (suppress_os tt _ w1) as [r3 w3] eqn:E3.
  assert (H3 : r3 = inr tt ∧ quiet w1 w3).
  { unfold suppress_os, try_except in E3. destruct (record _ _ _ w1) as [r4 w4] eqn:E4.
    apply record_inv in E4 as [Hw4 E4].
    destruct (inbox_fault PLAN_DRAFT_PROMOTED); destruct E4 as [-> _].
    - rewrite decide_True in E3 by done. by injection E3 as <- <-.
    - by injection E3 as <- <-. }
  destruct H3 as [-> (Hs' & Hn' & Hf' & Hm')%quiet_inv]. injection H as <- <-.
  by rewrite Hs', Hn', Hf', Hm', Hq.
Qed.

(** Promotion is all or nothing: it fails with the worktree as it was, finds
    no draft, or replaces the plan by the draft whose fingerprint is the
    expected one. *)
Lemma promote_inv task c actor expected w r w' :
  promote_plan_draft task c actor expected w = (r, w') →
  w'.(aw_queue).(q_store) = w.(aw_queue).(q_store)
  ∧ w'.(aw_queue).(q_saves) = w.(aw_queue).(q_saves)
  ∧ w'.(aw_marker) = w.(aw_marker)
  ∧ match r with
    | inl e => e = ApproveGateError ∧ quiet w w'
    | inr false =>
        w' = w ∧ ∀ wt, resolve_task_worktree task c = Some wt →
                       w.(aw_files) !! (wt +:+ PLAN_DRAFT_RELATIVE_PATH) = None
    | inr true => ∃ wt fp, resolve_task_worktree task c = Some wt ∧ expected = Some fp
                           ∧ promoted_files wt fp w.(aw_files) w'.(aw_files)
    end.
Proof.
  unfold promote_plan_draft.
  destruct (resolve_task_worktree task c) as [wt|] eqn:Hwt; [|by intros [= <- <-]].
  cbv zeta. intros H. unfold mbind at 1, M_bind at 1 in H.
  destruct (as_gate_error _ w) as [[e|texts] w1] eqn:E1;
    apply gate_error_inv in E1 as [(b & Hb & E1)|(e' & E1 & He)]; try discriminate;
    apply read_draft_inv in E1 as [-> E1].
  { injection H as <- <-. split_and!; try done. injection He as ->.
    destruct E1 as [->| ->]; by destruct (decide _). }
  injection Hb as <-. destruct texts as [[text old]|].
  2: { injection H as <- <-. split_and!; try done. by intros wt' [= <-]. }
  destruct E1 as (Hd & Hp & Hx).
  unfold mbind at 1, M_bind at 1 in H.
  destruct (try_except _ _ w) as [r1 w1] eqn:E2.
  apply try_inv in E2 as [([] & -> & Hw)|(e & w2 & Hw & Hh)];
    apply atomic_write_inv in Hw as [[He Hsil]|(He & Hq1 & Hm1 & Hf1)]; try discriminate.
  2: { (* the write failed and the prior plan is back *)
    unfold mbind, M_bind in Hh. destruct (_restore_prior_plan _ _ w2) as [r2 w3] eqn:E3.
    pose proof (silent_quiet _ _ Hsil) as (_ & _ & Hf & _)%quiet_inv.
    apply restore_inv in E3 as [-> Hsil']; [|by rewrite Hf].
    injection Hh as <- <-. injection H as <- <-.
    assert (Hq : quiet w w3) by (eapply quiet_trans; by apply silent_quiet).
    pose proof (quiet_inv _ _ Hq) as (-> & -> & _ & ->). done. }
  apply promote_tail_inv in H as (-> & Hs & Hn & Hm & Hf).
  rewrite Hs, Hn, Hm, Hq1, Hm1. split_and!; try done.
  exists wt, (compute_plan_draft_fingerprint text). split_and!; [done|done|].
  pose proof (draft_not_plan wt) as Hne. exists text. split_and!; try done.
  - destruct Hf as [->| ->]; rewrite ?lookup_delete_ne by done; rewrite Hf1; apply lookup_insert_eq.
  - intros p Hp1 Hp2. destruct Hf as [->| ->]; rewrite ?lookup_delete_ne by done;
      rewrite Hf1; by apply lookup_insert_ne.
  - destruct Hf as [->| ->]; [right|left; apply lookup_delete_eq].
    rewrite Hf1. by rewrite lookup_insert_ne.
Qed.
End Promote.

(** ** What the row operations leave alone *)

(** The row's identity and the approvals it carries, the review one aside. *)
Definition grants (t : TicketTask) :=
  (t.(ticket_id), t.(client), t.(created_at), t.(plan_approved_at),
   t.(plan_approved_fingerprint), t.(scope_drift_approved_extra_files),
   t.(scope_drift_approved_head)).

Lemma grants_latches t : grants (clear_latches t) = grants t.
Proof. reflexivity. Qed.

Lemma grants_stamp new disp url reason x y t :
  grants (stamp_status new disp url reason x y t) = grants t.
Proof.
  unfold stamp_status. destruct (bool_decide _); [destruct (salvage_park new disp)|];
    [reflexivity..|]. destruct (bool_decide _); reflexivity.
Qed.

Lemma grants_leave old new b t : grants (leave_running old new b t) = grants t.
Proof.
  unfold leave_running. destruct (running_exit old new && b);
    destruct (running_exit old new && _); reflexivity.
Qed.

Lemma grants_enter new x t : grants (enter_status new x t) = grants t.
Proof. unfold enter_status. destruct (cancel_pages t new); reflexivity. Qed.

Lemma grants_transition new disp url reason b x y z t :
  grants (transition_row new disp url reason b x y z t) = grants t.
Proof.
  unfold transition_row. by rewrite grants_latches, grants_stamp, grants_leave, grants_enter.
Qed.

Lemma grants_pend b t : grants (pend b t) = grants t.
Proof. unfold pend. apply grants_transition. Qed.

Lemma grants_move s t : grants (move_stage s t) = grants t.
Proof.
  unfold move_stage, consume_red_recovery_evidence.
  destruct (review_feedback _); [destruct (_ && _)|]; reflexivity.
Qed.

Lemma grants_drop t : grants (drop_anchors t) = grants t.
Proof. reflexivity. Qed.

Lemma grants_lift stages s t : grants (lift_high_water stages s t) = grants t.
Proof.
  unfold lift_high_water. destruct (index_of _ _); [destruct (Z.ltb _ _)|]; reflexivity.
Qed.

Lemma grants_advance stages s t : grants (advance_row stages s t) = grants t.
Proof.
  unfold advance_row. by rewrite grants_drop, grants_pend, grants_lift, grants_move.
Qed.

Lemma grants_requeue t : grants (requeue_row t) = grants t.
Proof.
  unfold requeue_row. rewrite grants_drop, grants_pend. destruct (bool_decide _); reflexivity.
Qed.

Lemma grants_stamped session op n t : grants (review_stamped session op n t) = grants t.
Proof. done. Qed.

Lemma grants_key t u : grants t = grants u → row_key t = row_key u.
Proof. unfold row_key. by intros [= -> -> _ _ _ _ _]. Qed.

(** ** The branch chain *)

Section Branches.
Context {C : Clock}.

Lemma advance_yields stages t r :
  t.(stage) ∈ stages → last stages ≠ Some t.(stage) →
  yields (_advance_task_pointer stages) t r →
  ∃ i next, index_of t.(stage) stages = Some i ∧ stages !! S i = Some next
            ∧ r = inr (tt, advance_row stages next t).
Proof.
  intros [i Hi]%index_of_Some Hl (evs & n & w & H).
  assert (Hn : is_Some (stages !! S i)).
  { apply lookup_lt_is_Some. pose proof (index_of_lt _ _ _ Hi) as Hlt.
    destruct (decide (S i = length stages)) as [He|]; [|lia].
    exfalso. apply Hl. rewrite last_lookup, <- He. by apply index_of_lookup. }
  destruct Hn as [next Hn]. exists i, next. split_and!; [done..|].
  rewrite (advance_run _ _ _ _ _ _ Hi Hn) in H. destruct r as [e|[a t']]; [done|].
  destruct a. by destruct H as [[= <-] ->].
Qed.

Lemma requeue_yields t r :
  yields _reset_for_same_stage_requeue t r → r = inr (tt, requeue_row t).
Proof.
  intros (evs & n & w & H). rewrite requeue_run in H. destruct r as [e|[a t']]; [done|].
  destruct a. by destruct H as [[= <-] ->].
Qed.

(** Parked for sign-off: at its stage, its approvals kept. *)
Definition signoff_parked (t t' : TicketTask) : Prop :=
  t'.(status) = QueueItemStatus.AWAITING_OPERATOR_SIGNOFF
  ∧ t'.(disposition) = Some SIGNOFF_GATE_DISPOSITION
  ∧ t'.(stage) = t.(stage) ∧ grants t' = grants t.

Lemma signoff_yields t r :
  yields _park_signoff_gate t r → ∃ t', r = inr (tt, t') ∧ signoff_parked t t'.
Proof.
  intros (evs & n & w & H). unfold _park_signoff_gate, park_gate in H.
  rewrite (bind_run (needs_attention _ _) _ _ _ _ eq_refl) in H.
  rewrite transition_run in H. unfold settled in H. cbv zeta in H. cbn [w_task] in H.
  destruct r as [e|[a t']]; [done|]. destruct H as [[= <- <-] ->]. eexists. split; [done|].
  cbn [w_task]. unfold signoff_parked. rewrite grants_transition. autorewrite with row. done.
Qed.

Lemma clear_signoff_yields stages t r :
  t.(stage) ∈ stages → yields (_clear_signoff_gate stages) t r →
  ∃ t', r = inr (tt, t') ∧ grants t' = grants t
    ∧ ((last stages = Some t.(stage) ∧ t'.(status) = QueueItemStatus.COMPLETED
        ∧ t'.(stage) = t.(stage))
       ∨ ∃ i next, index_of t.(stage) stages = Some i ∧ stages !! S i = Some next
                   ∧ t' = advance_row stages next t).
Proof.
  intros Hin (evs & n & w & H). unfold _clear_signoff_gate in H.
  rewrite (bind_run (read stage) _ (mkWorld t evs n) t.(stage) (mkWorld t evs n) eq_refl) in H.
  destruct (last stages) as [l|] eqn:El;
    [|by apply last_None in El as ->; apply not_elem_of_nil in Hin].
  rewrite (bind_run (py_last stages) _ (mkWorld t evs n) l (mkWorld t evs n)) in H
    by (unfold py_last; by rewrite El).
  case_bool_decide as Hd.
  - rewrite transition_run in H. unfold settled in H. cbv zeta in H. cbn [w_task] in H.
    destruct r as [e|[a t']]; [done|]. destruct H as [[= <- <-] ->]. eexists. split; [done|].
    cbn [w_task]. rewrite grants_transition. split; [done|]. left. autorewrite with row.
    by rewrite Hd.
  - destruct (advance_yields stages t r Hin) as (i & next & Hi & Hn & ->).
    + rewrite El. by intros [= ->].
    + by exists evs, n, w.
    + eexists. split; [done|]. rewrite grants_advance. split; [done|]. right. by exists i, next.
Qed.
End Branches.

Lemma interior_stage s stages :
  s ∈ stages → stage_position s stages ≠ PipelinePosition.TERMINAL → last stages ≠ Some s.
Proof.
  unfold stage_position. intros Hin. rewrite bool_decide_true by done. cbn [negb].
  by case_bool_decide.
Qed.

Section Chain.
Context {C : Clock} {G : GateEnv} {E : OpsEnv} {A : ApproveEnv}.
Context (c : ClientConfig) (cl : string) (stages : list StageT) (session : Session)
  (plan_reviewed : option bool) (op : bool).

(** Whether the plan gate lets the row pass. *)
Definition plan_passes (files : gmap string string) (t : TicketTask) : bool :=
  match plan_reviewed with Some b => b | None => _plan_is_reviewed files t c end.

(** The draft, if any, was promoted. *)
Definition draft_promoted (t : TicketTask) (promoted : bool) (f f' : gmap string string)
  : Prop :=
  if promoted
  then t.(stage) = Stage.PLAN ∧ plan_reviewed = None
       ∧ ∃ wt fp, resolve_task_worktree t (Some c) = Some wt
                  ∧ claimed_fingerprint session = Some fp ∧ promoted_files wt fp f f'
  else f' = f
       ∧ (t.(stage) = Stage.PLAN → plan_reviewed = None →
          ∀ wt, resolve_task_worktree t (Some c) = Some wt →
                f !! (wt +:+ PLAN_DRAFT_RELATIVE_PATH) = None).

Definition branch_taken (t : TicketTask) (f : gmap string string) (b : Branch)
  (t' : TicketTask) (f' : gmap string string) : Prop :=
  match b with
  | FinalizeHeld =>
      t.(stage) = Stage.REVIEW ∧ op = false
      ∧ _should_force_hold_finalize t {[ cl := c ]} = true ∧ t' = t ∧ f' = f
  | SignoffParked =>
      t.(stage) = Stage.REVIEW
      ∧ (op || negb (_should_force_hold_finalize t {[ cl := c ]})) = true
      ∧ _should_gate_for_signoff t {[ cl := c ]} = true
      ∧ signoff_parked t t' ∧ f' = f
  | PlanRequeued =>
      t.(stage) = Stage.PLAN ∧ plan_passes f t = false ∧ t' = requeue_row t
      ∧ f' = f
  | Advanced promoted =>
      (t.(stage) = Stage.REVIEW →
         (op || negb (_should_force_hold_finalize t {[ cl := c ]})) = true
         ∧ _should_gate_for_signoff t {[ cl := c ]} = false)
      ∧ (t.(stage) = Stage.PLAN → plan_passes f t = true)
      ∧ (∃ i next, index_of t.(stage) stages = Some i ∧ stages !! S i = Some next
                   ∧ t' = advance_row stages next t)
      ∧ draft_promoted t promoted f f'
  end.

Lemma promote_step_inv t w r w' :
  _promote_plan_draft_on_direct_advance t c plan_reviewed session w = (r, w') →
  w'.(aw_queue).(q_store) = w.(aw_queue).(q_store)
  ∧ w'.(aw_queue).(q_saves) = w.(aw_queue).(q_saves)
  ∧ w'.(aw_marker) = w.(aw_marker)
  ∧ match r with
    | inl e => e = ApproveGateError ∧ quiet w w'
    | inr promoted => draft_promoted t promoted w.(aw_files) w'.(aw_files)
    end.
Proof.
  unfold _promote_plan_draft_on_direct_advance.
  case_bool_decide as Hs; cbn [negb orb].
  2: { intros [= <- <-]. by split_and!. }
  destruct plan_reviewed as [b|] eqn:Hpr; cbn [is_Some_b].
  { intros [= <- <-]. unfold draft_promoted. split_and!; try done. by rewrite Hpr. }
  intros (H1 & H2 & H3 & H)%promote_inv. split_and!; try done.
  destruct r as [e|[]]; [done| |].
  - destruct H as (wt & fp & Hwt & [= <-] & Hp). unfold draft_promoted. split_and!; [done..|].
    exists wt. destruct (claimed_fingerprint session) as [fp|]; [by eauto|]. exfalso.
    destruct Hp as (text & _ & Hfp & _).
    pose proof (sha256_hex_string (strip_bookkeeping text)) as [Hl _].
    unfold compute_plan_draft_fingerprint in Hfp. rewrite Hfp in Hl. discriminate Hl.
  - destruct H as [-> Hd]. unfold draft_promoted. split; [done|]. by intros _ _.
Qed.

(** The last step of the direct advance cannot raise. *)
Lemma advance_after_promotion t promoted w1 r w' :
  t.(stage) ∈ stages → last stages ≠ Some t.(stage) → (t' ← on_q (on_row t (_advance_task_pointer stages)); mret (Advanced promoted, t')) w1
  = (r, w') →
  ∃ i next, index_of t.(stage) stages = Some i ∧ stages !! S i = Some next
    ∧ r = inr (Advanced promoted, advance_row stages next t)
    ∧ w'.(aw_queue).(q_store) = w1.(aw_queue).(q_store)
    ∧ w'.(aw_queue).(q_saves) = w1.(aw_queue).(q_saves)
    ∧ w'.(aw_marker) = w1.(aw_marker) ∧ w'.(aw_files) = w1.(aw_files).
Proof.
  intros Hin Hlast H. unfold mbind, M_bind in H. destruct (on_q _ w1) as [r1 w2] eqn:E1.
  apply on_row_inv in E1 as [(Q1 & Q2 & Q3 & Q4)%quiet_inv Hy].
  apply advance_yields in Hy as (i & next & Hi & Hn & Hr); [|done..].
  destruct r1 as [e|t']; [done|]. injection Hr as ->. injection H as <- <-.
  exists i, next. by split_and!.
Qed.

Lemma branch_inv t w r w' :
  t.(stage) ∈ stages → last stages ≠ Some t.(stage) →
  release_branch c cl stages session plan_reviewed op t w = (r, w') →
  w'.(aw_queue).(q_store) = w.(aw_queue).(q_store)
  ∧ w'.(aw_queue).(q_saves) = w.(aw_queue).(q_saves)
  ∧ w'.(aw_marker) = w.(aw_marker)
  ∧ match r with
    | inl e => e = ApproveGateError ∧ quiet w w'
    | inr (b, t') => branch_taken t w.(aw_files) b t' w'.(aw_files)
    end.
Proof.
  intros Hin Hlast. unfold release_branch. cbv zeta. unfold mbind at 1, M_bind at 1, gets.
  case_bool_decide as Hr; cbn [andb].
  - assert (Hp : bool_decide (stage t = Stage.PLAN) = false)
      by (apply bool_decide_false; by rewrite Hr).
    rewrite Hp. cbn [andb].
    destruct (negb op && _should_force_hold_finalize t _) eqn:Hh.
    { intros [= <- <-]. apply andb_true_iff in Hh as [Ho%negb_true_iff Hh]. by split_and!. }
    assert (Hok : (op || negb (_should_force_hold_finalize t {[cl := c]})) = true)
      by (destruct op; [done|]; cbn in Hh |- *; by rewrite Hh).
    destruct (_should_gate_for_signoff t _) eqn:Hg.
    + intros H. unfold mbind, M_bind in H. destruct (on_q _ w) as [r1 w1] eqn:E1.
      apply on_row_inv in E1 as [(Q1 & Q2 & Q3 & Q4)%quiet_inv Hy]. destruct r1 as [e|t'].
      { apply signoff_yields in Hy as (t' & [=] & _). }
      injection H as <- <-. apply signoff_yields in Hy as (u & [= <-] & Hu). by split_and!.
    + intros H. unfold mbind at 1, M_bind at 1 in H.
      destruct (_promote_plan_draft_on_direct_advance t c plan_reviewed session w)
        as [r1 w1] eqn:E1. apply promote_step_inv in E1 as (Q1 & Q2 & Q3 & Hpr).
      destruct r1 as [e|promoted]; [by injection H as <- <-|].
      apply (advance_after_promotion _ _ _ _ _ Hin Hlast) in H
        as (i & next & Hi & Hn & -> & R1 & R2 & R3 & R4).
      rewrite R1, R2, R3. split_and!; try done. unfold branch_taken.
      split; [done|]. split; [by rewrite Hr|]. split; [by exists i, next|].
      by rewrite R4.
  - intros H. destruct (bool_decide (stage t = Stage.PLAN) && _) eqn:Hg.
    + apply andb_true_iff in Hg as [Hp%bool_decide_eq_true Hg%negb_true_iff].
      unfold mbind, M_bind in H. destruct (on_q _ w) as [r1 w1] eqn:E1.
      apply on_row_inv in E1 as [(Q1 & Q2 & Q3 & Q4)%quiet_inv Hy].
      destruct r1 as [e|t']; apply requeue_yields in Hy; [done|]. injection Hy as ->.
      injection H as <- <-. by split_and!.
    + unfold mbind at 1, M_bind at 1 in H.
      destruct (_promote_plan_draft_on_direct_advance t c plan_reviewed session w)
        as [r1 w1] eqn:E1. apply promote_step_inv in E1 as (Q1 & Q2 & Q3 & Hpr).
      destruct r1 as [e|promoted]; [by injection H as <- <-|].
      apply (advance_after_promotion _ _ _ _ _ Hin Hlast) in H
        as (i & next & Hi & Hn & -> & R1 & R2 & R3 & R4).
      rewrite R1, R2, R3. split_and!; try done. unfold branch_taken.
      split; [done|]. split; [|split; [by exists i, next|by rewrite R4]].
      intros Hp. rewrite bool_decide_true in Hg by done. cbn [andb] in Hg.
      by apply negb_false_iff in Hg.
Qed.
End Chain.

(** ** One approval *)

(** One save that replaces row [i] by [t']. *)
Definition saved (i : nat) (t' : TicketTask) (w w' : ApWorld) : Prop :=
  w'.(aw_queue).(q_store)
  = set_tasks (<[i := t']> w.(aw_queue).(q_store).(tasks)) w.(aw_queue).(q_store)
  ∧ w'.(aw_queue).(q_saves) = S w.(aw_queue).(q_saves) ∧ w'.(aw_marker) = w.(aw_marker).

(** The queue file and the marker are as they were. *)
Definition unsaved (w w' : ApWorld) : Prop :=
  w'.(aw_queue).(q_store) = w.(aw_queue).(q_store)
  ∧ w'.(aw_queue).(q_saves) = w.(aw_queue).(q_saves) ∧ w'.(aw_marker) = w.(aw_marker).

Lemma quiet_unsaved w w' : quiet w w' → unsaved w w' ∧ w'.(aw_files) = w.(aw_files).
Proof. unfold unsaved. by intros (-> & -> & -> & ->)%quiet_inv. Qed.

Lemma unsaved_trans w1 w2 w3 : unsaved w1 w2 → unsaved w2 w3 → unsaved w1 w3.
Proof. unfold unsaved. by intros (-> & -> & ->). Qed.

Section Audit.
Context {A : ApproveEnv}.

(** The audit never undoes a save and never raises after it. *)
Lemma save_audit_inv store tid cl t session disp stamp w r w' :
  _save_approval_and_audit store tid cl t session disp stamp w = (r, w') →
  (r = inl OSError ∧ quiet w w')
  ∨ ∃ recorded, r = inr recorded
     ∧ w'.(aw_queue).(q_store) = store
     ∧ w'.(aw_queue).(q_saves) = S w.(aw_queue).(q_saves)
     ∧ w'.(aw_files) = w.(aw_files) ∧ w'.(aw_marker) = w.(aw_marker)
     ∧ (recorded = true →
        w'.(aw_queue).(q_events)
        = w.(aw_queue).(q_events)
          ++ [mkEvent SCOPE_ROUTING_DECISION
                (gate_release_payload tid cl t session disp stamp) (Some tid)]).
Proof.
  intros H. unfold _save_approval_and_audit, mbind at 1, M_bind at 1 in H.
  destruct (save store w) as [r1 w1] eqn:E1.
  apply save_inv in E1 as [[-> Hs]|(-> & Q1 & Q2 & Q3 & Q4 & Q5)].
  { injection H as <- <-. left. auto with cw. }
  right. apply try_inv in H as [(b & -> & H)|(e & w2 & H & Hh)];
    unfold mbind, M_bind in H; destruct (record _ _ _ w1) as [r2 w3] eqn:E2;
    apply record_inv in E2 as [(R1 & R2 & R3 & R4)%quiet_inv E2];
    destruct (inbox_fault SCOPE_ROUTING_DECISION) as [wr|]; destruct E2 as [-> E2];
    try discriminate; injection H as <- <-.
  - exists true. rewrite R1, R2, R3, R4, E2, Q1, Q2, Q3, Q4, Q5. by split_and!.
  - injection Hh as <- <-. exists false. rewrite R1, R2, R3, R4, Q1, Q3, Q4, Q5. by split_and!.
Qed.
End Audit.

Section Gate.
Context {C : Clock} {G : GateEnv} {E : OpsEnv} {A : ApproveEnv}.

Lemma drift_inv t c w r w' :
  _record_body_drift t c w = (r, w') →
  quiet w w' ∧ match r with inl e => e = ApproveGateError | inr _ => True end.
Proof.
  unfold _record_body_drift. unfold mbind at 1, M_bind at 1, gets.
  destruct (_read_persisted_body_sha _ t c) as [persisted|]; [|by intros [= <- <-]].
  destruct (negb _); [by intros [= <- <-]|].
  destruct (fetch_issue_body _ c) as [body|]; [|by intros [= <- <-]]. cbv zeta.
  destruct (String.eqb _ persisted); [by intros [= <- <-]|].
  intros H. unfold mbind, M_bind in H. destruct (try_except _ _ w) as [r1 w1] eqn:E1.
  apply try_inv in E1 as [([] & -> & E1)|(e & w2 & E1 & Hh)]; apply record_inv in E1 as [Hq _].
  - by injection H as <- <-.
  - injection Hh as <- <-. by injection H as <- <-.
Qed.

(** What an approval of a parked row makes of it. *)
Definition gate_released (c : ClientConfig) (cl : string) (stages : list StageT)
  (session : Session) (plan_reviewed : option bool) (op : bool) (t : TicketTask)
  (f : gmap string string) (b : Branch) (t' : TicketTask) (f' : gmap string string) : Prop :=
  ∃ n t2, branch_taken c cl stages session plan_reviewed op (plan_stamped session n t) f b t2 f'
    ∧ if bool_decide (t.(stage) = Stage.REVIEW) && negb (is_held b)
      then ∃ m, t' = review_stamped session op m t2 else t' = t2.

Lemma plan_stamped_stage session n t : (plan_stamped session n t).(stage) = t.(stage).
Proof. unfold plan_stamped. by destruct (bool_decide _). Qed.

Lemma approve_gate_inv store i t tid cl c stages session pr op w r w' :
  t.(stage) ∈ stages → last stages ≠ Some t.(stage) →
  approve_gate store i t tid cl c stages session pr op w = (r, w') →
  match r with
  | inl e =>
      unsaved w w'
      ∧ ((e = ApproveGateError ∧ w'.(aw_files) = w.(aw_files))
         ∨ e = OSError ∧ ∃ b t', gate_released c cl stages session pr op t
                                   w.(aw_files) b t' w'.(aw_files))
  | inr res =>
      ∃ b t', gate_released c cl stages session pr op t w.(aw_files) b t' w'.(aw_files)
        ∧ w'.(aw_queue).(q_store) = set_tasks (<[i := t']> store.(tasks)) store
        ∧ w'.(aw_queue).(q_saves) = S w.(aw_queue).(q_saves) ∧ w'.(aw_marker) = w.(aw_marker)
        ∧ res.(ar_from_stage) = t.(stage) ∧ res.(ar_to_stage) = t'.(stage)
        ∧ res.(awaiting_signoff) = is_parked_for_signoff b
        ∧ res.(plan_requeued) = is_requeued b ∧ res.(finalize_held) = is_held b
        ∧ res.(plan_promoted) = is_promoted b
        ∧ res.(ar_plan_approved_fingerprint)
          = (if bool_decide (t.(stage) = Stage.PLAN) then stamped_fingerprint session else None)
  end.
Proof.
  intros Hin Hlast. unfold approve_gate. intros H. unfold mbind at 1, M_bind at 1 in H.
  destruct (on_q (with_row t _) w) as [r1 w1] eqn:E1.
  apply with_row_inv in E1 as [[U1 F1]%quiet_unsaved Hy].
  apply stamp_plan_yields in Hy as [n ->]. unfold mbind at 1, M_bind at 1 in H.
  match type of H with context [match ?m w1 with _ => _ end] =>
    destruct (m w1) as [r2 w2] eqn:E2 end.
  assert (H2 : quiet w1 w2 ∧ match r2 with inl e => e = ApproveGateError | inr _ => True end).
  { destruct (op && _); [by apply drift_inv in E2|by injection E2 as <- <-]. }
  clear E2. destruct H2 as [[U2 F2]%quiet_unsaved H2].
  pose proof (unsaved_trans _ _ _ U1 U2) as U12. clear U1 U2. rewrite F1 in F2. clear F1 w1.
  destruct r2 as [e|drift].
  { injection H as <- <-. split; [done|left; done]. }
  unfold mbind at 1, M_bind at 1 in H.
  destruct (release_branch _ _ _ _ _ _ _ w2) as [r3 w3] eqn:E3.
  apply branch_inv in E3 as (Q1 & Q2 & Q3 & Hb); [|by rewrite plan_stamped_stage..].
  assert (U3 : unsaved w w3) by (by eapply unsaved_trans). clear U12.
  destruct r3 as [e|[b t2]].
  { injection H as <- <-. split; [done|]. left. destruct Hb as [-> [_ Hf]%quiet_unsaved].
    by rewrite Hf. }
  rewrite F2 in Hb. unfold mbind at 1, M_bind at 1 in H.
  destruct (on_q (with_row t2 _) w3) as [r4 w4] eqn:E4.
  apply with_row_inv in E4 as [[U4 F4]%quiet_unsaved Hy].
  pose proof (unsaved_trans _ _ _ U3 U4) as U. clear U3 U4. rewrite <- F4 in Hb. clear F4 F2 w3 Q1 Q2 Q3.
  apply stamp_review_yields in Hy.
  assert (Hg : ∃ (stamp : option ReviewStamp) t', r4 = inr (stamp, t')
             ∧ gate_released c cl stages session pr op t w.(aw_files) b t' w4.(aw_files)).
  { unfold gate_released. destruct (bool_decide _ && _) eqn:Eb.
    - destruct Hy as [m ->]. do 2 eexists. split; [done|]. exists n, t2. split; [done|]. by exists m.
    - subst r4. do 2 eexists. split; [done|]. by exists n, t2. }
  destruct Hg as (stamp & t' & -> & Hg). clear Hy Hb.
  unfold mbind, M_bind in H. destruct (_save_approval_and_audit _ _ _ _ _ _ _ w4) as [r5 w5] eqn:E5.
  apply save_audit_inv in E5 as [[-> [U5 F5]%quiet_unsaved]|(rec & -> & S1 & S2 & S3 & S4 & _)].
  - injection H as <- <-. split; [by eapply unsaved_trans|]. right. split; [done|].
    exists b, t'. by rewrite F5.
  - injection H as <- <-. exists b, t'. rewrite S3. split; [done|].
    destruct U as (V1 & V2 & V3). rewrite S1, S2, S4, V2, V3. by split_and!.
Qed.

Lemma approval_session_inr sessions t stages s :
  approval_session sessions t stages = inr s →
  ∃ sid j, t.(session_id) = Some sid ∧ find_by_name_or_id sessions sid = inr (Some (j, s))
    ∧ _not_at_approval_gate s t = false
    ∧ stage_position t.(stage) stages ≠ PipelinePosition.TERMINAL.
Proof.
  unfold approval_session. destruct (session_id t) as [sid|]; [|done].
  destruct (find_by_name_or_id sessions sid) as [e|[[j s']|]] eqn:Hf; [done| |done].
  destruct (_not_at_approval_gate s' t) eqn:Hn; [done|].
  destruct (stage_position _ _) eqn:Hp; try done; intros [= <-]; by exists sid, j.
Qed.
End Gate.
