(* ===== verification/ApprovalContract.v ===== *)
(** * The approval contract

    What [approve] does to a parked row on every branch: which gates an
    automatic and an operator approval can release, what is bound to the
    release, what a refusal leaves behind; and the all-or-nothing behaviour of
    the scope-drift grant and of a revocation. *)

From stdpp Require Import sorting.
From S2P Require Import Prelude PyStr Enums Tasks World Vocab RearmOwed Lifecycle GateBackoff.
From S2P Require Import Clients Crud CrudProps ScopeTier ReviewGates Requeue RequeueProps.
From S2P Require Import PlanFingerprint Approval ApprovalProps.

#[local] Open Scope cw_scope.

Lemma resolve_target_spec store tid cl r i t :
  _resolve_approval_target store tid cl r = inr (i, t) →
  store.(tasks) !! i = Some t
  ∧ match r with
    | None => is_row tid cl t = true
    | Some u => t.(ticket_id) = u.(ticket_id) ∧ t.(client) = u.(client)
                ∧ t.(created_at) = u.(created_at) ∧ t.(status) = u.(status)
    end.
Proof.
  unfold _resolve_approval_target. destruct r as [u|].
  - destruct (list_find _ _) as [[j v]|] eqn:Hf; [|done].
    apply list_find_Some in Hf as (Hj & Hv & _).
    case_bool_decide as Hs; cbn [negb]; [|done]. intros [= <- <-]. split; [done|].
    apply andb_true_iff in Hv as [[H1%String.eqb_eq H2%String.eqb_eq]%andb_true_iff H3%Z.eqb_eq].
    done.
  - destruct (_find_ticket_at store tid cl) as [[j v]|] eqn:Hf; [|done].
    intros [= <- <-]. apply find_at_spec in Hf as (_ & Hi & Hr). done.
Qed.

(** ** Fields of the released row *)

Lemma plan_stamped_worktree `{GateEnv} s n t c :
  resolve_task_worktree (plan_stamped s n t) c = resolve_task_worktree t c.
Proof. unfold plan_stamped. by destruct (bool_decide _). Qed.

(** One rung along the pipeline. *)
Definition advances (stages : list StageT) (t t' : TicketTask) : Prop :=
  ∃ k next, index_of t.(stage) stages = Some k ∧ stages !! S k = Some next
            ∧ t'.(stage) = next.

Lemma advanced_stage stages next t : (advance_row stages next t).(stage) = next.
Proof.
  unfold advance_row. by rewrite drop_stage, pend_stage, lift_stage, move_stage_stage.
Qed.

Lemma advanced_status stages next t :
  (advance_row stages next t).(status) = QueueItemStatus.PENDING.
Proof. unfold advance_row. by rewrite drop_status, pend_status. Qed.

Lemma requeued_row t :
  (requeue_row t).(status) = QueueItemStatus.PENDING ∧ (requeue_row t).(stage) = t.(stage).
Proof.
  unfold requeue_row. rewrite drop_status, drop_stage, pend_status, pend_stage.
  split; [done|]. by destruct (bool_decide _).
Qed.

Lemma grants_plan t u :
  grants t = grants u →
  t.(plan_approved_at) = u.(plan_approved_at)
  ∧ t.(plan_approved_fingerprint) = u.(plan_approved_fingerprint).
Proof. by intros [= _ _ _ -> -> _ _]. Qed.

Lemma gate_not_stale s t :
  _not_at_approval_gate s t = false →
  t.(disposition) ≠ Some BRANCH_STALENESS_GATE_DISPOSITION
  ∧ t.(disposition) ≠ Some REVIEW_STALENESS_GATE_DISPOSITION.
Proof.
  unfold _not_at_approval_gate. intros H.
  split; intros Hd; rewrite Hd in H; discriminate H.
Qed.

Lemma released_hold (op held : bool) :
  (op || negb held) = true → op = true ∨ held = false.
Proof. destruct op, held; auto. Qed.

Section Approve.
Context {C : Clock} {G : GateEnv} {E : OpsEnv} {A : ApproveEnv}.
Context (clients : Clients) (sessions : list Session) (tid cl : string)
  (resolved_task : option TicketTask) (plan_reviewed : option bool) (op : bool).

Local Abbreviation approve :=
  (_approve_ticket_locked clients sessions tid cl resolved_task plan_reviewed op).
Local Abbreviation gated := (λ c t s, gate_released c cl (resolve_pipeline_stages t c) s
  plan_reviewed op t).

(** A row at a gate the call may release, with its client and session. *)
Definition at_gate (w : ApWorld) (i : nat) (t : TicketTask) (c : ClientConfig) (s : Session)
  : Prop :=
  _resolve_approval_target w.(aw_queue).(q_store) tid cl resolved_task = inr (i, t)
  ∧ clients !! cl = Some c ∧ t.(stage) ∈ resolve_pipeline_stages t c
  ∧ t.(status) = QueueItemStatus.BLOCKED_ON_USER
  ∧ approval_session sessions t (resolve_pipeline_stages t c) = inr s.

(** A row awaiting sign-off, cleared: completed at the last stage, else moved
    to the next one. *)
Definition signoff_cleared (w : ApWorld) (i : nat) (t t' : TicketTask) : Prop :=
  ∃ c, _resolve_approval_target w.(aw_queue).(q_store) tid cl resolved_task = inr (i, t)
  ∧ clients !! cl = Some c ∧ t.(status) = QueueItemStatus.AWAITING_OPERATOR_SIGNOFF
  ∧ grants t' = grants t
  ∧ let stages := resolve_pipeline_stages t c in
    (last stages = Some t.(stage) ∧ t'.(status) = QueueItemStatus.COMPLETED
     ∧ t'.(stage) = t.(stage))
    ∨ ∃ j next, index_of t.(stage) stages = Some j ∧ stages !! S j = Some next
                ∧ t' = advance_row stages next t.

Lemma approve_cases w r w' :
  approve w = (r, w') →
  match r with
  | inl e =>
      unsaved w w'
      ∧ (w'.(aw_files) = w.(aw_files)
         ∨ e = OSError ∧ ∃ i t c s b t', at_gate w i t c s
             ∧ gated c t s w.(aw_files) b t' w'.(aw_files))
  | inr res =>
      ∃ i t t', saved i t' w w' ∧ res.(ar_from_stage) = t.(stage)
        ∧ res.(ar_to_stage) = t'.(stage)
        ∧ ((signoff_cleared w i t t' ∧ w'.(aw_files) = w.(aw_files)
            ∧ res.(finalize_held) = false ∧ res.(ar_plan_approved_fingerprint) = None)
           ∨ ∃ c s b, at_gate w i t c s ∧ gated c t s w.(aw_files) b t' w'.(aw_files)
             ∧ res.(awaiting_signoff) = is_parked_for_signoff b
             ∧ res.(plan_requeued) = is_requeued b ∧ res.(finalize_held) = is_held b
             ∧ res.(plan_promoted) = is_promoted b
             ∧ res.(ar_plan_approved_fingerprint)
               = if bool_decide (t.(stage) = Stage.PLAN) then stamped_fingerprint s else None)
  end.
Proof.
  unfold _approve_ticket_locked. intros H.
  unfold mbind at 1, M_bind at 1, on_q at 1, load_dev_queue, gets in H.
  assert (Hw : mkApWorld w.(aw_queue) w.(aw_files) w.(aw_marker) w.(aw_writes) = w)
    by (by destruct w).
  rewrite Hw in H. clear Hw. unfold mbind at 1, M_bind at 1 in H.
  destruct (_resolve_approval_target _ _ _ _) as [e|[i t]] eqn:Ht; cbn [of_sum] in H;
    [injection H as <- <-; split; [done|by left]|].
  unfold mret, M_ret in H.
  case_bool_decide as Hst; cbn [negb] in H; [|injection H as <- <-; split; [done|by left]].
  destruct (clients !! cl) as [c|] eqn:Hc; [|injection H as <- <-; split; [done|by left]].
  cbv zeta in H.
  case_bool_decide as Hin; cbn [negb] in H; [|injection H as <- <-; split; [done|by left]].
  case_bool_decide as Hs.
  - unfold approve_signoff, mbind at 1, M_bind at 1 in H.
    destruct (on_q _ w) as [r1 w1] eqn:E1.
    apply on_row_inv in E1 as [[U1 F1]%quiet_unsaved Hy].
    apply clear_signoff_yields in Hy as (t' & Hr & Hg & Hcase); [|done].
    destruct r1 as [e|u]; [done|]. injection Hr as ->.
    unfold mbind, M_bind in H. destruct (save _ w1) as [r2 w2] eqn:E2. destruct U1 as (V1 & V2 & V3).
    apply save_inv in E2 as [[-> [[S1 [S2 S3]] S4]%silent_quiet%quiet_unsaved]
      |(-> & S1 & _ & S2 & S3 & S4)]; injection H as <- <-.
    + unfold unsaved. rewrite S1, S2, S3, S4, F1. split; [done|by left].
    + exists i, t, t'. unfold saved. rewrite S1, S2, S4, V2, V3. split_and!; try done.
      left. rewrite S3, F1. split_and!; try done. by exists c.
  - unfold mbind at 1, M_bind at 1 in H.
    assert (Hb : t.(status) = QueueItemStatus.BLOCKED_ON_USER).
    { revert Hst Hs. clear. destruct (status t); vm_compute; intuition congruence. }
    destruct (approval_session sessions t _) as [e|s] eqn:Hse; cbn [of_sum] in H;
      [injection H as <- <-; split; [done|by left]|].
    unfold mret, M_ret in H.
    pose proof (approval_session_inr _ _ _ _ Hse) as (sid & j & _ & _ & _ & Hp).
    apply approve_gate_inv in H; [|done|by apply interior_stage].
    destruct r as [e|res].
    + destruct H as [U [[-> Hf]|[-> (b & t' & Hg)]]]; (split; [done|]); [by left|right].
      split; [done|]. exists i, t, c, s, b, t'. done.
    + destruct H as (b & t' & Hg & Q1 & Q2 & Q3 & R1 & R2 & R3 & R4 & R5 & R6 & R7).
      exists i, t, t'. split; [done|]. split_and!; try done. right. exists c, s, b.
      split_and!; done.
Qed.

(** an approval that raises leaves the queue file and the recovery marker
    as they were.  The worktree files are as they were too - a failed
    promotion puts the prior plan back - unless the failure is that of the
    final save itself, after which they are what the approval of the row made
    of them. *)
Theorem refused_approval_keeps w e w' :
  approve w = (inl e, w') →
  w'.(aw_queue).(q_store) = w.(aw_queue).(q_store)
  ∧ w'.(aw_queue).(q_saves) = w.(aw_queue).(q_saves) ∧ w'.(aw_marker) = w.(aw_marker)
  ∧ (e ≠ OSError → w'.(aw_files) = w.(aw_files))
  ∧ (w'.(aw_files) ≠ w.(aw_files) →
     ∃ i t c s wt fp, at_gate w i t c s ∧ t.(stage) = Stage.PLAN
       ∧ resolve_task_worktree t (Some c) = Some wt ∧ claimed_fingerprint s = Some fp
       ∧ promoted_files wt fp w.(aw_files) w'.(aw_files)).
Proof.
  intros [(Q1 & Q2 & Q3) H]%approve_cases. split_and!; [done..| |].
  - intros He. by destruct H as [H|[-> _]].
  - intros Hne. destruct H as [H|(_ & i & t & c & s & b & t' & Ha & Hg)]; [done|].
    exists i, t, c, s. destruct Hg as (n & t2 & Hb & _).
    destruct b as [| | |[]]; cbn in Hb; [naive_solver..| |naive_solver].
    destruct Hb as (_ & _ & _ & Hs & _ & wt & fp & Hwt & Hfp & Hp).
    rewrite plan_stamped_stage in Hs. rewrite plan_stamped_worktree in Hwt.
    exists wt, fp. by split_and!.
Qed.

(** C8: what releases a row parked at REVIEW.  The park is never a staleness
    park.  A force hold stops an automatic call and leaves the row exactly as
    it is; otherwise a required sign-off parks the row for it, and only a row
    with neither gate leaves REVIEW, for the next stage of its pipeline.  The
    released row carries who approved it and the commit the session's verdict
    reviewed. *)
Theorem review_release_gated w res w' i t :
  approve w = (inr res, w') →
  _resolve_approval_target w.(aw_queue).(q_store) tid cl resolved_task = inr (i, t) →
  t.(status) = QueueItemStatus.BLOCKED_ON_USER → t.(stage) = Stage.REVIEW →
  ∃ c s t', at_gate w i t c s ∧ saved i t' w w' ∧ w'.(aw_files) = w.(aw_files)
    ∧ t.(disposition) ≠ Some BRANCH_STALENESS_GATE_DISPOSITION
    ∧ t.(disposition) ≠ Some REVIEW_STALENESS_GATE_DISPOSITION
    ∧ let held := _should_force_hold_finalize t {[ cl := c ]} in
      let signoff := _should_gate_for_signoff t {[ cl := c ]} in
      if res.(finalize_held) then op = false ∧ held = true ∧ t' = t
      else (op = true ∨ held = false)
           ∧ t'.(review_approver_kind) = Some (if op then "operator" else "recipe")
           ∧ t'.(review_approved_sha) = _resolve_review_reviewed_sha (session_result s)
           ∧ is_Some t'.(review_approved_at)
           ∧ if res.(awaiting_signoff)
             then signoff = true ∧ t'.(status) = QueueItemStatus.AWAITING_OPERATOR_SIGNOFF
                  ∧ t'.(stage) = Stage.REVIEW
             else signoff = false ∧ t'.(status) = QueueItemStatus.PENDING
                  ∧ advances (resolve_pipeline_stages t c) t t'.
Proof.
  intros (i' & u & t' & Hsv & _ & _ & H)%approve_cases Ht Hst Hr.
  destruct H as [((c & Ht' & _ & Haw & _) & _)
                |(c & s & b & Ha & (n & t2 & Hb & Hrev) & R1 & R2 & R3 & R4 & R5)].
  { exfalso. rewrite Ht in Ht'. injection Ht' as <- <-. congruence. }
  pose proof Ha as (Ht' & Hc & Hin & _ & Hse).
  rewrite Ht in Ht'. injection Ht' as <- <-.
  assert (Hpl : plan_stamped s n t = t).
  { unfold plan_stamped. by rewrite bool_decide_false by (by rewrite Hr). }
  rewrite Hpl in Hb. clear Hpl. rewrite bool_decide_true in Hrev by done. cbn [andb] in Hrev.
  pose proof (approval_session_inr _ _ _ _ Hse) as (sid & j & _ & _ & Hg & _).
  apply gate_not_stale in Hg as [Hg1 Hg2].
  exists c, s, t'. split; [done|]. split; [done|]. cbv zeta.
  rewrite R3, R1. destruct b as [| | |promoted]; cbn in Hb, Hrev |- *.
  - destruct Hb as (_ & Ho & Hh & -> & Hf). subst t'. by split_and!.
  - destruct Hb as (_ & Ho & Hsg & (P1 & _ & P3 & _) & Hf). destruct Hrev as [m ->].
    split_and!; try done; [by apply released_hold|].
    change (t2.(stage) = Stage.REVIEW). by rewrite P3.
  - destruct Hb as (Hp & _). congruence.
  - destruct Hb as (Ho & _ & (k & next & Hi & Hn & ->) & Hd). destruct (Ho Hr) as [Ho' Hsg].
    destruct Hrev as [m ->].
    assert (Hf : w'.(aw_files) = w.(aw_files)).
    { destruct promoted; destruct Hd as [Hd _]; [congruence|done]. }
    pose proof (advanced_status (resolve_pipeline_stages t c) next t) as H1.
    pose proof (advanced_stage (resolve_pipeline_stages t c) next t) as H2.
    revert H1 H2. generalize (advance_row (resolve_pipeline_stages t c) next t).
    intros t2 H1 H2. split_and!; try done; [by apply released_hold|]. by exists k, next.
Qed.

(** C9: what releases a row parked at PLAN: the approval binds the row to the
    draft fingerprint of the session's sentinel, the one it reports.  A plan
    that is not reviewed is sent through PLAN again with the worktree alone;
    otherwise the row advances, and if the call promoted a draft, the plan
    file now is that draft, whose fingerprint is the one the row is bound to;
    if it promoted none, no file changed, and on the operator's path there
    was no draft. *)
Theorem plan_release_bound w res w' i t :
  approve w = (inr res, w') →
  _resolve_approval_target w.(aw_queue).(q_store) tid cl resolved_task = inr (i, t) →
  t.(status) = QueueItemStatus.BLOCKED_ON_USER → t.(stage) = Stage.PLAN →
  ∃ c s t', at_gate w i t c s ∧ saved i t' w w'
    ∧ is_Some t'.(plan_approved_at)
    ∧ t'.(plan_approved_fingerprint) = stamped_fingerprint s
    ∧ res.(ar_plan_approved_fingerprint) = stamped_fingerprint s
    ∧ t'.(status) = QueueItemStatus.PENDING
    ∧ if res.(plan_requeued)
      then plan_passes c plan_reviewed w.(aw_files) t = false ∧ t'.(stage) = Stage.PLAN
           ∧ w'.(aw_files) = w.(aw_files)
      else plan_passes c plan_reviewed w.(aw_files) t = true
           ∧ advances (resolve_pipeline_stages t c) t t'
           ∧ if res.(plan_promoted)
             then ∃ wt fp, resolve_task_worktree t (Some c) = Some wt
                    ∧ t'.(plan_approved_fingerprint) = Some fp
                    ∧ promoted_files wt fp w.(aw_files) w'.(aw_files)
             else w'.(aw_files) = w.(aw_files)
                  ∧ (plan_reviewed = None →
                     ∀ wt, resolve_task_worktree t (Some c) = Some wt →
                           w.(aw_files) !! (wt +:+ PLAN_DRAFT_RELATIVE_PATH) = None).
Proof.
  intros (i' & u & t' & Hsv & _ & _ & H)%approve_cases Ht Hst Hp.
  destruct H as [((c & Ht' & _ & Haw & _) & _)
                |(c & s & b & Ha & (n & t2 & Hb & Hrev) & R1 & R2 & R3 & R4 & R5)].
  { exfalso. rewrite Ht in Ht'. injection Ht' as <- <-. congruence. }
  pose proof Ha as (Ht' & Hc & Hin & _ & Hse).
  rewrite Ht in Ht'. injection Ht' as <- <-.
  rewrite bool_decide_false in Hrev by (by rewrite Hp). cbn [andb] in Hrev. subst t'.
  rewrite bool_decide_true in R5 by done.
  pose proof (plan_stamped_stage s n t) as Hsg. pose proof (plan_stamped_worktree s n t) as Hwt.
  assert (Hgr : (plan_stamped s n t).(plan_approved_at) = Some n
             ∧ (plan_stamped s n t).(plan_approved_fingerprint) = stamped_fingerprint s).
  { unfold plan_stamped. by rewrite bool_decide_true. }
  assert (Hpp : plan_passes c plan_reviewed w.(aw_files) (plan_stamped s n t)
                = plan_passes c plan_reviewed w.(aw_files) t).
  { unfold plan_stamped. by destruct (bool_decide _). }
  revert Hsg Hwt Hgr Hpp Hb. generalize (plan_stamped s n t). intros t1 Hsg Hwt [Hg1 Hg2] Hpp Hb.
  exists c, s, t2. split; [done|]. split; [done|]. rewrite R2, R4, R5.
  destruct b as [| | |promoted]; cbn in Hb |- *.
  - destruct Hb as (Hx & _). congruence.
  - destruct Hb as (Hx & _). congruence.
  - destruct Hb as (_ & Hx & -> & Hf). rewrite Hpp in Hx.
    destruct (grants_plan _ _ (grants_requeue t1)) as [-> ->]. rewrite Hg1, Hg2.
    destruct (requeued_row t1) as [-> ->]. rewrite Hsg. by split_and!.
  - destruct Hb as (_ & Hx & (k & next & Hi & Hn & ->) & Hd). rewrite Hsg, Hpp in Hx.
    destruct (grants_plan _ _ (grants_advance (resolve_pipeline_stages t c) next t1)) as [-> ->].
    rewrite Hg1, Hg2. split_and!; [by eauto|done|done|apply advanced_status|by apply Hx| |].
    + exists k, next. rewrite <- Hsg. split_and!; [done..|apply advanced_stage].
    + destruct promoted; cbn in Hd.
      * destruct Hd as (_ & _ & wt & fp & Hw & Hfp & Hpf). rewrite Hwt in Hw.
        exists wt, fp. split_and!; [done| |done]. unfold stamped_fingerprint. rewrite Hfp.
        destruct Hpf as (text & _ & <- & _).
        unfold compute_plan_draft_fingerprint.
        by rewrite (proj2 (fingerprint_spec _) (sha256_hex_string _)).
      * destruct Hd as [Hf Hd]. split; [done|]. intros Hn' wt Hw. apply (Hd); [congruence|done|].
        by rewrite Hwt.
Qed.
End Approve.

(** ** Revocation *)

Section Revoke.
Context {C : Clock} {A : ApproveEnv}.

Definition revoke_outcome (tid cl source reason : string) (w : ApWorld) (r : exn + RevokeResult) (w' : ApWorld) : Prop :=
  w'.(aw_files) = w.(aw_files) ∧ w'.(aw_marker) = w.(aw_marker)
  ∧ match r with
    | inl _ => w'.(aw_queue).(q_store) = w.(aw_queue).(q_store)
               ∧ w'.(aw_queue).(q_saves) = w.(aw_queue).(q_saves)
    | inr res =>
        ∃ i t, _find_ticket_at w.(aw_queue).(q_store) tid cl = Some (i, t)
          ∧ res.(previous_fingerprint) = t.(plan_approved_fingerprint)
          ∧ if res.(cleared)
            then (t.(plan_approved_at) ≠ None ∨ t.(plan_approved_fingerprint) ≠ None)
                 ∧ saved i (clear_plan_approval t) w w'
                 ∧ ∃ n, w'.(aw_queue).(q_events)
                        = w.(aw_queue).(q_events)
                          ++ [mkEvent PLAN_APPROVAL_REVOKED
                                (revoked_payload tid cl source reason t n) (Some tid)]
            else t.(plan_approved_at) = None ∧ t.(plan_approved_fingerprint) = None
                 ∧ durable w' = durable w
    end.

Lemma revoke_inv tid cl source reason w r w' :
  revoke_plan_approval tid cl source reason w = (r, w') → revoke_outcome tid cl source reason w r w'.
Proof.
  unfold revoke_outcome.
  unfold revoke_plan_approval. unfold mbind at 1, M_bind at 1, on_q at 1, load_dev_queue, gets.
  cbv beta iota. intros H.
  assert (Hw : mkApWorld w.(aw_queue) w.(aw_files) w.(aw_marker) w.(aw_writes) = w)
    by (by destruct w).
  rewrite Hw in H. clear Hw.
  destruct (_find_ticket_at _ tid cl) as [[i t]|] eqn:Hf; [|injection H as <- <-; done].
  destruct (is_Some_b t.(plan_approved_at) || is_Some_b t.(plan_approved_fingerprint)) eqn:Ha;
    cbn [negb] in H.
  2: { injection H as <- <-. split_and!; [done..|]. exists i, t. split_and!; [done..|].
       apply orb_false_iff in Ha as [H1 H2].
       destruct (plan_approved_at t), (plan_approved_fingerprint t); done. }
  unfold mbind at 1, M_bind at 1 in H. destruct (on_q q_now w) as [r1 w1] eqn:E1.
  unfold on_q, q_now in E1. injection E1 as <- <-.
  unfold mbind at 1, M_bind at 1 in H. destruct (record _ _ _ _) as [r2 w2] eqn:E2.
  apply record_inv in E2 as [(R1 & R2 & R3 & R4)%quiet_inv E2]. cbn in R1, R2, R3, R4, E2.
  destruct (inbox_fault PLAN_APPROVAL_REVOKED) as [wr|].
  { destruct E2 as [-> _]. injection H as <- <-. by rewrite R1, R2, R3, R4. }
  destruct E2 as [-> E2]. unfold mbind, M_bind in H. destruct (save _ w2) as [r3 w3] eqn:E3.
  apply save_inv in E3 as [[-> (S1 & S2 & S3 & S4)%silent_quiet%quiet_inv]
    |(-> & S1 & S0 & S2 & S3 & S4)]; injection H as <- <-.
  - by rewrite S1, S2, S3, S4, R1, R2, R3, R4.
  - rewrite S3, S4, R3, R4. split_and!; [done..|]. exists i, t. split_and!; [done..|].
    cbn [cleared]. split.
    { destruct (plan_approved_at t), (plan_approved_fingerprint t);
        [by left|by left|by right|discriminate Ha]. }
    split; [unfold saved; by rewrite S1, S2, S4, R2, R4|].
    eexists. by rewrite S0, E2.
Qed.

(** a revocation is all or nothing, and recorded before it is done.  A
    raise leaves the queue file as it was; a return either found no approval
    and did nothing, or cleared both plan approval fields of the ticket's row
    in one save, after the audit event with the fingerprint it reports was
    put in the inbox. *)
Theorem revocation_recorded_first tid cl source reason w r w' :
  revoke_plan_approval tid cl source reason w = (r, w') →
  w'.(aw_files) = w.(aw_files) ∧ w'.(aw_marker) = w.(aw_marker)
  ∧ match r with
    | inl _ => w'.(aw_queue).(q_store) = w.(aw_queue).(q_store)
               ∧ w'.(aw_queue).(q_saves) = w.(aw_queue).(q_saves)
    | inr res =>
        ∃ i t, _find_ticket_at w.(aw_queue).(q_store) tid cl = Some (i, t)
          ∧ res.(previous_fingerprint) = t.(plan_approved_fingerprint)
          ∧ if res.(cleared)
            then (t.(plan_approved_at) ≠ None ∨ t.(plan_approved_fingerprint) ≠ None)
                 ∧ saved i (clear_plan_approval t) w w'
                 ∧ ∃ n, w'.(aw_queue).(q_events)
                        = w.(aw_queue).(q_events)
                          ++ [mkEvent PLAN_APPROVAL_REVOKED
                                (revoked_payload tid cl source reason t n) (Some tid)]
            else t.(plan_approved_at) = None ∧ t.(plan_approved_fingerprint) = None
                 ∧ durable w' = durable w
    end.
Proof. apply revoke_inv. Qed.

(** What a later writer may rely on. *)
Lemma revoke_cases tid cl source reason w r w' :
  revoke_plan_approval tid cl source reason w = (r, w') →
  w'.(aw_queue).(q_store) = w.(aw_queue).(q_store)
  ∨ ∃ i t, _find_ticket_at w.(aw_queue).(q_store) tid cl = Some (i, t)
           ∧ saved i (clear_plan_approval t) w w'.
Proof.
  intros (_ & _ & H)%revoke_inv. destruct r as [e|res]; [left; apply H|].
  destruct H as (i & t & Hf & _ & H). destruct (cleared res).
  - right. exists i, t. by destruct H as (_ & H & _).
  - left. destruct H as (_ & _ & H). by injection H.
Qed.
End Revoke.

(** ** Scope drift *)

Section Drift.
Context {C : Clock} {G : GateEnv} {E : OpsEnv} {A : ApproveEnv}.

Definition granted (files : list string) (head : string) (t : TicketTask) : TicketTask :=
  t <| scope_drift_approved_extra_files := Some files |>
    <| scope_drift_approved_head := Some head |>.

Lemma grant_run files head t evs n :
  grant_scope_drift files head (mkWorld t evs n)
  = (inr tt, mkWorld (requeue_row (granted files head t))
       (evs ++ requeue_events (granted files head t)) n).
Proof.
  unfold grant_scope_drift. run_step @assign_run. etransitivity; [apply requeue_run|]. done.
Qed.

(** What stands for a grant whose audit event failed: a correcting event, a
    recovery marker, or - when neither can be written - nothing. *)
Definition corrected (rolled_back : bool) (w w' : ApWorld) : Prop :=
  ∃ p, dict_get "rolled_back" p = JBool rolled_back
       ∧ dict_get "recovery_required" p = JBool (negb rolled_back)
       ∧ match inbox_fault TICKET_APPROVAL_FAILED with
         | None => w'.(aw_marker) = w.(aw_marker)
                   ∧ ∃ tid, w'.(aw_queue).(q_events)
                            = w.(aw_queue).(q_events) ++ [mkEvent TICKET_APPROVAL_FAILED p tid]
         | Some _ => w'.(aw_marker) = w.(aw_marker) ++ (if marker_fault then [] else [p])
         end.

Lemma mark_inv p w r w' :
  mark_recovery p w = (r, w') →
  r = inr tt ∧ w'.(aw_queue) = w.(aw_queue) ∧ w'.(aw_files) = w.(aw_files)
  ∧ w'.(aw_marker) = w.(aw_marker) ++ (if marker_fault then [] else [p]).
Proof.
  unfold mark_recovery, modify. destruct marker_fault; intros [= <- <-]; [|done].
  by rewrite app_nil_r.
Qed.

Lemma compensation_inv tid cl payload err b w r w' :
  _emit_scope_drift_compensation tid cl payload err b w = (r, w') →
  r = inr tt ∧ w'.(aw_queue).(q_store) = w.(aw_queue).(q_store)
  ∧ w'.(aw_queue).(q_saves) = w.(aw_queue).(q_saves)
  ∧ w'.(aw_files) = w.(aw_files) ∧ corrected b w w'.
Proof.
  unfold _emit_scope_drift_compensation. cbv zeta.
  match goal with |- context [record _ ?q _] => set (p := q) end.
  assert (Hp : dict_get "rolled_back" p = JBool b
            ∧ dict_get "recovery_required" p = JBool (negb b)) by done.
  destruct Hp as [Hp1 Hp2]. clearbody p.
  intros [([] & -> & H)|(e & w1 & H & Hh)]%try_inv;
    apply record_inv in H as [(R1 & R2 & R3 & R4)%quiet_inv H].
  - split_and!; try done. exists p. split_and!; [done..|].
    destruct (inbox_fault TICKET_APPROVAL_FAILED); destruct H as [Hr H]; [done|].
    split; [done|]. by exists (Some tid).
  - apply mark_inv in Hh as (-> & Q & F & M). rewrite Q, F, R1, R2, R3.
    split_and!; try done. exists p. split_and!; [done..|].
    destruct (inbox_fault TICKET_APPROVAL_FAILED); destruct H as [Hr H]; [|done].
    by rewrite M, R4.
Qed.

(** The granted park, with the state after the grant was saved. *)
Definition drift_target (clients : Clients) (tid cl : string) (extra : list string)
  (w : ApWorld) (i : nat) (t : TicketTask) (head : string) : Prop :=
  ∃ c, _find_ticket_at w.(aw_queue).(q_store) tid cl = Some (i, t) ∧ clients !! cl = Some c
    ∧ t.(status) = QueueItemStatus.BLOCKED_ON_USER ∧ t.(stage) = Stage.IMPL
    ∧ t.(blocked_reason) = Some PLAN_SCOPE_DRIFT_BLOCKER_REASON ∧ sorted_set extra ≠ []
    ∧ branch_head_sha_on_origin (resolve_feature_branch tid (Some c) (Some t)) c = Some head.

Lemma drift_accepted t files :
  scope_drift_refused t files = false →
  t.(status) = QueueItemStatus.BLOCKED_ON_USER ∧ t.(stage) = Stage.IMPL
  ∧ t.(blocked_reason) = Some PLAN_SCOPE_DRIFT_BLOCKER_REASON ∧ files ≠ [].
Proof.
  unfold scope_drift_refused. intros [[[H1 H2]%orb_false_iff H3]%orb_false_iff H4]%orb_false_iff.
  apply negb_false_iff, bool_decide_eq_true in H1. apply negb_false_iff, bool_decide_eq_true in H2.
  apply negb_false_iff in H3. apply bool_decide_eq_false in H4.
  split_and!; try done. by apply bool_decide_eq_true in H3.
Qed.

(** The inbox and the marker as [evs] and nothing more left them. *)
Definition appended (evs : list event) (w w' : ApWorld) : Prop :=
  w'.(aw_queue).(q_events) = w.(aw_queue).(q_events) ++ evs ∧ w'.(aw_marker) = w.(aw_marker).

Definition rolled_back (w wr w' : ApWorld) : Prop :=
  w'.(aw_queue).(q_store) = w.(aw_queue).(q_store)
  ∧ w'.(aw_queue).(q_saves) = S (S w.(aw_queue).(q_saves)) ∧ corrected true wr w'.

Definition grant_stands (i : nat) (t' : TicketTask) (w wr w' : ApWorld) : Prop :=
  w'.(aw_queue).(q_store)
  = set_tasks (<[i := t']> w.(aw_queue).(q_store).(tasks)) w.(aw_queue).(q_store)
  ∧ w'.(aw_queue).(q_saves) = S w.(aw_queue).(q_saves)
  ∧ ∃ wm p, dict_get "recovery_required" p = JBool true
            ∧ wm.(aw_queue).(q_events) = wr.(aw_queue).(q_events)
            ∧ wm.(aw_marker) = wr.(aw_marker) ++ (if marker_fault then [] else [p])
            ∧ corrected false wm w'.

Lemma audit_failed_inv i t' w ws wr tid cl payload repr r w' :
  ws.(aw_queue).(q_store)
  = set_tasks (<[i := t']> w.(aw_queue).(q_store).(tasks)) w.(aw_queue).(q_store) →
  ws.(aw_queue).(q_saves) = S w.(aw_queue).(q_saves) → quiet ws wr →
  scope_drift_audit_failed w.(aw_queue).(q_store) tid cl payload OSError repr wr = (r, w') →
  (∃ e, r = inl e ∧ e = OSError) ∧ w'.(aw_files) = ws.(aw_files)
  ∧ ∃ wb, wb.(aw_queue).(q_events) = wr.(aw_queue).(q_events)
          ∧ wb.(aw_marker) = wr.(aw_marker)
          ∧ (rolled_back w wb w' ∨ grant_stands i t' w wb w').
Proof.
  intros Hst Hn (R1 & R2 & R3 & R4)%quiet_inv H. unfold scope_drift_audit_failed in H.
  unfold mbind at 1, M_bind at 1 in H. destruct (try_except _ _ wr) as [r1 w1] eqn:E1.
  apply try_inv in E1 as [([] & -> & E1)|(e & w2 & E1 & Hh)].
  - apply save_inv in E1 as [[[=] _]|(_ & S1 & S0 & S2 & S3 & S4)].
    unfold mbind, M_bind in H. destruct (_emit_scope_drift_compensation _ _ _ _ _ w1) as [r2 w3] eqn:E2.
    apply compensation_inv in E2 as (-> & C1 & C2 & C3 & C4). injection H as <- <-.
    split; [by eexists|]. split; [by rewrite C3, S3, R3|]. exists w1. split_and!; [done..|].
    left. unfold rolled_back. rewrite C1, C2, S1, S2, R2, Hn. done.
  - apply save_inv in E1 as [[[= ->] [Hs Hq]]|([=] & _)].
    apply quiet_inv in Hs as (Q1 & Q2 & Q3 & Q4).
    unfold mbind in Hh. unfold M_bind at 1 in Hh. destruct (mark_recovery _ w2) as [r2 w3] eqn:E2.
    apply mark_inv in E2 as (-> & M1 & M2 & M3). unfold M_bind in Hh.
    destruct (_emit_scope_drift_compensation _ _ _ _ _ w3) as [r3 w4] eqn:E3.
    apply compensation_inv in E3 as (-> & C1 & C2 & C3 & C4). injection Hh as <- <-.
    injection H as <- <-. split; [by eexists|]. split; [by rewrite C3, M2, Q3, R3|].
    exists wr. split_and!; [done..|]. right. unfold grant_stands.
    rewrite C1, C2, M1, Q1, Q2, R1, R2. split_and!; [done..|].
    eexists w3, _. split_and!; [|by rewrite M1, Hq|by rewrite M3, Q4|done]. done.
Qed.

Definition drift_grant_outcome (clients : Clients) (tid cl : string) (extra : list string) (w : ApWorld)
  (r : exn + ScopeDriftApproval) (w' : ApWorld) : Prop :=
  w'.(aw_files) = w.(aw_files)
  ∧ match r with
    | inr res =>
        ∃ i t head, drift_target clients tid cl extra w i t head
          ∧ let t' := requeue_row (granted (sorted_set extra) head t) in
            saved i t' w w' ∧ t'.(status) = QueueItemStatus.PENDING ∧ t'.(stage) = Stage.IMPL
            ∧ appended (requeue_events (granted (sorted_set extra) head t)
                        ++ [mkEvent TICKET_APPROVED
                              (approval_payload tid cl Stage.IMPL Stage.IMPL (sorted_set extra)
                                 head) None]) w w'
    | inl e =>
        (quiet w w' ∧ w'.(aw_queue).(q_events) = w.(aw_queue).(q_events))
        ∨ e = OSError ∧ ∃ i t head, drift_target clients tid cl extra w i t head
            ∧ let t' := requeue_row (granted (sorted_set extra) head t) in
              (quiet w w' ∧ appended (requeue_events (granted (sorted_set extra) head t)) w w')
              ∨ ∃ written wr, inbox_fault TICKET_APPROVED = Some written
                  ∧ appended (requeue_events (granted (sorted_set extra) head t)
                       ++ if (written : bool) then
                            [mkEvent TICKET_APPROVED
                               (approval_payload tid cl Stage.IMPL Stage.IMPL
                                  (sorted_set extra) head) None] else []) w wr
                  ∧ (rolled_back w wr w' ∨ grant_stands i t' w wr w')
    end.

Lemma drift_grant_inv clients repr tid cl extra w r w' :
  _approve_scope_drift_locked clients repr tid cl extra w = (r, w') → drift_grant_outcome clients tid cl extra w r w'.
Proof.
  unfold drift_grant_outcome.
  unfold _approve_scope_drift_locked. intros H.
  unfold mbind at 1, M_bind at 1, on_q at 1, load_dev_queue, gets in H.
  assert (Hw : mkApWorld w.(aw_queue) w.(aw_files) w.(aw_marker) w.(aw_writes) = w)
    by (by destruct w).
  rewrite Hw in H. clear Hw. unfold mbind at 1, M_bind at 1 in H. unfold _resolve_approval_target in H.
  destruct (_find_ticket_at _ tid cl) as [[i t]|] eqn:Hf; cbn [of_sum] in H;
    [|injection H as <- <-; split; [done|by left]].
  unfold mret, M_ret in H.
  destruct (scope_drift_refused t (sorted_set extra)) eqn:Hr;
    [injection H as <- <-; split; [done|by left]|].
  apply drift_accepted in Hr as (Hs & Hg & Hb & Hne).
  destruct (clients !! cl) as [c|] eqn:Hc; [|injection H as <- <-; split; [done|by left]].
  destruct (branch_head_sha_on_origin _ c) as [head|] eqn:Hh;
    [|injection H as <- <-; split; [done|by left]].
  assert (Ht : drift_target clients tid cl extra w i t head) by (by exists c).
  clear Hf Hs Hb Hne Hc Hh. unfold mbind at 1, M_bind at 1 in H.
  destruct (on_q _ w) as [r1 w1] eqn:E1. unfold on_q, on_row in E1. rewrite grant_run in E1.
  injection E1 as <- <-.
  pose proof (requeued_row (granted (sorted_set extra) head t)) as [Hst Hsg].
  change (stage (granted (sorted_set extra) head t)) with (stage t) in Hsg. rewrite Hg in Hsg.
  cbn [w_task w_events w_ticks] in H. cbv zeta in H. rewrite Hsg, Hg in H.
  revert H. set (evs := requeue_events _).
  remember (requeue_row (granted (sorted_set extra) head t)) as t' eqn:Ht'.
  intros H. unfold mbind at 1, M_bind at 1 in H.
  destruct (save _ _) as [r2 w2] eqn:E2.
  apply save_inv in E2 as [[-> [(S1 & S2 & S3 & S4)%quiet_inv Sq]]|(-> & S1 & S0 & S2 & S3 & S4)].
  { injection H as <- <-. split; [exact S3|]. right. split; [done|]. exists i, t, head.
    split; [done|]. left. split.
    - unfold quiet, durable. by rewrite S1, S2, S3, S4.
    - split; [by rewrite Sq|exact S4]. }
  cbn in S0, S1, S2, S3, S4. unfold mbind at 1, M_bind at 1 in H.
  destruct (try_except _ _ w2) as [r3 w3] eqn:E3.
  apply try_inv in E3 as [([] & -> & E3)|(e & w4 & E3 & Hh)];
    apply record_inv in E3 as [Hq E3]; destruct (inbox_fault TICKET_APPROVED) as [wr|] eqn:Hi;
    destruct E3 as [Hx E3]; try discriminate.
  - injection H as <- <-. apply quiet_inv in Hq as (R1 & R2 & R3 & R4).
    split; [by rewrite R3|]. exists i, t, head. rewrite <- Ht'. split; [done|]. unfold saved.
    rewrite R1, R2, R4, S1, S2, S4. split_and!; [done..|]. unfold appended.
    rewrite E3, S0, R4, S4. by rewrite app_assoc.
  - injection Hx as ->.
    pose proof (quiet_inv _ _ Hq) as (R1 & R2 & R3 & R4).
    apply (audit_failed_inv i t' w w2 w4) in Hh as ((e & -> & ->) & F & wb & B1 & B2 & B3);
      [|by rewrite S1|by rewrite S2|done].
    injection H as <- <-. split; [by rewrite F, S3|]. right. split; [done|].
    exists i, t, head. rewrite <- Ht'. split; [done|]. right. exists wr, wb. split; [done|].
    split; [|done]. unfold appended. rewrite B1, B2, E3, S0, R4, S4. by rewrite app_assoc.
Qed.

(** C33: a scope-drift grant is audited or taken back.  A grant that returns
    turned exactly the found drift park into a pending IMPL row that carries
    the sorted files and the head they are bound to, in one save, and its
    approval event is in the inbox.  One that raises changed nothing durable,
    unless its approval event could not be recorded: then the old queue file
    was written back and the approval is corrected in the inbox (or, failing
    that, in the recovery marker); or the write-back failed as well, the grant
    stands, and the marker says so.  The row's own transition is in the inbox
    whenever the row was granted, also after it was taken back. *)
Theorem scope_drift_audited clients repr tid cl extra w r w' :
  _approve_scope_drift_locked clients repr tid cl extra w = (r, w') →
  w'.(aw_files) = w.(aw_files)
  ∧ match r with
    | inr res =>
        ∃ i t head, drift_target clients tid cl extra w i t head
          ∧ let t' := requeue_row (granted (sorted_set extra) head t) in
            saved i t' w w' ∧ t'.(status) = QueueItemStatus.PENDING ∧ t'.(stage) = Stage.IMPL
            ∧ appended (requeue_events (granted (sorted_set extra) head t)
                        ++ [mkEvent TICKET_APPROVED
                              (approval_payload tid cl Stage.IMPL Stage.IMPL (sorted_set extra)
                                 head) None]) w w'
    | inl e =>
        (quiet w w' ∧ w'.(aw_queue).(q_events) = w.(aw_queue).(q_events))
        ∨ e = OSError ∧ ∃ i t head, drift_target clients tid cl extra w i t head
            ∧ let t' := requeue_row (granted (sorted_set extra) head t) in
              (quiet w w' ∧ appended (requeue_events (granted (sorted_set extra) head t)) w w')
              ∨ ∃ written wr, inbox_fault TICKET_APPROVED = Some written
                  ∧ appended (requeue_events (granted (sorted_set extra) head t)
                       ++ if (written : bool) then
                            [mkEvent TICKET_APPROVED
                               (approval_payload tid cl Stage.IMPL Stage.IMPL
                                  (sorted_set extra) head) None] else []) w wr
                  ∧ (rolled_back w wr w' ∨ grant_stands i t' w wr w')
    end.
Proof. apply drift_grant_inv. Qed.

Lemma drift_cases clients repr tid cl extra w r w' :
  _approve_scope_drift_locked clients repr tid cl extra w = (r, w') →
  w'.(aw_queue).(q_store) = w.(aw_queue).(q_store)
  ∨ ∃ i t t', _find_ticket_at w.(aw_queue).(q_store) tid cl = Some (i, t)
      ∧ row_key t' = row_key t
      ∧ w'.(aw_queue).(q_store)
        = set_tasks (<[i := t']> w.(aw_queue).(q_store).(tasks)) w.(aw_queue).(q_store).
Proof.
  intros [_ H]%drift_grant_inv.
  assert (Hk : ∀ files head t, row_key (requeue_row (granted files head t)) = row_key t)
    by (intros; by rewrite (grants_key _ _ (grants_requeue _))).
  destruct r as [e|res].
  - destruct H as [[H _]|(_ & i & t & head & (c & Hf & _) & H)]; [left; by injection H|].
    destruct H as [[H _]|(wr & ws & _ & _ & [H|H])]; [left; by injection H|left; apply H|].
    right. eexists i, t, _. split; [done|]. split; [apply Hk|apply H].
  - destruct H as (i & t & head & (c & Hf & _) & H & _). right. eexists i, t, _.
    split; [done|]. split; [apply Hk|apply H].
Qed.
End Drift.
