(* ===== verification/ShippedRed.v ===== *)
(** * The red shipped pull request: [shipped_pr_signal.py],
      [shipped_pr_recovery.py], [dev_queue/shipped_red.py],
      [dev_queue/red_pr_recovery.py], [pr_unarm.py]

    The sweep that pages the operator once per episode of a shipped pull
    request whose required checks fail, and the recovery that disarms
    auto-merge and takes the row back to impl.  The reads of GitHub run
    outside any lock, the latches are stamped under the queue lock, the pages
    are recorded after it is released; [others] is what other processes do to
    the world at those points. *)

From stdpp Require Import sorting.
From S2P Require Import Prelude PyStr PyText GhReads Enums Tasks World Vocab RearmOwed Lifecycle Clients Crud LaneCircuit ReviewGates Requeue PlanFingerprint Approval.

#[local] Open Scope cw_scope.

Definition SHIPPED_PR_CHECKS_FAILED_REASON : string := "shipped_pr_checks_failed".
Definition SHIPPED_DISPOSITION : string := "shipped".
Definition RECHECK_SECONDS : Z := 900.
Definition UNREADABLE_BACKOFF_BASE_SECONDS : Z := 60.
Definition MAX_EVALUATIONS_PER_TICK : nat := 8.
Definition _MAX_BREADCRUMB_NAMES : nat := 5.
Definition _MAX_NAME_CHARS : nat := 80.
Definition _BACKOFF_MAX_DOUBLINGS : Z := 4.
Definition _FINGERPRINT_HEX_CHARS : nat := 16.

(** ** Check names *)

(** The code point of one UTF-8 character. *)
Definition char_code (w : string) : N :=
  match bytes_of w with
  | [a] => a
  | [a; b] => (a - 192) * 64 + (b - 128)
  | [a; b; c] => (a - 224) * 4096 + (b - 128) * 64 + (c - 128)
  | [a; b; c; d] => (a - 240) * 262144 + (b - 128) * 4096 + (c - 128) * 64 + (d - 128)
  | _ => 0
  end%N.

(** [f"{n:0{w}x}"] for an [n] of at most [w] digits. *)
Fixpoint hex_digits (w : nat) (n : N) : string :=
  match w with
  | O => EmptyString
  | S w' => hex_digits w' (n / 16)%N +:+ String (hex_digit (N.to_nat (n mod 16))) EmptyString
  end.

Definition unicode_escape (n : N) : string := "\u" +:+ hex_digits 4 n.

(** Categories Cc, Zl and Zp. *)
Definition is_escaped_category (n : N) : bool :=
  (n <? 32)%N || ((127 <=? n)%N && (n <? 160)%N) || (n =? 8232)%N || (n =? 8233)%N.

Definition _escape_char (w : string) : string :=
  let n := char_code w in
  if (n <=? 255)%N then "\x" +:+ hex_digits 2 n else unicode_escape n.

Definition escape_controls (text : string) : string :=
  str_concat (map (λ w, if is_escaped_category (char_code w) then _escape_char w else w)
                (chars text)).

(** One character of [json.dumps], which writes ASCII. *)
Definition json_char (w : string) : string :=
  match w with
  | String c EmptyString =>
      let n := N_of_ascii c in
      if Ascii.eqb c DQUOTE || Ascii.eqb c "\" then String "\" (String c EmptyString)
      else if (n =? 10)%N then "\n" else if (n =? 13)%N then "\r"
      else if (n =? 9)%N then "\t" else if (n =? 8)%N then "\b"
      else if (n =? 12)%N then "\f"
      else if ((32 <=? n) && (n <=? 126))%N then w else unicode_escape n
  | _ =>
      let n := char_code w in
      if (n <? 65536)%N then unicode_escape n
      else unicode_escape (55296 + (n - 65536) / 1024)%N
           +:+ unicode_escape (56320 + (n - 65536) mod 1024)%N
  end.

Definition json_dumps_str (s : string) : string :=
  String DQUOTE (str_concat (map json_char (chars s)) +:+ String DQUOTE EmptyString).

Definition json_dumps_strs (l : list string) : string :=
  "[" +:+ str_join ", " (map json_dumps_str l) +:+ "]".

Definition red_fingerprint (names : list string) : string :=
  cp_take _FINGERPRINT_HEX_CHARS (sha256_hex (json_dumps_strs (sorted_set names))).

Definition red_breadcrumbs {R : Redactor} (names : list string) : string :=
  let shown := map (λ n, json_dumps_str (cp_take _MAX_NAME_CHARS (redact (escape_controls n))))
                 (take _MAX_BREADCRUMB_NAMES names) in
  let extra := length names - _MAX_BREADCRUMB_NAMES in
  str_join ", " (shown ++ (if Nat.ltb 0 extra then ["+" +:+ str_of_nat extra +:+ " more"] else [])).

(** ** The latch *)

Definition is_shipped_red_candidate (t : TicketTask) : bool :=
  bool_decide (t.(status) = QueueItemStatus.COMPLETED)
  && opt_is t.(disposition) SHIPPED_DISPOSITION
  && opt_truthy t.(pr_url)
  && is_Some_b (parse_pr_url (default "" t.(pr_url)))
  && match t.(pr_state) with
     | Some s => String.eqb s.(prs_state) _GH_PR_STATE_OPEN && negb s.(prs_ci_ok)
     | None => false
     end.

Definition is_alerted (t : TicketTask) : bool :=
  match t.(shipped_red) with Some e => is_Some_b e.(sre_alerted_at) | None => false end.

Definition is_red_shipped_row (t : TicketTask) : bool :=
  bool_decide (t.(status) = QueueItemStatus.COMPLETED) && is_alerted t.

Definition unreadable_backoff_seconds (failures : Z) : Z :=
  let doublings := Z.min (Z.max (failures - 1) 0) _BACKOFF_MAX_DOUBLINGS in
  Z.min (Z.shiftl UNREADABLE_BACKOFF_BASE_SECONDS doublings) RECHECK_SECONDS.

Definition _hydrated_names (t : TicketTask) : list string :=
  match t.(pr_state) with Some s => s.(prs_failing_checks) | None => [] end.

Definition is_due (t : TicketTask) (at_ : Z) : bool :=
  match t.(shipped_red) with
  | None => true
  | Some latch =>
      let not_before_passed :=
        match latch.(sre_retry_not_before) with None => true | Some r => Z.leb r at_ end in
      if negb (String.eqb (red_fingerprint (_hydrated_names t)) latch.(sre_hydrated_fingerprint))
         && (Z.eqb latch.(sre_failures) 0 || not_before_passed) then true
      else if negb (is_Some_b latch.(sre_alerted_at)) then not_before_passed
      else Z.leb (latch.(sre_evaluated_at) + RECHECK_SECONDS * MICROS) at_
  end.

Definition episode_marker (head_sha : string) (alerted_at : Z) : string :=
  head_sha +:+ "@" +:+ isoformat alerted_at.

(** [eval_order_key]: no latch first, then the oldest evaluation, then the
    ticket id; the sort is stable. *)
Definition eval_before (p q : nat * TicketTask) : Prop :=
  let tie :=
    (p.2.(ticket_id) ≠ q.2.(ticket_id) ∧ string_le p.2.(ticket_id) q.2.(ticket_id))
    ∨ (p.2.(ticket_id) = q.2.(ticket_id) ∧ p.1 ≤ q.1) in
  match sre_evaluated_at <$> p.2.(shipped_red), sre_evaluated_at <$> q.2.(shipped_red) with
  | None, Some _ => True
  | Some _, None => False
  | None, None => tie
  | Some x, Some y => (x < y)%Z ∨ (x = y ∧ tie)
  end.

#[export] Instance eval_before_dec : RelDecision eval_before.
Proof. intros p q. unfold eval_before. repeat case_match; apply _. Defined.

(** ** The sweep *)

Definition _RowKey : Type := string * string * string * Z.

Inductive _Kind := UNKNOWN | STAMP | ALERT | CONTINUING | REFRESH.

#[export] Instance kind_eq_dec : EqDecision _Kind.
Proof. solve_decision. Defined.

Record _Outcome := mkOutcome {
  o_kind : _Kind; o_key : _RowKey; o_hydrated : string; o_names : list string;
  o_head_sha : option string }.

Record _Page := mkPage {
  pg_ticket_id : string; pg_client : string; pg_lane : string; pg_session_id : string;
  pg_pr_url : string; pg_names : list string; pg_head_sha : string; pg_alerted_at : Z;
  pg_created_at : Z }.

Definition _key (t : TicketTask) : _RowKey :=
  (t.(client), t.(ticket_id), default "" t.(pr_url), t.(created_at)).

Definition key_url (k : _RowKey) : string := k.1.2.

Definition plain_outcome (k : _Kind) (key : _RowKey) (hydrated : string) : _Outcome :=
  mkOutcome k key hydrated [] None.

Definition _classify_required (required : option (list RequiredCheck)) (head_ : PrHead)
  (key : _RowKey) (hydrated : string) (same_head : bool) : _Outcome :=
  match required with
  | None => plain_outcome UNKNOWN key hydrated
  | Some [] => plain_outcome STAMP key hydrated
  | Some cs =>
      let kind := if same_head then REFRESH
                  else if head_.(auto_merge_armed) then ALERT else STAMP in
      mkOutcome kind key hydrated (map rc_name cs) (Some head_.(oid))
  end.

Section Evaluate.
Context {G : Gh}.

Definition _evaluate_alerted (latch : ShippedRedEpisode) (key : _RowKey) (hydrated : string)
  : _Outcome :=
  match fetch_pr_head (key_url key) with
  | None => plain_outcome UNKNOWN key hydrated
  | Some head_ =>
      if negb (String.eqb head_.(ph_state) _GH_PR_STATE_OPEN)
      then plain_outcome STAMP key hydrated
      else
        let same_head := bool_decide (latch.(sre_head_sha) = Some head_.(oid)) in
        if same_head && String.eqb hydrated latch.(sre_hydrated_fingerprint)
        then plain_outcome CONTINUING key hydrated
        else _classify_required (fetch_required_failing_checks (key_url key)) head_ key hydrated
               same_head
  end.

Definition _evaluate_fresh (key : _RowKey) (hydrated : string) : _Outcome :=
  match fetch_required_failing_checks (key_url key) with
  | None => plain_outcome UNKNOWN key hydrated
  | Some [] => plain_outcome STAMP key hydrated
  | Some cs =>
      match fetch_pr_head (key_url key) with
      | None => plain_outcome UNKNOWN key hydrated
      | Some head_ =>
          if negb (String.eqb head_.(ph_state) _GH_PR_STATE_OPEN)
          then plain_outcome STAMP key hydrated
          else if negb head_.(auto_merge_armed) then plain_outcome STAMP key hydrated
          else mkOutcome ALERT key hydrated (map rc_name cs) (Some head_.(oid))
      end
  end.

Definition _evaluate (t : TicketTask) : _Outcome :=
  let hydrated := red_fingerprint (_hydrated_names t) in
  match t.(shipped_red) with
  | Some latch => if is_Some_b latch.(sre_alerted_at)
                  then _evaluate_alerted latch (_key t) hydrated
                  else _evaluate_fresh (_key t) hydrated
  | None => _evaluate_fresh (_key t) hydrated
  end.
End Evaluate.

(** *** Stamping *)

Definition _find_row (store : DevQueueStore) (key : _RowKey) : option (nat * TicketTask) :=
  list_find (λ t, bool_decide (_key t = key)
                  && bool_decide (t.(status) = QueueItemStatus.COMPLETED) = true) store.(tasks).

Definition set_latch (e : option ShippedRedEpisode) (t : TicketTask) : TicketTask :=
  t <| shipped_red := e |>.

Definition _stamp_unknown (t : TicketTask) (o : _Outcome) (at_ : Z) : TicketTask :=
  let latch := default (mkShippedRedEpisode o.(o_hydrated) None [] None at_ None 0 None)
                 t.(shipped_red) in
  let failures := (latch.(sre_failures) + 1)%Z in
  set_latch (Some (mkShippedRedEpisode latch.(sre_hydrated_fingerprint) latch.(sre_fingerprint)
    latch.(sre_required_checks) latch.(sre_head_sha) at_ latch.(sre_alerted_at) failures
    (Some (at_ + unreadable_backoff_seconds failures * MICROS)%Z))) t.

Definition _apply_alert (t : TicketTask) (o : _Outcome) (at_ : Z) : TicketTask * _Page :=
  let head_ := default "" o.(o_head_sha) in
  (set_latch (Some (mkShippedRedEpisode o.(o_hydrated) (Some (red_fingerprint o.(o_names)))
     o.(o_names) (Some head_) at_ (Some at_) 0 None)) t,
   mkPage t.(ticket_id) t.(client) t.(lane) (default "" t.(session_id)) (key_url o.(o_key))
     o.(o_names) head_ at_ t.(created_at)).

Definition _apply_outcome (t : TicketTask) (o : _Outcome) (at_ : Z)
  : TicketTask * option _Page :=
  match o.(o_kind) with
  | UNKNOWN => (_stamp_unknown t o at_, None)
  | STAMP =>
      (set_latch (Some (mkShippedRedEpisode o.(o_hydrated) None [] None at_ None 0
         (Some (at_ + RECHECK_SECONDS * MICROS)%Z))) t, None)
  | ALERT => let '(t', p) := _apply_alert t o at_ in (t', Some p)
  | CONTINUING =>
      (match t.(shipped_red) with
       | Some l => set_latch (Some (mkShippedRedEpisode l.(sre_hydrated_fingerprint)
                     l.(sre_fingerprint) l.(sre_required_checks) l.(sre_head_sha) at_
                     l.(sre_alerted_at) 0 l.(sre_retry_not_before))) t
       | None => t
       end, None)
  | REFRESH =>
      (match t.(shipped_red) with
       | Some l => set_latch (Some (mkShippedRedEpisode o.(o_hydrated)
                     (Some (red_fingerprint o.(o_names))) o.(o_names) l.(sre_head_sha) at_
                     l.(sre_alerted_at) 0 None)) t
       | None => t
       end, None)
  end.

(** The locked write, over the rows: what is no longer a candidate is cleared,
    then the outcomes are applied in order. *)
Definition clear_one (store : DevQueueStore) (key : _RowKey) : option DevQueueStore :=
  match _find_row store key with
  | Some (i, t) =>
      if is_shipped_red_candidate t then None
      else Some (set_tasks (<[i := set_latch None t]> store.(tasks)) store)
  | None => None
  end.

Definition stamp_one (at_ : Z) (store : DevQueueStore) (o : _Outcome)
  : option (DevQueueStore * option _Page) :=
  match _find_row store o.(o_key) with
  | Some (i, t) =>
      if negb (bool_decide (fst <$> _find_ticket_at store t.(ticket_id) t.(client) = Some i))
         || negb (is_shipped_red_candidate t) then None
      else
        let '(t', p) := _apply_outcome t o at_ in
        Some (set_tasks (<[i := t']> store.(tasks)) store, p)
  | None => None
  end.

(** The store, whether it is dirty, and the pages so far. *)
Definition clear_all (store : DevQueueStore) (keys : list _RowKey) : DevQueueStore * bool :=
  fold_left (λ s k, match clear_one s.1 k with Some st => (st, true) | None => s end)
    keys (store, false).

Definition stamp_all (at_ : Z) (s : DevQueueStore * bool) (os : list _Outcome)
  : DevQueueStore * bool * list _Page :=
  fold_left (λ s o, match stamp_one at_ s.1.1 o with
                    | Some (st, p) => (st, true, s.2 ++ option_list p)
                    | None => s
                    end) os (s, []).

(** Recording a page may fail, with its line written or not. *)
Class PageFault := page_fault : _Page → option bool.

Section Sweep.
Context {C : Clock} {G : Gh} {A : ApproveEnv} {R : Redactor} {F : PageFault}.
Context (others : nat → M ApWorld unit).

Definition _write (outcomes : list _Outcome) (clear_keys : list _RowKey) (at_ : Z)
  : M ApWorld (list _Page) :=
  store ← on_q load_dev_queue;
  let '(store', dirty, pages) := stamp_all at_ (clear_all store clear_keys) outcomes in
  when dirty (save store') ;;
  mret pages.

Definition page_event (p : _Page) : event :=
  mkEvent SESSION_NEEDS_ATTENTION
    [("session_id", JStr p.(pg_session_id)); ("session_name", JStr "");
     ("client", JStr p.(pg_client)); ("ticket_id", JStr p.(pg_ticket_id));
     ("claude_session_id", JNull);
     ("paused_status", JStr SHIPPED_PR_CHECKS_FAILED_REASON);
     ("breadcrumbs", JStr (red_breadcrumbs p.(pg_names)));
     ("crashed", JBool false); ("lane", JStr p.(pg_lane));
     ("pr_url", JStr p.(pg_pr_url));
     ("failing_checks", JList (map JStr p.(pg_names)));
     ("head_sha", JStr p.(pg_head_sha));
     ("renotify_marker", JStr (episode_marker p.(pg_head_sha) p.(pg_alerted_at)))]
    (Some p.(pg_ticket_id)).

Definition _emit (p : _Page) : M ApWorld unit :=
  let append := on_q (q_record [page_event p]) in
  match page_fault p with
  | None => append
  | Some written => when written append ;; raise OSError
  end.

Definition page_key (p : _Page) : _RowKey :=
  (p.(pg_client), p.(pg_ticket_id), p.(pg_pr_url), p.(pg_created_at)).

(** The row still carries the episode the page announced. *)
Definition is_page_episode (p : _Page) (t : TicketTask) : bool :=
  match t.(shipped_red) with
  | Some l => bool_decide (l.(sre_alerted_at) = Some p.(pg_alerted_at))
              && bool_decide (l.(sre_head_sha) = Some p.(pg_head_sha))
  | None => false
  end.

Definition _rollback_unemitted_page (p : _Page) : M ApWorld unit :=
  store ← on_q load_dev_queue;
  match _find_row store (page_key p) with
  | Some (i, t) =>
      when (is_page_episode p t)
        (save (set_tasks (<[i := set_latch None t]> store.(tasks)) store))
  | None => mret tt
  end.

Fixpoint rollback_all (n : nat) (pages : list _Page) : M ApWorld unit :=
  match pages with
  | [] => mret tt
  | p :: ps => others n ;; _rollback_unemitted_page p ;; rollback_all (S n) ps
  end.

(** A page that cannot be recorded rolls back itself and every later one. *)
Fixpoint emit_all (n : nat) (pages : list _Page) : M ApWorld unit :=
  match pages with
  | [] => mret tt
  | p :: ps =>
      others n ;;
      try_except (_emit p) (λ e, rollback_all (S n) pages ;; raise e) ;;
      emit_all (S n) ps
  end.

Fixpoint uniq (seen l : list (string * string)) : list (string * string) :=
  match l with
  | [] => []
  | x :: l' => if bool_decide (x ∈ seen) then uniq seen l' else x :: uniq (x :: seen) l'
  end.

Definition current_rows (store : DevQueueStore) : list TicketTask :=
  omap (λ p, _find_ticket store p.1 p.2)
    (uniq [] (map (λ t, (t.(ticket_id), t.(client))) store.(tasks))).

Definition selected_rows (store : DevQueueStore) (at_ : Z) : list TicketTask :=
  take MAX_EVALUATIONS_PER_TICK
    (merge_sort eval_before
       (indexed (filter (λ t, is_shipped_red_candidate t && is_due t at_ = true)
                   (current_rows store)))).*2.

Definition stale_latch_keys (store : DevQueueStore) : list _RowKey :=
  map _key (filter (λ t, is_Some_b t.(shipped_red) && negb (is_shipped_red_candidate t) = true)
              store.(tasks)).

Definition a_now : M ApWorld Z := on_q q_now.

Definition scan_shipped_red_prs : M ApWorld unit :=
  at_ ← a_now;
  store ← on_q load_dev_queue;
  let clear_keys := stale_latch_keys store in
  let outcomes := map _evaluate (selected_rows store at_) in
  if bool_decide (outcomes = []) && bool_decide (clear_keys = []) then mret tt
  else
    others 0 ;;
    pages ← _write outcomes clear_keys at_;
    emit_all 1 pages.
End Sweep.

(** ** Recovery *)

Record UnarmOutcome := mkUnarmOutcome { uo_ok : bool; uo_was_armed : option bool }.

Record RedPrRecovery := mkRedPrRecovery {
  rp_pr_url : string; rp_repo : string; rp_pr_number : Z; rp_head_sha : string;
  rp_checks : list string; rp_feedback : ReviewFeedback; was_armed : bool;
  rp_stages : list StageT; rp_backend : string; rp_lane : string }.

(** The disarm command and what [gh] answers after it, and the report
    [cw.pr_feedback] writes ([None]: it raised). *)
Class RecoverEnv := {
  disarm_pr_auto_merge : string → option Z;
  gh_after_disarm : Gh;
  synthesize_pr_feedback : string → Z → option ReviewFeedback }.

(** The first refusal of a row, by its position in the list of checks. *)
Definition red_pr_refusal (t : TicketTask) (stages : list StageT) (backend : string)
  : option nat :=
  let checks :=
    [negb (bool_decide (t.(status) = QueueItemStatus.COMPLETED));
     negb (opt_is t.(disposition) SHIPPED_DISPOSITION);
     negb (opt_truthy t.(pr_url)) || negb (is_Some_b (parse_pr_url (default "" t.(pr_url))));
     negb (bool_decide (Stage.IMPL ∈ stages));
     negb (bool_decide (Stage.REVIEW ∈ stages));
     negb (String.eqb backend CLAUDE_NATIVE_BACKEND)] in
  fst <$> list_find (λ b : bool, b = true) checks.

(** The pull requests the disarm command was run on. *)
Definition Disarms : Type := list string.

Section Recover.
Context {C : Clock} {G : Gh} {E : OpsEnv} {V : RecoverEnv}.

Definition ensure_pr_unarmed (url : string) (head_ : option PrHead) : M Disarms UnarmOutcome :=
  match (match head_ with Some h => Some h | None => fetch_pr_head url end) with
  | None => mret (mkUnarmOutcome false None)
  | Some current =>
      if negb current.(auto_merge_armed) then mret (mkUnarmOutcome true (Some false))
      else
        modify (λ ds, ds ++ [url]) ;;
        mret match disarm_pr_auto_merge url with
             | None => mkUnarmOutcome false (Some true)
             | Some _ =>
                 match @fetch_pr_head gh_after_disarm url with
                 | None => mkUnarmOutcome false (Some true)
                 | Some after => mkUnarmOutcome (negb after.(auto_merge_armed)) (Some true)
                 end
             end
  end.

Definition _live_head_and_checks (url : string) : exn + PrHead * list string :=
  match fetch_pr_head url with
  | None => inl RequeueStateError
  | Some head_ =>
      if negb (String.eqb head_.(ph_state) _GH_PR_STATE_OPEN) then inl RequeueStateError
      else match fetch_required_failing_checks url with
           | None | Some [] => inl RequeueStateError
           | Some cs => inr (head_, map rc_name cs)
           end
  end.

Definition prepare_red_pr_recovery (t : TicketTask) (c : ClientConfig)
  : M Disarms RedPrRecovery :=
  let stages := resolve_pipeline_stages t c in
  let backend := resolve_executor_backend Stage.IMPL t c in
  if is_Some_b (red_pr_refusal t stages backend) then raise RequeueStateError
  else
    let url := default "" t.(pr_url) in
    match parse_pr_url url with
    | None => raise RequeueStateError
    | Some (repo, number) =>
        hc ← of_sum (_live_head_and_checks url);
        match synthesize_pr_feedback repo number with
        | None => raise RequeueStateError
        | Some feedback =>
            if negb (String.eqb feedback.(rf_reviewed_sha) hc.1.(oid))
            then raise RequeueStateError
            else
              outcome ← ensure_pr_unarmed url (Some hc.1);
              if negb outcome.(uo_ok) then raise RequeueStateError
              else mret (mkRedPrRecovery url repo number hc.1.(oid) hc.2 feedback
                           hc.1.(auto_merge_armed) stages backend t.(lane))
        end
    end.

(** The cause found under the lock. *)
Definition recovery_refused (t : TicketTask) (r : RedPrRecovery) : bool :=
  negb (bool_decide (t.(status) = QueueItemStatus.COMPLETED))
  || negb (opt_is t.(pr_url) r.(rp_pr_url))
  || negb (String.eqb t.(lane) r.(rp_lane))
  || is_Some_b (red_pr_refusal t r.(rp_stages) r.(rp_backend)).

Definition recovered_fields (r : RedPrRecovery) (t : TicketTask) : TicketTask :=
  t <| pr_url := Some r.(rp_pr_url) |> <| review_feedback := Some r.(rp_feedback) |>
    <| red_pr_recovery_sha := Some r.(rp_feedback).(rf_reviewed_sha) |> <| pr_state := None |>.

Definition recover_row (r : RedPrRecovery) : M World unit :=
  _stage_regress Stage.IMPL false ;;
  assign (recovered_fields r) ;;
  when r.(was_armed) (mark_auto_merge_rearm_owed r.(rp_pr_url) None ;; mret tt).

(** The refusal under the lock: the disarm already happened, so the obligation
    is kept when the row still references that pull request. *)
Definition recover_refusal (t : TicketTask) (r : RedPrRecovery) (i : nat) (store : DevQueueStore)
  : M QueueWorld RequeueResult :=
  m ← (if r.(was_armed) then with_row t (mark_auto_merge_rearm_owed r.(rp_pr_url) None)
       else mret (false, t));
  when m.1 (save_dev_queue (set_tasks (<[i := m.2]> store.(tasks)) store)) ;;
  raise RequeueStateError.

Definition recover_red_pr_ticket (sessions : list Session) (tid cl : string) (r : RedPrRecovery)
  : M QueueWorld RequeueResult :=
  of_sum (_refuse_if_live_session sessions tid cl ∅) ;;
  store ← load_dev_queue;
  match _find_ticket_at store tid cl with
  | None => raise (CwError "No dev-queue task found")
  | Some (i, t) =>
      if recovery_refused t r then recover_refusal t r i store
      else
        t' ← on_row t (recover_row r);
        save_dev_queue (set_tasks (<[i := t']> store.(tasks)) store) ;;
        mret (mkRequeueResult t.(stage) t'.(stage) t'.(ticket_id) t'.(client) true
                t'.(regress_attempts) false false false false false false 0 false None)
  end.
End Recover.
