(* ===== verification/ShippedRedProps.v ===== *)
(** * The red shipped pull request: what the sweep and the recovery promise

    Check names render inert; an open episode has its page; a page opens a
    fresh episode; the recovery disarms last and its obligation is kept. *)

From stdpp Require Import sorting.
From S2P Require Import Prelude PyStr PyText GhReads Enums Tasks World Vocab RearmOwed Lifecycle Clients Crud CrudProps PrHydrateProps LaneCircuit ReviewGates Requeue PlanFingerprint Approval ShippedRed.

#[local] Open Scope cw_scope.

(** ** Check names are inert *)

Definition is_printable (c : ascii) : bool :=
  let n := N_of_ascii c in ((32 <=? n) && (n <=? 126))%N.

(** Printable ASCII: no line break, no terminal control. *)
Definition printable (s : string) : Prop := str_forallb is_printable s = true.

Lemma str_forallb_cons p c s :
  str_forallb p (String c s) = true ↔ p c = true ∧ str_forallb p s = true.
Proof.
  unfold str_forallb. simpl. rewrite negb_orb, negb_involutive. apply andb_true_iff.
Qed.

Lemma printable_cons c s : printable (String c s) ↔ is_printable c = true ∧ printable s.
Proof. apply str_forallb_cons. Qed.

Lemma printable_app a b : printable a → printable b → printable (a +:+ b).
Proof.
  intros Ha Hb. induction a as [|c a IH]; [done|].
  apply printable_cons in Ha as [Hc Ha]. rewrite sapp_cons. apply printable_cons. auto.
Qed.

Lemma printable_concat ss : Forall printable ss → printable (str_concat ss).
Proof. induction 1; [done|]. by apply printable_app. Qed.

Lemma printable_join sep ss : printable sep → Forall printable ss → printable (str_join sep ss).
Proof.
  intros Hs. induction 1 as [|s [|s' ss] H Hss IH]; [done|done|].
  rewrite str_join_cons. apply printable_app; [done|]. by apply printable_app.
Qed.

Lemma printable_hex_digit n : n < 16 → is_printable (hex_digit n) = true.
Proof. intros H. do 16 (destruct n as [|n]; [by vm_compute|]). lia. Qed.

Lemma printable_hex w n : printable (hex_digits w n).
Proof.
  revert n. induction w as [|w IH]; intros n; [done|].
  apply printable_app; [apply IH|]. apply printable_cons. split; [|done].
  apply printable_hex_digit. pose proof (N.mod_lt n 16). lia.
Qed.

Lemma printable_unicode n : printable (unicode_escape n).
Proof. apply printable_app; [done|apply printable_hex]. Qed.

Lemma printable_json_char w : printable (json_char w).
Proof.
  unfold json_char. destruct w as [|c [|c' w]].
  - case_match; [apply printable_unicode|]. apply printable_app; apply printable_unicode.
  - case_match eqn:E.
    { apply orb_true_iff in E as [->%Ascii.eqb_eq | ->%Ascii.eqb_eq]; done. }
    do 5 (case_match; [done|]). case_match eqn:Hp; [|apply printable_unicode].
    apply printable_cons. split; [exact Hp|done].
  - case_match; [apply printable_unicode|]. apply printable_app; apply printable_unicode.
Qed.

Lemma printable_dumps s : printable (json_dumps_str s).
Proof.
  apply printable_cons. split; [done|]. apply printable_app; [|done].
  apply printable_concat, Forall_forall. intros x (w & -> & _)%list_elem_of_fmap.
  apply printable_json_char.
Qed.

Lemma printable_nat n : printable (str_of_nat n).
Proof.
  assert (H : ∀ d, str_forallb is_ascii_digit d = true → printable d).
  { induction d as [|c d IH]; [done|]. intros [Hc Hd]%str_forallb_cons.
    apply printable_cons. split; [|auto]. clear -Hc. revert Hc.
    destruct c as [[] [] [] [] [] [] [] []]; vm_compute; intros [=]; done. }
  apply H. replace (str_of_nat n) with (str_of_Z (Z.of_nat n)).
  - by apply str_of_Z_digits, Nat2Z.is_nonneg.
  - by destruct n.
Qed.

Section Breadcrumbs.
Context {R : Redactor}.

(** the check names of a page, which come from the pull request, render as
    one line of printable ASCII whatever they hold and whatever the redaction
    returns, with at most five of them shown. *)
Theorem breadcrumbs_are_inert names :
  printable (red_breadcrumbs names)
  ∧ ∃ shown, red_breadcrumbs names
             = str_join ", " (map json_dumps_str shown
                 ++ (if Nat.ltb 5 (length names)
                     then ["+" +:+ str_of_nat (length names - 5) +:+ " more"] else []))
    ∧ length shown = Nat.min 5 (length names).
Proof.
  assert (Hlt : Nat.ltb 0 (length names - 5) = Nat.ltb 5 (length names))
    by (destruct (Nat.ltb_spec 5 (length names)), (Nat.ltb_spec 0 (length names - 5)); lia || done).
  split.
  - apply printable_join; [done|]. apply Forall_app. split.
    + apply Forall_forall. intros x (n & -> & _)%list_elem_of_fmap. apply printable_dumps.
    + case_match; [|done]. apply Forall_singleton.
      apply printable_app; [done|]. apply printable_app; [apply printable_nat|done].
  - exists (map (λ n, cp_take _MAX_NAME_CHARS (redact (escape_controls n))) (take 5 names)).
    split; [|by rewrite length_map, length_take].
    unfold red_breadcrumbs. cbv zeta. unfold _MAX_BREADCRUMB_NAMES. by rewrite Hlt, map_map.
Qed.
End Breadcrumbs.

(** ** Every open episode has its page *)

(** The page that announced the row's open episode. *)
Definition announces (p : _Page) (t : TicketTask) : Prop :=
  page_key p = _key t ∧ is_page_episode p t = true.

(** Rows have distinct keys, and only shipped rows carry an open episode. *)
Definition sane (store : DevQueueStore) : Prop :=
  NoDup (_key <$> store.(tasks))
  ∧ ∀ t, t ∈ store.(tasks) → is_alerted t = true → t.(status) = QueueItemStatus.COMPLETED.

Lemma announces_latch p t t' :
  _key t' = _key t → t'.(shipped_red) = t.(shipped_red) → announces p t → announces p t'.
Proof. unfold announces, is_page_episode. by intros -> ->. Qed.

Lemma NoDup_map_inj {A B} (f : A → B) (l : list A) x y :
  NoDup (f <$> l) → x ∈ l → y ∈ l → f x = f y → x = y.
Proof.
  intros Hn (i & Hi)%list_elem_of_lookup (j & Hj)%list_elem_of_lookup Hf.
  assert (i = j) as <-; [|congruence].
  eapply (NoDup_lookup _ i j (f x) Hn); rewrite list_lookup_fmap.
  - by rewrite Hi.
  - by rewrite Hj, Hf.
Qed.

Lemma map_key_update (l : list TicketTask) (i : nat) t t' :
  l !! i = Some t → _key t' = _key t → _key <$> (<[i := t']> l) = _key <$> l.
Proof.
  intros Hi Hk. rewrite list_fmap_insert, Hk. apply list_insert_id. by rewrite list_lookup_fmap, Hi.
Qed.

Lemma find_row_lookup store k i t :
  _find_row store k = Some (i, t) →
  store.(tasks) !! i = Some t ∧ _key t = k ∧ t.(status) = QueueItemStatus.COMPLETED.
Proof.
  intros (Hi & [Hk Hs]%andb_true_iff & _)%list_find_Some.
  split; [done|]. split; by eapply bool_decide_eq_true_1.
Qed.

Lemma find_row_complete store t :
  NoDup (_key <$> store.(tasks)) → t ∈ store.(tasks) →
  t.(status) = QueueItemStatus.COMPLETED → ∃ i, _find_row store (_key t) = Some (i, t).
Proof.
  intros Hn Ht Hs. destruct (_find_row store (_key t)) as [[i u]|] eqn:E.
  - exists i. apply find_row_lookup in E as (Hi & Hk & _).
    by rewrite (NoDup_map_inj _key _ u t Hn (list_elem_of_lookup_2 _ _ _ Hi) Ht Hk).
  - exfalso. unfold _find_row in E. apply list_find_None in E.
    apply (proj1 (Forall_forall _ _) E t Ht).
    apply andb_true_iff; split; by apply bool_decide_eq_true_2.
Qed.

(** A row of an updated list is the new one or an old one of another index. *)
Lemma elem_of_update {A} (l : list A) i x y z :
  l !! i = Some x → z ∈ <[i := y]> l → z = y ∨ ∃ j, j ≠ i ∧ l !! j = Some z.
Proof.
  intros Hi (j & Hj)%list_elem_of_lookup. destruct (decide (j = i)) as [->|Hne].
  - left. rewrite list_lookup_insert_eq in Hj by (by eapply lookup_lt_Some). congruence.
  - right. exists j. rewrite list_lookup_insert_ne in Hj by done. auto.
Qed.

Section Coverage.
Context {C : Clock} {G : Gh} {A : ApproveEnv} {R : Redactor} {F : PageFault}.

(** The open episode of [t] has its recorded page, or one still to record. *)
Definition covered (evs : list event) (ps : list _Page) (t : TicketTask) : Prop :=
  (∃ p, page_event p ∈ evs ∧ announces p t) ∨ ∃ p, p ∈ ps ∧ announces p t.

Definition all_covered (evs : list event) (ps : list _Page) (store : DevQueueStore) : Prop :=
  sane store ∧ ∀ t, t ∈ store.(tasks) → is_alerted t = true → covered evs ps t.

(** What one outcome does to the open episode of its row. *)
Lemma apply_outcome_episode t o at_ t' po :
  _apply_outcome t o at_ = (t', po) → o.(o_key) = _key t →
  _key t' = _key t ∧ t'.(status) = t.(status)
  ∧ (is_alerted t' = true →
     (∃ p, po = Some p ∧ announces p t')
     ∨ (is_alerted t = true ∧ ∀ p, announces p t → announces p t')).
Proof.
  intros H Hk. unfold _apply_outcome in H. destruct o as [k key hyd names oh].
  cbn [o_kind o_key o_hydrated o_names o_head_sha] in *. subst key.
  destruct k.
  - injection H as <- <-. split; [done|]. split; [done|]. intros Ha. right.
    unfold is_alerted, _stamp_unknown, announces, is_page_episode in *.
    cbn [shipped_red set_latch] in *. by destruct (shipped_red t).
  - by injection H as <- <-.
  - injection H as <- <-. split; [done|]. split; [done|]. intros _. left. eexists.
    split; [done|]. split; [done|]. unfold is_page_episode. cbn.
    by rewrite !bool_decide_eq_true_2.
  - injection H as <- <-. destruct (shipped_red t) as [l|] eqn:E.
    + split; [done|]. split; [done|]. intros Ha. right.
      unfold is_alerted, announces, is_page_episode in *. by rewrite E.
    + split; [done|]. split; [done|]. intros Ha. right. auto.
  - injection H as <- <-. destruct (shipped_red t) as [l|] eqn:E.
    + split; [done|]. split; [done|]. intros Ha. right.
      unfold is_alerted, announces, is_page_episode in *. by rewrite E.
    + split; [done|]. split; [done|]. intros Ha. right. auto.
Qed.

(** Writing a latch on the row found for a key keeps the coverage. *)
Lemma covered_update evs ps ps' store i t t' :
  all_covered evs ps store → store.(tasks) !! i = Some t →
  t.(status) = QueueItemStatus.COMPLETED → _key t' = _key t → t'.(status) = t.(status) →
  (∀ p, p ∈ ps → p ∈ ps') → (is_alerted t' = true → covered evs ps' t') →
  all_covered evs ps' (set_tasks (<[i := t']> store.(tasks)) store).
Proof.
  intros [[Hn Hc] Hcov] Hi Hs Hk Hst Hps Ht'. split; [split|]; cbn [tasks set_tasks].
  - by rewrite (map_key_update _ _ t).
  - intros u Hu Ha. destruct (elem_of_update _ _ _ _ _ Hi Hu) as [->|(j & _ & Hj)].
    + congruence.
    + apply Hc; [by eapply list_elem_of_lookup_2|done].
  - intros u Hu Ha. destruct (elem_of_update _ _ _ _ _ Hi Hu) as [->|(j & _ & Hj)]; [auto|].
    destruct (Hcov u (list_elem_of_lookup_2 _ _ _ Hj) Ha) as [?|(p & Hp & ?)]; [by left|].
    right. eauto.
Qed.

Lemma covered_clear evs ps store key :
  all_covered evs ps store →
  match clear_one store key with Some st => all_covered evs ps st | None => True end.
Proof.
  intros H. unfold clear_one. destruct (_find_row _ _) as [[i t]|] eqn:E; [|done].
  apply find_row_lookup in E as (Hi & _ & Hs).
  destruct (is_shipped_red_candidate t); [done|]. eapply covered_update; eauto. done.
Qed.

Lemma covered_stamp evs ps store at_ o :
  all_covered evs ps store →
  match stamp_one at_ store o with
  | Some (st, po) => all_covered evs (ps ++ option_list po) st
  | None => True
  end.
Proof.
  intros H. unfold stamp_one. destruct (_find_row _ _) as [[i t]|] eqn:E; [|done].
  apply find_row_lookup in E as (Hi & Hk & Hs).
  destruct (_ || _); [done|].
  destruct (_apply_outcome t o at_) as [t' po] eqn:Ho.
  destruct (apply_outcome_episode _ _ _ _ _ Ho (eq_sym Hk)) as (Hk' & Hst & Ha).
  eapply covered_update; [done|done|done|done|done| |].
  - intros p Hp. apply elem_of_app. by left.
  - intros Ht'. destruct (Ha Ht') as [(p & -> & Hp)|[Ht Hp]].
    + right. exists p. split; [|done]. apply elem_of_app. right. by apply list_elem_of_singleton.
    + destruct H as [_ Hcov].
      destruct (Hcov t (list_elem_of_lookup_2 _ _ _ Hi) Ht) as [(p & ? & ?)|(p & ? & ?)].
      * left. eauto.
      * right. exists p. split; [apply elem_of_app; by left|auto].
Qed.

Lemma covered_clear_all evs ps store keys :
  all_covered evs ps store → all_covered evs ps (clear_all store keys).1.
Proof.
  unfold clear_all. generalize false. revert store. induction keys as [|k keys IH]; [done|].
  intros store b H. cbn [fold_left fst]. pose proof (covered_clear evs ps store k H) as Hc.
  destruct (clear_one store k) as [st|]; by apply IH.
Qed.

Lemma covered_stamp_all evs at_ s b os :
  all_covered evs [] s →
  let r := stamp_all at_ (s, b) os in all_covered evs r.2 r.1.1.
Proof.
  unfold stamp_all. change ([] : list _Page) with ((s, b, [] : list _Page).2) at 1.
  change s with ((s, b, [] : list _Page).1.1) at 2. generalize (s, b, [] : list _Page).
  clear. induction os as [|o os IH]; intros [[s b] ps]; [done|].
  cbn [fst snd]. intros H. cbn [fold_left fst snd].
  pose proof (covered_stamp evs ps s at_ o H) as Hc.
  destruct (stamp_one at_ s o) as [[st po]|]; by apply IH.
Qed.
End Coverage.

(** *** One tick, with other processes in between *)

Definition aw_rows (w : ApWorld) : list TicketTask := w.(aw_queue).(q_store).(tasks).
Definition aw_events (w : ApWorld) : list event := w.(aw_queue).(q_events).

(** The rest of the program between two locks: it may end an episode, never
    start one, and never drops an event. *)
Definition kept (w w' : ApWorld) : Prop :=
  NoDup (_key <$> aw_rows w')
  ∧ (∀ t', t' ∈ aw_rows w' → is_alerted t' = true →
       t'.(status) = QueueItemStatus.COMPLETED
       ∧ ∃ t, t ∈ aw_rows w ∧ _key t = _key t' ∧ t.(shipped_red) = t'.(shipped_red))
  ∧ ∀ ev, ev ∈ aw_events w → ev ∈ aw_events w'.

Definition benign (m : M ApWorld unit) : Prop :=
  ∀ w, sane w.(aw_queue).(q_store) → ∃ w', m w = (inr tt, w') ∧ kept w w'.

(** Doing nothing is benign. *)
Lemma idle_benign : benign (mret tt).
Proof.
  intros w [Hn Hs]. exists w. split; [done|]. split_and!; [done| |done].
  intros t Ht Ha. split; [by apply Hs|]. by exists t.
Qed.

Lemma exec_seq {S B} (m : M S unit) (k : M S B) w w' :
  m w = (inr tt, w') → exec (m ;; k) w = exec k w'.
Proof. unfold exec, mbind, M_bind. by intros ->. Qed.

Lemma exec_raised {S A B} (m : M S A) (k : A → M S B) e w w' :
  m w = (inl e, w') → exec (m ≫= k) w = w'.
Proof. unfold exec, mbind, M_bind. by intros ->. Qed.

Section Tick.
Context {C : Clock} {G : Gh} {A : ApproveEnv} {R : Redactor} {F : PageFault}.
Context (no_fault : ∀ n, write_fault n = false).

Definition episodes_covered (w : ApWorld) (ps : list _Page) : Prop :=
  all_covered (aw_events w) ps w.(aw_queue).(q_store).

Lemma kept_covered w w' ps : kept w w' → episodes_covered w ps → episodes_covered w' ps.
Proof.
  intros (Hn & Hrows & Hev) [_ Hcov]. split; [split; [done|]|].
  - intros t Ht Ha. by apply (Hrows t Ht Ha).
  - intros t' Ht' Ha. destruct (Hrows t' Ht' Ha) as (_ & t & Ht & Hk & Hl).
    assert (Ha' : is_alerted t = true) by (unfold is_alerted in *; by rewrite Hl).
    destruct (Hcov t Ht Ha') as [(p & Hp & Hx)|(p & Hp & Hx)]; [left|right]; exists p;
      (split; [auto|]); by eapply announces_latch.
Qed.

Lemma save_run store w :
  save store w
  = (inr tt, mkApWorld (mkQueueWorld store (aw_events w) w.(aw_queue).(q_ticks)
                          (S w.(aw_queue).(q_saves)))
               w.(aw_files) w.(aw_marker) (S w.(aw_writes))).
Proof.
  destruct w as [q f m n]. unfold save, write, mbind, M_bind, gets, modify. cbn.
  by rewrite no_fault.
Qed.

Lemma rollback_step p ps w :
  episodes_covered w (p :: ps) →
  ∃ w', _rollback_unemitted_page p w = (inr tt, w') ∧ episodes_covered w' ps.
Proof.
  intros [[Hn Hc] Hcov]. set (store := w.(aw_queue).(q_store)) in *.
  replace (_rollback_unemitted_page p w) with
    (match _find_row store (page_key p) with
     | Some (i, t) =>
         when (is_page_episode p t) (save (set_tasks (<[i := set_latch None t]> store.(tasks)) store))
     | None => mret tt
     end w) by (subst store; by destruct w as [[] ? ? ?]).
  assert (Hother : ∀ u, u ∈ store.(tasks) → is_alerted u = true → announces p u →
            ∃ i, _find_row store (page_key p) = Some (i, u)).
  { intros u Hu Ha [Hk _]. rewrite Hk. apply find_row_complete; auto. }
  destruct (_find_row store (page_key p)) as [[i t]|] eqn:E.
  - apply find_row_lookup in E as (Hi & Hk & Hs).
    destruct (is_page_episode p t) eqn:Hp; cbn [when].
    + rewrite save_run. eexists. split; [done|].
      split; [split|]; cbn [aw_queue q_store tasks set_tasks].
      * by rewrite (map_key_update _ _ t).
      * intros u Hu Ha. destruct (elem_of_update _ _ _ _ _ Hi Hu) as [->|(j & _ & Hj)]; [done|].
        apply Hc; [by eapply list_elem_of_lookup_2|done].
      * intros u Hu Ha. destruct (elem_of_update _ _ _ _ _ Hi Hu) as [->|(j & Hne & Hj)]; [done|].
        assert (Hin := list_elem_of_lookup_2 _ _ _ Hj).
        destruct (Hcov u Hin Ha) as [?|(q & Hq & Hx)]; [by left|].
        apply elem_of_cons in Hq as [->|Hq]; [exfalso|right; eauto].
        destruct (Hother u Hin Ha Hx) as (k & Hku). injection Hku as <- <-.
        apply Hne. eapply (NoDup_lookup _ j i (_key t) Hn); by rewrite list_lookup_fmap, ?Hi, ?Hj.
    + exists w. split; [done|]. split; [done|]. intros u Hu Ha.
      destruct (Hcov u Hu Ha) as [?|(q & Hq & Hx)]; [by left|].
      apply elem_of_cons in Hq as [->|Hq]; [exfalso|right; eauto].
      destruct (Hother u Hu Ha Hx) as (k & Hku). destruct Hx as [_ Hx].
      injection Hku as <- <-. congruence.
  - exists w. split; [done|]. split; [done|]. intros u Hu Ha.
    destruct (Hcov u Hu Ha) as [?|(q & Hq & Hx)]; [by left|].
    apply elem_of_cons in Hq as [->|Hq]; [exfalso|right; eauto].
    by destruct (Hother u Hu Ha Hx) as (k & Hku).
Qed.

Context (others : nat → M ApWorld unit) (Hothers : ∀ n, benign (others n)).

Lemma rollback_all_covered n ps w :
  episodes_covered w ps →
  ∃ w', rollback_all others n ps w = (inr tt, w') ∧ episodes_covered w' [].
Proof.
  revert n w. induction ps as [|p ps IH]; intros n w H; [by exists w|].
  cbn [rollback_all]. destruct (Hothers n w (proj1 H)) as (w1 & H1 & Hk).
  destruct (rollback_step p ps w1 (kept_covered _ _ _ Hk H)) as (w2 & H2 & Hc).
  destruct (IH (S n) w2 Hc) as (w3 & H3 & Hc3). exists w3. split; [|done].
  unfold mbind, M_bind. by rewrite H1, H2.
Qed.

Lemma emit_covered p ps w :
  episodes_covered w (p :: ps) →
  match _emit p w with
  | (inr _, w') => episodes_covered w' ps
  | (inl _, w') => episodes_covered w' (p :: ps)
  end.
Proof.
  intros [Hs Hcov]. destruct w as [[st evs tk sv] fs mk n]. unfold _emit.
  destruct (page_fault p) as [[]|]; cbn.
  - split; [done|]. intros t Ht Ha.
    destruct (Hcov t Ht Ha) as [(q & Hq & ?)|(q & Hq & ?)]; [left|right]; exists q;
      (split; [|done]); [apply elem_of_app; by left|done].
  - by split.
  - split; [done|]. intros t Ht Ha. unfold aw_events in *. cbn in *.
    destruct (Hcov t Ht Ha) as [(q & Hq & ?)|(q & Hq & ?)].
    + left. exists q. split; [apply elem_of_app; by left|done].
    + apply elem_of_cons in Hq as [->|Hq]; [|right; eauto].
      left. exists p. split; [apply elem_of_app; right; by apply list_elem_of_singleton|done].
Qed.

Lemma emit_all_covered n ps w :
  episodes_covered w ps → episodes_covered (exec (emit_all others n ps) w) [].
Proof.
  revert n w. induction ps as [|p ps IH]; intros n w H; [done|].
  cbn [emit_all]. destruct (Hothers n w (proj1 H)) as (w1 & H1 & Hk). rewrite (exec_seq _ _ _ _ H1).
  pose proof (emit_covered p ps w1 (kept_covered _ _ _ Hk H)) as He.
  destruct (_emit p w1) as [[e|[]] w2] eqn:E.
  - destruct (rollback_all_covered (S n) (p :: ps) w2 He) as (w3 & H3 & Hc).
    erewrite exec_raised; [exact Hc|]. unfold try_except. rewrite E.
    unfold mbind, M_bind. by rewrite H3.
  - rewrite (exec_seq _ _ w1 w2); [by apply IH|]. unfold try_except. by rewrite E.
Qed.
End Tick.

(** *** The whole tick *)

Lemma clear_all_clean store keys st : clear_all store keys = (st, false) → st = store.
Proof.
  unfold clear_all. assert (H : ∀ s, (fold_left (λ s k, match clear_one s.1 k with
    | Some st => (st, true) | None => s end) keys s).2 = false →
    fold_left (λ s k, match clear_one s.1 k with
    | Some st => (st, true) | None => s end) keys s = s).
  { induction keys as [|k keys IH]; intros s Hs; [done|]. cbn [fold_left] in *.
    destruct (clear_one s.1 k) as [st'|]; [|by apply IH].
    pose proof (IH _ Hs) as Hx. rewrite Hx in Hs. done. }
  intros Hf. specialize (H (store, false)). rewrite Hf in H. specialize (H eq_refl). congruence.
Qed.

Lemma stamp_all_clean at_ s os st ps :
  stamp_all at_ s os = (st, false, ps) → s = (st, false) ∧ ps = [].
Proof.
  unfold stamp_all. assert (H : ∀ x, (fold_left (λ s o, match stamp_one at_ s.1.1 o with
    | Some (st, p) => (st, true, s.2 ++ option_list p) | None => s end) os x).1.2 = false →
    fold_left (λ s o, match stamp_one at_ s.1.1 o with
    | Some (st, p) => (st, true, s.2 ++ option_list p) | None => s end) os x = x).
  { induction os as [|o os IH]; intros x Hx; [done|]. cbn [fold_left] in *.
    destruct (stamp_one at_ x.1.1 o) as [[st' po]|]; [|by apply IH].
    pose proof (IH _ Hx) as Hy. rewrite Hy in Hx. done. }
  intros Hf. specialize (H (s, [])). rewrite Hf in H. specialize (H eq_refl).
  injection H as <- <-. done.
Qed.

Section Scan.
Context {C : Clock} {G : Gh} {A : ApproveEnv} {R : Redactor} {F : PageFault}.
Context (no_fault : ∀ n, write_fault n = false).
Context (others : nat → M ApWorld unit) (Hothers : ∀ n, benign (others n)).

(** Each open episode of the queue has its page in the inbox. *)
Definition every_episode_paged (w : ApWorld) : Prop :=
  sane w.(aw_queue).(q_store)
  ∧ ∀ t, t ∈ aw_rows w → is_alerted t = true → ∃ p, page_event p ∈ aw_events w ∧ announces p t.

Lemma paged_covered w : every_episode_paged w ↔ episodes_covered w [].
Proof.
  unfold every_episode_paged, episodes_covered, all_covered, covered, aw_rows.
  split; intros [Hs H]; (split; [done|]); intros t Ht Ha; [left; auto|].
  destruct (H t Ht Ha) as [?|(p & []%not_elem_of_nil & _)]. done.
Qed.

Lemma write_covered os keys at_ w :
  episodes_covered w [] →
  ∃ w' ps, _write os keys at_ w = (inr ps, w') ∧ episodes_covered w' ps.
Proof.
  intros H. set (store := w.(aw_queue).(q_store)).
  destruct (stamp_all at_ (clear_all store keys) os) as [[st dirty] ps] eqn:E.
  assert (Hc : all_covered (aw_events w) ps st).
  { destruct (clear_all store keys) as [s b] eqn:Ec.
    pose proof (covered_clear_all (aw_events w) [] store keys H) as H1. rewrite Ec in H1.
    pose proof (covered_stamp_all (aw_events w) at_ s b os H1) as H2. cbv zeta in H2.
    by rewrite E in H2. }
  assert (Hrun : _write os keys at_ w = ((when dirty (save st) ;; mret ps) w)).
  { unfold _write. subst store. destruct w as [[] ? ? ?]. unfold mbind, M_bind, on_q, gets.
    cbn in *. by rewrite E. }
  rewrite Hrun. destruct dirty; cbn [when]; unfold mbind, M_bind.
  - rewrite (save_run no_fault). eexists _, ps. split; [done|]. exact Hc.
  - exists w, ps. split; [done|]. apply stamp_all_clean in E as [E ->].
    apply clear_all_clean in E. by subst st.
Qed.

(** C34: an open episode always has its page.  If every row with an open episode
    has its page in the inbox, the same holds after a tick of the sweep, on
    every path: whatever [gh] answers, whichever page fails to be recorded
    (with its line written or not), and whatever the rest of the program does
    between the locks, provided it opens no episode and drops no event and the
    queue file can be written.  So an episode that suppresses later pages was
    announced. *)
Theorem open_episode_has_its_page w :
  every_episode_paged w → every_episode_paged (exec (scan_shipped_red_prs others) w).
Proof.
  intros H%paged_covered. apply paged_covered.
  destruct w as [[st evs tk sv] fs mk n]. unfold scan_shipped_red_prs, a_now.
  set (w1 := mkApWorld (mkQueueWorld st evs (S tk) sv) fs mk n).
  assert (H1 : episodes_covered w1 []) by exact H.
  set (body := λ at_ store, if bool_decide (map _evaluate (selected_rows store at_) = [])
                 && bool_decide (stale_latch_keys store = []) then mret tt
              else others 0 ;;
                pages ← _write (map _evaluate (selected_rows store at_)) (stale_latch_keys store) at_;
                emit_all others 1 pages).
  change (episodes_covered (exec (body (clock_at tk) st) w1) []).
  unfold body. case_match; [exact H1|].
  destruct (Hothers 0 w1 (proj1 H1)) as (w2 & H2 & Hk). rewrite (exec_seq _ _ _ _ H2).
  destruct (write_covered (map _evaluate (selected_rows st (clock_at tk))) (stale_latch_keys st)
              (clock_at tk) w2 (kept_covered _ _ _ Hk H1)) as (w3 & ps & H3 & Hc).
  replace (exec _ w2) with (exec (emit_all others 1 ps) w3)
    by (unfold exec, mbind, M_bind; by rewrite H3).
  by apply emit_all_covered.
Qed.
End Scan.

(** ** The budget and its order *)

#[export] Instance string_le_total : Total string_le.
Proof.
  intros a b. unfold string_le. rewrite (String.compare_antisym a b).
  destruct (String.compare b a); cbn; [left|right|left]; discriminate.
Qed.

Lemma string_le_cons c d a b :
  string_le (String c a) (String d b)
  ↔ (N_of_ascii c < N_of_ascii d)%N ∨ (c = d ∧ string_le a b).
Proof.
  unfold string_le. cbn. unfold Ascii.compare.
  destruct (N.compare_spec (N_of_ascii c) (N_of_ascii d)) as [E|E|E].
  - assert (c = d) as -> by (rewrite <- (ascii_N_embedding c), E; apply ascii_N_embedding).
    split; [by right|]. intros [?|[_ ?]]; [lia|done].
  - split; [by left|done].
  - split; [done|]. intros [?|[-> _]]; lia.
Qed.

#[export] Instance string_le_trans : Transitive string_le.
Proof.
  intros a. induction a as [|c a IH]; intros [|d b] [|e f] H1 H2;
    try discriminate; try (by destruct H1); try (by destruct H2).
  apply string_le_cons in H1, H2. apply string_le_cons.
  destruct H1 as [?|[-> ?]], H2 as [?|[-> ?]]; [left; lia|by left|by left|]. right. eauto.
Qed.

Lemma string_le_antisym a b : string_le a b → string_le b a → a = b.
Proof.
  revert b. induction a as [|c a IH]; intros [|d b] H1 H2;
    try done; try (by destruct H1); try (by destruct H2).
  apply string_le_cons in H1, H2.
  destruct H1 as [?|[-> ?]], H2 as [?|[? ?]]; subst; try lia. by rewrite (IH b).
Qed.

#[export] Instance eval_before_total : Total eval_before.
Proof.
  intros p q. unfold eval_before.
  assert (Htie : ∀ x y : nat * TicketTask,
    (x.2.(ticket_id) ≠ y.2.(ticket_id) ∧ string_le x.2.(ticket_id) y.2.(ticket_id)
     ∨ x.2.(ticket_id) = y.2.(ticket_id) ∧ x.1 ≤ y.1)
    ∨ (y.2.(ticket_id) ≠ x.2.(ticket_id) ∧ string_le y.2.(ticket_id) x.2.(ticket_id)
       ∨ y.2.(ticket_id) = x.2.(ticket_id) ∧ y.1 ≤ x.1)).
  { intros x y. destruct (decide (x.2.(ticket_id) = y.2.(ticket_id))) as [E|E].
    - destruct (Nat.le_ge_cases x.1 y.1); [left|right]; right; auto.
    - destruct (string_le_total x.2.(ticket_id) y.2.(ticket_id)); [left|right]; left; auto. }
  specialize (Htie p q).
  destruct (sre_evaluated_at <$> _) as [x|], (sre_evaluated_at <$> _) as [y|]; auto.
  destruct (Z.lt_trichotomy x y) as [?|[->|?]]; [by left; left| |by right; left].
  destruct Htie; [left|right]; right; auto.
Qed.

#[export] Instance eval_before_trans : Transitive eval_before.
Proof.
  intros p q r. unfold eval_before.
  assert (Htie :
    (p.2.(ticket_id) ≠ q.2.(ticket_id) ∧ string_le p.2.(ticket_id) q.2.(ticket_id)
     ∨ p.2.(ticket_id) = q.2.(ticket_id) ∧ p.1 ≤ q.1) →
    (q.2.(ticket_id) ≠ r.2.(ticket_id) ∧ string_le q.2.(ticket_id) r.2.(ticket_id)
     ∨ q.2.(ticket_id) = r.2.(ticket_id) ∧ q.1 ≤ r.1) →
    (p.2.(ticket_id) ≠ r.2.(ticket_id) ∧ string_le p.2.(ticket_id) r.2.(ticket_id)
     ∨ p.2.(ticket_id) = r.2.(ticket_id) ∧ p.1 ≤ r.1)).
  { intros [[N1 L1]|[E1 L1]] [[N2 L2]|[E2 L2]].
    - left. split; [|by etrans]. intros E. apply N1. rewrite E in L1 |- *.
      by apply string_le_antisym.
    - left. by rewrite <- E2.
    - left. by rewrite E1.
    - right. split; [congruence|lia]. }
  destruct (sre_evaluated_at <$> _) as [x|], (sre_evaluated_at <$> _) as [y|],
    (sre_evaluated_at <$> _) as [z|]; try done; try exact Htie.
  intros [?|[-> ?]] [?|[-> ?]]; [left; lia|by left|by left|]. right. auto.
Qed.

(** When the row was last evaluated; a row without a latch comes first. *)
Definition older_or_same (t u : TicketTask) : Prop :=
  match sre_evaluated_at <$> t.(shipped_red), sre_evaluated_at <$> u.(shipped_red) with
  | None, _ => True
  | Some _, None => False
  | Some x, Some y => (x <= y)%Z
  end.

Definition sweep_pool (store : DevQueueStore) (at_ : Z) : list TicketTask :=
  filter (λ t, is_shipped_red_candidate t && is_due t at_ = true) (current_rows store).

(** one tick evaluates at most eight rows, all of them due candidates, and
    passes over no row that has waited longer: every due candidate left out was
    evaluated no earlier than each row taken, and when at most eight are due
    none is left out. *)
Theorem sweep_is_fair store at_ :
  length (selected_rows store at_) = Nat.min 8 (length (sweep_pool store at_))
  ∧ ∃ rest, Permutation (selected_rows store at_ ++ rest) (sweep_pool store at_)
    ∧ ∀ t u, t ∈ selected_rows store at_ → u ∈ rest → older_or_same t u.
Proof.
  unfold selected_rows. fold (sweep_pool store at_).
  set (sorted := merge_sort eval_before (indexed (sweep_pool store at_))).
  assert (Hp : Permutation sorted (indexed (sweep_pool store at_)))
    by apply merge_sort_Permutation.
  assert (Hs : StronglySorted eval_before sorted) by (apply StronglySorted_merge_sort; apply _).
  assert (Hi : (indexed (sweep_pool store at_)).*2 = sweep_pool store at_).
  { unfold indexed. apply list_eq. intros i. rewrite list_lookup_fmap, list_lookup_imap.
    by destruct (sweep_pool store at_ !! i). }
  split.
  - rewrite length_take, length_fmap, Hp. unfold indexed. by rewrite length_imap.
  - exists (drop MAX_EVALUATIONS_PER_TICK sorted.*2). rewrite take_drop, Hp, Hi. split; [done|].
    rewrite <- fmap_take, <- fmap_drop.
    intros t u ([i t'] & -> & Ht)%list_elem_of_fmap ([j u'] & -> & Hu)%list_elem_of_fmap. cbn.
    rewrite <- (take_drop MAX_EVALUATIONS_PER_TICK sorted) in Hs.
    assert (He : eval_before (i, t') (j, u')).
    { clear -Hs Ht Hu. revert Hs Ht Hu. generalize (take MAX_EVALUATIONS_PER_TICK sorted).
      generalize (drop MAX_EVALUATIONS_PER_TICK sorted). intros l2 l1. induction l1 as [|x l1 IH].
      - by intros _ []%not_elem_of_nil.
      - cbn. intros [Hs Hx]%StronglySorted_inv [<-|Ht]%elem_of_cons Hu; [|by apply IH].
        eapply Forall_forall in Hx; [exact Hx|]. apply elem_of_app. by right. }
    unfold eval_before, older_or_same in *. cbn in He.
    destruct (sre_evaluated_at <$> shipped_red t'), (sre_evaluated_at <$> shipped_red u');
      [lia|done|done|done].
Qed.
