(* ===== verification/ShippedRedContract.v ===== *)
(** * Red shipped pull requests: fresh pages and the recovery's obligation

    Every page the locked write hands out opens an episode its row did not
    have; the recovery disarms as its last step and verifies it by reading
    back; a row whose pull request it disarmed owes the re-arm, whether the
    locked write recovers the row or refuses. *)

From S2P Require Import Prelude PyStr PyText GhReads Enums Tasks World Vocab RearmOwed Lifecycle Clients Crud CrudProps LaneCircuit ReviewGates Requeue RequeueProps PlanFingerprint Approval ShippedRed ShippedRedProps.

#[local] Open Scope cw_scope.

(** ** Fresh pages *)

Lemma set_latch_twice e e' t : set_latch e (set_latch e' t) = set_latch e t.
Proof. done. Qed.

Lemma set_latch_same t : set_latch t.(shipped_red) t = t.
Proof. by destruct t. Qed.

(** The rows of [s], up to their latches. *)
Definition latched (s : DevQueueStore) (u : TicketTask) : Prop :=
  ∃ t e, t ∈ s.(tasks) ∧ u = set_latch e t.

Lemma latched_update s ts i u u' :
  ts !! i = Some u → (∃ e, u' = set_latch e u) →
  Forall (latched s) ts → Forall (latched s) (<[i := u']> ts).
Proof.
  intros Hi (e & ->) H. apply Forall_insert; [done|].
  destruct (proj1 (Forall_lookup _ _) H i u Hi) as (t & e' & Ht & ->).
  exists t, e. by rewrite set_latch_twice.
Qed.

Lemma apply_outcome_latch t o at_ : ∃ e, (_apply_outcome t o at_).1 = set_latch e t.
Proof.
  unfold _apply_outcome, _stamp_unknown, _apply_alert. destruct (o_kind o); try by eexists.
  all: destruct (shipped_red t) eqn:E; [by eexists|]; exists None; by rewrite <- E, set_latch_same.
Qed.

Section Fresh.
Context {G : Gh}.

(** What an outcome that pages has read. *)
Definition alert_evidence (t : TicketTask) (o : _Outcome) : Prop :=
  ∃ head_ cs,
    fetch_pr_head (default "" t.(pr_url)) = Some head_ ∧ head_.(ph_state) = _GH_PR_STATE_OPEN
    ∧ head_.(auto_merge_armed) = true ∧ o.(o_head_sha) = Some head_.(oid)
    ∧ fetch_required_failing_checks (default "" t.(pr_url)) = Some cs ∧ cs ≠ []
    ∧ o.(o_names) = map rc_name cs
    ∧ ∀ l, t.(shipped_red) = Some l → is_Some l.(sre_alerted_at) →
           l.(sre_head_sha) ≠ Some head_.(oid).

Lemma evaluate_alert t :
  (_evaluate t).(o_kind) = ALERT → alert_evidence t (_evaluate t).
Proof.
  unfold _evaluate, _evaluate_alerted, _evaluate_fresh, _classify_required, alert_evidence.
  change (key_url (_key t)) with (default "" t.(pr_url)).
  destruct (shipped_red t) as [l|] eqn:El; [destruct (is_Some_b _) eqn:Ea|].
  - destruct (fetch_pr_head _) as [h|] eqn:Eh; [|done]. case_match eqn:Eo; [done|].
    case_match; [done|]. destruct (fetch_required_failing_checks _) as [[|r cs]|] eqn:Ec; try done.
    cbn [o_kind o_names o_head_sha]. case_bool_decide as Hsame; [done|].
    destruct (auto_merge_armed h) eqn:Em; [|done]. intros _. exists h, (r :: cs).
    apply negb_false_iff, String.eqb_eq in Eo. repeat (split; [done|]).
    by intros l' [= <-] _.
  - destruct (fetch_required_failing_checks _) as [[|r cs]|] eqn:Ec; try done.
    destruct (fetch_pr_head _) as [h|] eqn:Eh; [|done]. case_match eqn:Eo; [done|].
    case_match eqn:Em; [done|]. intros _. exists h, (r :: cs).
    apply negb_false_iff in Eo, Em. apply String.eqb_eq in Eo. repeat (split; [done|]).
    intros l' [= <-] [x Hx]. by rewrite Hx in Ea.
  - destruct (fetch_required_failing_checks _) as [[|r cs]|] eqn:Ec; try done.
    destruct (fetch_pr_head _) as [h|] eqn:Eh; [|done]. case_match eqn:Eo; [done|].
    case_match eqn:Em; [done|]. intros _. exists h, (r :: cs).
    apply negb_false_iff in Eo, Em. apply String.eqb_eq in Eo. repeat (split; [done|]). done.
Qed.

(** A page the write hands out, by the outcome and the row it came from. *)
Lemma stamp_pages s at_ os p :
  p ∈ (stamp_all at_ s os).2 →
  ∃ o t, o ∈ os ∧ o.(o_kind) = ALERT ∧ latched s.1 t ∧ _key t = o.(o_key)
    ∧ is_shipped_red_candidate t = true ∧ p = (_apply_alert t o at_).2.
Proof.
  unfold stamp_all. set (step := λ (s : DevQueueStore * bool * list _Page) o, _).
  assert (H : ∀ os acc, Forall (latched s.1) acc.1.1.(tasks) →
    ∀ p, p ∈ (fold_left step os acc).2 →
    p ∈ acc.2 ∨ ∃ o t, o ∈ os ∧ o.(o_kind) = ALERT ∧ latched s.1 t ∧ _key t = o.(o_key)
      ∧ is_shipped_red_candidate t = true ∧ p = (_apply_alert t o at_).2).
  { clear os p. induction os as [|o os IH]; intros acc Hl p Hp; [by left|].
    cbn [fold_left] in Hp. destruct (IH (step acc o)) with (p := p) as [Hx|(o' & t & Ho & Hrest)];
      [|done| |right; exists o', t; split; [by right|done]].
    - unfold step, stamp_one. destruct (_find_row _ _) as [[i t]|] eqn:E; [|done].
      apply find_row_lookup in E as (Hi & _). destruct (_ || _); [done|].
      destruct (_apply_outcome t o at_) as [t' po] eqn:Eo. cbn. eapply latched_update; [done| |done].
      destruct (apply_outcome_latch t o at_) as (e & He). exists e. by rewrite <- He, Eo.
    - unfold step, stamp_one in Hx. destruct (_find_row _ _) as [[i t]|] eqn:E; [|by left].
      apply find_row_lookup in E as (Hi & Hk & _). destruct (_ || _) eqn:Eb; [by left|].
      apply orb_false_iff in Eb as [_ Hcand%negb_false_iff].
      destruct (_apply_outcome t o at_) as [t' po] eqn:Eo. cbn in Hx.
      apply elem_of_app in Hx as [Hx|Hx]; [by left|]. right. exists o, t.
      split; [by left|]. unfold _apply_outcome in Eo.
      destruct (o_kind o) eqn:Ek; injection Eo as _ <-; try (by apply elem_of_nil in Hx).
      apply list_elem_of_singleton in Hx as ->.
      split; [done|]. split; [by apply (proj1 (Forall_lookup _ _) Hl i)|]. done. }
  intros Hp. destruct (H os (s, [])) with (p := p) as [Hx|?]; [|done| |done].
  - apply Forall_forall. intros t Ht. exists t, t.(shipped_red). by rewrite set_latch_same.
  - by apply elem_of_nil in Hx.
Qed.
End Fresh.

Lemma clear_all_latched s keys : Forall (latched s) (clear_all s keys).1.(tasks).
Proof.
  unfold clear_all. assert (H : ∀ acc : DevQueueStore * bool,
    Forall (latched s) acc.1.(tasks) →
    Forall (latched s) (fold_left (λ a k, match clear_one a.1 k with
      | Some st => (st, true) | None => a end) keys acc).1.(tasks)).
  { induction keys as [|k keys IH]; intros acc Ha; [done|]. cbn [fold_left]. apply IH.
    unfold clear_one. destruct (_find_row _ _) as [[i t]|] eqn:E; [|done].
    apply find_row_lookup in E as (Hi & _). case_match eqn:Hc; [|done].
    destruct (is_shipped_red_candidate t); [done|]. injection Hc as <-.
    eapply latched_update; [done|by eexists|done]. }
  apply H, Forall_forall. intros t Ht. exists t, t.(shipped_red). by rewrite set_latch_same.
Qed.

Lemma latched_trans s s' t : Forall (latched s) s'.(tasks) → latched s' t → latched s t.
Proof.
  intros H (u & e & Hu & ->). destruct (proj1 (Forall_forall _ _) H u Hu) as (v & e' & Hv & ->).
  exists v, e. by rewrite set_latch_twice.
Qed.

Lemma selected_row_elem store at_ t : t ∈ selected_rows store at_ → t ∈ store.(tasks).
Proof.
  unfold selected_rows. rewrite <- fmap_take.
  intros ([i u] & -> & Hu)%list_elem_of_fmap. apply elem_of_take in Hu as (j & Hj & _).
  apply list_elem_of_lookup_2 in Hj. rewrite stdpp.sorting.merge_sort_Permutation in Hj.
  unfold indexed in Hj. apply list_elem_of_lookup in Hj as (k & Hk).
  rewrite list_lookup_imap in Hk. destruct (_ !! k) as [v|] eqn:Hv; [|done].
  cbn in Hk. injection Hk as _ <-. cbn. apply list_elem_of_lookup_2 in Hv.
  apply list_elem_of_filter in Hv as [_ Hv]. unfold current_rows in Hv.
  apply list_elem_of_omap in Hv as ([tid cl] & _ & Hf). apply find_ticket_in in Hf.
  unfold rows_of in Hf. by apply list_elem_of_filter in Hf as [_ ?].
Qed.

Lemma evaluate_key {G : Gh} t : (_evaluate t).(o_key) = _key t.
Proof.
  unfold _evaluate, _evaluate_alerted, _evaluate_fresh, _classify_required.
  repeat case_match; done.
Qed.

Section FreshPage.
Context {C : Clock} {G : Gh} {A : ApproveEnv}.

(** a page announces a new episode of an armed, open pull request.  Whatever
    the rest of the program did since the sweep read the queue (opening no
    episode), each page of the locked write is for a shipped row that is still
    a candidate; [gh] reported its pull request open and armed at the page's
    head with the page's required checks failing; and if the row has an open
    episode, that episode is of another head.  So one head is paged once. *)
Theorem page_announces_a_fresh_episode w0 w w' keys at_ pages p :
  NoDup (_key <$> aw_rows w0) → kept w0 w →
  _write (map _evaluate (selected_rows w0.(aw_queue).(q_store) at_)) keys at_ w
    = (inr pages, w') →
  p ∈ pages →
  ∃ t head_ cs, t ∈ aw_rows w ∧ page_key p = _key t ∧ is_shipped_red_candidate t = true
    ∧ fetch_pr_head p.(pg_pr_url) = Some head_ ∧ head_.(ph_state) = _GH_PR_STATE_OPEN
    ∧ head_.(auto_merge_armed) = true ∧ p.(pg_head_sha) = head_.(oid)
    ∧ fetch_required_failing_checks p.(pg_pr_url) = Some cs ∧ cs ≠ []
    ∧ p.(pg_names) = map rc_name cs
    ∧ ∀ l, t.(shipped_red) = Some l → is_Some l.(sre_alerted_at) →
           l.(sre_head_sha) ≠ Some p.(pg_head_sha).
Proof.
  intros Hn (_ & Hkept & _) Hw Hp.
  set (s0 := w0.(aw_queue).(q_store)) in *. set (s := w.(aw_queue).(q_store)).
  set (os := map _evaluate (selected_rows s0 at_)) in *.
  destruct (stamp_all at_ (clear_all s keys) os) as [[st dirty] ps] eqn:E.
  assert (Hps : ps = pages).
  { assert (H : result (_write os keys at_) w = inr pages) by (unfold result; by rewrite Hw).
    revert H. subst s. destruct w as [[] f m n].
    unfold _write, result, mbind, M_bind, on_q, gets. cbn in *. rewrite E.
    destruct dirty; cbn [when]; [|by intros [= ->]].
    unfold save, write, mbind, M_bind, gets, modify. cbn. destruct (write_fault n); [done|].
    by intros [= ->]. }
  subst ps. replace pages with (stamp_all at_ (clear_all s keys) os).2 in Hp by (by rewrite E).
  destruct (stamp_pages _ _ _ _ Hp) as (o & t & Ho & Hk & Hl & Hkey & Hcand & ->).
  apply (latched_trans s) in Hl; [|apply clear_all_latched].
  destruct Hl as (u & e & Hu & ->).
  subst os. apply list_elem_of_fmap in Ho as (t0 & -> & Ht0%selected_row_elem).
  rewrite evaluate_key in Hkey. change (_key (set_latch e u)) with (_key u) in *.
  destruct (evaluate_alert t0 Hk) as (h & cs & Hh & Ho & Hm & Hs & Hc & Hne & Hnames & Hfresh).
  assert (Hurl : default "" (pr_url u) = default "" (pr_url t0))
    by exact (f_equal key_url Hkey).
  exists u, h, cs. split; [done|]. cbn.
  rewrite evaluate_key, Hs. change (key_url (_key t0)) with (default "" (pr_url t0)).
  split; [unfold page_key; cbn; by rewrite <- Hurl|].
  split; [exact Hcand|]. repeat (split; [done|]).
  intros l Hlatch Hal.
  destruct (Hkept u Hu) as (_ & t1 & Ht1 & Hk1 & Hl1).
  { unfold is_alerted. rewrite Hlatch. destruct Hal as [x ->]. done. }
  assert (t1 = t0) as -> by (eapply (NoDup_map_inj _key); [exact Hn|done|done|congruence]).
  apply Hfresh; [congruence|done].
Qed.
End FreshPage.

(** ** The recovery *)

Definition owes (url : string) (t : TicketTask) : Prop :=
  t.(auto_merge_rearm_pr_url) = Some url ∧ is_Some t.(auto_merge_rearm_owed_at).

(** The row is free to owe this pull request: it owes nothing, or this one. *)
Definition may_owe (url : string) (t : TicketTask) : Prop :=
  t.(auto_merge_rearm_owed_at) = None ∨ t.(auto_merge_rearm_pr_url) = Some url.

(** The row apart from the marker. *)
Definition same_but_marker (t t' : TicketTask) : Prop :=
  t'.(status) = t.(status) ∧ t'.(stage) = t.(stage) ∧ t'.(pr_url) = t.(pr_url)
  ∧ t'.(review_feedback) = t.(review_feedback) ∧ t'.(pr_state) = t.(pr_state)
  ∧ t'.(red_pr_recovery_sha) = t.(red_pr_recovery_sha) ∧ t'.(session_id) = t.(session_id)
  ∧ t'.(review_approved_at) = t.(review_approved_at)
  ∧ t'.(review_approved_sha) = t.(review_approved_sha)
  ∧ t'.(regress_attempts) = t.(regress_attempts) ∧ t'.(ticket_id) = t.(ticket_id)
  ∧ t'.(client) = t.(client).

Section Marker.
Context {C : Clock}.

Lemma emit_queue_run t evs n :
  ∃ b t' evs' n', emit_cancelled_rearm_owed_attention None (mkWorld t evs n)
                  = (inr b, mkWorld t' evs' n')
    ∧ same_but_marker t t' ∧ t'.(auto_merge_rearm_pr_url) = t.(auto_merge_rearm_pr_url)
    ∧ t'.(auto_merge_rearm_owed_at) = t.(auto_merge_rearm_owed_at).
Proof.
  unfold emit_cancelled_rearm_owed_attention. rewrite (bind_run _ _ _ _ _ (read_run id t evs n)).
  cbn [id]. destruct (_ || _); [by eexists _, _, _, _|].
  eexists _, _, _, _. split; [reflexivity|]. done.
Qed.

(** The stamp: taken exactly when the row still references the pull request. *)
Lemma mark_run url t evs n :
  ∃ b t' evs' n', mark_auto_merge_rearm_owed url None (mkWorld t evs n)
                  = (inr b, mkWorld t' evs' n')
    ∧ same_but_marker t t' ∧ (b = false → t' = t) ∧ (b = true → owes url t')
    ∧ (t.(pr_url) = Some url → may_owe url t → b = true).
Proof.
  unfold mark_auto_merge_rearm_owed. rewrite (bind_run _ _ _ _ _ (read_run id t evs n)).
  cbn [id]. set (refused := match auto_merge_rearm_owed_at t with Some _ => _ | None => _ end).
  destruct refused eqn:Hr; subst refused.
  { eexists false, t, evs, n. repeat (split; [done|]). intros Hu [Ho|Ho].
    - rewrite Ho in Hr. apply andb_true_iff in Hr as [Hr%negb_true_iff _].
      by rewrite (proj2 (opt_is_true _ _) Hu) in Hr.
    - destruct (auto_merge_rearm_owed_at t).
      + by rewrite (proj2 (opt_is_true _ _) Ho) in Hr.
      + apply andb_true_iff in Hr as [Hr%negb_true_iff _].
        by rewrite (proj2 (opt_is_true _ _) Hu) in Hr. }
  destruct (auto_merge_rearm_owed_at t) as [a|] eqn:Ho; cbn [is_Some_b].
  - destruct (emit_queue_run t evs n) as (b & t' & evs' & n' & He & Hs & Hu & Ha).
    exists true, t', evs', n'. split.
    { rewrite (bind_run _ _ _ tt (mkWorld t evs n)) by done.
      by rewrite (bind_run _ _ _ _ _ He). }
    split; [done|]. split; [done|]. split; [|done]. intros _. split.
    + apply negb_false_iff, opt_is_true in Hr. congruence.
    + by rewrite Ha, Ho.
  - set (t1 := t <| auto_merge_rearm_pr_url := Some url |> <| auto_merge_rearm_pr_state := None |>
                 <| auto_merge_rearm_owed_at := Some (clock_at n) |>
                 <| auto_merge_rearm_attention_at := None |>).
    destruct (emit_queue_run t1 evs (S n)) as (b & t' & evs' & n' & He & Hs & Hu & Ha).
    exists true, t', evs', n'. split.
    { rewrite (bind_run _ _ _ tt (mkWorld t1 evs (S n))) by done.
      by rewrite (bind_run _ _ _ _ _ He). }
    split; [exact Hs|]. split; [done|]. split; [|done]. intros _.
    split; [by rewrite Hu|by rewrite Ha].
Qed.

(** What the regress to impl keeps and clears. *)
Ltac pend_keeps :=
  unfold pend, transition_row, clear_latches, stamp_status, leave_running, enter_status;
  repeat case_match; reflexivity.

Lemma pend_owed_at b t : (pend b t).(auto_merge_rearm_owed_at) = t.(auto_merge_rearm_owed_at).
Proof. pend_keeps. Qed.
Lemma pend_owed_url b t : (pend b t).(auto_merge_rearm_pr_url) = t.(auto_merge_rearm_pr_url).
Proof. pend_keeps. Qed.
Lemma pend_review_sha b t : (pend b t).(review_approved_sha) = t.(review_approved_sha).
Proof. pend_keeps. Qed.

Ltac count_keeps := unfold count_regress; by repeat case_match.

Lemma count_owed_at s mc old t :
  (count_regress s mc old t).(auto_merge_rearm_owed_at) = t.(auto_merge_rearm_owed_at).
Proof. count_keeps. Qed.
Lemma count_owed_url s mc old t :
  (count_regress s mc old t).(auto_merge_rearm_pr_url) = t.(auto_merge_rearm_pr_url).
Proof. count_keeps. Qed.
Lemma count_review_sha s mc old t : (count_regress s mc old t).(review_approved_sha) = None.
Proof. count_keeps. Qed.
Lemma count_review_at s mc old t : (count_regress s mc old t).(review_approved_at) = None.
Proof. count_keeps. Qed.

Lemma count_ticket_id s mc old t : (count_regress s mc old t).(ticket_id) = t.(ticket_id).
Proof. count_keeps. Qed.
Lemma count_client s mc old t : (count_regress s mc old t).(client) = t.(client).
Proof. count_keeps. Qed.

Lemma drop_keeps p :
  let d := drop_anchors p in
  d.(status) = p.(status) ∧ d.(stage) = p.(stage) ∧ d.(session_id) = None
  ∧ d.(review_approved_at) = p.(review_approved_at)
  ∧ d.(review_approved_sha) = p.(review_approved_sha)
  ∧ d.(regress_attempts) = p.(regress_attempts)
  ∧ d.(auto_merge_rearm_owed_at) = p.(auto_merge_rearm_owed_at)
  ∧ d.(auto_merge_rearm_pr_url) = p.(auto_merge_rearm_pr_url)
  ∧ d.(ticket_id) = p.(ticket_id) ∧ d.(client) = p.(client).
Proof. by repeat split. Qed.

Lemma regressed_fields t :
  let t' := regress_row Stage.IMPL false t in
  t'.(status) = QueueItemStatus.PENDING ∧ t'.(stage) = Stage.IMPL
  ∧ t'.(review_approved_at) = None ∧ t'.(review_approved_sha) = None
  ∧ t'.(session_id) = None ∧ t'.(regress_attempts) = (t.(regress_attempts) + 1)%Z
  ∧ t'.(auto_merge_rearm_owed_at) = t.(auto_merge_rearm_owed_at)
  ∧ t'.(auto_merge_rearm_pr_url) = t.(auto_merge_rearm_pr_url)
  ∧ t'.(ticket_id) = t.(ticket_id) ∧ t'.(client) = t.(client).
Proof.
  cbv zeta. unfold regress_row. set (m := move_stage Stage.IMPL t).
  set (c := count_regress Stage.IMPL false t.(stage) m).
  destruct (drop_keeps (pend false c)) as (-> & -> & -> & -> & -> & -> & -> & -> & -> & ->).
  rewrite pend_ticket_id, pend_client, pend_status, pend_stage, pend_review_approved_at,
    pend_review_sha, pend_regress_attempts,
    pend_owed_at, pend_owed_url. subst c.
  rewrite count_regress_stage, count_review_at, count_review_sha, count_regress_attempts,
    count_owed_at, count_owed_url, count_ticket_id, count_client. subst m.
  rewrite move_stage_stage, move_regress_attempts, (move_stage_frame auto_merge_rearm_owed_at),
    (move_stage_frame ticket_id), (move_stage_frame client),
    (move_stage_frame auto_merge_rearm_pr_url) by done. done.
Qed.

(** The recovered row: what the write leaves when it is not refused. *)
Definition recovered (r : RedPrRecovery) (t t' : TicketTask) : Prop :=
  t'.(status) = QueueItemStatus.PENDING ∧ t'.(stage) = Stage.IMPL
  ∧ t'.(pr_url) = Some r.(rp_pr_url) ∧ t'.(review_feedback) = Some r.(rp_feedback)
  ∧ t'.(red_pr_recovery_sha) = Some r.(rp_feedback).(rf_reviewed_sha)
  ∧ t'.(pr_state) = None ∧ t'.(session_id) = None
  ∧ t'.(review_approved_at) = None ∧ t'.(review_approved_sha) = None
  ∧ t'.(regress_attempts) = (t.(regress_attempts) + 1)%Z
  ∧ t'.(ticket_id) = t.(ticket_id) ∧ t'.(client) = t.(client).

Definition regressed_from (t g : TicketTask) : Prop :=
  g.(status) = QueueItemStatus.PENDING ∧ g.(stage) = Stage.IMPL
  ∧ g.(review_approved_at) = None ∧ g.(review_approved_sha) = None
  ∧ g.(session_id) = None ∧ g.(regress_attempts) = (t.(regress_attempts) + 1)%Z
  ∧ g.(auto_merge_rearm_owed_at) = t.(auto_merge_rearm_owed_at)
  ∧ g.(auto_merge_rearm_pr_url) = t.(auto_merge_rearm_pr_url)
  ∧ g.(ticket_id) = t.(ticket_id) ∧ g.(client) = t.(client).

Lemma recovered_fields_spec r t g :
  regressed_from t g →
  recovered r t (recovered_fields r g)
  ∧ (may_owe r.(rp_pr_url) t → may_owe r.(rp_pr_url) (recovered_fields r g)).
Proof.
  intros (Hst & Hsg & Hra & Hrs & Hse & Hre & Hoa & Hou & Hti & Hcl). split; [by repeat split|].
  unfold may_owe. rewrite <- Hoa, <- Hou. done.
Qed.

Lemma finish_recovery r t g evs n :
  regressed_from t g →
  ∃ t' evs' n', (assign (recovered_fields r) ;;
                 when (was_armed r) (mark_auto_merge_rearm_owed r.(rp_pr_url) None ;; mret tt))
                  (mkWorld g evs n) = (inr tt, mkWorld t' evs' n')
    ∧ recovered r t t' ∧ (was_armed r = true → may_owe r.(rp_pr_url) t → owes r.(rp_pr_url) t').
Proof.
  intros Hg. destruct (recovered_fields_spec r t g Hg) as [H1 Hm].
  rewrite (bind_run _ _ _ _ _ (assign_run (recovered_fields r) g evs n)).
  revert H1 Hm. generalize (recovered_fields r g). intros t1 H1 Hm.
  destruct (was_armed r); cbn [when]; [|by eexists t1, evs, n].
  destruct (mark_run r.(rp_pr_url) t1 evs n) as (b & t' & evs' & n' & Hmark & Hs & _ & Ho & Hb).
  exists t', evs', n'. rewrite (bind_run _ _ _ _ _ Hmark). split; [done|].
  destruct Hs as (S1 & S2 & S3 & S4 & S5 & S6 & S7 & S8 & S9 & S10 & S11 & S12).
  split; [unfold recovered; by rewrite S1, S2, S3, S4, S5, S6, S7, S8, S9, S10, S11, S12|].
  intros _ Hmay. apply Ho, Hb; [apply H1|auto].
Qed.

Lemma recover_row_run r t evs n :
  ∃ t' evs' n', recover_row r (mkWorld t evs n) = (inr tt, mkWorld t' evs' n')
    ∧ recovered r t t' ∧ (was_armed r = true → may_owe r.(rp_pr_url) t → owes r.(rp_pr_url) t').
Proof.
  unfold recover_row. rewrite (bind_run _ _ _ _ _ (regress_run Stage.IMPL false t evs n)).
  apply finish_recovery, regressed_fields.
Qed.
End Marker.

Lemma refusal_passed t stages backend :
  is_Some_b (red_pr_refusal t stages backend) = false →
  t.(status) = QueueItemStatus.COMPLETED
  ∧ ∃ url, t.(pr_url) = Some url ∧ is_Some_b (parse_pr_url url) = true.
Proof.
  unfold red_pr_refusal. set (checks := [_; _; _; _; _; _]). intros H.
  destruct (list_find (λ b : bool, b = true) checks) eqn:E; [done|].
  apply list_find_None in E. subst checks.
  apply Forall_cons in E as [E1 E]. apply Forall_cons in E as [_ E].
  apply Forall_cons in E as [E3 _]. apply not_true_is_false, negb_false_iff in E1.
  apply not_true_is_false, orb_false_iff in E3 as [E3 E4].
  apply negb_false_iff in E3, E4. apply bool_decide_eq_true in E1. split; [done|].
  destruct (pr_url t) as [url|]; [by exists url|done].
Qed.

Section Recovery.
Context {C : Clock} {G : GateEnv} {E : OpsEnv} {H : Gh} {V : RecoverEnv}.

(** The locked write on the row it found. *)
Definition recovery_outcome (sessions : list Session) (tid cl : string) (r : RedPrRecovery)
  (w : QueueWorld) (i : nat) (t : TicketTask) : Prop :=
  ∃ res w' t', recover_red_pr_ticket sessions tid cl r w = (res, w')
    ∧ w'.(q_store).(tasks) = <[i := t']> w.(q_store).(tasks)
    ∧ (was_armed r = true → t.(pr_url) = Some r.(rp_pr_url) → may_owe r.(rp_pr_url) t →
       owes r.(rp_pr_url) t')
    ∧ match res with
      | inr _ => recovery_refused t r = false ∧ recovered r t t'
      | inl e => e = RequeueStateError ∧ recovery_refused t r = true ∧ same_but_marker t t'
      end.

Lemma recover_inv sessions tid cl r w i t :
  _refuse_if_live_session sessions tid cl ∅ = inr tt →
  _find_ticket_at w.(q_store) tid cl = Some (i, t) → recovery_outcome sessions tid cl r w i t.
Proof.
  unfold recovery_outcome.
  intros Hlive Hf. destruct w as [store evs n sv]. cbn [q_store] in *.
  destruct (find_at_spec _ _ _ _ _ Hf) as (_ & Hi & _). pose proof (list_insert_id _ _ _ Hi) as Hid.
  unfold recover_red_pr_ticket. rewrite Hlive.
  change (load_dev_queue) with (gets q_store).
  assert (Hstep : ∀ {B} (k : DevQueueStore → M QueueWorld B),
    (of_sum (inr tt) ;; store ← gets q_store; k store) (mkQueueWorld store evs n sv)
    = k store (mkQueueWorld store evs n sv)) by done.
  rewrite Hstep, Hf. clear Hstep. destruct (recovery_refused t r) eqn:Href.
  - destruct (was_armed r) eqn:Harmed.
    + destruct (mark_run r.(rp_pr_url) t evs n) as (b & t' & evs' & n' & Hm & Hs & Hf' & Ho & Hb).
      assert (Hw : ∃ w', recover_refusal t r i store (mkQueueWorld store evs n sv)
                   = (inl RequeueStateError, w')
                 ∧ w'.(q_store).(tasks) = if b then <[i := t']> store.(tasks) else store.(tasks)).
      { unfold recover_refusal. rewrite Harmed. unfold with_row, mbind, M_bind.
        cbn [q_events q_ticks]. rewrite Hm. by destruct b; eexists. }
      destruct Hw as (w' & -> & Hw). eexists _, w', t'. split; [done|]. rewrite Hw. destruct b.
      * split; [done|]. split; [intros _ _ _; by apply Ho|done].
      * split; [by rewrite (Hf' eq_refl), Hid|]. split; [|done].
        intros _ Hu Hmay. by specialize (Hb Hu Hmay).
    + eexists _, _, t. split; [unfold recover_refusal; rewrite Harmed; reflexivity|].
      cbn. by rewrite Hid.
  - destruct (recover_row_run r t evs n) as (t' & evs' & n' & Hr & Hrec & How).
    eexists _, _, t'. split.
    { unfold on_row, mbind, M_bind. cbn [q_events q_ticks]. rewrite Hr. reflexivity. }
    cbn. split; [done|]. split; [auto|done].
Qed.

(** C35: the recovery's locked write, on every branch.  Past the live-session
    guard, the row found is either recovered (PENDING at impl, its pull request
    kept, the head-pinned feedback attached, the review approval revoked, one
    more regress) exactly when the locked re-validation passes, or refused with
    everything but the marker as it was; and a row still referencing the pull
    request that was disarmed owes its re-arm either way.  No other row moves. *)
Theorem recovery_keeps_its_obligation sessions tid cl r w i t :
  _refuse_if_live_session sessions tid cl ∅ = inr tt →
  _find_ticket_at w.(q_store) tid cl = Some (i, t) →
  ∃ res w' t', recover_red_pr_ticket sessions tid cl r w = (res, w')
    ∧ w'.(q_store).(tasks) = <[i := t']> w.(q_store).(tasks)
    ∧ (was_armed r = true → t.(pr_url) = Some r.(rp_pr_url) → may_owe r.(rp_pr_url) t →
       owes r.(rp_pr_url) t')
    ∧ match res with
      | inr _ => recovery_refused t r = false ∧ recovered r t t'
      | inl e => e = RequeueStateError ∧ recovery_refused t r = true ∧ same_but_marker t t'
      end.
Proof. apply recover_inv. Qed.

(** the live-session refusal, which the command also reaches after the
    disarm, writes nothing: a row whose armed pull request was just disarmed
    is left without the obligation the locked refusal would have kept. *)
Theorem live_refusal_keeps_no_obligation sessions tid cl r w e :
  _refuse_if_live_session sessions tid cl ∅ = inl e →
  recover_red_pr_ticket sessions tid cl r w = (inl e, w).
Proof. intros Hl. unfold recover_red_pr_ticket. by rewrite Hl. Qed.

(** C36: the disarm is the last step of the preparation, and verified.  A bundle
    is handed to the locked write only if GitHub, read back after the disarm,
    reports the pull request unarmed (or it was not armed), with its head open
    and equal to the commit the feedback was written for and a required check
    failing; and a preparation that raises either ran no disarm or ran it as its
    last step and could not verify it. *)
Theorem preparation_disarms_last t c ds :
  match prepare_red_pr_recovery t c ds with
  | (inr r, ds') =>
      ∃ head_, fetch_pr_head r.(rp_pr_url) = Some head_ ∧ head_.(ph_state) = _GH_PR_STATE_OPEN
        ∧ r.(rp_head_sha) = head_.(oid) ∧ r.(rp_feedback).(rf_reviewed_sha) = head_.(oid)
        ∧ r.(rp_checks) ≠ [] ∧ t.(pr_url) = Some r.(rp_pr_url) ∧ recovery_refused t r = false
        ∧ r.(was_armed) = head_.(auto_merge_armed)
        ∧ if head_.(auto_merge_armed)
          then ds' = ds ++ [r.(rp_pr_url)]
               ∧ ∃ after, @fetch_pr_head gh_after_disarm r.(rp_pr_url) = Some after
                          ∧ after.(auto_merge_armed) = false
          else ds' = ds
  | (inl e, ds') =>
      e = RequeueStateError
      ∧ (ds' = ds
         ∨ (ds' = ds ++ [default "" t.(pr_url)]
            ∧ ∀ after, disarm_pr_auto_merge (default "" t.(pr_url)) ≠ None →
                @fetch_pr_head gh_after_disarm (default "" t.(pr_url)) = Some after →
                after.(auto_merge_armed) = true))
  end.
Proof.
  unfold prepare_red_pr_recovery. cbv zeta. set (stages := resolve_pipeline_stages t c).
  set (backend := resolve_executor_backend Stage.IMPL t c).
  destruct (is_Some_b (red_pr_refusal t stages backend)) eqn:Hr; [by split; [|left]|].
  destruct (refusal_passed _ _ _ Hr) as (Hst & url & Hurl & Hp).
  rewrite Hurl. cbn [default from_option id].
  destruct (parse_pr_url url) as [[repo n]|]; [|by split; [|left]].
  unfold _live_head_and_checks.
  destruct (fetch_pr_head url) as [h|] eqn:Hh; [|by split; [|left]].
  destruct (String.eqb (ph_state h) _GH_PR_STATE_OPEN) eqn:Ho; cbn [negb]; [|by split; [|left]].
  destruct (fetch_required_failing_checks url) as [[|rc cs]|]; [by split; [|left]| |by split; [|left]].
  cbv [mbind M_bind of_sum mret M_ret fst snd modify].
  destruct (synthesize_pr_feedback repo n) as [fb|]; [|by split; [|left]].
  destruct (String.eqb (rf_reviewed_sha fb) (oid h)) eqn:Hfb; cbn [negb]; [|by split; [|left]].
  apply String.eqb_eq in Ho, Hfb. unfold ensure_pr_unarmed.
  assert (Hok : recovery_refused t (mkRedPrRecovery url repo n (oid h) (rc_name rc :: map rc_name cs)
                  fb (auto_merge_armed h) stages backend (lane t)) = false).
  { unfold recovery_refused. cbn [rp_pr_url rp_lane rp_stages rp_backend]. rewrite Hr, Hst, String.eqb_refl.
    by rewrite (proj2 (opt_is_true _ _) Hurl), bool_decide_eq_true_2. }
  destruct (auto_merge_armed h) eqn:Ha; cbn [negb].
  - destruct (disarm_pr_auto_merge url) as [code|] eqn:Hd; cbn [uo_ok negb].
    + destruct (@fetch_pr_head gh_after_disarm url) as [a|] eqn:Hg; cbn [uo_ok negb].
      * destruct (auto_merge_armed a) eqn:Hx; cbn [uo_ok negb].
        -- split; [done|]. right. split; [done|]. by intros a' _ [= <-].
        -- exists h. cbn [rp_pr_url rp_head_sha rp_feedback rp_checks was_armed]. rewrite Ha.
           repeat (split; [done|]). by exists a.
      * split; [done|]. right. split; [done|]. intros a' _ Hx. discriminate Hx.
    + split; [done|]. right. split; [done|]. intros a' Hn. by destruct Hn.
  - exists h. cbn. repeat (split; [done|]). by rewrite Ha.
Qed.
End Recovery.
