(* ===== verification/Probes.v ===== *)
(** * Lockless captures: [reconcile/probe_store.py], [reconcile/dirty_checks.py]

    The sweeps of a reconcile tick run under the sessions lock and may run no
    git, so what they ask about a worktree is captured before the lock, into a
    store bounded by a count and a budget, and looked up later if it is fresh
    enough.  A failure to capture defers the session; its kind is announced
    once per episode through a latch shared by the threads of the process.  At the end, what both promise. *)

From S2P Require Import Prelude PyStr Enums Tasks World GateBackoff.

#[local] Open Scope cw_scope.

Definition DIRTY_CHECK_MAX_PER_TICK : nat := 12.
Definition DIRTY_CHECK_BUDGET_SECONDS : Z := 30.
Definition DIRTY_CHECK_MAX_AGE_SECONDS : Z := 90.
Definition WORKTREE_PROBE_UNAVAILABLE_STATUS : string := "worktree_probe_unavailable".

(** ** The bounded store *)

(** [ProbeStoreUnavailableError]: its reason, with the age of a stale entry. *)
Inductive ProbeUnavailable := Budget | Cap | Missing | Stale (age : Z).

Section Store.
Context {K P : Type} `{Countable K}.

Record StoredProbe := mkStoredProbe { sp_payload : P; sp_captured_at : Z }.

(** Seconds are instants of the monotonic clock; [ps_deadline] is in the same
    unit. *)
Record BoundedProbeStore := mkProbeStore {
  ps_max_captures : option nat;
  ps_max_age : Z;
  ps_deadline : option Z;
  ps_captures : nat;
  ps_probes : gmap K StoredProbe }.

Definition new_store (budget : option Z) (cap : option nat) (max_age now_mono : Z)
  : BoundedProbeStore :=
  mkProbeStore cap max_age (b ← budget; Some (now_mono + b)%Z) 0 ∅.

(** What [capture] refuses before it reads. *)
Definition refusal (st : BoundedProbeStore) (now_mono : Z) : option ProbeUnavailable :=
  if match st.(ps_deadline) with Some d => Z.leb d now_mono | None => false end then Some Budget
  else if match st.(ps_max_captures) with
          | Some m => Nat.leb m st.(ps_captures) | None => false end then Some Cap
  else None.

Definition with_capture (st : BoundedProbeStore) : BoundedProbeStore :=
  mkProbeStore st.(ps_max_captures) st.(ps_max_age) st.(ps_deadline) (S st.(ps_captures))
    st.(ps_probes).

Definition stored (key : K) (payload : P) (captured_at : Z) (st : BoundedProbeStore)
  : BoundedProbeStore :=
  mkProbeStore st.(ps_max_captures) st.(ps_max_age) st.(ps_deadline) st.(ps_captures)
    (<[key := mkStoredProbe payload captured_at]> st.(ps_probes)).

(** Ages are in microseconds, bounds in seconds. *)
Definition usable (st : BoundedProbeStore) (p : StoredProbe) (now : Z) : bool :=
  let age := (now - p.(sp_captured_at))%Z in
  Z.leb 0 age && Z.ltb age (seconds st.(ps_max_age)).

(** [lookup]; [now] is read only when there is an entry. *)
Definition lookup_probe (st : BoundedProbeStore) (key : K) (now : Z) : ProbeUnavailable + P :=
  match st.(ps_probes) !! key with
  | None => inl Missing
  | Some p => if usable st p now then inr p.(sp_payload)
              else inl (Stale (now - p.(sp_captured_at))%Z)
  end.
End Store.
Arguments StoredProbe : clear implicits.
Arguments BoundedProbeStore : clear implicits.
Arguments BoundedProbeStore K P {_ _}.

(** ** The dirty checks *)

Inductive WorktreeProbeKind := ClientKind | GitKind.

#[export] Instance probe_kind_eq_dec : EqDecision WorktreeProbeKind.
Proof. solve_decision. Defined.

Definition kind_num (k : WorktreeProbeKind) : nat := match k with ClientKind => 0 | GitKind => 1 end.

#[export] Instance probe_kind_countable : Countable WorktreeProbeKind :=
  enum_countable kind_num (λ n, match n with 0 => Some ClientKind | _ => Some GitKind end)
    ltac:(by intros []).

Definition kind_name (k : WorktreeProbeKind) : string :=
  match k with ClientKind => "client" | GitKind => "git" end.

Record _Outage := mkOutage { out_kind : WorktreeProbeKind; out_client : string; out_detail : string }.

Definition _DirtyKey : Type := string * string.

Record DirtyChecks := mkDirtyChecks {
  dc_store : BoundedProbeStore _DirtyKey (option string);
  dc_outages : gmap WorktreeProbeKind _Outage;
  dc_deferred_ids : gset string;
  dc_truncated : bool }.

#[export] Instance DirtyChecks_eta : RecordEta DirtyChecks := λ c,
  mkDirtyChecks c.(dc_store) c.(dc_outages) c.(dc_deferred_ids) c.(dc_truncated).
#[export] Instance upd_dc_store : Updater dc_store := ltac:(derive_updater).
#[export] Instance upd_dc_outages : Updater dc_outages := ltac:(derive_updater).
#[export] Instance upd_dc_deferred_ids : Updater dc_deferred_ids := ltac:(derive_updater).
#[export] Instance upd_dc_truncated : Updater dc_truncated := ltac:(derive_updater).

Definition new_dirty_checks (budget : option Z) (cap : option nat) (now_mono : Z) : DirtyChecks :=
  mkDirtyChecks (new_store budget cap DIRTY_CHECK_MAX_AGE_SECONDS now_mono) ∅ ∅ false.

(** A failed probe ([WorktreeProbeError]): its kind and detail. *)
Record WorktreeProbeError := mkProbeError { wpe_kind : WorktreeProbeKind; wpe_detail : string }.

(** What the n-th live check answers: it raises something unclassified, raises
    [WorktreeProbeError], or returns the unsaved-work reason.  The n-th reading
    of the monotonic clock, in seconds. *)
Class DirtyProbe := {
  worktree_dirty_reason_by_path : nat → string → string → exn + (WorktreeProbeError + option string);
  monotonic : nat → Z }.

(** A capture pass: the store being filled, the clock readings, the live checks
    that ran, in order. *)
Record CaptureWorld := mkCaptureWorld {
  cp_checks : DirtyChecks;
  cp_ticks : nat;
  cp_mono : nat;
  cp_reads : list _DirtyKey }.

#[export] Instance CaptureWorld_eta : RecordEta CaptureWorld := λ w,
  mkCaptureWorld w.(cp_checks) w.(cp_ticks) w.(cp_mono) w.(cp_reads).
#[export] Instance upd_cp_checks : Updater cp_checks := ltac:(derive_updater).
#[export] Instance upd_cp_ticks : Updater cp_ticks := ltac:(derive_updater).
#[export] Instance upd_cp_mono : Updater cp_mono := ltac:(derive_updater).
#[export] Instance upd_cp_reads : Updater cp_reads := ltac:(derive_updater).

(** What one capture returns, or the two errors its callers catch. *)
Inductive CheckResult :=
  | Checked (reason : option string)
  | CheckDeferred (kind : WorktreeProbeKind) (detail : string)
  | CheckRefused (why : ProbeUnavailable).

Section Capture.
Context {C : Clock} {D : DirtyProbe}.

Definition mono_now : M CaptureWorld Z := λ w,
  (inr (monotonic w.(cp_mono)), w <| cp_mono := S w.(cp_mono) |>).

Definition wall_now : M CaptureWorld Z := λ w,
  (inr (clock_at w.(cp_ticks)), w <| cp_ticks := S w.(cp_ticks) |>).

(** [read(captured_at)], which runs git. *)
Definition live_read (sid cl wt : string) : M CaptureWorld (WorktreeProbeError + option string) :=
  λ w, (worktree_dirty_reason_by_path (length w.(cp_reads)) cl wt,
        w <| cp_reads := w.(cp_reads) ++ [(sid, wt)] |>).

Definition set_store (f : BoundedProbeStore _DirtyKey (option string) →
                          BoundedProbeStore _DirtyKey (option string)) : M CaptureWorld unit :=
  modify (λ w, w <| cp_checks := w.(cp_checks) <| dc_store := f w.(cp_checks).(dc_store) |> |>).

(** [setdefault] keeps the first outage of a kind. *)
Definition record_outage (s : Session) (e : WorktreeProbeError) (c : DirtyChecks) : DirtyChecks :=
  let o := mkOutage e.(wpe_kind) s.(sess_client) e.(wpe_detail) in
  c <| dc_outages := match c.(dc_outages) !! e.(wpe_kind) with
                     | Some _ => c.(dc_outages)
                     | None => <[e.(wpe_kind) := o]> c.(dc_outages)
                     end |>
    <| dc_deferred_ids := {[s.(sess_id)]} ∪ c.(dc_deferred_ids) |>.

Definition capture (s : Session) : M CaptureWorld CheckResult :=
  match s.(sess_worktree_path) with
  | None => mret (Checked None)
  | Some wt =>
      w ← get;
      m ← (if is_Some_b w.(cp_checks).(dc_store).(ps_deadline) then mono_now else mret 0%Z);
      match refusal w.(cp_checks).(dc_store) m with
      | Some why => mret (CheckRefused why)
      | None =>
          set_store with_capture ;;
          at_ ← wall_now;
          r ← live_read s.(sess_id) s.(sess_client) wt;
          match r with
          | inr payload =>
              set_store (stored (s.(sess_id), wt) payload at_) ;;
              mret (Checked payload)
          | inl e =>
              modify (λ w, w <| cp_checks := record_outage s e w.(cp_checks) |>) ;;
              mret (CheckDeferred e.(wpe_kind) e.(wpe_detail))
          end
      end
  end.

(** [pending.sort(key=lambda s: s.id in deferred_last_tick)]: a stable sort on
    a boolean. *)
Definition capture_order (deferred_last : gset string) (sessions : list Session) : list Session :=
  let pending := filter (λ s, is_Some s.(sess_worktree_path)) sessions in
  filter (λ s, s.(sess_id) ∉ deferred_last) pending
  ++ filter (λ s, s.(sess_id) ∈ deferred_last) pending.

Fixpoint capture_each (ss : list Session) : M CaptureWorld unit :=
  match ss with
  | [] => mret tt
  | s :: ss' =>
      r ← capture s;
      match r with
      | CheckRefused _ =>
          modify (λ w, w <| cp_checks := w.(cp_checks) <| dc_truncated := true |> |>)
      | _ => capture_each ss'
      end
  end.

Definition capture_all (deferred_last : gset string) (sessions : list Session)
  : M CaptureWorld unit :=
  capture_each (capture_order deferred_last sessions).
End Capture.

(** [DirtyChecks.lookup]; [None] for the store is an empty one.  A session
    without a worktree is clean. *)
Definition lookup_dirty_reason (checks : option DirtyChecks) (s : Session) (now : Z)
  : ProbeUnavailable + option string :=
  match s.(sess_worktree_path) with
  | None => inr None
  | Some wt =>
      match checks with
      | None => inl Missing
      | Some c => lookup_probe c.(dc_store) (s.(sess_id), wt) now
      end
  end.

(** The lookup reads the clock only when the store has an entry. *)
Definition has_capture (checks : option DirtyChecks) (s : Session) : bool :=
  match s.(sess_worktree_path), checks with
  | Some wt, Some c => is_Some_b (c.(dc_store).(ps_probes) !! (s.(sess_id), wt))
  | _, _ => false
  end.

(** ** The outage latch *)

(** [_ANNOUNCED_OUTAGES], each kind with the token of the settle that claimed
    it, and [_DEFERRED_LAST_TICK]. *)
Record OutageLatch := mkOutageLatch {
  la_announced : gmap WorktreeProbeKind nat;
  la_deferred_last : gset string }.

(** [sorted(present - announced)]. *)
Definition fresh_kinds (present : gset WorktreeProbeKind)
  (announced : gmap WorktreeProbeKind nat) : list WorktreeProbeKind :=
  filter (λ k, k ∈ present ∧ announced !! k = None) [ClientKind; GitKind].

(** The critical section of [settle_outages]: episodes that ended are dropped,
    unless the pass was cut short, and the fresh kinds claimed. *)
Definition settle_claim (c : DirtyChecks) (token : nat) (l : OutageLatch)
  : list WorktreeProbeKind * OutageLatch :=
  let present : gset WorktreeProbeKind := dom c.(dc_outages) in
  let announced := if c.(dc_truncated) then l.(la_announced)
                   else filter (λ p, p.1 ∈ present) l.(la_announced) in
  let deferred := if c.(dc_truncated) then l.(la_deferred_last) else ∅ in
  let fresh := fresh_kinds present announced in
  (fresh, mkOutageLatch (foldr (λ k m, <[k := token]> m) announced fresh)
            (deferred ∪ c.(dc_deferred_ids))).

Definition _release_claims (kinds : list WorktreeProbeKind) (token : nat) (l : OutageLatch)
  : OutageLatch :=
  mkOutageLatch (filter (λ p, ¬ (p.1 ∈ kinds ∧ p.2 = token)) l.(la_announced))
    l.(la_deferred_last).

Record OutageWorld := mkOutageWorld {
  og_latch : OutageLatch;
  og_events : list event;
  og_ticks : nat }.

(** Recording the event of a kind under a token fails with [OSError], or with
    anything else. *)
Class AnnounceFault := announce_fault : nat → WorktreeProbeKind → option exn.

Section Settle.
Context {C : Clock} {F : AnnounceFault}.

Definition outage_event (o : _Outage) (at_ : Z) : event :=
  mkEvent SESSION_NEEDS_ATTENTION
    [("session_id", JStr ("worktree-probe:" +:+ kind_name o.(out_kind) +:+ "@" +:+ isoformat at_));
     ("session_name", JStr ""); ("client", JStr o.(out_client)); ("ticket_id", JNull);
     ("claude_session_id", JNull);
     ("paused_status", JStr WORKTREE_PROBE_UNAVAILABLE_STATUS);
     ("breadcrumbs", JStr (kind_name o.(out_kind) +:+ ": " +:+ o.(out_detail)));
     ("crashed", JBool false); ("lane", JNull)] None.

Definition _announce (token : nat) (o : _Outage) : M OutageWorld bool := λ w,
  match announce_fault token o.(out_kind) with
  | None => (inr true, mkOutageWorld w.(og_latch)
                         (w.(og_events) ++ [outage_event o (clock_at w.(og_ticks))])
                         (S w.(og_ticks)))
  | Some OSError => (inr false, mkOutageWorld w.(og_latch) w.(og_events) (S w.(og_ticks)))
  | Some e => (inl e, mkOutageWorld w.(og_latch) w.(og_events) (S w.(og_ticks)))
  end.

Definition on_latch (f : OutageLatch → OutageLatch) : M OutageWorld unit :=
  modify (λ w, mkOutageWorld (f w.(og_latch)) w.(og_events) w.(og_ticks)).

Fixpoint announce_each (c : DirtyChecks) (token : nat) (fresh : list WorktreeProbeKind)
  : M OutageWorld unit :=
  match fresh with
  | [] => mret tt
  | k :: fresh' =>
      match c.(dc_outages) !! k with
      | None => raise KeyError
      | Some o =>
          sent ← try_except (_announce token o)
                   (λ e, on_latch (_release_claims fresh token) ;; raise e);
          when (negb sent) (on_latch (_release_claims [k] token)) ;;
          announce_each c token fresh'
      end
  end.

Definition settle_outages (c : DirtyChecks) (token : nat) : M OutageWorld unit :=
  fresh ← (λ w, let '(fresh, l) := settle_claim c token w.(og_latch) in
                (inr fresh, mkOutageWorld l w.(og_events) w.(og_ticks)));
  announce_each c token fresh.
End Settle.

(** * What a captured dirty check proves, and who announces an outage

    A pass keeps an invariant relating the store to the live checks that ran.
    The latch of the outages is a machine of threads, each settle one thread;
    its safety is by rule induction, and the executable settle is one of its
    runs. *)

(** ** A capture pass *)

Section Pass.
Context {C : Clock} {D : DirtyProbe}.

(** [n0]: the clock readings before the pass; [cap] and [age]: the store's
    bounds; the sessions of the pass satisfy [P]. *)
Definition pass_inv (n0 : nat) (cap : option nat) (age : Z) (P : Session → Prop)
  (w : CaptureWorld) : Prop :=
  let st := w.(cp_checks).(dc_store) in
  st.(ps_max_captures) = cap ∧ st.(ps_max_age) = age
  ∧ w.(cp_ticks) = n0 + length w.(cp_reads) ∧ st.(ps_captures) = length w.(cp_reads)
  ∧ (∀ m, cap = Some m → length w.(cp_reads) ≤ m)
  ∧ (∀ key, key ∈ w.(cp_reads) →
       ∃ s, P s ∧ s.(sess_id) = key.1 ∧ s.(sess_worktree_path) = Some key.2)
  ∧ (∀ key p, st.(ps_probes) !! key = Some p →
       ∃ i cl, w.(cp_reads) !! i = Some key ∧ p.(sp_captured_at) = clock_at (n0 + i)
         ∧ worktree_dirty_reason_by_path i cl key.2 = inr (inr p.(sp_payload))).

Lemma pass_inv_truncate n0 cap age P w :
  pass_inv n0 cap age P w →
  pass_inv n0 cap age P
    (w <| cp_checks := w.(cp_checks) <| dc_truncated := true |> |>).
Proof. done. Qed.

(** One live check: counted, stamped, read. *)
Lemma pass_inv_read n0 cap age (P : Session → Prop) s wt w :
  P s → s.(sess_worktree_path) = Some wt →
  (∀ m, cap = Some m → S (length w.(cp_reads)) ≤ m) →
  pass_inv n0 cap age P w →
  pass_inv n0 cap age P
    (mkCaptureWorld (w.(cp_checks) <| dc_store := with_capture w.(cp_checks).(dc_store) |>)
       (S w.(cp_ticks)) w.(cp_mono) (w.(cp_reads) ++ [(s.(sess_id), wt)])).
Proof.
  intros Hs Hwt Hcap (H1 & H2 & H3 & H4 & _ & H6 & H7). unfold pass_inv. cbn.
  rewrite length_app. cbn. split_and!; [done|done|lia|lia|intros m Hm; specialize (Hcap m Hm); lia| |].
  - intros key [Hk|Hk%list_elem_of_singleton]%elem_of_app; [by apply H6|subst key; by exists s].
  - intros key p Hp. destruct (H7 key p Hp) as (i & cl & Hi & Ht). exists i, cl.
    split; [|done]. by apply lookup_app_l_Some.
Qed.

Lemma capture_pass n0 cap age (P : Session → Prop) s w :
  P s → pass_inv n0 cap age P w → pass_inv n0 cap age P (exec (capture s) w).
Proof.
  intros Hs Hw. unfold exec, capture. destruct (sess_worktree_path s) as [wt|] eqn:Hwt; [|done].
  unfold mbind, M_bind, get. set (m := if is_Some_b _ then mono_now else mret 0%Z).
  assert (Hm : ∃ z k, m w = (inr z, w <| cp_mono := k |>)).
  { subst m. destruct (is_Some_b _); [by do 2 eexists|exists 0%Z, (cp_mono w)]. by destruct w. }
  destruct Hm as (z & k & ->). set (w1 := w <| cp_mono := k |>).
  assert (Hw1 : pass_inv n0 cap age P w1) by done.
  change (cp_checks w) with (cp_checks w1). clearbody w1. clear Hw m.
  destruct (refusal _ _) as [why|] eqn:Href; [done|].
  assert (Hcap : ∀ m, cap = Some m → S (length w1.(cp_reads)) ≤ m).
  { intros m ->. destruct Hw1 as (H1 & _ & _ & H4 & _). unfold refusal in Href. rewrite H1, H4 in Href.
    destruct (match ps_deadline _ with Some _ => _ | None => _ end); [done|].
    destruct (Nat.leb_spec m (length (cp_reads w1))); [done|lia]. }
  pose proof (pass_inv_read n0 cap age P s wt w1 Hs Hwt Hcap Hw1) as Hr.
  destruct Hw1 as (_ & _ & Ht & _). destruct w1 as [c t mo reads]. cbn in Ht, Hr |- *.
  destruct (worktree_dirty_reason_by_path (length reads) _ _) as [e|[e|r]] eqn:Hread; [done|done|].
  destruct Hr as (H1 & H2 & H3 & H4 & H5 & H6 & H7).
  split_and!; [done|done|done|done|done|done|]. cbn. intros key p Hp.
  destruct (decide (key = (s.(sess_id), wt))) as [->|Hne].
  - rewrite lookup_insert_eq in Hp. injection Hp as <-. exists (length reads), s.(sess_client).
    split; [apply list_lookup_middle; done|]. cbn. by rewrite Ht.
  - rewrite lookup_insert_ne in Hp by congruence. by apply H7.
Qed.

Lemma capture_each_pass n0 cap age (P : Session → Prop) ss w :
  Forall P ss → pass_inv n0 cap age P w → pass_inv n0 cap age P (exec (capture_each ss) w).
Proof.
  intros Hss. revert w. induction Hss as [|s ss Hs _ IH]; intros w Hw; [done|].
  pose proof (capture_pass n0 cap age P s w Hs Hw) as Hc. unfold exec in *. cbn [capture_each].
  unfold mbind, M_bind. destruct (capture s w) as [[e|r] w1]; cbn in Hc |- *; [done|].
  destruct r as [r|k d|why]; [by apply IH|by apply IH|by apply pass_inv_truncate].
Qed.

(** C31: a dirty check the sweeps consume was really run, recently, on that
    worktree.  After a capture pass over any sessions, in any order and however
    it ends, at most the cap's number of live checks ran, each on the worktree
    of one of the sessions; and a lookup that answers for a session with a
    worktree repeats what a live check of this pass answered for the same
    session and path, at an instant at most its bound old and not in the
    future.  A check that failed, or never ran, is never read as clean. *)
Theorem captured_checks_are_real deferred_last sessions budget cap now_mono n0 k0 :
  let w := exec (capture_all deferred_last sessions)
             (mkCaptureWorld (new_dirty_checks budget (Some cap) now_mono) n0 k0 []) in
  length w.(cp_reads) ≤ cap
  ∧ (∀ key, key ∈ w.(cp_reads) →
       ∃ s, s ∈ sessions ∧ s.(sess_id) = key.1 ∧ s.(sess_worktree_path) = Some key.2)
  ∧ ∀ s wt now r,
      s.(sess_worktree_path) = Some wt →
      lookup_dirty_reason (Some w.(cp_checks)) s now = inr r →
      ∃ i cl, w.(cp_reads) !! i = Some (s.(sess_id), wt)
        ∧ worktree_dirty_reason_by_path i cl wt = inr (inr r)
        ∧ (0 <= now - clock_at (n0 + i) < seconds DIRTY_CHECK_MAX_AGE_SECONDS)%Z.
Proof.
  cbv zeta. unfold capture_all. set (w0 := mkCaptureWorld _ n0 k0 []).
  assert (Hin : Forall (λ s, s ∈ sessions) (capture_order deferred_last sessions)).
  { apply Forall_forall. intros s. unfold capture_order.
    rewrite elem_of_app, !list_elem_of_filter. naive_solver. }
  assert (H0 : pass_inv n0 (Some cap) DIRTY_CHECK_MAX_AGE_SECONDS (λ s, s ∈ sessions) w0).
  { unfold pass_inv, w0, new_dirty_checks, new_store. cbn.
    split_and!; [done|done|lia|done|lia|by intros ? ?%elem_of_nil|]. intros key p Hp.
    by rewrite lookup_empty in Hp. }
  apply (capture_each_pass _ _ _ _ _ _ Hin) in H0. revert H0. generalize (exec (capture_each
    (capture_order deferred_last sessions)) w0). intros w (_ & Hage & _ & _ & Hcap & Hreads & Hp).
  split; [by apply Hcap|]. split; [done|]. intros s wt now r Hwt Hl.
  unfold lookup_dirty_reason, lookup_probe in Hl. rewrite Hwt in Hl.
  destruct (ps_probes _ !! _) as [p|] eqn:E; [|done]. destruct (usable _ p now) eqn:Hu; [|done].
  injection Hl as <-. destruct (Hp _ _ E) as (i & cl & Hi & Ht & Ha). exists i, cl.
  split; [done|]. split; [done|]. unfold usable in Hu. rewrite Hage, Ht in Hu.
  apply andb_true_iff in Hu as [?%Z.leb_le ?%Z.ltb_lt]. done.
Qed.
End Pass.

(** ** The machine of the outage latch *)

(** A settle past its critical section: kinds it has still to announce, or a
    failed announcement whose claims it is about to release. *)
Inductive settle_phase :=
  | Emitting (todo : list WorktreeProbeKind)
  | Releasing (kinds todo : list WorktreeProbeKind).

Definition pending_kinds (p : settle_phase) : list WorktreeProbeKind :=
  match p with Emitting ks => ks | Releasing kinds ks => kinds ++ ks end.

Record OutageState := mkOutageState {
  os_latch : OutageLatch;
  os_threads : gmap nat settle_phase;
  os_sent : list (nat * WorktreeProbeKind) }.

Definition latched (s : OutageState) (k : WorktreeProbeKind) : option nat :=
  s.(os_latch).(la_announced) !! k.

Inductive outage_act :=
  | ABegin (c : DirtyChecks) (token : nat)
  | ASent (token : nat) (k : WorktreeProbeKind)
  | AFail (token : nat)
  | ARelease (token : nat).

Inductive outage_step : OutageState → outage_act → OutageState → Prop :=
  | settle_begins s c τ fresh l :
      s.(os_threads) !! τ = None → settle_claim c τ s.(os_latch) = (fresh, l) →
      outage_step s (ABegin c τ) (mkOutageState l (<[τ := Emitting fresh]> s.(os_threads)) s.(os_sent))
  | page_sent s τ k ks :
      s.(os_threads) !! τ = Some (Emitting (k :: ks)) →
      outage_step s (ASent τ k)
        (mkOutageState s.(os_latch) (<[τ := Emitting ks]> s.(os_threads)) (s.(os_sent) ++ [(τ, k)]))
  | page_lost s τ k ks :
      s.(os_threads) !! τ = Some (Emitting (k :: ks)) →
      outage_step s (AFail τ)
        (mkOutageState s.(os_latch) (<[τ := Releasing [k] ks]> s.(os_threads)) s.(os_sent))
  | page_raised s τ k ks :
      s.(os_threads) !! τ = Some (Emitting (k :: ks)) →
      outage_step s (AFail τ)
        (mkOutageState s.(os_latch) (<[τ := Releasing (k :: ks) []]> s.(os_threads)) s.(os_sent))
  | claims_released s τ kinds ks :
      s.(os_threads) !! τ = Some (Releasing kinds ks) →
      outage_step s (ARelease τ)
        (mkOutageState (_release_claims kinds τ s.(os_latch))
           (<[τ := Emitting ks]> s.(os_threads)) s.(os_sent)).

Definition outage_moves (s s' : OutageState) : Prop := ∃ a, outage_step s a s'.

Definition outage_start : OutageState := mkOutageState (mkOutageLatch ∅ ∅) ∅ [].

(** ** Its invariant *)

Lemma fresh_spec present m k : k ∈ fresh_kinds present m ↔ k ∈ present ∧ m !! k = None.
Proof.
  unfold fresh_kinds. rewrite list_elem_of_filter. split; [by intros [? _]|].
  intros H. split; [done|]. destruct k; set_solver.
Qed.

Lemma fresh_nodup present m : NoDup (fresh_kinds present m).
Proof.
  apply NoDup_filter. repeat constructor; rewrite ?list_elem_of_singleton; try done.
  by intros ?%elem_of_nil.
Qed.

Lemma claim_all_lookup (ks : list WorktreeProbeKind) (τ : nat)
  (m : gmap WorktreeProbeKind nat) k :
  foldr (λ k m, <[k := τ]> m) m ks !! k = if decide (k ∈ ks) then Some τ else m !! k.
Proof.
  induction ks as [|k' ks IH]; [by rewrite decide_False by apply not_elem_of_nil|]. cbn [foldr].
  destruct (decide (k = k')) as [->|Hne].
  - rewrite lookup_insert_eq, decide_True by (by apply elem_of_cons; left). done.
  - rewrite lookup_insert_ne, IH by done.
    destruct (decide (k ∈ ks)) as [Hk|Hk].
    + by rewrite decide_True by (by apply elem_of_cons; right).
    + rewrite decide_False; [done|]. by intros [?|?]%elem_of_cons.
Qed.

(** What a claim does to one kind. *)
Lemma settle_claim_spec c τ l fresh l' :
  settle_claim c τ l = (fresh, l') →
  NoDup fresh
  ∧ ∀ k, l'.(la_announced) !! k
         = if decide (k ∈ fresh) then Some τ
           else if negb c.(dc_truncated) && negb (bool_decide (k ∈ dom c.(dc_outages)))
           then None else l.(la_announced) !! k.
Proof.
  unfold settle_claim. intros [= <- <-]. split; [apply fresh_nodup|]. intros k. cbn.
  rewrite claim_all_lookup. destruct (decide _); [done|].
  destruct (dc_truncated c); [done|]. cbn.
  destruct (bool_decide_reflect (k ∈ dom (dc_outages c))) as [Hk|Hk]; cbn.
  - destruct (la_announced l !! k) as [v|] eqn:E.
    + apply map_lookup_filter_Some. by split.
    + apply map_lookup_filter_None. by left.
  - apply map_lookup_filter_None. right. by intros v _ ?.
Qed.

Lemma claimed_unlatched c τ l fresh l' k :
  settle_claim c τ l = (fresh, l') → k ∈ fresh → l.(la_announced) !! k = None.
Proof.
  unfold settle_claim. intros [= <- <-] [Hp Hn]%fresh_spec. destruct (dc_truncated c); [done|].
  apply map_lookup_filter_None in Hn as [Hn|Hn]; [done|].
  destruct (la_announced l !! k) as [v|] eqn:E; [|done]. by destruct (Hn v eq_refl).
Qed.

Lemma release_spec kinds τ l k :
  (_release_claims kinds τ l).(la_announced) !! k
  = if decide (k ∈ kinds ∧ l.(la_announced) !! k = Some τ) then None else l.(la_announced) !! k.
Proof.
  cbn. destruct (la_announced l !! k) as [v|] eqn:E.
  - destruct (decide _) as [[Hk [= ->]]|Hn].
    + apply map_lookup_filter_None. right. intros v' Hv'. rewrite E in Hv'. injection Hv' as <-. tauto.
    + apply map_lookup_filter_Some. split; [done|]. cbn. intros [? ->]. apply Hn. by split.
  - rewrite decide_False by (by intros [_ ?]). apply map_lookup_filter_None. by left.
Qed.

Definition pending_of (s : OutageState) (τ : nat) : list WorktreeProbeKind :=
  match s.(os_threads) !! τ with Some p => pending_kinds p | None => [] end.

(** Every latched kind was announced by its owner, or is about to be by it;
    nothing announced is still pending; nothing is announced twice. *)
Definition outage_inv (s : OutageState) : Prop :=
  (∀ k τ, latched s k = Some τ → (τ, k) ∈ s.(os_sent) ∨ k ∈ pending_of s τ)
  ∧ (∀ k τ, (τ, k) ∈ s.(os_sent) → is_Some (s.(os_threads) !! τ) ∧ k ∉ pending_of s τ)
  ∧ (∀ τ, NoDup (pending_of s τ))
  ∧ NoDup s.(os_sent).

(** A thread moves to a phase with fewer pending kinds. *)
Lemma pending_insert s τ p τ' l sent :
  pending_of (mkOutageState l (<[τ := p]> s.(os_threads)) sent) τ'
  = if decide (τ' = τ) then pending_kinds p else pending_of s τ'.
Proof.
  unfold pending_of. cbn. destruct (decide (τ' = τ)) as [->|Hne].
  - by rewrite lookup_insert_eq.
  - by rewrite lookup_insert_ne by congruence.
Qed.

Lemma thread_pending s τ p : s.(os_threads) !! τ = Some p → pending_of s τ = pending_kinds p.
Proof. unfold pending_of. by intros ->. Qed.

Lemma thread_insert_some s τ p τ' :
  is_Some (s.(os_threads) !! τ') → is_Some ((<[τ := p]> s.(os_threads)) !! τ').
Proof. intros. apply lookup_insert_is_Some. destruct (decide (τ = τ')); naive_solver. Qed.

(** A step that changes neither the latch's owners nor what was sent, and
    keeps the thread's pending kinds. *)
Lemma outage_inv_shift s τ p p' :
  s.(os_threads) !! τ = Some p → pending_kinds p' = pending_kinds p → outage_inv s →
  outage_inv (mkOutageState s.(os_latch) (<[τ := p']> s.(os_threads)) s.(os_sent)).
Proof.
  intros Hp Heq (I1 & I2 & I3 & I4). apply thread_pending in Hp as Hpend.
  assert (Hsame : ∀ τ', pending_of (mkOutageState s.(os_latch) (<[τ := p']> s.(os_threads)) s.(os_sent)) τ'
                        = pending_of s τ').
  { intros τ'. rewrite pending_insert. destruct (decide _) as [->|]; [congruence|done]. }
  split_and!; [|intros k τ' Hs|intros τ'; rewrite Hsame; apply I3|done].
  - intros k τ' Hl. rewrite Hsame. by apply I1.
  - rewrite Hsame. destruct (I2 k τ' Hs) as [? ?]. split; [|done]. by apply thread_insert_some.
Qed.

Lemma outage_step_inv s a s' : outage_step s a s' → outage_inv s → outage_inv s'.
Proof.
  destruct 1 as [s c τ fresh l Hnew Hclaim|s τ k ks Hp|s τ k ks Hp|s τ k ks Hp|s τ kinds ks Hp];
    intros Hinv.
  - destruct Hinv as (I1 & I2 & I3 & I4). apply settle_claim_spec in Hclaim as [Hnd Hl].
    unfold outage_inv. split_and!; [| | |done].
    + intros k τ' Hk. rewrite pending_insert. unfold latched in Hk. cbn [os_latch os_sent] in *.
      rewrite Hl in Hk. destruct (decide (k ∈ fresh)).
      * injection Hk as <-. right. by rewrite decide_True.
      * destruct (_ && _); [done|]. destruct (I1 k τ' Hk) as [?|Hpen]; [by left|right].
        destruct (decide _) as [->|]; [|done]. unfold pending_of in Hpen. rewrite Hnew in Hpen.
        by apply elem_of_nil in Hpen.
    + intros k τ' Hk. rewrite pending_insert. destruct (I2 k τ' Hk) as [Hs ?].
      split; [by apply thread_insert_some|]. destruct (decide _) as [->|]; [|done].
      rewrite Hnew in Hs. by destruct Hs.
    + intros τ'. rewrite pending_insert. by destruct (decide _).
  - destruct Hinv as (I1 & I2 & I3 & I4). apply thread_pending in Hp as Hpend. cbn in Hpend.
    pose proof (I3 τ) as Hnd. rewrite Hpend in Hnd. apply NoDup_cons in Hnd as [Hk Hks].
    unfold outage_inv, latched. cbn [os_sent os_latch]. split_and!.
    + intros k' τ' Hl. rewrite pending_insert. destruct (I1 k' τ' Hl) as [Hs|Hs].
      * left. apply elem_of_app. by left.
      * destruct (decide (τ' = τ)) as [->|]; [|by right]. rewrite Hpend in Hs.
        apply elem_of_cons in Hs as [->|Hs]; [left|by right]. apply elem_of_app. right.
        by apply list_elem_of_singleton.
    + intros k' τ' Hs. rewrite pending_insert. apply elem_of_app in Hs as [Hs|Hs].
      * destruct (I2 k' τ' Hs) as [? Hn]. split; [by apply thread_insert_some|].
        destruct (decide (τ' = τ)) as [->|]; [|done]. rewrite Hpend in Hn. by apply not_elem_of_cons in Hn as [_ ?].
      * apply list_elem_of_singleton in Hs as [= -> ->]. rewrite decide_True by done.
        split; [|done]. cbn. rewrite lookup_insert_eq. by eexists.
    + intros τ'. rewrite pending_insert. by destruct (decide _).
    + apply NoDup_app. split; [done|]. split; [|apply NoDup_singleton]. intros [τ' k'] Hs Hx.
      apply list_elem_of_singleton in Hx as [= -> ->]. destruct (I2 k τ Hs) as [_ Hn].
      rewrite Hpend in Hn. by apply not_elem_of_cons in Hn as [? _].
  - by eapply outage_inv_shift.
  - eapply outage_inv_shift; [exact Hp|cbn; by rewrite app_nil_r|done].
  - destruct Hinv as (I1 & I2 & I3 & I4). apply thread_pending in Hp as Hpend. cbn in Hpend.
    pose proof (I3 τ) as Hnd. rewrite Hpend in Hnd. apply NoDup_app in Hnd as (_ & _ & Hks).
    unfold outage_inv, latched. cbn [os_sent os_latch]. split_and!; [| | |done].
    + intros k' τ' Hl. rewrite pending_insert. rewrite release_spec in Hl.
      destruct (decide (k' ∈ kinds ∧ _)) as [|Hn]; [done|].
      destruct (I1 k' τ' Hl) as [?|Hs]; [by left|right]. destruct (decide (τ' = τ)) as [->|]; [|done].
      rewrite Hpend in Hs. apply elem_of_app in Hs as [Hs|Hs]; [|done]. by destruct Hn.
    + intros k' τ' Hs. rewrite pending_insert. destruct (I2 k' τ' Hs) as [? Hn].
      split; [by apply thread_insert_some|]. destruct (decide (τ' = τ)) as [->|]; [|done].
      rewrite Hpend in Hn. by apply not_elem_of_app in Hn as [_ ?].
    + intros τ'. rewrite pending_insert. by destruct (decide _).
Qed.

Lemma outage_reachable_inv s : rtc outage_moves outage_start s → outage_inv s.
Proof.
  intros H. assert (H0 : outage_inv outage_start).
  { unfold outage_inv, latched, pending_of, outage_start. cbn. split_and!.
    - intros k τ Hk. by rewrite lookup_empty in Hk.
    - by intros k τ ?%elem_of_nil.
    - intros τ. rewrite lookup_empty. constructor.
    - constructor. }
  induction H as [|s1 s2 s3 [a Hs] _ IH] in H0 |- *; [done|]. apply IH. by eapply outage_step_inv.
Qed.

(** C29: an outage is announced once by the settle that claimed it, and never
    lost in silence.  Over every interleaving of concurrent settles - their
    critical sections, their announcements, each of which may succeed or fail
    in either way, and their rollbacks - no claim is announced twice; once
    every settle is done, each latched kind was announced by its owner; and a
    latched kind changes hands in no step: it stays with its owner until the
    owner rolls it back after a failure, or a settle that saw every candidate
    no longer sees it. *)
Theorem outage_latch_sound s :
  rtc outage_moves outage_start s →
  NoDup s.(os_sent)
  ∧ ((∀ τ p, s.(os_threads) !! τ = Some p → p = Emitting []) →
     ∀ k τ, latched s k = Some τ → (τ, k) ∈ s.(os_sent))
  ∧ ∀ a s' k τ, outage_step s a s' → latched s k = Some τ →
      latched s' k = Some τ
      ∨ latched s' k = None
        ∧ (a = ARelease τ
           ∨ ∃ c τ', a = ABegin c τ' ∧ c.(dc_truncated) = false ∧ k ∉ dom c.(dc_outages)).
Proof.
  intros (I1 & _ & _ & I4)%outage_reachable_inv. split; [done|]. split.
  - intros Hdone k τ Hl. destruct (I1 k τ Hl) as [?|Hs]; [done|]. unfold pending_of in Hs.
    destruct (os_threads s !! τ) as [p|] eqn:E; [rewrite (Hdone _ _ E) in Hs|];
      by apply elem_of_nil in Hs.
  - clear I1 I4. intros a s' k τ Hstep Hl. unfold latched in *.
    destruct Hstep as [s c τ' fresh l Hnew Hclaim| | | |s τ' kinds ks Hp]; [|by left..|].
    + cbn. pose proof (claimed_unlatched _ _ _ _ _ k Hclaim) as Hun.
      apply settle_claim_spec in Hclaim as [_ Hcl]. rewrite Hcl.
      destruct (decide (k ∈ fresh)) as [Hk|_]; [by rewrite (Hun Hk) in Hl|].
      destruct (dc_truncated c) eqn:Htr; [by left|]. cbn.
      destruct (bool_decide_reflect (k ∈ dom (dc_outages c))); [by left|]. right. cbn.
      split; [done|]. right. by exists c, τ'.
    + cbn [os_latch]. rewrite release_spec. destruct (decide _) as [[_ Hτ]|]; [|by left].
      right. split; [done|]. left. congruence.
Qed.

(** ** The executable settle is a run of the machine *)

Section Run.
Context {C : Clock} {F : AnnounceFault}.

(** The events a thread recorded, one for each kind it sent. *)
Definition pages_of (c : DirtyChecks) (ks : list WorktreeProbeKind) (evs : list event) : Prop :=
  Forall2 (λ k e, ∃ o at_, c.(dc_outages) !! k = Some o ∧ e = outage_event o at_) ks evs.

(** The announcements of one thread run to their end. *)
Definition thread_run (c : DirtyChecks) (τ : nat) (w : OutageWorld) (m : M OutageWorld unit)
  (s : OutageState) : Prop :=
  ∃ s' ks evs, rtc outage_moves s s'
    ∧ s'.(os_latch) = (exec m w).(og_latch)
    ∧ s'.(os_threads) !! τ = Some (Emitting [])
    ∧ s'.(os_sent) = s.(os_sent) ++ map (pair τ) ks
    ∧ (exec m w).(og_events) = w.(og_events) ++ evs ∧ pages_of c ks evs.

Lemma thread_run_here c τ w m s :
  s.(os_latch) = (exec m w).(og_latch) → (exec m w).(og_events) = w.(og_events) →
  s.(os_threads) !! τ = Some (Emitting []) → thread_run c τ w m s.
Proof.
  intros Hl He Ht. exists s, [], []. cbn. rewrite !app_nil_r. split_and!; try done. by constructor.
Qed.

(** A step, then the rest of the run. *)
Lemma thread_run_step c τ w w' m m' s s' :
  outage_moves s s' → s'.(os_sent) = s.(os_sent) → w'.(og_events) = w.(og_events) →
  exec m w = exec m' w' → thread_run c τ w' m' s' → thread_run c τ w m s.
Proof.
  intros Hs Hse He Hex (s2 & ks & evs & Hr & Hl & Ht & Hs2 & He2 & Hp). exists s2, ks, evs.
  rewrite Hex, <- He, <- Hse. split_and!; try done. by eapply rtc_l.
Qed.

(** The first announcement of a settle, by its outcome. *)
Ltac announce_head Ho Hf :=
  unfold exec; cbn [announce_each]; rewrite Ho; unfold try_except, _announce, mbind, M_bind;
  rewrite Hf; try done.

Lemma announce_each_run c τ fresh w s :
  (∀ k, k ∈ fresh → is_Some (c.(dc_outages) !! k)) →
  s.(os_threads) !! τ = Some (Emitting fresh) → s.(os_latch) = w.(og_latch) →
  thread_run c τ w (announce_each c τ fresh) s.
Proof.
  revert w s. induction fresh as [|k ks IH]; intros w s Hin Hp Hl; [by apply thread_run_here|].
  destruct (Hin k (list_elem_of_here _ _)) as [o Ho].
  assert (Hin' : ∀ k', k' ∈ ks → is_Some (dc_outages c !! k')) by (intros; apply Hin; by right).
  destruct w as [l evs n]. cbn in Hl.
  assert (Hrel : ∀ kinds rest w' (m' : M OutageWorld unit),
    outage_moves s (mkOutageState s.(os_latch) (<[τ := Releasing kinds rest]> s.(os_threads)) s.(os_sent)) →
    og_events w' = evs → og_latch w' = _release_claims kinds τ l →
    exec (announce_each c τ (k :: ks)) (mkOutageWorld l evs n) = exec m' w' →
    (∀ s', s'.(os_threads) !! τ = Some (Emitting rest) → s'.(os_latch) = og_latch w' →
       thread_run c τ w' m' s') →
    thread_run c τ (mkOutageWorld l evs n) (announce_each c τ (k :: ks)) s).
  { intros kinds rest w' m' Hs He Hlw Hex Hrest.
    eapply (thread_run_step _ _ _ w' _ m'); [exact Hs|done|done|done|].
    set (s1 := mkOutageState s.(os_latch) _ _). eapply (thread_run_step _ _ _ w' _ m' s1
      (mkOutageState (_release_claims kinds τ s.(os_latch)) (<[τ := Emitting rest]> s1.(os_threads))
         s1.(os_sent))); [|done|done|done|].
    - exists (ARelease τ). apply (claims_released s1). apply lookup_insert_eq.
    - apply Hrest; [apply lookup_insert_eq|cbn; by rewrite Hlw, Hl]. }
  destruct (announce_fault τ (out_kind o)) as [e|] eqn:Hf.
  - set (w1 := λ kinds, mkOutageWorld (_release_claims kinds τ l) evs (S n)).
    destruct (decide (e = OSError)) as [->|Hne].
    + apply (Hrel [k] ks (w1 [k]) (announce_each c τ ks)); try done.
      * by eexists; eapply page_lost.
      * announce_head Ho Hf.
      * intros s' ??. by apply IH.
    + apply (Hrel (k :: ks) [] (w1 (k :: ks)) (mret tt)); try done.
      * by eexists; eapply page_raised.
      * announce_head Ho Hf; by destruct e.
      * intros s' ??. by apply thread_run_here.
  - clear Hrel. set (w1 := mkOutageWorld l (evs ++ [outage_event o (clock_at n)]) (S n)).
    set (s1 := mkOutageState s.(os_latch) (<[τ := Emitting ks]> s.(os_threads)) (s.(os_sent) ++ [(τ, k)])).
    destruct (IH w1 s1 Hin') as (s' & ks' & evs' & Hr & Hl' & Ht & Hs & He & Hpg);
      [apply lookup_insert_eq|done|].
    assert (Hex : exec (announce_each c τ (k :: ks)) (mkOutageWorld l evs n)
                  = exec (announce_each c τ ks) w1).
    { announce_head Ho Hf. }
    exists s', (k :: ks'), (outage_event o (clock_at n) :: evs'). rewrite Hex, Hl', Ht, Hs, He. cbn.
    rewrite <- !app_assoc. split_and!; try done.
    + eapply rtc_l; [|exact Hr]. exists (ASent τ k). by apply page_sent.
    + constructor; [by exists o, (clock_at n)|done].
Qed.

(** C30: the executable settle refines the machine.  A settle under a token not
    used before, from any state of the machine with the same latch, is a run of
    machine steps of that one thread to its end: it leaves the latch the run
    leaves, and records exactly one attention event for each announcement the
    run sends, however its announcements fail; so what holds of every
    interleaving of machine steps holds of every interleaving of settles. *)
Theorem settle_refines_machine c τ w s :
  s.(os_latch) = w.(og_latch) → s.(os_threads) !! τ = None →
  ∃ s' ks evs, rtc outage_moves s s'
    ∧ s'.(os_latch) = (exec (settle_outages c τ) w).(og_latch)
    ∧ s'.(os_threads) !! τ = Some (Emitting [])
    ∧ s'.(os_sent) = s.(os_sent) ++ map (pair τ) ks
    ∧ (exec (settle_outages c τ) w).(og_events) = w.(og_events) ++ evs ∧ pages_of c ks evs.
Proof.
  intros Hl Hnew. destruct (settle_claim c τ w.(og_latch)) as [fresh l] eqn:Hclaim.
  eapply (thread_run_step c τ w (mkOutageWorld l w.(og_events) w.(og_ticks)) (settle_outages c τ)
            (announce_each c τ fresh) s
            (mkOutageState l (<[τ := Emitting fresh]> s.(os_threads)) s.(os_sent)));
    [|done|done| |].
  - exists (ABegin c τ). apply settle_begins; [done|]. by rewrite Hl.
  - unfold exec, settle_outages, mbind, M_bind. by rewrite Hclaim.
  - apply announce_each_run; [|by apply lookup_insert_eq|done]. intros k Hk.
    unfold settle_claim in Hclaim. injection Hclaim as <- _. apply fresh_spec in Hk as [Hk _].
    by apply elem_of_dom.
Qed.
End Run.
