(* ===== verification/QueueRows.v ===== *)
(** * Locked mutators of one claimed row: [queue_rows.py], the ceiling of
      [reconcile/_shared/_reap.py]

    A claim is undone, parked or stamped by re-finding its own RUNNING row in
    a freshly loaded queue: [created_at] or the session id is the identity, so
    a duplicate row of the ticket is never touched in its place. *)

From S2P Require Import Prelude PyStr Enums Tasks World Vocab Lifecycle GateBackoff.
From S2P Require Import Clients Crud.

#[local] Open Scope cw_scope.

Definition _SPAWN_ERROR_BACKOFF_INITIAL_SECONDS : Z := 2.
Definition _SPAWN_ERROR_BACKOFF_CAP_SECONDS : Z := 300.

(** ** The attempt ceiling

    [CeilingOff] is the lane's explicit [attempt_ceiling: false]. *)

Definition resolve_attempt_ceiling (c : option ClientConfig) (task : TicketTask)
  (config : OrchestratorConfig) : option Z :=
  match (c ← c; lane_walk lc_attempt_ceiling task.(lane) (effective_lanes c)) with
  | Some CeilingOff => None
  | Some (CeilingAt n) => Some n
  | None => Some config.(global_attempt_ceiling)
  end.

(** ** Rows another pass owns *)

Definition _is_fix_dispatch_held (task : TicketTask) : bool :=
  is_Some_b task.(pending_fix_dispatch) || is_Some_b task.(fix_dispatch_session_id).

Definition _is_backstop_exempt (task : TicketTask) : bool :=
  is_Some_b task.(usage_limit_act) || _is_fix_dispatch_held task.

(** ** The re-find *)

(** The identity a caller holds; [None] in both is refused. *)
Record RowIdentity := mkRowIdentity {
  rid_created_at : option Z;
  rid_session_id : option string }.

Definition is_running_row (tid cl : string) (who : RowIdentity) (t : TicketTask) : bool :=
  is_row tid cl t
  && bool_decide (t.(status) = QueueItemStatus.RUNNING)
  && match who.(rid_created_at) with None => true | Some c => Z.eqb t.(created_at) c end
  && match who.(rid_session_id) with
     | None => true | Some s => bool_decide (t.(session_id) = Some s)
     end.

Definition _find_running_row (store : DevQueueStore) (tid cl : string) (who : RowIdentity)
  : exn + option (nat * TicketTask) :=
  if negb (is_Some_b who.(rid_created_at)) && negb (is_Some_b who.(rid_session_id))
  then inl ValueError
  else inr (list_find (λ t, is_running_row tid cl who t = true) store.(tasks)).

Section Mutators.
Context {C : Clock}.

(** [find, mutate, save]: the file is written whether or not a row matched. *)
Definition with_running_row (tid cl : string) (who : RowIdentity) (m : M World unit)
  : M QueueWorld bool :=
  store ← load_dev_queue;
  match _find_running_row store tid cl who with
  | inl e => raise e
  | inr None => save_dev_queue store ;; mret false
  | inr (Some (i, t)) =>
      t' ← on_row t m;
      save_dev_queue (set_tasks (<[i := t']> store.(tasks)) store) ;;
      mret true
  end.

(** ** Revert to PENDING *)

Record RevertArgs := mkRevertArgs {
  stamp_backoff : bool;
  conflict_session : option string;
  defer_for : option Z;
  revert_unproductive : bool }.

Definition default_revert : RevertArgs := mkRevertArgs false None None true.

(** [defer_for] releases the claim: the attempt is taken back. *)
Definition release_claim (d : Z) : M World unit :=
  assign (λ t, t <| attempts := Z.max 0 (t.(attempts) - 1) |>) ;;
  n ← now;
  assign (λ t, t <| next_eligible_at := Some (n + d)%Z |>).

Definition spawn_error_delay (count : Z) : Z :=
  seconds (exponential_backoff_seconds count _SPAWN_ERROR_BACKOFF_INITIAL_SECONDS
             _SPAWN_ERROR_BACKOFF_CAP_SECONDS).

Definition back_off : M World unit :=
  assign (λ t, t <| spawn_error_count := (t.(spawn_error_count) + 1)%Z |>) ;;
  k ← read spawn_error_count;
  n ← now;
  assign (λ t, t <| next_eligible_at := Some (n + spawn_error_delay k)%Z |>).

Definition revert_row (a : RevertArgs) : M World unit :=
  transition_task_status QueueItemStatus.PENDING None None None
    (a.(revert_unproductive) && negb (is_Some_b a.(defer_for))) ;;
  assign (λ t, t <| session_id := None |>) ;;
  match a.(defer_for) with None => mret tt | Some d => release_claim d end ;;
  match a.(conflict_session) with
  | None => mret tt
  | Some s => assign (λ t, t <| hook_context_conflict_session_id := Some s |>)
  end ;;
  when a.(stamp_backoff) back_off.

Definition _revert_claimed_task_to_pending (cl tid : string) (who : RowIdentity)
  (a : RevertArgs) : M QueueWorld bool :=
  with_running_row tid cl who (revert_row a).

(** ** Park for the operator *)

Definition park_payload (t : TicketTask) (tid cl disp breadcrumbs : string)
  : list (string * json) :=
  [("session_id", JStr (default "" t.(session_id)));
   ("session_name", JStr "");
   ("client", JStr cl);
   ("ticket_id", JStr tid);
   ("claude_session_id", JNull);
   ("paused_status", JStr disp);
   ("breadcrumbs", JStr breadcrumbs);
   ("crashed", JBool false);
   ("lane", JStr t.(lane))].

Definition park_row (tid cl disp breadcrumbs : string) (unproductive : bool)
  (codex_orphan : option string) : M World unit :=
  transition_task_status QueueItemStatus.BLOCKED_ON_USER (Some disp) None None unproductive ;;
  t ← read id;
  record_event SESSION_NEEDS_ATTENTION (park_payload t tid cl disp breadcrumbs) (Some tid) ;;
  assign (λ t, t <| session_id := None |>) ;;
  match codex_orphan with
  | None => mret tt
  | Some s => assign (λ t, t <| codex_orphan_session_id := Some s |>)
  end.

Definition _park_running_task_blocked_on_user (tid cl disp breadcrumbs : string)
  (who : RowIdentity) (unproductive : bool) (codex_orphan : option string)
  : M QueueWorld bool :=
  with_running_row tid cl who (park_row tid cl disp breadcrumbs unproductive codex_orphan).

(** ** Spawn success *)

Definition _apply_spawn_success_fields (sid : string) (t : TicketTask) : TicketTask :=
  let t := t <| session_id := Some sid |>
             <| spawn_error_count := 0%Z |>
             <| next_eligible_at := None |>
             <| ever_spawned := true |>
             <| hook_context_conflict_session_id := None |>
             <| regressed_into_stage := None |>
             <| scope_drift_approved_extra_files := None |>
             <| scope_drift_approved_head := None |> in
  if bool_decide (t.(stage) = Stage.REVIEW) then t <| pending_operator_comment := false |> else t.
End Mutators.
