(* ===== verification/Backstops.v ===== *)
(** * The reconciler's queue sweeps: [reconcile/tasks.py],
      [reconcile/concierge/cancelled_row.py]

    Each tick recovers the rows no session will finish: RUNNING rows of
    sessions that are over, PENDING rows whose pull request merged, PENDING
    rows of a ticket that already ended, parked rows whose gate has cleared.
    What a sweep reads before it takes the queue lock may be stale: [others]
    is what other processes do to the queue in between. *)

From S2P Require Import Prelude PyStr Enums Tasks World Vocab Lifecycle GateBackoff Clients Crud.
From S2P Require Import GhReads PrHydrate Requeue Probes QueueRows.

#[local] Open Scope cw_scope.

Definition _COMPLETION_ROUTING_GRACE_SECONDS : Z := 60.
Definition _DIRTY_WORKTREE_REASON : string := "dirty_worktree".
Definition _TIMED_OUT_MERGED_REASON : string := "timed_out_merged".
Definition _NEVER_CLAIMED_COMPLETION_REASON : string := "never_claimed_completion_refused".

(** The queue and its inbox, the session file, the cursor of the stale-gate
    consumer, the desktop notifications fired. *)
Record RecWorld := mkRecWorld {
  rw_queue : QueueWorld;
  rw_sessions : list Session;
  rw_cursor : option string;
  rw_pushes : list (string * string) }.

#[export] Instance RecWorld_eta : RecordEta RecWorld := λ w,
  mkRecWorld w.(rw_queue) w.(rw_sessions) w.(rw_cursor) w.(rw_pushes).
#[export] Instance upd_rw_queue : Updater rw_queue := ltac:(derive_updater).
#[export] Instance upd_rw_sessions : Updater rw_sessions := ltac:(derive_updater).
#[export] Instance upd_rw_cursor : Updater rw_cursor := ltac:(derive_updater).
#[export] Instance upd_rw_pushes : Updater rw_pushes := ltac:(derive_updater).

Definition on_rq {A} (m : M QueueWorld A) : M RecWorld A := λ w,
  let '(r, q) := m w.(rw_queue) in (r, w <| rw_queue := q |>).

(** [{k(x): x for x in l}]: the last of equal keys stays. *)
Definition dict_by {K A} `{Countable K} (k : A → K) (l : list A) : gmap K A :=
  fold_left (λ m x, <[k x := x]> m) l ∅.

Section Rows.
Context {C : Clock}.

(** [for task in store.tasks: ... transition_task_status(task, ...)]: the rows
    afterwards, and those acted on, as they were. *)
Fixpoint sweep_rows (act : TicketTask → option (M World unit)) (ts : list TicketTask)
  : M QueueWorld (list TicketTask * list TicketTask) :=
  match ts with
  | [] => mret ([], [])
  | t :: ts' =>
      match act t with
      | None => r ← sweep_rows act ts'; mret (t :: r.1, r.2)
      | Some m =>
          t' ← on_row t m;
          r ← sweep_rows act ts';
          mret (t' :: r.1, t :: r.2)
      end
  end.

(** The sweep of the whole file, saved when a row changed. *)
Definition sweep_store (act : TicketTask → option (M World unit))
  : M QueueWorld (list TicketTask) :=
  store ← load_dev_queue;
  r ← sweep_rows act store.(tasks);
  when (negb (bool_decide (r.2 = []))) (save_dev_queue (set_tasks r.1 store)) ;;
  mret r.2.
End Rows.

(** ** Rows of sessions that are over *)

Definition past_completion_grace (now : Z) (s : Session) : bool :=
  match s.(sess_completed_at) with
  | None => true
  | Some c => Z.leb (seconds _COMPLETION_ROUTING_GRACE_SECONDS) (now - c)
  end.

Definition _sessions_past_completion_grace (sessions : list Session) (now : Z) : list Session :=
  filter (λ s, past_completion_grace now s = true) sessions.

(** One of the targets of [backstop_targets]. *)
Definition backstop_target (st : SessionStatus.SessionStatus) (now : Z) (s : Session) : bool :=
  bool_decide (s.(sess_status) = st) && bool_decide (s.(sess_origin) = SessionOrigin.DAEMON)
  && past_completion_grace now s.

Definition owned_running (ids : gset string) (t : TicketTask) : bool :=
  match t.(session_id) with
  | None => false
  | Some sid => bool_decide (sid ∈ ids) && bool_decide (t.(status) = QueueItemStatus.RUNNING)
                && negb (_is_backstop_exempt t)
  end.

Definition ids_of (ss : list Session) : gset string := list_to_set (map sess_id ss).

Definition row_session_ids (ts : list TicketTask) : gset string :=
  list_to_set (omap session_id ts).

Definition backstop_targets (sessions : list Session) (ts : list TicketTask)
  (st : SessionStatus.SessionStatus) (now : Z) : list Session * gset string :=
  let targets := _sessions_past_completion_grace
    (filter (λ s, s.(sess_status) = st ∧ s.(sess_origin) = SessionOrigin.DAEMON) sessions) now in
  (targets, row_session_ids (filter (λ t, owned_running (ids_of targets) t = true) ts)).

(** The lockless capture of what the two backstops will ask: a session about to
    pass its grace is captured too. *)
Definition DIRTY_CHECK_LOOKAHEAD_SECONDS : Z := 15.

Definition capture_backstop_dirty_checks {C : Clock} {D : DirtyProbe} (deferred_last : gset string)
  (sessions : list Session) (ts : list TicketTask) (now : Z) : M CaptureWorld unit :=
  let lookahead := (now + seconds DIRTY_CHECK_LOOKAHEAD_SECONDS)%Z in
  let asked st :=
    let '(targets, running_ids) := backstop_targets sessions ts st lookahead in
    filter (λ s, s.(sess_id) ∈ running_ids) targets in
  capture_all deferred_last (asked SessionStatus.TIMED_OUT ++ asked SessionStatus.COMPLETED).

(** [dict.get(task.session_id)]. *)
Definition session_of {A} (by_id : gmap string A) (t : TicketTask) : option A :=
  sid ← t.(session_id); by_id !! sid.

(** The disposition the row is parked with; [None] reverts it. *)
Definition backstop_park (dirty : gmap string string) (by_id : gmap string Session)
  (t : TicketTask) : option string :=
  let recovery := (s ← session_of by_id t; s.(sess_recovery_disposition)) in
  if is_Some_b (session_of dirty t) || is_Some_b recovery
  then Some (default _DIRTY_WORKTREE_REASON (str_or recovery None))
  else None.

Section Backstop.
Context {C : Clock}.

Definition backstop_row (park : option string) : M World unit :=
  match park with
  | Some disp => transition_task_status QueueItemStatus.BLOCKED_ON_USER (Some disp) None None true
  | None => transition_task_status QueueItemStatus.PENDING None None None true
  end ;;
  assign (λ t, t <| session_id := None |>).

Definition backstop_act (ids : gset string) (dirty : gmap string string)
  (by_id : gmap string Session) (t : TicketTask) : option (M World unit) :=
  if owned_running ids t then Some (backstop_row (backstop_park dirty by_id t)) else None.

Definition dirty_page (dirty : gmap string string) (s : Session) : event :=
  let reason := default (default _DIRTY_WORKTREE_REASON (dirty !! s.(sess_id)))
                  (str_or s.(sess_recovery_reason) None) in
  mkEvent SESSION_NEEDS_ATTENTION
    [("session_id", JStr s.(sess_id)); ("session_name", JStr s.(sess_name));
     ("client", JStr s.(sess_client));
     ("ticket_id", of_opt_str (ticket_id_for_session s.(sess_name)));
     ("claude_session_id", of_opt_str s.(sess_claude_session_id));
     ("paused_status", JStr (default _DIRTY_WORKTREE_REASON
                               (str_or s.(sess_recovery_disposition) None)));
     ("breadcrumbs", JStr (match s.(sess_worktree_path) with
                           | Some wt => wt +:+ ": " +:+ reason | None => reason end));
     ("crashed", JBool false); ("lane", of_opt_str s.(sess_lane))] None.

Definition _revert_running_tasks_for_sessions (ids : gset string) (dirty : gmap string string)
  (by_id : gmap string Session) : M RecWorld (list string) :=
  if bool_decide (ids = ∅) then mret [] else
  acted ← on_rq (sweep_store (backstop_act ids dirty by_id));
  let parked := filter (λ t, is_Some (backstop_park dirty by_id t)) acted in
  let reverted := filter (λ t, backstop_park dirty by_id t = None) acted in
  let notify := omap (session_of by_id) parked in
  on_rq (q_record (map (dirty_page dirty) notify)) ;;
  modify (λ w, w <| rw_pushes := w.(rw_pushes)
                    ++ map (λ s, (s.(sess_name), s.(sess_client))) notify |>) ;;
  mret (map ticket_id reverted).

(** [partition_dirty]: the reasons and the deferred sessions. *)
Fixpoint partition_dirty (checks : option DirtyChecks) (ss : list Session)
  : M RecWorld (gmap string string * gset string) :=
  match ss with
  | [] => mret (∅, ∅)
  | s :: ss' =>
      now ← (if has_capture checks s then on_rq q_now else mret 0%Z);
      r ← partition_dirty checks ss';
      mret (match lookup_dirty_reason checks s now with
            | inl _ => (r.1, {[s.(sess_id)]} ∪ r.2)
            | inr (Some reason) => (<[s.(sess_id) := default reason (r.1 !! s.(sess_id))]> r.1, r.2)
            | inr None => r
            end)
  end.

Definition _revert_terminal_backstop (others : QueueWorld → QueueWorld)
  (st : SessionStatus.SessionStatus) (checks : option DirtyChecks) : M RecWorld (list string) :=
  w ← get;
  now ← on_rq q_now;
  let '(targets, running_ids) := backstop_targets w.(rw_sessions) w.(rw_queue).(q_store).(tasks) st now in
  d ← partition_dirty checks (filter (λ s, s.(sess_id) ∈ running_ids) targets);
  let ready := running_ids ∖ d.2 in
  modify (λ w, w <| rw_sessions := map
    (λ s, if backstop_target st now s && negb (is_Some_b s.(sess_reap_reason))
             && bool_decide (s.(sess_id) ∈ ready)
          then s <| sess_reap_reason := Some COMPLETED_BACKSTOP_value |> else s)
    w.(rw_sessions) |>) ;;
  on_rq (modify others) ;;
  _revert_running_tasks_for_sessions ready d.1 (dict_by sess_id targets).

Definition revert_timed_out_tasks (others : QueueWorld → QueueWorld) (checks : option DirtyChecks)
  : M RecWorld (list string) :=
  _revert_terminal_backstop others SessionStatus.TIMED_OUT checks.

Definition revert_completed_silent_tasks (others : QueueWorld → QueueWorld) (checks : option DirtyChecks)
  : M RecWorld (list string) :=
  _revert_terminal_backstop others SessionStatus.COMPLETED checks.
End Backstop.

(** ** PENDING rows whose pull request merged *)

(** A client's clone. *)
Class RepoDir := _git_dir : ClientConfig → string.

Definition TaskIndex : Type := gmap (string * string) TicketTask.

Definition task_key (t : TicketTask) : string * string := (t.(client), t.(ticket_id)).

Definition _is_never_claimed (task : TicketTask) : bool :=
  (negb (is_Some_b task.(session_id)) && Z.eqb task.(attempts) task.(spawn_error_count))
  || negb task.(ever_spawned).

Definition merged_candidate (task_by_ticket : TaskIndex) (cutoff : Z) (s : Session)
  : option (Session * string) :=
  if negb (bool_decide (s.(sess_status) = SessionStatus.TIMED_OUT)) then None
  else if negb (bool_decide (s.(sess_origin) = SessionOrigin.DAEMON)) then None
  else match s.(sess_completed_at) with
       | None => None
       | Some c =>
           if Z.ltb c cutoff then None
           else tid ← ticket_id_for_session s.(sess_name);
                task ← task_by_ticket !! (s.(sess_client), tid);
                if bool_decide (task.(status) = QueueItemStatus.PENDING) then Some (s, tid) else None
       end.

Definition _collect_timed_out_merged_candidates (sessions : list Session)
  (task_by_ticket : TaskIndex) (cutoff : Z) : list (Session * string) :=
  omap (merged_candidate task_by_ticket cutoff) sessions.

Definition _is_dangling_client (cl : string) (clients : Clients) : bool :=
  negb (bool_decide (clients = ∅)) && negb (is_Some_b (clients !! cl)).

Section Merged.
Context {C : Clock} {G : GhAt} {R : RepoDir}.

Definition _client_cwd (cl : string) (clients : Clients) : option string :=
  c ← clients !! cl; Some (_git_dir c).

(** [pr_state_is_fresh], [pr_is_merged_from_state]. *)
Definition pr_is_merged_from_state (s : option PrState) (max_age_seconds : Z)
  : M RecWorld (option bool) :=
  match s with
  | None => mret None
  | Some s =>
      now ← on_rq q_now;
      mret (if Z.ltb (now - s.(prs_hydrated_at)) (seconds max_age_seconds)
            then Some (String.eqb s.(prs_state) _GH_PR_STATE_MERGED) else None)
  end.

Definition resolve_merged_via_pr_state (tid cl : string) (task_by_ticket : TaskIndex)
  (max_age_seconds : Z) (gh_fallback : exn + option bool * bool) : M RecWorld (option bool * bool) :=
  from_state ← pr_is_merged_from_state (t ← task_by_ticket !! (cl, tid); t.(pr_state)) max_age_seconds;
  match from_state with Some b => mret (Some b, true) | None => of_sum gh_fallback end.

Fixpoint _filter_merged_candidates (candidates : list (Session * string)) (clients : Clients)
  (task_by_ticket : TaskIndex) (max_age_seconds : Z) : M RecWorld (list (Session * string)) :=
  match candidates with
  | [] => mret []
  | (s, tid) :: rest =>
      if _is_dangling_client s.(sess_client) clients
      then _filter_merged_candidates rest clients task_by_ticket max_age_seconds
      else
        let branch := resolve_feature_branch tid (clients !! s.(sess_client))
                        (task_by_ticket !! (s.(sess_client), tid)) in
        v ← resolve_merged_via_pr_state tid s.(sess_client) task_by_ticket max_age_seconds
              (pr_is_merged_for_ticket tid (Some branch) (_client_cwd s.(sess_client) clients));
        if negb v.2 then mret []
        else r ← _filter_merged_candidates rest clients task_by_ticket max_age_seconds;
             mret (match v.1 with Some true => (s, tid) :: r | _ => r end)
  end.

Definition complete_row : M World unit :=
  transition_task_status QueueItemStatus.COMPLETED (Some "shipped") None None true ;;
  _stamp_salvage_stage.

Record Refusal := mkRefusal {
  rf_ticket_id : string; rf_session : Session; rf_lane : string; rf_ever_spawned : bool }.

(** Under the lock: the first PENDING row of each pair is completed, unless it
    was never claimed. *)
Fixpoint complete_rows (to_complete : list (Session * string)) (ts : list TicketTask)
  : M QueueWorld (list TicketTask * list string * list Refusal) :=
  match to_complete with
  | [] => mret (ts, [], [])
  | (s, tid) :: rest =>
      match list_find (λ t, is_row tid s.(sess_client) t = true
                            ∧ t.(status) = QueueItemStatus.PENDING) ts with
      | None => complete_rows rest ts
      | Some (i, t) =>
          if _is_never_claimed t then
            r ← complete_rows rest ts;
            mret (r.1.1, r.1.2, mkRefusal tid s t.(lane) t.(ever_spawned) :: r.2)
          else
            t' ← on_row t complete_row;
            r ← complete_rows rest (<[i := t']> ts);
            mret (r.1.1, tid :: r.1.2, r.2)
      end
  end.

Definition merged_event (p : Session * string) : event :=
  let '(s, tid) := p in
  mkEvent SESSION_COMPLETED
    [("session_id", JStr s.(sess_id)); ("session_name", JStr s.(sess_name));
     ("client", JStr s.(sess_client)); ("ticket_id", JStr tid);
     ("claude_session_id", of_opt_str s.(sess_claude_session_id));
     ("crashed", JBool false); ("salvaged", JBool true);
     ("reason", JStr _TIMED_OUT_MERGED_REASON)] (Some tid).

Definition refusal_breadcrumbs (r : Refusal) : string :=
  let sid := py_repr (Some r.(rf_session).(sess_id)) in
  if r.(rf_ever_spawned)
  then "matched timed-out session " +:+ sid +:+ " but the dev-queue "
       +:+ "task was never claimed (session_id=None, every attempt "
       +:+ "died on the spawn-error path) -- refusing false completion"
  else "matched timed-out session " +:+ sid +:+ " but the dev-queue "
       +:+ "task never successfully spawned a session (ever_spawned=False, "
       +:+ "every attempt died before a genuine spawn -- e.g. usage-limit "
       +:+ "reverts, which leave spawn_error_count at 0) -- refusing false "
       +:+ "completion".

Definition refusal_event (r : Refusal) : event :=
  mkEvent SESSION_NEEDS_ATTENTION
    [("session_id", JStr ""); ("session_name", JStr "");
     ("client", JStr r.(rf_session).(sess_client)); ("ticket_id", JStr r.(rf_ticket_id));
     ("claude_session_id", JNull);
     ("paused_status", JStr _NEVER_CLAIMED_COMPLETION_REASON);
     ("breadcrumbs", JStr (refusal_breadcrumbs r));
     ("crashed", JBool false); ("lane", JStr r.(rf_lane))] (Some r.(rf_ticket_id)).

(** The locked write of the completions. *)
Definition complete_locked (to_complete : list (Session * string))
  : M QueueWorld (list string * list Refusal) :=
  store ← load_dev_queue;
  r ← complete_rows to_complete store.(tasks);
  when (negb (bool_decide (r.1.2 = []))) (save_dev_queue (set_tasks r.1.1 store)) ;;
  mret (r.1.2, r.2).

Definition complete_timed_out_merged_tasks (others : QueueWorld → QueueWorld) (clients : Clients)
  (config : HydrateConfig) : M RecWorld (list string) :=
  w ← get;
  now ← on_rq q_now;
  let task_by_ticket := dict_by task_key w.(rw_queue).(q_store).(tasks) in
  let candidates := _collect_timed_out_merged_candidates w.(rw_sessions) task_by_ticket
                      (now - TIMED_OUT_MERGED_LOOKBACK_DAYS * DAY)%Z in
  if bool_decide (candidates = []) then mret [] else
  to_complete ← _filter_merged_candidates candidates clients task_by_ticket
                  config.(pr_hydration_interval_seconds);
  if bool_decide (to_complete = []) then mret [] else
  on_rq (modify others) ;;
  r ← on_rq (complete_locked to_complete);
  let completed_ids := r.1 in
  on_rq (q_record (map merged_event
                     (filter (λ p : Session * string, p.2 ∈ completed_ids) to_complete))) ;;
  on_rq (q_record (map refusal_event r.2)) ;;
  mret completed_ids.
End Merged.

(** ** PENDING rows of a ticket that ended *)

Definition _resolve_task_policy (cl ln : string) (clients : Clients) (config : OrchestratorConfig)
  : ReapPolicy.ReapPolicy :=
  default config.(global_reap_policy)
    (c ← clients !! cl; lane_walk lc_reap_policy ln (effective_lanes c)).

Definition _TERMINAL_SIBLING_STATUSES : gset queue_status :=
  {[ QueueItemStatus.COMPLETED; QueueItemStatus.CANCELLED ]}.

Definition _latest_terminal_at_index (ts : list TicketTask) : gmap (string * string) Z :=
  fold_left (λ m t,
    if bool_decide (t.(status) ∈ _TERMINAL_SIBLING_STATUSES)
       && match m !! task_key t with None => true | Some l => Z.ltb l t.(created_at) end
    then <[task_key t := t.(created_at)]> m else m) ts ∅.

(** A PENDING row at least as new as its newest terminal sibling. *)
Definition has_terminal_sibling (index : gmap (string * string) Z) (t : TicketTask) : bool :=
  bool_decide (t.(status) = QueueItemStatus.PENDING)
  && match index !! task_key t with None => false | Some l => Z.leb l t.(created_at) end.

Definition proposed_event (tid cl ln action reason : string) (sid : option string) : event :=
  mkEvent SESSION_REAP_PROPOSED
    [("session_id", of_opt_str sid); ("session_name", JNull); ("client", JStr cl);
     ("ticket_id", JStr tid); ("lane", JStr ln); ("proposed_action", JStr action);
     ("reason", JStr reason); ("evidence", JDict [])] (Some tid).

Section Siblings.
Context {C : Clock}.

Definition sibling_row (policy : ReapPolicy.ReapPolicy) : M World unit :=
  match policy with
  | ReapPolicy.AUTO => transition_task_status QueueItemStatus.CANCELLED None None None true
  | ReapPolicy.SIGNAL_ONLY =>
      transition_task_status QueueItemStatus.BLOCKED_ON_USER (Some TERMINAL_SIBLING_value)
        None None true
  end ;;
  assign (λ t, t <| session_id := None |>).

Definition sibling_act (index : gmap (string * string) Z) (clients : Clients)
  (config : OrchestratorConfig) (t : TicketTask) : option (M World unit) :=
  if has_terminal_sibling index t
  then Some (sibling_row (_resolve_task_policy t.(client) t.(lane) clients config)) else None.

Definition park_siblings_locked (clients : Clients) (config : OrchestratorConfig)
  : M QueueWorld (list TicketTask) :=
  store ← load_dev_queue;
  let index := _latest_terminal_at_index store.(tasks) in
  if bool_decide (index = ∅) then mret []
  else sweep_store (sibling_act index clients config).

Definition park_terminal_sibling_tasks (others : QueueWorld → QueueWorld) (clients : Clients)
  (config : OrchestratorConfig) : M QueueWorld (list string) :=
  pre_store ← load_dev_queue;
  if negb (existsb (λ t, bool_decide (t.(status) ∈ _TERMINAL_SIBLING_STATUSES)) pre_store.(tasks))
  then mret [] else
  modify others ;;
  acted ← park_siblings_locked clients config;
  q_record (map (λ t, proposed_event t.(ticket_id) t.(client) t.(lane) "terminal_sibling"
                        TERMINAL_SIBLING_value t.(session_id)) acted) ;;
  mret (map ticket_id acted).
End Siblings.

(** ** Parked rows whose gate has cleared *)

Definition _STALE_GATE_CONSUMER : string := "dev_queue_stale_gate".
Definition _VARIANT_A_MERGE_PENDING_DISPOSITION : string := "merge_pending".
Definition _VARIANT_A_BLOCKED_DISPOSITION : string := "blocked".
Definition _VARIANT_B_DISPOSITION : string := "merge_gate_blocked".
Definition _PROPOSED_ACTION_VARIANT_A : string := "release_stale_gate_variant_a".
Definition _PROPOSED_ACTION_VARIANT_B : string := "release_stale_gate_variant_b".

Definition _is_variant_a_gate_task (task : TicketTask) : bool :=
  bool_decide (task.(status) = QueueItemStatus.BLOCKED_ON_USER)
  && (opt_is task.(disposition) _VARIANT_A_MERGE_PENDING_DISPOSITION
      || opt_is task.(disposition) _VARIANT_A_BLOCKED_DISPOSITION
         && opt_is task.(blocked_reason) _AUTOMERGE_NOT_ARMED_REASON).

Definition _is_variant_b_gate_task (task : TicketTask) : bool :=
  if negb (bool_decide (task.(status) = QueueItemStatus.BLOCKED_ON_USER)) then false
  else if negb (is_Some_b task.(blocked_on_pr)) then false
  else if opt_is task.(disposition) _VARIANT_B_DISPOSITION
  then opt_is task.(blocked_reason) BLOCKER_REASON_PRIOR_PIPELINE_PR_OPEN
  else opt_is task.(disposition) STALE_DISPATCH_DISPOSITION
       && opt_is task.(blocked_reason) STALE_DISPATCH_BLOCKER_REASON.

(** Positions stand for the row objects the index holds. *)
Definition _index_variant_a_candidates (ts : list TicketTask) : gmap (string * string) nat :=
  fold_left (λ m p, if _is_variant_a_gate_task p.2 then <[task_key p.2 := p.1]> m else m)
    (indexed ts) ∅.

Definition observed_in (value : string) (s : option PrState) : bool :=
  match s with Some s => String.eqb s.(prs_state) value | None => false end.

(** The pull requests, per client, the store has observed in a state. *)
Definition row_pr_in (value : string) (t : TicketTask) : option (string * Z) :=
  if observed_in value t.(pr_state) && opt_truthy t.(pr_url)
  then p ← parse_pr_url (default "" t.(pr_url)); Some (t.(client), p.2) else None.

Definition watched_pr_in (value : string) (p : WatchedPr) : option (string * Z) :=
  if observed_in value p.(wp_pr_state)
  then cl ← p.(wp_client); Some (cl, p.(wp_pr_number)) else None.

Definition _pr_numbers_by_client_in_state (store : DevQueueStore) (value : string)
  : gset (string * Z) :=
  list_to_set (omap (row_pr_in value) store.(tasks) ++ omap (watched_pr_in value) store.(watched_prs)).

Definition _merged_pr_numbers_by_client (store : DevQueueStore) : gset (string * Z) :=
  _pr_numbers_by_client_in_state store _GH_PR_STATE_MERGED.
Definition _closed_pr_numbers_by_client (store : DevQueueStore) : gset (string * Z) :=
  _pr_numbers_by_client_in_state store _GH_PR_STATE_CLOSED.

(** The id the n-th line of the inbox carries. *)
Class EventIds := event_id : nat → string.

(** [read_events(consumer, event_types=[ty])]: what follows the cursor, the
    whole inbox when the cursor is absent or not found. *)
Fixpoint after_cursor (cursor : string) (l : list (string * event))
  : option (list (string * event)) :=
  match l with
  | [] => None
  | (i, e) :: l' => if String.eqb i cursor then Some l' else after_cursor cursor l'
  end.

Definition inbox {I : EventIds} (evs : list event) : list (string * event) :=
  imap (λ n e, (event_id n, e)) evs.

Definition read_events {I : EventIds} (cursor : option string) (ty : string) (evs : list event)
  : list (string * event) :=
  filter (λ p : string * event, p.2.(ev_type) = ty)
    match cursor with
    | None => inbox evs
    | Some c => default (inbox evs) (after_cursor c (inbox evs))
    end.

(** A release as it is reported, with the session the row had before. *)
Record Released := mkReleased {
  rl_ticket_id : string; rl_client : string; rl_lane : string; rl_action : string;
  rl_session_id : option string }.

Definition released_as (action : string) (t : TicketTask) : Released :=
  mkReleased t.(ticket_id) t.(client) t.(lane) action t.(session_id).

Definition payload_key (e : event) : string * string :=
  (json_str (dict_get_default "client" (JStr "") e.(ev_payload)),
   json_str (dict_get_default "ticket_id" (JStr "") e.(ev_payload))).

Section StaleGate.
Context {C : Clock} {I : EventIds}.
Context (clients : Clients) (config : OrchestratorConfig).

Definition stamp_stale_gate : M World unit :=
  n ← now; assign (λ t, t <| stale_gate_detected_at := Some n |>).

Definition _release_variant_a (policy : ReapPolicy.ReapPolicy) : M World unit :=
  match policy with
  | ReapPolicy.AUTO =>
      transition_task_status QueueItemStatus.COMPLETED (Some "shipped") None None true ;;
      assign (λ t, t <| session_id := None |>)
  | ReapPolicy.SIGNAL_ONLY => stamp_stale_gate
  end.

Definition _release_variant_b (policy : ReapPolicy.ReapPolicy) : M World unit :=
  match policy with
  | ReapPolicy.AUTO =>
      transition_task_status QueueItemStatus.PENDING None None None true ;;
      assign (λ t, t <| session_id := None |>) ;;
      assign clear_gate_block_wait
  | ReapPolicy.SIGNAL_ONLY => stamp_stale_gate
  end.

Definition policy_of (t : TicketTask) : ReapPolicy.ReapPolicy :=
  _resolve_task_policy t.(client) t.(lane) clients config.

(** The rows behind their own pull request, one event at a time. *)
Fixpoint release_own (index : gmap (string * string) nat) (evs : list (string * event))
  (ts : list TicketTask) : M QueueWorld (list TicketTask * list Released) :=
  match evs with
  | [] => mret (ts, [])
  | (_, e) :: evs' =>
      match (i ← index !! payload_key e; t ← ts !! i; Some (i, t)) with
      | None => release_own index evs' ts
      | Some (i, t) =>
          if _is_variant_a_gate_task t then
            t' ← on_row t (_release_variant_a (policy_of t));
            r ← release_own index evs' (<[i := t']> ts);
            mret (r.1, released_as _PROPOSED_ACTION_VARIANT_A t :: r.2)
          else release_own index evs' ts
      end
  end.

(** The rows behind another pull request. *)
Definition other_pr_cleared (store : DevQueueStore) (t : TicketTask) : bool :=
  _is_variant_b_gate_task t
  && match t.(blocked_on_pr) with
     | None => false
     | Some n => bool_decide ((t.(client), n) ∈ _merged_pr_numbers_by_client store)
                 || bool_decide ((t.(client), n) ∈ _closed_pr_numbers_by_client store)
     end.

Definition release_other_act (store : DevQueueStore) (t : TicketTask) : option (M World unit) :=
  if other_pr_cleared store t then Some (_release_variant_b (policy_of t)) else None.

(** The part under the queue lock; [save_fails]: the save raises [OSError] and
    writes nothing.  Returns the releases and the cursor it advanced to. *)
Definition release_locked (save_fails : bool) (evs : list (string * event))
  : M QueueWorld (list Released) :=
  store ← load_dev_queue;
  a ← release_own (_index_variant_a_candidates store.(tasks)) evs store.(tasks);
  b ← sweep_rows (release_other_act (set_tasks a.1 store)) a.1;
  let released := a.2 ++ map (released_as _PROPOSED_ACTION_VARIANT_B) b.2 in
  when (negb (bool_decide (released = [])))
    (if save_fails then raise OSError else save_dev_queue (set_tasks b.1 store)) ;;
  mret released.

Definition advance_cursor (i : string) : M RecWorld unit :=
  modify (λ w, w <| rw_cursor := Some i |>).

Fixpoint advance_all (evs : list (string * event)) : M RecWorld unit :=
  match evs with
  | [] => mret tt
  | (i, _) :: evs' => advance_cursor i ;; advance_all evs'
  end.

Definition released_event (r : Released) : event :=
  proposed_event r.(rl_ticket_id) r.(rl_client) r.(rl_lane) r.(rl_action) STALE_GATE_value
    r.(rl_session_id).

Definition release_stale_gated_tasks (others : QueueWorld → QueueWorld) (save_fails : bool)
  : M RecWorld (list string) :=
  w ← get;
  let evs := read_events w.(rw_cursor) PR_MERGED w.(rw_queue).(q_events) in
  on_rq (modify others) ;;
  released ← on_rq (release_locked save_fails evs);
  advance_all evs ;;
  on_rq (q_record (map released_event released)) ;;
  mret (map rl_ticket_id released).
End StaleGate.

(** ** The concierge's restore of cancelled rows

    A CANCELLED row whose worktree has commits ahead of its base branch goes
    back to PENDING.  Whether it has is captured before the lock
    ([cancelled_row_probes.py]). *)

Definition CANCELLED_ROW_PROBE_MAX_AGE_SECONDS : Z := 180.
Definition RECIPE_CANCELLED_ROW_RESTORE : string := "cancelled_row_restore".
Definition CONCIERGE_RECOVERED : string := "concierge.recovered".

(** Client, ticket, worktree, default branch. *)
Definition CancelledRowKey : Type := string * string * string * string.

Record ConciergeCandidate := mkConciergeCandidate {
  cn_ticket_id : string;
  cn_client : string;
  cn_recipe : string;
  cn_evidence : list (string * json) }.

(** [task.worktree_path.exists()]. *)
Class TreeExists := tree_exists : string → bool.

Section Restore.
Context {C : Clock} {T : TreeExists}.

Definition cancelled_row_target (clients : Clients) (t : TicketTask) : option CancelledRowKey :=
  if negb (bool_decide (t.(status) = QueueItemStatus.CANCELLED)) then None
  else wt ← t.(worktree_path);
       if negb (tree_exists wt) then None
       else c ← clients !! t.(client);
            Some (t.(client), t.(ticket_id), wt, c.(cc_default_branch)).

Definition cancelled_row_targets (clients : Clients) (ts : list TicketTask)
  : list CancelledRowKey :=
  omap (cancelled_row_target clients) ts.

(** A capture that is missing or stale reads as no; so does no store. *)
Definition cancelled_row_has_commits (probes : option (BoundedProbeStore CancelledRowKey bool))
  (key : CancelledRowKey) : M QueueWorld bool :=
  match probes with
  | None => mret false
  | Some st =>
      match st.(ps_probes) !! key with
      | None => mret false
      | Some _ =>
          n ← q_now;
          mret (match lookup_probe st key n with inr b => b | inl _ => false end)
      end
  end.

Definition restore_candidate (key : CancelledRowKey) : ConciergeCandidate :=
  let '(cl, tid, wt, branch) := key in
  mkConciergeCandidate tid cl RECIPE_CANCELLED_ROW_RESTORE
    [("worktree_path", JStr wt); ("default_branch", JStr branch)].

Fixpoint detect_restorable (probes : option (BoundedProbeStore CancelledRowKey bool))
  (keys : list CancelledRowKey) : M QueueWorld (list ConciergeCandidate) :=
  match keys with
  | [] => mret []
  | key :: keys' =>
      b ← cancelled_row_has_commits probes key;
      cs ← detect_restorable probes keys';
      mret (if b : bool then restore_candidate key :: cs else cs)
  end.

Definition _detect_cancelled_row_candidates (clients : Clients) (ts : list TicketTask)
  (probes : option (BoundedProbeStore CancelledRowKey bool)) : M QueueWorld (list ConciergeCandidate) :=
  detect_restorable probes (cancelled_row_targets clients ts).

(** A candidate is looked up by its ticket id alone. *)
Definition restore_act (by_ticket : gmap string ConciergeCandidate) (t : TicketTask)
  : option (M World unit) :=
  match by_ticket !! t.(ticket_id) with
  | None => None
  | Some candidate =>
      if negb (bool_decide (t.(status) = QueueItemStatus.CANCELLED)) then None
      else Some (
        record_event CONCIERGE_RECOVERED
          [("ticket_id", JStr t.(ticket_id)); ("client", JStr t.(client));
           ("recipe", JStr RECIPE_CANCELLED_ROW_RESTORE);
           ("evidence", JDict candidate.(cn_evidence))] (Some t.(ticket_id)) ;;
        transition_task_status QueueItemStatus.PENDING None None None true)
  end.

Definition _act_on_cancelled_row_candidates (candidates : list ConciergeCandidate)
  : M QueueWorld (list string) :=
  match candidates with
  | [] => mret []
  | _ => acted ← sweep_store (restore_act (dict_by cn_ticket_id candidates));
         mret (map ticket_id acted)
  end.

(** The recipe's turn of [run_concierge_recoveries]: the rows it classifies were
    read before its own locked write. *)
Definition restore_cancelled_rows (others : QueueWorld → QueueWorld) (clients : Clients)
  (probes : option (BoundedProbeStore CancelledRowKey bool)) : M RecWorld (list string) :=
  w ← get;
  candidates ← on_rq (_detect_cancelled_row_candidates clients (w.(rw_queue).(q_store).(tasks)) probes);
  on_rq (modify others) ;;
  on_rq (_act_on_cancelled_row_candidates candidates).
End Restore.
