(* ===== verification/Screening.v ===== *)
(** * Claim screening: [dispatch/claim/screening.py], [dispatch/claim/events.py]

    Which PENDING row of a lane is claimed.  [_claim_next_pending] loads the
    queue once under the lock and runs candidates through one gauntlet: an
    occupied worktree, a back-off window, a fix-loop hand-off, the three
    precomputed pre-dispatch gates and the attempt ceiling.  A row that is
    parked or claimed is saved at once; the loaded [store] is threaded, and
    [(i, t)] is a row object with its position. *)

From stdpp Require Import sorting.
From S2P Require Import Prelude PyStr ShellWords Enums Tasks World Vocab Lifecycle GateBackoff.
From S2P Require Import Clients Crud Requeue QueueRows.

#[local] Open Scope cw_scope.

(** ** Names *)

Definition DISPATCH_TICK_EVENT : string := "dispatch.tick".
Definition STALE_DISPATCH_GATE_DISPOSITION : string := "stale_dispatch_gate".
Definition TRACKER_MCP_GATE_DISPOSITION : string := "tracker_mcp_gate".
Definition ATTEMPT_CAP_BLOCKED_DISPOSITION : string := "attempt_cap_blocked".
Definition _PRE_DISPATCH_STALE_PR_REASON : string := "pr_already_open_pre_dispatch".
Definition _PRE_DISPATCH_TRACKER_MCP_REASON : string := "tracker_mcp_unavailable_pre_dispatch".
Definition _PRE_DISPATCH_ADOPTED_HEAD_DRIFT_REASON : string := "adopted_head_moved_pre_dispatch".
Definition REPIN_ADOPTED_HEAD_FLAG : string := "--repin-adopted-head".

(** ** What the caller computed before the lock *)

Record TrackerMcpGateHit := mkTrackerMcpGateHit {
  tm_branch : string; file_inspected : string; expected_plugin : string }.

Record AdoptedHeadDrift := mkAdoptedHeadDrift {
  ad_branch : string; pinned : string; observed : string; commit_range : string }.

#[export] Instance mcp_hit_eq_dec : EqDecision TrackerMcpGateHit.
Proof. solve_decision. Defined.
#[export] Instance head_drift_eq_dec : EqDecision AdoptedHeadDrift.
Proof. solve_decision. Defined.

(** A missing mapping is the empty one. *)
Record Gates := mkGates {
  stale_pr_ticket_ids : gmap string (option string);
  occupied_ticket_reasons : gmap string string;
  tracker_mcp_gate_hits : gmap string TrackerMcpGateHit;
  adopted_head_drifts : gmap string AdoptedHeadDrift }.

Definition dev_queue_command (verb : string) (task : TicketTask) (extra : list string)
  : string :=
  str_join " " (["cw"; "dev-queue"; verb; shlex_quote task.(ticket_id); "-c";
                 shlex_quote task.(client)] ++ extra).

(** ** Events *)

Definition tick_event (cl tid : string) (reason : DispatchSkipReason.DispatchSkipReason)
  (extra : list (string * json)) : event :=
  mkEvent DISPATCH_TICK_EVENT
    ([("client", JStr cl); ("claimed", JInt 0);
      ("skip_reason", JStr (DispatchSkipReason.skip_reason_value reason));
      ("ticket_id", JStr tid)] ++ extra) None.

(** The pre-spawn attention page: no breadcrumbs, the row's own session. *)
Definition claim_attention (t : TicketTask) (cl ln paused_status : string)
  (extra : list (string * json)) : event :=
  mkEvent SESSION_NEEDS_ATTENTION
    ([("session_id", JStr (default "" t.(session_id)));
      ("session_name", JStr "");
      ("client", JStr cl);
      ("ticket_id", JStr t.(ticket_id));
      ("claude_session_id", JNull);
      ("paused_status", JStr paused_status);
      ("breadcrumbs", JStr "");
      ("crashed", JBool false);
      ("lane", JStr ln)] ++ extra)
    (Some t.(ticket_id)).

Definition tracker_page (t : TicketTask) (cl ln : string) (hit : TrackerMcpGateHit) : event :=
  claim_attention t cl ln TRACKER_MCP_GATE_DISPOSITION
    [("branch", JStr hit.(tm_branch));
     ("file_inspected", JStr hit.(file_inspected));
     ("expected_plugin", JStr hit.(expected_plugin));
     ("details", JStr ("branch=" +:+ hit.(tm_branch) +:+ "; file_inspected="
        +:+ hit.(file_inspected) +:+ "; expected_plugin=" +:+ hit.(expected_plugin)))].

Definition emit_adoption_attention_event (t : TicketTask)
  (cl ln paused_status branch_name : string) (observed_head : option string)
  (range details : string) : event :=
  claim_attention t cl ln paused_status
    [("branch", JStr branch_name);
     ("pr_url", of_opt_str t.(adopted_pr_url));
     ("adopted_head_sha", of_opt_str t.(adopted_head_sha));
     ("observed_head_sha", of_opt_str observed_head);
     ("commit_range", JStr range);
     ("details", JStr details)].

Definition drift_page (t : TicketTask) (cl ln : string) (hit : AdoptedHeadDrift) : event :=
  emit_adoption_attention_event t cl ln ADOPTED_HEAD_DRIFT_DISPOSITION hit.(ad_branch)
    (Some hit.(observed)) hit.(commit_range)
    ("origin/" +:+ hit.(ad_branch) +:+ " moved " +:+ hit.(pinned) +:+ " -> " +:+ hit.(observed)
     +:+ " outside a cw session; review the range, then `"
     +:+ dev_queue_command "requeue" t [REPIN_ADOPTED_HEAD_FLAG] +:+ "`").

(** ** The gates at the point of use *)

Definition early_stage (t : TicketTask) : bool :=
  bool_decide (t.(stage) = Stage.PLAN) || bool_decide (t.(stage) = Stage.IMPL).

Definition _is_stale_pr_gated (t : TicketTask) (stale : gmap string (option string)) : bool :=
  early_stage t && is_Some_b (stale !! t.(ticket_id)).

Definition _is_tracker_mcp_gated (t : TicketTask) (hits : gmap string TrackerMcpGateHit)
  : bool :=
  early_stage t && is_Some_b (hits !! t.(ticket_id)).

Definition _live_adopted_head_drift (t : TicketTask) (drifts : gmap string AdoptedHeadDrift)
  : option AdoptedHeadDrift :=
  hit ← drifts !! t.(ticket_id);
  if negb (bool_decide (t.(adopted_head_sha) = Some hit.(pinned))) || t.(adopted_repin_due)
  then None else Some hit.

(** An unsettled session-end re-pin holds the row without a park. *)
Definition repin_unsettled (t : TicketTask) : bool :=
  is_Some_b t.(adopted_head_sha) && t.(adopted_repin_due).

Inductive claim_outcome := CLAIMED | BACKOFF | SKIPPED.

#[export] Instance claim_outcome_eq_dec : EqDecision claim_outcome.
Proof. solve_decision. Defined.

Section Claim.
Context {C : Clock}.

(** Mutate row [i], then [save_dev_queue(store)]. *)
Definition mutate_row (i : nat) (t : TicketTask) (store : DevQueueStore) (m : M World unit)
  : M QueueWorld (TicketTask * DevQueueStore) :=
  t' ← on_row t m;
  let store := set_tasks (<[i := t']> store.(tasks)) store in
  save_dev_queue store ;;
  mret (t', store).

(** [_park_stale_pr_task]: the PR's URL is stamped only on a row without one,
    and the hydrated state of an earlier PR goes with it. *)
Definition stale_pr_park (found_pr_url : option string) : M World unit :=
  url ← read pr_url;
  transition_task_status QueueItemStatus.BLOCKED_ON_USER (Some STALE_DISPATCH_GATE_DISPOSITION)
    (str_or url found_pr_url) (Some _PRE_DISPATCH_STALE_PR_REASON) false ;;
  when (negb (opt_truthy url) && is_Some_b found_pr_url)
    (assign (λ t, t <| pr_state := None |>)).

Definition gate_park (disp reason : string) : M World unit :=
  transition_task_status QueueItemStatus.BLOCKED_ON_USER (Some disp) None (Some reason) false.

Definition ceiling_park : M World unit :=
  transition_task_status QueueItemStatus.BLOCKED_ON_USER (Some ATTEMPT_CAP_BLOCKED_DISPOSITION)
    None None true.

Definition claim_row : M World unit :=
  transition_task_status QueueItemStatus.RUNNING None None None true ;;
  assign (λ t, t <| attempts := (t.(attempts) + 1)%Z |>) ;;
  n ← now;
  assign (λ t, t <| claimed_at := Some n |>).

Section Screen.
Context (client_name ln : string) (c : ClientConfig) (config : OrchestratorConfig) (g : Gates).

(** Whether a gate held the row, with the store after its park. *)
Definition _park_if_pre_dispatch_gated (i : nat) (t : TicketTask) (store : DevQueueStore)
  : M QueueWorld (bool * DevQueueStore) :=
  if repin_unsettled t then mret (true, store)
  else if _is_stale_pr_gated t g.(stale_pr_ticket_ids) then
    r ← mutate_row i t store (stale_pr_park (mjoin (g.(stale_pr_ticket_ids) !! t.(ticket_id))));
    q_record [tick_event client_name t.(ticket_id) DispatchSkipReason.STALE_PR_BLOCKED [];
              claim_attention r.1 client_name ln STALE_DISPATCH_GATE_DISPOSITION []] ;;
    mret (true, r.2)
  else if _is_tracker_mcp_gated t g.(tracker_mcp_gate_hits) then
    r ← mutate_row i t store
          (gate_park TRACKER_MCP_GATE_DISPOSITION _PRE_DISPATCH_TRACKER_MCP_REASON);
    q_record (tick_event client_name t.(ticket_id) DispatchSkipReason.TRACKER_MCP_GATE_BLOCKED []
              :: match g.(tracker_mcp_gate_hits) !! t.(ticket_id) with
                 | Some hit => [tracker_page r.1 client_name ln hit] | None => []
                 end) ;;
    mret (true, r.2)
  else match _live_adopted_head_drift t g.(adopted_head_drifts) with
       | Some hit =>
           r ← mutate_row i t store
                 (gate_park ADOPTED_HEAD_DRIFT_DISPOSITION _PRE_DISPATCH_ADOPTED_HEAD_DRIFT_REASON);
           q_record [drift_page r.1 client_name ln hit] ;;
           mret (true, r.2)
       | None => mret (false, store)
       end.

(** Past the clock: hand-off, gates, ceiling, claim. *)
Definition screen_gates (i : nat) (t : TicketTask) (store : DevQueueStore)
  : M QueueWorld (claim_outcome * DevQueueStore) :=
  if _is_fix_dispatch_held t then mret (SKIPPED, store)
  else
    r ← _park_if_pre_dispatch_gated i t store;
    let '(held, store) := r in
    if held : bool then mret (SKIPPED, store)
    else
      match resolve_attempt_ceiling (Some c) t config with
      | Some ceiling =>
          if Z.leb ceiling t.(unproductive_attempts) then
            r ← mutate_row i t store ceiling_park;
            q_record [tick_event client_name t.(ticket_id) DispatchSkipReason.ATTEMPT_CAP_BLOCKED
                        [("attempt_ceiling", JInt ceiling)];
                      claim_attention r.1 client_name ln
                        (DispatchSkipReason.skip_reason_value DispatchSkipReason.ATTEMPT_CAP_BLOCKED)
                        [("attempt_ceiling", JInt ceiling)]] ;;
            mret (SKIPPED, r.2)
          else
            r ← mutate_row i t store claim_row;
            mret (CLAIMED, r.2)
      | None =>
          r ← mutate_row i t store claim_row;
          mret (CLAIMED, r.2)
      end.

Definition in_window (at_ : Z) (t : TicketTask) : bool :=
  match t.(next_eligible_at) with None => false | Some e => Z.ltb at_ e end.

Definition _screen_and_claim (at_ : Z) (i : nat) (t : TicketTask) (store : DevQueueStore)
  : M QueueWorld (claim_outcome * DevQueueStore) :=
  if is_Some_b (g.(occupied_ticket_reasons) !! t.(ticket_id)) then
    q_record [tick_event client_name t.(ticket_id) DispatchSkipReason.WORKTREE_OCCUPIED []] ;;
    mret (SKIPPED, store)
  else if in_window at_ t then
    if gate_wait_released t c.(cc_gate_block_backoff_enabled) then
      r ← mutate_row i t store (assign clear_gate_block_wait);
      screen_gates i r.1 r.2
    else mret (BACKOFF, store)
  else screen_gates i t store.

(** ** The two claim loops

    The claimed row is read back from the store: it is the object the caller
    gets. *)

Definition claimable (t : TicketTask) : bool :=
  String.eqb t.(client) client_name && String.eqb t.(lane) ln
  && bool_decide (t.(status) = QueueItemStatus.PENDING).

Definition ClaimResultT : Type := option TicketTask * bool * DevQueueStore.

(** One candidate, then the rest unless it was claimed. *)
Definition try_claim (at_ : Z) (i : nat) (t : TicketTask) (store : DevQueueStore)
  (backoff : bool) (rest : DevQueueStore → bool → M QueueWorld ClaimResultT)
  : M QueueWorld ClaimResultT :=
  r ← _screen_and_claim at_ i t store;
  let '(outcome, store) := r in
  match outcome with
  | CLAIMED => mret (store.(tasks) !! i, backoff, store)
  | BACKOFF => rest store true
  | SKIPPED => rest store backoff
  end.

(** The first PENDING row of each listed ticket; [break] ends the inner loop. *)
Fixpoint claim_listed (at_ : Z) (ids : list string) (store : DevQueueStore) (backoff : bool)
  : M QueueWorld ClaimResultT :=
  match ids with
  | [] => mret (None, backoff, store)
  | tid :: ids' =>
      match list_find (λ t, claimable t && String.eqb t.(ticket_id) tid = true) store.(tasks) with
      | None => claim_listed at_ ids' store backoff
      | Some (i, t) => try_claim at_ i t store backoff (claim_listed at_ ids')
      end
  end.

Fixpoint claim_sorted (at_ : Z) (pending : list (nat * TicketTask)) (store : DevQueueStore)
  (backoff : bool) : M QueueWorld ClaimResultT :=
  match pending with
  | [] => mret (None, backoff, store)
  | (i, t) :: pending' => try_claim at_ i t store backoff (claim_sorted at_ pending')
  end.

End Screen.

(** [key=(-priority, created_at)]; the sort is stable, so the position breaks
    ties. *)
Definition claim_before (p q : nat * TicketTask) : Prop :=
  (q.2.(priority) < p.2.(priority)
   ∨ q.2.(priority) = p.2.(priority)
     ∧ (p.2.(created_at) < q.2.(created_at)
        ∨ p.2.(created_at) = q.2.(created_at) ∧ Z.of_nat p.1 ≤ Z.of_nat q.1))%Z.

#[export] Instance claim_before_dec : RelDecision claim_before.
Proof. intros p q. unfold claim_before. apply _. Defined.

Definition pending_candidates (client_name ln : string) (store : DevQueueStore)
  : list (nat * TicketTask) :=
  merge_sort claim_before
    (filter (λ p, claimable client_name ln p.2 = true) (indexed store.(tasks))).

Definition _claim_next_pending (client_name ln : string) (c : ClientConfig)
  (config : OrchestratorConfig) (priority_ticket_ids : list string)
  (usage_limited_until : option Z) (g : Gates) : M QueueWorld (option TicketTask * bool) :=
  at_ ← q_now;
  if match usage_limited_until with None => false | Some u => Z.ltb at_ u end
  then mret (None, false)
  else
    store ← load_dev_queue;
    r ← claim_listed client_name ln c config g at_ priority_ticket_ids store false;
    match r with
    | (Some t, backoff, _) => mret (Some t, backoff)
    | (None, backoff, store) =>
        r ← claim_sorted client_name ln c config g at_ (pending_candidates client_name ln store)
              store backoff;
        mret r.1
    end.
End Claim.
