(* ===== verification/ScreeningProps.v ===== *)
(** * The gauntlet in closed form

    [verdict_of] is what the screen decides about one row, [settles] what it
    does to it; [screen_run] shows the monadic body does exactly that.  The two
    loops are then folds of the gauntlet over candidates. *)

From stdpp Require Import sorting.
From S2P Require Import Prelude PyStr Enums Tasks World Vocab Lifecycle GateBackoff.
From S2P Require Import Clients Crud CrudProps Requeue RequeueProps QueueRows Screening.

#[local] Open Scope cw_scope.

(** Row [i] replaced in the loaded store. *)
Definition put (i : nat) (t : TicketTask) (store : DevQueueStore) : DevQueueStore :=
  set_tasks (<[i := t]> store.(tasks)) store.

Lemma put_same i t store : store.(tasks) !! i = Some t → put i t store = store.
Proof. intros H. unfold put, set_tasks. rewrite list_insert_id by done. by destruct store. Qed.

Lemma put_put i t t' store : put i t' (put i t store) = put i t' store.
Proof. unfold put, set_tasks. cbn. by rewrite list_insert_insert_eq. Qed.

Lemma put_lookup i t u store :
  store.(tasks) !! i = Some u → (put i t store).(tasks) !! i = Some t.
Proof. intros H. cbn. apply list_lookup_insert_eq. by eapply lookup_lt_Some. Qed.

Lemma put_lookup_ne i j t store : i ≠ j → (put i t store).(tasks) !! j = store.(tasks) !! j.
Proof. intros H. cbn. by apply list_lookup_insert_ne. Qed.

Lemma put_length i t store : length (put i t store).(tasks) = length store.(tasks).
Proof. cbn. apply length_insert. Qed.

Section Verdict.
Context (client_name ln : string) (c : ClientConfig) (config : OrchestratorConfig) (g : Gates).

Inductive verdict :=
  | Occupied
  | Waiting
  | HandedOff
  | Unsettled
  | StalePr (url : option string)
  | TrackerMissing (hit : TrackerMcpGateHit)
  | HeadDrift (hit : AdoptedHeadDrift)
  | OverCeiling (n : Z)
  | Eligible.

#[export] Instance verdict_eq_dec : EqDecision verdict.
Proof. solve_decision. Defined.

Definition ceiling_verdict (t : TicketTask) : verdict :=
  match resolve_attempt_ceiling (Some c) t config with
  | Some n => if Z.leb n t.(unproductive_attempts) then OverCeiling n else Eligible
  | None => Eligible
  end.

Definition gate_verdict (t : TicketTask) : verdict :=
  if _is_fix_dispatch_held t then HandedOff
  else if repin_unsettled t then Unsettled
  else if _is_stale_pr_gated t g.(stale_pr_ticket_ids)
  then StalePr (mjoin (g.(stale_pr_ticket_ids) !! t.(ticket_id)))
  else match (if early_stage t then g.(tracker_mcp_gate_hits) !! t.(ticket_id) else None) with
       | Some hit => TrackerMissing hit
       | None => match _live_adopted_head_drift t g.(adopted_head_drifts) with
                 | Some hit => HeadDrift hit
                 | None => ceiling_verdict t
                 end
       end.

Definition wait_released (at_ : Z) (t : TicketTask) : bool :=
  in_window at_ t && gate_wait_released t c.(cc_gate_block_backoff_enabled).

Definition verdict_of (at_ : Z) (t : TicketTask) : verdict :=
  if is_Some_b (g.(occupied_ticket_reasons) !! t.(ticket_id)) then Occupied
  else if in_window at_ t && negb (gate_wait_released t c.(cc_gate_block_backoff_enabled))
  then Waiting
  else gate_verdict t.

(** The row once a released gate wait is dropped. *)
Definition past_wait (at_ : Z) (t : TicketTask) : TicketTask :=
  if wait_released at_ t then clear_gate_block_wait t else t.

Definition outcome_of (v : verdict) : claim_outcome :=
  match v with Eligible => CLAIMED | Waiting => BACKOFF | _ => SKIPPED end.

Definition blocked_as (disp : string) (url reason : option string) (b : bool)
  (t t' : TicketTask) : Prop :=
  ∃ x y z, t' = transition_row QueueItemStatus.BLOCKED_ON_USER (Some disp) url reason b x y z t.

(** The row a verdict of the gates leaves. *)
Definition gate_settles (v : verdict) (t t' : TicketTask) : Prop :=
  match v with
  | Occupied | Waiting | HandedOff | Unsettled => t' = t
  | StalePr url =>
      ∃ r, blocked_as STALE_DISPATCH_GATE_DISPOSITION (str_or t.(pr_url) url)
             (Some _PRE_DISPATCH_STALE_PR_REASON) false t r
           ∧ t' = if negb (opt_truthy t.(pr_url)) && is_Some_b url
                  then r <| pr_state := None |> else r
  | TrackerMissing _ =>
      blocked_as TRACKER_MCP_GATE_DISPOSITION None (Some _PRE_DISPATCH_TRACKER_MCP_REASON) false
        t t'
  | HeadDrift _ =>
      blocked_as ADOPTED_HEAD_DRIFT_DISPOSITION None
        (Some _PRE_DISPATCH_ADOPTED_HEAD_DRIFT_REASON) false t t'
  | OverCeiling _ =>
      blocked_as ATTEMPT_CAP_BLOCKED_DISPOSITION None None true t t'
  | Eligible =>
      ∃ r x y z n,
        r = transition_row QueueItemStatus.RUNNING None None None true x y z t
        ∧ t' = r <| attempts := (r.(attempts) + 1)%Z |> <| claimed_at := Some n |>
  end.

Definition settles (at_ : Z) (v : verdict) (t t' : TicketTask) : Prop :=
  match v with
  | Occupied | Waiting => t' = t
  | _ => gate_settles v (past_wait at_ t) t'
  end.

Definition is_park (v : verdict) : bool :=
  match v with StalePr _ | TrackerMissing _ | HeadDrift _ | OverCeiling _ => true | _ => false end.

(** A park pages the operator about the ticket. *)
Definition pages (tid : string) (evs : list event) : Prop :=
  ∃ e, e ∈ evs ∧ e.(ev_type) = SESSION_NEEDS_ATTENTION ∧ e.(ev_correlation_id) = Some tid.

(** ** Clearing a wait does not change what the gates read *)

Lemma clear_wait_gates t : gate_verdict (clear_gate_block_wait t) = gate_verdict t.
Proof. unfold clear_gate_block_wait. destruct (owns_wait t); reflexivity. Qed.

Lemma past_wait_gates at_ t : gate_verdict (past_wait at_ t) = gate_verdict t.
Proof. unfold past_wait. destruct (wait_released at_ t); [apply clear_wait_gates|done]. Qed.

Lemma past_wait_frame at_ t :
  let u := past_wait at_ t in
  row_key u = row_key t ∧ u.(status) = t.(status) ∧ u.(lane) = t.(lane)
  ∧ u.(attempts) = t.(attempts) ∧ u.(unproductive_attempts) = t.(unproductive_attempts)
  ∧ u.(priority) = t.(priority) ∧ u.(created_at) = t.(created_at) ∧ u.(pr_url) = t.(pr_url)
  ∧ u.(ticket_id) = t.(ticket_id) ∧ u.(client) = t.(client).
Proof.
  cbv zeta. unfold past_wait, clear_gate_block_wait.
  destruct (wait_released at_ t), (owns_wait t); repeat split.
Qed.

(** The released row is past its window for good. *)
Lemma past_wait_verdict at_ t :
  outcome_of (verdict_of at_ t) = SKIPPED → verdict_of at_ t ≠ Occupied →
  verdict_of at_ (past_wait at_ t) = verdict_of at_ t
  ∧ past_wait at_ (past_wait at_ t) = past_wait at_ t.
Proof.
  intros Ho Hn. unfold past_wait at 1 3 4.
  destruct (wait_released at_ t) eqn:Hr; [|unfold past_wait; by rewrite Hr].
  apply andb_true_iff in Hr as [Hw Hg]. unfold gate_wait_released in Hg.
  apply andb_true_iff in Hg as [Hb Ho'].
  assert (Hc : next_eligible_at (clear_gate_block_wait t) = None)
    by (unfold clear_gate_block_wait; by rewrite Ho').
  assert (Hw' : in_window at_ (clear_gate_block_wait t) = false)
    by (unfold in_window; by rewrite Hc).
  split.
  - revert Hn. unfold verdict_of. rewrite Hw', clear_wait_gates.
    replace (ticket_id (clear_gate_block_wait t)) with (ticket_id t)
      by (unfold clear_gate_block_wait; by rewrite Ho').
    destruct (is_Some_b _); [done|]. intros _.
    unfold gate_wait_released. by rewrite Hb, Ho', andb_false_r.
  - unfold past_wait, wait_released. by rewrite Hw'.
Qed.
End Verdict.

(** ** Runs *)

Section Runs.
Context {C : Clock}.

(** The queue world after a mutation of row [i] that took [k] clock reads. *)
Definition q_wrote (store : DevQueueStore) (evs : list event) (n : nat) (q : QueueWorld)
  : QueueWorld :=
  mkQueueWorld store (q.(q_events) ++ evs) n (S q.(q_saves)).

Lemma mutate_run i t store m q t' evs n :
  m (mkWorld t q.(q_events) q.(q_ticks)) = (inr tt, mkWorld t' (q.(q_events) ++ evs) n) →
  mutate_row i t store m q = (inr (t', put i t' store), q_wrote (put i t' store) evs n q).
Proof.
  intros H. unfold mutate_row, mbind, M_bind, on_row. rewrite H. reflexivity.
Qed.

Lemma transition_blocked disp url reason b t evs n :
  ∃ t' evs' k,
    transition_task_status QueueItemStatus.BLOCKED_ON_USER (Some disp) url reason b
      (mkWorld t evs n) = (inr tt, mkWorld t' (evs ++ evs') k)
    ∧ blocked_as disp url reason b t t'.
Proof.
  rewrite transition_run. unfold settled. cbv zeta. cbn [w_task w_events w_ticks].
  do 3 eexists. split; [reflexivity|]. do 3 eexists. reflexivity.
Qed.

Lemma stale_park_run url t evs n :
  ∃ r t' evs' k,
    stale_pr_park url (mkWorld t evs n) = (inr tt, mkWorld t' (evs ++ evs') k)
    ∧ blocked_as STALE_DISPATCH_GATE_DISPOSITION (str_or t.(pr_url) url)
        (Some _PRE_DISPATCH_STALE_PR_REASON) false t r
    ∧ t' = if negb (opt_truthy t.(pr_url)) && is_Some_b url
           then r <| pr_state := None |> else r.
Proof.
  unfold stale_pr_park. setoid_rewrite (bind_run _ _ _ _ _ (read_run pr_url t evs n)).
  destruct (transition_blocked STALE_DISPATCH_GATE_DISPOSITION (str_or (pr_url t) url)
              (Some _PRE_DISPATCH_STALE_PR_REASON) false t evs n) as (r & evs' & k & Hr & Hb).
  setoid_rewrite (bind_run _ _ _ _ _ Hr). setoid_rewrite when_assign_run.
  exists r. do 3 eexists. split; [reflexivity|]. by split.
Qed.

Lemma claim_row_run t evs n :
  ∃ r t' evs' k x y z m,
    claim_row (mkWorld t evs n) = (inr tt, mkWorld t' (evs ++ evs') k)
    ∧ r = transition_row QueueItemStatus.RUNNING None None None true x y z t
    ∧ t' = r <| attempts := (r.(attempts) + 1)%Z |> <| claimed_at := Some m |>.
Proof.
  unfold claim_row.
  setoid_rewrite (bind_run _ _ _ _ _ (transition_run _ _ _ _ _ _)).
  unfold settled. cbv zeta. cbn [w_task w_events w_ticks].
  generalize (transition_row QueueItemStatus.RUNNING None None None true). intros f.
  do 8 eexists. split; [reflexivity|]. by split.
Qed.

(** What one screen leaves: the row, the store and the file, the events. *)
Definition left_by (settled_as : TicketTask → Prop) (park : bool) (tid : string) (i : nat)
  (store : DevQueueStore) (q q' : QueueWorld) (store' : DevQueueStore) : Prop :=
  ∃ t' evs, settled_as t' ∧ store' = put i t' store
    ∧ q'.(q_store) = store' ∧ q'.(q_events) = q.(q_events) ++ evs
    ∧ (park = true → pages tid evs).

Section Screen.
Context (client_name ln : string) (c : ClientConfig) (config : OrchestratorConfig) (g : Gates).

Local Abbreviation screen := (_screen_and_claim client_name ln c config g).

Lemma pages_in tid evs e :
  e ∈ evs → e.(ev_type) = SESSION_NEEDS_ATTENTION → e.(ev_correlation_id) = Some tid →
  pages tid evs.
Proof. intros. by exists e. Qed.

Lemma left_alone P i t store q tid :
  P t → store.(tasks) !! i = Some t → q.(q_store) = store →
  left_by P false tid i store q q store.
Proof.
  intros HP Hi Hq. exists t, []. rewrite put_same by done. by rewrite app_nil_r.
Qed.

Lemma left_written (P : TicketTask → Prop) b i t' store q tid evs page n :
  P t' → (b = true → pages tid page) →
  left_by P b tid i store q
    (mkQueueWorld (put i t' store) ((q.(q_events) ++ evs) ++ page) n (S q.(q_saves)))
    (put i t' store).
Proof.
  intros HP Hp. exists t', (evs ++ page). cbn. split_and!; [done|done|done|by rewrite app_assoc|].
  intros Hb. destruct (Hp Hb) as (e & He & ? & ?). exists e. set_solver.
Qed.

Lemma blocked_ticket disp url reason b t t' :
  blocked_as disp url reason b t t' → t'.(ticket_id) = t.(ticket_id).
Proof. intros (x & y & z & ->). apply row_ticket_id. Qed.

Lemma screen_gates_run i t store q :
  store.(tasks) !! i = Some t → q.(q_store) = store →
  ∃ store' q',
    screen_gates client_name ln c config g i t store q
    = (inr (outcome_of (gate_verdict c config g t), store'), q')
    ∧ left_by (gate_settles (gate_verdict c config g t) t)
        (is_park (gate_verdict c config g t)) t.(ticket_id) i store q q' store'.
Proof.
  intros Hi Hq. unfold screen_gates, gate_verdict.
  destruct (_is_fix_dispatch_held t).
  { exists store, q. split; [done|]. by apply left_alone with t. }
  unfold _park_if_pre_dispatch_gated.
  destruct (repin_unsettled t).
  { exists store, q. split; [done|]. by apply left_alone with t. }
  destruct (_is_stale_pr_gated t _).
  { destruct (stale_park_run (mjoin (stale_pr_ticket_ids g !! ticket_id t)) t (q_events q)
                (q_ticks q)) as (r & t' & evs & k & Hrun & Hb & Ht).
    unfold mbind, M_bind. rewrite (mutate_run _ _ _ _ _ _ _ _ Hrun).
    do 2 eexists. split; [reflexivity|]. apply left_written; [by exists r|].
    intros _. eapply pages_in; [by right; left|done|]. cbn.
    destruct (_ && _) in Ht; subst t'; cbn; f_equal; by eapply blocked_ticket. }
  assert (Htm : _is_tracker_mcp_gated t (tracker_mcp_gate_hits g)
    = is_Some_b (if early_stage t then tracker_mcp_gate_hits g !! ticket_id t else None))
    by (unfold _is_tracker_mcp_gated; by destruct (early_stage t)).
  rewrite Htm.
  destruct (if early_stage t then _ else None) as [hit|] eqn:Hh; cbn [is_Some_b].
  { assert (Hg : tracker_mcp_gate_hits g !! ticket_id t = Some hit)
      by (by destruct (early_stage t)).
    rewrite Hg.
    destruct (transition_blocked TRACKER_MCP_GATE_DISPOSITION None
      (Some _PRE_DISPATCH_TRACKER_MCP_REASON) false t (q_events q) (q_ticks q))
      as (t' & evs & k & Hrun & Hb).
    unfold mbind, M_bind. rewrite (mutate_run _ _ _ _ _ _ _ _ Hrun).
    do 2 eexists. split; [reflexivity|]. apply left_written; [done|].
    intros _. eapply pages_in; [by right; left|done|]. cbn. f_equal. by eapply blocked_ticket. }
  destruct (_live_adopted_head_drift t _) as [hit|].
  { destruct (transition_blocked ADOPTED_HEAD_DRIFT_DISPOSITION None
      (Some _PRE_DISPATCH_ADOPTED_HEAD_DRIFT_REASON) false t (q_events q) (q_ticks q))
      as (t' & evs & k & Hrun & Hb).
    unfold mbind, M_bind. rewrite (mutate_run _ _ _ _ _ _ _ _ Hrun).
    do 2 eexists. split; [reflexivity|]. apply left_written; [done|].
    intros _. eapply pages_in; [by left|done|]. cbn. f_equal. by eapply blocked_ticket. }
  assert (Hclaim : ∃ store' q',
    (r ← mutate_row i t store claim_row; mret (CLAIMED, r.2)) q
      = (inr (CLAIMED, store'), q')
    ∧ left_by (gate_settles Eligible t) false t.(ticket_id) i store q q' store').
  { destruct (claim_row_run t (q_events q) (q_ticks q))
      as (r & t' & evs & k & x & y & z & m & Hrun & Hr & Ht).
    unfold mbind at 1, M_bind at 1. rewrite (mutate_run _ _ _ _ _ _ _ _ Hrun).
    do 2 eexists. split; [reflexivity|].
    exists t', evs. split_and!; [|done..]. by exists r, x, y, z, m. }
  unfold ceiling_verdict. destruct (resolve_attempt_ceiling _ _ _) as [n|]; [|exact Hclaim].
  destruct (n <=? _)%Z; [|exact Hclaim].
  destruct (transition_blocked ATTEMPT_CAP_BLOCKED_DISPOSITION None None true t (q_events q)
              (q_ticks q)) as (t' & evs & k & Hrun & Hb).
  unfold mbind, M_bind, mret, M_ret. rewrite (mutate_run _ _ _ _ _ _ _ _ Hrun).
  do 2 eexists. split; [reflexivity|]. apply left_written; [done|].
  intros _. eapply pages_in; [by right; left|done|]. cbn. f_equal. by eapply blocked_ticket.
Qed.

Lemma gate_verdict_late t :
  gate_verdict c config g t ≠ Occupied ∧ gate_verdict c config g t ≠ Waiting.
Proof. unfold gate_verdict, ceiling_verdict. repeat case_match; done. Qed.

Lemma settles_gates at_ t u :
  gate_settles (gate_verdict c config g t) (past_wait c at_ t) u →
  settles c at_ (gate_verdict c config g t) t u.
Proof.
  destruct (gate_verdict_late t) as [H1 H2].
  destruct (gate_verdict c config g t); cbn [settles]; done.
Qed.

Lemma settled_weaken (P Q : TicketTask → Prop) b tid i store q q' store' :
  (∀ t, P t → Q t) → left_by P b tid i store q q' store' → left_by Q b tid i store q q' store'.
Proof. intros H (t' & evs & HP & ?). exists t', evs. split; [by apply H|done]. Qed.

Lemma screen_run at_ i t store q :
  store.(tasks) !! i = Some t → q.(q_store) = store →
  ∃ store' q',
    screen at_ i t store q
    = (inr (outcome_of (verdict_of c config g at_ t), store'), q')
    ∧ left_by (settles c at_ (verdict_of c config g at_ t) t)
        (is_park (verdict_of c config g at_ t)) t.(ticket_id) i store q q' store'.
Proof.
  intros Hi Hq. unfold _screen_and_claim, verdict_of.
  destruct (is_Some_b _).
  { do 2 eexists. split; [reflexivity|]. eexists t, _. rewrite put_same by done. by split_and!. }
  destruct (in_window at_ t) eqn:Hw; cbn [andb].
  - destruct (gate_wait_released t _) eqn:Hr; cbn [negb].
    + set (u := clear_gate_block_wait t).
      unfold mbind at 1, M_bind at 1. rewrite (mutate_run i t store (assign clear_gate_block_wait) q u [] (q_ticks q))
        by (by rewrite app_nil_r).
      cbn [fst snd].
      edestruct (screen_gates_run i u (put i u store) (q_wrote (put i u store) [] (q_ticks q) q))
        as (store' & q' & Hrun & t' & evs & Hs & Hst & Hqs & Hev & Hp);
        [by eapply put_lookup|done|].
      rewrite Hrun. subst u. rewrite clear_wait_gates in *.
      do 2 eexists. split; [reflexivity|]. exists t', evs. rewrite put_put in Hst.
      assert (Hu : clear_gate_block_wait t = past_wait c at_ t)
        by (unfold past_wait, wait_released; by rewrite Hw, Hr).
      rewrite Hu in Hs. split_and!; [by apply settles_gates|done|done| |].
      * rewrite Hev. cbn. by rewrite app_nil_r.
      * intros Hpk. specialize (Hp Hpk). destruct (past_wait_frame c at_ t) as (_&_&_&_&_&_&_&_&H9&_).
        by rewrite <- H9, <- Hu.
    + exists store, q. split; [done|]. by apply left_alone with t.
  - destruct (screen_gates_run i t store q Hi Hq) as (store' & q' & Hrun & Hl).
    exists store', q'. split; [done|]. eapply settled_weaken; [|exact Hl].
    intros u Hu. apply settles_gates. unfold past_wait, wait_released. by rewrite Hw.
Qed.
End Screen.
End Runs.
