(* ===== verification/ClaimOrder.v ===== *)
(** * Which row a claim takes

    The two claim loops as sweeps of the gauntlet: rows passed over keep their
    keys and are never charged, and the row taken is the first eligible one in
    the order the code promises.  Then the contract of [_claim_next_pending]. *)

From stdpp Require Import sorting.
From S2P Require Import Prelude PyStr Enums Tasks World Vocab Lifecycle GateBackoff.
From S2P Require Import Clients Crud CrudProps Requeue RequeueProps QueueRows Screening ScreeningProps.

#[local] Open Scope cw_scope.

(** ** The order of candidates *)

#[export] Instance claim_before_total : Total claim_before.
Proof. intros [i t] [j u]. unfold claim_before; cbn. lia. Qed.

#[export] Instance claim_before_trans : Transitive claim_before.
Proof. intros [i t] [j u] [k v]. unfold claim_before; cbn. lia. Qed.

Lemma elem_of_indexed ts i t : (i, t) ∈ indexed ts ↔ ts !! i = Some t.
Proof. split; [apply indexed_lookup|apply indexed_elem]. Qed.

Lemma indexed_fst_NoDup ts : NoDup (indexed ts).*1.
Proof.
  apply NoDup_alt. intros a b x Ha Hb. unfold indexed in *.
  rewrite list_lookup_fmap, list_lookup_imap in Ha, Hb.
  destruct (ts !! a); [|done]. destruct (ts !! b); [|done]. cbn in *. congruence.
Qed.

Section Candidates.
Context (client_name ln : string).

Lemma pending_elem store i t :
  (i, t) ∈ pending_candidates client_name ln store
  ↔ store.(tasks) !! i = Some t ∧ claimable client_name ln t = true.
Proof.
  unfold pending_candidates. rewrite merge_sort_Permutation, list_elem_of_filter, elem_of_indexed.
  apply and_comm.
Qed.

Lemma pending_NoDup store : NoDup (pending_candidates client_name ln store).*1.
Proof.
  unfold pending_candidates. rewrite merge_sort_Permutation.
  eapply sublist_NoDup; [apply (indexed_fst_NoDup (tasks store))|]. apply map_sublist.
  induction (indexed (tasks store)) as [|p l IH]; [done|]. rewrite filter_cons.
  destruct (decide _); [by apply sublist_skip|by apply sublist_cons].
Qed.

Lemma pending_sorted store : StronglySorted claim_before (pending_candidates client_name ln store).
Proof. apply StronglySorted_merge_sort; apply _. Qed.
End Candidates.

Lemma sorted_split {A} (R : relation A) l1 x l2 :
  StronglySorted R (l1 ++ x :: l2) → ∀ y, y ∈ l2 → R x y.
Proof.
  induction l1 as [|z l1 IH]; cbn; intros H y Hy; apply StronglySorted_inv in H as [H1 H2].
  - by eapply Forall_forall in H2.
  - by apply (IH H1).
Qed.

(** ** Rows passed over *)

Section Sweep.
Context {C : Clock}.
Context (client_name ln : string) (c : ClientConfig) (config : OrchestratorConfig) (g : Gates)
  (at_ : Z).

Local Abbreviation verdict_at := (verdict_of c config g at_).
Local Abbreviation can_claim := (claimable client_name ln).

Definition eligible_at (store : DevQueueStore) (i : nat) (t : TicketTask) : Prop :=
  store.(tasks) !! i = Some t ∧ can_claim t = true ∧ verdict_at t = Eligible.

(** A row after any number of screens that did not claim it. *)
Definition passed (t t' : TicketTask) : Prop :=
  t' = t
  ∨ can_claim t = true ∧ verdict_at t ≠ Eligible ∧ settles c at_ (verdict_at t) t t'.

Definition sweep (s s' : DevQueueStore) : Prop := Forall2 passed s.(tasks) s'.(tasks).

(** What the fields of a settled row are. *)
Lemma settled_row v t t' :
  settles c at_ v t t' →
  row_key t' = row_key t ∧ t'.(lane) = t.(lane) ∧
  t'.(status) = match v with
                | Eligible => QueueItemStatus.RUNNING
                | StalePr _ | TrackerMissing _ | HeadDrift _ | OverCeiling _ =>
                    QueueItemStatus.BLOCKED_ON_USER
                | _ => t.(status)
                end.
Proof.
  destruct (past_wait_frame c at_ t) as (Hk & Hs & Hl & _).
  unfold row_key in *. injection Hk as Hk1 Hk2.
  assert (Hb : ∀ disp url reason b r, blocked_as disp url reason b (past_wait c at_ t) r →
    (r.(ticket_id), r.(client)) = (t.(ticket_id), t.(client)) ∧ r.(lane) = t.(lane)
    ∧ r.(status) = QueueItemStatus.BLOCKED_ON_USER).
  { intros disp url reason b r (x & y & z & ->). autorewrite with row. by rewrite Hk1, Hk2, Hl. }
  destruct v; cbn [settles gate_settles]; intros H.
  - by subst.
  - by subst.
  - subst t'. by rewrite Hk1, Hk2.
  - subst t'. by rewrite Hk1, Hk2.
  - destruct H as (r & Hr & ->). apply Hb in Hr. by destruct (_ && _).
  - by eapply Hb.
  - by eapply Hb.
  - by eapply Hb.
  - destruct H as (r & x & y & z & n & Hr & ->). cbn. rewrite Hr. autorewrite with row.
    by rewrite Hk1, Hk2, Hl.
Qed.

Lemma claimable_spec t :
  can_claim t = true ↔ t.(client) = client_name ∧ t.(lane) = ln ∧ t.(status) = QueueItemStatus.PENDING.
Proof.
  unfold claimable. rewrite !andb_true_iff, !String.eqb_eq, bool_decide_eq_true. tauto.
Qed.

Lemma passed_refl t : passed t t.
Proof. by left. Qed.

(** A passed row that is still claimable gets the same verdict. *)
Lemma passed_again t t' :
  passed t t' → can_claim t' = true →
  verdict_at t' = verdict_at t ∧ (t' = t ∨ t' = past_wait c at_ t ∧ past_wait c at_ t' = t'
    ∧ can_claim t = true ∧ verdict_at t ≠ Eligible ∧ verdict_at t ≠ Occupied
    ∧ verdict_at t ≠ Waiting).
Proof.
  intros [->|(Hc & Hne & Hs)] Hc'; [by split; [|left]|].
  pose proof (settled_row _ _ _ Hs) as (_ & _ & Hst).
  apply claimable_spec in Hc' as (_ & _ & Hp). rewrite Hp in Hst.
  assert (Hcase : t' = t ∨ (verdict_at t = HandedOff ∨ verdict_at t = Unsettled)
                          ∧ t' = past_wait c at_ t).
  { revert Hs Hst. destruct (verdict_at t); cbn; try discriminate; try tauto. }
  destruct Hcase as [->|[Hv ->]]; [by split; [|left]|].
  destruct (past_wait_verdict c config g at_ t) as [H1 H2];
    [by destruct Hv as [-> | ->]|by destruct Hv as [-> | ->]|].
  split; [done|]. right. split_and!; try done; by destruct Hv as [-> | ->].
Qed.

Lemma passed_trans t t' t'' : passed t t' → passed t' t'' → passed t t''.
Proof.
  intros H1 [->|(Hc & Hne & Hs)]; [done|].
  destruct (passed_again _ _ H1 Hc) as [Hv [->|(Ht' & Hpw & Hct & Hn1 & Hn2 & Hn3)]].
  - by right.
  - right. split_and!; [done|done|]. rewrite Hv in Hs.
    destruct (verdict_at t); try done; cbn [settles] in *; rewrite Hpw, Ht' in Hs; done.
Qed.

Lemma sweep_refl s : sweep s s.
Proof. apply Forall_Forall2_diag, Forall_forall. intros. apply passed_refl. Qed.

Lemma sweep_trans s1 s2 s3 : sweep s1 s2 → sweep s2 s3 → sweep s1 s3.
Proof.
  intros H1 H2. eapply Forall2_trans; [|exact H1|exact H2]. apply passed_trans.
Qed.

Lemma sweep_put s i t t' : s.(tasks) !! i = Some t → passed t t' → sweep s (put i t' s).
Proof.
  intros Hi Hp. apply Forall2_same_length_lookup_2; [by rewrite put_length|].
  intros j u u' Hu Hu'. destruct (decide (i = j)) as [->|Hne].
  - rewrite (put_lookup j t' t) in Hu' by done. by simplify_eq.
  - rewrite put_lookup_ne in Hu' by done. simplify_eq. apply passed_refl.
Qed.

(** The eligible rows are the same before and after a sweep. *)
Lemma sweep_eligible s s' i t : sweep s s' → eligible_at s i t ↔ eligible_at s' i t.
Proof.
  intros H. split; intros (Hi & Hc & Hv).
  - eapply Forall2_lookup_l in H as (t' & Hi' & [->|(_ & Hne & _)]); [|done|exact Hi]. done.
  - eapply Forall2_lookup_r in H as (u & Hi' & Hp); [|exact Hi].
    destruct (passed_again _ _ Hp Hc) as [Hv' [->|(_ & _ & _ & Hne & _)]]; [done|].
    by rewrite Hv in Hv'.
Qed.

Lemma sweep_one_open s s' : sweep s s' → one_open_row s.(tasks) → one_open_row s'.(tasks).
Proof.
  intros H Hone. eapply sublist_NoDup; [exact Hone|]. apply keeps_open_sublist.
  eapply Forall2_impl; [exact H|]. intros t t' [->|(Hc & _ & Hs)]; [apply keeps_open_refl|].
  intros _. split; [|by eapply settled_row].
  apply claimable_spec in Hc as (_ & _ & Hp). unfold is_open. rewrite Hp. reflexivity.
Qed.
End Sweep.

(** ** The loops *)

Section Loops.
Context {C : Clock}.
Context (client_name ln : string) (c : ClientConfig) (config : OrchestratorConfig) (g : Gates)
  (at_ : Z).

Local Abbreviation verdict_at := (verdict_of c config g at_).
Local Abbreviation can_claim := (claimable client_name ln).
Local Abbreviation swept := (sweep client_name ln c config g at_).
Local Abbreviation eligible := (eligible_at client_name ln c config g at_).

(** A claim out of a swept store: [took s s' i t t'] - row [i] of [s], as it
    was, is [t]; it now is the claimed row [t']. *)
Definition took (s s' : DevQueueStore) (i : nat) (t t' : TicketTask) : Prop :=
  eligible s i t ∧ settles c at_ Eligible t t'
  ∧ ∃ mid, swept s mid ∧ mid.(tasks) !! i = Some t ∧ s' = put i t' mid.

(** A loop over some candidates ran to its end or claimed one. *)
Definition looped (s : DevQueueStore) (q : QueueWorld)
  (first : nat → TicketTask → Prop) (none : Prop)
  (r : (exn + ClaimResultT) * QueueWorld) : Prop :=
  ∃ o b s', r.1 = inr (o, b, s') ∧ r.2.(q_store) = s'
    ∧ match o with
      | None => swept s s' ∧ none
      | Some t' => ∃ i t, took s s' i t t' ∧ first i t
      end.

Lemma took_after s s1 s2 i t t' :
  swept s s1 → took s1 s2 i t t' → took s s2 i t t'.
Proof.
  intros H (He & Hs & mid & Hm & Hi & ->). split; [by eapply sweep_eligible|].
  split; [done|]. exists mid. split_and!; [by eapply sweep_trans|done|done].
Qed.

(** One candidate and the rest of the loop. *)
Lemma try_claim_run i t store b q rest (first rest_first : nat → TicketTask → Prop)
    (none rest_none : Prop) :
  store.(tasks) !! i = Some t → can_claim t = true → q.(q_store) = store →
  first i t →
  (∀ j u, verdict_at t ≠ Eligible → rest_first j u → first j u) →
  (verdict_at t ≠ Eligible → rest_none → none) →
  (∀ s1 q1 b1, verdict_at t ≠ Eligible → swept store s1 →
     (∀ j, j ≠ i → s1.(tasks) !! j = store.(tasks) !! j) →
     q1.(q_store) = s1 → looped s1 q1 rest_first rest_none (rest s1 b1 q1)) →
  looped store q first none
    (try_claim client_name ln c config g at_ i t store b rest q).
Proof.
  intros Hi Hc Hq Hf Hff Hnn Hrest.
  destruct (screen_run client_name ln c config g at_ i t store q Hi Hq)
    as (s1 & q1 & Hrun & t' & evs & Hs & Hs1 & Hq1 & _ & _).
  unfold try_claim. unfold mbind at 1, M_bind at 1. rewrite Hrun. subst s1.
  destruct (decide (verdict_at t = Eligible)) as [Hv|Hv].
  { rewrite Hv in *. cbn [outcome_of]. rewrite (put_lookup i t' t) by done.
    exists (Some t'), b, (put i t' store). split_and!; [done|done|].
    exists i, t. split; [|done]. split_and!; [done|done|].
    exists store. split_and!; [apply sweep_refl|done|done]. }
  assert (Hsw : swept store (put i t' store)) by (eapply sweep_put; [done|]; by right).
  assert (Hk : ∀ b1, looped store q first none (rest (put i t' store) b1 q1)).
  { intros b1. destruct (Hrest (put i t' store) q1 b1 Hv Hsw) as (o & b' & s' & Hr & Hqs & Ho);
      [intros j Hj; by apply put_lookup_ne|done|].
    exists o, b', s'. split_and!; [done|done|]. destruct o as [u'|].
    - destruct Ho as (j & u & Ht & Hu). exists j, u. split; [by eapply took_after|by apply Hff].
    - destruct Ho as [Hs' Hn]. split; [by eapply sweep_trans|by apply Hnn]. }
  destruct (verdict_at t); try apply Hk. done.
Qed.

Lemma looped_mono s q (f f' : nat → TicketTask → Prop) (n n' : Prop) r :
  (∀ i t, f i t → f' i t) → (n → n') → looped s q f n r → looped s q f' n' r.
Proof.
  intros Hf Hn (o & b & s' & Hr & Hq & Ho). exists o, b, s'. split_and!; [done|done|].
  destruct o as [t'|]; [|naive_solver].
  destruct Ho as (i & t & Ht & Hi). exists i, t. by split; [|apply Hf].
Qed.

Lemma looped_end s q f (n : Prop) b :
  q.(q_store) = s → n → looped s q f n (inr (None, b, s), q).
Proof.
  intros Hq Hn. exists None, b, s. split; [done|]. split; [done|].
  split; [apply sweep_refl|done].
Qed.

Lemma claim_sorted_run ps : ∀ store b q,
  NoDup ps.*1 →
  (∀ i t, (i, t) ∈ ps → store.(tasks) !! i = Some t ∧ can_claim t = true) →
  q.(q_store) = store →
  looped store q
    (λ i t, ∃ ps1 ps2, ps = ps1 ++ (i, t) :: ps2 ∧ ∀ p, p ∈ ps1 → verdict_at p.2 ≠ Eligible)
    (∀ p, p ∈ ps → verdict_at p.2 ≠ Eligible)
    (claim_sorted client_name ln c config g at_ ps store b q).
Proof.
  induction ps as [|[i t] ps IH]; intros store b q Hnd Hin Hq.
  { apply looped_end; [done|]. by intros p ?%not_elem_of_nil. }
  cbn in Hnd. apply NoDup_cons in Hnd as [Hni Hnd].
  destruct (Hin i t) as [Hi Hc]; [left|].
  eapply (try_claim_run i t store b q _ _
    (λ j u, ∃ ps1 ps2, ps = ps1 ++ (j, u) :: ps2 ∧ ∀ p, p ∈ ps1 → verdict_at p.2 ≠ Eligible)
    _ (∀ p, p ∈ ps → verdict_at p.2 ≠ Eligible)); try done.
  - exists [], ps. split; [done|]. by intros p ?%not_elem_of_nil.
  - intros j u Hv (ps1 & ps2 & -> & Hp). exists ((i, t) :: ps1), ps2. split; [done|].
    intros p [->|Hp1]%elem_of_cons; [done|by apply Hp].
  - intros Hv Hp p [->|Hp1]%elem_of_cons; [done|by apply Hp].
  - intros s1 q1 b1 _ _ Hs1 Hq1. apply IH; [done| |done].
    intros j u Hj. destruct (Hin j u) as [Hju Hcu]; [by right|]. split; [|done].
    rewrite Hs1; [done|]. intros ->. apply Hni. apply list_elem_of_fmap. by exists (i, u).
Qed.

Lemma claimable_open t : can_claim t = true → is_open t.
Proof.
  intros H. unfold claimable in H. apply andb_true_iff in H as [_ H%bool_decide_eq_true].
  unfold is_open. rewrite H. reflexivity.
Qed.

(** The listed row of a ticket is its only claimable row. *)
Lemma listed_unique store tid i t j u :
  one_open_row store.(tasks) →
  list_find (λ t, can_claim t && String.eqb t.(ticket_id) tid = true) store.(tasks) = Some (i, t) →
  eligible store j u → u.(ticket_id) = tid → verdict_at t = Eligible.
Proof.
  intros Hone (Hi & [Hc Ht]%andb_true_iff & _)%list_find_Some (Hj & Hcu & Hv) Hu.
  apply String.eqb_eq in Ht.
  pose proof (proj1 (claimable_spec client_name ln t) Hc) as (Hcl & _).
  pose proof (proj1 (claimable_spec client_name ln u) Hcu) as (Hclu & _).
  assert (i = j) as ->; [|congruence].
  eapply one_open_unique; [exact Hone|done|done|by apply claimable_open|by apply claimable_open|].
  unfold row_key. congruence.
Qed.

Lemma claim_listed_run ids : ∀ store b q,
  one_open_row store.(tasks) → q.(q_store) = store →
  looped store q
    (λ i t, ∃ ids1 ids2, ids = ids1 ++ t.(ticket_id) :: ids2
            ∧ ∀ j u, eligible store j u → u.(ticket_id) ∉ ids1)
    (∀ j u, eligible store j u → u.(ticket_id) ∉ ids)
    (claim_listed client_name ln c config g at_ ids store b q).
Proof.
  induction ids as [|tid ids IH]; intros store b q Hone Hq.
  { apply looped_end; [done|]. intros j u _. apply not_elem_of_nil. }
  cbn [claim_listed].
  assert (Hskip : (∀ j u, eligible store j u → u.(ticket_id) ≠ tid) →
    ∀ ids1 j u, (∀ j u, eligible store j u → u.(ticket_id) ∉ ids1) → eligible store j u →
    u.(ticket_id) ∉ tid :: ids1).
  { intros H ids1 j u H1 He [Ht|Hin]%elem_of_cons; [by eapply H|by eapply H1]. }
  destruct (list_find _ (tasks store)) as [[i t]|] eqn:Hf.
  - pose proof (λ j u, listed_unique store tid i t j u Hone Hf) as Hu.
    apply list_find_Some in Hf as (Hi & [Hc Ht]%andb_true_iff & _). apply String.eqb_eq in Ht.
    eapply (try_claim_run i t store b q _ _
      (λ j u, ∃ ids1 ids2, ids = ids1 ++ u.(ticket_id) :: ids2
              ∧ ∀ j u, eligible store j u → u.(ticket_id) ∉ ids1)
      _ (∀ j u, eligible store j u → u.(ticket_id) ∉ ids)); try done.
    + exists [], ids. subst tid. split; [done|]. intros ? ? _. apply not_elem_of_nil.
    + intros j u Hv (ids1 & ids2 & -> & H). exists (tid :: ids1), ids2. split; [done|].
      intros k w. apply (Hskip (λ k w Hk Hw, Hv (Hu k w Hk Hw)) ids1 k w H).
    + intros Hv H j u He. apply (Hskip (λ k w Hk Hw, Hv (Hu k w Hk Hw)) _ j u H He).
    + intros s1 q1 b1 _ Hsw _ Hq1.
      eapply looped_mono; [| |apply IH; [by eapply sweep_one_open|done]].
      * intros j u (ids1 & ids2 & -> & H). exists ids1, ids2. split; [done|].
        intros k w He. apply (H k). by eapply (sweep_eligible _ _ _ _ _ _ store).
      * intros H j u He. apply (H j). by eapply (sweep_eligible _ _ _ _ _ _ store).
  - assert (Hn : ∀ j u, eligible store j u → u.(ticket_id) ≠ tid).
    { intros j u (Hj & Hc & _) Ht. apply list_find_None in Hf.
      eapply (Forall_lookup_1 _ _ _ _ Hf) in Hj. apply Hj. rewrite Hc, Ht. apply String.eqb_refl. }
    eapply looped_mono; [| |by apply IH].
    + intros j u (ids1 & ids2 & -> & H). exists (tid :: ids1), ids2. split; [done|].
      intros k w. by apply Hskip.
    + intros H j u He. by apply (Hskip Hn _ j u).
Qed.
End Loops.
