(* ===== verification/ClaimContract.v ===== *)
(** * The contract of a claim

    [_claim_next_pending] always returns; it claims the best row that passes
    every screen, if there is one, and changes no other row except to park it
    for the operator, uncharged. *)

From stdpp Require Import sorting.
From S2P Require Import Prelude PyStr Enums Tasks World Vocab Lifecycle GateBackoff.
From S2P Require Import Clients Crud CrudProps Requeue RequeueProps QueueRows Screening ScreeningProps ClaimOrder.

#[local] Open Scope cw_scope.

Section Contract.
Context {C : Clock}.
Context (client_name ln : string) (c : ClientConfig) (config : OrchestratorConfig) (g : Gates).

(** ** What a row must be to be claimed *)

Record ready (at_ : Z) (t : TicketTask) : Prop := {
  ready_client : t.(client) = client_name;
  ready_lane : t.(lane) = ln;
  ready_pending : t.(status) = QueueItemStatus.PENDING;
  ready_unoccupied : g.(occupied_ticket_reasons) !! t.(ticket_id) = None;
  ready_clock : ∀ e, t.(next_eligible_at) = Some e →
    (e ≤ at_)%Z ∨ c.(cc_gate_block_backoff_enabled) = false ∧ owns_wait t = true;
  ready_no_handoff : t.(pending_fix_dispatch) = None ∧ t.(fix_dispatch_session_id) = None;
  ready_settled : t.(adopted_head_sha) = None ∨ t.(adopted_repin_due) = false;
  ready_no_open_pr : t.(stage) ∈ [Stage.PLAN; Stage.IMPL] →
    g.(stale_pr_ticket_ids) !! t.(ticket_id) = None;
  ready_tracker : t.(stage) ∈ [Stage.PLAN; Stage.IMPL] →
    g.(tracker_mcp_gate_hits) !! t.(ticket_id) = None;
  ready_head : ∀ hit, g.(adopted_head_drifts) !! t.(ticket_id) = Some hit →
    t.(adopted_repin_due) = true ∨ t.(adopted_head_sha) ≠ Some hit.(pinned);
  ready_budget : ∀ n, resolve_attempt_ceiling (Some c) t config = Some n →
    (t.(unproductive_attempts) < n)%Z }.

Lemma early_stage_spec t : early_stage t = true ↔ t.(stage) ∈ [Stage.PLAN; Stage.IMPL].
Proof.
  unfold early_stage. rewrite orb_true_iff, !bool_decide_eq_true. set_solver.
Qed.

Lemma not_is_Some {A} (o : option A) : is_Some_b o = false ↔ o = None.
Proof. by destruct o. Qed.

Lemma window_spec at_ t :
  in_window at_ t && negb (gate_wait_released t c.(cc_gate_block_backoff_enabled)) = false ↔
  ∀ e, t.(next_eligible_at) = Some e →
    (e ≤ at_)%Z ∨ c.(cc_gate_block_backoff_enabled) = false ∧ owns_wait t = true.
Proof.
  unfold in_window, gate_wait_released. rewrite andb_false_iff, negb_false_iff, andb_true_iff,
    negb_true_iff.
  destruct (next_eligible_at t) as [e|]; [|naive_solver]. rewrite Z.ltb_ge. naive_solver.
Qed.

Lemma drift_spec t :
  _live_adopted_head_drift t g.(adopted_head_drifts) = None ↔
  ∀ hit, g.(adopted_head_drifts) !! t.(ticket_id) = Some hit →
    t.(adopted_repin_due) = true ∨ t.(adopted_head_sha) ≠ Some hit.(pinned).
Proof.
  unfold _live_adopted_head_drift.
  destruct (adopted_head_drifts g !! ticket_id t) as [hit|]; [|naive_solver]. cbn.
  destruct (bool_decide (adopted_head_sha t = Some (pinned hit))) eqn:Hb; cbn;
    [apply bool_decide_eq_true in Hb|apply bool_decide_eq_false in Hb];
    destruct (adopted_repin_due t); naive_solver.
Qed.

Lemma ceiling_spec t :
  ceiling_verdict c config t = Eligible ↔
  ∀ n, resolve_attempt_ceiling (Some c) t config = Some n → (t.(unproductive_attempts) < n)%Z.
Proof.
  unfold ceiling_verdict. destruct (resolve_attempt_ceiling _ _ _) as [n|]; [|naive_solver].
  destruct (Z.leb_spec n (unproductive_attempts t)); naive_solver lia.
Qed.

Lemma gates_spec t :
  gate_verdict c config g t = Eligible ↔
  _is_fix_dispatch_held t = false ∧ repin_unsettled t = false
  ∧ _is_stale_pr_gated t g.(stale_pr_ticket_ids) = false
  ∧ _is_tracker_mcp_gated t g.(tracker_mcp_gate_hits) = false
  ∧ _live_adopted_head_drift t g.(adopted_head_drifts) = None
  ∧ ceiling_verdict c config t = Eligible.
Proof.
  unfold gate_verdict, _is_tracker_mcp_gated.
  destruct (_is_fix_dispatch_held t); [naive_solver|].
  destruct (repin_unsettled t); [naive_solver|].
  destruct (_is_stale_pr_gated t _); [naive_solver|].
  destruct (early_stage t); cbn [andb].
  - destruct (tracker_mcp_gate_hits g !! ticket_id t); [naive_solver|].
    destruct (_live_adopted_head_drift t _); naive_solver.
  - destruct (_live_adopted_head_drift t _); naive_solver.
Qed.

Lemma eligible_ready at_ store i t :
  eligible_at client_name ln c config g at_ store i t ↔
  store.(tasks) !! i = Some t ∧ ready at_ t.
Proof.
  unfold eligible_at, verdict_of. rewrite claimable_spec.
  assert (Hst : ∀ A (m : gmap string A), early_stage t && is_Some_b (m !! ticket_id t) = false
    ↔ (t.(stage) ∈ [Stage.PLAN; Stage.IMPL] → m !! ticket_id t = None)).
  { intros A m. rewrite <- early_stage_spec, andb_false_iff, not_is_Some.
    destruct (early_stage t); naive_solver. }
  assert (Hv : (if is_Some_b (occupied_ticket_reasons g !! ticket_id t) then Occupied
      else if in_window at_ t && negb (gate_wait_released t (cc_gate_block_backoff_enabled c))
      then Waiting else gate_verdict c config g t) = Eligible ↔
    is_Some_b (occupied_ticket_reasons g !! ticket_id t) = false
    ∧ in_window at_ t && negb (gate_wait_released t (cc_gate_block_backoff_enabled c)) = false
    ∧ gate_verdict c config g t = Eligible) by (repeat case_match; naive_solver).
  rewrite Hv, not_is_Some, window_spec, gates_spec, drift_spec, ceiling_spec.
  unfold _is_stale_pr_gated, _is_tracker_mcp_gated. rewrite !Hst.
  unfold _is_fix_dispatch_held, repin_unsettled. rewrite orb_false_iff, andb_false_iff, !not_is_Some.
  split.
  - intros (? & (?&?&?) & ? & ? & ? & ? & ? & ? & ? & ?). split; [done|]. by constructor.
  - intros (? & []). tauto.
Qed.

(** ** What a claim returns *)

Definition usage_limited (limit : option Z) (at_ : Z) : bool :=
  match limit with None => false | Some u => Z.ltb at_ u end.

(** The row the order promises: the first listed ticket with a ready row,
    else the ready row of highest priority, oldest first. *)
Definition best_row (at_ : Z) (ids : list string) (store : DevQueueStore) (i : nat)
  (t : TicketTask) : Prop :=
  store.(tasks) !! i = Some t ∧ ready at_ t
  ∧ ((∃ ids1 ids2, ids = ids1 ++ t.(ticket_id) :: ids2
       ∧ ∀ j u, store.(tasks) !! j = Some u → ready at_ u → u.(ticket_id) ∉ ids1)
     ∨ (∀ j u, store.(tasks) !! j = Some u → ready at_ u →
          u.(ticket_id) ∉ ids ∧ claim_before (i, t) (j, u))).

(** The row a claim leaves. *)
Definition claimed_form (t t' : TicketTask) : Prop :=
  row_key t' = row_key t ∧ t'.(lane) = t.(lane) ∧ t'.(stage) = t.(stage)
  ∧ t'.(status) = QueueItemStatus.RUNNING ∧ t'.(attempts) = (t.(attempts) + 1)%Z
  ∧ is_Some t'.(claimed_at) ∧ t'.(created_at) = t.(created_at)
  ∧ t'.(unproductive_attempts) = t.(unproductive_attempts)
  ∧ t'.(session_id) = t.(session_id).

Definition swept_with (ids : list string) (limit : option Z) (q : QueueWorld)
  (r : (exn + option TicketTask * bool) * QueueWorld) : Prop :=
  let at_ := clock_at q.(q_ticks) in
  ∃ o b, r.1 = inr (o, b)
    ∧ if usage_limited limit at_ then o = None ∧ r.2 = q <| q_ticks := S q.(q_ticks) |>
      else match o with
           | None => sweep client_name ln c config g at_ q.(q_store) r.2.(q_store)
                     ∧ ∀ i t, ¬ eligible_at client_name ln c config g at_ q.(q_store) i t
           | Some t' => ∃ i t, took client_name ln c config g at_ q.(q_store) r.2.(q_store) i t t'
                               ∧ best_row at_ ids q.(q_store) i t
           end.

Lemma claim_run ids limit q :
  one_open_row (q_tasks q) →
  swept_with ids limit q (_claim_next_pending client_name ln c config ids limit g q).
Proof.
  intros Hone. unfold _claim_next_pending.
  set (at_ := clock_at (q_ticks q)).
  unfold mbind at 1, M_bind at 1, q_now. fold at_. fold (usage_limited limit at_).
  set (q0 := q <| q_ticks := S (q_ticks q) |>).
  destruct (usage_limited limit at_) eqn:Hl.
  { unfold swept_with. fold at_. rewrite Hl. exists None, false. split; [done|]. by split. }
  unfold mbind at 1, M_bind at 1, load_dev_queue, gets.
  change (q_store q0) with (q_store q).
  destruct (claim_listed_run client_name ln c config g at_ ids (q_store q) false q0 Hone eq_refl)
    as (o & b & s1 & Hr & Hq1 & Ho).
  unfold mbind at 1, M_bind at 1.
  destruct (claim_listed _ _ _ _ _ _ _ _ _ q0) as [r q1]. cbn in Hr, Hq1. subst r.
  destruct o as [t'|].
  { unfold swept_with. cbv zeta. fold at_. rewrite Hl. exists (Some t'), b. split; [done|]. cbn [snd mret M_ret].
    destruct Ho as (i & t & Ht & ids1 & ids2 & -> & Hn). exists i, t. rewrite Hq1.
    split; [done|]. destruct Ht as (He & _). apply eligible_ready in He as [Hi Hrd].
    split_and!; [done|done|]. left. exists ids1, ids2. split; [done|].
    intros j u Hj Hu. apply (Hn j). by apply eligible_ready. }
  destruct Ho as [Hsw Hn].
  destruct (claim_sorted_run client_name ln c config g at_ (pending_candidates client_name ln s1)
    s1 b q1) as (o & b' & s2 & Hr & Hq2 & Ho);
    [apply pending_NoDup|by intros i t ?%pending_elem|done|].
  unfold mbind at 1, M_bind at 1.
  destruct (claim_sorted _ _ _ _ _ _ _ _ _ q1) as [r q2]. cbn in Hr, Hq2. subst r.
  unfold swept_with. cbv zeta. fold at_. rewrite Hl.
  exists o, b'. split; [done|]. cbn [snd mret M_ret]. rewrite Hq2.
  assert (Hel : ∀ i t, eligible_at client_name ln c config g at_ (q_store q) i t ↔
    (i, t) ∈ pending_candidates client_name ln s1 ∧ verdict_of c config g at_ t = Eligible).
  { intros i t. rewrite (sweep_eligible _ _ _ _ _ _ _ _ i t Hsw), pending_elem.
    unfold eligible_at. tauto. }
  destruct o as [t'|].
  - destruct Ho as (i & t & Ht & ps1 & ps2 & Hps & Hp1).
    apply (took_after _ _ _ _ _ _ _ _ _ _ _ _ Hsw) in Ht. exists i, t. split; [done|].
    destruct Ht as (He & _). apply eligible_ready in He as [Hi Hrd]. split_and!; [done|done|].
    right. intros j u Hj Hu. assert (Heu : eligible_at client_name ln c config g at_ (q_store q) j u)
      by by apply eligible_ready. split; [by apply (Hn j)|].
    apply Hel in Heu as [Hin Hv]. rewrite Hps in Hin.
    apply elem_of_app in Hin as [Hin|[Heq|Hin]%elem_of_cons].
    + by apply (Hp1 _ Hin) in Hv.
    + injection Heq as -> ->. unfold claim_before. lia.
    + eapply sorted_split; [|done]. rewrite <- Hps. apply pending_sorted.
  - destruct Ho as [Hs2 Hn2]. split; [by eapply sweep_trans|].
    intros i t He. apply Hel in He as [Hin Hv]. by apply (Hn2 _ Hin).
Qed.

Lemma settled_claim at_ t t' : settles c at_ Eligible t t' → t.(status) = QueueItemStatus.PENDING →
  claimed_form t t'.
Proof.
  intros (r & x & y & z & n & Hr & ->) Hp.
  destruct (past_wait_frame c at_ t) as (Hk & Hs & Hl & Ha & Hu & _ & Hcr & _ & H9 & H10).
  assert (Hst : stage (past_wait c at_ t) = stage t ∧ session_id (past_wait c at_ t) = session_id t)
    by (unfold past_wait, clear_gate_block_wait; by repeat case_match).
  destruct Hst as [Hst Hses].
  unfold claimed_form, row_key. cbn. rewrite Hr. autorewrite with row.
  rewrite H9, H10, Hl, Hst, Ha, Hcr, Hu, Hses, Hs, Hp. cbn. rewrite Z.add_0_r.
  by split_and!.
Qed.

(** C7: a claim always returns, writes nothing while the usage limit holds,
    and otherwise claims exactly the best row there is: the first listed
    ticket that has a ready row, else the ready row of highest priority,
    oldest first; the row is marked RUNNING with one more attempt and a claim
    instant, charged nothing, and is the one returned.  It returns no row
    only when no row of the client's lane is ready. *)
Theorem claim_takes_best ids limit q :
  one_open_row (q_tasks q) →
  let at_ := clock_at q.(q_ticks) in
  ∃ o b q', _claim_next_pending client_name ln c config ids limit g q = (inr (o, b), q')
    ∧ if usage_limited limit at_ then o = None ∧ q'.(q_store) = q.(q_store)
      else match o with
           | None => ∀ i t, q_tasks q !! i = Some t → ¬ ready at_ t
           | Some t' => ∃ i t, best_row at_ ids q.(q_store) i t ∧ claimed_form t t'
                               ∧ q_tasks q' !! i = Some t'
           end.
Proof.
  intros Hone. cbv zeta. destruct (claim_run ids limit q Hone) as (o & b & Hr & Ho).
  destruct (_claim_next_pending _ _ _ _ _ _ _ q) as [r q']. cbn in Hr, Ho. subst r.
  exists o, b, q'. split; [done|]. destruct (usage_limited _ _); [by destruct Ho as [-> ->]|].
  destruct o as [t'|].
  - destruct Ho as (i & t & (He & Hs & mid & Hm & Hi & Hq) & Hb). exists i, t. split; [done|].
    apply eligible_ready in He as [_ Hrd]. split; [apply (settled_claim _ _ _ Hs), Hrd|].
    unfold q_tasks. rewrite Hq. by eapply put_lookup.
  - destruct Ho as [_ Hn]. intros i t Hi Hrd. apply (Hn i t). by apply eligible_ready.
Qed.

(** ** What a claim does to every other row *)

Definition park_dispositions : list string :=
  [STALE_DISPATCH_GATE_DISPOSITION; TRACKER_MCP_GATE_DISPOSITION; ADOPTED_HEAD_DRIFT_DISPOSITION;
   ATTEMPT_CAP_BLOCKED_DISPOSITION].

(** Untouched but for a dropped gate wait, or parked. *)
Definition held_or_parked (t t' : TicketTask) : Prop :=
  t' = t ∨ t' = clear_gate_block_wait t
  ∨ t.(client) = client_name ∧ t.(lane) = ln ∧ t.(status) = QueueItemStatus.PENDING
    ∧ t'.(status) = QueueItemStatus.BLOCKED_ON_USER
    ∧ ∃ d, d ∈ park_dispositions ∧ t'.(disposition) = Some d.

Definition uncharged (t t' : TicketTask) : Prop :=
  row_key t' = row_key t ∧ t'.(lane) = t.(lane) ∧ t'.(stage) = t.(stage)
  ∧ t'.(created_at) = t.(created_at) ∧ t'.(session_id) = t.(session_id)
  ∧ t'.(unproductive_attempts) = t.(unproductive_attempts).

Lemma past_wait_uncharged at_ t : uncharged t (past_wait c at_ t).
Proof.
  unfold uncharged, past_wait, clear_gate_block_wait. by destruct (wait_released _ _ _), (owns_wait t).
Qed.

Lemma blocked_uncharged disp url reason b t t' :
  t.(status) = QueueItemStatus.PENDING →
  blocked_as disp url reason b t t' →
  uncharged t t' ∧ t'.(attempts) = t.(attempts)
  ∧ t'.(status) = QueueItemStatus.BLOCKED_ON_USER ∧ t'.(disposition) = Some disp.
Proof.
  intros Hp (x & y & z & ->). unfold uncharged, row_key. autorewrite with row. rewrite Hp. cbn.
  by rewrite Z.add_0_r.
Qed.

Lemma uncharged_trans t u w : uncharged t u → uncharged u w → uncharged t w.
Proof. unfold uncharged. intuition congruence. Qed.

Lemma passed_row at_ t t' :
  passed client_name ln c config g at_ t t' →
  held_or_parked t t' ∧ uncharged t t' ∧ t'.(attempts) = t.(attempts).
Proof.
  intros [->|(Hc & Hne & Hs)].
  { unfold uncharged. by split; [left|]. }
  apply claimable_spec in Hc as (Hcl & Hln & Hp).
  pose proof (past_wait_uncharged at_ t) as Hu.
  destruct (past_wait_frame c at_ t) as (_ & Hst & _ & Ha & _).
  rewrite Hp in Hst.
  assert (Hw : ∀ u, u = past_wait c at_ t → held_or_parked t u ∧ uncharged t u
    ∧ u.(attempts) = t.(attempts)).
  { intros u ->. split; [|by split]. unfold past_wait. destruct (wait_released _ _ _);
      [by right; left|by left]. }
  assert (Hb : ∀ d url reason b u u', d ∈ park_dispositions →
    blocked_as d url reason b (past_wait c at_ t) u → (u' = u ∨ u' = u <| pr_state := None |>) →
    held_or_parked t u' ∧ uncharged t u' ∧ u'.(attempts) = t.(attempts)).
  { intros d url reason b u u' Hd H Hu'.
    apply blocked_uncharged in H as (H1 & H2 & H3 & H4); [|done].
    pose proof (uncharged_trans _ _ _ Hu H1) as H5. rewrite Ha in H2.
    destruct Hu' as [-> | ->]; (split; [right; right; split_and!; try done; by exists d|by split]). }
  assert (Hd : ∀ k d, park_dispositions !! k = Some d → d ∈ park_dispositions)
    by (intros; by eapply list_elem_of_lookup_2).
  destruct (verdict_of c config g at_ t); cbn [settles gate_settles] in Hs; try done.
  - subst. unfold uncharged. by split; [left|].
  - subst. unfold uncharged. by split; [left|].
  - by apply Hw.
  - by apply Hw.
  - destruct Hs as (r & Hr & ->). apply (Hb _ _ _ _ _ _ (Hd 0%nat _ eq_refl) Hr).
    destruct (_ && _); [by right|by left].
  - apply (Hb _ _ _ _ _ _ (Hd 1%nat _ eq_refl) Hs). by left.
  - apply (Hb _ _ _ _ _ _ (Hd 2%nat _ eq_refl) Hs). by left.
  - apply (Hb _ _ _ _ _ _ (Hd 3%nat _ eq_refl) Hs). by left.
Qed.

(** over one claim no row is added, removed or charged, and every row
    keeps its ticket, client, lane, stage and session.  At most one row - the
    one returned - is claimed; every other row is left as it was, loses a
    released gate wait, or, when it is a pending row of this client's lane, is
    parked for the operator under one of the four pre-dispatch dispositions
    without an attempt. *)
Theorem claim_moves_one_row ids limit q :
  one_open_row (q_tasks q) →
  ∃ o b q', _claim_next_pending client_name ln c config ids limit g q = (inr (o, b), q')
    ∧ length (q_tasks q') = length (q_tasks q)
    ∧ ∃ claimed : option nat,
        (∀ i, claimed = Some i → q_tasks q' !! i = o)
        ∧ (claimed = None → o = None)
        ∧ ∀ j t t', q_tasks q !! j = Some t → q_tasks q' !! j = Some t' →
            uncharged t t'
            ∧ if bool_decide (claimed = Some j) then claimed_form t t'
              else held_or_parked t t' ∧ t'.(attempts) = t.(attempts).
Proof.
  intros Hone. destruct (claim_run ids limit q Hone) as (o & b & Hr & Ho).
  destruct (_claim_next_pending _ _ _ _ _ _ _ q) as [r q']. cbn in Hr, Ho. subst r.
  exists o, b, q'. split; [done|]. unfold q_tasks.
  destruct (usage_limited _ _).
  { destruct Ho as [-> ->]. split; [done|]. exists None. split_and!; [done|done|].
    intros j t t' Ht Ht'. cbn in Ht'. assert (t' = t) as -> by congruence. cbn.
    rewrite bool_decide_false by done. split; [by unfold uncharged|]. split; [by left|done]. }
  destruct o as [u'|].
  - destruct Ho as (i & u & (He & Hs & mid & Hm & Hi & ->) & _).
    split. { rewrite put_length. symmetry. by eapply Forall2_length. }
    exists (Some i). split_and!; [|done|].
    { intros k [= <-]. by eapply put_lookup. }
    intros j t t' Ht Ht'.
    destruct (Forall2_lookup_l _ _ _ _ _ Hm Ht) as (w & Hw & Hp). destruct (decide (i = j)) as [<-|Hne].
    + rewrite bool_decide_true by done. destruct He as (Hi' & Hc & _).
      rewrite (put_lookup i u' u) in Ht' by done. simplify_eq.
      assert (Hcf : claimed_form u t').
      { apply (settled_claim (clock_at (q_ticks q))); [done|]. by apply claimable_spec in Hc as (_ & _ & Hpend). }
      split; [|done]. unfold claimed_form in Hcf. unfold uncharged. tauto.
    + rewrite bool_decide_false by congruence. rewrite put_lookup_ne in Ht' by done. simplify_eq.
      apply passed_row in Hp as (? & ? & ?). by split.
  - destruct Ho as [Hm _]. split; [symmetry; by eapply Forall2_length|].
    exists None. split_and!; [done|done|]. intros j t t' Ht Ht'. cbn.
    destruct (Forall2_lookup_l _ _ _ _ _ Hm Ht) as (w & Hw & Hp). simplify_eq.
    rewrite bool_decide_false by done. apply passed_row in Hp as (? & ? & ?). by split.
Qed.

(** No second open row of a ticket appears. *)
Lemma claim_one_open ids limit q :
  one_open_row (q_tasks q) →
  one_open_row (q_tasks (exec (_claim_next_pending client_name ln c config ids limit g) q)).
Proof.
  intros Hone. destruct (claim_run ids limit q Hone) as (o & b & Hr & Ho). unfold exec.
  destruct (_claim_next_pending _ _ _ _ _ _ _ q) as [r q']. cbn in Hr, Ho |- *.
  destruct (usage_limited _ _); [by destruct Ho as [_ ->]|]. unfold q_tasks in *.
  destruct o as [u'|].
  - destruct Ho as (i & u & ((Hi' & Hc & _) & Hs & mid & Hm & Hi & ->) & _). cbn.
    eapply keeps_open_insert; [exact Hi| |by eapply sweep_one_open].
    intros _. split; [by eapply claimable_open|by eapply settled_row].
  - destruct Ho as [Hm _]. by eapply sweep_one_open.
Qed.
End Contract.
