(* ===== verification/QueueRowsProps.v ===== *)
(** * What the locked mutators do to a claimed row

    The re-find hits exactly the caller's row when the ticket has one open
    row; then the row a revert, a park and a spawn stamp leave. *)

From S2P Require Import Prelude PyStr Enums Tasks World Vocab Lifecycle GateBackoff.
From S2P Require Import Clients Crud CrudProps Requeue RequeueProps QueueRows Screening ScreeningProps.

#[local] Open Scope cw_scope.

(** ** The re-find *)

Section Find.
Context (tid cl : string) (who : RowIdentity).

Lemma is_running_row_spec t :
  is_running_row tid cl who t = true ↔
  row_key t = (tid, cl) ∧ t.(status) = QueueItemStatus.RUNNING
  ∧ (∀ c, who.(rid_created_at) = Some c → t.(created_at) = c)
  ∧ (∀ s, who.(rid_session_id) = Some s → t.(session_id) = Some s).
Proof.
  unfold is_running_row. rewrite !andb_true_iff, is_row_true, bool_decide_eq_true.
  destruct who as [[c0|] [s0|]]; cbn; rewrite ?Z.eqb_eq, ?bool_decide_eq_true; naive_solver.
Qed.

Lemma running_open t : t.(status) = QueueItemStatus.RUNNING → is_open t.
Proof. unfold is_open. by intros ->. Qed.

(** The only open row of the ticket decides the search. *)
Lemma find_running store i t :
  one_open_row store.(tasks) → store.(tasks) !! i = Some t → is_open t → row_key t = (tid, cl) →
  list_find (λ t, is_running_row tid cl who t = true) store.(tasks)
  = if is_running_row tid cl who t then Some (i, t) else None.
Proof.
  intros Hone Hi Ho Hk.
  assert (Huniq : ∀ j u, store.(tasks) !! j = Some u → is_running_row tid cl who u = true → j = i).
  { intros j u Hj (Hku & Hru & _)%is_running_row_spec.
    eapply one_open_unique; [exact Hone|done|done|by apply running_open|done|congruence]. }
  destruct (is_running_row tid cl who t) eqn:Hr.
  - apply list_find_Some. split_and!; [done|done|]. intros j u Hj Hlt Hu.
    apply (Huniq j) in Hu; [lia|done].
  - apply list_find_None, Forall_forall. intros u [j Hj]%list_elem_of_lookup Hu.
    assert (j = i) as -> by (by eapply Huniq). congruence.
Qed.
End Find.

Definition has_identity (who : RowIdentity) : Prop :=
  is_Some who.(rid_created_at) ∨ is_Some who.(rid_session_id).

Lemma find_running_row_eq store tid cl who :
  has_identity who →
  _find_running_row store tid cl who
  = inr (list_find (λ t, is_running_row tid cl who t = true) store.(tasks)).
Proof.
  unfold _find_running_row. destruct who as [[c|] [s|]]; cbn; try done.
  intros [[? [=]]|[? [=]]].
Qed.

Section Runs.
Context {C : Clock}.

(** A row mutation that never raises, whatever the inbox and clock. *)
Definition row_effect (m : M World unit) (t : TicketTask) (P : TicketTask → Prop) : Prop :=
  ∀ evs n, ∃ t' evs' k, m (mkWorld t evs n) = (inr tt, mkWorld t' (evs ++ evs') k) ∧ P t'.

Lemma with_running_hit tid cl who m q i t P :
  has_identity who → one_open_row (q_tasks q) → q_tasks q !! i = Some t →
  row_key t = (tid, cl) → is_running_row tid cl who t = true → row_effect m t P →
  ∃ t' q', with_running_row tid cl who m q = (inr true, q') ∧ P t'
    ∧ q'.(q_store) = put i t' q.(q_store)
    ∧ ∃ evs, q'.(q_events) = q.(q_events) ++ evs.
Proof.
  intros Hid Hone Hi Hk Hr Hm. unfold with_running_row.
  unfold mbind at 1, M_bind at 1, load_dev_queue, gets.
  rewrite find_running_row_eq by done.
  rewrite (find_running _ _ _ _ i t) by
    (first [exact Hone|exact Hi|done| apply running_open; by apply is_running_row_spec in Hr as (_&?&_)]).
  rewrite Hr. destruct (Hm q.(q_events) q.(q_ticks)) as (t' & evs & k & Hrun & HP).
  unfold mbind, M_bind, on_row. rewrite Hrun. exists t'. eexists. split; [reflexivity|].
  split; [done|]. split; [done|]. by exists evs.
Qed.

(** No open row of the ticket is RUNNING: the file is rewritten as it was. *)
Lemma with_running_miss tid cl who m q i t :
  has_identity who → one_open_row (q_tasks q) → q_tasks q !! i = Some t →
  row_key t = (tid, cl) → is_open t → t.(status) ≠ QueueItemStatus.RUNNING →
  ∃ q', with_running_row tid cl who m q = (inr false, q')
    ∧ q'.(q_store) = q.(q_store) ∧ q'.(q_events) = q.(q_events).
Proof.
  intros Hid Hone Hi Hk Ho Hr. unfold with_running_row.
  unfold mbind at 1, M_bind at 1, load_dev_queue, gets.
  rewrite find_running_row_eq by done.
  rewrite (find_running _ _ _ _ i t) by (first [exact Hone|exact Hi|done]).
  destruct (is_running_row tid cl who t) eqn:Hrr.
  { by apply is_running_row_spec in Hrr as (_ & Hst & _). }
  eexists. split; [reflexivity|]. done.
Qed.

(** A mutation that raises: nothing is saved. *)
Lemma with_running_raise tid cl who m q i t e :
  has_identity who → one_open_row (q_tasks q) → q_tasks q !! i = Some t →
  row_key t = (tid, cl) → is_running_row tid cl who t = true →
  (∀ evs n, ∃ w, m (mkWorld t evs n) = (inl e, w)) →
  ∃ q', with_running_row tid cl who m q = (inl e, q') ∧ q'.(q_store) = q.(q_store).
Proof.
  intros Hid Hone Hi Hk Hr Hm. unfold with_running_row.
  unfold mbind at 1, M_bind at 1, load_dev_queue, gets.
  rewrite find_running_row_eq by done.
  rewrite (find_running _ _ _ _ i t) by
    (first [exact Hone|exact Hi|done| apply running_open; by apply is_running_row_spec in Hr as (_&?&_)]).
  rewrite Hr. destruct (Hm q.(q_events) q.(q_ticks)) as (w & Hrun).
  unfold mbind, M_bind, on_row. rewrite Hrun. by eexists.
Qed.

(** ** The reverted row *)

Definition window_after (a : RevertArgs) (before after : option Z) (errors : Z) : Prop :=
  if a.(stamp_backoff) then ∃ n, after = Some (clock_at n + spawn_error_delay errors)%Z
  else match a.(defer_for) with
       | Some d => ∃ n, after = Some (clock_at n + d)%Z
       | None => after = before
       end.

Definition reverted_as (a : RevertArgs) (t t' : TicketTask) : Prop :=
  row_key t' = row_key t ∧ t'.(created_at) = t.(created_at) ∧ t'.(lane) = t.(lane)
  ∧ t'.(stage) = t.(stage) ∧ t'.(status) = QueueItemStatus.PENDING ∧ t'.(session_id) = None
  ∧ t'.(attempts) = (if is_Some_b a.(defer_for) then Z.max 0 (t.(attempts) - 1) else t.(attempts))
  ∧ t'.(unproductive_attempts)
    = (t.(unproductive_attempts)
       + if running_exit t.(status) QueueItemStatus.PENDING
            && (a.(revert_unproductive) && negb (is_Some_b a.(defer_for))) then 1 else 0)%Z
  ∧ t'.(spawn_error_count) = (t.(spawn_error_count) + if a.(stamp_backoff) then 1 else 0)%Z
  ∧ window_after a t.(next_eligible_at) t'.(next_eligible_at) t'.(spawn_error_count).

Lemma revert_effect a t : row_effect (revert_row a) t (reverted_as a t).
Proof.
  intros evs n. unfold revert_row.
  rewrite (bind_run _ _ _ _ _ (pend_run _ t evs n)).
  set (b := _ && _). set (evs1 := evs ++ _).
  assert (Hu : ∀ u, u = pend b t → row_key u = row_key t ∧ u.(created_at) = t.(created_at)
    ∧ u.(lane) = t.(lane) ∧ u.(stage) = t.(stage) ∧ u.(status) = QueueItemStatus.PENDING
    ∧ u.(attempts) = t.(attempts) ∧ u.(spawn_error_count) = t.(spawn_error_count)
    ∧ u.(next_eligible_at) = t.(next_eligible_at)
    ∧ u.(unproductive_attempts)
      = (t.(unproductive_attempts)
         + if running_exit t.(status) QueueItemStatus.PENDING && b then 1 else 0)%Z).
  { intros u ->. unfold row_key, pend. by autorewrite with row. }
  revert Hu. generalize (pend b t). intros u Hu. specialize (Hu u eq_refl).
  destruct Hu as (H1 & H2 & H3 & H4 & H5 & H6 & H7 & H8 & H9).
  rewrite (bind_run _ _ _ _ _ (assign_run _ u evs1 n)).
  destruct a as [sb conflict [d|] unp]; unfold release_claim, back_off, reverted_as, window_after;
    destruct conflict, sb; cbn in b |- *;
    (do 3 eexists; split; [reflexivity|]); cbn;
    rewrite ?H2, ?H3, ?H4, ?H6, ?H7, ?H8, ?H9, ?Z.add_0_r; split_and!; try done; by eexists.
Qed.

(** ** The parked row *)

Definition parked_as (disp : string) (t t' : TicketTask) : Prop :=
  row_key t' = row_key t ∧ t'.(created_at) = t.(created_at) ∧ t'.(lane) = t.(lane)
  ∧ t'.(stage) = t.(stage) ∧ t'.(status) = QueueItemStatus.BLOCKED_ON_USER
  ∧ t'.(session_id) = None ∧ t'.(disposition) = Some disp ∧ t'.(attempts) = t.(attempts)
  ∧ t'.(unproductive_attempts) = t.(unproductive_attempts)
  ∧ t'.(spawn_error_count) = t.(spawn_error_count)
  ∧ t'.(next_eligible_at) = t.(next_eligible_at).

Lemma park_effect tid cl disp crumbs t :
  row_effect (park_row tid cl disp crumbs false None) t (parked_as disp t).
Proof.
  intros evs n. unfold park_row.
  destruct (transition_blocked disp None None false t evs n) as (u & evs' & k & Hrun & x & y & z & Hu).
  setoid_rewrite (bind_run _ _ _ _ _ Hrun).
  do 3 eexists. split; [unfold mbind, M_bind, record_event, modify; cbn; by rewrite <- app_assoc|].
  unfold parked_as, row_key. cbn. rewrite Hu. autorewrite with row.
  rewrite andb_false_r, Z.add_0_r. by split_and!.
Qed.

(** ** The stamped row *)

Definition stamped_as (sid : string) (t t' : TicketTask) : Prop :=
  row_key t' = row_key t ∧ t'.(created_at) = t.(created_at) ∧ t'.(lane) = t.(lane)
  ∧ t'.(stage) = t.(stage) ∧ t'.(status) = t.(status) ∧ t'.(session_id) = Some sid
  ∧ t'.(attempts) = t.(attempts) ∧ t'.(unproductive_attempts) = t.(unproductive_attempts)
  ∧ t'.(spawn_error_count) = 0%Z ∧ t'.(next_eligible_at) = None.

Lemma spawn_fields_stamped sid t : stamped_as sid t (_apply_spawn_success_fields sid t).
Proof.
  unfold stamped_as, _apply_spawn_success_fields. cbv zeta.
  destruct (bool_decide _); repeat split.
Qed.
End Runs.
