(* ===== verification/BackstopsProps.v ===== *)
(** * What the reconciler's queue sweeps do to the rows

    One lemma runs every sweep of the file: the rows change one for one, each
    as its own act says.  Then what each sweep promises: the backstop spares unsaved
    work, a completion is evidenced, a gate release survives a crash, and which
    rows a restore of cancelled rows opens. *)

From S2P Require Import Prelude PyStr Enums Tasks World Vocab Lifecycle GateBackoff Clients Crud CrudProps.
From S2P Require Import GhReads PrHydrate Requeue Probes QueueRows Backstops Screening ScreeningProps QueueRowsProps.

#[local] Open Scope cw_scope.

Lemma filter_none {A} (P : A → Prop) `{∀ x, Decision (P x)} l :
  (∀ x, x ∈ l → ¬ P x) → filter P l = [].
Proof.
  induction l as [|x l IH]; [done|]. intros Hn. rewrite filter_cons, decide_False by (apply Hn; by left).
  apply IH. intros y ?. apply Hn. by right.
Qed.

(** ** A sweep of the rows *)

Section Sweep.
Context {C : Clock}.

(** What a sweep makes of one row. *)
Definition swept (act : TicketTask → option (M World unit)) (P : TicketTask → TicketTask → Prop)
  (t t' : TicketTask) : Prop :=
  if act t then P t t' else t' = t.

Lemma on_row_effect m t P q :
  row_effect m t P →
  ∃ t' evs q', on_row t m q = (inr t', q') ∧ P t' ∧ q'.(q_store) = q.(q_store)
    ∧ q'.(q_saves) = q.(q_saves) ∧ q'.(q_events) = q.(q_events) ++ evs.
Proof.
  intros Hm. destruct (Hm q.(q_events) q.(q_ticks)) as (t' & evs & k & Hrun & HP).
  unfold on_row. rewrite Hrun. exists t', evs. eexists. by split_and!.
Qed.

Lemma sweep_rows_run act P ts q :
  (∀ t m, act t = Some m → row_effect m t (P t)) →
  ∃ ts' evs q', sweep_rows act ts q = (inr (ts', filter (λ t, is_Some (act t)) ts), q')
    ∧ Forall2 (swept act P) ts ts' ∧ q'.(q_store) = q.(q_store)
    ∧ q'.(q_saves) = q.(q_saves) ∧ q'.(q_events) = q.(q_events) ++ evs.
Proof.
  intros Hact. revert q. induction ts as [|t ts IH]; intros q.
  { exists [], [], q. rewrite app_nil_r. by split_and!. }
  cbn [sweep_rows]. rewrite filter_cons. destruct (act t) as [m|] eqn:Ht.
  - rewrite decide_True by done.
    destruct (on_row_effect m t (P t) q (Hact t m Ht)) as (t' & evs & q1 & Hrun & HP & S1 & V1 & E1).
    destruct (IH q1) as (ts' & evs' & q' & Hrec & HF & S2 & V2 & E2).
    unfold mbind, M_bind in *. rewrite Hrun, Hrec. exists (t' :: ts'), (evs ++ evs'), q'.
    split; [done|]. split_and!; [|congruence|congruence|by rewrite E2, E1, app_assoc].
    constructor; [|done]. unfold swept. by rewrite Ht.
  - rewrite decide_False by by intros []. destruct (IH q) as (ts' & evs & q' & Hrec & HF & S2 & V2 & E2).
    unfold mbind, M_bind in *. rewrite Hrec. exists (t :: ts'), evs, q'.
    split_and!; try done. constructor; [|done]. unfold swept. by rewrite Ht.
Qed.

Lemma swept_none act P ts ts' :
  Forall2 (swept act P) ts ts' → filter (λ t, is_Some (act t)) ts = [] → ts' = ts.
Proof.
  induction 1 as [|t t' ts ts' Hs _ IH]; [done|]. rewrite filter_cons. unfold swept in Hs.
  destruct (act t) as [m|] eqn:E; [by rewrite decide_True by done|].
  rewrite decide_False by by intros []. intros Hn. by rewrite Hs, IH.
Qed.

(** The whole file, saved when a row changed. *)
Lemma sweep_store_run act P q :
  (∀ t m, act t = Some m → row_effect m t (P t)) →
  let acted := filter (λ t, is_Some (act t)) (q_tasks q) in
  ∃ evs q', sweep_store act q = (inr acted, q')
    ∧ Forall2 (swept act P) (q_tasks q) (q_tasks q')
    ∧ (acted = [] → q'.(q_store) = q.(q_store) ∧ q'.(q_saves) = q.(q_saves))
    ∧ q'.(q_events) = q.(q_events) ++ evs.
Proof.
  intros Hact. cbv zeta. unfold sweep_store, load_dev_queue, gets. unfold mbind at 1, M_bind at 1.
  destruct (sweep_rows_run act P (q_tasks q) q Hact) as (ts' & evs & q' & Hrun & HF & S1 & V1 & E1).
  unfold mbind, M_bind. unfold q_tasks in *. rewrite Hrun. cbn [fst snd].
  set (acted := filter _ _) in *. destruct (bool_decide_reflect (acted = [])) as [Hn|Hn]; cbn [negb when].
  - exists evs, q'. split; [done|]. rewrite S1. split_and!; [|by intros _|done].
    apply (swept_none _ _ _ _ HF) in Hn as Hts. by rewrite <- Hts at 2.
  - exists evs. eexists. split; [reflexivity|]. cbn. by split_and!.
Qed.

(** ** The acts *)

Lemma transition_effect new disp url reason b t :
  row_effect (transition_task_status new disp url reason b) t
    (λ u, ∃ x y z, u = transition_row new disp url reason b x y z t).
Proof.
  intros evs n. rewrite transition_run. unfold settled. cbv zeta. cbn [w_task w_events w_ticks].
  do 3 eexists. split; [reflexivity|]. by do 3 eexists.
Qed.

Lemma effect_then_assign m f t P :
  row_effect m t P → row_effect (m ;; assign f) t (λ u, ∃ v, P v ∧ u = f v).
Proof.
  intros Hm evs n. destruct (Hm evs n) as (v & evs' & k & Hrun & HP).
  rewrite (bind_run _ _ _ _ _ Hrun). exists (f v), evs', k. split; [done|]. by exists v.
Qed.

Lemma effect_mono m t (P Q : TicketTask → Prop) :
  row_effect m t P → (∀ u, P u → Q u) → row_effect m t Q.
Proof. intros Hm HPQ evs n. destruct (Hm evs n) as (u & ? & ? & ? & ?). do 3 eexists. by eauto. Qed.

(** A row moved to a status, its session let go: charged once if it was
    RUNNING, its pull request the adopted one. *)
Definition moved_to (new : queue_status) (disp : option string) (t t' : TicketTask) : Prop :=
  row_key t' = row_key t ∧ t'.(created_at) = t.(created_at) ∧ t'.(lane) = t.(lane)
  ∧ t'.(stage) = t.(stage) ∧ t'.(status) = new ∧ t'.(session_id) = None
  ∧ t'.(disposition) = disp ∧ t'.(attempts) = t.(attempts)
  ∧ t'.(pr_url) = t.(adopted_pr_url)
  ∧ t'.(unproductive_attempts)
    = (t.(unproductive_attempts)
       + if bool_decide (t.(status) = QueueItemStatus.RUNNING) then 1 else 0)%Z.

(** Statuses a sweep moves a row to, and the disposition they keep. *)
Definition kept_disposition (new : queue_status) (disp : option string) : option string :=
  match new with QueueItemStatus.PENDING | QueueItemStatus.CANCELLED => None | _ => disp end.

Lemma transition_moved new disp x y z t :
  new ≠ QueueItemStatus.RUNNING →
  moved_to new (kept_disposition new disp) t
    (end_session (transition_row new disp None None true x y z t)).
Proof.
  intros Hnew. set (r := transition_row _ _ _ _ _ _ _ _ t).
  assert (He : ∀ u, row_key (end_session u) = row_key u ∧ (end_session u).(created_at) = u.(created_at)
    ∧ (end_session u).(lane) = u.(lane) ∧ (end_session u).(stage) = u.(stage)
    ∧ (end_session u).(status) = u.(status) ∧ (end_session u).(disposition) = u.(disposition)
    ∧ (end_session u).(attempts) = u.(attempts) ∧ (end_session u).(pr_url) = u.(pr_url)
    ∧ (end_session u).(unproductive_attempts) = u.(unproductive_attempts)
    ∧ (end_session u).(session_id) = None) by (intros u; by split_and!).
  destruct (He r) as (E1 & E2 & E3 & E4 & E5 & E6 & E7 & E8 & E9 & E10). unfold moved_to.
  rewrite E1, E2, E3, E4, E5, E6, E7, E8, E9, E10. unfold r, row_key. autorewrite with row.
  split_and!; try done; [by destruct new|by destruct new|].
  unfold running_exit. rewrite (bool_decide_false _ Hnew). by rewrite !andb_true_r.
Qed.

Lemma moved_effect new disp t :
  new ≠ QueueItemStatus.RUNNING →
  row_effect (transition_task_status new disp None None true ;;
              assign (λ t, t <| session_id := None |>)) t
    (moved_to new (kept_disposition new disp) t).
Proof.
  intros Hnew. eapply effect_mono; [apply effect_then_assign, transition_effect|].
  intros u (v & (x & y & z & ->) & ->). by apply transition_moved.
Qed.

Lemma moved_key new disp t t' : moved_to new disp t t' → row_key t' = row_key t.
Proof. by intros [? _]. Qed.

(** ** The backstop *)

Lemma backstop_row_effect park t :
  row_effect (backstop_row park) t
    (moved_to (if park then QueueItemStatus.BLOCKED_ON_USER else QueueItemStatus.PENDING) park t).
Proof.
  destruct park as [d|].
  - by apply (moved_effect QueueItemStatus.BLOCKED_ON_USER (Some d)).
  - by apply (moved_effect QueueItemStatus.PENDING None).
Qed.

(** What the locked revert does to one row. *)
Definition backstopped (ids : gset string) (dirty : gmap string string)
  (by_id : gmap string Session) (t t' : TicketTask) : Prop :=
  if owned_running ids t
  then let park := backstop_park dirty by_id t in
       moved_to (if park then QueueItemStatus.BLOCKED_ON_USER else QueueItemStatus.PENDING) park t t'
  else t' = t.

Lemma revert_run ids dirty by_id w :
  ∃ w', _revert_running_tasks_for_sessions ids dirty by_id w
        = (inr (map ticket_id (filter (λ t, backstop_park dirty by_id t = None)
                  (filter (λ t, owned_running ids t = true) (q_tasks w.(rw_queue))))), w')
    ∧ Forall2 (backstopped ids dirty by_id) (q_tasks w.(rw_queue)) (q_tasks w'.(rw_queue))
    ∧ w'.(rw_sessions) = w.(rw_sessions) ∧ w'.(rw_cursor) = w.(rw_cursor).
Proof.
  assert (Hown : ids = ∅ → ∀ t, owned_running ids t = false).
  { intros -> t. unfold owned_running. destruct (session_id t); [|done].
    by rewrite bool_decide_eq_false_2 by set_solver. }
  unfold _revert_running_tasks_for_sessions. destruct (bool_decide_reflect (ids = ∅)) as [He|_].
  { exists w. assert (Hf : filter (λ t, owned_running ids t = true) (q_tasks (rw_queue w)) = []).
    { apply filter_none. intros t _. by rewrite Hown. }
    rewrite Hf. split_and!; try done. apply Forall_Forall2_diag, Forall_forall. intros t _.
    unfold backstopped. by rewrite Hown. }
  set (P := λ t t', moved_to (if backstop_park dirty by_id t then QueueItemStatus.BLOCKED_ON_USER
                              else QueueItemStatus.PENDING) (backstop_park dirty by_id t) t t').
  destruct (sweep_store_run (backstop_act ids dirty by_id) P (rw_queue w)) as (evs & q' & Hrun & HF & _).
  { intros t m. unfold backstop_act. destruct (owned_running ids t); [|done].
    intros [= <-]. apply backstop_row_effect. }
  assert (Hacted : filter (λ t, is_Some (backstop_act ids dirty by_id t)) (q_tasks (rw_queue w))
                   = filter (λ t, owned_running ids t = true) (q_tasks (rw_queue w))).
  { apply list_filter_iff. intros t. unfold backstop_act.
    destruct (owned_running ids t); [done|]. by split; [intros []|]. }
  unfold on_rq, mbind, M_bind. destruct w as [q ss cur pu]. cbn [rw_queue] in *. rewrite Hrun, Hacted.
  eexists. split; [reflexivity|]. cbn. split_and!; try done.
  eapply Forall2_impl; [exact HF|]. intros t t'. unfold swept, backstopped, backstop_act.
  by destruct (owned_running ids t).
Qed.
End Sweep.

(** ** The captured checks, as the backstop reads them *)

Lemma dict_by_fold {K A} `{Countable K} (k : A → K) (l : list A) (m : gmap K A) x :
  fold_left (λ m x, <[k x := x]> m) l m !! x
  = match last (filter (λ y, k y = x) l) with Some y => Some y | None => m !! x end.
Proof.
  revert m. induction l as [|y l IH]; intros m; [done|]. cbn [fold_left]. rewrite IH, filter_cons.
  destruct (decide (k y = x)) as [<-|Hne].
  - rewrite last_cons. destruct (last (filter _ l)); [done|]. by rewrite lookup_insert_eq.
  - by rewrite lookup_insert_ne by done.
Qed.

(** With one element per key, the dictionary holds it. *)
Lemma dict_by_unique {K A} `{Countable K} (k : A → K) (l : list A) x :
  NoDup (map k l) → x ∈ l → dict_by k l !! k x = Some x.
Proof.
  intros Hnd Hx. unfold dict_by. rewrite dict_by_fold.
  assert (Hf : filter (λ y, k y = k x) l = [x]); [|by rewrite Hf].
  revert Hnd Hx. induction l as [|y l IH]; [by intros _ ?%elem_of_nil|]. intros [Hy Hl]%NoDup_cons Hx.
  rewrite filter_cons. destruct (decide (k y = k x)) as [He|Hne].
  - assert (x ∉ l) as Hxl by (intros Hin; apply Hy; rewrite He; by apply list_elem_of_fmap_2).
    apply elem_of_cons in Hx as [->|]; [|done]. f_equal. apply filter_none. intros z Hz Hk.
    apply Hy. rewrite <- Hk. by apply list_elem_of_fmap_2.
  - apply IH; [done|]. apply elem_of_cons in Hx as [->|]; done.
Qed.

Section Partition.
Context {C : Clock}.

Lemma no_capture_now checks s n n' :
  has_capture checks s = false → lookup_dirty_reason checks s n = lookup_dirty_reason checks s n'.
Proof.
  unfold has_capture, lookup_dirty_reason, lookup_probe. destruct (sess_worktree_path s) as [wt|]; [|done].
  destruct checks as [c|]; [|done]. by destruct (ps_probes _ !! _).
Qed.

(** With one session per id, each is deferred or has its own answer recorded;
    only the clock moved. *)
Lemma partition_run checks ss w :
  NoDup (map sess_id ss) →
  ∃ dirty deferred k,
    partition_dirty checks ss w = (inr (dirty, deferred), w <| rw_queue := w.(rw_queue) <| q_ticks := k |> |>)
    ∧ dom dirty ⊆ ids_of ss ∧ deferred ⊆ ids_of ss
    ∧ ∀ s, s ∈ ss → ∃ n, match lookup_dirty_reason checks s (clock_at n) with
                         | inl _ => s.(sess_id) ∈ deferred
                         | inr r => dirty !! s.(sess_id) = r ∧ s.(sess_id) ∉ deferred
                         end.
Proof.
  revert w. induction ss as [|s ss IH]; intros w Hnd.
  { exists ∅, ∅, w.(rw_queue).(q_ticks). split; [by destruct w as [[] ???]|].
    split_and!; [set_solver|set_solver|by intros ? ?%elem_of_nil]. }
  cbn [map] in Hnd. apply NoDup_cons in Hnd as [Hs Hnd]. cbn [partition_dirty].
  assert (Hnow : ∃ n k, (if has_capture checks s then on_rq q_now else mret 0%Z) w
      = (inr n, w <| rw_queue := w.(rw_queue) <| q_ticks := k |> |>)
      ∧ ∃ m, lookup_dirty_reason checks s n = lookup_dirty_reason checks s (clock_at m)).
  { destruct (has_capture checks s) eqn:Hc.
    - eexists _, _. split; [reflexivity|]. by exists (q_ticks (rw_queue w)).
    - exists 0%Z, (q_ticks (rw_queue w)). split; [by destruct w as [[] ???]|]. exists 0. by apply no_capture_now. }
  destruct Hnow as (n & k & Hrun & m & Hm). unfold mbind, M_bind. rewrite Hrun.
  destruct (IH (w <| rw_queue := w.(rw_queue) <| q_ticks := k |> |>) Hnd)
    as (dirty & deferred & k' & Hrec & Hdom & Hdef & Hall). rewrite Hrec.
  assert (Hni : s.(sess_id) ∉ ids_of ss) by (unfold ids_of; by rewrite elem_of_list_to_set).
  assert (Hids : ids_of (s :: ss) = {[s.(sess_id)]} ∪ ids_of ss) by done.
  assert (Hother : ∀ u, u ∈ ss → u.(sess_id) ≠ s.(sess_id)).
  { intros u Hu He. apply Hs. rewrite <- He. by apply list_elem_of_fmap_2. }
  assert (Hd : dirty !! s.(sess_id) = None) by (apply not_elem_of_dom; set_solver).
  rewrite Hm. cbn [fst snd]. rewrite Hd. cbn [default from_option id].
  assert (Hd' : s.(sess_id) ∉ deferred) by set_solver.
  assert (Hstep : ∀ (dirty' : gmap string string) (deferred' : gset string),
    dirty' !! s.(sess_id) = match lookup_dirty_reason checks s (clock_at m) with inr r => r | _ => None end →
    (∀ i, i ≠ s.(sess_id) → dirty' !! i = dirty !! i ∧ (i ∈ deferred' ↔ i ∈ deferred)) →
    (s.(sess_id) ∈ deferred' ↔ ∃ e, lookup_dirty_reason checks s (clock_at m) = inl e) →
    ∀ u, u ∈ s :: ss → ∃ n, match lookup_dirty_reason checks u (clock_at n) with
                            | inl _ => u.(sess_id) ∈ deferred'
                            | inr r => dirty' !! u.(sess_id) = r ∧ u.(sess_id) ∉ deferred'
                            end).
  { intros dirty' deferred' H1 H2 H3 u [->|Hu]%elem_of_cons.
    - exists m. destruct (lookup_dirty_reason checks s (clock_at m)); [apply H3; by eexists|].
      split; [done|]. intros [? [=]]%H3.
    - destruct (Hall u Hu) as [m' Hm']. exists m'. destruct (H2 _ (Hother u Hu)) as [-> H2'].
      destruct (lookup_dirty_reason checks u (clock_at m')); by rewrite H2'. }
  destruct (lookup_dirty_reason checks s (clock_at m)) as [e|[r|]]; do 3 eexists;
    (split; [reflexivity|]); rewrite Hids.
  - split; [set_solver|]. split; [set_solver|]. apply Hstep; [done| |set_solver].
    intros i Hi. split; [done|set_solver].
  - split; [rewrite dom_insert; set_solver|]. split; [set_solver|].
    apply Hstep; [by rewrite lookup_insert_eq| |].
    + intros i Hi. by rewrite lookup_insert_ne by done.
    + split; [done|by intros [? [=]]].
  - split; [set_solver|]. split; [set_solver|]. apply Hstep; [done|done|].
    split; [done|by intros [? [=]]].
Qed.

(** ** The sweep over the sessions of one status *)

(** The park a session's check and its recovery record call for. *)
Definition park_of (r : option string) (s : Session) : option string :=
  if is_Some_b r || is_Some_b s.(sess_recovery_disposition)
  then Some (default _DIRTY_WORKTREE_REASON (str_or s.(sess_recovery_disposition) None)) else None.

(** A row the backstop acts on: its session is a target, its check was
    captured, and the answer decides. *)
Definition backstop_outcome (sessions : list Session) (st : SessionStatus.SessionStatus) (now : Z)
  (checks : option DirtyChecks) (t t' : TicketTask) : Prop :=
  t.(status) = QueueItemStatus.RUNNING ∧ _is_backstop_exempt t = false
  ∧ ∃ s n r, s ∈ sessions ∧ t.(session_id) = Some s.(sess_id) ∧ backstop_target st now s = true
    ∧ lookup_dirty_reason checks s (clock_at n) = inr r
    ∧ moved_to (if park_of r s then QueueItemStatus.BLOCKED_ON_USER else QueueItemStatus.PENDING)
        (park_of r s) t t'.

Lemma targets_spec sessions ts st now s :
  s ∈ (backstop_targets sessions ts st now).1 ↔ s ∈ sessions ∧ backstop_target st now s = true.
Proof.
  unfold backstop_targets, _sessions_past_completion_grace, backstop_target. cbn [fst].
  rewrite !list_elem_of_filter, !andb_true_iff, !bool_decide_eq_true. tauto.
Qed.

Lemma targets_nodup sessions ts st now :
  NoDup (map sess_id sessions) → NoDup (map sess_id (backstop_targets sessions ts st now).1).
Proof.
  intros Hnd. eapply sublist_NoDup; [exact Hnd|]. unfold backstop_targets. cbn [fst].
  apply map_sublist. etransitivity; apply sublist_filter.
Qed.

Lemma running_ids_spec sessions ts st now sid :
  sid ∈ (backstop_targets sessions ts st now).2 →
  ∃ s, s ∈ (backstop_targets sessions ts st now).1 ∧ s.(sess_id) = sid.
Proof.
  unfold backstop_targets, row_session_ids. cbn [fst snd]. rewrite elem_of_list_to_set, list_elem_of_omap.
  intros (t & [Ht _]%list_elem_of_filter & Hs). unfold owned_running in Ht. rewrite Hs in Ht.
  apply andb_true_iff in Ht as [[Hin%bool_decide_eq_true _]%andb_true_iff _].
  unfold ids_of in Hin. apply elem_of_list_to_set, list_elem_of_fmap in Hin as (s & -> & Hs'). by exists s.
Qed.

Lemma owned_spec ids t :
  owned_running ids t = true →
  ∃ sid, t.(session_id) = Some sid ∧ sid ∈ ids ∧ t.(status) = QueueItemStatus.RUNNING
         ∧ _is_backstop_exempt t = false.
Proof.
  unfold owned_running. destruct (session_id t) as [sid|]; [|done].
  intros [[?%bool_decide_eq_true ?%bool_decide_eq_true]%andb_true_iff ?%negb_true_iff]%andb_true_iff.
  by exists sid.
Qed.

(** One row, from what the targets and their checks say. *)
Lemma backstopped_outcome sessions st now checks targets (running_ids deferred : gset string)
  (dirty : gmap string string) t t' :
  (∀ s, s ∈ targets ↔ s ∈ sessions ∧ backstop_target st now s = true) →
  NoDup (map sess_id targets) →
  (∀ sid, sid ∈ running_ids → ∃ s, s ∈ targets ∧ s.(sess_id) = sid) →
  (∀ s, s ∈ targets → s.(sess_id) ∈ running_ids →
     ∃ n, match lookup_dirty_reason checks s (clock_at n) with
          | inl _ => s.(sess_id) ∈ deferred
          | inr r => dirty !! s.(sess_id) = r ∧ s.(sess_id) ∉ deferred
          end) →
  backstopped (running_ids ∖ deferred) dirty (dict_by sess_id targets) t t' →
  t' = t ∨ backstop_outcome sessions st now checks t t'.
Proof.
  intros Ht Hnd Hr Hall. unfold backstopped.
  destruct (owned_running (running_ids ∖ deferred) t) eqn:Ho; [|by left].
  intros Hm. right. apply owned_spec in Ho as (sid & Hsid & [Hin Hnd']%elem_of_difference & Hst & Hex).
  split; [done|]. split; [done|]. destruct (Hr sid Hin) as (s & Hs & <-).
  destruct (Hall s Hs Hin) as [n Hn]. apply Ht in Hs as Hs'. destruct Hs' as [Hs1 Hs2].
  destruct (lookup_dirty_reason checks s (clock_at n)) as [e|r] eqn:Hl; [done|]. destruct Hn as [Hd _].
  exists s, n, r. do 4 (split; [done|]). revert Hm. cbv zeta.
  assert (Hp : backstop_park dirty (dict_by sess_id targets) t = park_of r s); [|by rewrite Hp].
  unfold backstop_park, session_of, park_of. rewrite Hsid. cbn [mbind option_bind].
  rewrite (dict_by_unique sess_id targets s Hnd Hs), Hd. done.
Qed.

(** C16: the backstop never re-dispatches over unsaved work.  With one session
    per id, the sweep always returns, and each row of the queue as it is at the
    lock - whatever other processes did since the sweep looked - is left alone,
    or was RUNNING, held by no other pass, and bound to a daemon session of the
    swept status past its routing grace whose worktree check is in the store
    and fresh: a row whose check is missing or stale is never moved.  It goes
    back to PENDING only if that check found nothing and the session left no
    recovery disposition, and is parked under that disposition otherwise.  The
    tickets returned are those of the rows that went back, and the session
    file changes in nothing but the reap reason of targets. *)
Theorem backstop_spares_unsaved_work others st checks w :
  NoDup (map sess_id w.(rw_sessions)) →
  let now := clock_at w.(rw_queue).(q_ticks) in
  ∃ reverted w' k, _revert_terminal_backstop others st checks w = (inr reverted, w')
    ∧ let ts := q_tasks (others (w.(rw_queue) <| q_ticks := k |>)) in
      Forall2 (λ t t', t' = t ∨ backstop_outcome w.(rw_sessions) st now checks t t')
        ts (q_tasks w'.(rw_queue))
      ∧ (∀ tid, tid ∈ reverted → ∃ i t t', ts !! i = Some t ∧ q_tasks w'.(rw_queue) !! i = Some t'
           ∧ t.(ticket_id) = tid ∧ t.(status) = QueueItemStatus.RUNNING
           ∧ t'.(status) = QueueItemStatus.PENDING)
      ∧ Forall2 (λ s s', s' = s ∨ backstop_target st now s = true ∧ s.(sess_reap_reason) = None
                                  ∧ s' = s <| sess_reap_reason := Some COMPLETED_BACKSTOP_value |>)
          w.(rw_sessions) w'.(rw_sessions).
Proof.
  intros Hnd now. unfold _revert_terminal_backstop. unfold get, on_rq, q_now.
  unfold mbind at 1, M_bind at 1. unfold mbind at 1, M_bind at 1. fold now.
  set (w1 := w <| rw_queue := _ |>).
  pose proof (targets_spec w.(rw_sessions) w.(rw_queue).(q_store).(tasks) st now) as Ht.
  pose proof (targets_nodup w.(rw_sessions) w.(rw_queue).(q_store).(tasks) st now Hnd) as Htn.
  pose proof (running_ids_spec w.(rw_sessions) w.(rw_queue).(q_store).(tasks) st now) as Hr.
  destruct (backstop_targets _ _ st now) as [targets running_ids]. cbn [fst snd] in *.
  set (asked := filter (λ s, s.(sess_id) ∈ running_ids) targets).
  assert (Han : NoDup (map sess_id asked)).
  { eapply sublist_NoDup; [exact Htn|]. apply map_sublist, sublist_filter. }
  destruct (partition_run checks asked w1 Han) as (dirty & deferred & k & Hp & Hdom & Hdef & Hall).
  unfold mbind, M_bind. rewrite Hp. cbn [fst snd]. unfold modify.
  set (ready := running_ids ∖ deferred). cbn [rw_queue rw_sessions].
  match goal with |- context [_revert_running_tasks_for_sessions ready dirty ?d ?x] =>
    destruct (revert_run ready dirty d x) as (w' & -> & HF & Hss & _) end.
  eexists _, w', k. split; [reflexivity|]. cbv zeta. cbn [rw_queue rw_sessions] in HF, Hss |- *.
  assert (Hout : ∀ t t', backstopped ready dirty (dict_by sess_id targets) t t' →
    t' = t ∨ backstop_outcome w.(rw_sessions) st now checks t t').
  { intros t t'. apply backstopped_outcome; try done. intros s Hs Hin. apply Hall.
    by apply list_elem_of_filter. }
  split; [by eapply Forall2_impl; [exact HF|exact Hout]|]. split.
  - intros tid (t & -> & Hin)%list_elem_of_fmap. apply list_elem_of_filter in Hin as [Hpk Hin].
    apply list_elem_of_filter in Hin as [Ho [i Hi]%list_elem_of_lookup].
    destruct (Forall2_lookup_l _ _ _ _ _ HF Hi) as (t' & Hi' & Hb). exists i, t, t'.
    do 3 (split; [done|]). unfold backstopped in Hb. rewrite Ho, Hpk in Hb.
    apply owned_spec in Ho as (_ & _ & _ & ? & _). split; [done|]. by apply Hb.
  - rewrite Hss. apply Forall2_fmap_r, Forall_Forall2_diag, Forall_forall. intros s _.
    unfold compose. destruct (backstop_target st now s) eqn:E1; [|by left].
    destruct (sess_reap_reason s) as [x|] eqn:E2; [by left|]. cbn.
    case_bool_decide; [by right|by left].
Qed.
End Partition.

(** * The contracts of the merged, sibling and stale-gate sweeps

    A completion needs a claimed row and evidence of the merge; a gate is
    released on evidence, and no merge event is lost to a failed save. *)

Section Merged.
Context {C : Clock} {G : GhAt} {Rd : RepoDir}.

Lemma effect_seq m m' t (P Q : TicketTask → Prop) :
  row_effect m t P → (∀ u, P u → row_effect m' u Q) → row_effect (m ;; m') t Q.
Proof.
  intros Hm Hm' evs n. destruct (Hm evs n) as (u & evs1 & k & Hrun & HP).
  destruct (Hm' u HP (evs ++ evs1) k) as (u' & evs2 & k' & Hrun' & HQ).
  rewrite (bind_run _ _ _ _ _ Hrun), Hrun'. exists u', (evs1 ++ evs2), k'. by rewrite app_assoc.
Qed.

Lemma salvage_effect t : row_effect _stamp_salvage_stage t (λ u, u = move_stage Stage.FINALIZE t).
Proof.
  intros evs n. unfold _stamp_salvage_stage, _consume_red_recovery_evidence. run_reads.
  rewrite emit_stage_change_run. by do 3 eexists.
Qed.

(** A row completed as shipped, at finalize. *)
Definition completed_as_shipped (t t' : TicketTask) : Prop :=
  row_key t' = row_key t ∧ t'.(status) = QueueItemStatus.COMPLETED
  ∧ t'.(disposition) = Some "shipped" ∧ t'.(stage) = Stage.FINALIZE
  ∧ t'.(attempts) = t.(attempts) ∧ t'.(pr_url) = t.(adopted_pr_url).

Lemma complete_effect t : row_effect complete_row t (completed_as_shipped t).
Proof.
  eapply effect_seq; [apply transition_effect|]. intros u (x & y & z & ->).
  eapply effect_mono; [apply salvage_effect|]. intros v ->. set (r := transition_row _ _ _ _ _ _ _ _ t).
  unfold completed_as_shipped, row_key. rewrite move_stage_stage.
  rewrite !(move_stage_frame ticket_id), !(move_stage_frame client), !(move_stage_frame status),
    !(move_stage_frame disposition), !(move_stage_frame attempts), !(move_stage_frame pr_url) by done.
  unfold r. autorewrite with row. by split_and!.
Qed.

(** ** The locked completions *)

(** A row the sweep completes for one of the candidates. *)
Definition completes (to_complete : list (Session * string)) (t t' : TicketTask) : Prop :=
  t.(status) = QueueItemStatus.PENDING ∧ _is_never_claimed t = false
  ∧ (∃ s, (s, t.(ticket_id)) ∈ to_complete ∧ s.(sess_client) = t.(client))
  ∧ completed_as_shipped t t'.

Lemma completes_cons p ps t t' : completes ps t t' → completes (p :: ps) t t'.
Proof. intros (? & ? & (s & ? & ?) & ?). split_and!; try done. exists s. split; [by right|done]. Qed.

Lemma rows_composed (R : TicketTask → TicketTask → Prop) i t u (ts ts' : list TicketTask) :
  ts !! i = Some t → R t u → (∀ v, ¬ R u v) →
  Forall2 (λ t t', t' = t ∨ R t t') (<[i := u]> ts) ts' → Forall2 (λ t t', t' = t ∨ R t t') ts ts'.
Proof.
  intros Hi Hr Hu HF. apply Forall2_same_length_lookup.
  pose proof (Forall2_length _ _ _ HF) as Hlen. rewrite length_insert in Hlen. split; [done|].
  intros j x y Hx Hy. destruct (decide (i = j)) as [<-|Hne].
  - rewrite Hi in Hx. injection Hx as <-.
    destruct (Forall2_lookup_lr _ _ _ _ _ _ HF (list_lookup_insert_eq _ _ _ (lookup_lt_Some _ _ _ Hi)) Hy)
      as [->|Hc]; [by right|by destruct (Hu y)].
  - apply (Forall2_lookup_lr _ _ _ j x y HF); [by rewrite list_lookup_insert_ne|exact Hy].
Qed.

Lemma complete_rows_run to_complete ts q :
  ∃ ts' ids refused evs q', complete_rows to_complete ts q = (inr (ts', ids, refused), q')
    ∧ Forall2 (λ t t', t' = t ∨ completes to_complete t t') ts ts'
    ∧ (∀ tid, tid ∈ ids → ∃ i t t', ts !! i = Some t ∧ ts' !! i = Some t' ∧ t.(ticket_id) = tid
                                     ∧ completes to_complete t t')
    ∧ (ids = [] → ts' = ts) ∧ q'.(q_store) = q.(q_store)
    ∧ q'.(q_events) = q.(q_events) ++ evs.
Proof.
  revert ts q. induction to_complete as [|[s tid] rest IH]; intros ts q.
  { exists ts, [], [], [], q. rewrite app_nil_r. split_and!; try done.
    - apply Forall_Forall2_diag, Forall_forall. by left.
    - by intros ? ?%elem_of_nil. }
  assert (Hweak : ∀ l l', Forall2 (λ t t', t' = t ∨ completes rest t t') l l' →
                  Forall2 (λ t t', t' = t ∨ completes ((s, tid) :: rest) t t') l l').
  { intros l l' HF. eapply Forall2_impl; [exact HF|]. intros x y [?|?]; [by left|right].
    by apply completes_cons. }
  cbn [complete_rows]. destruct (list_find _ ts) as [[i t]|] eqn:Hf.
  - apply list_find_Some in Hf as (Hi & [Hrow Hst] & _). apply is_row_true in Hrow.
    destruct (_is_never_claimed t) eqn:Hnc.
    + destruct (IH ts q) as (ts' & ids & refused & evs & q' & Hrun & HF & Hids & Hnil & Hs & He).
      unfold mbind, M_bind. rewrite Hrun. do 5 eexists. split; [reflexivity|]. split; [by apply Hweak|].
      split; [|done]. intros tid' Ht. destruct (Hids tid' Ht) as (j & x & y & ? & ? & ? & ?).
      exists j, x, y. split_and!; try done. by apply completes_cons.
    + destruct (on_row_effect complete_row t (completed_as_shipped t) q (complete_effect t))
        as (u & evs & q1 & Hrow1 & Hu & S1 & _ & E1).
      destruct (IH (<[i := u]> ts) q1) as (ts' & ids & refused & evs' & q' & Hrun & HF & Hids & _ & Hs & He).
      unfold mbind, M_bind. rewrite Hrow1, Hrun. do 5 eexists. split; [reflexivity|].
      assert (Hc : completes ((s, tid) :: rest) t u).
      { unfold row_key in Hrow. injection Hrow as Ht1 Ht2. split_and!; try done.
        exists s. rewrite Ht1, Ht2. by split; [left|]. }
      assert (Hdone : ∀ l v, ¬ completes l u v).
      { intros l v (Hp & _). destruct Hu as (_ & Hu & _). congruence. }
      assert (Hi' : ts' !! i = Some u).
      { destruct (Forall2_lookup_l _ _ _ i u HF) as (v & Hv & [->|Hc']);
          [apply list_lookup_insert_eq; by eapply lookup_lt_Some|done|by destruct (Hdone _ _ Hc')]. }
      split; [eapply (rows_composed _ i t u); [done|done|by intros v; apply Hdone|by apply Hweak]|].
      split; [|split_and!; [done|congruence|rewrite He, E1; by rewrite app_assoc]].
      intros tid' [->|Ht]%elem_of_cons.
      * exists i, t, u. split_and!; try done. by injection Hrow.
      * destruct (Hids tid' Ht) as (j & x & y & Hj & Hy & Hx & Hxc).
        destruct (decide (i = j)) as [<-|Hne].
        -- rewrite list_lookup_insert_eq in Hj by by eapply lookup_lt_Some. injection Hj as <-.
           by destruct (Hdone _ _ Hxc).
        -- rewrite list_lookup_insert_ne in Hj by done. exists j, x, y.
           split_and!; try done. by apply completes_cons.
  - destruct (IH ts q) as (ts' & ids & refused & evs & q' & Hrun & HF & Hids & Hnil & Hs & He).
    rewrite Hrun. do 5 eexists. split; [reflexivity|]. split; [by apply Hweak|]. split; [|done].
    intros tid' Ht. destruct (Hids tid' Ht) as (j & x & y & ? & ? & ? & ?). exists j, x, y.
    split_and!; try done. by apply completes_cons.
Qed.

Lemma complete_locked_run to_complete q :
  ∃ ids refused q', complete_locked to_complete q = (inr (ids, refused), q')
    ∧ Forall2 (λ t t', t' = t ∨ completes to_complete t t') (q_tasks q) (q_tasks q')
    ∧ (∀ tid, tid ∈ ids → ∃ i t t', q_tasks q !! i = Some t ∧ q_tasks q' !! i = Some t'
         ∧ t.(ticket_id) = tid ∧ completes to_complete t t')
    ∧ (ids = [] → q_tasks q' = q_tasks q).
Proof.
  destruct (complete_rows_run to_complete (q_tasks q) q)
    as (ts' & ids & refused & evs & q' & Hc & HF & Hids & Hnil & Hs & _).
  unfold complete_locked, load_dev_queue, gets, mbind, M_bind. unfold q_tasks in *. rewrite Hc.
  cbn [fst snd]. destruct (bool_decide_reflect (ids = [])) as [Hn|Hn]; cbn [negb when].
  - exists ids, refused, q'. rewrite Hs. rewrite <- (Hnil Hn) in Hids |- *.
    split_and!; try done. apply Forall_Forall2_diag, Forall_forall. by left.
  - do 3 eexists. split; [reflexivity|]. cbn. by split_and!.
Qed.

(** ** The evidence *)

(** The merge of a candidate: a fresh observed state, or what [gh] saw for its
    ticket and branch in its client's clone. *)
Definition merge_evidence (clients : Clients) (index : TaskIndex) (max_age : Z)
  (p : Session * string) : Prop :=
  let key := (p.1.(sess_client), p.2) in
  (∃ t st n, index !! key = Some t ∧ t.(pr_state) = Some st
     ∧ (clock_at n - st.(prs_hydrated_at) < seconds max_age)%Z
     ∧ st.(prs_state) = _GH_PR_STATE_MERGED)
  ∨ saw_merge p.2
      (Some (resolve_feature_branch p.2 (clients !! p.1.(sess_client)) (index !! key)))
      (_client_cwd p.1.(sess_client) clients).

(** Only the clock moves. *)
Definition ticked (k : nat) (w : RecWorld) : RecWorld :=
  w <| rw_queue := w.(rw_queue) <| q_ticks := k |> |>.

Lemma ticked_same w : ticked w.(rw_queue).(q_ticks) w = w.
Proof. by destruct w as [[] ???]. Qed.

Lemma resolve_run tid cl index max_age fb w :
  ∃ r k, resolve_merged_via_pr_state tid cl index max_age fb w = (r, ticked k w)
    ∧ (r = inr (Some true, true) →
       (∃ t st n, index !! (cl, tid) = Some t ∧ t.(pr_state) = Some st
          ∧ (clock_at n - st.(prs_hydrated_at) < seconds max_age)%Z
          ∧ st.(prs_state) = _GH_PR_STATE_MERGED)
       ∨ fb = inr (Some true, true)).
Proof.
  assert (Hfb : ∀ k, ∃ r, of_sum fb (ticked k w) = (r, ticked k w)
    ∧ (r = inr (Some true, true) → fb = inr (Some true, true))).
  { intros k. destruct fb as [e|v]; eexists; by split. }
  unfold resolve_merged_via_pr_state, pr_is_merged_from_state. unfold mbind at 1, M_bind at 1.
  destruct (index !! (cl, tid)) as [t|] eqn:Ei; cbn [mbind option_bind].
  2:{ destruct (Hfb w.(rw_queue).(q_ticks)) as (r & Hr & Hf). rewrite ticked_same in Hr.
      exists r, w.(rw_queue).(q_ticks). rewrite ticked_same. split; [exact Hr|by right; apply Hf]. }
  destruct (pr_state t) as [st|] eqn:Ep.
  2:{ destruct (Hfb w.(rw_queue).(q_ticks)) as (r & Hr & Hf). rewrite ticked_same in Hr.
      exists r, w.(rw_queue).(q_ticks). rewrite ticked_same. split; [exact Hr|by right; apply Hf]. }
  unfold mbind, M_bind, on_rq, q_now. cbn.
  destruct (Z.ltb_spec (clock_at (q_ticks (rw_queue w)) - prs_hydrated_at st) (seconds max_age))
    as [Hlt|Hge].
  - eexists _, (S (q_ticks (rw_queue w))). split; [reflexivity|]. intros [= Hm%String.eqb_eq]. left.
    by exists t, st, (q_ticks (rw_queue w)).
  - destruct (Hfb (S (q_ticks (rw_queue w)))) as (r & Hr & Hf).
    exists r, (S (q_ticks (rw_queue w))). split; [exact Hr|by right; apply Hf].
Qed.

Lemma filter_merged_run candidates clients index max_age w :
  ∃ r k, _filter_merged_candidates candidates clients index max_age w = (r, ticked k w)
    ∧ ∀ l p, r = inr l → p ∈ l →
        p ∈ candidates ∧ _is_dangling_client p.1.(sess_client) clients = false
        ∧ merge_evidence clients index max_age p.
Proof.
  revert w. induction candidates as [|[s tid] rest IH]; intros w.
  { exists (inr []), (q_ticks (rw_queue w)). rewrite ticked_same. split; [done|].
    by intros l p [= <-] ?%elem_of_nil. }
  assert (Hweak : ∀ (r : exn + list (Session * string)),
    (∀ l p, r = inr l → p ∈ l → p ∈ rest ∧ _is_dangling_client p.1.(sess_client) clients = false
       ∧ merge_evidence clients index max_age p) →
    ∀ l p, r = inr l → p ∈ l → p ∈ (s, tid) :: rest
       ∧ _is_dangling_client p.1.(sess_client) clients = false ∧ merge_evidence clients index max_age p).
  { intros r Hr l p Hl Hp. destruct (Hr l p Hl Hp) as (? & ? & ?). split_and!; [by right|done|done]. }
  cbn [_filter_merged_candidates]. destruct (_is_dangling_client _ _) eqn:Hd.
  { destruct (IH w) as (r & k & Hrun & Hl). exists r, k. split; [done|by apply Hweak]. }
  set (fb := pr_is_merged_for_ticket _ _ _).
  destruct (resolve_run tid (sess_client s) index max_age fb w) as (v & k & Hres & Hv).
  unfold mbind, M_bind. rewrite Hres.
  destruct v as [e|[m ok]]; [by exists (inl e), k|]. cbn [fst snd].
  destruct ok; cbn [negb]; [|by exists (inr []), k; split; [|intros l p [= <-] ?%elem_of_nil]].
  destruct (IH (ticked k w)) as (r & k' & Hrun & Hl).
  rewrite Hrun. destruct r as [e|l]; [by exists (inl e), k'|].
  eexists (inr _), k'. split; [reflexivity|].
  destruct m as [[|]|]; [|by apply Hweak|by apply Hweak].
  intros l' p [= <-] [->|Hp]%elem_of_cons; [|by apply (Hweak (inr l) Hl l)]. cbn [fst snd].
  split_and!; [by left|done|].
  destruct (Hv eq_refl) as [?|Hfb]; [by left|right]. by apply merged_saw.
Qed.

(** A session whose ticket may be completed. *)
Definition timed_out_session (cutoff : Z) (sessions : list Session) (p : Session * string) : Prop :=
  p.1 ∈ sessions ∧ p.1.(sess_status) = SessionStatus.TIMED_OUT
  ∧ p.1.(sess_origin) = SessionOrigin.DAEMON
  ∧ ticket_id_for_session p.1.(sess_name) = Some p.2
  ∧ ∃ c, p.1.(sess_completed_at) = Some c ∧ (cutoff <= c)%Z.

Lemma candidates_spec sessions index cutoff p :
  p ∈ _collect_timed_out_merged_candidates sessions index cutoff →
  timed_out_session cutoff sessions p.
Proof.
  unfold _collect_timed_out_merged_candidates. rewrite list_elem_of_omap.
  intros (s & Hs & Hc). unfold merged_candidate in Hc.
  destruct (bool_decide_reflect (s.(sess_status) = SessionStatus.TIMED_OUT)) as [H1|]; [|done].
  destruct (bool_decide_reflect (s.(sess_origin) = SessionOrigin.DAEMON)) as [H2|]; [|done]. cbn in Hc.
  destruct (sess_completed_at s) as [c|] eqn:Ec; [|done].
  destruct (Z.ltb_spec c cutoff) as [|Hle]; [done|].
  destruct (ticket_id_for_session (sess_name s)) as [tid|] eqn:Et; [|done]. cbn in Hc.
  destruct (index !! _) as [t|]; [|done]. cbn in Hc. destruct (bool_decide _); [|done].
  injection Hc as <-. unfold timed_out_session. cbn. split_and!; try done. by exists c.
Qed.

(** A row the sweep completes, and on what. *)
Definition completed_on_evidence (clients : Clients) (index : TaskIndex) (max_age cutoff : Z)
  (sessions : list Session) (t t' : TicketTask) : Prop :=
  t.(status) = QueueItemStatus.PENDING ∧ _is_never_claimed t = false
  ∧ (∃ s, s.(sess_client) = t.(client) ∧ timed_out_session cutoff sessions (s, t.(ticket_id))
       ∧ _is_dangling_client t.(client) clients = false
       ∧ merge_evidence clients index max_age (s, t.(ticket_id)))
  ∧ completed_as_shipped t t'.

(** A run on the queue [q1] it found at the lock, if it got that far. *)
Definition completion_result (P : TicketTask → TicketTask → Prop) (others : QueueWorld → QueueWorld)
  (w : RecWorld) (r : exn + list string) (w' : RecWorld) : Prop :=
  match r with
  | inl _ => ∃ k, w' = ticked k w
  | inr ids => ∃ q1, (q1 = w.(rw_queue) ∨ ∃ k, q1 = others (ticked k w).(rw_queue))
      ∧ Forall2 (λ t t', t' = t ∨ P t t') (q_tasks q1) (q_tasks w'.(rw_queue))
      ∧ (∀ tid, tid ∈ ids → ∃ i t t', q_tasks q1 !! i = Some t
           ∧ q_tasks w'.(rw_queue) !! i = Some t' ∧ t.(ticket_id) = tid ∧ completed_as_shipped t t')
      ∧ (ids = [] → q_tasks w'.(rw_queue) = q_tasks q1)
  end.

Lemma nothing_completed P others w k : completion_result P others w (inr []) (ticked k w).
Proof.
  exists w.(rw_queue). split_and!; [by left| |by intros ? ?%elem_of_nil|done].
  apply Forall_Forall2_diag, Forall_forall. by left.
Qed.

(** C19: the sweep completes a ticket only on evidence, and never a row no worker
    was attached to.  Either it raises, on an answer of GitHub it cannot read, before it
    writes anything; or each row of the queue as it is at the
    lock is left alone, or was PENDING, had been claimed and spawned, and has a
    daemon session of its own client that timed out within the lookback, and a
    merge - observed and fresh, or seen by [gh] on a pull request linked to its
    ticket or, when the links are unknown, of its branch, in its own client's
    clone; it is then completed as shipped, at finalize.  The tickets returned
    are those of such rows, and without any the rows are as they were. *)
Theorem completion_is_evidenced others clients config w :
  let now := clock_at w.(rw_queue).(q_ticks) in
  let index := dict_by task_key (q_tasks w.(rw_queue)) in
  ∃ r w', complete_timed_out_merged_tasks others clients config w = (r, w')
    ∧ w'.(rw_sessions) = w.(rw_sessions)
    ∧ completion_result
        (completed_on_evidence clients index config.(pr_hydration_interval_seconds)
           (now - TIMED_OUT_MERGED_LOOKBACK_DAYS * DAY) w.(rw_sessions)) others w r w'.
Proof.
  cbv zeta. unfold complete_timed_out_merged_tasks. set (now := clock_at _).
  unfold get, on_rq, q_now. unfold mbind at 1, M_bind at 1. unfold mbind at 1, M_bind at 1. fold now.
  unfold q_tasks at 1. set (index := dict_by task_key _).
  set (cands := _collect_timed_out_merged_candidates _ index _).
  set (w1 := w <| rw_queue := _ |>). change w1 with (ticked (S w.(rw_queue).(q_ticks)) w).
  destruct (bool_decide _);
    [eexists _, _; split; [reflexivity|]; split; [done|apply nothing_completed]|].
  destruct (filter_merged_run cands clients index config.(pr_hydration_interval_seconds)
    (ticked (S w.(rw_queue).(q_ticks)) w)) as (r & k & Hrun & Hl).
  unfold mbind, M_bind. rewrite Hrun. change (ticked k (ticked _ w)) with (ticked k w).
  destruct r as [e|l]; [by exists (inl e), (ticked k w); split_and!; [..|exists k]|].
  destruct (bool_decide_reflect (l = [])) as [Hn|Hn]; [eexists _, _; split; [reflexivity|]; split; [done|apply nothing_completed]|].
  unfold modify. set (q1 := others _).
  destruct (complete_locked_run l q1) as (ids & refused & q' & Hc & HF & Hids & Hnil).
  assert (Hrow : ∀ t t', completes l t t' → completed_on_evidence clients index
    config.(pr_hydration_interval_seconds) (now - TIMED_OUT_MERGED_LOOKBACK_DAYS * DAY)
    w.(rw_sessions) t t').
  { intros t t' (? & ? & (s & Hin & Hs) & ?). split_and!; try done. exists s.
    destruct (Hl l _ eq_refl Hin) as (Hcand & Hd & Hev). rewrite <- Hs. split_and!; try done.
    by eapply candidates_spec. }
  cbn. replace (others (w.(rw_queue) <| q_ticks := k |>)) with q1 by done. rewrite Hc.
  eexists (inr ids), _. split; [reflexivity|]. split; [done|]. exists q1. cbn.
  split; [right; by exists k|]. split.
  { eapply Forall2_impl; [exact HF|]. intros t t' [?|?]; [by left|right; by apply Hrow]. }
  split; [|done]. intros tid Ht. destruct (Hids tid Ht) as (i & t & t' & ? & ? & ? & Hx).
  exists i, t, t'. split_and!; try done. by apply Hrow.
Qed.
End Merged.

(** ** Reading the merge events *)

Section Inbox.
Context {I : EventIds}.

Lemma after_cursor_found pre (p : string * event) post :
  p.1 ∉ map fst pre → after_cursor p.1 (pre ++ p :: post) = Some post.
Proof.
  induction pre as [|[i e] pre IH]; intros Hn.
  - destruct p as [i e]. cbn. by rewrite String.eqb_refl.
  - cbn in *. apply not_elem_of_cons in Hn as [H1 H2].
    destruct (String.eqb_spec i p.1) as [->|]; [done|]. by apply IH.
Qed.

Lemma after_cursor_app cursor l l' r :
  after_cursor cursor l = Some r → after_cursor cursor (l ++ l') = Some (r ++ l').
Proof.
  induction l as [|[i e] l IH]; [done|]. cbn. destruct (String.eqb i cursor); [by intros [= ->]|done].
Qed.

(** What follows a cursor is a suffix of the inbox. *)
Lemma after_cursor_suffix cursor l r : after_cursor cursor l = Some r → ∃ pre, l = pre ++ r.
Proof.
  induction l as [|[i e] l IH]; [done|]. cbn. destruct (String.eqb i cursor).
  - intros [= ->]. by exists [(i, e)].
  - intros [pre ->]%IH. by exists ((i, e) :: pre).
Qed.

Definition recorded_after (evs more : list event) : list (string * event) :=
  imap (λ n e, (event_id (length evs + n), e)) more.

Lemma inbox_app evs more : inbox (evs ++ more) = inbox evs ++ recorded_after evs more.
Proof. unfold inbox, recorded_after. by rewrite imap_app. Qed.

Lemma inbox_nodup evs : Inj (=) (=) event_id → NoDup (map fst (inbox evs)).
Proof.
  intros Hinj. unfold inbox. change (map fst) with (fmap (M := list) (@fst string event)).
  rewrite fmap_imap. apply NoDup_alt. intros i j x Hi Hj.
  rewrite list_lookup_imap in Hi, Hj. unfold compose in *.
  destruct (evs !! i), (evs !! j); cbn in *; try done. apply Hinj. congruence.
Qed.

(** A cursor that stands in the inbox, or none yet. *)
Definition cursor_known (cursor : option string) (evs : list event) : Prop :=
  match cursor with None => True | Some c => is_Some (after_cursor c (inbox evs)) end.

(** Nothing consumed: what was read is read again, then what is new. *)
Lemma read_again cursor ty evs more :
  cursor_known cursor evs →
  read_events cursor ty (evs ++ more)
  = read_events cursor ty evs ++ filter (λ p, p.2.(ev_type) = ty) (recorded_after evs more).
Proof.
  unfold read_events, cursor_known. rewrite inbox_app. destruct cursor as [c|]; [|by rewrite filter_app].
  intros [r Hr]. rewrite Hr, (after_cursor_app _ _ _ _ Hr). cbn. by rewrite filter_app.
Qed.

(** The last event read consumed: only what is new is read. *)
Lemma read_past cursor ty evs more p :
  Inj (=) (=) event_id → last (read_events cursor ty evs) = Some p →
  read_events (Some p.1) ty (evs ++ more)
  = filter (λ p, p.2.(ev_type) = ty) (recorded_after evs more).
Proof.
  intros Hinj Hlast. pose proof (inbox_nodup evs Hinj) as Hnd. unfold read_events in Hlast.
  set (unread := match cursor with None => _ | Some c => _ end) in Hlast.
  assert (Hsuf : ∃ pre, inbox evs = pre ++ unread).
  { subst unread. destruct cursor as [c|]; [|by exists []].
    destruct (after_cursor c (inbox evs)) as [r|] eqn:E; [by eapply after_cursor_suffix|by exists []]. }
  destruct Hsuf as [pre Hpre]. apply last_filter_Some in Hlast as (l1 & l2 & Hun & Hl2).
  rewrite Hun in Hpre. rewrite (app_assoc pre l1 (p :: l2)) in Hpre.
  unfold read_events. rewrite inbox_app, Hpre, <- app_assoc. cbn [app].
  rewrite after_cursor_found.
  - cbn. rewrite filter_app. rewrite filter_none; [done|]. by apply Forall_forall.
  - rewrite Hpre, map_app in Hnd. cbn in Hnd. apply NoDup_app in Hnd as (_ & Hd & _).
    intros Hin. apply (Hd _ Hin). by left.
Qed.
End Inbox.

(** ** The rows a release touches *)

Section StaleGate.
Context {C : Clock} {I : EventIds}.
Context (clients : Clients) (config : OrchestratorConfig).

Definition stamped_stale (t t' : TicketTask) : Prop :=
  ∃ z, t' = t <| stale_gate_detected_at := Some z |>.

(** A row behind its own pull request, named by one of the events. *)
Definition own_release (evs : list (string * event)) (t t' : TicketTask) : Prop :=
  _is_variant_a_gate_task t = true ∧ (∃ p, p ∈ evs ∧ payload_key p.2 = task_key t)
  ∧ match policy_of clients config t with
    | ReapPolicy.AUTO => moved_to QueueItemStatus.COMPLETED (Some "shipped") t t'
    | ReapPolicy.SIGNAL_ONLY => stamped_stale t t'
    end.

(** A row behind another pull request, observed merged or closed. *)
Definition other_release (store : DevQueueStore) (t t' : TicketTask) : Prop :=
  other_pr_cleared store t = true
  ∧ match policy_of clients config t with
    | ReapPolicy.AUTO => moved_to QueueItemStatus.PENDING None t t'
    | ReapPolicy.SIGNAL_ONLY => stamped_stale t t'
    end.

Lemma stale_stamp_effect t : row_effect stamp_stale_gate t (stamped_stale t).
Proof. intros evs n. exists (t <| stale_gate_detected_at := Some (clock_at n) |>), [], (S n).
  rewrite app_nil_r. split; [done|]. by eexists. Qed.

Lemma variant_a_effect evs t :
  _is_variant_a_gate_task t = true → (∃ p, p ∈ evs ∧ payload_key p.2 = task_key t) →
  row_effect (_release_variant_a (policy_of clients config t)) t (own_release evs t).
Proof.
  intros Hv He. unfold _release_variant_a, own_release.
  destruct (policy_of clients config t).
  - eapply effect_mono; [apply stale_stamp_effect|]. by intros u ?.
  - eapply effect_mono; [by apply (moved_effect QueueItemStatus.COMPLETED (Some "shipped"))|].
    by intros u ?.
Qed.

Lemma variant_b_effect store t :
  other_pr_cleared store t = true →
  row_effect (_release_variant_b (policy_of clients config t)) t (other_release store t).
Proof.
  intros Hv. unfold _release_variant_b, other_release. destruct (policy_of clients config t).
  - eapply effect_mono; [apply stale_stamp_effect|]. by intros u ?.
  - intros evs n. destruct (moved_effect QueueItemStatus.PENDING None t ltac:(done) evs n)
      as (v & evs' & k & Hrun & Hm).
    assert (Hrun' : (transition_task_status QueueItemStatus.PENDING None None None true ;;
      assign (λ t, t <| session_id := None |>) ;; assign clear_gate_block_wait) (mkWorld t evs n)
      = (inr tt, mkWorld (clear_gate_block_wait v) (evs ++ evs') k)).
    { revert Hrun. unfold mbind, M_bind. destruct (transition_task_status _ _ _ _ _ _) as [[e|[]] x]; [done|].
      unfold assign, modify. intros [= Hx Hy]. destruct x. cbn in *. by subst. }
    rewrite Hrun'. do 3 eexists. split; [reflexivity|]. split; [done|].
    unfold clear_gate_block_wait. destruct (owns_wait v); [|done]. exact Hm.
Qed.

(** ** The run *)

Lemma index_fold (ts : list TicketTask) (l : list (nat * TicketTask))
  (m : gmap (string * string) nat) k i :
  (∀ p, p ∈ l → ts !! p.1 = Some p.2) → (∀ k i, m !! k = Some i → ∃ t, ts !! i = Some t ∧ task_key t = k) →
  fold_left (λ m p, if _is_variant_a_gate_task p.2 then <[task_key p.2 := p.1]> m else m) l m !! k = Some i →
  ∃ t, ts !! i = Some t ∧ task_key t = k.
Proof.
  revert m. induction l as [|[j t] l IH]; intros m Hl Hm; [apply Hm|]. cbn [fold_left fst snd].
  apply IH; [intros p Hp; apply Hl; by right|]. destruct (_is_variant_a_gate_task t); [|done].
  intros k' i' Hk. destruct (decide (task_key t = k')) as [<-|Hne].
  - rewrite lookup_insert_eq in Hk. injection Hk as <-. exists t. split; [|done].
    apply (Hl (j, t)). by left.
  - rewrite lookup_insert_ne in Hk by done. by apply Hm.
Qed.

Lemma index_spec ts k i :
  _index_variant_a_candidates ts !! k = Some i → ∃ t, ts !! i = Some t ∧ task_key t = k.
Proof.
  apply index_fold; [|by intros ?? ?%lookup_empty_Some]. intros [j t] Hp. unfold indexed in Hp.
  apply elem_of_lookup_imap in Hp as (j' & t' & [= -> ->] & Hj). done.
Qed.

Lemma own_weaken p evs t t' : own_release evs t t' → own_release (p :: evs) t t'.
Proof. intros (? & (x & ? & ?) & ?). split_and!; try done. exists x. split; [by right|done]. Qed.

Lemma task_key_row t t' : row_key t' = row_key t → task_key t' = task_key t.
Proof. unfold row_key, task_key. congruence. Qed.

Lemma own_key evs t t' : own_release evs t t' → row_key t' = row_key t.
Proof.
  intros (_ & _ & H). destruct (policy_of _ _ t); [by destruct H as [z ->]|by eapply moved_key].
Qed.

Lemma own_release_trans evs t u v : own_release evs t u → own_release evs u v → own_release evs t v.
Proof.
  intros (Hv & He & Hu) (Hv' & _ & Hw). split; [done|]. split; [done|].
  destruct (policy_of clients config t) eqn:Hp.
  - destruct Hu as [z ->].
    assert (policy_of clients config (t <| stale_gate_detected_at := Some z |>) = ReapPolicy.SIGNAL_ONLY) as Hp'
      by (rewrite <- Hp; reflexivity).
    rewrite Hp' in Hw. destruct Hw as [z' ->]. by exists z'.
  - destruct Hu as (_ & _ & _ & _ & Hst & _). unfold _is_variant_a_gate_task in Hv'.
    by rewrite Hst in Hv'.
Qed.

Lemma release_own_run index evs ts q :
  (∀ k i, index !! k = Some i → ∃ t, ts !! i = Some t ∧ task_key t = k) →
  ∃ ts' rs evs' q', release_own clients config index evs ts q = (inr (ts', rs), q')
    ∧ Forall2 (λ t t', t' = t ∨ own_release evs t t') ts ts'
    ∧ (rs = [] → ts' = ts) ∧ q'.(q_store) = q.(q_store) ∧ q'.(q_events) = q.(q_events) ++ evs'.
Proof.
  revert ts q. induction evs as [|[id e] evs IH]; intros ts q Hidx.
  { exists ts, [], [], q. rewrite app_nil_r. split_and!; try done.
    apply Forall_Forall2_diag, Forall_forall. by left. }
  assert (Hskip : ∃ ts' rs evs' q', release_own clients config index evs ts q = (inr (ts', rs), q')
    ∧ Forall2 (λ t t', t' = t ∨ own_release ((id, e) :: evs) t t') ts ts'
    ∧ (rs = [] → ts' = ts) ∧ q'.(q_store) = q.(q_store) ∧ q'.(q_events) = q.(q_events) ++ evs').
  { destruct (IH ts q Hidx) as (ts' & rs & evs' & q' & Hrun & HF & Hrest).
    exists ts', rs, evs', q'. split; [done|]. split; [|done].
    eapply Forall2_impl; [exact HF|]. intros x y [?|?]; [by left|right; by apply own_weaken]. }
  cbn [release_own]. destruct (index !! payload_key e) as [i|] eqn:Ei; cbn [mbind option_bind]; [|exact Hskip].
  destruct (Hidx _ _ Ei) as (t & Hi & Hk). rewrite Hi. cbn [mbind option_bind].
  destruct (_is_variant_a_gate_task t) eqn:Hv; [|exact Hskip]. clear Hskip.
  destruct (on_row_effect _ t _ q (variant_a_effect ((id, e) :: evs) t Hv
    ltac:(exists (id, e); split; [by left|done]))) as (u & evs1 & q1 & Hrow & Hu & S1 & _ & E1).
  assert (Hidx' : ∀ k j, index !! k = Some j → ∃ t, <[i := u]> ts !! j = Some t ∧ task_key t = k).
  { intros k j Hj. destruct (Hidx k j Hj) as (x & Hx & Hkx). destruct (decide (i = j)) as [<-|Hne].
    - exists u. rewrite list_lookup_insert_eq by by eapply lookup_lt_Some. split; [done|].
      rewrite Hi in Hx. injection Hx as <-. rewrite <- Hkx. eapply task_key_row, own_key. exact Hu.
    - exists x. by rewrite list_lookup_insert_ne by done. }
  destruct (IH (<[i := u]> ts) q1 Hidx') as (ts' & rs & evs' & q' & Hrun & HF & _ & S2 & E2).
  unfold mbind, M_bind. rewrite Hrow, Hrun. do 4 eexists. split; [reflexivity|].
  split; [|split_and!; [done|congruence|rewrite E2, E1; by rewrite app_assoc]].
  apply Forall2_same_length_lookup. pose proof (Forall2_length _ _ _ HF) as Hlen.
  rewrite length_insert in Hlen. split; [done|]. intros j x y Hx Hy.
  destruct (decide (i = j)) as [<-|Hne].
  - rewrite Hi in Hx. injection Hx as <-. right.
    destruct (Forall2_lookup_lr _ _ _ i u y HF) as [->|Ho];
      [apply list_lookup_insert_eq; by eapply lookup_lt_Some|exact Hy|exact Hu|].
    eapply own_release_trans; [exact Hu|by apply own_weaken].
  - destruct (Forall2_lookup_lr _ _ _ j x y HF) as [->|Ho];
      [by rewrite list_lookup_insert_ne|exact Hy|by left|right; by apply own_weaken].
Qed.

(** The locked section: saved, or refused whole. *)
Definition released_rows (evs : list (string * event)) (store store' : DevQueueStore) : Prop :=
  ∃ mid, Forall2 (λ t t', t' = t ∨ own_release evs t t') store.(tasks) mid
    ∧ Forall2 (λ t t', t' = t ∨ other_release (set_tasks mid store) t t') mid store'.(tasks)
    ∧ store'.(watched_prs) = store.(watched_prs).

Lemma release_locked_run save_fails evs q :
  ∃ r evs' q', release_locked clients config save_fails evs q = (r, q')
    ∧ q'.(q_events) = q.(q_events) ++ evs'
    ∧ match r with
      | inl e => e = OSError ∧ save_fails = true ∧ q'.(q_store) = q.(q_store)
      | inr rs => released_rows evs q.(q_store) q'.(q_store)
                  ∧ (rs = [] → q'.(q_store) = q.(q_store))
      end.
Proof.
  unfold release_locked, load_dev_queue, gets. unfold mbind at 1, M_bind at 1.
  destruct (release_own_run (_index_variant_a_candidates q.(q_store).(tasks)) evs q.(q_store).(tasks) q
    (index_spec _)) as (mid & rs & evs1 & q1 & Hown & HF1 & Hn1 & S1 & E1).
  unfold mbind at 1, M_bind at 1. rewrite Hown. cbn [fst snd].
  set (store1 := set_tasks mid q.(q_store)).
  destruct (sweep_rows_run (release_other_act clients config store1) (other_release store1) mid q1)
    as (ts' & evs2 & q2 & Hrun & HF2 & S2 & _ & E2).
  { intros t m. unfold release_other_act. destruct (other_pr_cleared store1 t) eqn:Ho; [|done].
    intros [= <-]. by apply variant_b_effect. }
  unfold mbind, M_bind. rewrite Hrun. cbn [fst snd].
  assert (HF2' : Forall2 (λ t t', t' = t ∨ other_release store1 t t') mid ts').
  { eapply Forall2_impl; [exact HF2|]. intros t t'. unfold swept, release_other_act.
    destruct (other_pr_cleared store1 t); [by right|by left]. }
  assert (Hev : q2.(q_events) = q.(q_events) ++ (evs1 ++ evs2)) by (by rewrite E2, E1, app_assoc).
  set (acted := filter _ mid) in *.
  destruct (bool_decide_reflect (rs ++ map (released_as _PROPOSED_ACTION_VARIANT_B) acted = [])) as [Hn|Hn];
    cbn [negb when].
  - apply app_eq_nil in Hn as [Hrs Hac]. apply fmap_nil_inv in Hac.
    exists (inr (rs ++ map (released_as _PROPOSED_ACTION_VARIANT_B) acted)), (evs1 ++ evs2), q2.
    split; [done|]. split; [done|]. rewrite S2, S1. split; [|done].
    exists mid. rewrite (Hn1 Hrs). split; [apply Forall_Forall2_diag, Forall_forall; by left|].
    rewrite (swept_none _ _ _ _ HF2 Hac), (Hn1 Hrs) in HF2'.
    split; [|done]. apply Forall_Forall2_diag, Forall_forall; by left.
  - destruct save_fails.
    + exists (inl OSError), (evs1 ++ evs2), q2. split; [done|]. split; [done|]. split_and!; try done. congruence.
    + eexists _, (evs1 ++ evs2), _. split; [reflexivity|]. split; [done|]. split; [|done].
      exists mid. by split_and!.
Qed.

Lemma advance_all_run evs w :
  advance_all evs w
  = (inr tt, w <| rw_cursor := match last evs with Some p => Some p.1 | None => w.(rw_cursor) end |>).
Proof.
  revert w. induction evs as [|[i e] evs IH]; intros w; [by destruct w|].
  cbn [advance_all]. unfold mbind, M_bind, advance_cursor, modify. rewrite IH, last_cons.
  by destruct (last evs).
Qed.

(** C18: a gate is released on evidence, and no merge event is lost to a failed
    save.  A run either raises [OSError] because the save failed, the queue and
    the cursor as they were, so that the next run reads the same events again,
    then the new ones; or it returns, the cursor past every event it read, so
    that the next run reads only new ones.  When it returns, each row is left
    alone, or was parked behind its own pull request and named by an event
    read, or was parked behind another pull request that its client's rows and
    watches observe merged or closed; under the automatic policy it was then
    completed as shipped, or sent back to PENDING, and under the signal policy
    stamped and nothing else. *)
Theorem stale_gate_release_is_crash_safe others save_fails w :
  Inj (=) (=) event_id → cursor_known w.(rw_cursor) w.(rw_queue).(q_events) →
  (∃ es, (others w.(rw_queue)).(q_events) = w.(rw_queue).(q_events) ++ es) →
  let old := w.(rw_queue).(q_events) in
  let evs := read_events w.(rw_cursor) PR_MERGED old in
  let q1 := others w.(rw_queue) in
  ∃ r w' more, release_stale_gated_tasks clients config others save_fails w = (r, w')
    ∧ w'.(rw_queue).(q_events) = old ++ more
    ∧ let next := read_events w'.(rw_cursor) PR_MERGED w'.(rw_queue).(q_events) in
      let new := filter (λ p, p.2.(ev_type) = PR_MERGED) (recorded_after old more) in
      match r with
      | inl e => e = OSError ∧ save_fails = true ∧ w'.(rw_queue).(q_store) = q1.(q_store)
                 ∧ next = evs ++ new
      | inr _ => released_rows evs q1.(q_store) w'.(rw_queue).(q_store) ∧ next = new
      end.
Proof.
  intros Hinj Hcur [es Hes] old evs q1. unfold release_stale_gated_tasks, get, on_rq, modify.
  unfold mbind at 1, M_bind at 1. fold old evs. unfold mbind at 1, M_bind at 1. cbn [rw_queue]. fold q1.
  destruct (release_locked_run save_fails evs q1) as (r & evs' & q' & Hrun & He & Hr).
  unfold mbind at 1, M_bind at 1. cbn [rw_queue].
  replace (rw_queue (w <| rw_queue := q1 |>)) with q1 by done. rewrite Hrun.
  destruct r as [x|rs].
  - destruct Hr as (-> & -> & Hs). do 2 eexists. exists (es ++ evs'). split; [reflexivity|]. cbn.
    rewrite He. unfold q1. rewrite Hes, <- app_assoc. split; [done|]. split_and!; try done.
    by apply read_again.
  - destruct Hr as [Hrel _]. unfold mbind at 1, M_bind at 1. rewrite advance_all_run.
    unfold mbind, M_bind, q_record, modify. cbn.
    do 2 eexists. exists (es ++ evs' ++ map released_event rs). split; [reflexivity|]. cbn.
    rewrite He. unfold q1. rewrite Hes, <- !app_assoc. split; [done|]. split; [exact Hrel|].
    destruct (last evs) as [p|] eqn:El; [by eapply read_past|].
    apply last_None in El. etransitivity; [by apply read_again|]. fold old evs. by rewrite El.
Qed.
End StaleGate.

(** * What a restore of cancelled rows opens *)

Section Restore.
Context {C : Clock}.

Definition restored (cs : list ConciergeCandidate) (t : TicketTask) : Prop :=
  t.(ticket_id) ∈ map cn_ticket_id cs ∧ t.(status) = QueueItemStatus.CANCELLED.

#[export] Instance restored_dec cs t : Decision (restored cs t).
Proof. unfold restored. apply _. Defined.

Definition restored_keys (cs : list ConciergeCandidate) (ts : list TicketTask)
  : list (string * string) :=
  map row_key (filter (restored cs) ts).

(** No restored row's ticket has an open row, or a second restored one. *)
Definition restored_alone (cs : list ConciergeCandidate) (ts : list TicketTask) : Prop :=
  NoDup (restored_keys cs ts) ∧ ∀ k, k ∈ restored_keys cs ts → k ∉ open_keys ts.

Lemma dict_by_is_Some {K A} `{Countable K} (k : A → K) (l : list A) x :
  is_Some (dict_by k l !! x) ↔ x ∈ map k l.
Proof.
  induction l as [|a l IH] using rev_ind.
  { split; [by intros [? ?]|by intros ?%not_elem_of_nil]. }
  unfold dict_by in *. rewrite fold_left_app, map_app, elem_of_app, <- IH. cbn.
  rewrite list_elem_of_singleton. destruct (decide (k a = x)) as [->|Hne].
  - rewrite lookup_insert_eq. split; [by right|by eauto].
  - rewrite lookup_insert_ne by done. naive_solver.
Qed.

Lemma restore_acts cs t :
  is_Some (restore_act (dict_by cn_ticket_id cs) t) ↔ restored cs t.
Proof.
  unfold restore_act, restored. rewrite <- (dict_by_is_Some cn_ticket_id cs).
  destruct (dict_by cn_ticket_id cs !! _) as [c|]; [|by split; [intros [? ?]|intros [[? ?] _]]].
  case_bool_decide as Hst; cbn [negb]; (split; [|by intros [_ ?]]); [by eauto|by intros [? ?]].
Qed.

Definition reopened (t t' : TicketTask) : Prop :=
  row_key t' = row_key t ∧ t'.(status) = QueueItemStatus.PENDING.

Lemma restore_act_effect by_ticket t m :
  restore_act by_ticket t = Some m → row_effect m t (reopened t).
Proof.
  unfold restore_act. destruct (by_ticket !! _) as [c|]; [|done].
  case_bool_decide; [|done]. cbn [negb]. intros [= <-]. eapply (effect_seq _ _ _ (λ u, u = t)).
  - intros evs n. do 3 eexists. by split.
  - intros u ->. eapply effect_mono; [apply transition_effect|].
    intros u (x & y & z & ->). unfold reopened, row_key. by autorewrite with row.
Qed.

(** The restore reopens exactly the cancelled rows of its candidates' ids. *)
Lemma restore_run cs q :
  ∃ evs q',
    _act_on_cancelled_row_candidates cs q
      = (inr (map ticket_id (filter (restored cs) (q_tasks q))), q')
    ∧ Forall2 (λ t t', if decide (restored cs t) then reopened t t' else t' = t)
        (q_tasks q) (q_tasks q')
    ∧ q'.(q_events) = q.(q_events) ++ evs.
Proof.
  destruct (decide (cs = [])) as [->|Hne].
  - exists [], q. rewrite app_nil_r. assert (Hn : ∀ t, ¬ restored [] t)
      by (intros t [?%not_elem_of_nil _]; done).
    split_and!; [|by apply Forall_Forall2_diag, Forall_forall; intros t _; rewrite decide_False|done].
    cbn. by rewrite filter_none.
  - set (act := restore_act (dict_by cn_ticket_id cs)).
    destruct (sweep_store_run act reopened q) as (evs & q' & Hrun & HF & _ & He).
    { apply restore_act_effect. }
    assert (Hact : _act_on_cancelled_row_candidates cs q
      = (inr (map ticket_id (filter (λ t, is_Some (act t)) (q_tasks q))), q')).
    { replace (_act_on_cancelled_row_candidates cs)
        with (acted ← sweep_store act; mret (map ticket_id acted)) by (by destruct cs).
      unfold mbind, M_bind. by rewrite Hrun. }
    exists evs, q'. rewrite Hact. split_and!; [| |done].
    + do 2 f_equal. f_equal. apply list_filter_iff. intros t. apply restore_acts.
    + eapply Forall2_impl; [exact HF|]. intros t t' Hs. unfold swept in Hs.
      pose proof (restore_acts cs t) as Hr. fold act in Hr.
      destruct (act t); [rewrite decide_True by (apply Hr; eauto); done|].
      rewrite decide_False; [done|]. by intros [? ?]%Hr.
Qed.

Lemma reopened_keys cs ts ts' :
  Forall2 (λ t t', if decide (restored cs t) then reopened t t' else t' = t) ts ts' →
  open_keys ts' ≡ₚ open_keys ts ++ restored_keys cs ts.
Proof.
  induction 1 as [|t t' ts ts' Ht _ IH]; [done|].
  unfold open_keys, restored_keys in *. rewrite !filter_cons.
  destruct (decide (restored cs t)) as [Hr|_].
  - destruct Ht as [Hk Hs], Hr as [_ Hc].
    rewrite (decide_True (P := is_open t')) by (unfold is_open; by rewrite Hs).
    rewrite (decide_False (P := is_open t)) by (unfold is_open; by rewrite Hc).
    cbn [map]. rewrite Hk, IH. apply Permutation_middle.
  - subst t'. destruct (decide (is_open t)); [|done]. cbn [map app]. by rewrite IH.
Qed.

(** It keeps one open row per ticket exactly when its rows are alone. *)
Lemma restore_one_open_iff cs q :
  one_open_row (q_tasks q) →
  one_open_row (q_tasks (exec (_act_on_cancelled_row_candidates cs) q))
  ↔ restored_alone cs (q_tasks q).
Proof.
  intros Hq. destruct (restore_run cs q) as (evs & q' & Hrun & HF & _).
  unfold exec. rewrite Hrun. cbn [snd]. unfold one_open_row, restored_alone in *.
  rewrite (reopened_keys cs _ _ HF), NoDup_app. split; [|naive_solver].
  intros (_ & Hd & Hn). split; [done|]. intros k Hk Ho. by apply (Hd k).
Qed.
End Restore.
