(* ===== verification/LostSessions.v ===== *)
(** * RUNNING rows without their session: [reconcile/lost_session_rows.py],
      [reconcile/unowned_running.py], the advisories of
      [reconcile/_shared/_roster.py]

    A row bound to a session no record names is parked; a row no session was
    ever stamped on is adopted when its worktree's context proves which session
    its claim launched, and paged otherwise.  What was detected is checked again
    under the queue lock: [others n] is what other processes do to the queue
    before the n-th lock a pass takes. *)

From S2P Require Import Prelude PyStr Enums Tasks World Vocab RearmOwed Lifecycle GateBackoff Clients Crud.
From S2P Require Import Requeue QueueRows Backstops.

#[local] Open Scope cw_scope.

Definition SPAWN_GRACE_SECONDS : Z := 30.
Definition ESCALATION_PARK_MINUTES : Z := 45.
Definition _SESSION_LOST_REASON : string := "running_row_session_lost".
Definition SESSION_LOST_PARKS_MAX_PER_TICK : nat := 3.
Definition SESSIONLESS_PAGE_REASON : string := "running_row_no_session".
Definition NO_SESSION_ADVISORY_NOTE : string := "?no_session".
Definition _SESSION_ID_MISMATCH_ADVISORY_NOTE : string := "?session_mismatch".

(** ** The session of a row *)

Definition resolve_session_for_task (task : TicketTask) (sessions : list Session)
  : option Session :=
  sid ← task.(session_id); head (filter (λ s, s.(sess_id) = sid) sessions).

(** [session_daemon_liveness(...).native_surface]. *)
Definition native_surface (s : Session) : bool :=
  match s.(sess_surface_ref) with None => false | Some ref => _is_native_surface_ref ref end.

Definition _session_id_advisory_mismatch (live : gset string) (cutoff : Z) (o : option Session)
  : bool :=
  match o with
  | None => true
  | Some s => if Z.ltb cutoff s.(sess_started_at) then false
              else native_surface s && negb (session_in_roster live s)
  end.

Definition advisory_of (sessions : list Session) (live : gset string) (cutoff : Z)
  (t : TicketTask) : option string :=
  if _session_id_advisory_mismatch live cutoff (resolve_session_for_task t sessions)
  then Some _SESSION_ID_MISMATCH_ADVISORY_NOTE else None.

Section Advisory.
Context {C : Clock}.

Definition advisory_act (sessions : list Session) (live : gset string) (cutoff : Z)
  (t : TicketTask) : option (M World unit) :=
  if negb (bool_decide (t.(status) = QueueItemStatus.RUNNING)) || negb (is_Some_b t.(session_id))
  then None
  else let note := advisory_of sessions live cutoff t in
       if bool_decide (t.(advisory_note) = note) then None
       else Some (assign (λ t, t <| advisory_note := note |>)).

Definition _stamp_session_id_mismatch_advisories (sessions : list Session) (live : gset string)
  (now : Z) : M QueueWorld unit :=
  sweep_store (advisory_act sessions live (now - seconds SPAWN_GRACE_SECONDS)) ;; mret tt.
End Advisory.

(** ** Rows whose session has no record *)

Record LostRow := mkLostRow {
  lr_ticket_id : string; lr_client : string; lr_lane : string; lr_created_at : Z;
  lr_attempts : Z; lr_claimed_at : option Z; lr_session_id : option string }.

Record LostSessionRows := mkLostSessionRows {
  ls_parks : list LostRow; ls_sessionless : list LostRow; ls_wiped : bool }.

Definition _lost_row (t : TicketTask) : LostRow :=
  mkLostRow t.(ticket_id) t.(client) t.(lane) t.(created_at) t.(attempts) t.(claimed_at)
    t.(session_id).

Definition _past_spawn_grace (task : TicketTask) (now : Z) : bool :=
  match task.(claimed_at) with
  | None => true
  | Some c => Z.leb (seconds SPAWN_GRACE_SECONDS) (now - c)
  end.

(** The rows the pass looks at. *)
Definition lost_scope (clients : Clients) (t : TicketTask) : bool :=
  bool_decide (t.(status) = QueueItemStatus.RUNNING) && is_Some_b (clients !! t.(client))
  && negb (_is_backstop_exempt t).

Definition is_lost (sessions : list Session) (clients : Clients) (t : TicketTask) : bool :=
  lost_scope clients t && is_Some_b t.(session_id)
  && negb (is_Some_b (resolve_session_for_task t sessions)).

Definition is_sessionless (clients : Clients) (now : Z) (t : TicketTask) : bool :=
  lost_scope clients t && negb (is_Some_b t.(session_id))
  && negb (opt_is t.(advisory_note) NO_SESSION_ADVISORY_NOTE) && _past_spawn_grace t now.

Definition find_lost_session_rows (sessions : list Session) (ts : list TicketTask)
  (clients : Clients) (now : Z) : LostSessionRows :=
  let parks := map _lost_row (filter (λ t, is_lost sessions clients t = true) ts) in
  let sessionless := map _lost_row (filter (λ t, is_sessionless clients now t = true) ts) in
  mkLostSessionRows parks sessionless
    (bool_decide (sessions = []) && Nat.ltb SESSION_LOST_PARKS_MAX_PER_TICK (length parks)).

Definition _same_claim (task : TicketTask) (row : LostRow) : bool :=
  Z.eqb task.(attempts) row.(lr_attempts)
  && bool_decide (task.(claimed_at) = row.(lr_claimed_at))
  && bool_decide (task.(session_id) = row.(lr_session_id)).

(** Recording an event may fail, depending on the state of the world. *)
Class EventFault := event_fault : QueueWorld → event → option exn.

Definition page_payload (row : LostRow) (sid paused breadcrumbs : string) : list (string * json) :=
  [("session_id", JStr sid); ("session_name", JStr ""); ("client", JStr row.(lr_client));
   ("ticket_id", JStr row.(lr_ticket_id)); ("claude_session_id", JNull);
   ("paused_status", JStr paused); ("breadcrumbs", JStr breadcrumbs);
   ("crashed", JBool false); ("lane", JStr row.(lr_lane))].

Definition _park_breadcrumbs (row : LostRow) : string :=
  "ticket " +:+ row.(lr_ticket_id) +:+ "'s RUNNING row was bound to session "
  +:+ fmt_opt row.(lr_session_id) +:+ ", which has no record in sessions.json (the record "
  +:+ "was never written or was lost). Parked BLOCKED_ON_USER "
  +:+ "(" +:+ _SESSION_LOST_REASON +:+ "); nothing was deleted and the row keeps the "
  +:+ "missing session id as evidence. The leaked-worker sweep stops any live "
  +:+ "worker that has no cw session. Verify the ticket's worktree holds no "
  +:+ "unsaved work, then release it with: cw dev-queue requeue "
  +:+ row.(lr_ticket_id) +:+ " -c " +:+ row.(lr_client) +:+ ". Escalates after "
  +:+ str_of_Z ESCALATION_PARK_MINUTES +:+ " minutes if unattended.".

(** [f"{age:.0f}"] of microseconds: to the nearest second, ties to even. *)
Definition rounded_seconds (us : Z) : Z :=
  let q := (us / 1000000)%Z in
  let r := (us mod 1000000)%Z in
  if Z.ltb r 500000 then q
  else if Z.ltb 500000 r then (q + 1)%Z
  else if Z.even q then q else (q + 1)%Z.

Definition _sessionless_breadcrumbs (row : LostRow) (now : Z) (live_names : list string) : string :=
  let age := match row.(lr_claimed_at) with
             | Some c => str_of_Z (rounded_seconds (now - c)) +:+ "s"
             | None => "an unknown time (claimed before schema v44)"
             end in
  let text := "ticket " +:+ row.(lr_ticket_id) +:+ "'s RUNNING row (attempt "
    +:+ str_of_Z row.(lr_attempts) +:+ ") has no session bound " +:+ age
    +:+ " after its claim. Nothing was changed. Live sessions for this ticket: "
    +:+ (match live_names with [] => "none" | _ => str_join ", " live_names end)
    +:+ ". A slow worktree phase or an unstamped worker can look like this; reconcile adopts the "
    +:+ "row once the evidence ties (#2591). Check cw list and cw dev-queue tasks." in
  match live_names with
  | [] => text +:+ " If no worker is live for this ticket, cw doctor --reap (class 2) "
          +:+ "releases the row -- only after confirming no worker is live for this ticket."
  | _ => text
  end.

Section Lost.
Context {C : Clock} {F : EventFault}.
Context (others : nat → QueueWorld → QueueWorld).

(** [CwError] and [OSError] are logged; anything else ends the tick. *)
Definition _emit_page (payload : list (string * json)) (tid : string) : M QueueWorld bool := λ q,
  let e := mkEvent SESSION_NEEDS_ATTENTION payload (Some tid) in
  match event_fault q e with
  | None => (inr true, q <| q_events := q.(q_events) ++ [e] |>)
  | Some x => if is_CwError x || bool_decide (x = OSError) then (inr false, q) else (inl x, q)
  end.

Definition at_claim (row : LostRow) : RowIdentity := mkRowIdentity (Some row.(lr_created_at)) None.

Definition find_row (row : LostRow) (ts : list TicketTask) : option (nat * TicketTask) :=
  list_find (λ t, is_running_row row.(lr_ticket_id) row.(lr_client) (at_claim row) t = true) ts.

Definition lost_park_row (row : LostRow) (t : TicketTask) : M World unit :=
  transition_task_status QueueItemStatus.BLOCKED_ON_USER (Some _SESSION_LOST_REASON) t.(pr_url)
    (Some ("bound session " +:+ fmt_opt row.(lr_session_id) +:+ " has no record in sessions.json"))
    false.

Fixpoint park_rows (rows : list LostRow) (ts : list TicketTask)
  : M QueueWorld (list TicketTask * list LostRow) :=
  match rows with
  | [] => mret (ts, [])
  | row :: rows' =>
      match find_row row ts with
      | None => park_rows rows' ts
      | Some (i, t) =>
          if negb (_same_claim t row) || _is_backstop_exempt t then park_rows rows' ts
          else t' ← on_row t (lost_park_row row t);
               r ← park_rows rows' (<[i := t']> ts);
               mret (r.1, row :: r.2)
      end
  end.

Definition _park_lost_rows (rows : list LostRow) : M QueueWorld (list LostRow) :=
  store ← load_dev_queue;
  r ← park_rows rows store.(tasks);
  when (negb (bool_decide (r.2 = []))) (save_dev_queue (set_tasks r.1 store)) ;;
  mret r.2.

Fixpoint page_parked (rows : list LostRow) : M QueueWorld unit :=
  match rows with
  | [] => mret tt
  | row :: rows' =>
      _emit_page (page_payload row (default "" row.(lr_session_id)) _SESSION_LOST_REASON
                    (_park_breadcrumbs row)) row.(lr_ticket_id) ;;
      page_parked rows'
  end.

Definition _act_on_parks (found : LostSessionRows) : M QueueWorld (list LostRow) :=
  if found.(ls_wiped) then mret [] else
  let batch := take SESSION_LOST_PARKS_MAX_PER_TICK found.(ls_parks) in
  parked ← (if bool_decide (batch = []) then mret []
            else modify (others 0) ;; _park_lost_rows batch);
  page_parked parked ;;
  mret parked.

Definition sessionless_page (sessions : list Session) (live : gset string) (now : Z)
  (row : LostRow) : list (string * json) :=
  let names := map (λ s, s.(sess_id) +:+ " (" +:+ s.(sess_name) +:+ ")")
    (find_live_sessions_for_ticket sessions row.(lr_ticket_id) row.(lr_client) live) in
  page_payload row
    ("no-session:" +:+ row.(lr_client) +:+ "/" +:+ row.(lr_ticket_id) +:+ "#"
     +:+ str_of_Z row.(lr_attempts))
    SESSIONLESS_PAGE_REASON (_sessionless_breadcrumbs row now names).

(** The locked write of the latch. *)
Definition latch_locked (row : LostRow) : M QueueWorld bool :=
  store ← load_dev_queue;
  match find_row row store.(tasks) with
  | None => mret false
  | Some (i, t) =>
      if negb (_same_claim t row) then mret false
      else t' ← on_row t (assign (λ t, t <| advisory_note := Some NO_SESSION_ADVISORY_NOTE |>));
           save_dev_queue (set_tasks (<[i := t']> store.(tasks)) store) ;;
           mret true
  end.

Definition _page_sessionless (n : nat) (sessions : list Session) (live : gset string) (now : Z)
  (row : LostRow) : M QueueWorld bool :=
  sent ← _emit_page (sessionless_page sessions live now row) row.(lr_ticket_id);
  if negb sent then mret false else
  modify (others n) ;;
  latch_locked row.

Fixpoint page_sessionless_each (n : nat) (sessions : list Session) (live : gset string) (now : Z)
  (rows : list LostRow) : M QueueWorld unit :=
  match rows with
  | [] => mret tt
  | row :: rows' =>
      _page_sessionless n sessions live now row ;;
      page_sessionless_each (S n) sessions live now rows'
  end.

Definition run_lost_session_recovery (sessions : list Session) (clients : Clients)
  (live : gset string) (now : Z) : M QueueWorld (list string) :=
  if bool_decide (clients = ∅) then mret [] else
  store ← load_dev_queue;
  let found := find_lost_session_rows sessions store.(tasks) clients now in
  parked ← _act_on_parks found;
  page_sessionless_each 1 sessions live now found.(ls_sessionless) ;;
  mret (map lr_ticket_id parked).
End Lost.

(** ** Rows no session was stamped on *)

Record UnownedCandidate := mkUnownedCandidate {
  uc_ticket_id : string; uc_client : string; uc_lane : string; uc_created_at : Z;
  uc_attempts : Z; uc_claimed_at : option Z; uc_session_id : string; uc_session_name : string }.

(** What [json.loads] makes of the text of a directory's
    [.claude/cw-context.json], or what reading or parsing it raises; [None] when
    it is no file. *)
Class ContextFile := context_file : string → option (exn + json).

Definition _read_cw_context {X : ContextFile} (cwd : string)
  : exn + option (list (string * json)) :=
  match context_file cwd with
  | None | Some (inl OSError) | Some (inl JSONDecodeError) => inr None
  | Some (inl e) => inl e
  | Some (inr (JDict d)) => inr (Some d)
  | Some (inr _) => inr None
  end.

Definition _session_postdates_claim (s : Session) (row : TicketTask) : bool :=
  match row.(claimed_at) with None => true | Some c => Z.leb c s.(sess_started_at) end.

Definition is_text (s : string) (j : json) : bool :=
  match j with JStr s' => String.eqb s' s | _ => false end.

Definition _claim_context_session_id (context : option (list (string * json))) (row : TicketTask)
  : option string :=
  match context with
  | None => None
  | Some d =>
      match dict_get "attempt" d, dict_get "session_id" d with
      | JInt a, JStr sid =>
          if Z.eqb a row.(attempts) && is_text row.(ticket_id) (dict_get "ticket_id" d)
             && is_text row.(client) (dict_get "client" d)
          then Some sid else None
      | _, _ => None
      end
  end.

Section Unowned.
Context {C : Clock} {F : EventFault} {X : ContextFile} {E : OpsEnv}.
Context (others : nat → QueueWorld → QueueWorld).

Definition _classify_unbound (row : TicketTask) (c : ClientConfig)
  (sessions_by_id : gmap string Session) (bound : gset string) : exn + option UnownedCandidate :=
  let worktree := worktree_path_for c (resolve_feature_branch row.(ticket_id) (Some c) (Some row)) in
  match _read_cw_context worktree with
  | inl e => inl e
  | inr context => inr (
      sid ← _claim_context_session_id context row;
      if bool_decide (sid ∈ bound) then None else
      s ← sessions_by_id !! sid;
      if negb (String.eqb s.(sess_client) row.(client))
         || negb (opt_is (ticket_id_for_session s.(sess_name)) row.(ticket_id)) then None
      else if negb (_session_postdates_claim s row) then None
      else Some (mkUnownedCandidate row.(ticket_id) row.(client) row.(lane) row.(created_at)
                   row.(attempts) row.(claimed_at) s.(sess_id) s.(sess_name)))
  end.

Definition running_count (ts : list TicketTask) (t : TicketTask) : nat :=
  length (filter (λ u, u.(status) = QueueItemStatus.RUNNING ∧ task_key u = task_key t) ts).

(** The row's client, when the row is one to classify. *)
Definition unbound_client (ts : list TicketTask) (clients : Clients) (row : TicketTask)
  : option ClientConfig :=
  if negb (bool_decide (row.(status) = QueueItemStatus.RUNNING)) || is_Some_b row.(session_id)
  then None
  else c ← clients !! row.(client);
       if _is_backstop_exempt row then None
       else if Nat.ltb 1 (running_count ts row) then None
       else Some c.

Fixpoint detect_rows (ts : list TicketTask) (clients : Clients)
  (sessions_by_id : gmap string Session) (bound : gset string) (rows : list TicketTask)
  : exn + list UnownedCandidate :=
  match rows with
  | [] => inr []
  | row :: rows' =>
      let rest := detect_rows ts clients sessions_by_id bound rows' in
      match unbound_client ts clients row with
      | None => rest
      | Some c =>
          match _classify_unbound row c sessions_by_id bound with
          | inl e => inl e
          | inr o => match rest with
                     | inl e => inl e
                     | inr l => inr (match o with Some u => u :: l | None => l end)
                     end
          end
      end
  end.

Definition detect_unowned_running (ts : list TicketTask) (sessions : list Session)
  (clients : Clients) : exn + list UnownedCandidate :=
  detect_rows ts clients (dict_by sess_id sessions) (row_session_ids ts) ts.

(** Another row, by position, that stands in the way of the bind. *)
Definition conflicts (row : TicketTask) (u : UnownedCandidate) (other : TicketTask) : bool :=
  opt_is other.(session_id) u.(uc_session_id)
  || bool_decide (other.(status) = QueueItemStatus.RUNNING)
     && is_row row.(ticket_id) row.(client) other.

Definition _still_adoptable (ts : list TicketTask) (i : nat) (row : TicketTask)
  (u : UnownedCandidate) : bool :=
  if is_Some_b row.(session_id) || negb (Z.eqb row.(attempts) u.(uc_attempts))
     || negb (bool_decide (row.(claimed_at) = u.(uc_claimed_at)))
  then false
  else negb (existsb (λ p, negb (Nat.eqb p.1 i) && conflicts row u p.2) (indexed ts)).

Definition adopted_payload (u : UnownedCandidate) : list (string * json) :=
  [("client", JStr u.(uc_client)); ("ticket_id", JStr u.(uc_ticket_id));
   ("lane", JStr u.(uc_lane)); ("session_id", JStr u.(uc_session_id));
   ("session_name", JStr u.(uc_session_name)); ("attempt", JInt u.(uc_attempts));
   ("claimed_at", match u.(uc_claimed_at) with Some c => JStr (isoformat c) | None => JNull end)].

Definition _emit_adopted (u : UnownedCandidate) : M QueueWorld unit := λ q,
  let e := mkEvent TASK_SESSION_ADOPTED (adopted_payload u) (Some u.(uc_ticket_id)) in
  match event_fault q e with
  | None => (inr tt, q <| q_events := q.(q_events) ++ [e] |>)
  | Some x => if is_CwError x || bool_decide (x = OSError) then (inr tt, q) else (inl x, q)
  end.

(** The bind under the queue lock. *)
Definition adopt_locked (u : UnownedCandidate) : M QueueWorld bool :=
  store ← load_dev_queue;
  match list_find (λ t, is_running_row u.(uc_ticket_id) u.(uc_client)
                          (mkRowIdentity (Some u.(uc_created_at)) None) t = true) store.(tasks) with
  | None => mret false
  | Some (i, row) =>
      if negb (_still_adoptable store.(tasks) i row u) then mret false
      else t' ← on_row row (assign (_apply_spawn_success_fields u.(uc_session_id)));
           save_dev_queue (set_tasks (<[i := t']> store.(tasks)) store) ;;
           mret true
  end.

Definition _act_adopt (n : nat) (u : UnownedCandidate) : M QueueWorld bool :=
  modify (others n) ;;
  bound ← adopt_locked u;
  when bound (_emit_adopted u) ;;
  mret bound.

Fixpoint adopt_each (n : nat) (us : list UnownedCandidate) : M QueueWorld (list string) :=
  match us with
  | [] => mret []
  | u :: us' =>
      b ← _act_adopt n u;
      r ← adopt_each (S n) us';
      mret (if (b : bool) then u.(uc_ticket_id) :: r else r)
  end.

Definition run_unowned_running_recovery (sessions : list Session) (clients : Clients)
  : M QueueWorld (list string) :=
  if bool_decide (clients = ∅) then mret [] else
  store ← load_dev_queue;
  us ← of_sum (detect_unowned_running store.(tasks) sessions clients);
  adopt_each 0 us.
End Unowned.
