(* ===== verification/LostSessionsProps.v ===== *)
(** * What the recovery of session-less rows may do

    A pass over the lost rows is at most three parks, each of a row whose
    session no record names, then signals that touch nothing but a note; a pass
    over the unowned rows is a sequence of binds, each proved by the row's own
    worktree and each to a session no other row has. *)

From S2P Require Import Prelude PyStr Enums Tasks World Vocab RearmOwed Lifecycle GateBackoff Clients Crud CrudProps.
From S2P Require Import Requeue Screening ScreeningProps QueueRows QueueRowsProps Backstops BackstopsProps LostSessions.

#[local] Open Scope cw_scope.

(** A row of the queue replaced, nothing else of the file changed. *)
Definition row_put (i : nat) (t' : TicketTask) (q q' : QueueWorld) : Prop :=
  q'.(q_store) = put i t' q.(q_store).

(** ** Lost rows *)

Section Lost.
Context {C : Clock} {F : EventFault}.
Context (others : nat → QueueWorld → QueueWorld).

(** Parked, uncharged; the session and the pull request stay as evidence. *)
Definition parked_lost (t t' : TicketTask) : Prop :=
  row_key t' = row_key t ∧ t'.(created_at) = t.(created_at) ∧ t'.(lane) = t.(lane)
  ∧ t'.(stage) = t.(stage) ∧ t'.(status) = QueueItemStatus.BLOCKED_ON_USER
  ∧ t'.(session_id) = t.(session_id) ∧ t'.(disposition) = Some _SESSION_LOST_REASON
  ∧ t'.(attempts) = t.(attempts) ∧ t'.(unproductive_attempts) = t.(unproductive_attempts)
  ∧ t'.(pr_url) = str_or t.(pr_url) t.(adopted_pr_url).

Lemma lost_park_effect row t : row_effect (lost_park_row row t) t (parked_lost t).
Proof.
  intros evs n. unfold lost_park_row.
  destruct (transition_blocked _SESSION_LOST_REASON t.(pr_url)
    (Some ("bound session " +:+ fmt_opt row.(lr_session_id) +:+ " has no record in sessions.json"))
    false t evs n) as (t' & evs' & k & Hrun & x & y & z & ->).
  do 3 eexists. split; [exact Hrun|]. unfold parked_lost, row_key. autorewrite with row.
  split_and!; try done. rewrite andb_false_r. lia.
Qed.

(** A row parked with the evidence that called for it. *)
Definition lost_row (sessions : list Session) (clients : Clients) (t t' : TicketTask) : Prop :=
  is_lost sessions clients t = true ∧ parked_lost t t'.

(** At most [n] rows changed, each as [P] says. *)
Definition at_most (n : nat) (P : TicketTask → TicketTask → Prop) (ts ts' : list TicketTask)
  : Prop :=
  length ts' = length ts ∧ ∃ ps : list nat, length ps ≤ n
    ∧ ∀ i t t', ts !! i = Some t → ts' !! i = Some t' →
        (i ∉ ps ∧ t' = t) ∨ (i ∈ ps ∧ P t t').

Lemma at_most_none n P ts : at_most n P ts ts.
Proof.
  split; [done|]. exists []. split; [cbn; lia|]. intros i t t' H1 H2. left. split; [apply not_elem_of_nil|congruence].
Qed.

Lemma at_most_le n m (P Q : TicketTask → TicketTask → Prop) ts ts' :
  n ≤ m → (∀ t t', P t t' → Q t t') → at_most n P ts ts' → at_most m Q ts ts'.
Proof.
  intros Hle HPQ (Hlen & ps & Hn & H). split; [done|]. exists ps. split; [lia|].
  intros i t t' H1 H2. destruct (H i t t' H1 H2) as [?|[? ?]]; [by left|right]. by split; [|apply HPQ].
Qed.

Lemma at_most_keeps n P ts ts' :
  (∀ t t', P t t' → keeps_open t t') → at_most n P ts ts' → one_open_row ts → one_open_row ts'.
Proof.
  intros HP (Hlen & ps & _ & H) Hq. eapply sublist_NoDup; [exact Hq|]. apply keeps_open_sublist.
  apply Forall2_same_length_lookup_2; [done|]. intros i t t' H1 H2.
  destruct (H i t t' H1 H2) as [[_ ->]|[_ ?]]; [apply keeps_open_refl|by apply HP].
Qed.

Lemma is_lost_running sessions clients t :
  is_lost sessions clients t = true → t.(status) = QueueItemStatus.RUNNING.
Proof. unfold is_lost, lost_scope. rewrite !andb_true_iff, bool_decide_eq_true. tauto. Qed.

Lemma lost_row_keeps sessions clients t t' : lost_row sessions clients t t' → keeps_open t t'.
Proof.
  intros [Hr%is_lost_running Hp] _. split; [by apply running_open|]. by destruct Hp.
Qed.

Lemma find_row_some row ts i t :
  find_row row ts = Some (i, t) →
  ts !! i = Some t ∧ row_key t = (row.(lr_ticket_id), row.(lr_client))
  ∧ t.(status) = QueueItemStatus.RUNNING.
Proof.
  intros (Hi & H & _)%list_find_Some. apply is_running_row_spec in H as (? & ? & _). done.
Qed.

Lemma same_claim_session t row : _same_claim t row = true → t.(session_id) = row.(lr_session_id).
Proof. unfold _same_claim. rewrite !andb_true_iff, !bool_decide_eq_true. tauto. Qed.

(** The row found at the lock is lost too: the claim is the one detected. *)
Lemma still_lost sessions clients t0 t :
  is_lost sessions clients t0 = true → row_key t = row_key t0 →
  t.(status) = QueueItemStatus.RUNNING → t.(session_id) = t0.(session_id) →
  _is_backstop_exempt t = false → is_lost sessions clients t = true.
Proof.
  unfold is_lost, lost_scope, resolve_session_for_task, row_key.
  intros H [= _ ->] -> -> ->. revert H. rewrite !andb_true_iff. tauto.
Qed.

Definition from_lost (sessions : list Session) (clients : Clients) (row : LostRow) : Prop :=
  ∃ t0, is_lost sessions clients t0 = true ∧ row = _lost_row t0.

Lemma park_rows_run sessions clients rows ts q :
  Forall (from_lost sessions clients) rows →
  ∃ ts' rs evs q', park_rows rows ts q = (inr (ts', rs), q')
    ∧ at_most (length rows) (lost_row sessions clients) ts ts' ∧ (rs = [] → ts' = ts)
    ∧ q'.(q_store) = q.(q_store) ∧ q'.(q_events) = q.(q_events) ++ evs.
Proof.
  intros Hrows. revert ts q. induction Hrows as [|row rows (t0 & Ht0 & ->) _ IH]; intros ts q.
  { exists ts, [], [], q. rewrite app_nil_r. split_and!; try done. apply at_most_none. }
  assert (Hskip : ∃ ts' rs evs q', park_rows rows ts q = (inr (ts', rs), q')
    ∧ at_most (S (length rows)) (lost_row sessions clients) ts ts' ∧ (rs = [] → ts' = ts)
    ∧ q'.(q_store) = q.(q_store) ∧ q'.(q_events) = q.(q_events) ++ evs).
  { destruct (IH ts q) as (ts' & rs & evs & q' & ? & Hm & ?). exists ts', rs, evs, q'.
    split; [done|]. split; [|done]. eapply at_most_le; [|by intros ???|exact Hm]. lia. }
  cbn [park_rows length]. destruct (find_row (_lost_row t0) ts) as [[i t]|] eqn:Hf; [|exact Hskip].
  apply find_row_some in Hf as (Hi & Hk & Hst).
  destruct (_same_claim t (_lost_row t0)) eqn:Hc; cbn [negb orb]; [|exact Hskip].
  destruct (_is_backstop_exempt t) eqn:Hx; [exact Hskip|]. clear Hskip.
  apply same_claim_session in Hc.
  pose proof (still_lost _ _ t0 t Ht0 Hk Hst Hc Hx) as Hlost.
  destruct (on_row_effect _ t _ q (lost_park_effect (_lost_row t0) t))
    as (u & evs1 & q1 & Hrow & Hu & S1 & _ & E1).
  destruct (IH (<[i := u]> ts) q1) as (ts' & rs & evs2 & q' & Hrun & (Hlen & ps & Hle & Hm) & _ & S2 & E2).
  unfold mbind, M_bind. rewrite Hrow, Hrun. do 4 eexists. split; [reflexivity|].
  split; [|split_and!; [done|congruence|rewrite E2, E1; by rewrite app_assoc]].
  rewrite length_insert in Hlen. split; [done|]. exists (i :: ps). split; [cbn; lia|].
  intros j x y Hx1 Hy. destruct (decide (i = j)) as [<-|Hne].
  - right. split; [by left|]. assert (x = t) as -> by congruence.
    destruct (Hm i u y) as [[_ ->]|[_ [Hr _]]]; [apply list_lookup_insert_eq; by eapply lookup_lt_Some|done|by split|].
    apply is_lost_running in Hr. destruct Hu as (_ & _ & _ & _ & Hb & _). congruence.
  - destruct (Hm j x y) as [[Hn ->]|[Hn Hp]]; [by rewrite list_lookup_insert_ne|done|left|right].
    + split; [|done]. by intros [?|?]%elem_of_cons.
    + split; [by right|done].
Qed.

Lemma park_locked_run sessions clients rows q :
  Forall (from_lost sessions clients) rows →
  ∃ rs evs q', _park_lost_rows rows q = (inr rs, q')
    ∧ at_most (length rows) (lost_row sessions clients) (q_tasks q) (q_tasks q')
    ∧ q'.(q_events) = q.(q_events) ++ evs.
Proof.
  intros Hrows. unfold _park_lost_rows, load_dev_queue, gets. unfold mbind at 1, M_bind at 1.
  destruct (park_rows_run sessions clients rows (q_tasks q) q Hrows)
    as (ts' & rs & evs & q' & Hrun & Hm & Hn & S1 & E1).
  unfold mbind, M_bind. unfold q_tasks in *. rewrite Hrun. cbn [fst snd].
  destruct (bool_decide_reflect (rs = [])) as [->|Hne]; cbn [negb when].
  - exists [], evs, q'. split; [done|]. split; [|done]. rewrite S1. apply at_most_none.
  - exists rs, evs. eexists. split; [reflexivity|]. by split.
Qed.

(** ** A pass over the lost rows *)

(** The locked parks: a failure-free run of one queue lock. *)
Definition park_pass (sessions : list Session) (clients : Clients) (seen : list TicketTask)
  (q q1 : QueueWorld) : Prop :=
  at_most SESSION_LOST_PARKS_MAX_PER_TICK (lost_row sessions clients) (q_tasks q) (q_tasks q1)
  ∧ (sessions = [] →
     SESSION_LOST_PARKS_MAX_PER_TICK < length (filter (λ t, is_lost sessions clients t = true) seen) →
     q_tasks q1 = q_tasks q).

(** The same claim of the same row. *)
Definition claim_as_seen (t0 t : TicketTask) : Prop :=
  row_key t = row_key t0 ∧ t.(created_at) = t0.(created_at) ∧ t.(attempts) = t0.(attempts)
  ∧ t.(claimed_at) = t0.(claimed_at) ∧ t.(session_id) = t0.(session_id).

Definition with_note (t : TicketTask) : TicketTask :=
  t <| advisory_note := Some NO_SESSION_ADVISORY_NOTE |>.

Definition paged (e : event) (q : QueueWorld) : QueueWorld :=
  q <| q_events := q.(q_events) ++ [e] |>.

(** What follows: a park's page; the page of a row seen without a session, then
    what another process does, then the row's note, if its claim is the same. *)
Inductive signal_step (clients : Clients) (now : Z) (seen : list TicketTask)
  : QueueWorld → QueueWorld → Prop :=
  | sig_event e q :
      e.(ev_type) = SESSION_NEEDS_ATTENTION → signal_step clients now seen q (paged e q)
  | sig_unnoted e n q :
      e.(ev_type) = SESSION_NEEDS_ATTENTION → signal_step clients now seen q (others n (paged e q))
  | sig_noted e i t0 t n q q' :
      t0 ∈ seen → is_sessionless clients now t0 = true →
      e.(ev_type) = SESSION_NEEDS_ATTENTION → e.(ev_correlation_id) = Some t0.(ticket_id) →
      q_tasks (others n (paged e q)) !! i = Some t →
      t.(status) = QueueItemStatus.RUNNING → claim_as_seen t0 t →
      row_put i (with_note t) (others n (paged e q)) q' →
      q'.(q_events) = (others n (paged e q)).(q_events) →
      signal_step clients now seen q q'.

Lemma emit_page_run payload tid q :
  ∃ r, (_emit_page payload tid q = (r, q) ∧ r ≠ inr true)
       ∨ (_emit_page payload tid q
          = (inr true, paged (mkEvent SESSION_NEEDS_ATTENTION payload (Some tid)) q)).
Proof.
  unfold _emit_page. destruct (event_fault _ _) as [x|]; [|by eexists (inr true); right].
  destruct (_ || _); eexists; left; by split.
Qed.

Lemma page_parked_run clients now seen rows q :
  ∃ r q', page_parked rows q = (r, q') ∧ rtc (signal_step clients now seen) q q'
    ∧ q'.(q_store) = q.(q_store).
Proof.
  revert q. induction rows as [|row rows IH]; intros q; [do 2 eexists; by split_and!|].
  cbn [page_parked]. unfold mbind, M_bind.
  match goal with |- context [_emit_page ?p ?i q] =>
    destruct (emit_page_run p i q) as [r [[-> Hr]| ->]] end.
  - destruct r as [x|b]; [do 2 eexists; by split_and!|]. apply IH.
  - destruct (IH (paged (mkEvent SESSION_NEEDS_ATTENTION (page_payload row (default "" (lr_session_id row)) _SESSION_LOST_REASON (_park_breadcrumbs row)) (Some row.(lr_ticket_id))) q))
      as (r' & q' & -> & Hs & Hst).
    do 2 eexists. split; [reflexivity|]. split; [|done].
    eapply rtc_l; [|exact Hs]. by constructor.
Qed.

Lemma lost_same_claim t0 t row :
  row = _lost_row t0 → _same_claim t row = true → row_key t = row_key t0 →
  t.(created_at) = t0.(created_at) → claim_as_seen t0 t.
Proof.
  intros -> H Hk Hc. unfold _same_claim in H.
  rewrite !andb_true_iff, !bool_decide_eq_true, Z.eqb_eq in H.
  destruct H as ((? & ?) & ?). by split_and!.
Qed.

Lemma find_row_created row ts i t :
  find_row row ts = Some (i, t) → t.(created_at) = row.(lr_created_at).
Proof.
  intros (Hi & H & _)%list_find_Some. apply is_running_row_spec in H as (_ & _ & H & _).
  by apply H.
Qed.

Lemma page_sessionless_run n sessions live clients now seen t0 q :
  t0 ∈ seen → is_sessionless clients now t0 = true →
  ∃ r q', _page_sessionless others n sessions live now (_lost_row t0) q = (r, q')
    ∧ rtc (signal_step clients now seen) q q'.
Proof.
  intros Hin Hs. unfold _page_sessionless. unfold mbind at 1, M_bind at 1.
  match goal with |- context [_emit_page ?p ?i q] =>
    set (e := mkEvent SESSION_NEEDS_ATTENTION p (Some i));
    destruct (emit_page_run p i q) as [r [[-> Hr]| ->]] end; fold e.
  { destruct r as [x|[]]; [|done|]; do 2 eexists; by split_and!. }
  cbn [negb]. unfold modify, latch_locked, load_dev_queue, gets, mbind, M_bind.
  set (q1 := others n (paged e q)).
  destruct (find_row (_lost_row t0) (q_tasks q1)) as [[i t]|] eqn:Hf;
    unfold q_tasks in Hf; fold q1; rewrite Hf;
    [|do 2 eexists; split; [reflexivity|]; apply rtc_once; by constructor].
  destruct (_same_claim t _) eqn:Hc; cbn [negb];
    [|do 2 eexists; split; [reflexivity|]; apply rtc_once; by constructor].
  do 2 eexists. split; [reflexivity|]. apply rtc_once.
  pose proof (find_row_created _ _ _ _ Hf) as Hcr. apply find_row_some in Hf as (Hi & Hk & Hst).
  eapply (sig_noted _ _ _ e i t0 t n); try done. 
  by eapply (lost_same_claim t0 t (_lost_row t0)).
Qed.

Lemma sessionless_each_run n sessions live clients now seen rows q :
  Forall (λ row, ∃ t0, t0 ∈ seen ∧ is_sessionless clients now t0 = true ∧ row = _lost_row t0) rows →
  ∃ r q', page_sessionless_each others n sessions live now rows q = (r, q')
    ∧ rtc (signal_step clients now seen) q q'.
Proof.
  intros Hr. revert n q. induction Hr as [|row rows (t0 & Hin & Hs & ->) _ IH]; intros n q.
  { do 2 eexists. by split. }
  cbn [page_sessionless_each]. unfold mbind, M_bind.
  destruct (page_sessionless_run n sessions live clients now seen t0 q Hin Hs) as (r & q1 & -> & H1).
  destruct r as [x|b]; [do 2 eexists; by split|].
  destruct (IH (S n) q1) as (r' & q' & -> & H2). do 2 eexists. split; [reflexivity|].
  by etransitivity.
Qed.

Lemma seen_rows {P : TicketTask → bool} ts :
  Forall (λ row, ∃ t0, t0 ∈ ts ∧ P t0 = true ∧ row = _lost_row t0)
    (map _lost_row (filter (λ t, P t = true) ts)).
Proof.
  apply Forall_forall. intros row (t0 & -> & [Hp Hin]%list_elem_of_filter)%list_elem_of_fmap. by exists t0.
Qed.

(** C20: what a pass over the rows without a session may do, whatever other
    processes do to the queue between its reads and its locks, and whichever
    event cannot be recorded.  Under one queue lock it parks at most three
    rows: RUNNING rows of the scope no other pass owns, each still bound to a
    session no record names, and each keeps its session, its stage, its attempts and
    its unproductive count, and the pull request it knew; when the session file holds no session
    and more rows than that look lost, it parks none.  Everything after that is
    a signal: a page, or the note of a RUNNING row still on the claim that was
    seen past its grace without a session, stored only after the row's page.  A
    pass that looks at no client does nothing. *)
Theorem lost_rows_keep_their_evidence sessions clients live now q :
  let seen := q_tasks q in
  ∃ r q', run_lost_session_recovery others sessions clients live now q = (r, q')
    ∧ (clients = ∅ → q' = q)
    ∧ ∃ q0 q1, (q0 = q ∨ q0 = others 0 q) ∧ park_pass sessions clients seen q0 q1
        ∧ rtc (signal_step clients now seen) q1 q'.
Proof.
  intros seen. unfold run_lost_session_recovery.
  destruct (bool_decide_reflect (clients = ∅)) as [Hc|Hc].
  { do 2 eexists. split; [reflexivity|]. split; [done|]. exists q, q.
    split; [by left|]. split; [|done]. by split; [apply at_most_none|]. }
  unfold mbind at 1, M_bind at 1, load_dev_queue, gets. fold (q_tasks q). fold seen.
  set (found := find_lost_session_rows sessions seen clients now).
  assert (Hact : ∃ r q0 q1 q2, _act_on_parks others found q = (r, q2)
    ∧ (q0 = q ∨ q0 = others 0 q) ∧ park_pass sessions clients seen q0 q1
    ∧ rtc (signal_step clients now seen) q1 q2).
  { unfold _act_on_parks. destruct (ls_wiped found) eqn:Hw.
    { exists (inr []), q, q, q. split; [done|]. split; [by left|]. split; [|done].
      by split; [apply at_most_none|]. }
    set (batch := take _ _).
    assert (Hb : Forall (from_lost sessions clients) batch).
    { apply Forall_take. eapply Forall_impl; [apply seen_rows|]. intros row (t0 & _ & H1 & H2).
      by exists t0. }
    assert (Hg : sessions = [] → ¬ SESSION_LOST_PARKS_MAX_PER_TICK
      < length (filter (λ t, is_lost sessions clients t = true) seen)).
    { intros Hs Hlt. apply not_true_iff_false in Hw. apply Hw. unfold found. cbn [ls_wiped find_lost_session_rows].
      apply andb_true_iff. split; [by apply bool_decide_eq_true|]. apply Nat.ltb_lt. by rewrite length_map. }
    destruct (bool_decide_reflect (batch = [])) as [Hn|Hn].
    { exists (inr []), q, q, q. split; [done|]. split; [by left|]. split; [|done].
      by split; [apply at_most_none|]. }
    unfold mbind, M_bind, modify.
    destruct (park_locked_run sessions clients batch (others 0 q) Hb) as (rs & evs & q1 & -> & Hm & _).
    destruct (page_parked_run clients now seen rs q1) as (r & q2 & Hp & Hsig & _). rewrite Hp.
    assert (Hpass : park_pass sessions clients seen (others 0 q) q1).
    { split; [|by intros Hs ?%Hg]. eapply at_most_le; [|by intros ???|exact Hm].
      unfold batch. rewrite length_take. lia. }
    destruct r as [x|u].
    - exists (inl x), (others 0 q), q1, q2. split_and!; try done. by right.
    - exists (inr rs), (others 0 q), q1, q2. split_and!; try done. by right. }
  destruct Hact as (r & q0 & q1 & q2 & Hrun & Hq0 & Hpass & Hsig).
  unfold mbind, M_bind. rewrite Hrun. destruct r as [x|rs].
  { do 2 eexists. split; [reflexivity|]. split; [done|]. by exists q0, q1. }
  destruct (sessionless_each_run 1 sessions live clients now seen (ls_sessionless found) q2
    (seen_rows seen)) as (r & q3 & Hpg & Hs2). rewrite Hpg.
  assert (rtc (signal_step clients now seen) q1 q3) by (by etransitivity).
  destruct r as [x|u]; do 2 eexists; (split; [reflexivity|]); (split; [done|]); by exists q0, q1.
Qed.
End Lost.

(** * What proves that a row owns a session

    The recovery of the rows no session was stamped on is a sequence of binds;
    each is proved by the row's own worktree, under the lock that writes it. *)

Lemma dict_by_elem {K A} `{Countable K} (k : A → K) (l : list A) x a :
  dict_by k l !! x = Some a → a ∈ l ∧ k a = x.
Proof.
  unfold dict_by. rewrite dict_by_fold. destruct (last _) as [b|] eqn:Hl; [|by rewrite lookup_empty].
  intros [= ->]. apply last_Some_elem_of, list_elem_of_filter in Hl as [? ?]. done.
Qed.

Lemma indexed_at (ts : list TicketTask) j u : (j, u) ∈ indexed ts ↔ ts !! j = Some u.
Proof. unfold indexed. rewrite elem_of_lookup_imap. naive_solver. Qed.

Section Adoption.
Context {C : Clock} {F : EventFault} {X : ContextFile} {E : OpsEnv}.
Context (others : nat → QueueWorld → QueueWorld).
Context (sessions : list Session) (clients : Clients).

(** The context a row's worktree holds. *)
Definition row_context (cfg : ClientConfig) (t : TicketTask) : option (exn + json) :=
  context_file (worktree_path_for cfg (resolve_feature_branch t.(ticket_id) (Some cfg) (Some t))).

(** The context names the claim, and the session it names is recorded, of the
    row's client and ticket, and no older than the claim. *)
Definition claims_session (t : TicketTask) (s : Session) : Prop :=
  s ∈ sessions ∧ s.(sess_client) = t.(client)
  ∧ ticket_id_for_session s.(sess_name) = Some t.(ticket_id)
  ∧ (∀ c, t.(claimed_at) = Some c → (c ≤ s.(sess_started_at))%Z)
  ∧ t.(status) = QueueItemStatus.RUNNING ∧ t.(session_id) = None
  ∧ _is_backstop_exempt t = false
  ∧ ∃ cfg d, clients !! t.(client) = Some cfg ∧ row_context cfg t = Some (inr (JDict d))
      ∧ dict_get "attempt" d = JInt t.(attempts) ∧ dict_get "session_id" d = JStr s.(sess_id)
      ∧ dict_get "ticket_id" d = JStr t.(ticket_id) ∧ dict_get "client" d = JStr t.(client).

(** No other row has the session, none other of the ticket is RUNNING. *)
Definition sole_owner (ts : list TicketTask) (i : nat) (t : TicketTask) (sid : string) : Prop :=
  ∀ j u, j ≠ i → ts !! j = Some u →
    u.(session_id) ≠ Some sid ∧ ¬ (u.(status) = QueueItemStatus.RUNNING ∧ row_key u = row_key t).

(** One bind: a RUNNING row without a session, still on the claim seen with
    that evidence, takes the session. *)
Definition adopt_step (seen : list TicketTask) (q q' : QueueWorld) : Prop :=
  ∃ i t t0 s, q_tasks q !! i = Some t ∧ t.(status) = QueueItemStatus.RUNNING
    ∧ t.(session_id) = None ∧ t0 ∈ seen ∧ claim_as_seen t0 t ∧ claims_session t0 s
    ∧ sole_owner (q_tasks q) i t s.(sess_id)
    ∧ row_put i (_apply_spawn_success_fields s.(sess_id) t) q q'.

(** A bind, another process, an event. *)
Inductive adoption_step (seen : list TicketTask) (q : QueueWorld) : QueueWorld → Prop :=
  | ad_bind q' : adopt_step seen q q' → adoption_step seen q q'
  | ad_others n : adoption_step seen q (others n q)
  | ad_event e : e.(ev_type) = TASK_SESSION_ADOPTED → adoption_step seen q (paged e q).

(** ** What a candidate proves *)

Definition candidate_of (u : UnownedCandidate) (t0 : TicketTask) (s : Session) : Prop :=
  u = mkUnownedCandidate t0.(ticket_id) t0.(client) t0.(lane) t0.(created_at) t0.(attempts)
        t0.(claimed_at) s.(sess_id) s.(sess_name).

Lemma context_spec context t sid :
  _claim_context_session_id context t = Some sid →
  ∃ d, context = Some d ∧ dict_get "attempt" d = JInt t.(attempts)
    ∧ dict_get "session_id" d = JStr sid ∧ dict_get "ticket_id" d = JStr t.(ticket_id)
    ∧ dict_get "client" d = JStr t.(client).
Proof.
  unfold _claim_context_session_id. destruct context as [d|]; [|done].
  destruct (dict_get "attempt" d) as [| |a| | | |] eqn:Ha; try done.
  destruct (dict_get "session_id" d) as [| | | |x| |] eqn:Hx; try done.
  destruct (_ && _) eqn:Hc; [|done]. intros [= ->]. rewrite !andb_true_iff, Z.eqb_eq in Hc.
  destruct Hc as ((-> & Ht) & Hcl). exists d. unfold is_text in *.
  destruct (dict_get "ticket_id" d) as [| | | |y| |]; try done. apply String.eqb_eq in Ht as ->.
  destruct (dict_get "client" d) as [| | | |z| |]; try done. by apply String.eqb_eq in Hcl as ->.
Qed.

Lemma classify_spec row cfg bound u :
  clients !! row.(client) = Some cfg → _is_backstop_exempt row = false →
  row.(status) = QueueItemStatus.RUNNING → row.(session_id) = None →
  _classify_unbound row cfg (dict_by sess_id sessions) bound = inr (Some u) →
  ∃ s, candidate_of u row s ∧ claims_session row s ∧ s.(sess_id) ∉ bound.
Proof.
  intros Hcl Hx Hst Hsn. unfold _classify_unbound. unfold _read_cw_context. fold (row_context cfg row).
  set (ctx := match row_context cfg row with Some (inr (JDict d)) => Some d | _ => None end).
  intros H. assert (Hc : (sid ← _claim_context_session_id ctx row;
      if bool_decide (sid ∈ bound) then None else
      s ← dict_by sess_id sessions !! sid;
      if negb (String.eqb s.(sess_client) row.(client))
         || negb (opt_is (ticket_id_for_session s.(sess_name)) row.(ticket_id)) then None
      else if negb (_session_postdates_claim s row) then None
      else Some (mkUnownedCandidate row.(ticket_id) row.(client) row.(lane) row.(created_at)
                   row.(attempts) row.(claimed_at) s.(sess_id) s.(sess_name))) = Some u).
  { revert H. unfold ctx. destruct (row_context cfg row) as [[[]|[]]|]; try done; by intros [= H]. }
  clear H. destruct (_claim_context_session_id ctx row) as [sid|] eqn:Es; [|done]. cbn in Hc.
  destruct (bool_decide_reflect (sid ∈ bound)) as [|Hb]; [done|].
  destruct (dict_by sess_id sessions !! sid) as [s|] eqn:Ed; [|done]. cbn in Hc.
  apply dict_by_elem in Ed as [Hs <-].
  destruct (_ || _) eqn:Ho; [done|]. apply orb_false_iff in Ho as [H1 H2].
  apply negb_false_iff in H1, H2. apply String.eqb_eq in H1.
  destruct (_session_postdates_claim s row) eqn:Hp; [|done]. injection Hc as <-.
  apply context_spec in Es as (d & Hd & Ha & Hsid & Ht & Hc).
  exists s. split; [done|]. split; [|done]. split_and!; try done.
  - by apply opt_is_true.
  - intros c Hcc. unfold _session_postdates_claim in Hp. rewrite Hcc in Hp. by apply Z.leb_le.
  - exists cfg, d. split_and!; try done. unfold ctx in Hd.
    by destruct (row_context cfg row) as [[e|[]]|]; try done; injection Hd as ->.
Qed.

Lemma detect_spec ts bound rows us :
  detect_rows ts clients (dict_by sess_id sessions) bound rows = inr us →
  Forall (λ u, ∃ t0 s, t0 ∈ rows ∧ candidate_of u t0 s ∧ claims_session t0 s) us.
Proof.
  revert us. induction rows as [|row rows IH]; intros us; cbn [detect_rows]; [by intros [= <-]|].
  assert (Hrest : ∀ l, detect_rows ts clients (dict_by sess_id sessions) bound rows = inr l →
    Forall (λ u, ∃ t0 s, t0 ∈ row :: rows ∧ candidate_of u t0 s ∧ claims_session t0 s) l).
  { intros l Hl. eapply Forall_impl; [by apply IH|]. intros u (t0 & s & ? & ?).
    exists t0, s. split; [by right|done]. }
  destruct (unbound_client ts clients row) as [cfg|] eqn:Hu; [|apply Hrest].
  assert (Hcfg : clients !! row.(client) = Some cfg ∧ _is_backstop_exempt row = false
    ∧ row.(status) = QueueItemStatus.RUNNING ∧ row.(session_id) = None).
  { revert Hu. unfold unbound_client. destruct (_ || _) eqn:Ho; [done|].
    apply orb_false_iff in Ho as [Ho1%negb_false_iff%bool_decide_eq_true Ho2].
    destruct (session_id row); [done|].
    destruct (clients !! client row) as [c|]; [|done]. cbn [mbind option_bind].
    destruct (_is_backstop_exempt row); [done|]. destruct (Nat.ltb _ _); [done|]. intros [= ->]. by split_and!. }
  destruct (_classify_unbound row cfg _ bound) as [e|o] eqn:Hc; [done|].
  destruct (detect_rows _ _ _ _ rows) as [e|l]; [done|]. intros [= <-]. specialize (Hrest l eq_refl).
  destruct o as [u|]; [|done]. constructor; [|done].
  destruct Hcfg as (? & ? & ? & ?). apply classify_spec in Hc as (s & ? & ? & _); [|done..].
  exists row, s. split; [by left|done].
Qed.

(** ** The bind *)

Lemma adoptable_spec ts i t u :
  _still_adoptable ts i t u = true →
  t.(session_id) = None ∧ t.(attempts) = u.(uc_attempts) ∧ t.(claimed_at) = u.(uc_claimed_at)
  ∧ sole_owner ts i t u.(uc_session_id).
Proof.
  unfold _still_adoptable. destruct (_ || _) eqn:Ho; [done|].
  apply orb_false_iff in Ho as [[H1 H2]%orb_false_iff H3].
  apply negb_false_iff in H2, H3. apply Z.eqb_eq in H2. apply bool_decide_eq_true in H3.
  intros Hn%negb_true_iff. split; [by destruct (session_id t)|]. split; [done|]. split; [done|].
  intros j v Hj Hv. assert (Hf : conflicts t u v = false).
  { apply not_true_iff_false. intros Hc. apply not_true_iff_false in Hn. apply Hn.
    apply existsb_exists. exists (j, v). split; [apply list_elem_of_In; by apply indexed_at|].
    cbn. rewrite Hc, andb_true_r. apply negb_true_iff. by apply Nat.eqb_neq. }
  unfold conflicts in Hf. apply orb_false_iff in Hf as [Hf1 Hf2]. split.
  - intros Hs. apply not_true_iff_false in Hf1. apply Hf1. by apply opt_is_true.
  - intros [Hr Hk]. rewrite Hr in Hf2. rewrite bool_decide_true in Hf2 by done. cbn in Hf2.
    apply not_true_iff_false in Hf2. apply Hf2. apply is_row_true. by rewrite Hk.
Qed.

Lemma adopt_locked_run seen u t0 s q :
  t0 ∈ seen → candidate_of u t0 s → claims_session t0 s →
  ∃ b q', adopt_locked u q = (inr b, q')
    ∧ (if (b : bool) then adopt_step seen q q' else q' = q).
Proof.
  intros Hin -> Hc. unfold adopt_locked, load_dev_queue, gets. unfold mbind at 1, M_bind at 1.
  fold (q_tasks q). cbn [uc_ticket_id uc_client uc_created_at uc_session_id].
  destruct (list_find _ _) as [[i t]|] eqn:Hf; [|by exists false, q].
  apply list_find_Some in Hf as (Hi & Hr & _).
  apply is_running_row_spec in Hr as (Hk & Hst & Hcr & _). specialize (Hcr _ eq_refl).
  destruct (_still_adoptable (q_tasks q) i t _) eqn:Ha; cbn [negb]; [|by exists false, q].
  apply adoptable_spec in Ha as (Hn & Hat & Hcl & Hsole).
  unfold mbind, M_bind, on_row. rewrite assign_run. eexists true, _. split; [reflexivity|].
  exists i, t, t0, s. pose proof Hc as (_ & _ & _ & _ & _ & Hn0 & _). cbn in *.
  split_and!; try done; split_and!; (done || congruence).
Qed.

Lemma emit_adopted_run seen u q :
  ∃ r q', _emit_adopted u q = (r, q') ∧ rtc (adoption_step seen) q q'
    ∧ q'.(q_store) = q.(q_store).
Proof.
  unfold _emit_adopted. destruct (event_fault _ _) as [x|].
  - destruct (_ || _); do 2 eexists; by split_and!.
  - do 2 eexists. split; [reflexivity|]. split; [|done]. apply rtc_once. by apply ad_event.
Qed.

Lemma adopt_each_run seen n us q :
  Forall (λ u, ∃ t0 s, t0 ∈ seen ∧ candidate_of u t0 s ∧ claims_session t0 s) us →
  ∃ r q', adopt_each others n us q = (r, q') ∧ rtc (adoption_step seen) q q'.
Proof.
  intros Hus. revert n q. induction Hus as [|u us (t0 & s & Hin & Hu & Hc) _ IH]; intros n q.
  { do 2 eexists. by split. }
  cbn [adopt_each]. unfold _act_adopt, modify, mbind, M_bind.
  destruct (adopt_locked_run seen u t0 s (others n q) Hin Hu Hc) as (b & q1 & -> & Hb).
  assert (H1 : rtc (adoption_step seen) q q1).
  { eapply rtc_l; [apply (ad_others _ _ n)|]. destruct b; [|by subst]. by apply rtc_once, ad_bind. }
  assert (Hemit : ∃ r q2, (when b (_emit_adopted u)) q1 = (r, q2) ∧ rtc (adoption_step seen) q1 q2).
  { destruct b; cbn [when]; [|do 2 eexists; by split].
    destruct (emit_adopted_run seen u q1) as (r & q2 & ? & ? & _). by exists r, q2. }
  destruct Hemit as (r & q2 & -> & H2).
  assert (H12 : rtc (adoption_step seen) q q2) by (by etransitivity).
  destruct r as [x|[]]; [do 2 eexists; by split|].
  destruct (IH (S n) q2) as (r & q3 & Hr & H3). cbn [mret M_ret]. rewrite Hr.
  assert (rtc (adoption_step seen) q q3) by (by etransitivity).
  destruct r as [x|l]; do 2 eexists; by split.
Qed.

(** ** One row per session *)

Definition bound_sessions (ts : list TicketTask) : list string := omap session_id ts.

Lemma fields_session sid t : (_apply_spawn_success_fields sid t).(session_id) = Some sid.
Proof. unfold _apply_spawn_success_fields. by case_bool_decide. Qed.

Lemma bind_sessions ts i t sid :
  ts !! i = Some t → t.(session_id) = None →
  bound_sessions (<[i := _apply_spawn_success_fields sid t]> ts) ≡ₚ sid :: bound_sessions ts.
Proof.
  intros Hi Hn. rewrite insert_take_drop by by eapply lookup_lt_Some.
  rewrite <- (take_drop_middle ts i t Hi) at 3. unfold bound_sessions.
  rewrite !omap_app. cbn. rewrite fields_session, Hn. by rewrite <- Permutation_middle.
Qed.

Lemma adopt_keeps_unique seen q q' :
  adopt_step seen q q' → NoDup (bound_sessions (q_tasks q)) → NoDup (bound_sessions (q_tasks q')).
Proof.
  intros (i & t & t0 & s & Hi & _ & Hn & _ & _ & _ & Hsole & Hput) Hnd.
  unfold q_tasks, row_put in *. rewrite Hput. cbn. rewrite (bind_sessions _ _ _ _ Hi Hn).
  constructor; [|done]. unfold bound_sessions. rewrite list_elem_of_omap.
  intros (u & [j Hj]%list_elem_of_lookup & Hu). destruct (decide (j = i)) as [->|Hne]; [congruence|].
  by destruct (Hsole j u Hne Hj) as [H _].
Qed.

(** C17: a session is adopted on proof, and by one row.  Whatever other processes
    do to the queue between the reads and the locks, a pass over the RUNNING
    rows no session was stamped on changes the queue only by binds: each takes a row
    that is still RUNNING, without a session and on the claim that was read, no other row of
    its ticket RUNNING, and gives it the session its worktree's context named for that
    very attempt, ticket and client - a recorded session of that client and ticket,
    not older than the claim, that no other row has.  So a bind never gives
    one session two rows.  A context that cannot be read at all ends the
    pass before it changes anything, and so does an empty scope. *)
Theorem adoption_is_proven q :
  let seen := q_tasks q in
  ∃ r q', run_unowned_running_recovery others sessions clients q = (r, q')
    ∧ rtc (adoption_step seen) q q'
    ∧ (clients = ∅ ∨ (∃ e, detect_unowned_running seen sessions clients = inl e) → q' = q)
    ∧ ∀ q1 q2, adopt_step seen q1 q2 →
        NoDup (bound_sessions (q_tasks q1)) → NoDup (bound_sessions (q_tasks q2)).
Proof.
  intros seen. unfold run_unowned_running_recovery.
  destruct (bool_decide_reflect (clients = ∅)) as [Hc|Hc].
  { do 2 eexists. split; [reflexivity|]. split; [done|]. split; [done|]. apply adopt_keeps_unique. }
  unfold mbind at 1, M_bind at 1, load_dev_queue, gets. fold (q_tasks q). fold seen.
  unfold mbind, M_bind, of_sum.
  destruct (detect_unowned_running seen sessions clients) as [e|us] eqn:Hd.
  { do 2 eexists. split; [reflexivity|]. split; [done|]. split; [done|]. apply adopt_keeps_unique. }
  cbn [mret M_ret]. destruct (adopt_each_run seen 0 us q) as (r & q' & Hr & Hs).
  { by eapply detect_spec. }
  exists r, q'. split; [exact Hr|]. split; [done|]. split; [by intros [?|[? ?]]|].
  apply adopt_keeps_unique.
Qed.

(** ** A proved row is adopted *)

(** The row to adopt, as it was read, or with its session. *)
Definition to_adopt (i : nat) (t : TicketTask) (sid : string) (q : QueueWorld) : Prop :=
  (q_tasks q !! i = Some t ∧ sole_owner (q_tasks q) i t sid)
  ∨ ∃ t', q_tasks q !! i = Some t' ∧ t'.(session_id) = Some sid.

Definition has_adopted (i : nat) (sid : string) (q : QueueWorld) : Prop :=
  ∃ t', q_tasks q !! i = Some t' ∧ t'.(session_id) = Some sid.

Lemma claims_key t s : claims_session t s → row_key t = (default "" (ticket_id_for_session s.(sess_name)), s.(sess_client)).
Proof. intros (_ & Hc & Ht & _). unfold row_key. by rewrite Ht, Hc. Qed.

Lemma claims_same_id t s s' : claims_session t s → claims_session t s' → s.(sess_id) = s'.(sess_id).
Proof.
  intros (_ & _ & _ & _ & _ & _ & _ & c & d & H1 & H2 & _ & H3 & _)
         (_ & _ & _ & _ & _ & _ & _ & c' & d' & H1' & H2' & _ & H3' & _).
  assert (c' = c) as -> by congruence. assert (d' = d) as -> by congruence. congruence.
Qed.

Lemma session_unique s s' :
  NoDup (map sess_id sessions) → s ∈ sessions → s' ∈ sessions → s.(sess_id) = s'.(sess_id) → s = s'.
Proof.
  intros Hnd Hs Hs' He. pose proof (dict_by_unique sess_id sessions s Hnd Hs) as H1.
  pose proof (dict_by_unique sess_id sessions s' Hnd Hs') as H2. congruence.
Qed.

(** A bind of another candidate leaves the row; one of the row's own candidate adopts it. *)
Lemma adopt_step_keeps seen q q' i t s :
  NoDup (map sess_id sessions) → seen !! i = Some t → sole_owner seen i t s.(sess_id) →
  claims_session t s → adopt_step seen q q' → to_adopt i t s.(sess_id) q → to_adopt i t s.(sess_id) q'.
Proof.
  intros Hnd Hseen Hsole0 Hc (i' & t1 & t0 & s' & Hi' & Hst & Hn & Hin & Hsame & Hc' & Hsole' & Hput) Hq.
  unfold to_adopt, q_tasks, row_put in *. rewrite Hput. cbn. destruct (decide (i' = i)) as [->|Hne].
  - right. exists (_apply_spawn_success_fields s'.(sess_id) t1). split; [apply list_lookup_insert_eq; by eapply lookup_lt_Some|].
    rewrite fields_session. destruct Hq as [[Hi _]|(t' & Hi & Hs)]; [|congruence].
    assert (t1 = t) as -> by congruence. f_equal.
    assert (t0 = t) as ->; [|by eapply claims_same_id].
    apply list_elem_of_lookup in Hin as [j Hj]. destruct (decide (j = i)) as [->|Hji]; [congruence|].
    destruct (Hsole0 j t0 Hji Hj) as [_ Hr]. destruct Hr. destruct Hc' as (_ & _ & _ & _ & ? & _).
    destruct Hsame as [Hk _]. by split.
  - destruct Hq as [[Hi Hsole]|(t' & Hi & Hs)]; [left|right; exists t'; by rewrite list_lookup_insert_ne].
    split; [by rewrite list_lookup_insert_ne|]. intros j u Hj Hu. destruct (decide (i' = j)) as [<-|Hij].
    + rewrite list_lookup_insert_eq in Hu by by eapply lookup_lt_Some. injection Hu as <-.
      destruct (Hsole i' t1 Hne Hi') as [_ Hr]. split.
      * rewrite fields_session. intros [= He]. assert (s' = s) as ->.
        { apply session_unique; try done; [by destruct Hc'|by destruct Hc]. }
        apply Hr. split; [done|]. destruct Hsame as [-> _]. by rewrite (claims_key _ _ Hc), (claims_key _ _ Hc').
      * intros [? Hk]. apply Hr. split; [done|]. rewrite <- Hk. unfold row_key, _apply_spawn_success_fields.
        by case_bool_decide.
    + rewrite list_lookup_insert_ne in Hu by done. by apply (Hsole j).
Qed.

Lemma adopted_stays seen q q' i sid :
  adopt_step seen q q' → has_adopted i sid q → has_adopted i sid q'.
Proof.
  intros (i' & t1 & t0 & s' & Hi' & _ & Hn & _ & _ & _ & _ & Hput) (t' & Hi & Hs).
  unfold has_adopted, q_tasks, row_put in *. rewrite Hput. cbn. exists t'.
  rewrite list_lookup_insert_ne; [done|]. intros ->. congruence.
Qed.

Lemma sole_adoptable ts i t u :
  ts !! i = Some t → t.(session_id) = None → u.(uc_attempts) = t.(attempts) →
  u.(uc_claimed_at) = t.(claimed_at) → sole_owner ts i t u.(uc_session_id) →
  _still_adoptable ts i t u = true.
Proof.
  intros Hi Hn Ha Hc Hs. unfold _still_adoptable. rewrite Hn, Ha, Hc, Z.eqb_refl, bool_decide_true by done.
  cbn [is_Some_b negb orb]. apply negb_true_iff, not_true_iff_false. intros He.
  apply existsb_exists in He as ([j v] & Hin & Hb). apply list_elem_of_In, indexed_at in Hin.
  cbn in Hb. apply andb_true_iff in Hb as [Hj%negb_true_iff%Nat.eqb_neq Hb].
  destruct (Hs j v Hj Hin) as [H1 H2]. unfold conflicts in Hb. apply orb_true_iff in Hb as [Hb|Hb].
  - apply H1. by apply opt_is_true.
  - apply andb_true_iff in Hb as [Hr%bool_decide_eq_true Hk%is_row_true]. by apply H2.
Qed.

Lemma sole_running_found ts i t sid :
  ts !! i = Some t → t.(status) = QueueItemStatus.RUNNING → sole_owner ts i t sid →
  list_find (λ v, is_running_row t.(ticket_id) t.(client) (mkRowIdentity (Some t.(created_at)) None) v = true)
    ts = Some (i, t).
Proof.
  intros Hi Hst Hs. apply list_find_Some. split; [done|]. split.
  - apply is_running_row_spec. split_and!; try done. by intros ? [= <-].
  - intros j v Hj Hlt (Hk & Hr & _)%is_running_row_spec.
    destruct (Hs j v ltac:(lia) Hj) as [_ H]. by apply H.
Qed.

Lemma adopt_own (seen : list TicketTask) u q i t s :
  candidate_of u t s → claims_session t s → t ∈ seen → to_adopt i t s.(sess_id) q →
  has_adopted i s.(sess_id) (exec (adopt_locked u) q).
Proof.
  intros Hu Hc Hin [[Hi Hs]|Ha].
  - pose proof Hc as (_ & _ & _ & _ & Hst & Hsn & _). rewrite Hu. unfold exec, adopt_locked, load_dev_queue, gets.
    unfold mbind at 1, M_bind at 1. cbn [uc_ticket_id uc_client uc_created_at uc_session_id].
    fold (q_tasks q). rewrite (sole_running_found _ _ _ _ Hi Hst Hs).
    rewrite sole_adoptable by done. cbn [negb].
    unfold mbind, M_bind, on_row. rewrite assign_run. unfold has_adopted, q_tasks. cbn.
    eexists. split; [apply list_lookup_insert_eq; by eapply lookup_lt_Some|]. apply fields_session.
  - unfold exec. destruct (adopt_locked_run seen u t s q Hin Hu Hc) as (b & q' & -> & Hb). cbn [snd].
    destruct b; [by eapply adopted_stays|by subst].
Qed.
Lemma sole_filter (P : TicketTask → Prop) `{∀ t, Decision (P t)} ts i t :
  ts !! i = Some t → (∀ j u, j ≠ i → ts !! j = Some u → ¬ P u) → length (filter P ts) ≤ 1.
Proof.
  intros Hi Hn. rewrite <- (take_drop_middle ts i t Hi), filter_app, filter_cons.
  pose proof (lookup_lt_Some _ _ _ Hi) as Hlt.
  rewrite (filter_none P (take i ts)), (filter_none P (drop (S i) ts)).
  - by destruct (decide (P t)); cbn; lia.
  - intros x [j Hj]%list_elem_of_lookup. rewrite lookup_drop in Hj. by eapply (Hn (S i + j)); [lia|].
  - intros x [j Hj]%list_elem_of_lookup. apply lookup_take_Some in Hj as [Hj Hl].
    by eapply (Hn j); [lia|].
Qed.

(** What makes a row of the file one to adopt. *)
Definition adoptable (ts : list TicketTask) (i : nat) (t : TicketTask) (s : Session) : Prop :=
  ts !! i = Some t ∧ sole_owner ts i t s.(sess_id) ∧ claims_session t s.

Lemma adoptable_unbound ts i t s :
  adoptable ts i t s → ∃ cfg, unbound_client ts clients t = Some cfg ∧ clients !! t.(client) = Some cfg.
Proof.
  intros (Hi & Hs & _ & _ & _ & _ & Hst & Hn & Hx & cfg & d & Hcl & _). exists cfg. split; [|done].
  unfold unbound_client. rewrite Hst, Hn, Hcl, Hx. cbn [negb orb is_Some_b mbind option_bind].
  rewrite bool_decide_true by done. cbn [negb orb].
  assert (Hle : running_count ts t ≤ 1).
  { unfold running_count. apply (sole_filter _ ts i t Hi). intros j u Hj Hu [? Hk].
    destruct (Hs j u Hj Hu) as [_ Hno]. apply Hno. split; [done|].
    unfold row_key, task_key in *. congruence. }
  by replace (Nat.ltb 1 (running_count ts t)) with false by (symmetry; apply Nat.ltb_ge; lia).
Qed.

Lemma adoptable_classified ts i t s cfg :
  NoDup (map sess_id sessions) → adoptable ts i t s → clients !! t.(client) = Some cfg →
  ∃ u, candidate_of u t s
    ∧ _classify_unbound t cfg (dict_by sess_id sessions) (row_session_ids ts) = inr (Some u).
Proof.
  intros Hnd (Hi & Hs & Hin & Hc & Ht & Hp & _ & Hn & _ & cfg' & d & Hcl & Hd & Ha & Hsid & Hdt & Hdc) Hcfg.
  assert (cfg' = cfg) as -> by congruence. eexists. split; [reflexivity|].
  unfold _classify_unbound, _read_cw_context. fold (row_context cfg t). rewrite Hd.
  unfold _claim_context_session_id. rewrite Ha, Hsid, Hdt, Hdc. unfold is_text.
  rewrite Z.eqb_refl, !String.eqb_refl. cbn [andb mbind option_bind].
  rewrite bool_decide_false.
  2:{ unfold row_session_ids. rewrite elem_of_list_to_set, list_elem_of_omap.
      intros (v & [j Hj]%list_elem_of_lookup & Hv). destruct (decide (j = i)) as [->|Hne]; [congruence|].
      by destruct (Hs j v Hne Hj). }
  rewrite (dict_by_unique sess_id sessions s Hnd Hin). cbn [mbind option_bind].
  rewrite Hc, String.eqb_refl, Ht, (proj2 (opt_is_true (Some t.(ticket_id)) t.(ticket_id))) by done. cbn [negb orb].
  assert (Hpc : _session_postdates_claim s t = true).
  { unfold _session_postdates_claim. destruct (claimed_at t) as [c|] eqn:Ecl; [|done].
    apply Z.leb_le. by apply Hp. }
  by rewrite Hpc.
Qed.

Lemma detect_complete ts rows us i t s :
  NoDup (map sess_id sessions) → adoptable ts i t s → t ∈ rows →
  detect_rows ts clients (dict_by sess_id sessions) (row_session_ids ts) rows = inr us →
  ∃ u, u ∈ us ∧ candidate_of u t s.
Proof.
  intros Hnd Had. revert us. induction rows as [|row rows IH]; intros us; [by intros ?%elem_of_nil|].
  cbn [detect_rows]. intros [<-|Hin]%elem_of_cons.
  - destruct (adoptable_unbound _ _ _ _ Had) as (cfg & -> & Hcfg).
    destruct (adoptable_classified _ _ _ _ _ Hnd Had Hcfg) as (u & Hu & ->).
    destruct (detect_rows _ _ _ _ rows); [done|]. intros [= <-]. exists u. split; [by left|done].
  - specialize (IH) with (1 := Hin).
    destruct (unbound_client ts clients row) as [cfg|]; [|apply IH].
    destruct (_classify_unbound row cfg _ _) as [e|o]; [done|].
    destruct (detect_rows _ _ _ _ rows) as [e|l]; [done|]. intros [= <-].
    destruct (IH l eq_refl) as (u & Hu & ?). exists u. split; [|done].
    destruct o; [by right|done].
Qed.
End Adoption.

(** ** The pass, alone *)

Section Alone.
Context {C : Clock} {F : EventFault} {X : ContextFile} {E : OpsEnv}.
Context (sessions : list Session) (clients : Clients).

Definition alone : nat → QueueWorld → QueueWorld := λ _ q, q.

(** An event that cannot be recorded fails as the inbox fails. *)
Definition inbox_faults : Prop :=
  ∀ q e x, event_fault q e = Some x → is_CwError x = true ∨ x = OSError.

Lemma emit_adopted_quiet u q :
  inbox_faults → ∃ q', _emit_adopted u q = (inr tt, q') ∧ q'.(q_store) = q.(q_store).
Proof.
  intros HF. unfold _emit_adopted. destruct (event_fault q _) as [x|] eqn:Ef; [|by eexists].
  assert (Hx : is_CwError x || bool_decide (x = OSError) = true).
  { apply orb_true_iff. rewrite bool_decide_eq_true. by eapply HF. }
  rewrite Hx. by exists q.
Qed.

Lemma act_adopt_alone n u q b q1 :
  inbox_faults → adopt_locked u q = (inr b, q1) →
  ∃ q', _act_adopt alone n u q = (inr b, q') ∧ q'.(q_store) = q1.(q_store).
Proof.
  intros HF Hrun. unfold _act_adopt, modify, alone, mbind, M_bind. rewrite Hrun.
  destruct b; cbn [when]; [|by eexists].
  destruct (emit_adopted_quiet u q1 HF) as (q' & -> & Hq). by exists q'.
Qed.

Lemma to_adopt_store i t sid q q' : q'.(q_store) = q.(q_store) → to_adopt i t sid q → to_adopt i t sid q'.
Proof. unfold to_adopt, q_tasks. by intros ->. Qed.

Lemma adopt_each_alone n us seen i t s q u :
  inbox_faults → NoDup (map sess_id sessions) → adoptable sessions clients seen i t s →
  Forall (λ u, ∃ t0 s0, t0 ∈ seen ∧ candidate_of u t0 s0 ∧ claims_session sessions clients t0 s0) us →
  u ∈ us → candidate_of u t s → to_adopt i t s.(sess_id) q →
  has_adopted i s.(sess_id) (exec (adopt_each alone n us) q).
Proof.
  intros HF Hnd (Hi & Hsole & Hc) Hus Hin Hu Hq.
  assert (Hgoal : (u ∈ us ∧ to_adopt i t s.(sess_id) q) ∨ has_adopted i s.(sess_id) q) by (by left).
  clear Hin Hq. revert n q Hgoal. induction Hus as [|v us (t0 & s0 & Ht0 & Hv & Hc0) _ IH]; intros n q Hq.
  { by destruct Hq as [[?%elem_of_nil _]|Hq]. }
  unfold exec. cbn [adopt_each]. unfold mbind, M_bind.
  destruct (adopt_locked_run sessions clients seen v t0 s0 q Ht0 Hv Hc0) as (b & q1 & Hrun & Hb).
  destruct (act_adopt_alone n v q b q1 HF Hrun) as (q2 & -> & Hst).
  assert (Hq2 : (u ∈ us ∧ to_adopt i t s.(sess_id) q2) ∨ has_adopted i s.(sess_id) q2).
  { unfold has_adopted, to_adopt, q_tasks. rewrite Hst. fold (q_tasks q1).
    fold (to_adopt i t s.(sess_id) q1). fold (has_adopted i s.(sess_id) q1).
    destruct Hq as [[[->|Hin]%elem_of_cons Hq]|Hq].
    - right. pose proof (adopt_own sessions clients seen v q i t s Hu Hc) as Hown.
      unfold exec in Hown. rewrite Hrun in Hown. apply Hown; [by eapply list_elem_of_lookup_2|done].
    - left. split; [done|]. destruct b; [|by subst]. by eapply adopt_step_keeps.
    - right. destruct b; [by eapply adopted_stays|by subst]. }
  specialize (IH (S n) q2 Hq2). unfold exec in IH.
  by destruct (adopt_each alone (S n) us q2) as [[e|l] q3].
Qed.

Lemma adopt_each_returns n us (seen : list TicketTask) q :
  inbox_faults →
  Forall (λ u, ∃ t0 s0, t0 ∈ seen ∧ candidate_of u t0 s0 ∧ claims_session sessions clients t0 s0) us →
  ∃ tids, result (adopt_each alone n us) q = inr tids.
Proof.
  intros HF Hus. revert n q. induction Hus as [|v us (t0 & s0 & Ht0 & Hv & Hc0) _ IH]; intros n q.
  { by exists []. }
  unfold result. cbn [adopt_each]. unfold mbind, M_bind.
  destruct (adopt_locked_run sessions clients seen v t0 s0 q Ht0 Hv Hc0) as (b & q1 & Hrun & _).
  destruct (act_adopt_alone n v q b q1 HF Hrun) as (q2 & -> & _).
  destruct (IH (S n) q2) as [tids Hr]. unfold result in Hr.
  destruct (adopt_each alone (S n) us q2) as [[e|l] q3]; [done|]. by eexists.
Qed.

(** C21: a row that can be proved is adopted.  Left alone by other processes,
    with every context readable and one record per session id, a pass returns, and
    every RUNNING row of the scope without a session, the only one of its ticket RUNNING, whose
    worktree's context names its attempt, ticket and client and a recorded
    session of them, not older than the claim and in no row, has that
    session afterwards. *)
Theorem proven_row_is_adopted q us :
  inbox_faults → NoDup (map sess_id sessions) →
  detect_unowned_running (q_tasks q) sessions clients = inr us →
  ∃ tids q', run_unowned_running_recovery alone sessions clients q = (inr tids, q')
    ∧ ∀ i t s, adoptable sessions clients (q_tasks q) i t s → has_adopted i s.(sess_id) q'.
Proof.
  intros HF Hnd Hd. unfold run_unowned_running_recovery.
  destruct (bool_decide_reflect (clients = ∅)) as [Hc|Hc].
  { exists [], q. split; [done|]. intros i t s (_ & _ & _ & _ & _ & _ & _ & _ & _ & cfg & d & Hcl & _).
    rewrite Hc in Hcl. by apply lookup_empty_Some in Hcl. }
  unfold mbind at 1, M_bind at 1, load_dev_queue, gets. fold (q_tasks q).
  unfold mbind, M_bind, of_sum. rewrite Hd. cbn [mret M_ret].
  pose proof (detect_spec sessions clients _ _ _ _ Hd) as Hus.
  destruct (adopt_each_returns 0 us _ q HF Hus) as [tids Hr]. unfold result in Hr.
  destruct (adopt_each alone 0 us q) as [x q'] eqn:Hrun. cbn in Hr. subst x. exists tids, q'.
  split; [done|]. intros i t s Had. pose proof Had as (Hi & Hsole & _).
  assert (Hin : t ∈ q_tasks q) by by eapply list_elem_of_lookup_2.
  destruct (detect_complete sessions clients _ _ us i t s Hnd Had Hin Hd) as (u & Hu & Hcu).
  pose proof (adopt_each_alone 0 us (q_tasks q) i t s q u HF Hnd Had Hus Hu Hcu) as H.
  unfold exec in H. rewrite Hrun in H. apply H. by left.
Qed.
End Alone.
