(* ===== verification/Spawn.v ===== *)
(** * Spawning a claimed row: [dispatch/claim/spawn.py],
      [dispatch/claim/claimed_row.py], [dispatch/claim/codex_capability.py],
      [gating/context_json.py]

    One spawn of a row [_claim_next_pending] marked RUNNING: the codex
    capability gate, the worktree, the approved-plan bypass, the executor, and
    the routing of every failure on whether a worker already exists.  The
    caller's row is a copy; each queue write re-finds the stored row under the
    lock ([locked]), and any such section may fail before it saves. *)

From S2P Require Import Prelude PyStr Enums Tasks World Vocab Lifecycle GateBackoff.
From S2P Require Import Clients LanePause LaneCircuit LaneDispatch Crud Requeue QueueRows Screening.

#[local] Open Scope cw_scope.
#[local] Open Scope Z_scope.

(** ** Names *)

Definition OPENCODE_BACKEND : string := "opencode".
Definition CODEX_VERSION_PROBE_TIMEOUT : string := "codex_version_probe_timeout".
Definition SESSION_SPAWNED : string := "session.spawned".
Definition SPAWN_POST_LAUNCH_FAILED_REASON : string := "spawn_post_launch_failed".
Definition DIRTY_WORKTREE_DISPOSITION : string := "dirty_worktree".
Definition _OCCUPIED_DEFER_SECONDS : Z := 30.
Definition _CODEX_CAPABILITY_PROBE_TTL_SECONDS : Z := 60.
Definition _CODEX_CAPABILITY_PROBE_TIMEOUT_TTL_SECONDS : Z := 10.
Definition _CODEX_CAPABILITY_PARK_CIRCUIT_THRESHOLD : Z := 3.

(** [isinstance(e, WorktreeError)] and [isinstance(e, OSError)]. *)
Definition is_WorktreeError (e : exn) : bool :=
  match e with WorktreeError | StaleWorktreeError | WorktreeOccupiedError _ _ => true | _ => false end.
Definition is_OSError (e : exn) : bool :=
  match e with OSError | TimeoutError => true | _ => false end.

(** [_INFRA_SPAWN_ERRORS]. *)
Definition is_infra_error (e : exn) : bool :=
  match e with ClaudeBinaryNotFoundError => true | _ => is_OSError e end.

(** ** State and environment *)

Record CodexDiagnosis := mkCodexDiagnosis { diagnosis : option string; detail : string }.

(** The module-level probe cache and park counter. *)
Record CodexGate := mkCodexGate {
  cg_cache : option (CodexDiagnosis * Z);
  cg_parks : Z }.

(** [sp_workers]: the workers launched so far, by session id, whether or not
    anything recorded them.  [sp_session], [sp_worktree]: the two locals the
    failure handler reads. *)
Record SpawnWorld := mkSpawnWorld {
  sp_queue : QueueWorld;
  sp_sections : nat;
  sp_codex : CodexGate;
  sp_workers : list string;
  sp_session : option string;
  sp_worktree : option string }.

#[export] Instance SpawnWorld_eta : RecordEta SpawnWorld := λ w,
  mkSpawnWorld w.(sp_queue) w.(sp_sections) w.(sp_codex) w.(sp_workers) w.(sp_session)
    w.(sp_worktree).
#[export] Instance upd_sp_queue : Updater sp_queue := ltac:(derive_updater).
#[export] Instance upd_sp_sections : Updater sp_sections := ltac:(derive_updater).
#[export] Instance upd_sp_codex : Updater sp_codex := ltac:(derive_updater).
#[export] Instance upd_sp_workers : Updater sp_workers := ltac:(derive_updater).
#[export] Instance upd_sp_session : Updater sp_session := ltac:(derive_updater).
#[export] Instance upd_sp_worktree : Updater sp_worktree := ltac:(derive_updater).

(** Why a locked section or an event record wrote nothing: the lock or the file
    ([OSError]), a corrupt file or value ([ValueError]), a refusal of the lock
    guard. *)
Inductive QueueFault := FaultOS | FaultValue | FaultCw (msg : string).

Definition fault_exn (f : QueueFault) : exn :=
  match f with FaultOS => OSError | FaultValue => ValueError | FaultCw m => CwError m end.

(** What a spawn reads outside the queue.  [queue_fault k]: whether the k-th
    locked section fails, and how many of its events were recorded by then.
    [inbox_fault q e]: whether recording [e] outside a section fails.
    [head_sha k]: the [rev-parse] of the k-th section,
    [Some None] on a [SubprocessError], [None] when git cannot run at all.  [remove_worktree] is [None] when it
    succeeds. *)
Class SpawnEnv := {
  queue_fault : nat → option (QueueFault * nat);
  inbox_fault : QueueWorld → event → option QueueFault;
  codex_probe : nat → CodexDiagnosis;
  create_worktree : string → exn + string;
  live_home_reason : string → option string;
  unsaved_work_reason : string → exn + option string;
  remove_worktree : string → option exn;
  check_not_main_checkout : string → option exn;
  unlink_context_json : string → option exn;
  executor_spawn : string → StageT → TicketTask → string → exn + string;
  head_sha : nat → option (option string);
  str_exc : exn → string }.

Definition on_queue {A} (m : M QueueWorld A) : M SpawnWorld A := λ w,
  let '(r, q) := m w.(sp_queue) in (r, w <| sp_queue := q |>).

Definition raise_if {S} (e : option exn) : M S unit :=
  match e with None => mret tt | Some e => raise e end.

(** ** Outcomes *)

Definition outcome_spawned (error : option string) : SpawnOutcome :=
  mkSpawnOutcome true false None false error false false false.
Definition outcome_usage_limit (reset : option Z) : SpawnOutcome :=
  mkSpawnOutcome false true reset false None false false false.
Definition outcome_error (error : string) (worktree : bool) : SpawnOutcome :=
  mkSpawnOutcome false false None true (Some error) worktree false false.
Definition outcome_occupied (reason : string) : SpawnOutcome :=
  mkSpawnOutcome false false None false (Some reason) false false true.
Definition outcome_parked (breaker : bool) (diag : string) : SpawnOutcome :=
  mkSpawnOutcome false false None breaker (Some diag) false true false.

Section Spawn.
Context {C : Clock} {R : Redactor} {E : OpsEnv} {S : SpawnEnv}.

(** What is left of a section that failed before its save: the first [n] of its
    events. *)
Definition half_recorded {A} (m : M QueueWorld A) (n : nat) (q : QueueWorld) : QueueWorld :=
  let evs := drop (length q.(q_events)) (m q).2.(q_events) in
  q <| q_events := q.(q_events) ++ take n evs |> <| q_ticks := (m q).2.(q_ticks) |>.

(** [with dev_queue_lock(): ...]. *)
Definition locked {A} (m : M QueueWorld A) : M SpawnWorld A :=
  k ← gets sp_sections;
  modify (λ w, w <| sp_sections := Datatypes.S k |>) ;;
  match queue_fault k with
  | Some (f, n) =>
      modify (λ w, w <| sp_queue := half_recorded m n w.(sp_queue) |>) ;;
      raise (fault_exn f)
  | None => on_queue m
  end.

Definition sp_now : M SpawnWorld Z := on_queue q_now.

(** [record_event], outside a section. *)
Definition sp_record (e : event) : M SpawnWorld unit :=
  q ← gets sp_queue;
  match inbox_fault q e with
  | Some f => raise (fault_exn f)
  | None => on_queue (q_record [e])
  end.

(** ** The codex capability gate *)

Definition probe_ttl (d : CodexDiagnosis) : Z :=
  if opt_is d.(diagnosis) CODEX_VERSION_PROBE_TIMEOUT
  then _CODEX_CAPABILITY_PROBE_TIMEOUT_TTL_SECONDS else _CODEX_CAPABILITY_PROBE_TTL_SECONDS.

(** The entry is stamped after the probe returns. *)
Definition _cached_codex_capability_diagnosis : M SpawnWorld CodexDiagnosis :=
  n ← sp_now;
  w ← get;
  let fresh :=
    d ← w.(sp_codex).(cg_cache);
    if n - d.2 <? seconds (probe_ttl d.1) then Some d.1 else None in
  match fresh with
  | Some d => mret d
  | None =>
      let d := codex_probe w.(sp_queue).(q_ticks) in
      n ← sp_now;
      modify (λ w, w <| sp_codex := mkCodexGate (Some (d, n)) w.(sp_codex).(cg_parks) |>) ;;
      mret d
  end.

Definition set_parks (n : Z) : M SpawnWorld unit :=
  modify (λ w, w <| sp_codex := mkCodexGate w.(sp_codex).(cg_cache) n |>).

Section Task.
Context (client_name : string) (c : ClientConfig) (overrides : ConcurrencyOverrides).

Definition claimed_id (task : TicketTask) : RowIdentity :=
  mkRowIdentity (Some task.(created_at)) None.

Definition park_claimed (task : TicketTask) (disp breadcrumbs : string) : M SpawnWorld bool :=
  locked (_park_running_task_blocked_on_user task.(ticket_id) client_name disp breadcrumbs
            (claimed_id task) false None).

Definition revert_claimed (task : TicketTask) (a : RevertArgs) : M SpawnWorld bool :=
  locked (_revert_claimed_task_to_pending client_name task.(ticket_id) (claimed_id task) a).

Definition _codex_capability_gate (task : TicketTask) : M SpawnWorld (option SpawnOutcome) :=
  if negb (String.eqb (resolve_executor_backend task.(stage) task c) CODEX_BACKEND)
  then mret None
  else
    probe ← _cached_codex_capability_diagnosis;
    match probe.(diagnosis) with
    | None => set_parks 0 ;; mret None
    | Some diag =>
        park_claimed task diag probe.(detail) ;;
        n ← gets (λ w, w.(sp_codex).(cg_parks) + 1);
        set_parks n ;;
        mret (Some (outcome_parked (_CODEX_CAPABILITY_PARK_CIRCUIT_THRESHOLD <=? n) diag))
    end.

(** ** The approved-plan bypass

    The stage the caller's row continues with. *)
Definition bypass_row (stages : list StageT) : M World unit :=
  _advance_stage stages Stage.IMPL ;; mret tt.

Definition bypass_section (task : TicketTask) (stages : list StageT) : M QueueWorld StageT :=
  store ← load_dev_queue;
  match list_find (λ t, is_running_row task.(ticket_id) client_name (claimed_id task) t = true)
          store.(tasks) with
  | None => mret task.(stage)
  | Some (i, t) =>
      t' ← on_row t (bypass_row stages);
      save_dev_queue (set_tasks (<[i := t']> store.(tasks)) store) ;;
      mret t'.(stage)
  end.

Definition _apply_plan_bypass_if_available (task : TicketTask) : M SpawnWorld StageT :=
  if bool_decide (task.(regressed_into_stage) = Some Stage.PLAN) then mret task.(stage)
  else
    let stages := resolve_pipeline_stages task c in
    if negb (bool_decide (Stage.IMPL ∈ stages)) then mret task.(stage)
    else if negb (_impl_bypass_plan_available task c false).(available) then mret task.(stage)
    else locked (bypass_section task stages).

(** ** After the launch *)

(** The spawn fields and, when it can be read, the worktree's head. *)
Definition stamp_row (sid : string) (head : option (option string)) : M World unit :=
  assign (_apply_spawn_success_fields sid) ;;
  match head with
  | None => raise OSError
  | Some None => mret tt
  | Some (Some h) => assign (λ t, t <| stage_base_ref := Some (str_strip h) |>)
  end.

Definition _stamp_spawn_success (task : TicketTask) (sid : string) : M SpawnWorld unit :=
  k ← gets sp_sections;
  locked (with_running_row task.(ticket_id) client_name (claimed_id task)
            (stamp_row sid (head_sha k))) ;;
  mret tt.

Definition spawned_event (task : TicketTask) (sid : string) : event :=
  mkEvent SESSION_SPAWNED
    [("ticket_id", JStr task.(ticket_id)); ("client", JStr client_name);
     ("session_id", JStr sid); ("lane", JStr task.(lane))] None.

Definition _finish_launched_task (task : TicketTask) (sid : string) : M SpawnWorld SpawnOutcome :=
  _stamp_spawn_success task sid ;;
  sp_record (spawned_event task sid) ;;
  mret (outcome_spawned None).

(** The page of [emit_spawn_post_launch_attention], without a surface. *)
Definition post_launch_page (task : TicketTask) (sid error : string) : event :=
  mkEvent SESSION_NEEDS_ATTENTION
    [("session_id", JStr sid); ("session_name", JStr ""); ("client", JStr client_name);
     ("ticket_id", JStr task.(ticket_id)); ("claude_session_id", JNull);
     ("paused_status", JStr SPAWN_POST_LAUNCH_FAILED_REASON);
     ("breadcrumbs", JStr ("worker live (session " +:+ sid +:+ "): "
                           +:+ _sanitize_spawn_error_text error));
     ("crashed", JBool false); ("lane", JStr task.(lane))] (Some task.(ticket_id)).

(** A page that cannot be recorded is logged and swallowed. *)
Definition emit_spawn_post_launch_attention (task : TicketTask) (sid error : string)
  : M SpawnWorld unit :=
  try_except (sp_record (post_launch_page task sid error))
    (λ e, if is_CwError e || is_OSError e then mret tt else raise e).

Definition is_launch_error (e : exn) : bool :=
  match e with WorkerLaunchedError _ => true | _ => false end.

Definition _launched_session_id (e : exn) (sid : option string) : option string :=
  match e with WorkerLaunchedError s => Some s | _ => sid end.

Definition _handle_post_launch_failure (task : TicketTask) (e : exn) (sid : string)
  : M SpawnWorld SpawnOutcome :=
  when (negb (is_launch_error e)) (emit_spawn_post_launch_attention task sid (str_exc e)) ;;
  wt ← gets sp_worktree;
  when (is_Some_b wt)
    (try_except (_stamp_spawn_success task sid)
       (λ e, if is_CwError e || is_OSError e then mret tt else raise e)) ;;
  mret (outcome_spawned (Some (str_exc e))).

(** ** Failures without a worker *)

Definition _charges_unproductive_attempt (e : exn) (ln : string) : bool :=
  LaneCircuit._charges_unproductive_attempt (is_infra_error e) overrides client_name ln.

Definition occupied_skip (task : TicketTask) : M SpawnWorld unit :=
  sp_record (tick_event client_name task.(ticket_id)
               DispatchSkipReason.WORKTREE_OCCUPIED []).

Definition release_args : RevertArgs :=
  mkRevertArgs false None (Some (seconds _OCCUPIED_DEFER_SECONDS)) true.

Definition _defer_occupied_claim (task : TicketTask) (reason : string)
  : M SpawnWorld SpawnOutcome :=
  occupied_skip task ;;
  revert_claimed task release_args ;;
  mret (outcome_occupied reason).

Definition _defer_genuinely_live_hook_conflict (task : TicketTask) (e : exn)
  : M SpawnWorld SpawnOutcome :=
  revert_claimed task release_args ;;
  occupied_skip task ;;
  mret (outcome_occupied (str_exc e)).

Definition _handle_hook_context_conflict (task : TicketTask) (e : exn)
  (conflicting : option string) (live : bool) : M SpawnWorld SpawnOutcome :=
  if live then _defer_genuinely_live_hook_conflict task e
  else
    revert_claimed task
      (mkRevertArgs true conflicting None (_charges_unproductive_attempt e task.(lane))) ;;
    mret (outcome_error (str_exc e) false).

Definition _revert_failed_spawn (task : TicketTask) (e : exn) : M SpawnWorld SpawnOutcome :=
  revert_claimed task
    (mkRevertArgs true None None (_charges_unproductive_attempt e task.(lane))) ;;
  mret (outcome_error (str_exc e) (is_WorktreeError e)).

(** ** The worktree *)

Definition _raise_if_stale_tree_occupied (wt : string) : M SpawnWorld unit :=
  match live_home_reason wt with
  | None => mret tt
  | Some reason => raise (WorktreeOccupiedError wt reason)
  end.

(** [contextlib.suppress(WorktreeError, OSError)]. *)
Definition discard_tree (branch_name : string) : M SpawnWorld unit :=
  match remove_worktree branch_name with
  | Some e => if is_WorktreeError e || is_OSError e then mret tt else raise e
  | None => mret tt
  end.

(** A tree on the wrong branch: kept when occupied, parked when dirty, removed
    otherwise; the claim fails in every case. *)
Definition stale_tree {A} (task : TicketTask) (branch_name : string) : M SpawnWorld A :=
  let wt := worktree_path_for c branch_name in
  _raise_if_stale_tree_occupied wt ;;
  unsaved ← of_sum (unsaved_work_reason branch_name);
  match unsaved with
  | Some why =>
      park_claimed task DIRTY_WORKTREE_DISPOSITION (wt +:+ ": " +:+ why) ;; mret tt
  | None => discard_tree branch_name
  end ;;
  raise StaleWorktreeError.

Definition provision (task : TicketTask) (branch_name : string) : M SpawnWorld string :=
  try_except (of_sum (create_worktree branch_name))
    (λ e, if decide (e = StaleWorktreeError) then stale_tree task branch_name else raise e).

Definition _invalidate_stale_context_json (task : TicketTask) (s : StageT) (wt : string)
  : M SpawnWorld unit :=
  if task.(attempts) <=? 1 then mret tt
  else if String.eqb (resolve_executor_backend s task c) LOCAL_BACKEND then mret tt
  else raise_if (unlink_context_json wt).

(** [resolve_executor] refuses an unknown backend. *)
Definition resolve_executor (task : TicketTask) (s : StageT) : M SpawnWorld string :=
  let b := resolve_executor_backend s task c in
  if bool_decide (b ∈ [LOCAL_BACKEND; CODEX_BACKEND; CLAUDE_NATIVE_BACKEND; OPENCODE_BACKEND])
  then mret b else raise ValueError.

(** [executor.spawn]: a worker exists when it returns an id and when it raises
    [WorkerLaunchedError]. *)
Definition launch (b : string) (s : StageT) (task : TicketTask) (wt : string)
  : M SpawnWorld string :=
  let r := executor_spawn b s task wt in
  match r with
  | inr sid | inl (WorkerLaunchedError sid) =>
      modify (λ w, w <| sp_workers := w.(sp_workers) ++ [sid] |>)
  | _ => mret tt
  end ;;
  of_sum r.

(** ** One spawn *)

Definition spawn_body (task : TicketTask) : M SpawnWorld SpawnOutcome :=
  parked ← _codex_capability_gate task;
  match parked with
  | Some o => mret o
  | None =>
      wt ← provision task (resolve_feature_branch task.(ticket_id) (Some c) (Some task));
      modify (λ w, w <| sp_worktree := Some wt |>) ;;
      raise_if (check_not_main_checkout wt) ;;
      s ← (if bool_decide (task.(stage) = Stage.PLAN)
           then _apply_plan_bypass_if_available task else mret task.(stage));
      _invalidate_stale_context_json task s wt ;;
      b ← resolve_executor task s;
      sid ← launch b s (task <| stage := s |>) wt;
      modify (λ w, w <| sp_session := Some sid |>) ;;
      _finish_launched_task task sid
  end.

Definition spawn_failed (task : TicketTask) (e : exn) : M SpawnWorld SpawnOutcome :=
  match e with
  | UsageLimitError reset =>
      revert_claimed task default_revert ;; mret (outcome_usage_limit reset)
  | HookContextConflictError conflicting live =>
      _handle_hook_context_conflict task e conflicting live
  | WorktreeOccupiedError _ reason => _defer_occupied_claim task reason
  | _ =>
      sid ← gets sp_session;
      match _launched_session_id e sid with
      | Some launched => _handle_post_launch_failure task e launched
      | None => _revert_failed_spawn task e
      end
  end.

Definition _spawn_claimed_task (task : TicketTask) : M SpawnWorld SpawnOutcome :=
  modify (λ w, w <| sp_session := None |> <| sp_worktree := None |>) ;;
  try_except (spawn_body task) (spawn_failed task).
End Task.
End Spawn.
