(* ===== verification/SpawnProps.v ===== *)
(** * What one spawn does, step by step

    Each step of [_spawn_claimed_task] as a weakest-precondition rule over
    three states of the claimed row: held (RUNNING, nothing recorded), parked,
    and stamped with the worker's session. *)

From S2P Require Import Prelude PyStr Enums Tasks World Vocab Lifecycle GateBackoff.
From S2P Require Import Clients LanePause LaneCircuit LaneDispatch Crud CrudProps Requeue RequeueProps QueueRows Screening ScreeningProps QueueRowsProps Spawn.

#[local] Open Scope cw_scope.

(** ** Rules *)

Section Rules.
Context {S : Type}.

Lemma wp_mono {A} (m : M S A) (P Q : exn + A → S → Prop) s :
  wp m P s → (∀ r s', P r s' → Q r s') → wp m Q s.
Proof. unfold wp. auto. Qed.

Lemma wp_try {A} (m : M S A) (h : exn → M S A) Q s :
  wp m (λ r s', match r with inl e => wp (h e) Q s' | inr a => Q (inr a) s' end) s →
  wp (try_except m h) Q s.
Proof. unfold wp, result, exec, try_except. by destruct (m s) as [[e|a] s']. Qed.

Lemma wp_seq {A B} (m : M S A) (k : A → M S B) Q s :
  wp m (λ r s', match r with inl e => Q (inl e) s' | inr a => wp (k a) Q s' end) s →
  wp (m ≫= k) Q s.
Proof. apply wp_bind. Qed.

Lemma wp_run {A} (m : M S A) Q s r s' : m s = (r, s') → Q r s' → wp m Q s.
Proof. unfold wp, result, exec. by intros ->. Qed.
End Rules.

Section Steps.
Context {C : Clock} {R : Redactor} {E : OpsEnv} {En : SpawnEnv}.
Context (client_name : string) (c : ClientConfig) (overrides : ConcurrencyOverrides).
Context (task : TicketTask) (i : nat) (w0 : SpawnWorld).

(** The claimed row as the caller holds it. *)
Definition claimed_here : Prop :=
  one_open_row (q_tasks w0.(sp_queue)) ∧ q_tasks w0.(sp_queue) !! i = Some task
  ∧ task.(client) = client_name ∧ task.(status) = QueueItemStatus.RUNNING.

(** What a run may have changed so far: row [i] became [t], and the workers
    [ws] were launched; every other row is as it was. *)
Definition at_row (ws : list string) (t : TicketTask) (w : SpawnWorld) : Prop :=
  w.(sp_queue).(q_store) = put i t w0.(sp_queue).(q_store)
  ∧ w.(sp_workers) = w0.(sp_workers) ++ ws.

(** Only the stage may have moved (the approved-plan bypass). *)
Definition held (t : TicketTask) : Prop :=
  row_key t = row_key task ∧ t.(created_at) = task.(created_at) ∧ t.(lane) = task.(lane)
  ∧ t.(status) = task.(status) ∧ t.(session_id) = task.(session_id)
  ∧ t.(attempts) = task.(attempts) ∧ t.(unproductive_attempts) = task.(unproductive_attempts)
  ∧ t.(spawn_error_count) = task.(spawn_error_count)
  ∧ t.(next_eligible_at) = task.(next_eligible_at).

Definition Held (ws : list string) (w : SpawnWorld) : Prop := ∃ t, held t ∧ at_row ws t w.

(** The row after a park, a revert, a stamp of the held row. *)
Definition Parked (disp : string) (w : SpawnWorld) : Prop :=
  ∃ u t, held u ∧ parked_as disp u t ∧ at_row [] t w.
Definition Reverted (a : RevertArgs) (w : SpawnWorld) : Prop :=
  ∃ u t, held u ∧ reverted_as a u t ∧ at_row [] t w.
Definition Stamped (ws : list string) (sid : string) (w : SpawnWorld) : Prop :=
  ∃ u t, held u ∧ stamped_as sid u t ∧ at_row ws t w.

Definition is_fault (e : exn) : Prop := ∃ f, e = fault_exn f.

(** A queue section leaves the locals, the workers and the codex state. *)
Definition locals (w : SpawnWorld) := (w.(sp_workers), w.(sp_session), w.(sp_worktree), w.(sp_codex)).

Lemma locked_wp {A} (m : M QueueWorld A) (Q : exn + A → SpawnWorld → Prop) w :
  (∀ f w', w'.(sp_queue).(q_store) = w.(sp_queue).(q_store) → locals w' = locals w →
     Q (inl (fault_exn f)) w') →
  (∀ w', w'.(sp_queue) = (m w.(sp_queue)).2 → locals w' = locals w →
     Q (m w.(sp_queue)).1 w') →
  wp (locked m) Q w.
Proof.
  intros Hf Hm. unfold wp, result, exec, locked, mbind, M_bind, gets, modify. cbn.
  destruct (queue_fault _) as [[f n]|]; [by apply Hf|]. unfold on_queue. cbn.
  destruct (m (sp_queue w)) as [r q]. cbn in *. by apply Hm.
Qed.

(** A record outside a section. *)
Lemma record_wp e (Q : exn + unit → SpawnWorld → Prop) w :
  (∀ f, Q (inl (fault_exn f)) w) →
  (∀ w', w'.(sp_queue).(q_store) = w.(sp_queue).(q_store) → locals w' = locals w → Q (inr tt) w') →
  wp (sp_record e) Q w.
Proof.
  intros Hf Hr. unfold wp, result, exec, sp_record, mbind, M_bind, gets. cbn.
  destruct (inbox_fault _ _) as [f|]; [by apply Hf|]. by apply Hr.
Qed.

Context (Hc : claimed_here).

Lemma at_row_frame ws t w w' :
  at_row ws t w → w'.(sp_queue).(q_store) = w.(sp_queue).(q_store) →
  w'.(sp_workers) = w.(sp_workers) → at_row ws t w'.
Proof. unfold at_row. by intros [-> ->] -> ->. Qed.

(** The queue keeps one open row of the ticket, and the row is where it was. *)
Lemma at_row_lookup ws t w :
  at_row ws t w → row_key t = row_key task → is_open t →
  one_open_row (q_tasks w.(sp_queue)) ∧ q_tasks w.(sp_queue) !! i = Some t.
Proof.
  destruct Hc as (Hone & Hi & _ & Hr). intros [Hq _] Hk Ho. unfold q_tasks in *. rewrite Hq. split.
  - cbn. eapply keeps_open_insert; [exact Hi| |done]. intros _. split; [by apply running_open|done].
  - by eapply put_lookup.
Qed.

Lemma held_self : held task.
Proof. by unfold held. Qed.

Lemma held_running t : held t → t.(status) = QueueItemStatus.RUNNING.
Proof. destruct Hc as (_ & _ & _ & Hr). intros H. rewrite <- Hr. apply H. Qed.

Lemma held_found t : held t →
  is_running_row task.(ticket_id) client_name (claimed_id task) t = true.
Proof.
  intros Hh. pose proof (held_running _ Hh) as Hr. destruct Hc as (_ & _ & Hcl & _).
  apply is_running_row_spec. destruct Hh as (Hk & Hcr & _). split_and!; [|done| |done].
  - rewrite Hk. unfold row_key. by rewrite Hcl.
  - intros n [= <-]. done.
Qed.

Lemma claimed_identity : has_identity (claimed_id task).
Proof. left. by eexists. Qed.

Lemma task_key : (task.(ticket_id), client_name) = row_key task.
Proof. unfold row_key. by destruct Hc as (_ & _ & -> & _). Qed.

(** ** Locked sections on the three states *)

Local Abbreviation section m :=
  (locked (with_running_row task.(ticket_id) client_name (claimed_id task) m)).

Lemma locals_workers w w' : locals w' = locals w → w'.(sp_workers) = w.(sp_workers).
Proof. unfold locals. congruence. Qed.

(** A row the section finds, mutated by [m]. *)
Lemma section_hit m t P ws w :
  at_row ws t w → row_key t = row_key task →
  is_running_row task.(ticket_id) client_name (claimed_id task) t = true →
  row_effect m t P →
  wp (section m) (λ r w', locals w' = locals w ∧
    match r with
    | inl e => is_fault e ∧ at_row ws t w'
    | inr b => b = true ∧ ∃ t', P t' ∧ at_row ws t' w'
    end) w.
Proof.
  intros Hat Hk Hr Hm.
  assert (Ho : is_open t) by (apply running_open; by apply is_running_row_spec in Hr as (_&?&_)).
  destruct (at_row_lookup _ _ _ Hat Hk Ho) as [Hone Hi].
  apply locked_wp.
  - intros f w' Hq Hl. split; [done|]. split; [by exists f|].
    eapply at_row_frame; [exact Hat|by rewrite Hq|by apply locals_workers].
  - intros w' Hq Hl. split; [done|].
    destruct (with_running_hit task.(ticket_id) client_name (claimed_id task) m
      w.(sp_queue) i t P) as (t' & q' & Hrun & HP & Hs & _);
      [apply claimed_identity|done|done|by rewrite task_key|done|done|].
    rewrite Hrun in Hq |- *. cbn in Hq |- *. split; [done|]. exists t'. split; [done|].
    destruct Hat as [Hst Hw]. split; [|by rewrite (locals_workers _ _ Hl)].
    by rewrite Hq, Hs, Hst, put_put.
Qed.

(** A row that left RUNNING: the section changes nothing. *)
Lemma section_miss m t ws w :
  at_row ws t w → row_key t = row_key task → is_open t →
  t.(status) ≠ QueueItemStatus.RUNNING →
  wp (section m) (λ r w', locals w' = locals w ∧ at_row ws t w' ∧
    match r with inl e => is_fault e | inr b => b = false end) w.
Proof.
  intros Hat Hk Ho Hr. destruct (at_row_lookup _ _ _ Hat Hk Ho) as [Hone Hi].
  apply locked_wp.
  - intros f w' Hq Hl. split; [done|]. split; [|by exists f].
    eapply at_row_frame; [exact Hat|by rewrite Hq|by apply locals_workers].
  - intros w' Hq Hl. split; [done|].
    destruct (with_running_miss task.(ticket_id) client_name (claimed_id task) m
      w.(sp_queue) i t) as (q' & Hrun & Hs & _);
      [apply claimed_identity|done|done|by rewrite task_key|done|done|].
    rewrite Hrun in Hq |- *. cbn in Hq |- *. split; [|done].
    eapply at_row_frame; [exact Hat|by rewrite Hq|by apply locals_workers].
Qed.

Lemma park_wp disp crumbs w :
  Held [] w →
  wp (park_claimed client_name task disp crumbs) (λ r w', locals w' = locals w ∧
    match r with inl e => is_fault e ∧ Held [] w' | inr _ => Parked disp w' end) w.
Proof.
  intros (t & Ht & Hat). unfold park_claimed.
  eapply wp_mono; [apply (section_hit _ t _ [] w Hat (proj1 Ht) (held_found _ Ht) (park_effect _ _ _ _ t))|].
  intros [e|b] w' [Hl H]; (split; [done|]).
  - destruct H as [He H]. split; [done|]. by exists t.
  - destruct H as (_ & t' & HP & H). by exists t, t'.
Qed.

Lemma revert_wp a w :
  Held [] w →
  wp (revert_claimed client_name task a) (λ r w', locals w' = locals w ∧
    match r with inl e => is_fault e ∧ Held [] w' | inr _ => Reverted a w' end) w.
Proof.
  intros (t & Ht & Hat). unfold revert_claimed.
  eapply wp_mono; [apply (section_hit _ t _ [] w Hat (proj1 Ht) (held_found _ Ht) (revert_effect a t))|].
  intros [e|b] w' [Hl H]; (split; [done|]).
  - destruct H as [He H]. split; [done|]. by exists t.
  - destruct H as (_ & t' & HP & H). by exists t, t'.
Qed.

(** A parked row is not reverted. *)
Lemma revert_parked_wp disp a w :
  Parked disp w →
  wp (revert_claimed client_name task a) (λ r w', locals w' = locals w ∧ Parked disp w' ∧
    match r with inl e => is_fault e | inr _ => True end) w.
Proof.
  intros (u & t & Hu & Hp & Hat). unfold revert_claimed.
  pose proof Hp as (Hk & _ & _ & _ & Hst & _).
  eapply wp_mono; [apply (section_miss _ t [] w Hat)|].
  - rewrite Hk. apply Hu.
  - unfold is_open. by rewrite Hst.
  - by rewrite Hst.
  - intros [e|b] w' (Hl & H & Hr); (split; [done|]); (split; [by exists u, t|done]).
Qed.

(** *** The stamp *)

Lemma stamp_effect sid h t : row_effect (stamp_row sid (Some h)) t (stamped_as sid t).
Proof.
  intros evs n. pose proof (spawn_fields_stamped sid t) as Hs. unfold stamp_row.
  setoid_rewrite (bind_run _ _ _ _ _ (assign_run (_apply_spawn_success_fields sid) t evs n)).
  revert Hs. generalize (_apply_spawn_success_fields sid t). intros u Hs.
  destruct h as [h|]; (do 2 eexists; exists n; split; [by rewrite app_nil_r|]); [|exact Hs].
  unfold stamped_as in *. exact Hs.
Qed.

Lemma stamped_trans sid u t t' :
  stamped_as sid u t → stamped_as sid t t' → stamped_as sid u t'.
Proof. unfold stamped_as. intuition congruence. Qed.

(** The row of a launched worker: recorded or not, never given back. *)
Definition Owned (ws : list string) (sid : string) (w : SpawnWorld) : Prop :=
  Held ws w ∨ Stamped ws sid w.

Lemma owned_row ws sid w : Owned ws sid w →
  ∃ t, at_row ws t w ∧ row_key t = row_key task
  ∧ is_running_row task.(ticket_id) client_name (claimed_id task) t = true
  ∧ (∀ t', stamped_as sid t t' → ∃ u, held u ∧ stamped_as sid u t')
  ∧ (∀ w', at_row ws t w' → Owned ws sid w').
Proof.
  intros [(t & Ht & Hat)|(u & t & Hu & Hs & Hat)].
  - exists t. split_and!; [done|apply Ht|by apply held_found| |].
    + intros t' Hs. by exists t.
    + intros w' H. left. by exists t.
  - exists t. pose proof Hs as (Hk & Hcr & _ & _ & Hst & _).
    assert (Hk' : row_key t = row_key task) by (rewrite Hk; apply Hu).
    split_and!; [done|done| | |].
    + apply is_running_row_spec. split_and!; [by rewrite task_key| | |done].
      * rewrite Hst. by apply held_running.
      * intros n [= <-]. rewrite Hcr. apply Hu.
    + intros t' Hs'. exists u. split; [done|by eapply stamped_trans].
    + intros w' H. right. by exists u, t.
Qed.

Lemma stamp_wp sid ws w :
  Owned ws sid w →
  wp (_stamp_spawn_success client_name task sid) (λ r w', locals w' = locals w ∧
    match r with
    | inl e => (is_fault e ∨ e = OSError) ∧ Owned ws sid w'
    | inr _ => Stamped ws sid w'
    end) w.
Proof.
  intros Ho. destruct (owned_row _ _ _ Ho) as (t & Hat & Hk & Hr & Hstamp & Hback).
  unfold _stamp_spawn_success. apply wp_seq. apply (wp_run _ _ _ (inr w.(sp_sections)) w); [done|].
  apply wp_seq. destruct (head_sha _) as [h|].
  - eapply wp_mono; [apply (section_hit _ t _ ws w Hat Hk Hr (stamp_effect sid h t))|].
    intros [e|b] w' [Hl H].
    + destruct H as [He H]. split_and!; [done|by left|by apply Hback].
    + destruct H as (_ & t' & HP & H). split; [done|].
      destruct (Hstamp _ HP) as (u & Hu & Hs). by exists u, t'.
  - apply locked_wp.
    + intros f w' Hq Hl. split_and!; [done|left; by exists f|]. apply Hback.
      eapply at_row_frame; [exact Hat|by rewrite Hq|by apply locals_workers].
    + intros w' Hq Hl.
      assert (Hop : is_open t) by (apply running_open; by apply is_running_row_spec in Hr as (_&?&_)).
      destruct (at_row_lookup _ _ _ Hat Hk Hop) as [Hone Hi].
      destruct (with_running_raise task.(ticket_id) client_name (claimed_id task)
        (stamp_row sid None) w.(sp_queue) i t OSError) as (q' & Hrun & Hs);
        [apply claimed_identity|done|done|by rewrite task_key|done|by eexists|].
      rewrite Hrun in Hq |- *. cbn in Hq |- *. split_and!; [done|by right|]. apply Hback.
      eapply at_row_frame; [exact Hat|by rewrite Hq|by apply locals_workers].
Qed.

(** *** The bypass *)

Definition carried (t : TicketTask) :=
  (row_key t, t.(created_at), t.(lane), t.(status), t.(session_id), t.(attempts),
   t.(unproductive_attempts), t.(spawn_error_count), t.(next_eligible_at)).

Lemma carried_held t u : carried t = carried u → held u → held t.
Proof. unfold carried, held, row_key. intros H. injection H. intuition congruence. Qed.

Lemma bypass_effect stages t :
  Stage.IMPL ∈ stages → row_effect (bypass_row stages) t (λ t', carried t' = carried t).
Proof.
  intros Hin evs n. unfold bypass_row.
  rewrite (bind_run _ _ _ _ _ (advance_stage_effect stages Stage.IMPL t Hin evs n)).
  do 3 eexists. split; [done|].
  rewrite (lift_high_water_frame carried), (move_stage_frame carried); done.
Qed.

Lemma bypass_section_run stages t q :
  Stage.IMPL ∈ stages → held t → one_open_row (q_tasks q) → q_tasks q !! i = Some t →
  ∃ t' q', bypass_section client_name task stages q = (inr t'.(stage), q')
    ∧ carried t' = carried t ∧ q'.(q_store) = put i t' q.(q_store).
Proof.
  intros Hin Ht Hone Hi. unfold bypass_section.
  unfold mbind at 1, M_bind at 1, load_dev_queue, gets.
  rewrite (find_running task.(ticket_id) client_name _ (q_store q) i t);
    [|exact Hone|exact Hi|apply running_open; by apply held_running|rewrite task_key; apply Ht].
  rewrite (held_found _ Ht).
  destruct (bypass_effect stages t Hin (q_events q) (q_ticks q)) as (t' & evs & k & Hrun & Hf).
  unfold mbind, M_bind, on_row. rewrite Hrun. do 2 eexists. split; [reflexivity|]. done.
Qed.

Lemma bypass_wp w :
  Held [] w →
  wp (_apply_plan_bypass_if_available client_name c task) (λ r w', locals w' = locals w ∧
    Held [] w' ∧ match r with inl e => is_fault e | inr _ => True end) w.
Proof.
  intros Hh. unfold _apply_plan_bypass_if_available.
  destruct (bool_decide _); [done|].
  destruct (bool_decide (Stage.IMPL ∈ _)) eqn:Hin; cbn [negb]; [|done].
  apply bool_decide_eq_true in Hin. destruct (negb _); [done|].
  destruct Hh as (t & Ht & Hat).
  destruct (at_row_lookup _ _ _ Hat (proj1 Ht) (running_open _ (held_running _ Ht))) as [Hone Hi].
  apply locked_wp.
  - intros f w' Hq Hl. split_and!; [done| |by exists f]. exists t. split; [done|].
    eapply at_row_frame; [exact Hat|by rewrite Hq|by apply locals_workers].
  - intros w' Hq Hl.
    destruct (bypass_section_run _ t _ Hin Ht Hone Hi) as (t' & q' & Hrun & Hf & Hs).
    rewrite Hrun in Hq |- *. cbn in Hq |- *. split_and!; [done| |done].
    exists t'. split; [by eapply carried_held|].
    destruct Hat as [Hst Hw]. split; [|by rewrite (locals_workers _ _ Hl)].
    by rewrite Hq, Hs, Hst, put_put.
Qed.

(** ** The codex gate *)

Lemma probe_wp w :
  Held [] w →
  wp _cached_codex_capability_diagnosis (λ r w', Held [] w'
    ∧ w'.(sp_session) = w.(sp_session) ∧ w'.(sp_worktree) = w.(sp_worktree)
    ∧ match r with inl _ => False | inr _ => True end) w.
Proof.
  intros (t & Ht & Hat). unfold _cached_codex_capability_diagnosis.
  apply wp_seq. eapply wp_run; [reflexivity|].
  apply wp_seq. eapply wp_run; [reflexivity|]. cbn beta iota.
  destruct (d ← _; _) as [d|].
  - apply wp_ret. split_and!; try done. by exists t.
  - apply wp_seq. eapply wp_run; [reflexivity|]. apply wp_seq. eapply wp_run; [reflexivity|].
    apply wp_ret. split_and!; try done. by exists t.
Qed.

Lemma codex_gate_wp w :
  Held [] w →
  wp (_codex_capability_gate client_name c task) (λ r w',
    w'.(sp_session) = w.(sp_session) ∧ w'.(sp_worktree) = w.(sp_worktree) ∧
    match r with
    | inl e => is_fault e ∧ Held [] w'
    | inr None => Held [] w'
    | inr (Some o) => ∃ b d, o = outcome_parked b d ∧ Parked d w'
    end) w.
Proof.
  intros Hh. unfold _codex_capability_gate. destruct (negb _); [done|].
  apply wp_seq. eapply wp_mono; [by apply probe_wp|].
  intros [e|probe] w1 (H1 & Hs & Hw & Hr); [done|].
  destruct (diagnosis probe) as [d|].
  - apply wp_seq. eapply wp_mono; [by apply park_wp|].
    intros [e|b] w2 [Hl H2]; injection Hl as _ Hl1 Hl2 _.
    + split_and!; [congruence|congruence|apply H2|apply H2].
    + apply wp_seq. eapply wp_run; [reflexivity|]. apply wp_seq. eapply wp_run; [reflexivity|].
      apply wp_ret. cbn. split_and!; [congruence|congruence|]. do 2 eexists. split; [reflexivity|].
      destruct H2 as (u & t & Hu & Hp & Hat). by exists u, t.
  - apply wp_seq. eapply wp_run; [reflexivity|]. apply wp_ret. split_and!; [done|done|].
    destruct H1 as (t & Ht & Hat). by exists t.
Qed.

(** ** The body *)

Definition plain (e : exn) : Prop := is_launch_error e = false.

(** Only the executor announces a launched worker by raising. *)
Record worktree_contract : Prop := {
  create_plain : ∀ b e, create_worktree b = inl e → plain e;
  unsaved_plain : ∀ b e, unsaved_work_reason b = inl e → plain e;
  remove_plain : ∀ b e, remove_worktree b = Some e → plain e;
  check_plain : ∀ wt e, check_not_main_checkout wt = Some e → plain e;
  unlink_plain : ∀ wt e, unlink_context_json wt = Some e → plain e }.

Context (Hwt : worktree_contract).

(** A failure without a worker; with one. *)
Definition Failed (e : exn) (w : SpawnWorld) : Prop :=
  plain e ∧ w.(sp_session) = None
  ∧ (Held [] w ∨ e = StaleWorktreeError ∧ Parked DIRTY_WORKTREE_DISPOSITION w).

Definition Lost (e : exn) (sid : string) (w : SpawnWorld) : Prop :=
  (e = WorkerLaunchedError sid ∨ w.(sp_session) = Some sid ∧ (is_fault e ∨ e = OSError))
  ∧ Owned [sid] sid w.

Lemma fault_plain e : is_fault e → plain e.
Proof. by intros [[] ->]. Qed.

Definition idle (w : SpawnWorld) : Prop := Held [] w ∧ w.(sp_session) = None.

Lemma idle_failed e w : idle w → plain e → Failed e w.
Proof. intros [H Hs] He. by split_and!; [| |left]. Qed.

Lemma locals_session w w' : locals w' = locals w → w'.(sp_session) = w.(sp_session).
Proof. unfold locals. congruence. Qed.

(** A step that keeps the row held or fails without a worker. *)
Definition step_of {A} (r : exn + A) (w : SpawnWorld) : Prop :=
  match r with inl e => Failed e w | inr _ => idle w end.

Lemma raise_if_wp (o : option exn) w :
  (∀ e, o = Some e → plain e) → idle w → wp (raise_if o) step_of w.
Proof.
  intros He Hi. destruct o as [e|]; [|exact Hi]. apply (idle_failed _ _ Hi). by apply He.
Qed.

Lemma of_sum_wp {A} (r : exn + A) w :
  (∀ e, r = inl e → plain e) → idle w → wp (of_sum r) (λ r' w', r' = r ∧ step_of r' w') w.
Proof.
  intros He Hi. destruct r as [e|a]; (split; [done|]); [apply (idle_failed _ _ Hi); by apply He|done].
Qed.

Lemma discard_wp b w : idle w → wp (discard_tree b) step_of w.
Proof.
  intros Hi. unfold discard_tree. destruct (remove_worktree b) as [e|] eqn:He; [|exact Hi].
  destruct (_ || _); [exact Hi|]. apply (idle_failed _ _ Hi). by eapply remove_plain.
Qed.

Lemma stale_tree_wp {A} b w :
  idle w → wp (stale_tree client_name c task b : M SpawnWorld A)
    (λ r w', match r with inl e => Failed e w' | inr _ => False end) w.
Proof.
  intros Hi. unfold stale_tree. apply wp_seq. unfold _raise_if_stale_tree_occupied.
  destruct (live_home_reason _) as [reason|]; [by apply (idle_failed _ _ Hi)|].
  apply wp_ret. apply wp_seq.
  eapply wp_mono; [apply of_sum_wp; [by apply unsaved_plain|exact Hi]|].
  intros r w1 [_ H1]. destruct r as [e|[why|]]; cbn in H1; [done| |].
  - apply wp_seq, wp_seq. destruct H1 as [Hh Hs].
    eapply wp_mono; [by apply park_wp|]. intros [e|b1] w2 [Hl%locals_session H2].
    + destruct H2 as [Hf H2]. apply idle_failed; [|by apply fault_plain]. split; [done|congruence].
    + apply wp_ret. split_and!; [done|by etransitivity|]. by right.
  - apply wp_seq. eapply wp_mono; [by apply discard_wp|].
    intros [e|[]] w2 H2; [exact H2|]. by apply (idle_failed _ _ H2).
Qed.

Lemma provision_wp b w : idle w → wp (provision client_name c task b) step_of w.
Proof.
  intros Hi. unfold provision. apply wp_try.
  destruct (create_worktree b) as [e|wt] eqn:Hcr; (eapply wp_run; [reflexivity|]); [|exact Hi].
  cbn beta iota. destruct (decide (e = StaleWorktreeError)).
  - eapply wp_mono; [by apply stale_tree_wp|]. by intros [e'|[]] w' H.
  - apply (idle_failed _ _ Hi). by eapply create_plain.
Qed.

Lemma invalidate_wp s wt w :
  idle w → wp (_invalidate_stale_context_json c task s wt) step_of w.
Proof.
  intros Hi. unfold _invalidate_stale_context_json. destruct (_ <=? 1)%Z; [exact Hi|].
  destruct (String.eqb _ _); [exact Hi|]. apply raise_if_wp; [by apply unlink_plain|done].
Qed.

Lemma resolve_executor_wp s w : idle w → wp (resolve_executor c task s) step_of w.
Proof.
  intros Hi. unfold resolve_executor. destruct (bool_decide _); [exact Hi|].
  by apply (idle_failed _ _ Hi).
Qed.

Lemma launch_wp b s t wt w :
  idle w → wp (launch b s t wt) (λ r w', match r with
    | inl e => Failed e w' ∨ ∃ sid, e = WorkerLaunchedError sid ∧ Held [sid] w'
    | inr sid => Held [sid] w'
    end) w.
Proof.
  intros [(u & Hu & Hat) Hs]. unfold launch. cbv zeta. destruct Hat as [Hq Hw].
  assert (Hl : ∀ sid w', w'.(sp_queue) = w.(sp_queue) → w'.(sp_workers) = w.(sp_workers) ++ [sid] →
    Held [sid] w').
  { intros sid w' H1 H2. exists u. split; [done|]. unfold at_row. rewrite H1, H2, Hw.
    by rewrite app_nil_r. }
  destruct (executor_spawn b s t wt) as [e|sid]; [destruct e|]; try
    (left; split_and!; [done|exact Hs|left; by exists u]).
  - right. exists session_id. split; [done|]. by apply Hl.
  - by apply Hl.
Qed.

Definition body_done (r : exn + SpawnOutcome) (w : SpawnWorld) : Prop :=
  match r with
  | inr o => (∃ b d, o = outcome_parked b d ∧ Parked d w)
             ∨ (∃ sid, o = outcome_spawned None ∧ Stamped [sid] sid w)
  | inl e => Failed e w ∨ ∃ sid, Lost e sid w
  end.

Lemma stamped_frame ws sid w w' :
  Stamped ws sid w → w'.(sp_queue).(q_store) = w.(sp_queue).(q_store) →
  w'.(sp_workers) = w.(sp_workers) → Stamped ws sid w'.
Proof.
  intros (u & t & Hu & Hs & Hat) H1 H2. exists u, t. split_and!; [done|done|by eapply at_row_frame].
Qed.

Lemma finish_wp sid w :
  Held [sid] w → w.(sp_session) = Some sid →
  wp (_finish_launched_task client_name task sid) body_done w.
Proof.
  intros Hh Hs. unfold _finish_launched_task. apply wp_seq.
  eapply wp_mono; [apply stamp_wp; by left|]. intros [e|[]] w1 [Hl%locals_session H1].
  - right. exists sid. destruct H1 as [He Ho]. split; [right; split; [congruence|done]|done].
  - apply wp_seq. apply record_wp.
    + intros f. right. exists sid. split; [|by right]. right.
      split; [congruence|left; by exists f].
    + intros w2 Hq Hl2. apply wp_ret. right. exists sid. split; [done|].
      eapply stamped_frame; [done|done|by apply locals_workers].
Qed.

Lemma body_wp w : idle w → wp (spawn_body client_name c task) body_done w.
Proof.
  intros Hi. unfold spawn_body. apply wp_seq. destruct Hi as [Hh Hs].
  eapply wp_mono; [by apply codex_gate_wp|].
  intros [e|[o|]] w1 (Hs1 & _ & H1).
  { left. destruct H1 as [Hf H1]. apply idle_failed; [split; [done|congruence]|by apply fault_plain]. }
  { apply wp_ret. left. exact H1. }
  assert (Hi1 : idle w1) by (split; [done|congruence]). clear Hh Hs Hs1 H1.
  apply wp_seq. eapply wp_mono; [by apply provision_wp|]. intros [e|wt] w2 Hi2; [by left|].
  apply wp_seq. eapply wp_run; [reflexivity|].
  assert (Hi3 : idle (w2 <| sp_worktree := Some wt |>)).
  { destruct Hi2 as [(t & Ht & Hat) Hs]. split; [by exists t|done]. }
  clear Hi1 Hi2. generalize dependent (w2 <| sp_worktree := Some wt |>). intros w3 Hi3.
  apply wp_seq. eapply wp_mono; [apply raise_if_wp; [by apply check_plain|done]|].
  intros [e|[]] w4 Hi4; [by left|].
  apply wp_seq. apply (wp_mono _ step_of).
  { destruct (bool_decide _); [|exact Hi4]. destruct Hi4 as [Hh Hs].
    eapply wp_mono; [by apply bypass_wp|]. intros r w5 (Hl%locals_session & Hh5 & Hr).
    assert (Hi5 : idle w5) by (split; [done|congruence]).
    destruct r as [e|s]; [apply (idle_failed _ _ Hi5); by apply fault_plain|done]. }
  intros [e|s] w5 Hi5; [by left|].
  apply wp_seq. eapply wp_mono; [by apply invalidate_wp|]. intros [e|[]] w6 Hi6; [by left|].
  apply wp_seq. eapply wp_mono; [by apply resolve_executor_wp|]. intros [e|b] w7 Hi7; [by left|].
  apply wp_seq. eapply wp_mono; [by apply launch_wp|]. intros [e|sid] w8 H8.
  { destruct H8 as [H8|(sid & -> & H8)]; [by left|]. right. exists sid. split; [by left|by left]. }
  apply wp_seq. eapply wp_run; [reflexivity|]. apply finish_wp; [|done].
  destruct H8 as (t & Ht & Hat). by exists t.
Qed.

(** ** The handler *)

(** How a failure without a worker gives the row back. *)
Definition given_back (e : exn) (o : SpawnOutcome) (w : SpawnWorld) : Prop :=
  let charge := _charges_unproductive_attempt client_name overrides e task.(lane) in
  match e with
  | UsageLimitError reset => o = outcome_usage_limit reset ∧ Reverted default_revert w
  | HookContextConflictError conflicting live =>
      if live then o = outcome_occupied (str_exc e) ∧ Reverted release_args w
      else o = outcome_error (str_exc e) false
           ∧ Reverted (mkRevertArgs true conflicting None charge) w
  | WorktreeOccupiedError _ reason => o = outcome_occupied reason ∧ Reverted release_args w
  | _ => o = outcome_error (str_exc e) (is_WorktreeError e)
         ∧ (Reverted (mkRevertArgs true None None charge) w
            ∨ e = StaleWorktreeError ∧ Parked DIRTY_WORKTREE_DISPOSITION w)
  end.

(** Every way one spawn ends. *)
Inductive spawn_ends (w : SpawnWorld) : exn + SpawnOutcome → Prop :=
  | ends_parked b d : Parked d w → spawn_ends w (inr (outcome_parked b d))
  | ends_spawned sid : Stamped [sid] sid w → spawn_ends w (inr (outcome_spawned None))
  | ends_kept sid e : Owned [sid] sid w → spawn_ends w (inr (outcome_spawned (Some (str_exc e))))
  | ends_given_back e o : given_back e o w → spawn_ends w (inr o)
  | ends_unreverted e :
      is_fault e →
      (Held [] w ∨ Parked DIRTY_WORKTREE_DISPOSITION w) ∨ Reverted release_args w →
      spawn_ends w (inl e)
  | ends_unstamped sid : Owned [sid] sid w → spawn_ends w (inl ValueError).

Lemma reverted_frame a w w' :
  Reverted a w → w'.(sp_queue).(q_store) = w.(sp_queue).(q_store) →
  w'.(sp_workers) = w.(sp_workers) → Reverted a w'.
Proof.
  intros (u & t & Hu & Hs & Hat) H1 H2. exists u, t. split_and!; [done|done|by eapply at_row_frame].
Qed.

Lemma held_frame ws w w' :
  Held ws w → w'.(sp_queue).(q_store) = w.(sp_queue).(q_store) →
  w'.(sp_workers) = w.(sp_workers) → Held ws w'.
Proof. intros (t & Ht & Hat) H1 H2. exists t. split; [done|by eapply at_row_frame]. Qed.

Lemma owned_frame ws sid w w' :
  Owned ws sid w → w'.(sp_queue).(q_store) = w.(sp_queue).(q_store) →
  w'.(sp_workers) = w.(sp_workers) → Owned ws sid w'.
Proof.
  intros [H|H] ? ?; [left; by eapply held_frame|right; by eapply stamped_frame].
Qed.

(** A revert of the held row, then an outcome. *)
Lemma revert_then a (o : SpawnOutcome) w :
  Held [] w →
  wp (revert_claimed client_name task a ;; mret o) (λ r w', match r with
    | inl e => is_fault e ∧ Held [] w'
    | inr o' => o' = o ∧ Reverted a w'
    end) w.
Proof.
  intros Hh. apply wp_seq. eapply wp_mono; [by apply revert_wp|].
  intros [e|b] w' [_ H]; [exact H|]. apply wp_ret. by split.
Qed.

Lemma revert_or_fault a (o : SpawnOutcome) w :
  Held [] w →
  wp (revert_claimed client_name task a ;; mret o) (λ r w', match r with
    | inl e => is_fault e ∧ (Held [] w' ∨ Reverted release_args w')
    | inr o' => o' = o ∧ Reverted a w'
    end) w.
Proof.
  intros Hh. eapply wp_mono; [by apply revert_then|]. intros [e|o'] w' H; [|done].
  destruct H. auto.
Qed.

Lemma given_back_wp e (m : M SpawnWorld SpawnOutcome) (P : SpawnOutcome → SpawnWorld → Prop) w :
  (∀ o w', P o w' → given_back e o w') →
  wp m (λ r w', match r with
    | inl e => is_fault e ∧ (Held [] w' ∨ Reverted release_args w')
    | inr o => P o w'
    end) w →
  wp m (λ r w', spawn_ends w' r) w.
Proof.
  intros HP Hm. eapply wp_mono; [exact Hm|]. intros [e'|o] w' H.
  - destruct H as [Hf H]. apply ends_unreverted; [done|]. destruct H; auto.
  - apply (ends_given_back _ e). by apply HP.
Qed.

Lemma skip_wp (m : M SpawnWorld SpawnOutcome) (Q : exn + SpawnOutcome → SpawnWorld → Prop) w :
  (∀ f, Q (inl (fault_exn f)) w) →
  (∀ w', w'.(sp_queue).(q_store) = w.(sp_queue).(q_store) → w'.(sp_workers) = w.(sp_workers) →
     wp m Q w') →
  wp (occupied_skip client_name task ;; m) Q w.
Proof.
  intros Hf H. apply wp_seq, record_wp; [done|]. intros w' Hq Hl.
  apply H; [done|by apply locals_workers].
Qed.

Lemma defer_wp reason w :
  Held [] w →
  wp (_defer_occupied_claim client_name task reason) (λ r w', match r with
    | inl e => is_fault e ∧ (Held [] w' ∨ Reverted release_args w')
    | inr o => o = outcome_occupied reason ∧ Reverted release_args w'
    end) w.
Proof.
  intros Hh. unfold _defer_occupied_claim. apply skip_wp.
  { intros f. split; [by exists f|by left]. }
  intros w' H1 H2. apply revert_or_fault. by eapply held_frame.
Qed.

Lemma defer_live_wp e w :
  Held [] w →
  wp (_defer_genuinely_live_hook_conflict client_name task e) (λ r w', match r with
    | inl e => is_fault e ∧ (Held [] w' ∨ Reverted release_args w')
    | inr o => o = outcome_occupied (str_exc e) ∧ Reverted release_args w'
    end) w.
Proof.
  intros Hh. unfold _defer_genuinely_live_hook_conflict. apply wp_seq.
  eapply wp_mono; [by apply revert_wp|]. intros [e'|b] w1 [_ H1]; [destruct H1; auto|].
  apply skip_wp. { intros f. split; [by exists f|by right]. } intros w' H2 H3. apply wp_ret. split; [done|by eapply reverted_frame].
Qed.

(** The broad handler, without and with a worker. *)
Lemma broad_wp e w :
  Held [] w ∨ e = StaleWorktreeError ∧ Parked DIRTY_WORKTREE_DISPOSITION w →
  wp (_revert_failed_spawn client_name overrides task e) (λ r w', match r with
    | inl f => is_fault f ∧ (Held [] w' ∨ Parked DIRTY_WORKTREE_DISPOSITION w')
    | inr o => o = outcome_error (str_exc e) (is_WorktreeError e)
       ∧ (Reverted (mkRevertArgs true None None
                      (_charges_unproductive_attempt client_name overrides e task.(lane))) w'
          ∨ e = StaleWorktreeError ∧ Parked DIRTY_WORKTREE_DISPOSITION w')
    end) w.
Proof.
  intros [Hh|[He Hp]]; unfold _revert_failed_spawn.
  - eapply wp_mono; [by apply revert_then|]. intros [f|o] w' H.
    + destruct H as [Hf H]. split; [done|by left].
    + destruct H as [Ho H]. split; [done|by left].
  - apply wp_seq. eapply wp_mono; [by apply revert_parked_wp|]. intros [f|b] w' (_ & H & Hf).
    + split; [done|by right].
    + apply wp_ret. split; [done|by right].
Qed.

Lemma post_launch_wp e sid w :
  Owned [sid] sid w →
  wp (_handle_post_launch_failure client_name task e sid) (λ r w', spawn_ends w' r) w.
Proof.
  intros Ho. unfold _handle_post_launch_failure.
  assert (Hpage : ∀ k : M SpawnWorld SpawnOutcome,
    (∀ w', Owned [sid] sid w' → wp k (λ r w', spawn_ends w' r) w') →
    wp (when (negb (is_launch_error e))
          (emit_spawn_post_launch_attention client_name task sid (str_exc e)) ;; k)
       (λ r w', spawn_ends w' r) w).
  { intros k Hk. apply wp_seq. destruct (negb _); [|eapply wp_run; [reflexivity|]; by apply Hk].
    cbn [when]. apply wp_try, record_wp.
    - intros f. destruct f; (eapply wp_run; [reflexivity|]); try by apply Hk.
      by apply (ends_unstamped _ sid).
    - intros w' Hq Hl. apply Hk. eapply owned_frame; [done|done|by apply locals_workers]. }
  apply Hpage. intros w1 H1. apply wp_seq. eapply wp_run; [reflexivity|].
  apply wp_seq. destruct (is_Some_b _); cbn [when].
  - apply wp_try. eapply wp_mono; [by apply stamp_wp|]. intros [e'|[]] w2 [_ H2].
    + destruct H2 as [He' H2]. destruct (is_CwError e' || is_OSError e') eqn:Hc'.
      * apply wp_ret, wp_ret. by apply (ends_kept _ sid e).
      * apply (wp_run _ _ _ (inl e') w2); [done|].
        assert (e' = ValueError) as ->
          by (destruct He' as [[[] ->]| ->]; cbn in Hc'; done).
        by apply (ends_unstamped _ sid).
    + apply wp_ret. apply (ends_kept _ sid e). by right.
  - apply wp_ret, wp_ret. by apply (ends_kept _ sid e).
Qed.

Lemma failed_wp e w :
  Failed e w → wp (spawn_failed client_name overrides task e) (λ r w', spawn_ends w' r) w.
Proof.
  intros (Hpl & Hs & Hrow).
  assert (Hheld : e ≠ StaleWorktreeError → Held [] w) by (intros Hne; by destruct Hrow as [?|[? _]]).
  assert (Hbroad : given_back e = (λ o w', o = outcome_error (str_exc e) (is_WorktreeError e)
      ∧ (Reverted (mkRevertArgs true None None
                     (_charges_unproductive_attempt client_name overrides e task.(lane))) w'
         ∨ e = StaleWorktreeError ∧ Parked DIRTY_WORKTREE_DISPOSITION w')) →
    wp (sid ← gets sp_session; match _launched_session_id e sid with
          | Some launched => _handle_post_launch_failure client_name task e launched
          | None => _revert_failed_spawn client_name overrides task e end)
       (λ r w', spawn_ends w' r) w).
  { intros Hg. apply wp_seq. eapply wp_run; [reflexivity|]. rewrite Hs.
    assert (_launched_session_id e None = None) as -> by (by destruct e).
    eapply wp_mono; [by apply broad_wp|]. intros [f|o] w' H.
    - destruct H as [Hf H]. apply ends_unreverted; [done|by left].
    - apply (ends_given_back _ e). by rewrite Hg. }
  destruct e; try (apply Hbroad; reflexivity).
  - refine (given_back_wp (WorktreeOccupiedError path reason) _ _ _ _ (defer_wp _ _ (Hheld _)));
      [|done]. by intros o w' H.
  - cbn [spawn_failed]. unfold _handle_hook_context_conflict.
    destruct genuinely_live.
    + refine (given_back_wp (HookContextConflictError conflicting_session_id true) _ _ _ _
        (defer_live_wp _ _ (Hheld _))); [|done]. by intros o w' H.
    + refine (given_back_wp (HookContextConflictError conflicting_session_id false) _ _ _ _
        (revert_or_fault _ _ _ (Hheld _))); [|done]. by intros o w' H.
  - refine (given_back_wp (UsageLimitError reset_at) _ _ _ _ (revert_or_fault _ _ _ (Hheld _)));
      [|done]. by intros o w' H.
Qed.

Lemma lost_wp e sid w :
  Lost e sid w → wp (spawn_failed client_name overrides task e) (λ r w', spawn_ends w' r) w.
Proof.
  intros [He Ho].
  assert (Hk : ∀ o, _launched_session_id e o = Some sid → w.(sp_session) = o →
    wp (sid ← gets sp_session; match _launched_session_id e sid with
          | Some launched => _handle_post_launch_failure client_name task e launched
          | None => _revert_failed_spawn client_name overrides task e end)
       (λ r w', spawn_ends w' r) w).
  { intros o Hl Hs. apply wp_seq. eapply wp_run; [reflexivity|]. rewrite Hs, Hl.
    by apply post_launch_wp. }
  destruct He as [ -> |[Hs [[[] ->]| ->]]]; by eapply Hk.
Qed.

Lemma spawn_wp : 
  at_row [] task w0 →
  wp (_spawn_claimed_task client_name c overrides task) (λ r w', spawn_ends w' r) w0.
Proof.
  intros Hat. unfold _spawn_claimed_task. apply wp_seq. eapply wp_run; [reflexivity|].
  apply wp_try. eapply wp_mono; [apply body_wp; split; [exists task; split; [apply held_self|done]|done]|].
  intros [e|o] w1 H1.
  - destruct H1 as [H1|[sid H1]]; [by apply failed_wp|by eapply lost_wp].
  - destruct H1 as [(b & d & -> & H1)|(sid & -> & H1)]; [by apply ends_parked|by eapply ends_spawned].
Qed.
End Steps.
