(* ===== verification/SpawnContract.v ===== *)
(** * The contract of a spawn

    After one spawn of a claimed row that returned, a worker exists exactly when
    the row is still RUNNING; what each failure charges; and a claim
    released over an occupied worktree leaves no trace but a short wait. *)

From S2P Require Import Prelude PyStr Enums Tasks World Vocab Lifecycle GateBackoff.
From S2P Require Import Clients LanePause LaneCircuit LaneDispatch Crud CrudProps Requeue RequeueProps QueueRows Screening ScreeningProps ClaimOrder ClaimContract QueueRowsProps Spawn SpawnProps.

#[local] Open Scope cw_scope.

Section Contract.
Context {C : Clock} {R : Redactor} {E : OpsEnv} {En : SpawnEnv}.
Context (client_name : string) (c : ClientConfig) (overrides : ConcurrencyOverrides).

Lemma spawn_run task i w0 :
  claimed_here client_name task i w0 → worktree_contract →
  ∃ r w', _spawn_claimed_task client_name c overrides task w0 = (r, w')
    ∧ spawn_ends client_name overrides task i w0 w' r.
Proof.
  intros Hc Hwt. pose proof (spawn_wp client_name c overrides task i w0 Hc Hwt) as H.
  unfold wp, result, exec in H. destruct (_spawn_claimed_task _ _ _ _ w0) as [r w'].
  exists r, w'. split; [done|]. apply H. destruct Hc as (_ & Hi & _). split; [|by rewrite app_nil_r].
  symmetry. by apply put_same.
Qed.

(** The claimed row after the run: where it is, and its link to the held one. *)
Lemma row_after task i w0 ws t w :
  claimed_here client_name task i w0 → at_row i w0 ws t w →
  q_tasks w.(sp_queue) !! i = Some t ∧ w.(sp_workers) = w0.(sp_workers) ++ ws
  ∧ ∀ j, j ≠ i → q_tasks w.(sp_queue) !! j = q_tasks w0.(sp_queue) !! j.
Proof.
  intros (_ & Hi & _) [Hq Hw]. unfold q_tasks. rewrite Hq. split_and!; [by eapply put_lookup|done|].
  intros j Hj. by apply put_lookup_ne.
Qed.

(** Who has the row: the worker that was launched, or nobody. *)
Definition row_of_worker (ws : list string) (t : TicketTask) : Prop :=
  match ws with
  | [] => t.(status) ≠ QueueItemStatus.RUNNING ∧ t.(session_id) = None
  | _ => t.(status) = QueueItemStatus.RUNNING
  end.

Lemma reverted_idle a u t : reverted_as a u t → row_of_worker [] t.
Proof. intros (_ & _ & _ & _ & Hs & Hn & _). cbn. by rewrite Hs. Qed.

Lemma parked_idle d u t : parked_as d u t → row_of_worker [] t.
Proof. intros (_ & _ & _ & _ & Hs & Hn & _). cbn. by rewrite Hs. Qed.

Lemma given_back_row task i w0 e o w :
  given_back client_name overrides task i w0 e o w →
  o.(spawned) = false ∧ ∃ t, at_row i w0 [] t w ∧ row_of_worker [] t.
Proof.
  assert (Hr : ∀ a, Reverted task i w0 a w → ∃ t, at_row i w0 [] t w ∧ row_of_worker [] t).
  { intros a (u & t & _ & Hrv & Hat). exists t. split; [done|by eapply reverted_idle]. }
  assert (Hp : ∀ d, Parked task i w0 d w → ∃ t, at_row i w0 [] t w ∧ row_of_worker [] t).
  { intros d (u & t & _ & Hpk & Hat). exists t. split; [done|by eapply parked_idle]. }
  unfold given_back. cbv zeta.
  destruct e; try destruct genuinely_live; intros H; destruct H as [-> H]; (split; [done|]);
    first [by eapply Hr | destruct H as [H|[_ H]]; [by eapply Hr|by eapply Hp]].
Qed.

Lemma owned_running task i w0 sid w :
  claimed_here client_name task i w0 → Owned task i w0 [sid] sid w →
  ∃ t, at_row i w0 [sid] t w ∧ row_of_worker [sid] t.
Proof.
  intros Hc [(t & Ht & Hat)|(u & t & Hu & Hs & Hat)]; exists t; (split; [done|]); cbn.
  - by eapply held_running.
  - destruct Hs as (_ & _ & _ & _ & -> & _). by eapply held_running.
Qed.

(** How the result, the row and the launched workers fit. *)
Definition agrees (ws : list string) (t : TicketTask) (r : exn + SpawnOutcome) : Prop :=
  match r with
  | inr o => row_of_worker ws t ∧ o.(spawned) = negb (bool_decide (ws = []))
             ∧ (o.(spawned) = true → o.(spawn_error) = false)
  | inl e => is_fault e ∧ (ws ≠ [] → t.(status) = QueueItemStatus.RUNNING)
  end.

Lemma ends_agree task i w0 w r :
  claimed_here client_name task i w0 → spawn_ends client_name overrides task i w0 w r →
  ∃ ws t, at_row i w0 ws t w ∧ length ws ≤ 1 ∧ agrees ws t r.
Proof.
  intros Hc Hend.
  destruct Hend as [b d (u & t & Hu & Hp & Hat)|sid Hst|sid e Ho|e o Hg|e Hf Hrow|sid Ho].
  - exists [], t. split_and!; [done|cbn; lia|]. split_and!; [by eapply parked_idle|done|done].
  - destruct (owned_running _ _ _ _ _ Hc (or_intror Hst)) as (t & Hat & Hr).
    exists [sid], t. by split_and!.
  - destruct (owned_running _ _ _ _ _ Hc Ho) as (t & Hat & Hr). exists [sid], t. by split_and!.
  - apply given_back_row in Hg as (Hs & t & Hat & Hr). exists [], t.
    split_and!; [done|cbn; lia|]. unfold agrees. rewrite Hs. by split_and!.
  - destruct Hrow as [[(t & Ht & Hat)|(u & t & Hu & Hp & Hat)]|(u & t & Hu & Hp & Hat)];
      (exists [], t; split_and!; [done|cbn; lia|by split]).
  - destruct (owned_running _ _ _ _ _ Hc Ho) as (t & Hat & Hr). exists [sid], t.
    split_and!; [done|done|]. split; [by exists FaultValue|done].
Qed.

(** C6: when a spawn of a claimed row returns, the row is RUNNING exactly if a
    worker was launched, and says so to the dispatch loop; without a worker the
    row has left RUNNING and names no session.  A launched worker's row is never
    given back, also when the spawn does not return, so no second worker is
    started for it.  At most one worker is launched and no other row changes.
    The spawn fails to return only when the queue file or the event inbox
    cannot be written; that error escapes, and then, and only then, a row with
    no worker may stay RUNNING. *)
Theorem worker_iff_running task i w0 :
  claimed_here client_name task i w0 → worktree_contract →
  ∃ r w' ws t',
    _spawn_claimed_task client_name c overrides task w0 = (r, w')
    ∧ q_tasks w'.(sp_queue) !! i = Some t'
    ∧ (∀ j, j ≠ i → q_tasks w'.(sp_queue) !! j = q_tasks w0.(sp_queue) !! j)
    ∧ w'.(sp_workers) = w0.(sp_workers) ++ ws ∧ length ws ≤ 1
    ∧ agrees ws t' r.
Proof.
  intros Hc Hwt. destruct (spawn_run task i w0 Hc Hwt) as (r & w' & Hrun & Hend).
  destruct (ends_agree _ _ _ _ _ Hc Hend) as (ws & t & Hat & Hl & Ha).
  destruct (row_after _ _ _ _ _ _ Hc Hat) as (H1 & H2 & H3).
  exists r, w', ws, t. by split_and!.
Qed.

(** ** What a spawn charges *)

Definition same_claim (t t' : TicketTask) : Prop :=
  t'.(attempts) = t.(attempts) ∧ t'.(unproductive_attempts) = t.(unproductive_attempts).

Definition usage_limited_row (t t' : TicketTask) : Prop :=
  t'.(status) = QueueItemStatus.PENDING ∧ t'.(attempts) = t.(attempts)
  ∧ t'.(unproductive_attempts) = (t.(unproductive_attempts) + 1)%Z
  ∧ t'.(spawn_error_count) = t.(spawn_error_count)
  ∧ t'.(next_eligible_at) = t.(next_eligible_at).

Definition released_row (t t' : TicketTask) : Prop :=
  t'.(status) = QueueItemStatus.PENDING ∧ t'.(attempts) = Z.max 0 (t.(attempts) - 1)
  ∧ t'.(unproductive_attempts) = t.(unproductive_attempts)
  ∧ t'.(spawn_error_count) = t.(spawn_error_count)
  ∧ ∃ n, t'.(next_eligible_at) = Some (clock_at n + seconds 30)%Z.

(** [e] is the failure the outcome names. *)
Definition failed_row (e : exn) (ln : string) (t t' : TicketTask) : Prop :=
  t'.(status) = QueueItemStatus.PENDING ∧ t'.(attempts) = t.(attempts)
  ∧ t'.(unproductive_attempts)
    = (t.(unproductive_attempts)
       + if _charges_unproductive_attempt client_name overrides e ln then 1 else 0)%Z
  ∧ t'.(spawn_error_count) = (t.(spawn_error_count) + 1)%Z
  ∧ ∃ n, t'.(next_eligible_at) = Some (clock_at n + spawn_error_delay (t.(spawn_error_count) + 1))%Z.

Definition charged (task t' : TicketTask) (r : exn + SpawnOutcome) : Prop :=
  match r with
  | inl _ => same_claim task t' ∨ released_row task t'
  | inr o =>
      if o.(spawned) || o.(capability_parked) then same_claim task t'
      else if o.(occupied) then released_row task t'
      else if o.(usage_limit_detected) then usage_limited_row task t'
      else o.(spawn_error) = true ∧ ∃ e, o.(so_error) = Some (str_exc e)
        ∧ (failed_row e task.(lane) task t'
           ∨ same_claim task t' ∧ t'.(status) = QueueItemStatus.BLOCKED_ON_USER
             ∧ t'.(disposition) = Some DIRTY_WORKTREE_DISPOSITION)
  end.

Lemma held_same task t : held task t → same_claim task t.
Proof. unfold held, same_claim. tauto. Qed.

Lemma parked_same task d u t : held task u → parked_as d u t → same_claim task t.
Proof. unfold held, parked_as, same_claim. intuition congruence. Qed.

Lemma stamped_same task sid u t : held task u → stamped_as sid u t → same_claim task t.
Proof. unfold held, stamped_as, same_claim. intuition congruence. Qed.

Lemma owned_same task i w0 ws sid w :
  Owned task i w0 ws sid w → ∃ t, at_row i w0 ws t w ∧ same_claim task t.
Proof.
  intros [(t & Ht & Hat)|(u & t & Hu & Hs & Hat)]; exists t; (split; [done|]).
  - by apply held_same.
  - by eapply stamped_same.
Qed.

(** The reverted row in terms of the claimed one. *)
Lemma reverted_charge task a u t :
  task.(status) = QueueItemStatus.RUNNING → held task u → reverted_as a u t →
  t.(status) = QueueItemStatus.PENDING
  ∧ t.(attempts) = (if is_Some_b a.(defer_for) then Z.max 0 (task.(attempts) - 1)
                    else task.(attempts))
  ∧ t.(unproductive_attempts)
    = (task.(unproductive_attempts)
       + if a.(revert_unproductive) && negb (is_Some_b a.(defer_for)) then 1 else 0)%Z
  ∧ t.(spawn_error_count) = (task.(spawn_error_count) + if a.(stamp_backoff) then 1 else 0)%Z
  ∧ window_after a task.(next_eligible_at) t.(next_eligible_at) t.(spawn_error_count).
Proof.
  intros Hr Hu Ht. unfold held in Hu. unfold reverted_as in Ht.
  destruct Hu as (_ & _ & _ & Hs & _ & Ha & Hun & He & Hn).
  destruct Ht as (_ & _ & _ & _ & H1 & _ & H2 & H3 & H4 & H5).
  rewrite Hs, Hr in H3. rewrite Ha in H2. rewrite Hun in H3. rewrite He in H4. rewrite Hn in H5.
  by split_and!.
Qed.

Lemma released_charge task i w0 w :
  claimed_here client_name task i w0 → Reverted task i w0 release_args w →
  ∃ t, at_row i w0 [] t w ∧ released_row task t.
Proof.
  intros (_ & _ & _ & Hr) (u & t & Hu & Hrv & Hat). exists t. split; [done|].
  destruct (reverted_charge _ _ _ _ Hr Hu Hrv) as (H1 & H2 & H3 & H4 & H5).
  cbn in *. rewrite Z.add_0_r in H3, H4. by split_and!.
Qed.

Lemma given_back_charge task i w0 e o w :
  claimed_here client_name task i w0 → given_back client_name overrides task i w0 e o w →
  ∃ t, at_row i w0 [] t w ∧ charged task t (inr o).
Proof.
  intros Hc. pose proof (released_charge task i w0 w Hc) as Hrel. destruct Hc as (_ & _ & _ & Hr).
  assert (Hbk : ∀ e x, Reverted task i w0
      (mkRevertArgs true x None (_charges_unproductive_attempt client_name overrides e task.(lane))) w →
    ∃ t, at_row i w0 [] t w ∧ failed_row e task.(lane) task t).
  { intros e' x (u & t & Hu & Hrv & Hat). exists t. split; [done|].
    destruct (reverted_charge _ _ _ _ Hr Hu Hrv) as (H1 & H2 & H3 & H4 & H5).
    cbn in *. rewrite andb_true_r in H3. rewrite H4 in H5. by split_and!. }
  assert (Hgen : o = outcome_error (str_exc e) (is_WorktreeError e)
      ∧ (Reverted task i w0 (mkRevertArgs true None None
           (_charges_unproductive_attempt client_name overrides e task.(lane))) w
         ∨ e = StaleWorktreeError ∧ Parked task i w0 DIRTY_WORKTREE_DISPOSITION w) →
    ∃ t, at_row i w0 [] t w ∧ charged task t (inr o)).
  { intros [-> [H|[_ (u & t & Hu & Hp & Hat)]]].
    - apply Hbk in H as (t & Hat & Hf). exists t. split; [done|]. cbn. split; [done|].
      exists e. split; [done|by left].
    - exists t. split; [done|]. cbn. split; [done|]. exists e. split; [done|]. right.
      split; [by eapply parked_same|]. unfold parked_as in Hp. tauto. }
  unfold given_back. cbv zeta. destruct e; try (exact Hgen).
  - intros [-> H]. apply Hrel in H as (t & Hat & H). by exists t.
  - destruct genuinely_live; intros [-> H].
    + apply Hrel in H as (t & Hat & H). by exists t.
    + apply Hbk in H as (t & Hat & H). exists t. split; [done|]. cbn. split; [done|].
      eexists. split; [done|by left].
  - intros [-> (u & t & Hu & Hrv & Hat)]. exists t. split; [done|].
    destruct (reverted_charge _ _ _ _ Hr Hu Hrv) as (H1 & H2 & H3 & H4 & H5).
    cbn in *. rewrite Z.add_0_r in H4. by split_and!.
Qed.

Lemma ends_charge task i w0 w r :
  claimed_here client_name task i w0 → spawn_ends client_name overrides task i w0 w r →
  ∃ ws t, at_row i w0 ws t w ∧ charged task t r.
Proof.
  intros Hc Hend.
  destruct Hend as [b d (u & t & Hu & Hp & Hat)|sid Hst|sid e Ho|e o Hg|e Hf Hrow|sid Ho].
  - exists [], t. split; [done|by eapply parked_same].
  - destruct (owned_same _ _ _ _ _ _ (or_intror Hst)) as (t & Hat & H). by exists [sid], t.
  - destruct (owned_same _ _ _ _ _ _ Ho) as (t & Hat & H). by exists [sid], t.
  - destruct (given_back_charge _ _ _ _ _ _ Hc Hg) as (t & Hat & H). by exists [], t.
  - destruct Hrow as [[(t & Ht & Hat)|(u & t & Hu & Hp & Hat)]|Hrv].
    + exists [], t. split; [done|]. left. by apply held_same.
    + exists [], t. split; [done|]. left. by eapply parked_same.
    + apply (released_charge _ _ _ _ Hc) in Hrv as (t & Hat & H). exists [], t. split; [done|by right].
  - destruct (owned_same _ _ _ _ _ _ Ho) as (t & Hat & H). exists [sid], t. split; [done|by left].
Qed.

(** C14: what one spawn charges the claimed row.  A launched worker, a codex
    park and a dirty tree's park charge nothing.  An occupied worktree takes
    the claim's attempt back and waits 30 s.  A usage limit charges one
    unproductive attempt, with no wait - also while the lane's breaker is
    half open.  Any other failure backs off by the doubling spawn-error delay
    and charges one unless it is a host-level fault or the lane's half-open
    probe.  An error that escapes charged nothing: the claim is as it was, or
    was released over a live occupant just before. *)
Theorem spawn_charge_rule task i w0 :
  claimed_here client_name task i w0 → worktree_contract →
  ∃ r w' t', _spawn_claimed_task client_name c overrides task w0 = (r, w')
    ∧ q_tasks w'.(sp_queue) !! i = Some t' ∧ charged task t' r.
Proof.
  intros Hc Hwt. destruct (spawn_run task i w0 Hc Hwt) as (r & w' & Hrun & Hend).
  destruct (ends_charge _ _ _ _ _ Hc Hend) as (ws & t & Hat & Ha).
  destruct (row_after _ _ _ _ _ _ Hc Hat) as (H1 & _). exists r, w', t. by split_and!.
Qed.

Lemma occupied_alone task i w0 w o :
  spawn_ends client_name overrides task i w0 w (inr o) → o.(occupied) = true →
  o.(spawned) = false ∧ o.(capability_parked) = false.
Proof.
  inversion 1 as [| | |e o' Hg| |]; subst; try discriminate. unfold given_back in Hg. cbv zeta in Hg.
  destruct e; try destruct genuinely_live; destruct Hg as [-> _]; by intros ?.
Qed.

(** An occupied outcome comes from a release alone. *)
Lemma ends_occupied task i w0 w r :
  claimed_here client_name task i w0 → spawn_ends client_name overrides task i w0 w r →
  ∃ ws t, at_row i w0 ws t w
    ∧ ∀ o, r = inr o → o.(occupied) = true → ws = [] ∧ released_row task t.
Proof.
  intros Hc Hend. destruct (ends_agree _ _ _ _ _ Hc Hend) as (ws & t & Hat & _ & Ha).
  destruct (ends_charge _ _ _ _ _ Hc Hend) as (ws' & t' & Hat' & Hch).
  assert (Hsame : t = t' ∧ ws = ws').
  { destruct (row_after _ _ _ _ _ _ Hc Hat) as (H1 & H2 & _).
    destruct (row_after _ _ _ _ _ _ Hc Hat') as (H3 & H4 & _).
    rewrite H2 in H4. apply app_inv_head in H4. split; congruence. }
  destruct Hsame as [<- <-]. exists ws, t. split; [done|]. intros o -> Ho.
  destruct Ha as (_ & Hs & _). destruct (occupied_alone _ _ _ _ _ Hend Ho) as [H1 H2].
  unfold charged in Hch. rewrite H1, H2, Ho in Hch. split; [|done].
  rewrite H1 in Hs. destruct ws; [done|discriminate].
Qed.

(** ** A claim and its spawn together *)

Context (ln : string) (config : OrchestratorConfig) (g : Gates).

(** The claimed row, as the spawn of a claim finds it. *)
Lemma claim_held ids limit q t b q' :
  one_open_row (q_tasks q) →
  _claim_next_pending client_name ln c config ids limit g q = (inr (Some t, b), q') →
  one_open_row (q_tasks q')
  ∧ ∃ i old, q_tasks q !! i = Some old ∧ q_tasks q' !! i = Some t
      ∧ old.(client) = client_name ∧ old.(status) = QueueItemStatus.PENDING ∧ claimed_form old t.
Proof.
  intros Hone Hrun.
  pose proof (claim_one_open client_name ln c config g ids limit q Hone) as Hone'.
  pose proof (claim_run client_name ln c config g ids limit q Hone) as (o & b' & Hr & Ho).
  unfold exec in Hone'. rewrite Hrun in Hone', Hr, Ho. cbn in Hone', Hr, Ho.
  injection Hr as <- <-. split; [done|].
  destruct (usage_limited _ _); [by destruct Ho as [Ho _]|].
  destruct Ho as (i & old & (_ & Hs & mid & Hm & Hi & Hq) & Hold & [Hcl _ Hp] & _).
  exists i, old. split_and!; [done| |done|done|by eapply settled_claim].
  unfold q_tasks. rewrite Hq. by eapply put_lookup.
Qed.

Lemma held_claim_spawns ids limit q t b w0 :
  one_open_row (q_tasks q) →
  _claim_next_pending client_name ln c config ids limit g q = (inr (Some t, b), w0.(sp_queue)) →
  ∃ i old, q_tasks q !! i = Some old ∧ claimed_form old t
    ∧ old.(status) = QueueItemStatus.PENDING ∧ claimed_here client_name t i w0.
Proof.
  intros Hone Hrun.
  apply claim_held in Hrun as (Hone' & i & old & Hi & Hi' & Hcl & Hp & Hf); [|done].
  exists i, old. split_and!; [done|done|done|].
  destruct Hf as (Hk & _ & _ & Hr & _). unfold row_key in Hk. injection Hk as _ Hk.
  split_and!; [done|done|by rewrite Hk|done].
Qed.

(** a claim whose worktree turns out to be occupied is undone: from the
    claim to the end of its spawn the row goes from PENDING to PENDING with the
    attempts and unproductive attempts it had before, only not eligible for 30
    seconds, and no worker is launched: waiting behind a live sibling does not
    use up a ticket's attempts. *)
Theorem occupied_claim_is_undone ids limit q t b w0 :
  one_open_row (q_tasks q) → worktree_contract →
  _claim_next_pending client_name ln c config ids limit g q = (inr (Some t, b), w0.(sp_queue)) →
  ∃ r w' i old t',
    _spawn_claimed_task client_name c overrides t w0 = (r, w')
    ∧ q_tasks q !! i = Some old ∧ q_tasks w'.(sp_queue) !! i = Some t'
    ∧ ∀ o, r = inr o → o.(occupied) = true → (0 ≤ old.(attempts))%Z →
        w'.(sp_workers) = w0.(sp_workers)
        ∧ old.(status) = QueueItemStatus.PENDING ∧ t'.(status) = QueueItemStatus.PENDING
        ∧ t'.(attempts) = old.(attempts)
        ∧ t'.(unproductive_attempts) = old.(unproductive_attempts)
        ∧ ∃ n, t'.(next_eligible_at) = Some (clock_at n + seconds 30)%Z.
Proof.
  intros Hone Hwt Hrun. destruct (held_claim_spawns _ _ _ _ _ _ Hone Hrun) as (i & old & Hi & Hf & Hp & Hc).
  destruct (spawn_run t i w0 Hc Hwt) as (r & w' & Hs & Hend).
  destruct (ends_occupied _ _ _ _ _ Hc Hend) as (ws & t' & Hat & Ho).
  destruct (row_after _ _ _ _ _ _ Hc Hat) as (H1 & H2 & _).
  exists r, w', i, old, t'. split_and!; [done|done|done|]. intros o -> Hoc Ha.
  destruct (Ho o eq_refl Hoc) as (-> & Hst & Hat' & Hu & _ & Hn).
  destruct Hf as (_ & _ & _ & _ & Hfa & _ & _ & Hfu & _).
  rewrite app_nil_r in H2. split_and!; [done|done|done|rewrite Hat', Hfa; lia|by rewrite Hu, Hfu|done].
Qed.
End Contract.
