(* ===== verification/ClaimSlots.v ===== *)
(** * A lane's claims, for real

    The claim loop of [_dispatch_client_lanes] in [dispatch/lanes.py] over the
    queue: each slot claims a row and spawns it.  [LaneDispatch] runs the same
    loop over an oracle of claim results; here the oracle is the queue, and
    the lane's cap is a statement about rows and workers. *)

From S2P Require Import Prelude PyStr Enums Tasks World Vocab Lifecycle GateBackoff.
From S2P Require Import Clients LanePause LaneCircuit LaneDispatch Crud CrudProps.
From S2P Require Import Requeue RequeueProps QueueRows Screening ScreeningProps ClaimOrder ClaimContract QueueRowsProps Spawn SpawnProps SpawnContract.

#[local] Open Scope cw_scope.
#[local] Open Scope Z_scope.

Section Slots.
Context {C : Clock} {R : Redactor} {E : OpsEnv} {En : SpawnEnv}.
Context (client_name ln : string) (c : ClientConfig) (config : OrchestratorConfig)
  (overrides : ConcurrencyOverrides) (g : Gates) (ids : list string) (limit : option Z).

(** One slot: a claim and the spawn of its row. *)
Definition claim_slot : M SpawnWorld ClaimResult :=
  r ← on_queue (_claim_next_pending client_name ln c config ids limit g);
  match r.1 with
  | None => mret (mkClaimResult r.2 None)
  | Some t =>
      o ← _spawn_claimed_task client_name c overrides t;
      mret (mkClaimResult r.2 (Some o))
  end.

(** Whether the slot is the lane's last. *)
Definition ends_lane (r : ClaimResult) : bool :=
  match r.(spawn) with
  | None => true
  | Some o => o.(usage_limit_detected) || o.(spawn_error)
  end.

Fixpoint claim_slots (n : nat) : M SpawnWorld (list ClaimResult) :=
  match n with
  | O => mret []
  | S n' =>
      r ← claim_slot;
      if ends_lane r then mret [r]
      else
        rs ← claim_slots n';
        mret (r :: rs)
  end.

(** ** The oracle of [LaneDispatch] is such a run *)

Definition started_in (rs : list ClaimResult) : Z :=
  count_of (λ r, match r.(spawn) with Some o => o.(spawned) | None => false end) rs.

(** A run's results: every one but the last goes on. *)
Fixpoint slots_of (n : nat) (rs : list ClaimResult) : Prop :=
  match n, rs with
  | _, [] => n = O
  | O, _ => False
  | S n', r :: rs' => if ends_lane r then rs' = [] else slots_of n' rs'
  end.

Lemma claim_slots_of n w rs w' : claim_slots n w = (inr rs, w') → slots_of n rs.
Proof.
  revert w rs w'. induction n as [|n IH]; intros w rs w' H.
  { by injection H as <- _. }
  cbn [claim_slots] in H. unfold mbind, M_bind in H.
  destruct (claim_slot w) as [[e|r] w1]; [discriminate|].
  destruct (ends_lane r) eqn:He; cbn [slots_of].
  - injection H as <- _. cbn. by rewrite He.
  - destruct (claim_slots n w1) as [[e|rs1] w2] eqn:H1; [discriminate|].
    injection H as <- _. cbn. rewrite He. by eapply IH.
Qed.

Lemma count_cons {A} (p : A → bool) a l :
  count_of p (a :: l) = (if p a then 1 else 0) + count_of p l.
Proof.
  unfold count_of. rewrite filter_cons. case_decide as H; destruct (p a); try done; cbn [length]; lia.
Qed.

Lemma started_in_cons r rs :
  started_in (r :: rs)
  = (match r.(spawn) with Some o => if o.(spawned) then 1 else 0 | None => 0 end) + started_in rs.
Proof.
  unfold started_in. rewrite count_cons. by destruct (spawn r) as [o|]; [destruct (spawned o)|].
Qed.

(** The lane walk over the oracle that replays a run's results. *)
Lemma claim_loop_replays (CO : ClaimOracle) bc n lc s lw rs :
  slots_of n rs → stopped s = false →
  (∀ j r, rs !! j = Some r → claim_at (s.(ts_claims) + j)%nat = r) →
  returns (@claim_loop C R CO client_name bc n ln lc s)
    (λ r _, r.1 = lc + started_in rs ∧ started (started_in rs) s r.2
            ∧ r.2.(ts_claims) = (s.(ts_claims) + length rs)%nat) lw.
Proof.
  revert lc s lw rs. induction n as [|n IH]; intros lc s lw rs Hof Hs Hat.
  { destruct rs; [|done]. apply returns_ret. change (started_in []) with 0. unfold started. cbn [fst snd length].
    split_and!; lia. }
  destruct rs as [|r rs]; [done|]. cbn [slots_of] in Hof. cbn [claim_loop].
  pose proof (Hat 0%nat r eq_refl) as Hr. rewrite Nat.add_0_r in Hr. rewrite Hr.
  set (s1 := s <| ts_claims := _ |> <| ts_backoff_skipped := _ |>).
  assert (H1 : started 0 s s1 ∧ ts_claims s1 = S (ts_claims s) ∧ stopped s1 = stopped s).
  { unfold s1, started. cbn. split_and!; lia || done. }
  destruct H1 as (St1 & C1 & P1). clearbody s1. rewrite started_in_cons.
  unfold ends_lane in Hof. destruct (spawn r) as [o|] eqn:Ho; cycle 1.
  { subst rs. apply returns_ret. change (started_in []) with 0. cbn [fst snd length].
    unfold started in *. split_and!; lia. }
  eapply returns_seq; [apply returns_when, record_returns|]. intros [] w1 _.
  eapply returns_seq; [apply returns_when, reset_returns|]. intros [] w2 _. cbv zeta.
  destruct (note_outcome_spec o s1) as (St2 & _ & C2 & _ & P3).
  set (s2 := note_outcome o s1) in *. clearbody s2.
  destruct (stopped s2) eqn:Hst.
  - assert (rs = []) as ->.
    { destruct (_ || _) eqn:He; [done|]. apply orb_false_iff in He as [He1 He2].
      assert (true = false); [apply P3; rewrite P1; by split_and!|done]. }
    apply returns_ret. change (started_in []) with 0. unfold started in *. cbn [fst snd length].
    destruct (spawned o); split_and!; lia.
  - destruct P3 as [P3 _]. destruct (P3 eq_refl) as (_ & He1 & He2). rewrite He1, He2 in Hof. cbn in Hof.
    eapply returns_mono; [apply IH; [exact Hof|done|]|].
    { intros j r' Hj. rewrite C2, C1. rewrite <- (Hat (S j) r' Hj). f_equal. lia. }
    intros [lc' s'] w3 (Hk & Hst' & Hc). cbn [fst snd] in *. unfold started in *.
    destruct (spawned o); cbn [length]; split_and!; lia.
Qed.

(** ** Counting rows *)

Definition runs_here (t : TicketTask) : bool :=
  in_lane client_name ln t && bool_decide (t.(status) = QueueItemStatus.RUNNING).

Definition running_rows (q : QueueWorld) : Z := count_of runs_here (q_tasks q).

Lemma count_insert {A} (p : A → bool) l i a b :
  l !! i = Some a →
  count_of p (<[i := b]> l) + (if p a then 1 else 0) = count_of p l + (if p b then 1 else 0).
Proof.
  revert i. induction l as [|x l IH]; intros [|i] Hi; try done; cbn in Hi.
  - injection Hi as ->. change (<[0%nat:=b]> (a :: l)) with (b :: l). rewrite !count_cons. lia.
  - change (<[S i:=b]> (x :: l)) with (x :: <[i:=b]> l). rewrite !count_cons. specialize (IH i Hi). lia.
Qed.

Lemma count_Forall2 {A} (p : A → bool) l k :
  Forall2 (λ a b, p b = p a) l k → count_of p k = count_of p l.
Proof.
  induction 1 as [|a b l k H _ IH]; [done|]. by rewrite !count_cons, H, IH.
Qed.

Lemma passed_runs at_ t t' :
  passed client_name ln c config g at_ t t' → runs_here t' = runs_here t.
Proof.
  intros H. apply passed_row in H as (Hh & (Hk & Hl & _) & _).
  injection Hk as _ Hcl. unfold runs_here, in_lane. rewrite Hcl, Hl. f_equal.
  destruct Hh as [-> | [-> | (_ & _ & Hp & Hb & _)]];
    [done|by unfold clear_gate_block_wait; case_match|].
  rewrite Hp, Hb. by rewrite !bool_decide_false.
Qed.

Lemma claim_count q r q' :
  one_open_row (q_tasks q) →
  _claim_next_pending client_name ln c config ids limit g q = (inr r, q') →
  one_open_row (q_tasks q')
  ∧ running_rows q' = running_rows q + (if is_Some_b r.1 then 1 else 0)
  ∧ ∀ t, r.1 = Some t → ∃ i, q_tasks q' !! i = Some t ∧ t.(client) = client_name
      ∧ t.(lane) = ln ∧ t.(status) = QueueItemStatus.RUNNING.
Proof.
  intros Hone Hrun.
  pose proof (claim_one_open client_name ln c config g ids limit q Hone) as Hone'.
  pose proof (claim_run client_name ln c config g ids limit q Hone) as (o & b' & Hr & Ho).
  unfold exec in Hone'. rewrite Hrun in Hone', Hr, Ho. cbn in Hone', Hr, Ho.
  injection Hr as ->. split; [done|]. cbn [fst].
  assert (Hsw : ∀ s s', sweep client_name ln c config g (clock_at (q_ticks q)) s s' →
    count_of runs_here s'.(tasks) = count_of runs_here s.(tasks)).
  { intros s s' H. apply count_Forall2. eapply Forall2_impl; [exact H|].
    intros t t' Hp. by eapply passed_runs. }
  unfold running_rows, q_tasks. destruct (usage_limited _ _).
  { destruct Ho as [-> ->]. cbn. split; [lia|done]. }
  destruct o as [t|]; cbn [is_Some_b].
  - destruct Ho as (i & old & (_ & Hs & mid & Hm & Hi & ->) & _ & [Hcl Hln Hp] & _).
    apply settled_claim in Hs as (Hk & Hl & _ & Hst & _); [|done].
    injection Hk as _ Hk. rewrite <- (Hsw _ _ Hm). split.
    + pose proof (count_insert runs_here mid.(tasks) i old t Hi) as Hct. cbn in Hct |- *.
      assert (runs_here old = false) as Hf
        by (unfold runs_here; rewrite Hp; by rewrite andb_false_r).
      assert (runs_here t = true) as Ht
        by (unfold runs_here, in_lane; rewrite Hk, Hl, Hcl, Hln, Hst; by rewrite !String.eqb_refl).
      rewrite Hf, Ht in Hct. lia.
    + intros t0 [= <-]. exists i. rewrite (put_lookup i t old) by done.
      split_and!; congruence.
  - destruct Ho as [Hm _]. rewrite (Hsw _ _ Hm). split; [lia|done].
Qed.

(** The row a spawn leaves: the claimed ticket's, still open. *)
Lemma spawn_keeps task i w0 w r :
  claimed_here client_name task i w0 → spawn_ends client_name overrides task i w0 w r →
  ∃ ws t, at_row i w0 ws t w ∧ row_key t = row_key task ∧ t.(lane) = task.(lane) ∧ is_open t.
Proof.
  intros Hc Hend.
  assert (Hheld : ∀ t, held task t → row_key t = row_key task ∧ t.(lane) = task.(lane) ∧ is_open t).
  { intros t Ht. split_and!; [apply Ht|apply Ht|]. apply running_open. by eapply held_running. }
  assert (Hpark : ∀ d, Parked task i w0 d w →
    ∃ ws t, at_row i w0 ws t w ∧ row_key t = row_key task ∧ t.(lane) = task.(lane) ∧ is_open t).
  { intros d (u & t & Hu & (H1 & _ & H2 & _ & H3 & _) & Hat). exists [], t.
    destruct (Hheld _ Hu) as (H4 & H5 & _). split_and!; [done|congruence|congruence|].
    unfold is_open. by rewrite H3. }
  assert (Hrev : ∀ a, Reverted task i w0 a w →
    ∃ ws t, at_row i w0 ws t w ∧ row_key t = row_key task ∧ t.(lane) = task.(lane) ∧ is_open t).
  { intros a (u & t & Hu & (H1 & _ & H2 & _ & H3 & _) & Hat). exists [], t.
    destruct (Hheld _ Hu) as (H4 & H5 & _). split_and!; [done|congruence|congruence|].
    unfold is_open. by rewrite H3. }
  assert (Hown : ∀ ws sid, Owned task i w0 ws sid w →
    ∃ ws t, at_row i w0 ws t w ∧ row_key t = row_key task ∧ t.(lane) = task.(lane) ∧ is_open t).
  { intros ws sid [(t & Ht & Hat)|(u & t & Hu & (H1 & _ & H2 & _ & H3 & _) & Hat)]; exists ws, t.
    - split; [done|by apply Hheld].
    - destruct (Hheld _ Hu) as (H4 & H5 & H6). split_and!; [done|congruence|congruence|].
      unfold is_open in *. by rewrite H3. }
  destruct Hend as [b d H|sid H|sid e H|e o H|e Hf H|sid H]; eauto.
  - eapply Hown. by right.
  - unfold given_back in H. cbv zeta in H.
    destruct e; try destruct genuinely_live; destruct H as [_ H];
      first [by eapply Hrev | destruct H as [H|[_ H]]; [by eapply Hrev|by eapply Hpark]].
  - destruct H as [[(t & Ht & Hat)|H]|H]; [|by eapply Hpark|by eapply Hrev]. exists [], t. split; [done|by apply Hheld].
Qed.

(** ** The lane's cap *)

(** What some slots did to the lane: the workers they launched, and the rows
    that run for it. *)
Definition lane_used (n : nat) (w w' : SpawnWorld) (r : exn + list ClaimResult) : Prop :=
  one_open_row (q_tasks w'.(sp_queue))
  ∧ ∃ ws, w'.(sp_workers) = w.(sp_workers) ++ ws ∧ (length ws ≤ n)%nat
      ∧ running_rows w.(sp_queue) ≤ running_rows w'.(sp_queue)
        ≤ running_rows w.(sp_queue) + Z.of_nat n
      ∧ ∀ rs, r = inr rs →
          running_rows w'.(sp_queue) = running_rows w.(sp_queue) + Z.of_nat (length ws)
          ∧ Z.of_nat (length ws) = started_in rs.

Lemma slot_used w :
  one_open_row (q_tasks w.(sp_queue)) → worktree_contract →
  ∃ r w', claim_slot w = (r, w')
    ∧ lane_used 1 w w' (match r with inl e => inl e | inr r => inr [r] end).
Proof.
  intros Hone Hwt. unfold claim_slot. unfold mbind at 1, M_bind at 1, on_queue.
  destruct (claim_run client_name ln c config g ids limit w.(sp_queue) Hone) as (o & b & Hr & _).
  destruct (_claim_next_pending _ _ _ _ _ _ _ _) as [r q1] eqn:Hrun. cbn in Hr. subst r.
  apply claim_count in Hrun as (Hone1 & Hct & Hrow); [|done]. cbn [fst] in *.
  destruct o as [t|]; cbn [is_Some_b] in Hct.
  - destruct (Hrow t eq_refl) as (i & Hi & Hcl & Hln & Hst).
    set (w1 := w <| sp_queue := q1 |>).
    assert (Hc : claimed_here client_name t i w1) by by split_and!.
    destruct (spawn_run client_name c overrides t i w1 Hc Hwt) as (r & w' & Hs & Hend).
    unfold mbind, M_bind. rewrite Hs.
    destruct (ends_agree client_name overrides t i w1 w' r Hc Hend) as (ws & t' & Hat & Hl & Ha).
    destruct (spawn_keeps t i w1 w' r Hc Hend) as (ws2 & t2 & Hat2 & Hk & Hl2 & Ho).
    assert (t2 = t') as ->.
    { destruct (row_after client_name t i w1 _ _ w' Hc Hat) as (H1 & _).
      destruct (row_after client_name t i w1 _ _ w' Hc Hat2) as (H2 & _). congruence. }
    clear Hat2 ws2. destruct Hat as [Hq Hw].
    assert (Hct' : running_rows w'.(sp_queue)
      = running_rows w.(sp_queue) + if bool_decide (t'.(status) = QueueItemStatus.RUNNING) then 1 else 0).
    { pose proof (count_insert runs_here (q_tasks q1) i t t' Hi) as H.
      injection Hk as _ Hk. unfold running_rows, q_tasks in *. rewrite Hq. cbn in H |- *.
      assert (runs_here t = true) as H1.
      { unfold runs_here, in_lane. rewrite Hcl, Hln, Hst. by rewrite !String.eqb_refl. }
      assert (runs_here t' = bool_decide (t'.(status) = QueueItemStatus.RUNNING)) as H2.
      { unfold runs_here, in_lane. rewrite Hk, Hl2, Hcl, Hln. by rewrite !String.eqb_refl. }
      rewrite H1, H2 in H. destruct (bool_decide _); lia. }
    exists (match r with inl e => inl e | inr o => inr (mkClaimResult b (Some o)) end), w'.
    split; [by destruct r|]. split.
    { unfold q_tasks. rewrite Hq. eapply keeps_open_insert; [exact Hi| |exact Hone1].
      intros _. split; [by apply running_open|done]. }
    exists ws. split_and!; [exact Hw|done|destruct (bool_decide _); lia|destruct (bool_decide _); lia|].
    intros rs Hrs. destruct r as [e|o]; cbn in Hrs; [discriminate|]. injection Hrs as <-.
    rewrite started_in_cons. change (started_in []) with 0. cbn [spawn].
    destruct Ha as (Hrw & Hsp & _). rewrite Hct', Hsp.
    destruct ws as [|sid [|? ?]]; cbn in Hrw, Hl |- *; [| |lia].
    + destruct Hrw as [Hrw _]. rewrite bool_decide_false by done. lia.
    + rewrite Hrw, bool_decide_true by done. lia.
  - eexists _, _. split; [reflexivity|]. split; [done|]. exists [].
    rewrite app_nil_r. cbn. split_and!; [done|lia|lia|lia|]. intros rs [= <-].
    rewrite started_in_cons. change (started_in []) with 0. cbn. lia.
Qed.

Lemma slots_used n w :
  one_open_row (q_tasks w.(sp_queue)) → worktree_contract →
  ∃ r w', claim_slots n w = (r, w') ∧ lane_used n w w' r.
Proof.
  intros Hone Hwt. revert w Hone. induction n as [|n IH]; intros w Hone; cbn [claim_slots].
  { exists (inr []), w. split; [done|]. split; [done|]. exists []. rewrite app_nil_r. cbn.
    split_and!; try lia; [done|]. intros rs [= <-]. change (started_in []) with 0. lia. }
  unfold mbind at 1, M_bind at 1.
  destruct (slot_used w Hone Hwt) as (r & w1 & -> & Hone1 & ws1 & Hw1 & Hl1 & Hc1 & Hr1).
  destruct r as [e|r].
  { exists (inl e), w1. split; [done|]. split; [done|]. exists ws1. split_and!; try done; lia. }
  destruct (Hr1 [r] eq_refl) as [Hx1 Hy1].
  destruct (ends_lane r).
  { exists (inr [r]), w1. split; [done|]. split; [done|]. exists ws1.
    split_and!; try done; lia. }
  destruct (IH w1 Hone1) as (r2 & w2 & Hs2 & Hone2 & ws2 & Hw2 & Hl2 & Hc2 & Hr2).
  unfold mbind at 1, M_bind at 1. rewrite Hs2.
  assert (Hws : sp_workers w2 = sp_workers w ++ (ws1 ++ ws2)) by (rewrite Hw2, Hw1; by rewrite app_assoc).
  exists (match r2 with inl e => inl e | inr rs => inr (r :: rs) end), w2.
  split; [by destruct r2|]. split; [done|]. exists (ws1 ++ ws2).
  rewrite length_app. split_and!; [done|lia|lia|lia|]. intros rs Hrs.
  destruct r2 as [e|rs2]; [discriminate|]. injection Hrs as <-. destruct (Hr2 rs2 eq_refl) as [Hx2 Hy2].
  rewrite started_in_cons. rewrite started_in_cons in Hy1. change (started_in []) with 0 in Hy1. lia.
Qed.

(** Rows that run occupy the lane. *)
Lemma running_occupy q :
  running_rows q ≤ running_by_lane client_name q.(q_store) ln.
Proof.
  unfold running_rows, running_by_lane, q_tasks. induction (tasks (q_store q)) as [|t ts IH]; [done|].
  rewrite !count_cons.
  assert (runs_here t = true → String.eqb t.(client) client_name && occupies_lane_slot t
                               && String.eqb t.(lane) ln = true) as H.
  { unfold runs_here, in_lane. intros [[-> ->]%andb_true_iff Hs%bool_decide_eq_true]%andb_true_iff.
    unfold occupies_lane_slot. by rewrite Hs. }
  destruct (runs_here t); [rewrite H by done; lia|]. destruct (_ && _); lia.
Qed.

(** C15: one lane's turn on the real queue: however the claims and spawns of its
    slots end, the lane never runs more rows than its cap (or than it ran
    before), at most as many workers are launched as slots were free, no
    ticket gets a second open row, and unless an error escapes the rows that
    started running are exactly the workers that were launched - the number
    the lane walk counts when it is driven by these claims. *)
Theorem lane_never_overcommits l available w :
  one_open_row (q_tasks w.(sp_queue)) → worktree_contract → l.(lc_name) = ln →
  let n := Z.to_nat (lane_grant client_name w.(sp_queue).(q_store) l available) in
  ∃ r w' ws, claim_slots n w = (r, w')
    ∧ w'.(sp_workers) = w.(sp_workers) ++ ws
    ∧ Z.of_nat (length ws) ≤ Z.max 0 available
    ∧ one_open_row (q_tasks w'.(sp_queue))
    ∧ running_rows w'.(sp_queue) ≤ Z.max (running_rows w.(sp_queue)) l.(lc_max_parallel)
    ∧ ∀ rs, r = inr rs →
        running_rows w'.(sp_queue) = running_rows w.(sp_queue) + Z.of_nat (length ws)
        ∧ ∀ (CO : ClaimOracle) bc lc s lw, stopped s = false →
            (∀ j r, rs !! j = Some r → claim_at (s.(ts_claims) + j)%nat = r) →
            returns (@claim_loop C R CO client_name bc n ln lc s)
              (λ r _, r.1 = lc + Z.of_nat (length ws)) lw.
Proof.
  intros Hone Hwt Hl n. destruct (slots_used n w Hone Hwt) as (r & w' & Hs & Hone' & ws & Hw & Hn & Hc & Hr).
  exists r, w', ws. pose proof (running_occupy w.(sp_queue)) as Hocc.
  unfold n, lane_grant in *. rewrite Hl in *.
  split_and!; [done|done|lia|done|lia|]. intros rs ->. destruct (Hr rs eq_refl) as [H1 H2].
  split; [done|]. intros CO bc lc s lw Hst Hat.
  eapply returns_mono; [eapply (claim_loop_replays CO); [by eapply claim_slots_of|done|exact Hat]|].
  cbn. intros x _ (Hx & _). lia.
Qed.
End Slots.
