(* ===== verification/NextCommands.v ===== *)
(** * The operator's next commands: [dev_queue/next_commands.py]

    One ordered rule table, first match wins, from a row's state to the
    command lines an operator or agent may run next, with the human-gate label
    and the refusal suffix.  Pure: the bound session, the config-resolved
    opt-in and the stage's position in its pipeline are the caller's.  Also
    [stale_tip_reason] of [dev_queue/gates.py] and [is_red_shipped_row] of
    [dev_queue/shipped_red.py], which the table reads. *)

From S2P Require Import Prelude PyStr PyText ShellWords Enums Tasks World Vocab.
From S2P Require Import Clients Crud Requeue Screening ShippedRed.

#[local] Open Scope cw_scope.

#[export] Instance pipeline_position_eq_dec : EqDecision PipelinePosition.PipelinePosition.
Proof. solve_decision. Defined.

(** ** Vocabulary *)

Definition CODEX_MUST_FIX_FINDINGS : string := "codex_must_fix_findings".
Definition AMBIGUITIES_PENDING_RESOLUTION_STATUS : string := "ambiguities_pending_resolution".
Definition PREMISES_PENDING_VERIFICATION_STATUS : string := "premises_pending_verification".
Definition STALE_TIP_FRICTION_PREFIX : string := "review_tip_check: stale".
Definition APPROVAL_PARK_FRICTION_PREFIX : string := "review_approval_park:".
Definition TIP_CHECK_FETCH_FAILED : string := "tip_check_fetch_failed".
Definition RECOVER_RED_PR_VERB : string := "recover-red-pr".
Definition SCOPE_DRIFT_PATHS_PLACEHOLDER : string := "<paths>".
Definition _REASON_PLACEHOLDER : string :=
  String double_quote ("<why>" +:+ String double_quote EmptyString).

Definition HUMAN_GATE_LABEL : string := "operator-only human gate; not for an agent to run".
Definition HUMAN_GATE_PURPOSE_LABEL : string := HUMAN_GATE_LABEL +:+ ": ".
Definition HUMAN_GATE_CELL_LABEL : string := "HUMAN GATE: ".
Definition _TERMINAL_REFUSES : string := "approve refuses at the terminal stage".
Definition _NO_GATE_SESSION : string :=
  "approve cannot take this row because no bound session is at the approval gate".
Definition _RERUN_CURRENT : string := "re-run the current stage".
Definition _FINALIZE_HOLD_GATE : string := "finalize-hold".
Definition _FINALIZE_APPROVAL_PARK_PURPOSE : string :=
  "returns the ticket to review to obtain the large-tier approval; approve refuses at the terminal stage and a finalize re-run would only park again".
Definition _STALE_TIP_ROUND_CLAUSES : list (string * string) :=
  [("commits_after_clean_round", "commits landed after the last clean review round");
   ("no_clean_round", "no clean review round is recorded")].
Definition _STALE_TIP_ROUND_TAIL : string :=
  "requeue returns the ticket to review, which re-reviews them before they can merge".
Definition _STALE_TIP_OTHER_TAIL : string :=
  "requeue re-runs review, which re-checks the tip; if the cause is push or network state, fix that first".
Definition _STALE_TIP_LARGE_NOTE : string :=
  "this ticket is large tier, so review parks it for the large-tier approval after the round".
Definition _STALE_TIP_FETCH_PURPOSE : string :=
  "the final-tip check could not fetch origin (" +:+ TIP_CHECK_FETCH_FAILED +:+ "); fix the network or credential cause, then requeue re-runs finalize, which re-checks the tip; no review round is needed".
Definition _RELEASE_VERBS : gset string := {[ "approve"; "requeue" ]}.
Definition _OFF_PIPELINE_STATUSES : gset queue_status :=
  {[ QueueItemStatus.BLOCKED_ON_USER; QueueItemStatus.AWAITING_OPERATOR_SIGNOFF ]}.
Definition _SHIP_STEP_HUMAN_CAVEAT : string :=
  "if the ticket or lane has a finalize hold, operator signoff or scope_hint: large, this step is the human's.".
Definition _SHIP_STEP_IS_HUMANS : string :=
  "it ships nothing, and shipping this ticket past review is the human's step because the ticket or its lane carries a finalize hold, operator signoff or scope_hint: large".
Definition _SHOW_PURPOSE : string := "inspect the row and its legal next commands".
Definition RESOLVE_COMMAND : string := "cw dev-queue resolve --file <decisions.md>".
Definition LANE_PAUSED_SKIP_CODE : string := "lane_paused".
Definition LANE_RESUME_PURPOSE : string := "resume the paused lane so dispatch can claim the ticket".
Definition _LANE_RESUME_SKIP_CODES : gset string :=
  {[ DispatchSkipReason.skip_reason_value DispatchSkipReason.LANE_CIRCUIT_PAUSED;
     LANE_PAUSED_SKIP_CODE ]}.
Definition _SCOPE_HINT_GATE_DISPOSITIONS : gset string :=
  SCOPE_GATED_APPROVAL_STATUSES ∪ {[ APPROVAL_GATE_REASON ]}.

Definition _FROM_FLAGS (s : queue_status) : option string :=
  match s with
  | QueueItemStatus.COMPLETED => Some "--from-completed"
  | QueueItemStatus.FAILED => Some "--from-failed"
  | QueueItemStatus.CANCELLED => Some "--from-cancelled"
  | _ => None
  end.

Definition _PARK_GUIDANCE : list (string * string) :=
  [(AMBIGUITIES_PENDING_RESOLUTION_STATUS,
    "The worker parked on open ambiguities. Answer them on the ticket, then re-run the stage. At the plan stage, `"
    +:+ RESOLVE_COMMAND
    +:+ "` records the answers on the row and requeues it, with no tracker comment needed.");
   (PREMISES_PENDING_VERIFICATION_STATUS,
    "The worker parked on unverified premises. Verify them and record the results on the ticket, then re-run the stage. At the plan stage, `"
    +:+ RESOLVE_COMMAND +:+ "` records the verification results on the row and requeues it.");
   (REVIEW_HEALTH_GATE_DISPOSITION,
    "Review health is degraded. This clears by re-running review, not by approving.");
   (REVIEW_STALENESS_GATE_DISPOSITION,
    "The review artifacts predate the branch head. Re-running review clears it; approving does not.");
   (BRANCH_STALENESS_GATE_DISPOSITION,
    "The branch conflicts with the default branch. Merge the default branch into it once and resolve the conflict (a merge, never a rebase or force-push), then re-run the stage; approving would ship a tree that cannot merge.");
   (MERGE_GATE_BLOCKED_STATUS,
    "A prior pipeline PR for this ticket is still open. Merge or close it, then re-run the stage.");
   (STALE_DISPATCH_DISPOSITION,
    "An earlier dispatch left an open, unmerged PR for this ticket. Land or close it, then re-run the stage.");
   (AWAITING_OPERATOR_DISPOSITION,
    "The park was an operator-unavailability hold. Re-running the stage, or draining held tickets, releases it.")].

Record NextCommand := mkNextCommand {
  command : string;
  purpose : string;
  operator_only : bool }.

(** ** The rows a human keeps *)

Definition is_human_kept_gate (task : TicketTask) : bool :=
  if bool_decide (task.(status) = QueueItemStatus.AWAITING_OPERATOR_SIGNOFF) then true
  else if negb (bool_decide (task.(status) = QueueItemStatus.BLOCKED_ON_USER)) then false
  else if opt_is task.(disposition) FINALIZE_GATE_HELD_DISPOSITION then true
  else opt_is task.(scope_hint) SCOPE_TIER_LARGE
       && opt_in task.(disposition) _SCOPE_HINT_GATE_DISPOSITIONS.

Definition row_carries_human_opt_in (task : TicketTask) : bool :=
  opt_is task.(scope_hint) SCOPE_TIER_LARGE || opt_is task.(hold_finalize) "manual"
  || opt_is task.(signoff) "operator".

Definition stage_name (task : TicketTask) : string := Stage.stage_value task.(stage).
Definition status_name (task : TicketTask) : string := QueueItemStatus.status_value task.(status).

Definition _row_state (task : TicketTask) : string :=
  status_name task +:+ " at stage " +:+ stage_name task
  +:+ (if opt_truthy task.(disposition)
       then " (disposition '" +:+ default "" task.(disposition) +:+ "')" else "").

Definition human_gate_settled_notice (task : TicketTask) : string :=
  "Cannot approve ticket '" +:+ task.(ticket_id)
  +:+ "': its recorded sentinel was just routed and the row now sits at a human-kept gate: it is "
  +:+ _row_state task +:+ ". Nothing was released. " +:+ HUMAN_GATE_PURPOSE_LABEL
  +:+ "the human operator reviews it with `" +:+ dev_queue_command "show" task []
  +:+ "` and releases it with a second `" +:+ dev_queue_command "approve" task [] +:+ "`.".

(** ** Command builders *)

Definition _requeue (task : TicketTask) (purpose : string) (extra : list string)
  (operator_only : bool) : NextCommand :=
  mkNextCommand (dev_queue_command "requeue" task extra) purpose operator_only.

(** HARDEN is no [--stage] choice. *)
Definition _stage_flag (task : TicketTask) : list string :=
  if bool_decide (task.(stage) = Stage.HARDEN) then [] else ["--stage"; stage_name task].

Definition _requeue_at_stage (task : TicketTask) (purpose : option string) : NextCommand :=
  _requeue task (default ("re-run the " +:+ stage_name task +:+ " stage instead") purpose)
    (_stage_flag task) false.

Definition _human_requeue (task : TicketTask) (purpose_body : string) (extra : list string)
  : NextCommand :=
  _requeue task (HUMAN_GATE_PURPOSE_LABEL +:+ purpose_body) extra true.

Definition _human_gate_name (task : TicketTask) : string :=
  if opt_is task.(disposition) FINALIZE_GATE_HELD_DISPOSITION then _FINALIZE_HOLD_GATE
  else stage_name task +:+ " approval".

Definition _rerun (task : TicketTask) : NextCommand :=
  _requeue task ("re-run the " +:+ stage_name task +:+ " stage") [] false.

Definition _approve (task : TicketTask) (purpose : string) (extra : list string)
  (operator_only : bool) : NextCommand :=
  mkNextCommand (dev_queue_command "approve" task extra) purpose operator_only.

Definition _wait (task : TicketTask) : NextCommand :=
  mkNextCommand (dev_queue_command "wait" task []) "block until the ticket finishes or parks" false.

Definition _override_must_fix (task : TicketTask) (purpose : string) : NextCommand :=
  _approve task purpose ["--override-must-fix"; "--reason"; _REASON_PLACEHOLDER] false.

Definition _ship_under_override (task : TicketTask) (purpose : string) : NextCommand :=
  _requeue task (purpose +:+ "; " +:+ _SHIP_STEP_HUMAN_CAVEAT)
    ["--stage"; Stage.stage_value Stage.FINALIZE] false.

(** ** The finalize parks ([dev_queue/gates.py]) *)

Definition _friction_entries (last_result : json) : list string :=
  match jget "friction_highlights" last_result with
  | JList l => map str_strip (omap as_str l)
  | _ => []
  end.

Fixpoint str_last (s : string) : option ascii :=
  match s with
  | EmptyString => None
  | String c EmptyString => Some c
  | String _ s' => str_last s'
  end.

Definition is_reason_char (c : ascii) : bool :=
  let n := nat_of_ascii c in (Nat.leb 97 n && Nat.leb n 122) || Ascii.eqb c "_".

(** [_STALE_TIP_ENTRY_RE.fullmatch]: the reason, empty for the bare token.  No
    backtracking is needed: a run of blanks or of reason characters is
    followed by none of its own. *)
Definition stale_tip_entry (entry : string) : option string :=
  if negb (starts_with STALE_TIP_FRICTION_PREFIX entry) then None
  else
    let rest := str_drop (String.length STALE_TIP_FRICTION_PREFIX) entry in
    if String.eqb rest "" then Some ""
    else
      let '(blanks, rest) := take_run is_space rest in
      if String.eqb blanks "" then None
      else match rest with
           | String "(" rest =>
               let '(reason, tail) := take_run is_reason_char rest in
               if String.eqb reason "" then None
               else if String.eqb tail ")" then Some reason
               else if starts_with ":" tail && bool_decide (str_last tail = Some ")"%char)
               then Some reason
               else None
           | _ => None
           end.

Definition stale_tip_reason (last_result : json) : option string :=
  let entries := _friction_entries last_result in
  if existsb (starts_with APPROVAL_PARK_FRICTION_PREFIX) entries then None
  else head (omap stale_tip_entry entries).

(** ** Predicates *)

Definition _is_blocked (task : TicketTask) : bool :=
  bool_decide (task.(status) = QueueItemStatus.BLOCKED_ON_USER).

Definition _human_gate_off_gate (task : TicketTask) (session : option Session) : bool :=
  is_human_kept_gate task && _is_blocked task
  && match session with None => true | Some s => _not_at_approval_gate s task end.

Definition _human_gate (task : TicketTask) (_ : option Session) : bool := is_human_kept_gate task.

Definition _finalize_park_result (task : TicketTask) (session : option Session) : option json :=
  if negb (_is_blocked task && bool_decide (task.(stage) = Stage.FINALIZE)
           && opt_is task.(disposition) REVIEW_PENDING_APPROVAL_STATUS && is_Some_b session)
  then None
  else
    result ← (s ← session; s.(sess_last_result));
    if is_dict result && is_finalize_park result then Some result else None.

Definition _stale_tip_park_reason (task : TicketTask) (session : option Session)
  : option string :=
  result ← _finalize_park_result task session; stale_tip_reason result.

Definition _finalize_stale_tip_park (task : TicketTask) (session : option Session) : bool :=
  is_Some_b (_stale_tip_park_reason task session).

Definition _finalize_approval_park (task : TicketTask) (session : option Session) : bool :=
  is_Some_b (_finalize_park_result task session).

Definition _pending (task : TicketTask) (_ : option Session) : bool :=
  bool_decide (task.(status) = QueueItemStatus.PENDING).

Definition _running (task : TicketTask) (_ : option Session) : bool :=
  bool_decide (task.(status) = QueueItemStatus.RUNNING).

Definition red_recover_command (task : TicketTask) : string :=
  dev_queue_command RECOVER_RED_PR_VERB task [].

Definition _red_shipped (task : TicketTask) (_ : option Session) : bool :=
  is_red_shipped_row task.

Definition _terminal (task : TicketTask) (_ : option Session) : bool :=
  is_Some_b (_FROM_FLAGS task.(status)).

Definition _scope_drift (task : TicketTask) (_ : option Session) : bool :=
  _is_blocked task && opt_is task.(blocked_reason) PLAN_SCOPE_DRIFT_BLOCKER_REASON
  && bool_decide (task.(stage) = Stage.IMPL).

Definition _must_fix (task : TicketTask) (_ : option Session) : bool :=
  _is_blocked task && opt_is task.(blocked_reason) CODEX_MUST_FIX_FINDINGS.

Definition _must_fix_overridden (task : TicketTask) (session : option Session) : bool :=
  _must_fix task session && is_Some_b task.(must_fix_override).

Definition _attempt_capped (task : TicketTask) (_ : option Session) : bool :=
  _is_blocked task
  && opt_is task.(disposition)
       (DispatchSkipReason.skip_reason_value DispatchSkipReason.ATTEMPT_CAP_BLOCKED).

Definition _salvage_parked (task : TicketTask) (session : option Session) : bool :=
  _is_blocked task
  && match session with
     | Some s => opt_is s.(sess_reap_reason) SALVAGE_PARKED_value
     | None => false
     end.

Definition _drain_held (task : TicketTask) (_ : option Session) : bool :=
  _is_blocked task && opt_in task.(disposition) DRAIN_DISPOSITIONS.

Definition _at_approval_gate (task : TicketTask) (session : option Session) : bool :=
  _is_blocked task
  && match session with Some s => negb (_not_at_approval_gate s task) | None => false end.

Definition _sessionless (task : TicketTask) (session : option Session) : bool :=
  _is_blocked task && negb (is_Some_b session).

Definition _anything (_ : TicketTask) (_ : option Session) : bool := true.

(** ** The table *)

Definition _human_gate_purpose (task : TicketTask) : string :=
  HUMAN_GATE_PURPOSE_LABEL +:+
  (if bool_decide (task.(status) = QueueItemStatus.AWAITING_OPERATOR_SIGNOFF)
   then "clear the operator-signoff gate so the ticket ships"
   else if opt_is task.(disposition) FINALIZE_GATE_HELD_DISPOSITION
   then "release the operator-set finalize hold so the ticket finalizes"
   else "release the " +:+ stage_name task
        +:+ " approval gate the operator set with scope_hint: large").

Definition _human_gate_commands (task : TicketTask) : list NextCommand :=
  [_approve task (_human_gate_purpose task) [] true].

Definition _human_release_and_ship (task : TicketTask) (reason : string) : list NextCommand :=
  [_human_requeue task ("release the " +:+ _human_gate_name task +:+ " gate and ship; " +:+ reason)
     (_stage_flag task)].

Definition _human_gate_terminal_commands (task : TicketTask) : list NextCommand :=
  _human_release_and_ship task _TERMINAL_REFUSES.

Definition _finalize_approval_park_commands (task : TicketTask) : list NextCommand :=
  [_human_requeue task _FINALIZE_APPROVAL_PARK_PURPOSE
     ["--stage"; Stage.stage_value Stage.REVIEW]].

Definition assoc_str (k : string) (d : list (string * string)) : option string :=
  snd <$> find (λ kv, String.eqb kv.1 k) d.

Definition _stale_tip_purpose (task : TicketTask) (reason : string) : string :=
  let body :=
    match assoc_str reason _STALE_TIP_ROUND_CLAUSES with
    | Some clause => "a review round is needed: " +:+ clause +:+ "; " +:+ _STALE_TIP_ROUND_TAIL
    | None =>
        "the final-tip check failed" +:+ (if String.eqb reason "" then "" else " (" +:+ reason +:+ ")")
        +:+ "; " +:+ _STALE_TIP_OTHER_TAIL
    end in
  if opt_is task.(scope_hint) SCOPE_TIER_LARGE || opt_is task.(computed_scope_tier) SCOPE_TIER_LARGE
  then body +:+ "; " +:+ _STALE_TIP_LARGE_NOTE else body.

Definition _finalize_stale_tip_park_commands (task : TicketTask) (session : option Session)
  : list NextCommand :=
  let reason := default "" (_stale_tip_park_reason task session) in
  if String.eqb reason TIP_CHECK_FETCH_FAILED then
    if is_human_kept_gate task
    then [_human_requeue task _STALE_TIP_FETCH_PURPOSE (_stage_flag task)]
    else [_requeue task _STALE_TIP_FETCH_PURPOSE (_stage_flag task) false]
  else
    let review := ["--stage"; Stage.stage_value Stage.REVIEW] in
    if is_human_kept_gate task
    then [_human_requeue task (_stale_tip_purpose task reason) review]
    else [_requeue task (_stale_tip_purpose task reason) review false].

Definition _human_gate_off_gate_commands (task : TicketTask) : list NextCommand :=
  [_human_requeue task ("re-run the " +:+ stage_name task +:+ " stage; " +:+ _NO_GATE_SESSION)
     (_stage_flag task)].

Definition _human_gate_off_gate_terminal_commands (task : TicketTask) : list NextCommand :=
  _human_release_and_ship task _NO_GATE_SESSION.

Definition _off_pipeline_commands (task : TicketTask) : list NextCommand :=
  [mkNextCommand (dev_queue_command "show" task [])
     ("stage " +:+ stage_name task
      +:+ " is not in this row's lane pipeline, so approve and requeue --stage refuse it until the operator adds it to pipeline.stages or removes and re-adds the ticket; inspect the row")
     false;
   if is_human_kept_gate task then _human_requeue task _RERUN_CURRENT []
   else _requeue task _RERUN_CURRENT [] false].

Definition _pending_commands (task : TicketTask) : list NextCommand :=
  [_wait task;
   mkNextCommand (dev_queue_command "cancel" task []) "drop it from the queue" false].

Definition _running_commands (task : TicketTask) : list NextCommand :=
  [_wait task;
   mkNextCommand ("cw queue peek -c " +:+ shlex_quote task.(client))
     "inspect the running session (age, idle gap, last result)" false].

Definition _red_shipped_commands (task : TicketTask) : list NextCommand :=
  [mkNextCommand (red_recover_command task)
     "disarm auto-merge on the shipped PR and regress this row to impl with head-pinned CI-failure feedback; finalize re-arms it after review (not --from-completed)"
     false].

(** [_FROM_FLAGS[task.status]]: a row of another status is not asked for. *)
Definition _terminal_commands (task : TicketTask) : list NextCommand :=
  [_requeue task ("recover the " +:+ status_name task +:+ " row to PENDING at its "
                  +:+ stage_name task +:+ " stage")
     (match _FROM_FLAGS task.(status) with Some f => [f] | None => [] end) false].

Definition _scope_drift_commands (task : TicketTask) : list NextCommand :=
  [_approve task "allow the extra repo-relative files (comma-separated) and re-run impl"
     ["--scope-drift"; SCOPE_DRIFT_PATHS_PLACEHOLDER] false;
   _requeue task "re-run impl without granting the extra files" [] false].

Definition _must_fix_overridden_commands (task : TicketTask) : list NextCommand :=
  [_ship_under_override task "ship it under the recorded MUST_FIX override";
   _override_must_fix task "optional: re-record the override first"].

Definition _must_fix_overridden_held_commands (task : TicketTask) : list NextCommand :=
  [_override_must_fix task
     ("re-record the MUST_FIX override if the verdict changed; " +:+ _SHIP_STEP_IS_HUMANS)].

Definition _must_fix_commands (task : TicketTask) : list NextCommand :=
  [_override_must_fix task "record an operator override of the MUST_FIX park";
   _ship_under_override task "then ship it under that override"].

Definition _must_fix_held_commands (task : TicketTask) : list NextCommand :=
  [_override_must_fix task
     ("record an operator override of the MUST_FIX park; " +:+ _SHIP_STEP_IS_HUMANS)].

Definition _attempt_capped_commands (task : TicketTask) : list NextCommand :=
  [_requeue task
     "re-run the stage with the unproductive-attempt counter reset (lane and priority kept)"
     ["--reset-attempts"] false].

Definition _salvage_commands (task : TicketTask) : list NextCommand :=
  [mkNextCommand (dev_queue_command "unblock" task [])
     "clear the salvage park and requeue the ticket" false;
   _rerun task].

Definition _drain_commands (task : TicketTask) : list NextCommand :=
  [_requeue task "release this ticket only" [] false;
   mkNextCommand ("cw dev-queue drain --held -c " +:+ shlex_quote task.(client))
     ("releases ALL held tickets of client " +:+ task.(client)
      +:+ ", not just this one; add --dry-run to preview") false].

Definition _gate_commands (task : TicketTask) : list NextCommand :=
  [_approve task ("release the " +:+ stage_name task +:+ " approval gate") [] false;
   _requeue_at_stage task None].

Definition _gate_terminal_commands (task : TicketTask) : list NextCommand :=
  [_requeue_at_stage task
     (Some ("re-run the " +:+ stage_name task +:+ " stage; " +:+ _TERMINAL_REFUSES))].

Definition _sessionless_commands (task : TicketTask) : list NextCommand :=
  [_requeue task "session not found; approve refuses, re-run the stage" [] false].

Definition _generic_commands (task : TicketTask) : list NextCommand := [_rerun task].

Record _Rule := mkRule {
  matches : TicketTask → option Session → bool;
  commands : TicketTask → list NextCommand;
  opted_in_commands : option (TicketTask → list NextCommand);
  terminal_commands : option (TicketTask → list NextCommand);
  session_commands : option (TicketTask → option Session → list NextCommand) }.

Definition plain_rule (m : TicketTask → option Session → bool)
  (cs : TicketTask → list NextCommand) : _Rule := mkRule m cs None None None.

Definition _RULES : list _Rule :=
  [mkRule _finalize_stale_tip_park _generic_commands None None
     (Some _finalize_stale_tip_park_commands);
   mkRule _finalize_approval_park _finalize_approval_park_commands None
     (Some _finalize_approval_park_commands) None;
   mkRule _human_gate_off_gate _human_gate_off_gate_commands None
     (Some _human_gate_off_gate_terminal_commands) None;
   mkRule _human_gate _human_gate_commands None (Some _human_gate_terminal_commands) None;
   plain_rule _pending _pending_commands;
   plain_rule _running _running_commands;
   plain_rule _red_shipped _red_shipped_commands;
   plain_rule _terminal _terminal_commands;
   plain_rule _scope_drift _scope_drift_commands;
   mkRule _must_fix_overridden _must_fix_overridden_commands
     (Some _must_fix_overridden_held_commands) None None;
   mkRule _must_fix _must_fix_commands (Some _must_fix_held_commands) None None;
   plain_rule _attempt_capped _attempt_capped_commands;
   plain_rule _salvage_parked _salvage_commands;
   plain_rule _drain_held _drain_commands;
   mkRule _at_approval_gate _gate_commands None (Some _gate_terminal_commands) None;
   plain_rule _sessionless _sessionless_commands;
   plain_rule _anything _generic_commands].

Definition _position_commands (rule : _Rule) (task : TicketTask)
  (position : PipelinePosition.PipelinePosition) : option (list NextCommand) :=
  if bool_decide (position = PipelinePosition.OFF_PIPELINE)
     && bool_decide (task.(status) ∈ _OFF_PIPELINE_STATUSES)
  then Some (_off_pipeline_commands task)
  else if bool_decide (position = PipelinePosition.TERMINAL) && _is_blocked task
  then match rule.(terminal_commands) with Some cs => Some (cs task) | None => None end
  else None.

(** [None]: no rule matches ([StopIteration]). *)
Definition next_commands (task : TicketTask) (session : option Session) (operator_opt_in : bool)
  (skip_reason lane_resume_command : option string)
  (pipeline_position : PipelinePosition.PipelinePosition) : option (list NextCommand) :=
  rule ← find (λ r, r.(matches) task session) _RULES;
  Some
    match _position_commands rule task pipeline_position with
    | Some positioned => positioned
    | None =>
        match rule.(session_commands) with
        | Some cs => cs task session
        | None =>
            match (if operator_opt_in || row_carries_human_opt_in task
                   then rule.(opted_in_commands) else None) with
            | Some cs => cs task
            | None =>
                match lane_resume_command with
                | Some resume =>
                    if bool_decide (task.(status) = QueueItemStatus.PENDING)
                       && opt_in skip_reason _LANE_RESUME_SKIP_CODES
                    then mkNextCommand resume LANE_RESUME_PURPOSE false :: rule.(commands) task
                    else rule.(commands) task
                | None => rule.(commands) task
                end
            end
        end
    end.

(** ** Reading a command back *)

Definition is_flag (t : string) : bool := starts_with "-" t.

(** [None]: [shlex.split] or the index raises. *)
Definition _skipped (cmd : string) (skip : option string) : option bool :=
  match skip with
  | None => Some false
  | Some s =>
      tokens ← shlex_split cmd;
      verb ← tokens !! 2;
      Some (String.eqb verb s
            || is_flag s && bool_decide (s ∈ filter (λ t, is_flag t = true) (drop 3 tokens)))
  end.

Definition _verb_token (cmd : string) : option (list string) :=
  tokens ← shlex_split cmd; Some (take 1 (drop 2 tokens)).

Definition is_human_gate_command (task : TicketTask) (c : NextCommand) : option bool :=
  if c.(operator_only) then Some true
  else if negb (is_human_kept_gate task) then Some false
  else
    verbs ← _verb_token c.(command);
    Some (existsb (λ v, bool_decide (v ∈ _RELEASE_VERBS)) verbs).

Definition human_gate_attention_command (task : TicketTask) : string :=
  HUMAN_GATE_CELL_LABEL +:+ dev_queue_command "show" task [].

(** ** Refusals *)

Definition _human_gate_refusal (cmd : string) (position : PipelinePosition.PipelinePosition)
  : option string :=
  verbs ← _verb_token cmd;
  let rerun := bool_decide (verbs = ["requeue"])
               && negb (bool_decide (position = PipelinePosition.TERMINAL)) in
  Some ("This is a human-kept gate the operator opted into: an agent must not approve, release or requeue it. Notify the human operator. The operator's "
        +:+ (if rerun then "re-run" else "release") +:+ " command is `" +:+ cmd
        +:+ "` (operator-only; not for an agent to run).").

(** The commands a refusal keeps. *)
Fixpoint unskipped (skip : option string) (cs : list NextCommand) : option (list NextCommand) :=
  match cs with
  | [] => Some []
  | c :: cs' =>
      b ← _skipped c.(command) skip;
      rest ← unskipped skip cs';
      Some (if (b : bool) then rest else c :: rest)
  end.

Definition run_sentence (lead : string) (c : NextCommand) : string :=
  lead +:+ ": `" +:+ c.(command) +:+ "` (" +:+ c.(purpose) +:+ ").".

Definition refusal_suffix (task : TicketTask) (session : option Session) (skip : option string)
  (pipeline_position : PipelinePosition.PipelinePosition) : option string :=
  listed ← next_commands task session false None None pipeline_position;
  kept ← unskipped skip listed;
  let head_ := "This row is " +:+ _row_state task +:+ "." in
  let ordinary first rest :=
    let parts := [head_]
      ++ match assoc_str (default "" task.(disposition)) _PARK_GUIDANCE with
         | Some guidance => [guidance] | None => [] end
      ++ [run_sentence "Run" first] ++ map (run_sentence "Alternatively") rest in
    " " +:+ str_join " " parts in
  match kept with
  | [] => Some (ordinary (mkNextCommand (dev_queue_command "show" task []) _SHOW_PURPOSE false) [])
  | first :: rest =>
      gate ← is_human_gate_command task first;
      if (gate : bool) then
        refusal ← _human_gate_refusal first.(command) pipeline_position;
        Some (" " +:+ head_ +:+ " " +:+ refusal)
      else Some (ordinary first rest)
  end.

(** [command.removeprefix(p)]; [text.replace(old, "", 1)]. *)
Definition str_removeprefix (p s : string) : string :=
  if starts_with p s then str_drop (String.length p) s else s.

Definition replace_once (old s : string) : string :=
  match str_split1 old s with Some (a, b) => a +:+ b | None => s end.

Definition compact_command (task : TicketTask) (cmd : string) : string :=
  replace_once (" " +:+ shlex_quote task.(ticket_id) +:+ " -c " +:+ shlex_quote task.(client))
    (str_removeprefix "cw dev-queue " cmd).
