(* ===== verification/MustFixOverride.v ===== *)
(** * The operator's MUST_FIX override: [dev_queue/must_fix_override.py]

    [approve --override-must-fix] records on a parked row the decision to ship
    past a blocking review verdict, bound to that verdict.  Every validation
    runs before the first write; the audit event is written before the row.
    The worktree's files are state; validating their JSON against the pydantic
    models is the class [OverrideEnv].  Message texts are not modelled.
    At the end, that the override binds the verdict it was given for. *)

From stdpp Require Import sorting.
From S2P Require Import Prelude PyStr PyText ReviewModels ReviewDebt Enums Tasks World Vocab ConvergenceModels.
From S2P Require Import RearmOwed Lifecycle GateBackoff Clients Crud ReviewGates Requeue PrHydrate Approval NextCommands.
From S2P Require Import CrudProps ApprovalProps ShippedRedProps.

#[local] Open Scope cw_scope.

Definition REVIEW_VERDICT_JSON_RELATIVE_PATH : string := "/.claude/review-verdict.json".
Definition LEDGER_RELATIVE_PATH : string := "/.cw/review-convergence.json".

Record ReviewVerdictEnvelope := mkReviewVerdictEnvelope {
  env_ticket_id : string; env_verdict : ReviewVerdict }.

(** [model_validate_json]; [None]: a [ValidationError]. *)
Class OverrideEnv := {
  validate_envelope : string → option ReviewVerdictEnvelope;
  validate_ledger : string → option ConvergenceLedger }.

Record MustFixOverrideApproval := mkMustFixOverrideApproval {
  ap_ticket_id : string;
  ap_client : string;
  ap_stage : string;
  ap_actor : string;
  ap_reviewed_sha : string;
  ap_finding_ids : list (string * string) }.

(** The order of [sorted] on pairs of texts. *)
Definition pair_le (a b : string * string) : Prop :=
  (a.1 ≠ b.1 ∧ string_le a.1 b.1) ∨ (a.1 = b.1 ∧ string_le a.2 b.2).
#[export] Instance pair_le_dec : RelDecision pair_le.
Proof. intros a b. unfold pair_le. apply _. Defined.

Definition is_clean (c : ClientConfig) : bool := String.eqb c.(cc_convergence) "clean".

Definition get_client (clients : Clients) (cl : string) : exn + ClientConfig :=
  match clients !! cl with Some c => inr c | None => inl (CwError "Client not found") end.

Definition sum_bind {B D} (m : exn + B) (k : B → exn + D) : exn + D :=
  match m with inl e => inl e | inr b => k b end.

Definition resolve_operator_login {L : Login} (c : ClientConfig) : option string :=
  str_or c.(cc_operator_github_login) cached_gh_login.

Section Override.
Context {C : Clock} {G : GateEnv} {A : ApproveEnv} {K : CaseData} {L : Login} {V : OverrideEnv}.

(** ** The refusals *)

Definition _require_codex_must_fix_park (task : TicketTask) : exn + unit :=
  if negb (bool_decide (task.(status) = QueueItemStatus.BLOCKED_ON_USER)) then inl ApproveGateError
  else if negb (opt_is task.(blocked_reason) CODEX_MUST_FIX_FINDINGS) then inl ApproveGateError
  else inr tt.

Definition _task_worktree (clients : Clients) (task : TicketTask) (cl : string) : exn + string :=
  sum_bind (get_client clients cl) (λ c,
    match resolve_task_worktree task (Some c) with
    | None => inl ApproveGateError
    | Some wt => inr wt
    end).

Definition _verdict_path (clients : Clients) (task : TicketTask) (cl : string) : exn + string :=
  sum_bind (_task_worktree clients task cl) (λ wt, inr (wt +:+ REVIEW_VERDICT_JSON_RELATIVE_PATH)).

Definition _load_owned_verdict (files : gmap string string) (clients : Clients)
  (task : TicketTask) (cl : string) : exn + ReviewVerdict :=
  sum_bind (_verdict_path clients task cl) (λ path,
    match text_of files path with
    | None => inl ApproveGateError
    | Some text =>
        match validate_envelope text with
        | None => inl ApproveGateError
        | Some envelope =>
            if negb (String.eqb envelope.(env_ticket_id) task.(ticket_id))
            then inl ApproveGateError
            else if negb envelope.(env_verdict).(v_blocking) then inl ApproveGateError
            else inr envelope.(env_verdict)
        end
    end).

(** The identities so far; the first finding without one refuses. *)
Fixpoint fingerprints (fs : list Finding) : exn + list (string * string) :=
  match fs with
  | [] => inr []
  | f :: fs' =>
      match fingerprint_v1 f.(f_file) f.(f_summary) with
      | None => inl ApproveGateError
      | Some fp => sum_bind (fingerprints fs') (λ ids, inr (fp :: ids))
      end
  end.

Definition _finding_ids (verdict : ReviewVerdict) : exn + list (string * string) :=
  sum_bind (fingerprints verdict.(v_must_fix)) (λ ids, inr (merge_sort pair_le (remove_dups ids))).

(** [load_ledger]: a file that is there but unreadable or invalid raises. *)
Definition load_ledger (files : gmap string string) (path : string)
  : exn + option ConvergenceLedger :=
  match files !! path with
  | None => inr None
  | Some _ =>
      match text_of files path with
      | None => inl OSError
      | Some text =>
          match validate_ledger text with
          | None => inl ValueError
          | Some ledger => inr (Some ledger)
          end
      end
  end.

Definition _require_converged_ledger_when_clean (files : gmap string string) (clients : Clients)
  (task : TicketTask) (cl : string) (verdict : ReviewVerdict) : exn + unit :=
  sum_bind (get_client clients cl) (λ c,
    if negb (is_clean c) then inr tt
    else
      sum_bind (_task_worktree clients task cl) (λ wt,
        match load_ledger files (wt +:+ LEDGER_RELATIVE_PATH) with
        | inl _ => inl ApproveGateError
        | inr None => inl ApproveGateError
        | inr (Some ledger) =>
            if negb (String.eqb ledger.(lg_ticket_id) task.(ticket_id)) then inl ApproveGateError
            else if negb (bool_decide (ledger.(lg_status) = converged)) then inl ApproveGateError
            else if negb (opt_is ledger.(lg_last_clean_sha) verdict.(v_reviewed_sha))
            then inl ApproveGateError
            else inr tt
        end)).

(** ** The override *)

Definition override_payload (tid cl : string) (stage : StageT) (actor reason reviewed_sha : string)
  (ids : list (string * string)) : list (string * json) :=
  [("ticket_id", JStr tid); ("client", JStr cl); ("from_stage", stage_json stage);
   ("to_stage", stage_json stage); ("actor", JStr actor); ("reason", JStr reason);
   ("reviewed_sha", JStr reviewed_sha);
   ("finding_ids", JList (map (λ p, JList [JStr p.1; JStr p.2]) ids))].

(** The checks of the row, in the order the code makes them. *)
Definition override_checks (files : gmap string string) (clients : Clients) (task : TicketTask)
  (cl : string) : exn + ReviewVerdict * list (string * string) * ClientConfig :=
  sum_bind (_require_codex_must_fix_park task) (λ _,
  sum_bind (_load_owned_verdict files clients task cl) (λ verdict,
  sum_bind (_require_converged_ledger_when_clean files clients task cl verdict) (λ _,
  sum_bind (_finding_ids verdict) (λ ids,
  sum_bind (get_client clients cl) (λ c, inr (verdict, ids, c)))))).

Definition _approve_must_fix_override_locked (clients : Clients) (tid cl reason : string)
  : M ApWorld MustFixOverrideApproval :=
  let stripped_reason := str_strip reason in
  if String.eqb stripped_reason "" then raise ApproveGateError
  else
    store ← on_q load_dev_queue;
    p ← of_sum match _find_ticket_at store tid cl with
               | Some p => inr p
               | None => inl (CwError "No dev-queue task found")
               end;
    let '(i, task) := p in
    files ← gets aw_files;
    q ← of_sum (override_checks files clients task cl);
    let '(verdict, finding_ids, c) := q in
    let actor := default "" (resolve_operator_login c) in
    record TICKET_APPROVED
      (override_payload tid cl task.(stage) actor stripped_reason verdict.(v_reviewed_sha)
         finding_ids) (Some tid) ;;
    n ← on_q q_now;
    let task' := task <| must_fix_override :=
      Some (mkMustFixOverride actor stripped_reason verdict.(v_reviewed_sha) finding_ids n) |> in
    save (set_tasks (<[i := task']> store.(tasks)) store) ;;
    mret (mkMustFixOverrideApproval tid cl (Stage.stage_value task.(stage)) actor
            verdict.(v_reviewed_sha) finding_ids).

Definition approve_must_fix_override_ticket (clients : Clients) (tid cl reason : string)
  : M ApWorld MustFixOverrideApproval := _approve_must_fix_override_locked clients tid cl reason.
End Override.

(** * The override binds the verdict it was given for

    An override is recorded once, event first, on the row it names and for
    exactly the MUST_FIX findings of the blocking verdict of that ticket;
    every refusal leaves the queue file alone. *)

#[export] Instance pair_le_total : Total pair_le.
Proof.
  intros [a1 a2] [b1 b2]. unfold pair_le; simpl.
  destruct (decide (a1 = b1)) as [->|Hne].
  - destruct (string_le_total a2 b2); [left|right]; right; done.
  - destruct (string_le_total a1 b1); [left|right]; left; split; auto.
Qed.

Lemma sum_bind_inr {B D} (m : exn + B) (k : B → exn + D) d :
  sum_bind m k = inr d → ∃ b, m = inr b ∧ k b = inr d.
Proof. destruct m as [e|b]; [done|]. simpl. eauto. Qed.

Section Props.
Context {C : Clock} {G : GateEnv} {A : ApproveEnv} {K : CaseData} {L : Login} {V : OverrideEnv}.

(** The verdict file of the row's own worktree, valid, of this ticket and
    blocking. *)
Definition owned_verdict (files : gmap string string) (c : ClientConfig) (t : TicketTask)
  (v : ReviewVerdict) : Prop :=
  ∃ wt text, resolve_task_worktree t (Some c) = Some wt
    ∧ text_of files (wt +:+ REVIEW_VERDICT_JSON_RELATIVE_PATH) = Some text
    ∧ validate_envelope text = Some (mkReviewVerdictEnvelope t.(ticket_id) v)
    ∧ v.(v_blocking) = true.

(** The ledger of the same worktree converged at the verdict's commit. *)
Definition converged_at_verdict (files : gmap string string) (c : ClientConfig) (t : TicketTask)
  (v : ReviewVerdict) : Prop :=
  ∃ wt text lg, resolve_task_worktree t (Some c) = Some wt
    ∧ text_of files (wt +:+ LEDGER_RELATIVE_PATH) = Some text
    ∧ validate_ledger text = Some lg ∧ lg.(lg_ticket_id) = t.(ticket_id)
    ∧ lg.(lg_status) = converged ∧ lg.(lg_last_clean_sha) = Some v.(v_reviewed_sha).

(** [ids] names every MUST_FIX finding, each once, in order, and nothing else. *)
Definition identifies (v : ReviewVerdict) (ids : list (string * string)) : Prop :=
  Sorted pair_le ids ∧ NoDup ids
  ∧ (∀ f, f ∈ v.(v_must_fix) → ∃ fp, fingerprint_v1 f.(f_file) f.(f_summary) = Some fp ∧ fp ∈ ids)
  ∧ ∀ fp, fp ∈ ids → ∃ f, f ∈ v.(v_must_fix)
                          ∧ fingerprint_v1 f.(f_file) f.(f_summary) = Some fp.

Lemma fingerprints_spec fs ids :
  fingerprints fs = inr ids →
  Forall2 (λ f fp, fingerprint_v1 f.(f_file) f.(f_summary) = Some fp) fs ids.
Proof.
  revert ids. induction fs as [|f fs IH]; intros ids; simpl; [by intros [= <-]|].
  destruct (fingerprint_v1 _ _) as [fp|] eqn:E; [|done].
  intros (ids' & Hf & [= <-])%sum_bind_inr. constructor; [done|by apply IH].
Qed.

Lemma finding_ids_spec v ids : _finding_ids v = inr ids → identifies v ids.
Proof.
  unfold _finding_ids. intros (fps & Hf%fingerprints_spec & [= <-])%sum_bind_inr.
  pose proof (merge_sort_Permutation pair_le (remove_dups fps)) as Hp.
  split; [apply Sorted_merge_sort, _|]. split.
  { rewrite Hp. apply NoDup_remove_dups. }
  split.
  - intros f [i Hi]%list_elem_of_lookup.
    destruct (Forall2_lookup_l _ _ _ _ _ Hf Hi) as (fp & Hfp & E). exists fp. split; [done|].
    rewrite Hp. apply elem_of_remove_dups. by eapply list_elem_of_lookup_2.
  - intros fp Hin. rewrite Hp, elem_of_remove_dups in Hin.
    apply list_elem_of_lookup in Hin as [i Hi].
    destruct (Forall2_lookup_r _ _ _ _ _ Hf Hi) as (f & Hfi & E). exists f. split; [|done].
    by eapply list_elem_of_lookup_2.
Qed.

Lemma task_worktree_spec clients t cl wt :
  _task_worktree clients t cl = inr wt →
  ∃ c, clients !! cl = Some c ∧ resolve_task_worktree t (Some c) = Some wt.
Proof.
  unfold _task_worktree, get_client. intros (c & Hc & H)%sum_bind_inr.
  destruct (clients !! cl) as [c'|]; [|done]. injection Hc as ->. exists c. split; [done|].
  destruct (resolve_task_worktree _ _); [|done]. by injection H as ->.
Qed.

Lemma owned_verdict_spec files clients t cl v :
  _load_owned_verdict files clients t cl = inr v →
  ∃ c, clients !! cl = Some c ∧ owned_verdict files c t v.
Proof.
  unfold _load_owned_verdict, _verdict_path.
  intros (p & (wt & (c & Hc & Hwt)%task_worktree_spec & [= <-])%sum_bind_inr & H)%sum_bind_inr.
  exists c. split; [done|]. exists wt.
  destruct (text_of _ _) as [text|] eqn:Ht; [|done]. exists text.
  destruct (validate_envelope text) as [[owner w]|] eqn:Hv; [|done]. simpl in H.
  destruct (String.eqb owner _) eqn:Ho; [|done]. apply String.eqb_eq in Ho as ->. simpl in H.
  destruct (v_blocking w) eqn:Hb; [|done]. by injection H as ->.
Qed.

Lemma ledger_spec files clients t cl v c :
  clients !! cl = Some c →
  _require_converged_ledger_when_clean files clients t cl v = inr tt →
  c.(cc_convergence) = "clean" → converged_at_verdict files c t v.
Proof.
  unfold _require_converged_ledger_when_clean, get_client. intros Hc H Hcl.
  rewrite Hc in H. simpl in H.
  unfold is_clean in H. rewrite Hcl in H. simpl in H.
  apply sum_bind_inr in H as (wt & (c' & Hc' & Hwt)%task_worktree_spec & H).
  unfold load_ledger in H. destruct (files !! _) as [s|] eqn:Hs; [|done].
  destruct (text_of _ _) as [text|] eqn:Ht; [|done].
  destruct (validate_ledger text) as [lg|] eqn:Hl; [|done]. 
  destruct (String.eqb _ _) eqn:Ho; [|done]. apply String.eqb_eq in Ho. cbn [negb] in H.
  case_bool_decide as Hst; [|done]. cbn [negb] in H.
  destruct (opt_is _ _) eqn:Hsha; [|done]. apply bool_decide_eq_true in Hsha.
  rewrite Hc in Hc'. injection Hc' as <-. by exists wt, text, lg.
Qed.

Lemma checks_spec files clients t cl v ids c :
  override_checks files clients t cl = inr (v, ids, c) →
  clients !! cl = Some c ∧ t.(status) = QueueItemStatus.BLOCKED_ON_USER
  ∧ t.(blocked_reason) = Some CODEX_MUST_FIX_FINDINGS ∧ owned_verdict files c t v
  ∧ identifies v ids ∧ (c.(cc_convergence) = "clean" → converged_at_verdict files c t v).
Proof.
  unfold override_checks.
  intros ([] & Hpark & (v' & (c1 & Hc1 & Hv)%owned_verdict_spec & ([] & Hl & (ids' &
    Hids%finding_ids_spec & (c2 & Hc2 & [= -> -> ->])%sum_bind_inr)%sum_bind_inr)%sum_bind_inr)
    %sum_bind_inr)%sum_bind_inr.
  unfold get_client in Hc2. rewrite Hc1 in Hc2. injection Hc2 as ->.
  unfold _require_codex_must_fix_park in Hpark.
  case_bool_decide as Hst; [|done]. cbn [negb] in Hpark.
  destruct (opt_is _ _) eqn:Hb; [|done]. apply bool_decide_eq_true in Hb.
  split_and!; try done. by eapply ledger_spec.
Qed.

(** What one run of the override comes to. *)
Definition override_outcome (clients : Clients) (tid cl reason : string) (w : ApWorld)
  (r : exn + MustFixOverrideApproval) (w' : ApWorld) : Prop :=
  w'.(aw_files) = w.(aw_files) ∧ w'.(aw_marker) = w.(aw_marker)
  ∧ match r with
    | inl e =>
        w'.(aw_queue).(q_store) = w.(aw_queue).(q_store)
        ∧ w'.(aw_queue).(q_saves) = w.(aw_queue).(q_saves)
        ∧ (w'.(aw_queue).(q_events) = w.(aw_queue).(q_events) ∨ e = OSError)
    | inr res =>
        ∃ i t c v o,
          _find_ticket_at w.(aw_queue).(q_store) tid cl = Some (i, t) ∧ clients !! cl = Some c
          ∧ t.(status) = QueueItemStatus.BLOCKED_ON_USER
          ∧ t.(blocked_reason) = Some CODEX_MUST_FIX_FINDINGS
          ∧ owned_verdict w.(aw_files) c t v
          ∧ (c.(cc_convergence) = "clean" → converged_at_verdict w.(aw_files) c t v)
          ∧ saved i (t <| must_fix_override := Some o |>) w w'
          ∧ w'.(aw_queue).(q_events)
            = w.(aw_queue).(q_events)
              ++ [mkEvent TICKET_APPROVED
                    (override_payload tid cl t.(stage) o.(mfo_actor) o.(mfo_reason)
                       o.(mfo_reviewed_sha) o.(mfo_finding_ids)) (Some tid)]
          ∧ o.(mfo_reason) = str_strip reason ∧ o.(mfo_reason) ≠ ""
          ∧ o.(mfo_reviewed_sha) = v.(v_reviewed_sha) ∧ identifies v o.(mfo_finding_ids)
          ∧ res.(ap_finding_ids) = o.(mfo_finding_ids)
    end.

Lemma override_inv clients tid cl reason w r w' :
  approve_must_fix_override_ticket clients tid cl reason w = (r, w') →
  override_outcome clients tid cl reason w r w'.
Proof.
  unfold override_outcome.
  unfold approve_must_fix_override_ticket, _approve_must_fix_override_locked. intros H.
  destruct (String.eqb (str_strip reason) "") eqn:Hr; [injection H as <- <-; split_and!; auto|].
  apply String.eqb_neq in Hr.
  unfold mbind at 1, M_bind at 1, on_q at 1, load_dev_queue, gets in H.
  assert (Hw : mkApWorld w.(aw_queue) w.(aw_files) w.(aw_marker) w.(aw_writes) = w)
    by (by destruct w).
  rewrite Hw in H. clear Hw. unfold mbind at 1, M_bind at 1 in H.
  destruct (_find_ticket_at _ tid cl) as [[i t]|] eqn:Hf; [|injection H as <- <-; split_and!; auto].
  unfold of_sum, mret, M_ret, mbind, M_bind, gets in H.
  destruct (override_checks _ _ _ _) as [e|[[v ids] c]] eqn:Hck; [injection H as <- <-; split_and!; auto|].
  apply checks_spec in Hck as (Hc & Hst & Hbr & Hv & Hids & Hl).
  destruct (record _ _ _ w) as [r1 w1] eqn:E1.
  apply record_inv in E1 as [(R1 & R2 & R3 & R4)%quiet_inv E1].
  destruct (inbox_fault TICKET_APPROVED) as [wr|].
  { destruct E1 as [-> _]. injection H as <- <-. rewrite R1, R2, R3, R4. split_and!; auto. }
  destruct E1 as [-> E1]. unfold on_q, q_now in H. cbv beta iota in H.
  match type of H with context [save ?s ?w2] => destruct (save s w2) as [r3 w3] eqn:E3 end.
  apply save_inv in E3 as [[-> (S1 & S2 & S3 & S4)%silent_quiet%quiet_inv]
    |(-> & S1 & S0 & S2 & S3 & S4)]; injection H as <- <-;
    cbn [aw_queue aw_files aw_marker q_store q_saves q_events] in *.
  - rewrite S1, S2, S3, S4, <- R1, <- R2, <- R3, <- R4. split_and!; auto.
  - rewrite S3, S4, R3, R4. split_and!; [done..|]. 
    eexists i, t, c, v, _. do 6 (split; [done|]).
    split; [unfold saved; rewrite S1, S2, S4, <- R2, <- R4; split_and!; [reflexivity|done..]|].
    rewrite S0. cbn. split; [exact E1|]. by split_and!.
Qed.

(** C22: an override of a MUST_FIX park is all or nothing, audited first and
    bound to the verdict it was given for.  The worktree files never change,
    and a raise leaves the queue file as it was; if it left an event, the save
    after it failed.  A return found the newest row of the ticket parked for
    MUST_FIX findings, read a blocking verdict of that ticket in that row's
    worktree (and, for a client that converges to clean, a ledger of the
    ticket converged at the verdict's commit), recorded one approval event and
    then, in one save, changed only that row's override: its commit is the
    verdict's, its reason is not blank, and its identities are those of the
    verdict's MUST_FIX findings, every one of them and nothing else. *)
Theorem override_binds_verdict clients tid cl reason w r w' :
  approve_must_fix_override_ticket clients tid cl reason w = (r, w') →
  w'.(aw_files) = w.(aw_files) ∧ w'.(aw_marker) = w.(aw_marker)
  ∧ match r with
    | inl e =>
        w'.(aw_queue).(q_store) = w.(aw_queue).(q_store)
        ∧ w'.(aw_queue).(q_saves) = w.(aw_queue).(q_saves)
        ∧ (w'.(aw_queue).(q_events) = w.(aw_queue).(q_events) ∨ e = OSError)
    | inr res =>
        ∃ i t c v o,
          _find_ticket_at w.(aw_queue).(q_store) tid cl = Some (i, t) ∧ clients !! cl = Some c
          ∧ t.(status) = QueueItemStatus.BLOCKED_ON_USER
          ∧ t.(blocked_reason) = Some CODEX_MUST_FIX_FINDINGS
          ∧ owned_verdict w.(aw_files) c t v
          ∧ (c.(cc_convergence) = "clean" → converged_at_verdict w.(aw_files) c t v)
          ∧ saved i (t <| must_fix_override := Some o |>) w w'
          ∧ w'.(aw_queue).(q_events)
            = w.(aw_queue).(q_events)
              ++ [mkEvent TICKET_APPROVED
                    (override_payload tid cl t.(stage) o.(mfo_actor) o.(mfo_reason)
                       o.(mfo_reviewed_sha) o.(mfo_finding_ids)) (Some tid)]
          ∧ o.(mfo_reason) = str_strip reason ∧ o.(mfo_reason) ≠ ""
          ∧ o.(mfo_reviewed_sha) = v.(v_reviewed_sha) ∧ identifies v o.(mfo_finding_ids)
          ∧ res.(ap_finding_ids) = o.(mfo_finding_ids)
    end.
Proof. apply override_inv. Qed.
End Props.
