(* ===== verification/QueueReach.v ===== *)
(** * The modelled writers of the queue file together

    The queue file is rewritten by the CRUD commands, the requeue and unblock
    commands, the approvals and overrides, the claims, the locked sections of
    the spawns, the pull request observations, the red-PR sweep and
    recovery, and the reconciler's sweeps of the rows, each under the queue lock,
    so a history of the file is a sequence of their runs.  A spawn releases the
    lock between its sections, so each section is a step of its own and any
    other writer may run between two of them.  Each step may see another outside
    world.  What holds over every such history.

    Not writers here: the routing of a finished session, the reconciler's sweeps
    of sessions, the concierge's two requeues of parked rows, the recipes, the
    codex loops and the doctor. *)

From stdpp Require Import sorting.
From S2P Require Import Prelude PyStr Enums Tasks World Vocab RearmOwed Lifecycle GateBackoff.
From S2P Require Import Clients Crud CrudProps ScopeTier ReviewGates Requeue RequeueProps RequeueContract.
From S2P Require Import PlanFingerprint Approval ApprovalProps ApprovalContract.
From S2P Require Import GhReads PrHydrate PrHydrateProps ShippedRed ShippedRedContract ReviewDebt MustFixOverride.
From S2P Require Import LaneCircuit LaneDispatch QueueRows Screening ScreeningProps ClaimOrder ClaimContract QueueRowsProps Spawn SpawnProps.
From S2P Require Import Backstops BackstopsProps LostSessions LostSessionsProps.

#[local] Open Scope cw_scope.

Section Reach.
Context {C : Clock}.


(** ** Each writer keeps the row's key *)










(** ** Claims and spawns *)








(** ** Overrides, observations, the sweep and the recovery *)



















(** ** The reconciler's sweeps *)



















End Reach.
