(* ===== verification/ApprovalDemo.v ===== *)
(** * The approval claims at concrete inputs *)

From stdpp Require Import sorting.
From S2P Require Import Prelude PyStr PyText Enums Tasks World Vocab RearmOwed Lifecycle GateBackoff.
From S2P Require Import Clients Crud CrudProps ScopeTier ReviewGates Requeue RequeueProps RequeueContract.
From S2P Require Import PlanFingerprint Approval ApprovalProps ApprovalContract QueueReach.

#[local] Open Scope cw_scope.

Definition demo_io : ApproveEnv := {|
  fetch_issue_body := λ _ _, None;
  write_fault := λ _, false;
  inbox_fault := λ _, None;
  marker_fault := false;
  unreadable := λ _, false;
  undeletable := λ _, false |}.

(** The first write fails; so does the audit of a grant, its line written. *)
Definition demo_full_disk : ApproveEnv := {|
  fetch_issue_body := λ _ _, None;
  write_fault := λ n, Nat.eqb n 0;
  inbox_fault := λ _, None;
  marker_fault := false;
  unreadable := λ _, false;
  undeletable := λ _, false |}.

Definition demo_lost_audit : ApproveEnv := {|
  fetch_issue_body := λ _ _, None;
  write_fault := λ _, false;
  inbox_fault := λ ty, if String.eqb ty TICKET_APPROVED then Some true else None;
  marker_fault := false;
  unreadable := λ _, false;
  undeletable := λ _, false |}.

Definition demo_draft : string := "<!-- plan-stage-scan-round: 2 -->" +:+ NLs +:+ "## New plan".
Definition demo_plan : string :=
  "<!-- plan-spec-reviewed: v1 -->" +:+ NLs +:+ "<!-- plan-soundness-reviewed: v1 -->".

Definition demo_session (st : string) : Session :=
  mkSession "s1" SessionStatus.BACKGROUNDED SessionOrigin.DAEMON
    (Some (JDict [("status", JStr st);
                  (PLAN_DRAFT_FINGERPRINT_KEY, JStr (compute_plan_draft_fingerprint demo_draft));
                  ("review", JDict [("reviewed_sha", JStr "c0ffee")])]))
    "auto-dev/T-1" "acme" None None None None 0 None None None None.

Definition demo_world (t : TicketTask) : ApWorld :=
  mkApWorld (demo_queue [t])
    {[ "/wt/.cw/plan-draft.md" := demo_draft; "/wt/.cw/plan.md" := demo_plan ]} [] 0.

Definition demo_parked (sg : StageT) : TicketTask :=
  demo_row QueueItemStatus.BLOCKED_ON_USER None sg.

Local Abbreviation approve A st t op :=
  (@_approve_ticket_locked demo_clock demo_gate demo_ops A demo_clients [demo_session st]
     "T-1" "acme" None None op (demo_world t)).

(** The draft the operator read is the plan IMPL will read. *)
Lemma plan_release_bound_witness :
  match approve demo_io "plan_pending_approval" (demo_parked Stage.PLAN) true with
  | (inr res, w') =>
      res.(plan_promoted) = true
      ∧ ∃ wt fp, promoted_files wt fp (demo_world (demo_parked Stage.PLAN)).(aw_files)
                   w'.(aw_files)
  | _ => False
  end.
Proof.
  assert (Hc : match approve demo_io "plan_pending_approval" (demo_parked Stage.PLAN) true with
               | (inr res, _) => res.(plan_promoted) && negb res.(plan_requeued)
               | _ => false end = true) by (vm_compute; reflexivity).
  destruct (approve _ _ _ _) as [[e|res] w'] eqn:H; [discriminate Hc|].
  apply andb_true_iff in Hc as [Hp Hr%negb_true_iff]. split; [exact Hp|].
  destruct (plan_release_bound demo_clients [demo_session "plan_pending_approval"] "T-1" "acme"
              None None true _ _ _ 0 (demo_parked Stage.PLAN) H)
    as (c & s & t' & _ & _ & _ & _ & _ & _ & Hx); [vm_compute; reflexivity|reflexivity..|].
  rewrite Hr, Hp in Hx. destruct Hx as (_ & _ & wt & fp & _ & _ & Hx). by exists wt, fp.
Defined.

(** The operator ships a reviewed row; the recipe is stopped by a force hold. *)
Lemma review_release_gated_witness :
  match approve demo_io "review_pending_approval" (demo_parked Stage.REVIEW) true with
  | (inr res, w') => res.(ar_to_stage) = Stage.FINALIZE
      ∧ map review_approved_sha (q_tasks w'.(aw_queue)) = [Some "c0ffee"]
  | _ => False
  end
  ∧ match approve demo_io "review_pending_approval"
            ((demo_parked Stage.REVIEW) <| hold_finalize := Some "operator" |>) false with
    | (inr res, w') =>
        res.(finalize_held) = true
        ∧ q_tasks w'.(aw_queue) = [(demo_parked Stage.REVIEW) <| hold_finalize := Some "operator" |>]
    | _ => False
    end.
Proof.
  split.
  - vm_compute. split; reflexivity.
  - set (t := (demo_parked Stage.REVIEW) <| hold_finalize := Some "operator" |>).
    assert (Hc : match approve demo_io "review_pending_approval" t false with
                 | (inr res, _) => res.(finalize_held) | _ => false end = true)
      by (vm_compute; reflexivity).
    destruct (approve _ _ _ _) as [[e|res] w'] eqn:H; [discriminate Hc|]. split; [exact Hc|].
    destruct (review_release_gated demo_clients [demo_session "review_pending_approval"] "T-1"
                "acme" None None false _ _ _ 0 t H)
      as (c & s & t' & _ & [Hs _] & _ & _ & _ & Hx); [vm_compute; reflexivity|reflexivity..|].
    cbv zeta in Hx. rewrite Hc in Hx. destruct Hx as (_ & _ & ->).
    unfold q_tasks. rewrite Hs. reflexivity.
Defined.

(** A full disk: the promotion fails and nothing moved. *)
Lemma refused_approval_keeps_witness :
  let w := demo_world (demo_parked Stage.PLAN) in
  match approve demo_full_disk "plan_pending_approval" (demo_parked Stage.PLAN) true with
  | (inl e, w') => e = ApproveGateError ∧ w'.(aw_queue).(q_store) = w.(aw_queue).(q_store)
                   ∧ w'.(aw_files) = w.(aw_files)
  | _ => False
  end.
Proof.
  cbv zeta.
  assert (Hc : match approve demo_full_disk "plan_pending_approval" (demo_parked Stage.PLAN) true
               with (inl e, _) => bool_decide (e = ApproveGateError) | _ => false end = true)
    by (vm_compute; reflexivity).
  destruct (approve _ _ _ _) as [[e|res] w'] eqn:H; [|discriminate Hc].
  apply bool_decide_eq_true in Hc as ->. split; [reflexivity|].
  apply refused_approval_keeps in H as (H1 & _ & _ & H2 & _). split; [exact H1|]. by apply H2.
Defined.

Lemma revocation_recorded_first_witness :
  let t := (demo_row QueueItemStatus.RUNNING None Stage.PLAN)
             <| plan_approved_at := Some 7%Z |> <| plan_approved_fingerprint := Some "f" |> in
  match @revoke_plan_approval demo_clock demo_io "T-1" "acme" "step_1a.0b" "delta" (demo_world t)
  with
  | (inr res, w') => res.(cleared) = true
      ∧ map plan_approved_at (q_tasks w'.(aw_queue)) = [None]
      ∧ map ev_type w'.(aw_queue).(q_events) = [PLAN_APPROVAL_REVOKED]
  | _ => False
  end.
Proof.
  cbv zeta. set (t := _ <| plan_approved_fingerprint := _ |>).
  assert (Hc : match @revoke_plan_approval demo_clock demo_io "T-1" "acme" "step_1a.0b" "delta"
                       (demo_world t) with
               | (inr res, _) => res.(cleared) | _ => false end = true)
    by (vm_compute; reflexivity).
  destruct (revoke_plan_approval _ _ _ _ _) as [[e|res] w'] eqn:H; [discriminate Hc|].
  apply revocation_recorded_first in H as (_ & _ & i & u & Hf & _ & Hx). rewrite Hc in Hx.
  destruct Hx as (_ & [Hs _] & n & He). split; [exact Hc|]. rewrite He. split; [|reflexivity].
  assert (Hi : (i, u) = (0, t)) by (apply (inj Some); rewrite <- Hf; vm_compute; reflexivity).
  injection Hi as -> ->. unfold q_tasks. rewrite Hs. reflexivity.
Defined.

(** The audit of a grant is lost: the row is parked again, and the inbox says
    so - but still reports the row's transition to pending. *)
Definition demo_drift_ops : OpsEnv := {|
  roster := Some (Some ∅);
  worktree_path_for := λ _ b, "/wt/" +:+ b;
  path_exists := λ _, false;
  _checked_out_branch := λ _, None;
  read_text := λ _, None;
  resolve_tracker := λ _, None;
  fetch_approved_plan_comment := λ _ _, None;
  branch_head_sha_on_origin := λ _ _, Some "beef";
  is_ancestor := λ _ _ _, None |}.

Definition demo_drifted : TicketTask :=
  (demo_parked Stage.IMPL) <| blocked_reason := Some PLAN_SCOPE_DRIFT_BLOCKER_REASON |>.

Lemma scope_drift_audited_witness :
  let w := demo_world demo_drifted in
  match @_approve_scope_drift_locked demo_clock demo_drift_ops demo_lost_audit demo_clients
          (λ _, "") "T-1" "acme" ["b.py"; "a.py"; "b.py"] w with
  | (inl e, w') =>
      e = OSError ∧ w'.(aw_files) = w.(aw_files)
      ∧ w'.(aw_queue).(q_store) = w.(aw_queue).(q_store)
      ∧ map ev_type w'.(aw_queue).(q_events)
        = [TASK_TRANSITION; TICKET_APPROVED; TICKET_APPROVAL_FAILED]
  | _ => False
  end.
Proof.
  cbv zeta.
  assert (Hc : match @_approve_scope_drift_locked demo_clock demo_drift_ops demo_lost_audit
                       demo_clients (λ _, "") "T-1" "acme" ["b.py"; "a.py"; "b.py"]
                       (demo_world demo_drifted) with
               | (inl e, w') =>
                   bool_decide (e = OSError) && bool_decide (q_saves w'.(aw_queue) = 2)
                   && bool_decide (map ev_type w'.(aw_queue).(q_events)
                        = [TASK_TRANSITION; TICKET_APPROVED; TICKET_APPROVAL_FAILED])
               | _ => false end = true) by (vm_compute; reflexivity).
  destruct (_approve_scope_drift_locked _ _ _ _ _ _) as [[e|res] w'] eqn:H; [|discriminate Hc].
  apply andb_true_iff in Hc as [[He Hn]%andb_true_iff Hev].
  apply bool_decide_eq_true in He as ->. apply bool_decide_eq_true in Hn, Hev.
  split; [reflexivity|]. apply scope_drift_audited in H as [Hf H]. split; [exact Hf|].
  split; [|exact Hev].
  destruct H as [[Hq _]|(_ & i & t & head & _ & [[Hq _]|(wr & ws & _ & _ & [Hr|Hg])])].
  - by injection Hq.
  - by injection Hq.
  - apply Hr.
  - exfalso. destruct Hg as (_ & Hg & _). rewrite Hn in Hg. discriminate Hg.
Defined.

