(* ===== verification/ClaimDemo.v ===== *)
(** * The claiming and spawning claims at concrete inputs *)

From S2P Require Import Prelude PyStr Enums Tasks World Vocab Lifecycle GateBackoff.
From S2P Require Import Clients LanePause LaneCircuit LaneCircuitProps LaneDispatch Crud CrudProps Requeue RequeueProps RequeueContract.
From S2P Require Import QueueRows Screening ScreeningProps ClaimOrder ClaimContract QueueRowsProps Spawn SpawnProps SpawnContract ClaimSlots.

#[local] Open Scope cw_scope.
#[local] Existing Instances demo_clock demo_ops no_redaction.

Definition demo_config : OrchestratorConfig := mkOrchestratorConfig "none" "auto" 10 ReapPolicy.SIGNAL_ONLY.

(** T-3 has an open PR. *)
Definition demo_gates : Gates := mkGates {[ "T-3" := Some "https://x/pull/3" ]} ∅ ∅ ∅.

Definition pending_row (tid : string) (p at_ : Z) : TicketTask :=
  (new_task tid "acme" at_) <| priority := p |>.

(** Three pending rows; the two of priority 5 tie on age, one of them gated. *)
Definition demo_pending : QueueWorld :=
  demo_queue [pending_row "T-1" 9 0; pending_row "T-3" 5 0; pending_row "T-2" 5 1].

Local Abbreviation demo_claim ids :=
  (@_claim_next_pending demo_clock "acme" DEFAULT_LANE demo_client demo_config ids None demo_gates).

Lemma demo_one_open : one_open_row (q_tasks demo_pending).
Proof. apply (bool_decide_eq_true_1 _). vm_compute. reflexivity. Qed.

(** The best by priority and age is T-1's row; a listed ticket goes first, and
    a listed one that is gated is passed over and parked. *)
Lemma claim_takes_best_witness :
  (∃ t' i t, (demo_claim [] demo_pending).1 = inr (Some t', false) ∧ t'.(ticket_id) = "T-1"
     ∧ best_row "acme" DEFAULT_LANE demo_client demo_config demo_gates 0 []
         demo_pending.(q_store) i t ∧ claimed_form t t')
  ∧ match demo_claim ["T-3"; "T-2"] demo_pending with
    | (inr (Some t, false), q') =>
        t.(ticket_id) = "T-2"
        ∧ map status (q_tasks q') = [QueueItemStatus.PENDING; QueueItemStatus.BLOCKED_ON_USER;
                                     QueueItemStatus.RUNNING]
    | _ => False
    end.
Proof.
  split; [|by vm_compute].
  destruct (claim_takes_best "acme" DEFAULT_LANE demo_client demo_config demo_gates [] None
              demo_pending demo_one_open) as (o & b & q' & Hrun & H).
  assert (Hc : match (demo_claim [] demo_pending).1 with
               | inr (Some t, b) => negb b && String.eqb t.(ticket_id) "T-1" | _ => false end = true)
    by (vm_compute; reflexivity).
  rewrite Hrun in Hc |- *. destruct o as [t'|]; [|discriminate Hc].
  apply andb_true_iff in Hc as [->%negb_true_iff Hid%String.eqb_eq].
  destruct H as (i & t & Hb & Hf & _). by exists t', i, t.
Defined.

(** One row claimed, the gated one parked; the third is not charged. *)
Lemma claim_moves_one_row_witness :
  match demo_claim ["T-3"; "T-2"] demo_pending with
  | (inr (Some t, false), q') =>
      map status (q_tasks q') = [QueueItemStatus.PENDING; QueueItemStatus.BLOCKED_ON_USER;
                                 QueueItemStatus.RUNNING]
      ∧ t.(attempts) = 1%Z
  | _ => False
  end
  ∧ ∀ u', q_tasks (demo_claim ["T-3"; "T-2"] demo_pending).2 !! 0 = Some u' →
      uncharged (pending_row "T-1" 9 0) u'.
Proof.
  split; [by vm_compute|]. intros u' Hu.
  destruct (claim_moves_one_row "acme" DEFAULT_LANE demo_client demo_config demo_gates
              ["T-3"; "T-2"] None demo_pending demo_one_open)
    as (o & b & q' & Hrun & _ & claimed & _ & _ & H).
  rewrite Hrun in Hu. by apply (H 0 (pending_row "T-1" 9 0) u').
Defined.

(** ** Spawns *)

(** A world in which the worktree and the executor answer as given. *)
Definition demo_spawn (wt : exn + string) (spawned : exn + string)
  (fault : nat → option (QueueFault * nat)) : SpawnEnv := {|
  queue_fault := fault;
  inbox_fault := λ _ _, None;
  codex_probe := λ _, mkCodexDiagnosis None "";
  create_worktree := λ _, wt;
  live_home_reason := λ _, None;
  unsaved_work_reason := λ _, inr None;
  remove_worktree := λ _, None;
  check_not_main_checkout := λ _, None;
  unlink_context_json := λ _, None;
  executor_spawn := λ _ _ _ _, spawned;
  head_sha := λ _, Some (Some "f00d");
  str_exc := λ _, "boom" |}.

Lemma demo_contract wt sp fault :
  (∀ e, wt = inl e → plain e) → @worktree_contract (demo_spawn wt sp fault).
Proof. intros H. constructor; done. Qed.

Definition demo_claimed : TicketTask :=
  (pending_row "T-1" 9 0) <| status := QueueItemStatus.RUNNING |> <| attempts := 1%Z |>.

Definition demo_held : SpawnWorld :=
  mkSpawnWorld (demo_queue [demo_claimed]) 0 (mkCodexGate None 0) [] None None.

Definition demo_overrides : ConcurrencyOverrides := mkConcurrencyOverrides None ∅ ∅.

Lemma demo_claimed_here : claimed_here "acme" demo_claimed 0 demo_held.
Proof.
  split_and!; [|reflexivity|reflexivity|reflexivity].
  apply (bool_decide_eq_true_1 _). vm_compute. reflexivity.
Qed.

Local Abbreviation demo_spawning En w :=
  (@_spawn_claimed_task demo_clock no_redaction demo_ops En "acme" demo_client demo_overrides
     demo_claimed w).

(** The worker is up but the first write fails: the row keeps it, and the
    retry records it. *)
Lemma worker_iff_running_witness :
  let En := demo_spawn (inr "/wt") (inr "s9") (λ k, if Nat.eqb k 0 then Some (FaultOS, 0) else None) in
  ∃ ws t', q_tasks (demo_spawning En demo_held).2.(sp_queue) !! 0 = Some t'
    ∧ (demo_spawning En demo_held).2.(sp_workers) = ws ∧ ws = ["s9"]
    ∧ t'.(status) = QueueItemStatus.RUNNING ∧ t'.(session_id) = Some "s9".
Proof.
  intros En.
  assert (Hw : (demo_spawning En demo_held).2.(sp_workers) = ["s9"]) by (vm_compute; reflexivity).
  assert (Hs : option_map session_id (q_tasks (demo_spawning En demo_held).2.(sp_queue) !! 0)
               = Some (Some "s9")) by (vm_compute; reflexivity).
  assert (Ho : match (demo_spawning En demo_held).1 with inr _ => true | inl _ => false end = true) by (vm_compute; reflexivity).
  destruct (@worker_iff_running demo_clock no_redaction demo_ops En "acme" demo_client
              demo_overrides demo_claimed 0 demo_held demo_claimed_here)
    as (r & w' & ws & t' & Hrun & Hi & _ & Hws & _ & Ha).
  { by apply demo_contract. }
  rewrite Hrun in Hw, Hs, Ho |- *. cbn [snd fst] in *. exists ws, t'. rewrite Hw in Hws.
  cbn in Hws. subst ws. rewrite Hi in Hs. injection Hs as Hs.
  split_and!; [done|done|done| |done]. destruct r as [e|o]; [discriminate Ho|]. apply Ha.
Defined.

(** The same world with an inbox that takes no event. *)
Definition mute_inbox (En : SpawnEnv) : SpawnEnv := {|
  queue_fault := queue_fault; inbox_fault := λ _ _, Some FaultOS; codex_probe := codex_probe;
  create_worktree := create_worktree; live_home_reason := live_home_reason;
  unsaved_work_reason := unsaved_work_reason; remove_worktree := remove_worktree;
  check_not_main_checkout := check_not_main_checkout;
  unlink_context_json := unlink_context_json; executor_spawn := executor_spawn;
  head_sha := head_sha; str_exc := str_exc |}.

(** An occupied worktree whose skip event cannot be recorded: the error escapes
    before the revert, and the row stays RUNNING with no worker. *)
Example unrecorded_skip_keeps_the_row_running :
  let En := demo_spawn (inl (WorktreeOccupiedError "/wt" "live")) (inr "s9") (λ _, None) in
  let En := mute_inbox En in
  let out := demo_spawning En demo_held in
  out.1 = inl OSError ∧ out.2.(sp_workers) = []
  ∧ map (λ t, (t.(status), t.(session_id))) (q_tasks out.2.(sp_queue))
    = [(QueueItemStatus.RUNNING, None)].
Proof. vm_compute. by split_and!. Qed.

(** An executor that fails is charged and backed off; a missing binary is
    backed off only; a usage limit is charged only. *)
Lemma spawn_charge_rule_witness :
  let En e := demo_spawn (inr "/wt") (inl e) (λ _, None) in
  (∃ t', q_tasks (demo_spawning (En ValueError) demo_held).2.(sp_queue) !! 0 = Some t'
     ∧ charged (En:=En ValueError) "acme" demo_overrides demo_claimed t' (demo_spawning (En ValueError) demo_held).1)
  ∧ map (λ e, match q_tasks (demo_spawning (En e) demo_held).2.(sp_queue) !! 0%nat with
              | Some t' => (t'.(unproductive_attempts), t'.(spawn_error_count), t'.(next_eligible_at))
              | None => (0, 0, None) end)%Z
        [ValueError; ClaudeBinaryNotFoundError; UsageLimitError None]
    = [(1, 1, Some 2000000); (0, 1, Some 2000000); (1, 0, None)]%Z.
Proof.
  intros En. split; [|vm_compute; reflexivity].
  destruct (@spawn_charge_rule demo_clock no_redaction demo_ops (En ValueError) "acme" demo_client
              demo_overrides demo_claimed 0 demo_held demo_claimed_here)
    as (r & w' & t' & Hrun & Hi & Hch); [by apply demo_contract|].
  rewrite Hrun. by exists t'.
Defined.

(** A claim, then an occupied tree: the row is back at no attempts. *)
Lemma occupied_claim_is_undone_witness :
  let En := demo_spawn (inl (WorktreeOccupiedError "/wt" "live")) (inr "s9") (λ _, None) in
  match demo_claim ["T-1"] demo_pending with
  | (inr (Some t, _), q) =>
      t.(attempts) = 1%Z
      ∧ ∃ i t', q_tasks (@_spawn_claimed_task demo_clock no_redaction demo_ops En "acme" demo_client
                   demo_overrides t (mkSpawnWorld q 0 (mkCodexGate None 0) [] None None)).2.(sp_queue)
                  !! i = Some t'
                ∧ t'.(status) = QueueItemStatus.PENDING ∧ t'.(attempts) = 0%Z
  | _ => False
  end.
Proof.
  intros En.
  assert (Hc : match demo_claim ["T-1"] demo_pending with
    | (inr (Some t, _), q) =>
        Z.eqb t.(attempts) 1
        && match @_spawn_claimed_task demo_clock no_redaction demo_ops En "acme" demo_client
                   demo_overrides t (mkSpawnWorld q 0 (mkCodexGate None 0) [] None None) with
           | (inr o, _) => o.(occupied)
           | _ => false
           end
    | _ => false end = true) by (vm_compute; reflexivity).
  destruct (demo_claim ["T-1"] demo_pending) as [[e|[[t|] b]] q] eqn:Hrun; try discriminate Hc.
  apply andb_true_iff in Hc as [Ha%Z.eqb_eq Hc]. split; [done|].
  destruct (@occupied_claim_is_undone demo_clock no_redaction demo_ops En "acme" demo_client
              demo_overrides DEFAULT_LANE demo_config demo_gates ["T-1"] None demo_pending t b
              (mkSpawnWorld q 0 (mkCodexGate None 0) [] None None) demo_one_open)
    as (r & w' & i & old & t' & Hs & Hi & Hi' & H).
  { apply demo_contract. by intros e [= <-]. }
  { exact Hrun. }
  rewrite Hs in Hc |- *. destruct r as [e|o]; [discriminate Hc|].
  assert (Hold : old.(attempts) = 0%Z)
    by (destruct i as [|[|[|i]]]; [by injection Hi as <-..|discriminate Hi]).
  destruct (H o eq_refl Hc) as (_ & _ & Hst & Hat & _); [by rewrite Hold|].
  exists i, t'. by rewrite Hat, Hold.
Defined.

(** A lane of two with three pending rows: two run, and stay two. *)
Definition demo_pair : LaneConfig := mkLaneConfig DEFAULT_LANE 2 0 false None None None None None.

Lemma lane_never_overcommits_witness :
  let En := demo_spawn (inr "/wt") (inr "s9") (λ _, None) in
  let w := mkSpawnWorld demo_pending 0 (mkCodexGate None 0) [] None None in
  let n := Z.to_nat (lane_grant "acme" demo_pending.(q_store) demo_pair 5) in
  let run := @claim_slots demo_clock no_redaction demo_ops En "acme" DEFAULT_LANE demo_client
               demo_config demo_overrides demo_gates [] None n w in
  run.2.(sp_workers) = ["s9"; "s9"]
  ∧ running_rows "acme" DEFAULT_LANE run.2.(sp_queue) = 2%Z.
Proof.
  intros En w n run.
  assert (Hw : run.2.(sp_workers) = ["s9"; "s9"]) by (vm_compute; reflexivity).
  assert (Hr : match run.1 with inr _ => true | _ => false end = true) by (vm_compute; reflexivity).
  destruct (@lane_never_overcommits demo_clock no_redaction demo_ops En "acme" DEFAULT_LANE
              demo_client demo_config demo_overrides demo_gates [] None demo_pair 5 w)
    as (r & w' & ws & Hrun & Hws & _ & _ & _ & H).
  { exact demo_one_open. }
  { by apply demo_contract. }
  { reflexivity. }
  assert (Heq : run = (r, w')) by exact Hrun. clearbody run. subst run. cbn [snd fst] in *. split; [done|].
  rewrite Hw in Hws. cbn in Hws. subst ws. destruct r as [e|rs]; [discriminate Hr|].
  destruct (H rs eq_refl) as [-> _]. vm_compute. reflexivity.
Defined.
