(* ===== verification/NextCommandsProps.v ===== *)
(** * The listed commands are the ones the program takes

    Every command [next_commands] lists for a row reads back, through the
    shell's own splitting, as a [cw] command line with options its click
    command declares, and the operation behind it accepts the row: the table
    never lists a command its own gates refuse. *)

From S2P Require Import Prelude PyStr PyText ReviewModels ReviewDebt ShellWords Enums Tasks World Vocab.
From S2P Require Import RearmOwed Lifecycle GateBackoff Clients Crud ReviewGates Requeue Screening Approval ShippedRed NextCommands MustFixOverride.

#[local] Open Scope cw_scope.

Definition ok {A} (r : exn + A) : bool := match r with inr _ => true | inl _ => false end.

(** ** The command lines *)

Definition _STAGE_CHOICES : list string := ["plan"; "impl"; "review"; "finalize"].

(** [dev_queue_requeue]: a backward [--stage] is an inferred regress. *)
Definition cli_requeue_args : RequeueArgs :=
  mkRequeueArgs None false false false false ∅ true true false false None None.

Definition with_stage (v : string) (a : RequeueArgs) : RequeueArgs :=
  mkRequeueArgs (Some v) a.(allow_regress) a.(from_cancelled) a.(from_failed) a.(from_completed)
    a.(ignore_session_ids) a.(idempotent_pending) a.(infer_regress) a.(reset_attempts)
    a.(repin_adopted_head) a.(adopt_recheck) a.(new_feedback).

Definition with_flags (regress cancelled failed completed reset repin : bool) (a : RequeueArgs)
  : RequeueArgs :=
  mkRequeueArgs a.(stage_override) (regress || a.(allow_regress)) (cancelled || a.(from_cancelled))
    (failed || a.(from_failed)) (completed || a.(from_completed)) a.(ignore_session_ids)
    a.(idempotent_pending) a.(infer_regress) (reset || a.(reset_attempts))
    (repin || a.(repin_adopted_head)) a.(adopt_recheck) a.(new_feedback).

(** The options [dev-queue requeue] declares, but for the feedback file; [None]
    is a usage error. *)
Fixpoint requeue_options (opts : list string) (a : RequeueArgs) : option RequeueArgs :=
  match opts with
  | [] => Some a
  | o :: opts' =>
      if String.eqb o "--stage" then
        match opts' with
        | v :: opts'' =>
            if bool_decide (v ∈ _STAGE_CHOICES) then requeue_options opts'' (with_stage v a)
            else None
        | [] => None
        end
      else if String.eqb o "--regress"
      then requeue_options opts' (with_flags true false false false false false a)
      else if String.eqb o "--from-cancelled"
      then requeue_options opts' (with_flags false true false false false false a)
      else if String.eqb o "--from-failed"
      then requeue_options opts' (with_flags false false true false false false a)
      else if String.eqb o "--from-completed"
      then requeue_options opts' (with_flags false false false true false false a)
      else if String.eqb o "--reset-attempts"
      then requeue_options opts' (with_flags false false false false true false a)
      else if String.eqb o "--repin-adopted-head"
      then requeue_options opts' (with_flags false false false false false true a)
      else None
  end.

(** ** What the operations take *)

Section Accept.
Context (clients : Clients) (sessions : list Session) (t : TicketTask).

Definition takes_requeue (opts : list string) : bool :=
  match requeue_options opts cli_requeue_args with
  | Some a => ok (precheck_row clients a t.(client) t)
  | None => false
  end.

(** The guards of [_approve_ticket_locked], of the scope-drift grant and of
    the override that the row decides. *)
Definition takes_approve (opts : list string) : bool :=
  match opts with
  | [] =>
      bool_decide (t.(status) ∈ _APPROVABLE_STATUSES)
      && match clients !! t.(client) with
         | None => false
         | Some c =>
             let stages := resolve_pipeline_stages t c in
             bool_decide (t.(stage) ∈ stages)
             && (bool_decide (t.(status) = QueueItemStatus.AWAITING_OPERATOR_SIGNOFF)
                 || ok (approval_session sessions t stages))
         end
  | [o; paths] => String.eqb o "--scope-drift" && negb (scope_drift_refused t [paths])
  | [o; r; reason] =>
      String.eqb o "--override-must-fix" && String.eqb r "--reason"
      && negb (String.eqb (str_strip reason) "") && ok (_require_codex_must_fix_park t)
  | _ => false
  end.

Definition takes (verb : string) (opts : list string) : bool :=
  if String.eqb verb "requeue" then takes_requeue opts
  else if String.eqb verb "approve" then takes_approve opts
  else bool_decide (opts = []) &&
    if String.eqb verb "unblock"
    then bool_decide (t.(status) = QueueItemStatus.BLOCKED_ON_USER)
         && ok (parked_session sessions t.(session_id))
    else if String.eqb verb RECOVER_RED_PR_VERB then is_red_shipped_row t
    else if String.eqb verb "cancel" then bool_decide (t.(status) = QueueItemStatus.PENDING)
    else String.eqb verb "wait" || String.eqb verb "show".

(** The command, read by the shell, addresses this row and is accepted. *)
Definition accepts (cmd : string) : bool :=
  match shlex_split cmd with
  | Some (p :: q :: verb :: rest) =>
      String.eqb p "cw" &&
      if String.eqb q "queue"
      then String.eqb verb "peek" && bool_decide (rest = ["-c"; t.(client)])
      else String.eqb q "dev-queue" &&
        if String.eqb verb "drain" then bool_decide (rest = ["--held"; "-c"; t.(client)])
        else match rest with
             | tid :: c :: cl :: opts =>
                 String.eqb tid t.(ticket_id) && String.eqb c "-c" && String.eqb cl t.(client)
                 && takes verb opts
             | _ => false
             end
  | _ => false
  end.

(** *** Command lines that are accepted *)

Lemma bare_piece s w :
  s ≠ "" → w = s →
  str_forallb (λ c, negb (is_shell_blank c || Ascii.eqb c backslash || is_shell_quote c)) s = true →
  piece s w.
Proof.
  intros Hne -> H. exists false. split; [done|]. clear Hne.
  induction s as [|c s IH]; intros rest tok quoted.
  { by rewrite sapp_nil_r, orb_false_r. }
  unfold str_forallb in H, IH. cbn in H. rewrite negb_orb, negb_involutive in H.
  apply andb_true_iff in H as [Hc Hs]. rewrite !negb_orb in Hc.
  apply andb_true_iff in Hc as [[H1 H2]%andb_true_iff H3].
  apply negb_true_iff in H1, H2, H3. rewrite sapp_cons. cbn [lex]. rewrite H1, H2, H3.
  rewrite IH by done. by rewrite snoc_app.
Qed.

Lemma reason_piece : piece _REASON_PLACEHOLDER "<why>".
Proof.
  exists true. split; [done|]. intros rest tok quoted. rewrite orb_true_r.
  unfold _REASON_PLACEHOLDER, double_quote. rewrite sapp_cons, !sapp_assoc.
  rewrite !sapp_cons, sapp_nil. cbn. unfold snoc. by rewrite !sapp_assoc.
Qed.

Lemma safe_word s : (negb (String.eqb s "") && str_forallb is_shell_safe s) = true → piece s s.
Proof.
  intros [Hne%negb_true_iff%String.eqb_neq Hs]%andb_true_iff. by apply safe_piece.
Qed.

(** A command of this row reads back as its words. *)
Lemma split_command verb es ws :
  (negb (String.eqb verb "") && str_forallb is_shell_safe verb) = true → Forall2 piece es ws →
  shlex_split (dev_queue_command verb t es)
  = Some (["cw"; "dev-queue"; verb; t.(ticket_id); "-c"; t.(client)] ++ ws).
Proof.
  intros Hv He. unfold dev_queue_command. apply split_pieces. simpl.
  do 6 (constructor; [first [apply quote_piece | by apply safe_word]|]). done.
Qed.

Lemma accepts_command verb es ws :
  (negb (String.eqb verb "") && str_forallb is_shell_safe verb) = true →
  String.eqb verb "drain" = false → Forall2 piece es ws →
  accepts (dev_queue_command verb t es) = takes verb ws.
Proof.
  intros Hv Hd He. unfold accepts. rewrite (split_command verb es ws Hv He). simpl.
  rewrite Hd, !String.eqb_refl. done.
Qed.

Lemma safe_pieces ws :
  forallb (λ s, negb (String.eqb s "") && str_forallb is_shell_safe s) ws = true →
  Forall2 piece ws ws.
Proof.
  induction ws as [|w ws IH]; simpl; [constructor|]. intros [Hw Hs]%andb_true_iff.
  constructor; [by apply safe_word|by apply IH].
Qed.

Lemma accepts_safe verb ws :
  forallb (λ s, negb (String.eqb s "") && str_forallb is_shell_safe s) (verb :: ws) = true →
  String.eqb verb "drain" = false →
  accepts (dev_queue_command verb t ws) = takes verb ws.
Proof.
  cbn [forallb]. intros [Hv Hs]%andb_true_iff Hd. by apply accepts_command, safe_pieces.
Qed.

Lemma accepts_scope_drift :
  accepts (dev_queue_command "approve" t ["--scope-drift"; SCOPE_DRIFT_PATHS_PLACEHOLDER])
  = negb (scope_drift_refused t [SCOPE_DRIFT_PATHS_PLACEHOLDER]).
Proof.
  rewrite (accepts_command "approve" _ ["--scope-drift"; SCOPE_DRIFT_PATHS_PLACEHOLDER]);
    [done..|]. 
  constructor; [by apply safe_word|]. constructor; [|constructor]. by apply bare_piece.
Qed.

Lemma accepts_override :
  accepts (dev_queue_command "approve" t ["--override-must-fix"; "--reason"; _REASON_PLACEHOLDER])
  = ok (_require_codex_must_fix_park t).
Proof.
  rewrite (accepts_command "approve" _ ["--override-must-fix"; "--reason"; "<why>"]); [done..|].
  do 2 (constructor; [by apply safe_word|]). constructor; [apply reason_piece|constructor].
Qed.

Lemma accepts_peek : accepts ("cw queue peek -c " +:+ shlex_quote t.(client)) = true.
Proof.
  unfold accepts.
  assert (H : shlex_split (str_join " " ["cw"; "queue"; "peek"; "-c"; shlex_quote t.(client)])
              = Some ["cw"; "queue"; "peek"; "-c"; t.(client)]).
  { apply split_pieces. do 4 (constructor; [by apply safe_word|]).
    constructor; [apply quote_piece|constructor]. }
  match type of H with shlex_split ?line = _ =>
    match goal with |- context [shlex_split ?cmd] => change cmd with line end end.
  rewrite H. simpl. by apply bool_decide_eq_true_2.
Qed.

Lemma accepts_drain :
  accepts ("cw dev-queue drain --held -c " +:+ shlex_quote t.(client)) = true.
Proof.
  unfold accepts.
  assert (H : shlex_split (str_join " " ["cw"; "dev-queue"; "drain"; "--held"; "-c";
                                         shlex_quote t.(client)])
              = Some ["cw"; "dev-queue"; "drain"; "--held"; "-c"; t.(client)]).
  { apply split_pieces. do 5 (constructor; [by apply safe_word|]).
    constructor; [apply quote_piece|constructor]. }
  match type of H with shlex_split ?line = _ =>
    match goal with |- context [shlex_split ?cmd] => change cmd with line end end.
  rewrite H. simpl. by apply bool_decide_eq_true_2.
Qed.
End Accept.

(** ** Soundness of the table *)

Section Sound.
Context (clients : Clients) (sessions : list Session) (t : TicketTask) (c : ClientConfig).
Context (session : option Session).
Local Abbreviation stages := (resolve_pipeline_stages t c).
Local Abbreviation pos := (pipeline_position t (Some c)).
Local Abbreviation acc := (accepts clients sessions t).

(** The row's client is configured, its pipeline has the two ship stages, the
    session is the one its id names, and the row is not an adoption park. *)
Record listed_for : Prop := {
  lf_client : clients !! t.(client) = Some c;
  lf_review : Stage.REVIEW ∈ stages;
  lf_finalize : Stage.FINALIZE ∈ stages;
  lf_session : match session with
               | Some s => ∃ sid i, t.(session_id) = Some sid
                                    ∧ find_by_name_or_id sessions sid = inr (Some (i, s))
               | None => True
               end;
  lf_drift : t.(disposition) ≠ Some ADOPTED_HEAD_DRIFT_DISPOSITION;
  lf_intake : opt_in t.(disposition) ADOPT_PR_PARK_DISPOSITIONS = false }.

Context (H : listed_for).

Definition approvable : Prop := t.(status) ∈ _APPROVABLE_STATUSES.

Lemma no_adoption_refusal a :
  a.(repin_adopted_head) = false → a.(adopt_recheck) = None →
  adopted_requeue_refusal t a = inr false.
Proof.
  intros Hr Ha. unfold adopted_requeue_refusal. rewrite Hr, Ha. cbn [is_Some_b].
  unfold opt_is at 1 2. rewrite bool_decide_eq_false_2 by apply (lf_drift H).
  by rewrite (lf_intake H).
Qed.

Lemma takes_forward opts a :
  requeue_options opts cli_requeue_args = Some a →
  a.(repin_adopted_head) = false → a.(adopt_recheck) = None → a.(stage_override) = None →
  a.(allow_regress) = false → ok (_forward_gate_applied t a) = true →
  takes_requeue clients t opts = true.
Proof.
  intros Ho Hr Ha Hs Hg Hf. unfold takes_requeue. rewrite Ho. unfold precheck_row.
  rewrite no_adoption_refusal by done. rewrite (lf_client H), Hs, Hg.
  destruct (_forward_gate_applied t a); done.
Qed.

Lemma forward_approvable a : approvable → ok (_forward_gate_applied t a) = true.
Proof.
  intros Ha. unfold _forward_gate_applied. by rewrite bool_decide_eq_true_2 by exact Ha.
Qed.

Lemma takes_stage v s :
  bool_decide (v ∈ _STAGE_CHOICES) = true → Stage.of_value v = Some s → s ∈ stages →
  t.(stage) ∈ stages → approvable → takes_requeue clients t ["--stage"; v] = true.
Proof.
  intros Hv Hof Hs Ht Ha. unfold takes_requeue.
  assert (Ho : requeue_options ["--stage"; v] cli_requeue_args
               = if bool_decide (v ∈ _STAGE_CHOICES) then Some (with_stage v cli_requeue_args)
                 else None) by reflexivity.
  rewrite Ho, Hv. clear Ho.
  unfold precheck_row. rewrite no_adoption_refusal by done. rewrite (lf_client H).
  cbn [with_stage stage_override]. rewrite Hof. cbn [allow_regress infer_regress cli_requeue_args].
  unfold _classify_requeue_move, _validate_requeue_stages.
  rewrite !bool_decide_eq_true_2 by done. cbn [negb orb].
  destruct (stage_before _ _ _); cbn [negb]; [done|].
  pose proof (forward_approvable (with_stage v cli_requeue_args) Ha) as Hf.
  by destruct (_forward_gate_applied t _).
Qed.

(** *** The command lines the table builds *)

Lemma acc_requeue : approvable → acc (dev_queue_command "requeue" t []) = true.
Proof.
  intros Ha. rewrite accepts_safe by done. change (takes_requeue clients t [] = true).
  eapply takes_forward; try done. by apply forward_approvable.
Qed.

Lemma acc_reset : approvable → acc (dev_queue_command "requeue" t ["--reset-attempts"]) = true.
Proof.
  intros Ha. rewrite accepts_safe by done.
  change (takes_requeue clients t ["--reset-attempts"] = true).
  eapply takes_forward; try done. by apply forward_approvable.
Qed.

Lemma acc_from f :
  _FROM_FLAGS t.(status) = Some f → acc (dev_queue_command "requeue" t [f]) = true.
Proof.
  intros Hf. destruct (status t) eqn:Hs; try discriminate Hf; injection Hf as <-;
    rewrite accepts_safe by done; change (takes_requeue clients t _ = true) || idtac;
    match goal with |- takes _ _ _ _ ?o = true => change (takes_requeue clients t o = true)
                  | _ => idtac end;
    (eapply takes_forward; try done); unfold _forward_gate_applied; rewrite Hs; by vm_compute.
Qed.

Lemma acc_to s :
  s = Stage.REVIEW ∨ s = Stage.FINALIZE → approvable → t.(stage) ∈ stages →
  acc (dev_queue_command "requeue" t ["--stage"; Stage.stage_value s]) = true.
Proof.
  intros Hs Ha Ht. rewrite accepts_safe by (by destruct Hs as [->| ->]).
  match goal with |- takes _ _ _ _ ?o = true => change (takes_requeue clients t o = true) end.
  destruct Hs as [->| ->]; eapply takes_stage; try done; apply H.
Qed.

Lemma acc_stage_flag :
  approvable → t.(stage) ∈ stages → acc (dev_queue_command "requeue" t (_stage_flag t)) = true.
Proof.
  intros Ha Ht. unfold _stage_flag. case_bool_decide as Hh; [by apply acc_requeue|].
  unfold stage_name. rewrite accepts_safe by (by destruct (stage t)).
  match goal with |- takes _ _ _ _ ?o = true => change (takes_requeue clients t o = true) end.
  eapply (takes_stage _ (stage t)); try done; by destruct (stage t).
Qed.

Lemma acc_bare verb :
  takes clients sessions t verb [] = true → String.eqb verb "drain" = false →
  (negb (String.eqb verb "") && str_forallb is_shell_safe verb) = true →
  acc (dev_queue_command verb t []) = true.
Proof. intros Ht Hd Hs. rewrite accepts_safe; [done| |done]. by cbn [forallb]; rewrite Hs. Qed.

Lemma acc_approve :
  approvable → t.(stage) ∈ stages →
  (t.(status) = QueueItemStatus.AWAITING_OPERATOR_SIGNOFF
   ∨ ok (approval_session sessions t stages) = true) →
  acc (dev_queue_command "approve" t []) = true.
Proof.
  intros Ha Ht Hs. apply acc_bare; [|done|done].
  match goal with |- ?x = true => change x with (takes_approve clients sessions t []) end.
  unfold takes_approve. rewrite (lf_client H), !bool_decide_eq_true_2 by done. cbn [andb].
  apply orb_true_iff. destruct Hs as [Hs|Hs]; [left|by right]. by apply bool_decide_eq_true_2.
Qed.

Lemma at_gate_session s :
  session = Some s → _not_at_approval_gate s t = false → t.(stage) ∈ stages →
  pos ≠ PipelinePosition.TERMINAL → ok (approval_session sessions t stages) = true.
Proof.
  intros Hs Hg Ht Hp. pose proof (lf_session H) as Hl. rewrite Hs in Hl.
  destruct Hl as (sid & i & Hid & Hf). unfold approval_session. rewrite Hid, Hf, Hg.
  unfold pipeline_position in Hp. by destruct (stage_position _ _).
Qed.
(** *** The rules *)

Definition good (cs : list NextCommand) : Prop :=
  cs ≠ [] ∧ Forall (λ x, acc x.(command) = true) cs.

(** A parked or held row that got past the off-pipeline reply is on the
    pipeline. *)
Definition placed : Prop := t.(status) ∈ _OFF_PIPELINE_STATUSES → t.(stage) ∈ stages.

Definition rule_good (r : _Rule) : Prop :=
  (∀ pc, _position_commands r t pos = Some pc → good pc)
  ∧ (_position_commands r t pos = None →
       (∀ f, r.(session_commands) = Some f → good (f t session))
       ∧ (∀ f, r.(opted_in_commands) = Some f → good (f t))
       ∧ (r.(session_commands) = None → good (r.(commands) t))).

Lemma blocked_status : _is_blocked t = true → t.(status) = QueueItemStatus.BLOCKED_ON_USER.
Proof. apply bool_decide_eq_true. Qed.

Lemma blocked_approvable : _is_blocked t = true → approvable.
Proof. intros Hb%blocked_status. unfold approvable. rewrite Hb. vocab_decide. Qed.

Lemma blocked_placed : _is_blocked t = true → placed → t.(stage) ∈ stages.
Proof. intros Hb%blocked_status Hp. apply Hp. rewrite Hb. vocab_decide. Qed.

Lemma kept_approvable : is_human_kept_gate t = true → approvable.
Proof.
  unfold is_human_kept_gate, approvable. case_bool_decide as Hs; [rewrite Hs; intros _; vocab_decide|].
  case_bool_decide as Hb; [rewrite Hb; intros _; vocab_decide|done].
Qed.

Lemma off_status_approvable : t.(status) ∈ _OFF_PIPELINE_STATUSES → approvable.
Proof.
  unfold approvable. intros Hs. 
  assert (He : _OFF_PIPELINE_STATUSES = _APPROVABLE_STATUSES) by reflexivity. by rewrite <- He.
Qed.

Lemma off_good : t.(status) ∈ _OFF_PIPELINE_STATUSES → good (_off_pipeline_commands t).
Proof.
  intros Hs%off_status_approvable. split; [done|]. unfold _off_pipeline_commands.
  constructor; [by apply acc_bare|]. constructor; [|constructor].
  by destruct (is_human_kept_gate t); apply acc_requeue.
Qed.

Lemma rule_good_intro r :
  (_is_blocked t = true → t.(stage) ∈ stages → ∀ f, r.(terminal_commands) = Some f → good (f t)) →
  (placed → ∀ f, r.(session_commands) = Some f → good (f t session)) →
  (placed → ∀ f, r.(opted_in_commands) = Some f → good (f t)) →
  (placed → r.(session_commands) = None →
   (_is_blocked t = true → pos = PipelinePosition.TERMINAL → r.(terminal_commands) = None) →
   good (r.(commands) t)) →
  rule_good r.
Proof.
  intros Hterm Hsess Hopt Hcmd. unfold rule_good, _position_commands.
  case_bool_decide as Hoff; cbn [andb].
  - case_bool_decide as Hs.
    + split; [|done]. intros pc [= <-]. by apply off_good.
    + rewrite bool_decide_eq_false_2 by (by rewrite Hoff). cbn [andb].
      assert (Hp : placed) by (intros Hx; by destruct Hs).
      split; [done|]. intros _. split; [by apply Hsess|]. split; [by apply Hopt|].
      intros Hn. apply Hcmd; [done|done|]. by rewrite Hoff.
  - assert (Hin : t.(stage) ∈ stages).
    { unfold pipeline_position, stage_position in Hoff.
      destruct (decide (t.(stage) ∈ stages)) as [Hi|Hi]; [done|].
      by rewrite bool_decide_eq_false_2 in Hoff. }
    assert (Hp : placed) by (intros _; exact Hin).
    case_bool_decide as Ht; cbn [andb].
    + destruct (_is_blocked t) eqn:Hb.
      * destruct (terminal_commands r) as [f|] eqn:Hf.
        -- split; [|done]. intros pc [= <-]. by apply Hterm.
        -- split; [done|]. intros _. split; [by apply Hsess|]. split; [by apply Hopt|].
           intros Hn. by apply Hcmd.
      * split; [done|]. intros _. split; [by apply Hsess|]. split; [by apply Hopt|].
        intros Hn. by apply Hcmd.
    + split; [done|]. intros _. split; [by apply Hsess|]. split; [by apply Hopt|].
      intros Hn. apply Hcmd; [done|done|]. done.
Qed.

(** A rule with no variant but its commands. *)
Lemma plain_good m cs : (placed → good (cs t)) → rule_good (plain_rule m cs).
Proof. intros Hc. apply rule_good_intro; try done. intros Hp _ _. by apply Hc. Qed.

Lemma good_one x : acc x.(command) = true → good [x].
Proof. intros Hx. split; [done|]. by constructor. Qed.

Lemma good_two x y : acc x.(command) = true → acc y.(command) = true → good [x; y].
Proof. intros Hx Hy. split; [done|]. by repeat constructor. Qed.
(** The stage-moving replies of a parked row. *)
Ltac one_requeue := apply good_one; first
  [ by apply acc_requeue | by apply acc_stage_flag | apply acc_to; [by auto|done|done] ].

Lemma stale_tip_good :
  _finalize_stale_tip_park t session = true →
  rule_good (mkRule _finalize_stale_tip_park _generic_commands None None
               (Some _finalize_stale_tip_park_commands)).
Proof.
  intros Hm. assert (Hb : _is_blocked t = true).
  { unfold _finalize_stale_tip_park, _stale_tip_park_reason, _finalize_park_result in Hm.
    destruct (_is_blocked t); [done|]. discriminate Hm. }
  pose proof (blocked_approvable Hb) as Ha.
  apply rule_good_intro; try done. intros Hp f [= <-].
  pose proof (blocked_placed Hb Hp) as Hi. unfold _finalize_stale_tip_park_commands.
  destruct (String.eqb _ _), (is_human_kept_gate t); one_requeue.
Qed.

Lemma approval_park_good :
  _finalize_approval_park t session = true →
  rule_good (mkRule _finalize_approval_park _finalize_approval_park_commands None
               (Some _finalize_approval_park_commands) None).
Proof.
  intros Hm. assert (Hb : _is_blocked t = true).
  { unfold _finalize_approval_park, _finalize_park_result in Hm.
    destruct (_is_blocked t); [done|]. discriminate Hm. }
  pose proof (blocked_approvable Hb) as Ha.
  apply rule_good_intro; try done.
  - intros _ Hi f [= <-]. one_requeue.
  - intros Hp _ _. pose proof (blocked_placed Hb Hp) as Hi. one_requeue.
Qed.

Lemma off_gate_good :
  _human_gate_off_gate t session = true →
  rule_good (mkRule _human_gate_off_gate _human_gate_off_gate_commands None
               (Some _human_gate_off_gate_terminal_commands) None).
Proof.
  intros [[Hk Hb]%andb_true_iff _]%andb_true_iff. pose proof (blocked_approvable Hb) as Ha.
  apply rule_good_intro; try done.
  - intros _ Hi f [= <-]. one_requeue.
  - intros Hp _ _. pose proof (blocked_placed Hb Hp) as Hi. one_requeue.
Qed.

Lemma human_gate_good :
  _human_gate_off_gate t session = false → _human_gate t session = true →
  rule_good (mkRule _human_gate _human_gate_commands None (Some _human_gate_terminal_commands)
               None).
Proof.
  intros Hoff Hk. pose proof (kept_approvable Hk) as Ha. apply rule_good_intro; try done.
  - intros _ Hi f [= <-]. one_requeue.
  - intros Hp _ Hterm. cbn in Hterm. apply good_one.
    destruct (_is_blocked t) eqn:Hb.
    + pose proof (blocked_placed Hb Hp) as Hi. apply acc_approve; [done|done|right].
      unfold _human_gate_off_gate in Hoff. rewrite Hb in Hoff.
      change (is_human_kept_gate t = true) in Hk. rewrite Hk in Hoff.
      assert (Hs : ∃ s, session = Some s ∧ _not_at_approval_gate s t = false)
        by (destruct session; [by eauto|done]).
      destruct Hs as (s & Hs & Hn). eapply at_gate_session; try done.
      intros Hx. by specialize (Hterm eq_refl Hx).
    + assert (Hs : t.(status) = QueueItemStatus.AWAITING_OPERATOR_SIGNOFF).
      { unfold _human_gate, is_human_kept_gate in Hk. case_bool_decide; [done|].
        unfold _is_blocked in Hb. rewrite Hb in Hk. done. }
      apply acc_approve; [done| |by left]. apply Hp. rewrite Hs. vocab_decide.
Qed.

Lemma pending_good :
  _pending t session = true → rule_good (plain_rule _pending _pending_commands).
Proof.
  intros Hm. apply plain_good. intros _. apply good_two; apply acc_bare; try done.
Qed.

Lemma running_good : rule_good (plain_rule _running _running_commands).
Proof. apply plain_good. intros _. apply good_two; [by apply acc_bare|apply accepts_peek]. Qed.

Lemma red_shipped_good :
  _red_shipped t session = true → rule_good (plain_rule _red_shipped _red_shipped_commands).
Proof. intros Hm. apply plain_good. intros _. apply good_one. by apply acc_bare. Qed.

Lemma terminal_good :
  _terminal t session = true → rule_good (plain_rule _terminal _terminal_commands).
Proof.
  intros Hm. apply plain_good. intros _. apply good_one. cbn.
  unfold _terminal in Hm. destruct (_FROM_FLAGS (status t)) as [f|] eqn:Hf; [|done].
  by apply acc_from.
Qed.

Lemma scope_drift_good :
  _scope_drift t session = true → rule_good (plain_rule _scope_drift _scope_drift_commands).
Proof.
  intros [[Hb Hr]%andb_true_iff Hi]%andb_true_iff. apply plain_good. intros _.
  apply good_two; [|by apply acc_requeue, blocked_approvable].
  cbn [command _approve]. rewrite accepts_scope_drift. unfold scope_drift_refused.
  unfold _is_blocked in Hb. by rewrite Hb, Hr, Hi.
Qed.

Lemma must_fix_park :
  _must_fix t session = true → ok (_require_codex_must_fix_park t) = true.
Proof.
  intros [Hb Hr]%andb_true_iff. unfold _require_codex_must_fix_park.
  unfold _is_blocked in Hb. by rewrite Hb, Hr.
Qed.

Lemma must_fix_lines :
  _must_fix t session = true → placed →
  (∀ p, acc (_override_must_fix t p).(command) = true)
  ∧ ∀ p, acc (_ship_under_override t p).(command) = true.
Proof.
  intros Hm Hp. pose proof Hm as [Hb _]%andb_true_iff. split; intros p; cbn [command].
  - unfold _override_must_fix, _approve. cbn [command]. rewrite accepts_override.
    by apply must_fix_park.
  - apply acc_to; [by right|by apply blocked_approvable|by apply blocked_placed].
Qed.

Lemma overridden_good :
  _must_fix_overridden t session = true →
  rule_good (mkRule _must_fix_overridden _must_fix_overridden_commands
               (Some _must_fix_overridden_held_commands) None None).
Proof.
  intros [Hm _]%andb_true_iff. apply rule_good_intro; try done.
  - intros Hp f [= <-]. destruct (must_fix_lines Hm Hp) as [Ho _]. by apply good_one.
  - intros Hp _ _. destruct (must_fix_lines Hm Hp) as [Ho Hs]. by apply good_two.
Qed.

Lemma must_fix_good :
  _must_fix t session = true →
  rule_good (mkRule _must_fix _must_fix_commands (Some _must_fix_held_commands) None None).
Proof.
  intros Hm. apply rule_good_intro; try done.
  - intros Hp f [= <-]. destruct (must_fix_lines Hm Hp) as [Ho _]. by apply good_one.
  - intros Hp _ _. destruct (must_fix_lines Hm Hp) as [Ho Hs]. by apply good_two.
Qed.

Lemma capped_good :
  _attempt_capped t session = true →
  rule_good (plain_rule _attempt_capped _attempt_capped_commands).
Proof.
  intros [Hb _]%andb_true_iff. apply plain_good. intros _. apply good_one.
  by apply acc_reset, blocked_approvable.
Qed.

Lemma salvage_good :
  _salvage_parked t session = true →
  rule_good (plain_rule _salvage_parked _salvage_commands).
Proof.
  intros [Hb Hs]%andb_true_iff. apply plain_good. intros _.
  apply good_two; [|by apply acc_requeue, blocked_approvable].
  apply acc_bare; [|done|done].
  assert (Hx : ∃ s, session = Some s ∧ opt_is s.(sess_reap_reason) SALVAGE_PARKED_value = true)
    by (destruct session; [by eauto|done]).
  destruct Hx as (s & Es & Hx). pose proof (lf_session H) as Hl. rewrite Es in Hl.
  destruct Hl as (sid & i & Hid & Hf).
  change (bool_decide (t.(status) = QueueItemStatus.BLOCKED_ON_USER)
          && ok (parked_session sessions t.(session_id)) = true).
  unfold _is_blocked in Hb. rewrite Hb. unfold parked_session. rewrite Hid, Hf. cbn [snd].
  by rewrite Hx.
Qed.

Lemma drain_good :
  _drain_held t session = true → rule_good (plain_rule _drain_held _drain_commands).
Proof.
  intros [Hb _]%andb_true_iff. apply plain_good. intros _.
  apply good_two; [by apply acc_requeue, blocked_approvable|apply accepts_drain].
Qed.

Lemma gate_good :
  _at_approval_gate t session = true →
  rule_good (mkRule _at_approval_gate _gate_commands None (Some _gate_terminal_commands) None).
Proof.
  intros [Hb Hg]%andb_true_iff. pose proof (blocked_approvable Hb) as Ha.
  apply rule_good_intro; try done.
  - intros _ Hi f [= <-]. one_requeue.
  - intros Hp _ Hterm. pose proof (blocked_placed Hb Hp) as Hi.
    apply good_two; [|by apply acc_stage_flag].
    assert (Hs : ∃ s, session = Some s ∧ _not_at_approval_gate s t = false)
      by (destruct session; [apply negb_true_iff in Hg; by eauto|done]).
    destruct Hs as (s & Hs & Hn).
    apply acc_approve; [done|done|right]. eapply at_gate_session; try done.
    intros Hx. by specialize (Hterm Hb Hx).
Qed.

Lemma sessionless_good :
  _sessionless t session = true → rule_good (plain_rule _sessionless _sessionless_commands).
Proof.
  intros [Hb _]%andb_true_iff. apply plain_good. intros _. apply good_one.
  by apply acc_requeue, blocked_approvable.
Qed.

Lemma generic_good :
  _human_gate t session = false → _pending t session = false → _running t session = false →
  _terminal t session = false → rule_good (plain_rule _anything _generic_commands).
Proof.
  intros Hg Hp Hr Ht. apply plain_good. intros _. apply good_one. apply acc_requeue.
  apply blocked_approvable. unfold _pending, _running, _terminal, _human_gate,
    is_human_kept_gate, _is_blocked in *.
  destruct (status t); try discriminate; done.
Qed.
(** The first rule that matches. *)
Lemma chosen_rule :
  ∃ r, find (λ r, r.(matches) t session) _RULES = Some r ∧ rule_good r.
Proof.
  unfold _RULES, plain_rule. cbn [find matches].
  destruct (_finalize_stale_tip_park t session) eqn:E1; [by eexists; split; [|apply stale_tip_good]|].
  destruct (_finalize_approval_park t session) eqn:E2;
    [by eexists; split; [|apply approval_park_good]|].
  destruct (_human_gate_off_gate t session) eqn:E3; [by eexists; split; [|apply off_gate_good]|].
  destruct (_human_gate t session) eqn:E4; [by eexists; split; [|apply human_gate_good]|].
  destruct (_pending t session) eqn:E5; [by eexists; split; [|apply pending_good]|].
  destruct (_running t session) eqn:E6; [by eexists; split; [|apply running_good]|].
  destruct (_red_shipped t session) eqn:E7; [by eexists; split; [|apply red_shipped_good]|].
  destruct (_terminal t session) eqn:E8; [by eexists; split; [|apply terminal_good]|].
  destruct (_scope_drift t session) eqn:E9; [by eexists; split; [|apply scope_drift_good]|].
  destruct (_must_fix_overridden t session) eqn:E10;
    [by eexists; split; [|apply overridden_good]|].
  destruct (_must_fix t session) eqn:E11; [by eexists; split; [|apply must_fix_good]|].
  destruct (_attempt_capped t session) eqn:E12; [by eexists; split; [|apply capped_good]|].
  destruct (_salvage_parked t session) eqn:E13; [by eexists; split; [|apply salvage_good]|].
  destruct (_drain_held t session) eqn:E14; [by eexists; split; [|apply drain_good]|].
  destruct (_at_approval_gate t session) eqn:E15; [by eexists; split; [|apply gate_good]|].
  destruct (_sessionless t session) eqn:E16; [by eexists; split; [|apply sessionless_good]|].
  eexists; split; [done|]. by apply generic_good.
Qed.
End Sound.

(** C13: the program takes every command it tells the operator to run about a row
    that is no adoption park.  For any row whose client is configured and whose pipeline has the review and
    finalize stages, with the session its id names and no adoption park, the
    table answers with at least one command, and each one (a lane resume
    handed in by the caller apart) splits in the shell into a [cw] command of
    this row's ticket and client, with options its command line declares, that
    passes the gates of the operation behind it: [requeue]'s stage, direction
    and status checks, [approve]'s status, stage and approval-gate checks, the
    scope-drift and MUST_FIX checks, [unblock]'s salvage check, or
    [recover-red-pr]'s open episode. *)
Theorem listed_commands_accepted clients sessions t c session opt_in skip lane :
  listed_for clients sessions t c session →
  ∃ cs, next_commands t session opt_in skip lane (pipeline_position t (Some c)) = Some cs
    ∧ cs ≠ []
    ∧ ∀ x, x ∈ cs → accepts clients sessions t x.(command) = true ∨ lane = Some x.(command).
Proof.
  intros H. destruct (chosen_rule clients sessions t c session H) as (r & Hr & Hpos & Hneg).
  unfold next_commands. rewrite Hr. cbn [mbind option_bind]. eexists. split; [reflexivity|].
  assert (Hgood : ∀ cs, good clients sessions t cs →
    cs ≠ [] ∧ ∀ x, x ∈ cs → accepts clients sessions t x.(command) = true
                             ∨ lane = Some x.(command)).
  { intros cs [Hne Hall]. split; [done|]. intros x Hx. left.
    by apply (proj1 (Forall_forall _ _) Hall). }
  destruct (_position_commands r t _) as [pc|] eqn:Ep; [by apply Hgood, Hpos|].
  destruct (Hneg eq_refl) as (Hs & Ho & Hc).
  destruct (session_commands r) as [f|] eqn:Es; [by apply Hgood, Hs|].
  destruct (if opt_in || row_carries_human_opt_in t then opted_in_commands r else None)
    as [f|] eqn:Eo.
  { destruct (opt_in || row_carries_human_opt_in t); [|done]. by apply Hgood, Ho. }
  specialize (Hgood _ (Hc eq_refl)). destruct lane as [resume|]; [|exact Hgood].
  destruct (bool_decide _ && _); [|exact Hgood]. split; [done|].
  intros x [->|Hx]%elem_of_cons; [by right|]. by apply Hgood.
Qed.

(** ** The gates a human keeps *)

(** The one command of a human-kept row that has a place in its pipeline. *)
Definition kept_command (t : TicketTask) (x : NextCommand) : Prop :=
  x.(operator_only) = true
  ∧ ∃ verb es ws, x.(command) = dev_queue_command verb t es ∧ verb ∈ _RELEASE_VERBS
      ∧ Forall2 piece es ws.

Lemma kept_requeue t p es : Forall2 piece es es → kept_command t (_human_requeue t p es).
Proof. intros He. split; [done|]. exists "requeue", es, es. split; [done|]. split; [vocab_decide|done]. Qed.

Lemma kept_stage_flag t p : kept_command t (_human_requeue t p (_stage_flag t)).
Proof.
  apply kept_requeue, safe_pieces. unfold _stage_flag, stage_name.
  case_bool_decide; [done|]. by destruct (stage t).
Qed.

Lemma kept_review t p :
  kept_command t (_human_requeue t p ["--stage"; Stage.stage_value Stage.REVIEW]).
Proof. by apply kept_requeue, safe_pieces. Qed.

Lemma kept_approve t : kept_command t (_approve t (_human_gate_purpose t) [] true).
Proof.
  split; [done|]. exists "approve", [], []. split; [done|]. split; [vocab_decide|constructor].
Qed.

Lemma kept_off_status t : is_human_kept_gate t = true → t.(status) ∈ _OFF_PIPELINE_STATUSES.
Proof.
  unfold is_human_kept_gate. case_bool_decide as Hs; [rewrite Hs; intros _; vocab_decide|].
  case_bool_decide as Hb; [rewrite Hb; intros _; vocab_decide|done].
Qed.

Lemma rule_found t session : ∃ r, find (λ r, r.(matches) t session) _RULES = Some r.
Proof.
  destruct (find _ _) as [r|] eqn:E; [by exists r|]. exfalso.
  assert (Hin : In (plain_rule _anything _generic_commands) _RULES).
  { unfold _RULES. do 16 right. by left. }
  by pose proof (find_none _ _ E _ Hin).
Qed.

Lemma kept_off t session opt_in skip lane :
  is_human_kept_gate t = true →
  next_commands t session opt_in skip lane PipelinePosition.OFF_PIPELINE
  = Some (_off_pipeline_commands t).
Proof.
  intros Hk%kept_off_status. unfold next_commands.
  destruct (rule_found t session) as [r ->]. cbn [mbind option_bind].
  unfold _position_commands. by rewrite !bool_decide_eq_true_2 by done.
Qed.

Lemma find_prefix {A} (p : A → bool) l1 l2 r :
  find p l1 = Some r → find p (l1 ++ l2) = Some r.
Proof. induction l1 as [|x l1 IH]; simpl; [done|]. by destruct (p x). Qed.

(** The rules that can answer for a human-kept row. *)
Definition kept_rules : list _Rule := take 4 _RULES.

Lemma kept_rule t session :
  is_human_kept_gate t = true →
  ∃ r, find (λ r, r.(matches) t session) _RULES = Some r ∧ r ∈ kept_rules.
Proof.
  intros Hk. assert (H4 : ∃ r, find (λ r, r.(matches) t session) kept_rules = Some r).
  { destruct (find _ kept_rules) as [r|] eqn:E; [by exists r|]. exfalso.
    assert (Hin : In (mkRule _human_gate _human_gate_commands None
                        (Some _human_gate_terminal_commands) None) kept_rules)
      by (do 3 right; by left).
    pose proof (find_none _ _ E _ Hin) as Hx. cbn [matches] in Hx.
    unfold _human_gate in Hx. by rewrite Hk in Hx. }
  destruct H4 as [r Hr]. exists r. split; [|by apply find_some in Hr as [?%list_elem_of_In _]].
  rewrite <- (take_drop 4 _RULES). by apply find_prefix.
Qed.

Definition one_kept (t : TicketTask) (cs : list NextCommand) : Prop :=
  ∃ x, cs = [x] ∧ kept_command t x.

Lemma one_kept_stage t p : one_kept t [_human_requeue t p (_stage_flag t)].
Proof. eexists. split; [done|]. apply kept_stage_flag. Qed.

Lemma one_kept_review t p :
  one_kept t [_human_requeue t p ["--stage"; Stage.stage_value Stage.REVIEW]].
Proof. eexists. split; [done|]. apply kept_review. Qed.

Lemma one_kept_stale t session :
  is_human_kept_gate t = true → one_kept t (_finalize_stale_tip_park_commands t session).
Proof.
  intros Hk. unfold _finalize_stale_tip_park_commands. rewrite Hk.
  destruct (String.eqb _ _); [apply one_kept_stage|apply one_kept_review].
Qed.

(** Each of the answers of those rules is one labelled command. *)
Lemma kept_answers t session r :
  is_human_kept_gate t = true → r ∈ kept_rules →
  r.(opted_in_commands) = None
  ∧ (∀ f, r.(terminal_commands) = Some f → one_kept t (f t))
  ∧ (∀ f, r.(session_commands) = Some f → one_kept t (f t session))
  ∧ (r.(session_commands) = None → one_kept t (r.(commands) t)).
Proof.
  intros Hk Hr. apply elem_of_cons in Hr as [->|[->|[->|[->|[]%not_elem_of_nil]%elem_of_cons]
    %elem_of_cons]%elem_of_cons];
    cbn [opted_in_commands terminal_commands session_commands commands];
    (split; [done|]); split_and!; try done.
  - intros f [= <-]. by apply one_kept_stale.
  - intros f [= <-]. apply one_kept_review.
  - intros _. apply one_kept_review.
  - intros f [= <-]. apply one_kept_stage.
  - intros _. apply one_kept_stage.
  - intros f [= <-]. apply one_kept_stage.
  - intros _. eexists. split; [done|]. apply kept_approve.
Qed.

Lemma kept_on t session opt_in skip lane pos :
  is_human_kept_gate t = true → pos ≠ PipelinePosition.OFF_PIPELINE →
  ∃ x, next_commands t session opt_in skip lane pos = Some [x] ∧ kept_command t x.
Proof.
  intros Hk Hpos. pose proof (kept_off_status t Hk) as Hst.
  assert (Hnp : bool_decide (t.(status) = QueueItemStatus.PENDING) = false).
  { apply bool_decide_eq_false_2. intros E. rewrite E in Hst. revert Hst.
    apply (bool_decide_unpack _). by vm_compute. }
  destruct (kept_rule t session Hk) as (r & Hr & Hin).
  destruct (kept_answers t session r Hk Hin) as (Ho & Ht & Hs & Hc).
  assert (Hgo : ∀ cs, one_kept t cs → ∃ x, Some cs = Some [x] ∧ kept_command t x)
    by (intros cs (x & -> & Hx); by exists x).
  unfold next_commands. rewrite Hr. cbn [mbind option_bind]. unfold _position_commands.
  rewrite (bool_decide_eq_false_2 (pos = PipelinePosition.OFF_PIPELINE)) by done.
  rewrite Hnp, Ho. cbn [andb].
  assert (Hrest : ∃ x, Some match session_commands r with
      | Some cs => cs t session
      | None => commands r t end = Some [x] ∧ kept_command t x).
  { destruct (session_commands r) as [f|]; apply Hgo; auto. }
  destruct (bool_decide _ && _); [destruct (terminal_commands r) as [f|]; [by apply Hgo, Ht|]|];
    (destruct (session_commands r) as [f|]; [exact Hrest|]);
    destruct (opt_in || _), lane; exact Hrest.
Qed.

Lemma kept_verb t x :
  kept_command t x →
  ∃ tokens verb, shlex_split x.(command) = Some tokens ∧ tokens !! 2 = Some verb
    ∧ take 1 (drop 2 tokens) = [verb] ∧ verb ∈ _RELEASE_VERBS.
Proof.
  intros (_ & verb & es & ws & -> & Hv & He). eexists _, verb.
  split; [apply (split_command t verb es ws); [|done]|done].
  unfold _RELEASE_VERBS in Hv. set_unfold in Hv. by destruct Hv as [->| ->].
Qed.

(** What a refusal of a human-kept row says: the release is the human's, or
    (its one command left out) only [show]. *)
Definition kept_refusal (t : TicketTask) (text : string) : Prop :=
  (∃ tail, text = " This row is " +:+ _row_state t
     +:+ ". This is a human-kept gate the operator opted into: an agent must not approve, release or requeue it. Notify the human operator."
     +:+ tail)
  ∨ ∃ guidance, text = " " +:+ str_join " "
      (("This row is " +:+ _row_state t +:+ ".") :: guidance
       ++ [run_sentence "Run" (mkNextCommand (dev_queue_command "show" t []) _SHOW_PURPOSE false)])
      ∧ ∀ g, g ∈ guidance → g ∈ _PARK_GUIDANCE.*2.

Lemma assoc_str_elem k d v : assoc_str k d = Some v → v ∈ d.*2.
Proof.
  unfold assoc_str. destruct (find _ d) as [[k' v']|] eqn:E; [|done]. intros [= <-].
  apply find_some in E as [Hin _]. apply list_elem_of_fmap. exists (k', v').
  split; [done|by apply list_elem_of_In].
Qed.

Lemma kept_refusal_text t session skip pos x :
  next_commands t session false None None pos = Some [x] → kept_command t x →
  ∃ text, refusal_suffix t session skip pos = Some text ∧ kept_refusal t text.
Proof.
  intros Hx Hkx. destruct (kept_verb t x Hkx) as (tokens & verb & Hs & H2 & Hv & _).
  destruct Hkx as [Ho _]. unfold refusal_suffix. rewrite Hx. cbn [mbind option_bind unskipped].
  assert (Hb : ∃ b, _skipped x.(command) skip = Some b).
  { unfold _skipped. destruct skip as [s|]; [|by eexists]. rewrite Hs. cbn. rewrite H2.
    by eexists. }
  destruct Hb as [b Hb]. rewrite Hb. cbn [mbind option_bind]. destruct b.
  - eexists. split; [reflexivity|]. right.
    eexists (match assoc_str _ _ with Some guidance => [guidance] | None => [] end).
    split; [by rewrite app_nil_r|].
    destruct (assoc_str _ _) as [g|] eqn:E; intros g'; [|by intros ?%not_elem_of_nil].
    intros ->%list_elem_of_singleton. by eapply assoc_str_elem.
  - unfold is_human_gate_command. rewrite Ho. cbn [mbind option_bind].
    unfold _human_gate_refusal, _verb_token. rewrite Hs. cbn [mbind option_bind]. rewrite Hv.
    eexists. split; [reflexivity|]. left. eexists. rewrite !sapp_assoc. reflexivity.
Qed.

(** an agent is never told to release a gate a human keeps.  For a row
    awaiting sign-off, held at finalize or parked at a large-tier gate, every
    listed command is flagged operator-only, but for [show] of a row that is off
    its pipeline; and a refusal of a row on its pipeline, whatever command it
    leaves out, either says that an agent must not release the row or offers
    [show] alone. *)
Theorem human_gate_is_never_offered t session opt_in skip lane pos :
  is_human_kept_gate t = true →
  (∃ cs, next_commands t session opt_in skip lane pos = Some cs
     ∧ ∀ x, x ∈ cs → x.(operator_only) = true ∨ x.(command) = dev_queue_command "show" t [])
  ∧ (pos ≠ PipelinePosition.OFF_PIPELINE →
     ∃ text, refusal_suffix t session skip pos = Some text ∧ kept_refusal t text).
Proof.
  intros Hk. split.
  - destruct (decide (pos = PipelinePosition.OFF_PIPELINE)) as [->|Hpos].
    + eexists. split; [by apply kept_off|]. unfold _off_pipeline_commands. rewrite Hk.
      intros x [->|[->|[]%not_elem_of_nil]%elem_of_cons]%elem_of_cons; [by right|by left].
    + destruct (kept_on t session opt_in skip lane pos Hk Hpos) as (x & Hx & [Ho _]).
      eexists. split; [done|]. intros y ->%list_elem_of_singleton. by left.
  - intros Hpos. destruct (kept_on t session false None None pos Hk Hpos) as (x & Hx & Hkx).
    by apply (kept_refusal_text _ _ _ _ x).
Qed.

(** ** A listed command that is refused *)

(** a row parked for a moved adopted head is listed a plain [requeue], which
    [requeue] refuses: only [--repin-adopted-head] releases the row, and the
    table never names it. *)
Theorem drift_row_is_listed_a_refused_requeue clients sessions t session :
  t.(status) = QueueItemStatus.BLOCKED_ON_USER →
  t.(disposition) = Some ADOPTED_HEAD_DRIFT_DISPOSITION → t.(blocked_reason) = None →
  session = None →
  ∃ x, next_commands t session false None None PipelinePosition.INTERIOR = Some [x]
    ∧ x.(command) = dev_queue_command "requeue" t []
    ∧ accepts clients sessions t x.(command) = false
    ∧ (is_Some (clients !! t.(client)) → t.(stage) ∈ _REPIN_ALLOWED_STAGES →
       accepts clients sessions t (dev_queue_command "requeue" t ["--repin-adopted-head"]) = true).
Proof.
  intros Hs Hd Hb ->. exists (mkNextCommand (dev_queue_command "requeue" t [])
    "session not found; approve refuses, re-run the stage" false).
  split; [|split; [done|split]].
  - assert (Hk : is_human_kept_gate t = false).
    { unfold is_human_kept_gate. rewrite Hs, Hd. cbn. by rewrite andb_false_r. }
    unfold next_commands, _RULES, plain_rule. cbn [find matches].
    unfold _finalize_stale_tip_park, _stale_tip_park_reason, _finalize_approval_park,
      _finalize_park_result, _human_gate_off_gate, _human_gate, _pending, _running, _red_shipped,
      is_red_shipped_row, _terminal, _scope_drift, _must_fix_overridden, _must_fix,
      _attempt_capped, _salvage_parked, _drain_held, _at_approval_gate, _sessionless, _is_blocked.
    rewrite Hk, Hs, Hd, Hb. cbn [is_Some_b negb]. rewrite !andb_false_r. by destruct (_ || _).
  - cbn [command]. rewrite accepts_safe by done.
    change (takes_requeue clients t [] = false). unfold takes_requeue. cbn [requeue_options].
    unfold precheck_row, adopted_requeue_refusal. cbn [repin_adopted_head cli_requeue_args].
    unfold opt_is at 1. by rewrite bool_decide_eq_true_2 by exact Hd.
  - intros [c Hc] Ha. rewrite accepts_safe by done.
    change (takes_requeue clients t ["--repin-adopted-head"] = true). unfold takes_requeue.
    change (requeue_options ["--repin-adopted-head"] cli_requeue_args)
      with (Some (with_flags false false false false false true cli_requeue_args)).
    unfold precheck_row, adopted_requeue_refusal, _repin_target_stage.
    cbn [with_flags cli_requeue_args repin_adopted_head adopt_recheck stage_override orb is_Some_b].
    rewrite Hd. rewrite (bool_decide_eq_true_2 (t.(stage) ∈ _)) by done.
    change (opt_is (Some ADOPTED_HEAD_DRIFT_DISPOSITION) ADOPTED_HEAD_DRIFT_DISPOSITION) with true.
    cbn [negb andb orb].
    change (opt_in (Some ADOPTED_HEAD_DRIFT_DISPOSITION) ADOPT_PR_PARK_DISPOSITIONS) with false.
    cbn [negb andb orb]. rewrite Hc. unfold _forward_gate_applied.
    rewrite Hs. by vm_compute.
Qed.
