(* ===== verification/SignalsDemo.v ===== *)
(** * The override, pull request and recovery claims at concrete inputs *)

From stdpp Require Import sorting.
From S2P Require Import Prelude PyStr PyText GhReads Markers ReviewModels ReviewDebt TextMatch Findings Enums Tasks World Vocab Adjudication ConvergenceModels Convergence MergeTolerance ConvergenceProps ConvergenceLife ConvergenceSafety.
From S2P Require Import RearmOwed Lifecycle GateBackoff Clients LaneCircuit LaneCircuitProps Crud CrudProps ReviewGates PrHydrate PrHydrateProps Requeue RequeueProps RequeueContract PlanFingerprint Approval ApprovalProps ApprovalContract ShippedRed ShippedRedProps ShippedRedContract ApprovalDemo NextCommands MustFixOverride NextCommandsProps ShellWords.

#[local] Open Scope cw_scope.
#[local] Existing Instances demo_clock demo_gate demo_ops no_redaction.

(** ** The override *)

#[local] Instance ascii_case : CaseData := {|
  wide_lower := λ w, w; wide_word_char := λ _, true |}.
#[local] Instance demo_login : Login := Some "mona".

Definition must_fix (summary : string) : Finding :=
  mkFinding MUST_FIX "a.py" (Some 7%Z) None summary "c" "s" "open(p)" HIGH None false false
    "" "" "" "" "".

(** The second finding is the first one, moved; the third is another one. *)
Definition blocking_verdict : ReviewVerdict :=
  mkReviewVerdict true
    [must_fix "Leaks a handle at line 12"; must_fix "leaks a  handle:40"; must_fix "no timeout"]
    "s2" [] [] [] (derive_review_counts [] 0 1 0 None None) [] [] [] 0 []
    0 None None [] true 0 0 None [] [] [] [].

#[local] Instance demo_override : OverrideEnv := {|
  validate_envelope := λ s, if String.eqb s "verdict"
    then Some (mkReviewVerdictEnvelope "T-1" blocking_verdict) else None;
  validate_ledger := λ s, if String.eqb s "ledger" then Some Sample.done_ else None |}.

Definition clean_clients : Clients :=
  {[ "acme" := mkClientConfig "main" "dev" [] (mkStagePipelineConfig None ∅) false None "clean"
                 None ]}.

Definition must_fix_park : TicketTask :=
  (demo_parked Stage.REVIEW) <| blocked_reason := Some CODEX_MUST_FIX_FINDINGS |>.

Definition override_world (ledger : string) : ApWorld :=
  mkApWorld (demo_queue [must_fix_park])
    {[ "/wt/.claude/review-verdict.json" := "verdict";
       "/wt/.cw/review-convergence.json" := ledger ]} [] 0.

Local Abbreviation override l reason :=
  (@approve_must_fix_override_ticket demo_clock demo_gate demo_io ascii_case demo_login
     demo_override clean_clients "T-1" "acme" reason (override_world l)).

(** Two identities for three findings; without a valid ledger, a refusal. *)
Lemma override_binds_verdict_witness :
  match override "ledger" "  shipping it " with
  | (inr res, w') =>
      res.(ap_finding_ids) = [("a.py", "leaks a handle"); ("a.py", "no timeout")]
      ∧ ∃ o, q_tasks w'.(aw_queue) = [must_fix_park <| must_fix_override := Some o |>]
             ∧ identifies blocking_verdict o.(mfo_finding_ids)
  | _ => False
  end
  ∧ match override "half" "shipping it" with
    | (inl e, w') => e = ApproveGateError ∧ q_tasks w'.(aw_queue) = [must_fix_park]
    | _ => False
    end.
Proof.
  split.
  - assert (Hc : match override "ledger" "  shipping it " with
                 | (inr res, w') => bool_decide (res.(ap_finding_ids)
                     = [("a.py", "leaks a handle"); ("a.py", "no timeout")])
                 | _ => false end = true) by (vm_compute; reflexivity).
    destruct (override _ _) as [[e|res] w'] eqn:H; [discriminate Hc|].
    split; [by apply bool_decide_eq_true in Hc|].
    destruct (override_binds_verdict clean_clients "T-1" "acme" _ _ _ _ H)
      as (_ & _ & i & t & c & v & o & Hf & _ & _ & _ & (wt & text & Hwt & Htx & Hv & _) & _
          & Hs & _ & _ & _ & _ & Hids & _).
    vm_compute in Hf. injection Hf as <- <-. vm_compute in Hwt. injection Hwt as <-.
    vm_compute in Htx. injection Htx as <-. cbn in Hv. injection Hv as <-.
    exists o. split; [|exact Hids]. destruct Hs as [Hs _]. unfold q_tasks. by rewrite Hs.
  - assert (Hc : match override "half" "shipping it" with
                 | (inl e, _) => bool_decide (e = ApproveGateError)
                 | _ => false end = true) by (vm_compute; reflexivity).
    destruct (override _ _) as [[e|res] w'] eqn:H; [|discriminate Hc].
    split; [by apply bool_decide_eq_true in Hc|].
    destruct (override_binds_verdict clean_clients "T-1" "acme" _ _ _ _ H) as (_ & _ & Hs & _).
    unfold q_tasks. by rewrite Hs.
Defined.

(** ** Pull request observations *)


#[local] Instance no_wide_words : UnicodeData := λ _, true.


Definition observed (ci : bool) (at_ : Z) : PrState :=
  mkPrState "OPEN" None "CLEAN" ci "" None false 0 0 [] at_.

Definition watched_row : TicketTask :=
  (demo_parked Stage.FINALIZE) <| pr_url := Some "https://github.com/acme/app/pull/7" |>
    <| pr_state := Some (observed true 1) |>.

(** The checks fail, then the same poll again. *)
Lemma repeated_observation_is_silent_witness :
  let w := demo_queue [watched_row] in
  let w1 := exec (apply_pr_state_observation "acme" "T-1" (Some (observed false 2)) None) w in
  let w2 := exec (apply_pr_state_observation "acme" "T-1" (Some (observed false 3)) None) w1 in
  length w1.(q_events) = 1 ∧ w2.(q_events) = w1.(q_events)
  ∧ map pr_state (q_tasks w2) = [Some (observed false 3)].
Proof.
  set (w := demo_queue [watched_row]).
  destruct (repeated_observation_is_silent "acme" "T-1" (observed false 2) (observed false 3) w 0 watched_row)
    as (_ & H2 & _); [vm_compute; reflexivity|by split_and!|].
  split; [vm_compute; reflexivity|]. split; [exact H2|vm_compute; reflexivity].
Defined.

(** ** The red shipped pull request *)

Definition has_arg (a : string) (args : list string) : bool := bool_decide (a ∈ args).

Definition pr_answer (armed : bool) (args : list string) : gh_run :=
  if has_arg "view" args then
    GhRan (GhReads.mkCompleted 0 false (Some (JDict
      [("headRefName", JStr "dev/T-1"); ("headRefOid", JStr "h1"); ("baseRefName", JStr "main");
       ("state", JStr "OPEN"); ("autoMergeRequest", if armed then JDict [] else JNull)])) "")
  else
    GhRan (GhReads.mkCompleted 1 false (Some (JList
      [JDict [("name", JStr "build"); ("bucket", JStr "fail")];
       JDict [("name", JStr "lint"); ("bucket", JStr "pass")]])) "").

#[local] Instance demo_gh : Gh := pr_answer true.

Definition shipped_row : TicketTask :=
  (demo_row QueueItemStatus.COMPLETED (Some SHIPPED_DISPOSITION) Stage.FINALIZE)
    <| pr_url := Some "https://github.com/acme/app/pull/7" |>
    <| pr_state := Some (mkPrState "OPEN" None "BLOCKED" false "" None false 0 0 ["build"] 0) |>.

Definition shipped_world : ApWorld := mkApWorld (demo_queue [shipped_row]) ∅ [] 0.

#[local] Instance page_lost : PageFault := λ _, Some false.

Lemma shipped_sane : sane shipped_world.(aw_queue).(q_store).
Proof.
  split; [apply NoDup_singleton|]. intros t ->%list_elem_of_singleton. discriminate.
Qed.

(** With the inbox up the sweep opens one episode, with its page; with the
    inbox down it opens none. *)
Lemma open_episode_has_its_page_witness :
  let up := exec (@scan_shipped_red_prs demo_clock demo_gh demo_io no_redaction (λ _, None)
                    (λ _, mret tt)) shipped_world in
  let down := exec (scan_shipped_red_prs (A := demo_io) (λ _, mret tt)) shipped_world in
  every_episode_paged up ∧ map is_alerted (aw_rows up) = [true]
  ∧ every_episode_paged down ∧ map is_alerted (aw_rows down) = [false].
Proof.
  assert (H : every_episode_paged shipped_world).
  { split; [apply shipped_sane|]. intros t ->%list_elem_of_singleton. discriminate. }
  split_and!; [|vm_compute; reflexivity| |vm_compute; reflexivity];
    apply (open_episode_has_its_page (A := demo_io)); try done; intros _; apply idle_benign.
Defined.

(** The page of the first sweep. *)
Lemma page_announces_a_fresh_episode_witness :
  let os := map _evaluate (selected_rows shipped_world.(aw_queue).(q_store) 1) in
  match @_write demo_io os [] 1 shipped_world with
  | (inr [p], _) => p.(pg_head_sha) = "h1" ∧ p.(pg_names) = ["build"]
                    ∧ ∃ t, t ∈ aw_rows shipped_world ∧ page_key p = _key t
  | _ => False
  end.
Proof.
  cbv zeta.
  set (run := @_write demo_io _ [] 1 shipped_world).
  assert (Hc : match run with
               | (inr [p], _) => String.eqb p.(pg_head_sha) "h1"
                   && bool_decide (p.(pg_names) = ["build"])
               | _ => false end = true) by (vm_compute; reflexivity).
  destruct run as [[e|[|p [|q ps]]] w'] eqn:E; try discriminate Hc.
  apply andb_true_iff in Hc as [Hh%String.eqb_eq Hn%bool_decide_eq_true].
  split; [exact Hh|]. split; [exact Hn|].
  destruct (@page_announces_a_fresh_episode demo_gh demo_io shipped_world shipped_world
              w' [] 1 [p] p) as (t & h & cs & Ht & Hk & _).
  - apply shipped_sane.
  - by destruct (idle_benign shipped_world shipped_sane) as (w1 & [= <-] & Hk).
  - exact E.
  - by apply list_elem_of_singleton.
  - by exists t.
Defined.

(** ** Recovery *)

Definition demo_recovery (head_ : string) : RedPrRecovery :=
  mkRedPrRecovery "https://github.com/acme/app/pull/7" "acme/app" 7 head_ ["build"]
    (mkReviewFeedback "acme/app" 7 head_ 0 "fix the build") true
    (resolve_pipeline_stages shipped_row demo_client) CLAUDE_NATIVE_BACKEND DEFAULT_LANE.

(** Recovered; and refused because the row was re-opened, but owing. *)
Lemma recovery_keeps_its_obligation_witness :
  let r := demo_recovery "h1" in
  let moved := shipped_row <| status := QueueItemStatus.PENDING |> in
  match recover_red_pr_ticket [] "T-1" "acme" r (demo_queue [shipped_row]) with
  | (inr _, w') => ∃ t', q_tasks w' = [t'] ∧ recovered r shipped_row t'
                         ∧ owes r.(rp_pr_url) t'
  | _ => False
  end
  ∧ match recover_red_pr_ticket [] "T-1" "acme" r (demo_queue [moved]) with
    | (inl e, w') => e = RequeueStateError ∧ ∃ t', q_tasks w' = [t'] ∧ same_but_marker moved t'
                                                   ∧ owes r.(rp_pr_url) t'
    | _ => False
    end.
Proof.
  cbv zeta. set (r := demo_recovery "h1").
  set (moved := shipped_row <| status := QueueItemStatus.PENDING |>).
  split.
  - destruct (recovery_keeps_its_obligation [] "T-1" "acme" r (demo_queue [shipped_row]) 0
                shipped_row) as (res & w' & t' & Hrun & Hrows & Ho & H);
      [vm_compute; reflexivity|vm_compute; reflexivity|].
    rewrite Hrun. destruct res as [e|res].
    { destruct H as (_ & H & _). vm_compute in H. discriminate H. }
    destruct H as [_ H]. exists t'. split; [exact Hrows|]. split; [exact H|].
    apply Ho; [reflexivity|reflexivity|by left].
  - destruct (recovery_keeps_its_obligation [] "T-1" "acme" r (demo_queue [moved]) 0
                moved) as (res & w' & t' & Hrun & Hrows & Ho & H);
      [vm_compute; reflexivity|vm_compute; reflexivity|].
    rewrite Hrun. destruct res as [e|res].
    2: { destruct H as [H _]. vm_compute in H. discriminate H. }
    destruct H as (-> & _ & H). split; [done|]. exists t'. split; [exact Hrows|].
    split; [exact H|]. apply Ho; [reflexivity|reflexivity|by left].
Defined.

(** ** The listed commands *)

(** A plan park with its session at the gate: approve it or re-run the stage. *)
Lemma listed_commands_accepted_witness :
  let s := demo_session "plan_pending_approval" in
  let t := demo_parked Stage.PLAN in
  ∃ cs, next_commands t (Some s) false None None
          (pipeline_position t (Some demo_client)) = Some cs
    ∧ map command cs = ["cw dev-queue approve T-1 -c acme";
                        "cw dev-queue requeue T-1 -c acme --stage plan"]
    ∧ ∀ x, x ∈ cs → accepts demo_clients [s] t x.(command) = true.
Proof.
  cbv zeta.
  destruct (listed_commands_accepted demo_clients [demo_session "plan_pending_approval"]
              (demo_parked Stage.PLAN) demo_client (Some (demo_session "plan_pending_approval"))
              false None None) as (cs & Hcs & _ & Hacc).
  { constructor; [reflexivity|vocab_decide|vocab_decide| |discriminate|reflexivity].
    exists "s1", 0. split; [reflexivity|vm_compute; reflexivity]. }
  exists cs. split; [exact Hcs|]. split.
  - vm_compute in Hcs. injection Hcs as <-. reflexivity.
  - intros x Hx. by destruct (Hacc x Hx) as [?|?].
Defined.

(** A held finalize, and a refusal that leaves the approve out. *)
Lemma human_gate_is_never_offered_witness :
  let t := (demo_parked Stage.REVIEW) <| disposition := Some FINALIZE_GATE_HELD_DISPOSITION |> in
  let s := Some (demo_session "stage_complete") in
  (∃ cs, next_commands t s false None None PipelinePosition.INTERIOR = Some cs
     ∧ map operator_only cs = [true])
  ∧ (∃ text, refusal_suffix t s (Some "approve") PipelinePosition.INTERIOR = Some text
       ∧ kept_refusal t text ∧ str_contains "Run: `cw dev-queue show T-1 -c acme`" text = true).
Proof.
  cbv zeta.
  set (t := (demo_parked Stage.REVIEW) <| disposition := Some FINALIZE_GATE_HELD_DISPOSITION |>).
  destruct (human_gate_is_never_offered t (Some (demo_session "stage_complete")) false
              (Some "approve") None PipelinePosition.INTERIOR) as [_ Hr];
    [vm_compute; reflexivity|].
  split; [eexists; split; [vm_compute; reflexivity|reflexivity]|].
  destruct Hr as (text & Ht & Hk); [discriminate|]. exists text. split; [exact Ht|].
  split; [exact Hk|]. vm_compute in Ht. injection Ht as <-. vm_compute. reflexivity.
Defined.
