(* ===== verification/SweepsDemo.v ===== *)
(** * The reconciler's sweeps at concrete inputs *)

From S2P Require Import Prelude PyStr Enums Tasks World Vocab RearmOwed Lifecycle GateBackoff Clients Crud CrudProps.
From S2P Require Import ReviewGates GhReads PrHydrate Requeue RequeueProps RequeueContract Probes.
From S2P Require Import QueueRows Screening ScreeningProps QueueRowsProps Backstops BackstopsProps.
From S2P Require Import LostSessions LostSessionsProps.

#[local] Open Scope cw_scope.
#[local] Existing Instances demo_clock demo_ops.

(** ** Captures and outages *)

(** The worktree of [/wt/bad] cannot be read; [/wt/dirty] holds changes. *)
#[local] Instance demo_probe : DirtyProbe := {|
  worktree_dirty_reason_by_path := λ _ _ wt,
    inr (if String.eqb wt "/wt/bad" then inl (mkProbeError GitKind "git failed")
         else inr (if String.eqb wt "/wt/dirty" then Some "2 files changed" else None));
  monotonic := λ n, Z.of_nat n |}.

(** T-1's session, over for an hour. *)
Definition over (sid name wt : string) (st : SessionStatus.SessionStatus) : Session :=
  mkSession sid st SessionOrigin.DAEMON None name "acme" None None (Some wt) None 0
    (Some (- seconds 3600)%Z) None None None.

Definition capture_start : CaptureWorld :=
  mkCaptureWorld (new_dirty_checks (Some 30%Z) (Some 2) 0) 0 0 [].

Definition three_sessions : list Session :=
  [over "s0" "acme/auto-dev/T-0" "/wt/bad" SessionStatus.TIMED_OUT;
   over "s1" "acme/auto-dev/T-1" "/wt/clean" SessionStatus.TIMED_OUT;
   over "s2" "acme/auto-dev/T-2" "/wt/dirty" SessionStatus.TIMED_OUT].

Definition captured : CaptureWorld := exec (capture_all ∅ three_sessions) capture_start.

(** Two checks fit: the first fails, the second finds a clean tree, the third
    session is deferred. *)
Example capture_stops_at_its_cap :
  captured.(cp_reads) = [("s0", "/wt/bad"); ("s1", "/wt/clean")]
  ∧ map (λ s, lookup_dirty_reason (Some captured.(cp_checks)) s 5) three_sessions
    = [inl Missing; inr None; inl Missing]
  ∧ captured.(cp_checks).(dc_truncated) = true.
Proof. vm_compute. by split_and!. Qed.

(** The failure of the pass, latched and announced by settle 7. *)
Definition settled_claim : list WorktreeProbeKind * OutageLatch :=
  settle_claim captured.(cp_checks) 7 (mkOutageLatch ∅ ∅).

Definition outage_begun : OutageState :=
  mkOutageState settled_claim.2 (<[7 := Emitting settled_claim.1]> ∅) [].
Definition outage_sent : OutageState :=
  mkOutageState settled_claim.2 (<[7 := Emitting []]> outage_begun.(os_threads)) [(7, GitKind)].

Lemma outage_reached : rtc outage_moves outage_start outage_sent.
Proof.
  eapply rtc_l; [exists (ABegin captured.(cp_checks) 7); by apply settle_begins|].
  apply rtc_once. exists (ASent 7 GitKind).
  apply (page_sent outage_begun 7 GitKind []). vm_compute. reflexivity.
Qed.

Lemma outage_latch_sound_witness :
  NoDup outage_sent.(os_sent) ∧ latched outage_sent GitKind = Some 7.
Proof.
  split; [exact (proj1 (outage_latch_sound outage_sent outage_reached))|vm_compute; reflexivity].
Defined.

(** A settle whose page cannot be written leaves no claim behind. *)
Lemma settle_refines_machine_witness :
  let F : AnnounceFault := λ _ _, Some OSError in
  let w := mkOutageWorld (mkOutageLatch ∅ ∅) [] 0 in
  (exec (@settle_outages demo_clock F captured.(cp_checks) 7) w).(og_events) = []
  ∧ (exec (@settle_outages demo_clock F captured.(cp_checks) 7) w).(og_latch).(la_announced) = ∅
  ∧ ∃ s' ks evs, rtc outage_moves outage_start s'
      ∧ s'.(os_latch) = (exec (@settle_outages demo_clock F captured.(cp_checks) 7) w).(og_latch)
      ∧ s'.(os_threads) !! 7 = Some (Emitting [])
      ∧ s'.(os_sent) = outage_start.(os_sent) ++ map (pair 7) ks
      ∧ (exec (@settle_outages demo_clock F captured.(cp_checks) 7) w).(og_events) = [] ++ evs
      ∧ pages_of captured.(cp_checks) ks evs.
Proof.
  cbv zeta. split; [vm_compute; reflexivity|]. split; [vm_compute; reflexivity|].
  by apply (@settle_refines_machine demo_clock (λ _ _, Some OSError) captured.(cp_checks) 7
             (mkOutageWorld (mkOutageLatch ∅ ∅) [] 0) outage_start).
Defined.

(** ** The backstop *)

Definition running_row (tid sid : string) : TicketTask :=
  (new_task tid "acme" 0) <| status := QueueItemStatus.RUNNING |> <| session_id := Some sid |>
    <| attempts := 1%Z |>.

Definition three_running : RecWorld :=
  mkRecWorld (demo_queue [running_row "T-0" "s0"; running_row "T-1" "s1"; running_row "T-2" "s2"])
    three_sessions None [].

Definition captured_all : CaptureWorld :=
  exec (capture_all ∅ three_sessions) (mkCaptureWorld (new_dirty_checks None (Some 12) 0) 0 0 []).

Definition swept_world : (exn + list string) * RecWorld :=
  _revert_terminal_backstop id SessionStatus.TIMED_OUT (Some captured_all.(cp_checks)) three_running.

Lemma sessions_distinct : NoDup (map sess_id three_sessions).
Proof. apply (bool_decide_eq_true_1 _). vm_compute. reflexivity. Qed.

(** The failed check leaves its row RUNNING, the clean one sends it back, the
    dirty one parks it. *)
Lemma backstop_spares_unsaved_work_witness :
  swept_world.1 = inr ["T-1"]
  ∧ map (λ t, (t.(status), t.(disposition), t.(session_id))) (q_tasks swept_world.2.(rw_queue))
    = [(QueueItemStatus.RUNNING, None, Some "s0"); (QueueItemStatus.PENDING, None, None);
       (QueueItemStatus.BLOCKED_ON_USER, Some "dirty_worktree", None)]
  ∧ ∃ reverted w' k, swept_world = (inr reverted, w')
    ∧ Forall2 (λ t t', t' = t
        ∨ backstop_outcome three_sessions SessionStatus.TIMED_OUT 0 (Some captured_all.(cp_checks)) t t')
        (q_tasks ((three_running.(rw_queue)) <| q_ticks := k |>)) (q_tasks w'.(rw_queue)).
Proof.
  split; [vm_compute; reflexivity|]. split; [vm_compute; reflexivity|].
  destruct (backstop_spares_unsaved_work id SessionStatus.TIMED_OUT (Some captured_all.(cp_checks))
              three_running sessions_distinct) as (r & w' & k & Hrun & HF & _).
  exists r, w', k. split; [exact Hrun|exact HF].
Defined.

(** ** The completions of merged tickets *)

(** Every issue's pull request is 5, and 5 is merged. *)
#[local] Instance all_merged : GhAt := {|
  gh_at := λ _ args,
    let ran d := GhRan (mkCompleted 0 false (Some (JDict d)) "") in
    match args with
    | ["gh"; "issue"; "view"; _; _; _] =>
        ran [("closedByPullRequestsReferences", JList [JDict [("number", JInt 5)]])]
    | _ => ran [("state", JStr "MERGED")]
    end;
  int_of_text := λ _, None;
  int_of_float := λ _, None |}.

#[local] Instance one_clone : RepoDir := λ _, "/repo".

Definition beta_session : Session :=
  mkSession "b1" SessionStatus.TIMED_OUT SessionOrigin.DAEMON None "beta/auto-dev/T-1" "beta" None
    None None None 0 (Some (- seconds 3600)%Z) None None None.

Definition two_clients : Clients := {[ "acme" := demo_client; "beta" := demo_client ]}.

(** T-1 of acme was worked on; T-1 of beta never was. *)
Definition merged_world : RecWorld :=
  mkRecWorld
    (demo_queue [(new_task "T-1" "acme" 0) <| attempts := 1%Z |>;
                 (new_task "T-1" "beta" 0) <| ever_spawned := false |>])
    [over "s1" "acme/auto-dev/T-1" "/wt/clean" SessionStatus.TIMED_OUT; beta_session] None [].

Definition completed_world : (exn + list string) * RecWorld :=
  complete_timed_out_merged_tasks id two_clients (mkHydrateConfig 60 []) merged_world.

(** acme's row is completed, beta's refused - yet beta's session is announced
    completed too, since the announcements go by the bare ticket id. *)
Lemma completion_is_evidenced_witness :
  completed_world.1 = inr ["T-1"]
  ∧ map (λ t, (t.(client), t.(status))) (q_tasks completed_world.2.(rw_queue))
    = [("acme", QueueItemStatus.COMPLETED); ("beta", QueueItemStatus.PENDING)]
  ∧ map (λ e, json_str (dict_get "session_id" e.(ev_payload)))
      (filter (λ e, e.(ev_type) = SESSION_COMPLETED) completed_world.2.(rw_queue).(q_events))
    = ["s1"; "b1"]
  ∧ ∃ r w', completed_world = (r, w') ∧ w'.(rw_sessions) = merged_world.(rw_sessions).
Proof.
  split; [vm_compute; reflexivity|]. split; [vm_compute; reflexivity|].
  split; [vm_compute; reflexivity|].
  destruct (completion_is_evidenced id two_clients (mkHydrateConfig 60 []) merged_world)
    as (r & w' & Hrun & Hs & _).
  exists r, w'. split; [exact Hrun|exact Hs].
Defined.

(** ** The gate releases *)

#[local] Instance line_ids : EventIds := λ n, str_of_nat n.

Lemma line_ids_inj : Inj (=) (=) line_ids.
Proof. intros m n H. by apply (inj pretty) in H. Qed.

Definition auto_config : OrchestratorConfig := mkOrchestratorConfig "none" "auto" 10 ReapPolicy.AUTO.

Definition merged_state : PrState :=
  mkPrState "MERGED" None "CLEAN" true "APPROVED" None false 0 0 [] 0.

(** T-1 waits for its own pull request 7; T-2 is behind the same one. *)
Definition gated_world : RecWorld :=
  mkRecWorld
    (mkQueueWorld (mkDevQueueStore 48
       [(new_task "T-1" "acme" 0) <| status := QueueItemStatus.BLOCKED_ON_USER |>
          <| disposition := Some "merge_pending" |> <| stage := Stage.FINALIZE |>
          <| pr_url := Some "https://github.com/o/r/pull/7" |> <| pr_state := Some merged_state |>;
        (new_task "T-2" "acme" 0) <| status := QueueItemStatus.BLOCKED_ON_USER |>
          <| disposition := Some "merge_gate_blocked" |>
          <| blocked_reason := Some BLOCKER_REASON_PRIOR_PIPELINE_PR_OPEN |>
          <| blocked_on_pr := Some 7%Z |>] [])
       [mkEvent PR_MERGED [("client", JStr "acme"); ("ticket_id", JStr "T-1")] None] 0 0)
    [] None [].

Local Abbreviation release fails :=
  (@release_stale_gated_tasks demo_clock line_ids demo_clients auto_config id fails gated_world).

(** A failed save changes nothing and consumes nothing.  A run that saves
    completes T-1, and with it the only observation T-2 waits for: the row's
    pull request is dropped by the completion, so T-2 stays behind a pull
    request no longer observed. *)
Lemma stale_gate_release_is_crash_safe_witness :
  (release true).1 = inl OSError ∧ (release true).2.(rw_cursor) = None
  ∧ (release false).1 = inr ["T-1"] ∧ (release false).2.(rw_cursor) = Some "0"
  ∧ map (λ t, (t.(status), t.(pr_url))) (q_tasks (release false).2.(rw_queue))
    = [(QueueItemStatus.COMPLETED, None); (QueueItemStatus.BLOCKED_ON_USER, None)]
  ∧ _merged_pr_numbers_by_client (release false).2.(rw_queue).(q_store) = ∅
  ∧ ∃ r w' more, release false = (r, w')
      ∧ w'.(rw_queue).(q_events) = gated_world.(rw_queue).(q_events) ++ more.
Proof.
  split; [vm_compute; reflexivity|]. split; [vm_compute; reflexivity|].
  split; [vm_compute; reflexivity|]. split; [vm_compute; reflexivity|].
  split; [vm_compute; reflexivity|]. split; [vm_compute; reflexivity|].
  destruct (@stale_gate_release_is_crash_safe demo_clock line_ids demo_clients auto_config id false
    gated_world line_ids_inj I (ex_intro _ [] (eq_sym (app_nil_r _)))) as (r & w' & more & Hrun & He & _).
  exists r, w', more. split; [exact Hrun|exact He].
Defined.

(** ** Rows without their session *)

#[local] Instance full_inbox : EventFault := λ _ _, None.

(** T-1's session has no record; T-2 has none, for a minute. *)
Definition lost_world : QueueWorld :=
  demo_queue [(running_row "T-1" "gone") <| pr_url := Some "https://github.com/o/r/pull/1" |>;
              (running_row "T-2" "") <| session_id := None |> <| claimed_at := Some 0%Z |>].

Definition lost_run : (exn + list string) * QueueWorld :=
  run_lost_session_recovery (λ _ q, q) three_sessions demo_clients ∅ (seconds 60) lost_world.

Lemma lost_rows_keep_their_evidence_witness :
  lost_run.1 = inr ["T-1"]
  ∧ map (λ t, (t.(status), t.(session_id), t.(pr_url), t.(advisory_note))) (q_tasks lost_run.2)
    = [(QueueItemStatus.BLOCKED_ON_USER, Some "gone", Some "https://github.com/o/r/pull/1", None);
       (QueueItemStatus.RUNNING, None, None, Some "?no_session")]
  ∧ ∃ r q' q1, lost_run = (r, q')
      ∧ rtc (signal_step (λ _ q, q) demo_clients (seconds 60) (q_tasks lost_world)) q1 q'.
Proof.
  split; [vm_compute; reflexivity|]. split; [vm_compute; reflexivity|].
  destruct (lost_rows_keep_their_evidence (λ _ q, q) three_sessions demo_clients ∅ (seconds 60) lost_world)
    as (r & q' & Hrun & _ & q0 & q1 & _ & _ & Hs).
  exists r, q', q1. split; [exact Hrun|exact Hs].
Defined.

(** The context the spawn of T-1's first attempt wrote. *)
#[local] Instance demo_context : ContextFile := λ cwd,
  if String.eqb cwd "/wt/dev/T-1"
  then Some (inr (JDict [("attempt", JInt 1); ("session_id", JStr "s1"); ("ticket_id", JStr "T-1");
                         ("client", JStr "acme")]))
  else None.

Definition unowned_world : QueueWorld :=
  demo_queue [(running_row "T-1" "") <| session_id := None |>].

Definition s1 : Session := over "s1" "acme/auto-dev/T-1" "/wt/clean" SessionStatus.TIMED_OUT.

Local Abbreviation adopt := (run_unowned_running_recovery alone three_sessions demo_clients unowned_world).

Lemma inbox_never_fails : inbox_faults.
Proof. by intros q e x. Qed.

Lemma unowned_adoptable :
  adoptable three_sessions demo_clients (q_tasks unowned_world) 0
    ((running_row "T-1" "") <| session_id := None |>) s1.
Proof.
  split; [reflexivity|]. split.
  - intros [|j] u Hj Hu; [done|]. by destruct j.
  - split; [right; left|]. do 2 (split; [reflexivity|]). split; [done|]. do 3 (split; [reflexivity|]).
    exists demo_client. eexists. split; [reflexivity|]. split; [reflexivity|]. by split_and!.
Qed.

(** One candidate, and it is adopted: the row has its session again. *)
Lemma proven_row_is_adopted_witness :
  adopt.1 = inr ["T-1"] ∧ map session_id (q_tasks adopt.2) = [Some "s1"]
  ∧ ∃ tids q', adopt = (inr tids, q') ∧ has_adopted 0 s1.(sess_id) q'.
Proof.
  split; [vm_compute; reflexivity|]. split; [vm_compute; reflexivity|].
  assert (Hd : detect_unowned_running (q_tasks unowned_world) three_sessions demo_clients
    = inr [mkUnownedCandidate "T-1" "acme" DEFAULT_LANE 0 1 None "s1" "acme/auto-dev/T-1"])
    by (vm_compute; reflexivity).
  destruct (proven_row_is_adopted three_sessions demo_clients unowned_world _ inbox_never_fails
    sessions_distinct Hd) as (tids & q' & Hrun & Had).
  exists tids, q'. split; [exact Hrun|]. eapply Had, unowned_adoptable.
Defined.

(** The pass is one bind and its event. *)
Lemma adoption_is_proven_witness :
  ∃ r q', adopt = (r, q')
    ∧ rtc (adoption_step alone three_sessions demo_clients (q_tasks unowned_world)) unowned_world q'.
Proof.
  destruct (adoption_is_proven alone three_sessions demo_clients unowned_world)
    as (r & q' & Hrun & Hs & _).
  exists r, q'. split; [exact Hrun|exact Hs].
Defined.

(** A context that is not UTF-8 is not a read failure to [_read_cw_context]: the
    pass, and with it the tick, is abandoned. *)
Example undecodable_context_ends_the_pass :
  (@run_unowned_running_recovery full_inbox (λ _, Some (inl UnicodeDecodeError)) demo_ops
     alone three_sessions demo_clients unowned_world).1 = inl UnicodeDecodeError.
Proof. vm_compute. reflexivity. Qed.

(** ** Cancelled rows restored *)

(** T-1 was cancelled with committed work in its worktree, then added again;
    the other client's T-1 was cancelled with none. *)
#[local] Instance demo_trees : TreeExists := λ wt, String.eqb wt "/wt/T-1".

Definition readded : RecWorld :=
  mkRecWorld (demo_queue [(new_task "T-1" "acme" 0) <| status := QueueItemStatus.CANCELLED |>
                            <| worktree_path := Some "/wt/T-1" |>;
                          new_task "T-1" "acme" 1;
                          (new_task "T-1" "beta" 2) <| status := QueueItemStatus.CANCELLED |>])
    [] None [].

Definition demo_probes : BoundedProbeStore CancelledRowKey bool :=
  stored ("acme", "T-1", "/wt/T-1", "main") true 0
    (new_store None None CANCELLED_ROW_PROBE_MAX_AGE_SECONDS 0).

(** The restore opens a second row of acme's T-1, and beta's row, which no
    probe vouched for. *)
Example restore_opens_a_second_row :
  let w := exec (restore_cancelled_rows id demo_clients (Some demo_probes)) readded in
  map (λ t, (t.(client), t.(status))) (q_tasks w.(rw_queue))
  = [("acme", QueueItemStatus.PENDING); ("acme", QueueItemStatus.PENDING);
     ("beta", QueueItemStatus.PENDING)].
Proof. vm_compute. reflexivity. Qed.
