(* ===== verification/StageWalk.v ===== *)
(** * Sentinel stage position: [dispatch/routing/stage_walk.py]

    Where a sentinel's [stage_reached] stands relative to the row's stage, and
    the forward walk that brings a lagging row up to it through the REVIEW
    gates. *)

From S2P Require Import Prelude.
From S2P Require Import PyStr.
From S2P Require Import Enums.
From S2P Require Import Tasks.
From S2P Require Import World.
From S2P Require Import Vocab.
From S2P Require Import RearmOwed.
From S2P Require Import Lifecycle.
From S2P Require Import Clients.
From S2P Require Import ScopeTier.
From S2P Require Import ReviewGates.
From S2P Require Import RowOutcome.

#[local] Open Scope cw_scope.

Definition _STAGE_REACHED_TO_STAGE : list (string * StageT) :=
  [("stage1_pre_flight", Stage.PLAN);
   ("stage1_plan", Stage.PLAN);
   ("stage2_impl", Stage.IMPL);
   ("stage3_review", Stage.REVIEW);
   ("stage4a_merge_gate", Stage.FINALIZE);
   ("stage4b_pr_create", Stage.FINALIZE);
   ("stage5_post_create", Stage.FINALIZE)].

Fixpoint assoc_get {A} (k : string) (l : list (string * A)) : option A :=
  match l with
  | [] => None
  | (k', v) :: l' => if String.eqb k k' then Some v else assoc_get k l'
  end.

(** The import-time assertion of the source. *)
Example stage_reached_keys_canonical :
  list_to_set (map fst _STAGE_REACHED_TO_STAGE) = _STAGE_REACHED_CANONICAL.
Proof. apply (bool_decide_unpack _). vm_compute. exact I. Qed.

(** The [_StagePosition] literal; LATER carries the two populated results. *)
Inductive StagePosition :=
  | BYPASS
  | EARLIER
  | SAME
  | LATER (stages : list StageT) (target_idx : nat)
  | UNRESOLVABLE.

Definition _is_stage_advance_claim (last_result : json) : bool :=
  opt_in (as_str (jget "status" last_result)) STAGE_SUCCESS_STATUSES.

Definition _classify_sentinel_stage_position (task : TicketTask) (last_result : json)
  (clients : Clients) : StagePosition :=
  match jget "stage_reached" last_result with
  | JNull => BYPASS
  | stage_reached =>
      match (s ← as_str stage_reached; assoc_get s _STAGE_REACHED_TO_STAGE) with
      | None => UNRESOLVABLE
      | Some mapped =>
          if bool_decide (mapped = task.(stage)) then SAME
          else match clients !! task.(client) with
               | None => UNRESOLVABLE
               | Some client_cfg =>
                   let stages := resolve_pipeline_stages task client_cfg in
                   match index_of task.(stage) stages, index_of mapped stages with
                   | Some task_idx, Some sentinel_idx =>
                       if Nat.ltb sentinel_idx task_idx then EARLIER
                       else LATER stages sentinel_idx
                   | _, _ => UNRESOLVABLE
                   end
               end
      end
  end.

Definition _is_earlier_stage_report (task : TicketTask) (last_result : json)
  (clients : Clients) : bool :=
  match _classify_sentinel_stage_position task last_result clients with
  | EARLIER => true
  | _ => false
  end.

Inductive WalkOutcome := REFUSE | PROCEED | PARKED.

Section Walk.
Context {C : Clock} {E : GateEnv}.

(** The five REVIEW-rung gates of the walk, in order: the first armed one
    parks the row. *)
Definition walk_gate (task : TicketTask) (last_result : json) (clients : Clients)
  : option (M World unit) :=
  let at_review := bool_decide (task.(stage) = Stage.REVIEW) in
  if at_review && _should_gate_for_empty_diff task clients
  then Some _park_empty_diff_gate
  else if at_review && _should_gate_for_branch_staleness task clients
  then Some _park_branch_staleness_gate
  else if at_review && _should_gate_for_scope_hint task last_result
  then Some _park_scope_hint_gate
  else if at_review && _should_force_hold_finalize task clients
  then Some _park_finalize_hold
  else if at_review && _should_gate_for_signoff task clients
  then Some _park_signoff_gate
  else None.

Fixpoint walk_loop (fuel : nat) (stages : list StageT) (target_idx : nat)
  (clients : Clients) (last_result : json)
  (original_session_id original_stage_base_ref : option string) : M World WalkOutcome :=
  s ← read stage;
  i ← py_index s stages;
  if negb (Nat.ltb i target_idx) then mret PROCEED
  else
    match fuel with
    | O => raise Diverges
    | S fuel' =>
        is_repeat ← _consume_finalize_regress_repeat original_stage_base_ref;
        t ← read id;
        match walk_gate t last_result clients with
        | Some park =>
            park ;;
            _record_scope_routing_decision last_result _RULE_STAGE_WALK ;;
            _maybe_emit_finalize_regress_repeat_signal is_repeat ;;
            mret PARKED
        | None =>
            when (bool_decide (t.(stage) = Stage.REVIEW))
              (_record_scope_routing_decision last_result _RULE_STAGE_WALK ;;
               _maybe_emit_finalize_regress_repeat_signal is_repeat) ;;
            _advance_task_pointer stages ;;
            assign (λ t, t <| session_id := original_session_id |>) ;;
            walk_loop fuel' stages target_idx clients last_result
              original_session_id original_stage_base_ref
        end
    end.

(** At most [target_idx] rungs lie below the target. *)
Definition _walk_stage_pointer_forward (stages : list StageT) (target_idx : nat)
  (clients : Clients) (last_result : json) : M World WalkOutcome :=
  original_session_id ← read session_id;
  original_stage_base_ref ← read stage_base_ref;
  walk_loop target_idx stages target_idx clients last_result
    original_session_id original_stage_base_ref.

Definition _resolve_stage_walk (last_result : json) (clients : Clients)
  : M World WalkOutcome :=
  t ← read id;
  match _classify_sentinel_stage_position t last_result clients with
  | LATER stages target_idx =>
      _walk_stage_pointer_forward stages target_idx clients last_result
  | UNRESOLVABLE => mret REFUSE
  | EARLIER => if _is_stage_advance_claim last_result then mret REFUSE else mret PROCEED
  | _ => mret PROCEED
  end.
End Walk.

(** ** The walk's gates *)

Section WalkSpec.
Context {C : Clock} {E : GateEnv}.

(** Some gate of the REVIEW rung is armed for the row. *)
Definition walk_armed (task : TicketTask) (last_result : json) (clients : Clients) : bool :=
  _should_gate_for_empty_diff task clients
  || _should_gate_for_branch_staleness task clients
  || _should_gate_for_scope_hint task last_result
  || _should_force_hold_finalize task clients
  || _should_gate_for_signoff task clients.

Lemma walk_armed_config t u lr clients :
  config t = config u → walk_armed t lr clients = walk_armed u lr clients.
Proof.
  intros Hc. unfold config in Hc. injection Hc as H1 H2 H3 H4 H5 H6 H7 _.
  unfold walk_armed, _should_gate_for_empty_diff, _should_gate_for_branch_staleness,
    _should_gate_for_scope_hint, _resolve_scope_tier, _should_force_hold_finalize,
    resolve_hold_finalize, _should_gate_for_signoff, resolve_signoff.
  by rewrite H1, H2, H3, H4, H5, H6, H7.
Qed.

Lemma walk_gate_none t lr clients :
  walk_gate t lr clients = None → t.(stage) = Stage.REVIEW → walk_armed t lr clients = false.
Proof.
  intros Hg Hs. unfold walk_gate in Hg. rewrite Hs in Hg. unfold walk_armed.
  rewrite bool_decide_true in Hg by done. cbn [andb] in Hg.
  repeat case_match; try discriminate Hg; done.
Qed.

(** An armed gate parks the row through [park_gate]. *)
Definition is_park (park : M World unit) : Prop :=
  ∃ p s d, is_parked s = true ∧ park = park_gate p s d.

Lemma is_park_gates :
  is_park _park_empty_diff_gate ∧ is_park _park_branch_staleness_gate
  ∧ is_park _park_review_staleness_gate ∧ is_park _park_review_health_gate
  ∧ is_park _park_scope_hint_gate ∧ is_park _park_finalize_hold
  ∧ is_park _park_signoff_gate ∧ is_park _park_unconcluded_finalize_regress_merge_gate.
Proof. unfold is_park. split_and!; do 3 eexists; (split; [|reflexivity]); reflexivity. Qed.

Lemma is_park_returns park v w :
  is_park park → config (w_task w) = v →
  returns park (λ _ w', (∃ s d, parked s (Some d) true (w_task w) (w_task w'))
                        ∧ config (w_task w') = v) w.
Proof.
  intros (p & s & d & Hs & ->) Hv.
  eapply returns_mono.
  - apply (returns_preserves (on_task (λ t, config t = v))); [apply preserves_config_park|exact Hv|].
    apply park_gate_parks, Hs.
  - intros ? w' [? ?]. split; [by exists s, d|done].
Qed.

Lemma walk_gate_some t lr clients park :
  walk_gate t lr clients = Some park →
  t.(stage) = Stage.REVIEW ∧ walk_armed t lr clients = true ∧ is_park park.
Proof.
  destruct is_park_gates as (H1 & H2 & _ & _ & H3 & H4 & H5 & _).
  unfold walk_gate, walk_armed. intros Hg.
  case_bool_decide as Hrev; cbn [andb] in Hg; [|discriminate Hg].
  split; [exact Hrev|].
  destruct (_should_gate_for_empty_diff t clients); [injection Hg as <-; split; [reflexivity|assumption]|].
  destruct (_should_gate_for_branch_staleness t clients); [injection Hg as <-; split; [reflexivity|assumption]|].
  destruct (_should_gate_for_scope_hint t lr); [injection Hg as <-; split; [reflexivity|assumption]|].
  destruct (_should_force_hold_finalize t clients); [injection Hg as <-; split; [reflexivity|assumption]|].
  destruct (_should_gate_for_signoff t clients); [injection Hg as <-; split; [reflexivity|assumption]|].
  discriminate Hg.
Qed.

(** Reading and clearing the repeat marker keeps what routing compares. *)
Lemma consume_returns bref w :
  returns (_consume_finalize_regress_repeat bref)
    (λ _ w', w_task w' = w_task w ∨ w_task w' = clear_regress_marker (w_task w)) w.
Proof.
  unfold _consume_finalize_regress_repeat. rewrite returns_bind, returns_read.
  destruct (negb _); [apply returns_ret; by left|].
  rewrite returns_bind, returns_assign.
  destruct (finalize_regress_branch_head _); apply returns_ret; by right.
Qed.

(** What a walk from rung [i] towards [target] does to the row. *)
Definition walk_result (stages : list StageT) (i target : nat) (lr : json)
  (clients : Clients) (t : TicketTask) (o : WalkOutcome) (t' : TicketTask) : Prop :=
  config t' = config t ∧ t'.(regress_attempts) = t.(regress_attempts)
  ∧ match o with
    | PROCEED =>
        stages !! target = Some t'.(stage)
        ∧ t'.(unproductive_attempts) = t.(unproductive_attempts)
        ∧ t'.(status) = (if Nat.ltb i target then QueueItemStatus.PENDING else t.(status))
        ∧ (∀ j, i ≤ j < target → stages !! j = Some Stage.REVIEW →
             walk_armed t lr clients = false)
    | PARKED =>
        t'.(stage) = Stage.REVIEW ∧ is_parked t'.(status) = true
        ∧ (∃ b, charged b t t')
        ∧ walk_armed t lr clients = true
        ∧ ∃ j, i ≤ j < target ∧ stages !! j = Some Stage.REVIEW
    | REFUSE => False
    end.

(** The walk that has arrived changes nothing. *)
Lemma walk_result_arrived stages i lr clients t :
  stages !! i = Some t.(stage) → walk_result stages i i lr clients t PROCEED t.
Proof.
  intros Hi. unfold walk_result. rewrite Nat.ltb_irrefl. split_and!; try done; intros; lia.
Qed.

(** The review rung that parks ends the walk where it stands. *)
Lemma walk_result_parks stages i target lr clients t t' s d :
  i < target → stages !! i = Some Stage.REVIEW → walk_armed t lr clients = true →
  t.(stage) = Stage.REVIEW → parked s d true t t' → is_parked s = true →
  config t' = config t → walk_result stages i target lr clients t PARKED t'.
Proof.
  intros Hlt Hi Harm Hs (Hsp & Hst & _ & Hsg & Hch & Hr) Hpk Hc. unfold walk_result.
  split_and!; [done|done|congruence|by rewrite Hst|by exists true|done|].
  exists i. split; [lia|done].
Qed.

(** One rung advanced, then the rest of the walk. *)
Lemma walk_result_step stages i target lr clients t u t' o :
  i < target → config u = config t → u.(regress_attempts) = t.(regress_attempts) →
  u.(unproductive_attempts) = t.(unproductive_attempts) →
  u.(status) = QueueItemStatus.PENDING →
  (stages !! i = Some Stage.REVIEW → walk_armed t lr clients = false) →
  walk_result stages (S i) target lr clients u o t' →
  walk_result stages i target lr clients t o t'.
Proof.
  intros Hlt Hc Hr Hu Hst Hgate (Hc4 & Hr4 & Ho). unfold walk_result.
  assert (Harm : walk_armed u lr clients = walk_armed t lr clients) by by apply walk_armed_config.
  split; [congruence|]. split; [congruence|]. destruct o; [done|..].
  - destruct Ho as (Hst4 & Hu4 & Hp4 & Hg4). split_and!; [done|congruence|..].
    + rewrite (proj2 (Nat.ltb_lt i target)) by lia. rewrite Hp4.
      by destruct (Nat.ltb (S i) target).
    + intros j Hj Hjr. destruct (decide (j = i)) as [->|]; [by apply Hgate|].
      rewrite <- Harm. apply (Hg4 j); [lia|done].
  - destruct Ho as (Hst4 & Hpk & [b Hb] & Ha & j & Hj & Hjr).
    split_and!; [done|done| |congruence|].
    + exists false. unfold charged in *. by rewrite Hb, Hst, Hu, !andb_false_r.
    + exists j. split; [lia|done].
Qed.

Lemma walk_loop_spec fuel stages target clients lr sid bref w i :
  NoDup stages → index_of (w_task w).(stage) stages = Some i → i ≤ target →
  target < length stages → target - i ≤ fuel →
  returns (walk_loop fuel stages target clients lr sid bref)
    (λ o w', walk_result stages i target lr clients (w_task w) o (w_task w')) w.
Proof.
  intros Hnd. revert w i. induction fuel as [|fuel IH]; intros w i Hi Hit Htl Hf;
    cbn [walk_loop]; rewrite returns_bind, returns_read; unfold py_index; rewrite Hi;
    rewrite returns_bind, returns_ret; pose proof (index_of_lookup _ _ _ Hi) as Hli.
  { assert (i = target) as -> by lia. rewrite (proj2 (Nat.ltb_ge _ _)) by lia.
    apply returns_ret. by apply walk_result_arrived. }
  destruct (Nat.ltb_spec i target) as [Hlt|Hge]; simpl.
  2: { apply returns_ret. assert (i = target) as -> by lia. by apply walk_result_arrived. }
  eapply returns_seq; [apply consume_returns|]. intros rep w1 Hw1. cbn beta in Hw1.
  assert (Hk : (w_task w1).(stage) = (w_task w).(stage)
               ∧ (w_task w1).(unproductive_attempts) = (w_task w).(unproductive_attempts)
               ∧ (w_task w1).(regress_attempts) = (w_task w).(regress_attempts)
               ∧ config (w_task w1) = config (w_task w)
               ∧ ∀ s d b t', parked s d b (w_task w1) t' → parked s d b (w_task w) t').
  { destruct Hw1 as [->| ->]; done. }
  clear Hw1. destruct Hk as (Hs & Hu & Hr & Hc & Hparked).
  rewrite returns_bind, returns_read. cbn [id].
  destruct (walk_gate (w_task w1) lr clients) as [park|] eqn:Hg.
  - apply walk_gate_some in Hg as (Hrev & Harm & Hpark).
    eapply returns_seq; [apply (is_park_returns _ _ _ Hpark Hc)|].
    intros _ w2 [(s & d & Hp) Hc2].
    apply returns_after_events; [auto with cw|]. intros _ w3 Hw3.
    apply returns_after_events; [auto with cw|]. intros _ w4 Hw4.
    apply returns_ret. rewrite Hw4, Hw3.
    apply (walk_result_parks _ _ _ _ _ _ _ s (Some d)); [done| | | | | |congruence];
      try congruence; [|by apply Hparked|by apply Hp].
    by rewrite <- (walk_armed_config (w_task w1)).
  - apply returns_after_events; [auto 10 with cw|]. intros _ w2 Hw2.
    eapply returns_seq.
    { apply returns_preserves with (P := on_task (λ t, config t = config (w_task w)));
        [auto with cw|unfold on_task; by rewrite Hw2|].
      apply advance_advances. rewrite Hw2, Hs. exists i. split; [done|].
      apply lookup_lt_is_Some. lia. }
    intros _ w3 [Hadv Hc3]. unfold on_task in Hc3.
    destruct Hadv as (i' & Hi' & Hn' & Hst3 & Hu3 & Hr3).
    rewrite Hw2, Hs in Hi'. assert (i' = i) as -> by congruence.
    rewrite returns_bind, returns_assign.
    eapply returns_mono; [apply (IH _ (S i)); [by apply index_of_NoDup|lia|done|lia]|].
    intros o w4 Ho. eapply walk_result_step; [exact Hlt|..|exact Ho]; cbn [w_task];
      [exact Hc3|etrans; [exact Hr3|]; congruence|etrans; [exact Hu3|]; congruence|exact Hst3|].
    intros Hri. rewrite <- (walk_armed_config (w_task w1)) by done.
    apply walk_gate_none; [done|]. congruence.
Qed.

(** ** The whole resolution *)

(** The positions that refuse. *)
Definition refuses (task : TicketTask) (last_result : json) (clients : Clients) : bool :=
  match _classify_sentinel_stage_position task last_result clients with
  | UNRESOLVABLE => true
  | EARLIER => _is_stage_advance_claim last_result
  | _ => false
  end.

(** Every configured client passed the pipeline validator. *)
Definition clients_wf (clients : Clients) : Prop :=
  ∀ name c, clients !! name = Some c → client_wf c.

Lemma classify_later t lr clients stages target :
  clients_wf clients →
  _classify_sentinel_stage_position t lr clients = LATER stages target →
  ∃ c i, clients !! t.(client) = Some c ∧ stages = resolve_pipeline_stages t c
         ∧ NoDup stages ∧ index_of t.(stage) stages = Some i ∧ i < target
         ∧ target < length stages.
Proof.
  intros Hwf. unfold _classify_sentinel_stage_position.
  destruct (jget "stage_reached" lr) as [| | | |sr| |]; try discriminate.
  cbn [as_str]. destruct (s ← Some sr; assoc_get s _STAGE_REACHED_TO_STAGE) as [mapped|];
    [|discriminate].
  case_bool_decide as Hm; [discriminate|].
  destruct (clients !! client t) as [c|] eqn:Hc; [|discriminate].
  destruct (index_of (stage t) (resolve_pipeline_stages t c)) as [i|] eqn:Hi; [|discriminate].
  destruct (index_of mapped (resolve_pipeline_stages t c)) as [j|] eqn:Hj; [|discriminate].
  destruct (Nat.ltb_spec j i); [discriminate|]. intros [= <- <-].
  exists c, i. split_and!; try done.
  - apply resolve_pipeline_stages_unique, (Hwf _ _ Hc).
  - assert (i ≠ j); [|lia]. intros ->.
    apply index_of_lookup in Hi, Hj. congruence.
  - by apply index_of_lt in Hj.
Qed.

(** The row a resolved walk leaves. *)
Definition resolved (lr : json) (clients : Clients) (t : TicketTask) (o : WalkOutcome)
  (t' : TicketTask) : Prop :=
  match o with
  | REFUSE => refuses t lr clients = true ∧ t' = t
  | _ =>
      refuses t lr clients = false
      ∧ ((o = PROCEED ∧ t' = t)
         ∨ ∃ c i target, clients !! t.(client) = Some c
             ∧ _classify_sentinel_stage_position t lr clients
               = LATER (resolve_pipeline_stages t c) target
             ∧ index_of t.(stage) (resolve_pipeline_stages t c) = Some i
             ∧ i < target ∧ target < length (resolve_pipeline_stages t c)
             ∧ walk_result (resolve_pipeline_stages t c) i target lr clients t o t')
  end.

Lemma resolve_walk_spec lr clients w :
  clients_wf clients →
  returns (_resolve_stage_walk lr clients)
    (λ o w', resolved lr clients (w_task w) o (w_task w')
             ∧ (o = REFUSE → w' = w)) w.
Proof.
  intros Hwf. unfold _resolve_stage_walk. rewrite returns_bind, returns_read. cbn [id].
  destruct (_classify_sentinel_stage_position (w_task w) lr clients)
    as [| | |stages target|] eqn:Hcl.
  - apply returns_ret. split; [|done]. unfold resolved, refuses. rewrite Hcl. auto.
  - destruct (_is_stage_advance_claim lr) eqn:Ha; apply returns_ret;
      (split; [|done]); unfold resolved, refuses; rewrite Hcl; auto.
  - apply returns_ret. split; [|done]. unfold resolved, refuses. rewrite Hcl. auto.
  - destruct (classify_later _ _ _ _ _ Hwf Hcl) as (c & i & Hc & -> & Hnd & Hi & Hit & Htl).
    unfold _walk_stage_pointer_forward. rewrite !returns_bind, !returns_read, returns_bind,
      returns_read.
    eapply returns_mono; [by apply (walk_loop_spec _ _ _ _ _ _ _ _ i); try lia|].
    intros o w' Hw. assert (o ≠ REFUSE) by (intros ->; by destruct Hw as (_ & _ & ?)).
    split; [|done]. unfold resolved, refuses. rewrite Hcl.
    destruct o; [done| |]; (split; [done|right; exists c, i, target; split_and!; try done]).
  - apply returns_ret. split; [|done]. unfold resolved, refuses. rewrite Hcl. auto.
Qed.
End WalkSpec.

(** ** Properties *)

Section WalkProps.
Context {C : Clock} {E : GateEnv}.

(** the forward walk terminates and is gated: from rung [i] of a
    duplicate-free pipeline it never raises, and either it lands the row on
    the target rung, in which case no REVIEW rung it left had an armed gate
    (empty branch, conflicting branch, large scope, finalize hold, signoff),
    or it stops with the row parked at REVIEW behind an armed gate; either
    way the regress counter is kept and at most one attempt is charged. *)
Theorem stage_walk_lands stages target clients lr w i :
  NoDup stages → index_of (w_task w).(stage) stages = Some i → i ≤ target →
  target < length stages →
  returns (_walk_stage_pointer_forward stages target clients lr)
    (λ o w',
      let t := w_task w in let t' := w_task w' in
      t'.(regress_attempts) = t.(regress_attempts) ∧ (∃ b, charged b t t')
      ∧ ((o = PROCEED ∧ stages !! target = Some t'.(stage)
          ∧ ∀ j, i ≤ j < target → stages !! j = Some Stage.REVIEW →
              walk_armed t lr clients = false)
         ∨ (o = PARKED ∧ t'.(stage) = Stage.REVIEW ∧ is_parked t'.(status) = true
            ∧ walk_armed t lr clients = true))) w.
Proof.
  intros Hnd Hi Hit Htl. unfold _walk_stage_pointer_forward.
  rewrite !returns_bind, !returns_read, returns_bind, returns_read.
  eapply returns_mono; [by apply (walk_loop_spec _ _ _ _ _ _ _ _ i); try lia|].
  intros o w' (_ & Hr & Ho). split; [done|]. destruct o; [done| |].
  - destruct Ho as (Hs & Hu & _ & Hg). split.
    + exists false. unfold charged. rewrite Hu, andb_false_r. lia.
    + left. done.
  - destruct Ho as (Hs & Hp & Hb & Ha & _). split; [done|]. right. done.
Qed.
End WalkProps.

(** A quiet environment: no git problem, no hold, no signoff. *)
Definition quiet_env : GateEnv := {|
  branch_worktree := λ _ _ _, None;
  git_head := λ _, None;
  git_rev_count := λ _ _, Some 3%Z;
  git_merge_head := λ _, Some false;
  conflicting_branch := λ _ _, false;
  tolerates_review_move := λ _ _ _ _, false;
  recipe_will_release := λ _ _ _ _, false;
  effective_config := mkOrchestratorConfig "none" "auto" 10 ReapPolicy.SIGNAL_ONLY |}.

Definition zero_clock : Clock := λ n, Z.of_nat n.

Definition sample_client : ClientConfig :=
  mkClientConfig "main" "dev" [] (mkStagePipelineConfig None ∅) true None "blocking" None.
Definition sample_clients : Clients := {[ "acme" := sample_client ]}.

(** A RUNNING row at the given stage. *)
Definition running_row (s : StageT) : TicketTask :=
  (new_task "T-1" "acme" 0) <| status := QueueItemStatus.RUNNING |> <| stage := s |>
    <| session_id := Some "s1" |>.

Lemma stage_walk_lands_witness :
  returns (_walk_stage_pointer_forward (C := zero_clock) (E := quiet_env)
             DEFAULT_PIPELINE_STAGES 3 sample_clients JNull)
    (λ o w',
      let t := running_row Stage.PLAN in let t' := w_task w' in
      t'.(regress_attempts) = t.(regress_attempts) ∧ (∃ b, charged b t t')
      ∧ ((o = PROCEED ∧ DEFAULT_PIPELINE_STAGES !! 3 = Some t'.(stage)
          ∧ ∀ j, 0 ≤ j < 3 → DEFAULT_PIPELINE_STAGES !! j = Some Stage.REVIEW →
              walk_armed (E := quiet_env) t JNull sample_clients = false)
         ∨ (o = PARKED ∧ t'.(stage) = Stage.REVIEW ∧ is_parked t'.(status) = true
            ∧ walk_armed (E := quiet_env) t JNull sample_clients = true)))
    (mkWorld (running_row Stage.PLAN) [] 0).
Proof.
  refine (@stage_walk_lands zero_clock quiet_env DEFAULT_PIPELINE_STAGES 3 sample_clients JNull
            (mkWorld (running_row Stage.PLAN) [] 0) 0 _ _ _ _).
  - apply (bool_decide_unpack _). vm_compute. exact I.
  - reflexivity.
  - lia.
  - simpl. lia.
Defined.
