(* ===== verification/StageFailure.v ===== *)
(** * Rule 5: [dispatch/routing/stage_failure.py]

    The stage-failure statuses: the mechanically-rejected override, the capped
    FINALIZE self-heal regress, the fix-loop hand-off, the provider-overload
    retry and the generic park with its gate-block backoff. *)

From S2P Require Import Prelude.
From S2P Require Import PyStr.
From S2P Require Import Enums.
From S2P Require Import Tasks.
From S2P Require Import World.
From S2P Require Import Vocab.
From S2P Require Import RearmOwed.
From S2P Require Import Lifecycle.
From S2P Require Import Clients.
From S2P Require Import ScopeTier.
From S2P Require Import ReviewGates.
From S2P Require Import RowOutcome.
From S2P Require Import StageWalk.
From S2P Require Import GateBackoff.

#[local] Open Scope cw_scope.

Definition _AWAITING_OPERATOR_REASON : string := "awaiting_operator_availability".
Definition _MUST_FIX_MECHANICALLY_REJECTED_REASON : string :=
  "codex_must_fix_mechanically_rejected".

Definition BREADCRUMB_ELIGIBLE_PAUSED_STATUSES : gset string :=
  (STAGE_FAILURE_STATUSES ∖ {[ "scope_exceeded"; "forbidden_area" ]})
  ∪ {[ _AWAITING_OPERATOR_REASON; _MUST_FIX_MECHANICALLY_REJECTED_REASON ]}.

Definition _UNRECOGNIZED_REASON_SUFFIX : string := " (unrecognized)".
Definition _UNRECOGNIZED_REASON_DETAILS_MAX_CHARS : nat := 200.

(** The horizontal ellipsis, U+2026, in UTF-8. *)
Definition ELLIPSIS : string :=
  String (ascii_of_nat 226) (String (ascii_of_nat 128) (String (ascii_of_nat 166) "")).

Definition _breadcrumb_for_reason (blocker_reason : option string) (blocker : json) : string :=
  match blocker_reason with
  | None => ""
  | Some reason =>
      if is_known_blocker_reason reason then reason
      else
        let unrecognized := reason +:+ _UNRECOGNIZED_REASON_SUFFIX in
        match as_str (jget "details" blocker) with
        | Some details =>
            if String.eqb details "" then unrecognized
            else
              let max_chars := _UNRECOGNIZED_REASON_DETAILS_MAX_CHARS in
              if Nat.leb (cp_length details) max_chars
              then unrecognized +:+ ": " +:+ cp_take max_chars details
              else unrecognized +:+ ": " +:+ cp_take max_chars details +:+ ELLIPSIS
        | None => unrecognized
        end
  end.

Section StageFailure.
Context {C : Clock} {E : GateEnv}.

Definition _gate_block_breadcrumb_note (status : string) (blocker_reason : option string)
  (blocker : json) (enabled : bool) (fingerprint_stage : string)
  (fingerprint_stage_base_ref : option string) : M World string :=
  if negb (is_gate_block (Some status) blocker_reason) then mret ""
  else if negb enabled then assign clear_gate_block_wait ;; mret ""
  else
    n ← now;
    t ← read id;
    let r := record_gate_block t (Some status) blocker_reason
               (_extract_blocked_on_pr (jget "details" blocker)) n
               (Some fingerprint_stage) fingerprint_stage_base_ref in
    assign (λ _, r.1) ;;
    mret r.2.

Definition _park_must_fix_mechanically_rejected : M World unit :=
  needs_attention _MUST_FIX_MECHANICALLY_REJECTED_REASON
    CODEX_MUST_FIX_MECHANICALLY_REJECTED ;;
  transition_task_status QueueItemStatus.BLOCKED_ON_USER
    (Some REVIEW_MUST_FIX_MECHANICALLY_REJECTED_DISPOSITION) None
    (Some CODEX_MUST_FIX_MECHANICALLY_REJECTED) false.

Definition finalize_regress (blocker_reason : option string) (clients : Clients)
  : M World unit :=
  t ← read id;
  let worktree := resolve_task_worktree t (clients !! t.(client)) in
  _stage_regress Stage.IMPL (bool_decide (merge_in_progress worktree = Some true)) ;;
  t ← read id;
  record_event TICKET_REQUEUED
    [("ticket_id", JStr t.(ticket_id));
     ("client", JStr t.(client));
     ("from_stage", stage_json Stage.FINALIZE);
     ("to_stage", stage_json Stage.IMPL);
     ("reason", JStr "finalize_regress");
     ("blocker_reason", of_opt_str blocker_reason);
     ("regress_attempt", JInt t.(regress_attempts))] None.

Definition provider_overload_retry (blocker_reason : option string) : M World unit :=
  prior_session_id ← read session_id;
  transition_task_status QueueItemStatus.PENDING None None None true ;;
  assign (λ t, t <| session_id := None |> <| stage_base_ref := None |>) ;;
  t ← read id;
  record_event TICKET_REQUEUED
    [("ticket_id", JStr t.(ticket_id));
     ("client", JStr t.(client));
     ("from_stage", stage_json t.(stage));
     ("to_stage", stage_json t.(stage));
     ("reason", JStr "provider_overload_retry");
     ("blocker_reason", of_opt_str blocker_reason);
     ("session_id", of_opt_str prior_session_id);
     ("unproductive_attempts", JInt t.(unproductive_attempts))] None.

(** The fallthrough park. *)
Definition park_stage_failure (status : string) (last_result blocker : json)
  (blocker_reason disp : option string) (claim_unproductive gate_backoff_enabled : bool)
  (gate_fingerprint_stage gate_fingerprint_stage_base_ref : option string)
  : M World unit :=
  t ← read id;
  let base := _breadcrumb_for_reason blocker_reason blocker in
  note ← _gate_block_breadcrumb_note status blocker_reason blocker gate_backoff_enabled
    (match gate_fingerprint_stage with
     | None => Stage.stage_value t.(stage) | Some s => s end)
    (match gate_fingerprint_stage with
     | None => t.(stage_base_ref) | Some _ => gate_fingerprint_stage_base_ref end);
  let breadcrumbs :=
    str_join " " (filter (λ p, negb (String.eqb p "") = true) [base; note]) in
  needs_attention
    (if opt_in blocker_reason OPERATOR_UNAVAILABLE_BLOCKER_REASONS
     then _AWAITING_OPERATOR_REASON else status) breadcrumbs ;;
  let gate_pr_url := if opt_is blocker_reason _AUTOMERGE_NOT_ARMED_REASON
                     then _extract_pr_url_or_info last_result else None in
  let rule5_unproductive :=
    if String.eqb status "stale_dispatch" || opt_is blocker_reason CODEX_REVIEW_UNPARSEABLE
    then false else claim_unproductive in
  transition_task_status QueueItemStatus.BLOCKED_ON_USER disp gate_pr_url blocker_reason
    rule5_unproductive ;;
  when (opt_is blocker_reason BLOCKER_REASON_PRIOR_PIPELINE_PR_OPEN
        || opt_is blocker_reason STALE_DISPATCH_BLOCKER_REASON)
    (assign (λ t, t <| blocked_on_pr := _extract_blocked_on_pr (jget "details" blocker) |>)).

Definition _route_stage_failure (clients : Clients) (status : string)
  (last_result blocker : json) (blocker_reason disp : option string)
  (claim_unproductive gate_backoff_enabled : bool)
  (gate_fingerprint_stage gate_fingerprint_stage_base_ref : option string)
  : M World unit :=
  t ← read id;
  if String.eqb status "blocked" && opt_is blocker_reason CODEX_MUST_FIX_MECHANICALLY_REJECTED
  then _park_must_fix_mechanically_rejected
  else if String.eqb status "blocked"
          && bool_decide (t.(stage) = Stage.FINALIZE)
          && opt_in blocker_reason FINALIZE_REGRESS_BLOCKER_REASONS
          && Z.ltb t.(regress_attempts) FINALIZE_REGRESS_CAP
          && negb (_is_earlier_stage_report t last_result clients)
  then finalize_regress blocker_reason clients
  else if String.eqb status "blocked" && opt_is blocker_reason FIX_LOOP_PENDING_DISPATCH
  then mret tt
  else if String.eqb status "blocked" && opt_is blocker_reason FAMILY_PROVIDER_OVERLOAD
  then provider_overload_retry blocker_reason
  else park_stage_failure status last_result blocker blocker_reason disp claim_unproductive
         gate_backoff_enabled gate_fingerprint_stage gate_fingerprint_stage_base_ref.
End StageFailure.

(** ** Outcomes of Rule 5 *)

Section FailureSpec.
Context {C : Clock} {E : GateEnv}.

(** The gate-block note touches the backoff record and the clock only. *)
Definition same_but_backoff (t t' : TicketTask) : Prop :=
  ∃ n g, t' = t <| next_eligible_at := n |> <| gate_block := g |>.

Lemma same_but_backoff_refl t : same_but_backoff t t.
Proof. exists t.(next_eligible_at), t.(gate_block). by destruct t. Qed.

Lemma gate_note_returns st reason blocker en fs fb w :
  returns (_gate_block_breadcrumb_note st reason blocker en fs fb)
    (λ _ w', same_but_backoff (w_task w) (w_task w')) w.
Proof.
  unfold _gate_block_breadcrumb_note.
  destruct (negb (is_gate_block _ _)); [apply returns_ret, same_but_backoff_refl|].
  destruct (negb en).
  - rewrite returns_bind, returns_assign. apply returns_ret. cbn [w_task].
    unfold clear_gate_block_wait. destruct (owns_wait _); [|apply same_but_backoff_refl].
    exists None, (w_task w).(gate_block). by destruct (w_task w).
  - rewrite returns_bind. unfold returns at 1, wp, result, exec, now. cbn [fst snd].
    rewrite returns_bind, returns_read, returns_bind, returns_assign. apply returns_ret.
    eexists _, _. reflexivity.
Qed.

Definition is_blocked_on (st : string) (reason : option string) (r : string) : bool :=
  String.eqb st "blocked" && opt_is reason r.

(** 5a's guard. *)
Definition regresses (t : TicketTask) (st : string) (reason : option string) (lr : json)
  (clients : Clients) : bool :=
  String.eqb st "blocked" && bool_decide (t.(stage) = Stage.FINALIZE)
  && opt_in reason FINALIZE_REGRESS_BLOCKER_REASONS
  && Z.ltb t.(regress_attempts) FINALIZE_REGRESS_CAP
  && negb (_is_earlier_stage_report t lr clients).

Definition rule5_unproductive (st : string) (reason : option string) (cu : bool) : bool :=
  if String.eqb st "stale_dispatch" || opt_is reason CODEX_REVIEW_UNPARSEABLE
  then false else cu.

Definition failure_outcome (st : string) (reason d : option string) (cu : bool) (lr : json)
  (clients : Clients) (t t' : TicketTask) : Prop :=
  if is_blocked_on st reason CODEX_MUST_FIX_MECHANICALLY_REJECTED
  then parked QueueItemStatus.BLOCKED_ON_USER
         (Some REVIEW_MUST_FIX_MECHANICALLY_REJECTED_DISPOSITION) false t t'
  else if regresses t st reason lr clients then regressed Stage.IMPL t t'
  else if is_blocked_on st reason FIX_LOOP_PENDING_DISPATCH then t' = t
  else if is_blocked_on st reason FAMILY_PROVIDER_OVERLOAD then retried t t'
  else parked QueueItemStatus.BLOCKED_ON_USER d (rule5_unproductive st reason cu) t t'.

Lemma park_failure_parks st lr blocker reason d cu en fs fb w :
  returns (park_stage_failure st lr blocker reason d cu en fs fb)
    (λ _ w', parked QueueItemStatus.BLOCKED_ON_USER d (rule5_unproductive st reason cu)
               (w_task w) (w_task w')) w.
Proof.
  unfold park_stage_failure. rewrite returns_bind, returns_read.
  eapply returns_seq; [apply gate_note_returns|]. intros note w1 (n & g & Hw1).
  apply returns_after_events; [auto with cw|]. intros _ w2 Hw2.
  eapply returns_seq; [by apply transition_parks|].
  intros [] w3 Hp. cbn beta in Hp.
  rewrite Hw2 in Hp. rewrite Hw1 in Hp. fold (rule5_unproductive st reason cu) in Hp.
  unfold when.
  match goal with |- context [if ?b then assign _ else _] => destruct b end;
    [|apply returns_ret; exact Hp].
  apply returns_assign. exact Hp.
Qed.

Lemma retry_retries reason w :
  returns (provider_overload_retry reason) (λ _ w', retried (w_task w) (w_task w')) w.
Proof.
  unfold provider_overload_retry. destruct w as [t evs n].
  rewrite returns_bind, returns_read, returns_bind.
  unfold returns at 1, wp, result, exec. rewrite pend_run. cbn [fst snd w_task].
  rewrite returns_bind, returns_assign, returns_bind, returns_read.
  eapply returns_mono; [apply events_only_returns; auto with cw|].
  intros [] w' Hw'. cbn beta in Hw'. rewrite Hw'. cbn [w_task].
  assert (Hr : retried t (drop_anchors (pend true t)));
    [unfold retried, charged; by autorewrite with row|exact Hr].
Qed.

Lemma finalize_regress_regresses reason clients w :
  returns (finalize_regress reason clients)
    (λ _ w', regressed Stage.IMPL (w_task w) (w_task w')) w.
Proof.
  unfold finalize_regress. rewrite returns_bind, returns_read.
  apply (returns_then_events _ _ (λ t', regressed Stage.IMPL (w_task w) t'));
    [apply regress_regresses|]. auto with cw.
Qed.

(** Rule 5 has exactly one of five outcomes, told apart by the status, the
    blocker reason and the 5a guard. *)
Lemma stage_failure_returns clients st lr blocker reason d cu en fs fb w :
  returns (_route_stage_failure clients st lr blocker reason d cu en fs fb)
    (λ _ w', failure_outcome st reason d cu lr clients (w_task w) (w_task w')) w.
Proof.
  unfold _route_stage_failure. rewrite returns_bind, returns_read. cbn [id].
  unfold failure_outcome. fold (regresses (w_task w) st reason lr clients).
  fold (is_blocked_on st reason CODEX_MUST_FIX_MECHANICALLY_REJECTED).
  fold (is_blocked_on st reason FIX_LOOP_PENDING_DISPATCH).
  fold (is_blocked_on st reason FAMILY_PROVIDER_OVERLOAD).
  destruct (is_blocked_on st reason CODEX_MUST_FIX_MECHANICALLY_REJECTED).
  { unfold _park_must_fix_mechanically_rejected.
    apply returns_after_events; [auto with cw|]. intros _ w1 Hw1. rewrite <- Hw1.
    by apply transition_parks. }
  destruct (regresses _ _ _ _ _); [apply finalize_regress_regresses|].
  destruct (is_blocked_on st reason FIX_LOOP_PENDING_DISPATCH); [by apply returns_ret|].
  destruct (is_blocked_on st reason FAMILY_PROVIDER_OVERLOAD); [apply retry_retries|].
  apply park_failure_parks.
Qed.
End FailureSpec.
