(* ===== verification/Routing.v ===== *)
(** * The staged-decision router: [dispatch/routing/__init__.py]

    Rules 1 to 6 that map one completed claim (its sentinel) to the row's next
    state: advance, park, regress, complete or refuse. *)

From S2P Require Import Prelude.
From S2P Require Import PyStr.
From S2P Require Import Enums.
From S2P Require Import Tasks.
From S2P Require Import World.
From S2P Require Import Vocab.
From S2P Require Import RearmOwed.
From S2P Require Import Lifecycle.
From S2P Require Import Clients.
From S2P Require Import ScopeTier.
From S2P Require Import ReviewGates.
From S2P Require Import RowOutcome.
From S2P Require Import StageWalk.
From S2P Require Import GateBackoff.
From S2P Require Import ClaimEvidence.
From S2P Require Import StageFailure.

#[local] Open Scope cw_scope.

Definition _gate_block_backoff_enabled (c : option ClientConfig) : bool :=
  match c with None => true | Some c => c.(cc_gate_block_backoff_enabled) end.

Definition _PLAN_PARKED_REASON : string := "plan_parked".
Definition _UNKNOWN_CLIENT_REASON : string := "unknown_client".
Definition _INVALID_STAGE_REASON : string := "invalid_stage_config".
Definition _EARLIER_STAGE_REPORT_REASON : string := "earlier_stage_report".

Definition _is_finalize_approval_park (task : TicketTask) (last_result : json) : bool :=
  bool_decide (task.(stage) = Stage.FINALIZE) && is_finalize_park last_result.

Section Routing.
Context {C : Clock} {E : GateEnv}.

Definition _stage_advance_unchecked (clients : Clients) (disp url : option string)
  : M World unit :=
  t ← read id;
  match clients !! t.(client) with
  | None => park_gate _UNKNOWN_CLIENT_REASON QueueItemStatus.BLOCKED_ON_USER
              _UNKNOWN_CLIENT_REASON
  | Some client_cfg =>
      let stages := resolve_pipeline_stages t client_cfg in
      if negb (bool_decide (t.(stage) ∈ stages))
      then park_gate _INVALID_STAGE_REASON QueueItemStatus.BLOCKED_ON_USER
             _INVALID_STAGE_REASON
      else
        l ← py_last stages;
        if bool_decide (t.(stage) = l)
        then transition_task_status QueueItemStatus.COMPLETED disp url None false
        else _advance_task_pointer stages
  end.

(** The gates of Rule 1 that run ahead of the tier decision. *)
Definition approval_gate (task : TicketTask) (last_result : json) (clients : Clients)
  : option (M World unit) :=
  let at_review := bool_decide (task.(stage) = Stage.REVIEW) in
  if at_review && _should_gate_for_empty_diff task clients
  then Some _park_empty_diff_gate
  else if at_review && _should_gate_for_branch_staleness task clients
  then Some _park_branch_staleness_gate
  else if at_review && _should_gate_for_review_staleness task last_result clients
  then Some _park_review_staleness_gate
  else if at_review && _should_gate_for_review_health last_result
  then Some _park_review_health_gate
  else None.

Definition _route_scope_gated_approval (clients : Clients) (last_result : json)
  (disp url : option string) (claim_unproductive : bool) : M World unit :=
  base_ref ← read stage_base_ref;
  is_repeat ← _consume_finalize_regress_repeat base_ref;
  t ← read id;
  (match approval_gate t last_result clients with
   | Some park => park
   | None =>
       let tier := _resolve_scope_tier last_result t in
       let earlier_stage_report := _is_earlier_stage_report t last_result clients in
       if negb (opt_is tier SCOPE_TIER_SMALL) || earlier_stage_report
          || _is_finalize_approval_park t last_result
       then
         when (earlier_stage_report || negb (_gate_recipe_will_release t last_result clients))
           (needs_attention
              (if earlier_stage_report then _EARLIER_STAGE_REPORT_REASON
               else APPROVAL_GATE_REASON) "") ;;
         transition_task_status QueueItemStatus.BLOCKED_ON_USER disp None None
           claim_unproductive
       else if bool_decide (t.(stage) = Stage.REVIEW) && _should_force_hold_finalize t clients
       then _park_finalize_hold
       else if bool_decide (t.(stage) = Stage.REVIEW) && _should_gate_for_signoff t clients
       then _park_signoff_gate
       else _stage_advance_unchecked clients disp url
   end) ;;
  _record_scope_routing_decision last_result _RULE_SCOPE_GATED_APPROVAL ;;
  _maybe_emit_finalize_regress_repeat_signal is_repeat.

(** The gates of Rule 3, in order. *)
Definition success_gate (task : TicketTask) (last_result : json) (clients : Clients)
  : option (M World unit) :=
  let at_review := bool_decide (task.(stage) = Stage.REVIEW) in
  if bool_decide (task.(stage) = Stage.IMPL)
     && _should_gate_for_unconcluded_finalize_regress_merge task clients
  then Some _park_unconcluded_finalize_regress_merge_gate
  else if at_review && _should_gate_for_empty_diff task clients
  then Some _park_empty_diff_gate
  else if at_review && _should_gate_for_branch_staleness task clients
  then Some _park_branch_staleness_gate
  else if at_review && _should_gate_for_review_staleness task last_result clients
  then Some _park_review_staleness_gate
  else if at_review && _should_gate_for_review_health last_result
  then Some _park_review_health_gate
  else if at_review && _should_gate_for_scope_hint task last_result
  then Some _park_scope_hint_gate
  else if at_review && _should_force_hold_finalize task clients
  then Some _park_finalize_hold
  else if at_review && _should_gate_for_signoff task clients
  then Some _park_signoff_gate
  else None.

Definition _route_stage_success (clients : Clients) (disp url : option string)
  (last_result : json) : M World unit :=
  base_ref ← read stage_base_ref;
  is_repeat ← _consume_finalize_regress_repeat base_ref;
  t ← read id;
  (match success_gate t last_result clients with
   | Some park => park
   | None => _stage_advance_unchecked clients disp url
   end) ;;
  _record_scope_routing_decision last_result _RULE_STAGE_SUCCESS ;;
  _maybe_emit_finalize_regress_repeat_signal is_repeat.

(** The Rule 1-6 table, after the stage walk let the sentinel through. *)
Definition route_rules (st : option string) (last_result : json) (clients : Clients)
  (gate_fingerprint_stage_base_ref : option string) : M World unit :=
  t ← read id;
  let gate_fingerprint_stage := Stage.stage_value t.(stage) in
  let url := _extract_pr_url last_result in
  let blocker := jget "blocker" last_result in
  let blocker_reason := as_str (jget "reason" blocker) in
  let disp := Some (_hold_aware_disposition st blocker_reason) in
  let claim_unproductive := is_unproductive (extract_claim_evidence last_result) in
  assign (λ t, reset_gate_block_unless_gate t st blocker_reason) ;;
  if opt_in st SCOPE_GATED_APPROVAL_STATUSES then
    _route_scope_gated_approval clients last_result disp url claim_unproductive
  else if opt_in st PAUSED_FOR_USER_INPUT_STATUSES then
    needs_attention _PLAN_PARKED_REASON "" ;;
    transition_task_status QueueItemStatus.BLOCKED_ON_USER disp None None claim_unproductive
  else if opt_in st STAGE_SUCCESS_STATUSES then
    _route_stage_success clients disp url last_result
  else if opt_is st "merge_pending" then
    needs_attention "merge_pending" "" ;;
    transition_task_status QueueItemStatus.BLOCKED_ON_USER disp url None claim_unproductive
  else if opt_is st "no_op" then
    transition_task_status QueueItemStatus.COMPLETED (Some "no_op") None None false
  else if opt_in st STAGE_FAILURE_STATUSES then
    _route_stage_failure clients (default "" st) last_result blocker blocker_reason disp
      claim_unproductive
      (negb (is_gate_block st blocker_reason)
       || _gate_block_backoff_enabled (clients !! t.(client)))
      (Some gate_fingerprint_stage) gate_fingerprint_stage_base_ref
  else
    needs_attention "blocked" "" ;;
    transition_task_status QueueItemStatus.BLOCKED_ON_USER (Some "abandoned") None None
      claim_unproductive.

Definition _route_staged_decision (st : option string) (last_result : json)
  (clients : Clients) : M World bool :=
  gate_fingerprint_stage_base_ref ← read stage_base_ref;
  walk_outcome ← _resolve_stage_walk last_result clients;
  match walk_outcome with
  | REFUSE =>
      t ← read id;
      record_event SENTINEL_STAGE_MISMATCH
        [("ticket_id", JStr t.(ticket_id));
         ("client", JStr t.(client));
         ("session_id", of_opt_str t.(session_id));
         ("expected_stage", stage_json t.(stage));
         ("sentinel_stage_reached", jget "stage_reached" last_result)]
        (Some t.(ticket_id)) ;;
      mret false
  | PARKED => _persist_carried_context last_result ;; mret true
  | PROCEED =>
      _persist_carried_context last_result ;;
      route_rules st last_result clients gate_fingerprint_stage_base_ref ;;
      mret true
  end.

Definition apply_staged_decision (st : option string) (last_result : json)
  (clients : Clients) : M World bool :=
  s ← read status;
  if negb (bool_decide (s = QueueItemStatus.RUNNING)) then raise AssertionError
  else _route_staged_decision st last_result clients.
End Routing.

(** ** Outcomes of each rule *)

Section RuleOutcomes.
Context {C : Clock} {E : GateEnv}.

Definition advance_outcome (clients : Clients) (d : option string) (t t' : TicketTask)
  : Prop :=
  match clients !! t.(client) with
  | None => parked QueueItemStatus.BLOCKED_ON_USER (Some _UNKNOWN_CLIENT_REASON) true t t'
  | Some c =>
      let stages := resolve_pipeline_stages t c in
      if bool_decide (t.(stage) ∈ stages)
      then if bool_decide (last stages = Some t.(stage)) then completed_as d t t'
           else advanced stages t t'
      else parked QueueItemStatus.BLOCKED_ON_USER (Some _INVALID_STAGE_REASON) true t t'
  end.

Lemma interior_next (stages : list StageT) s :
  s ∈ stages → last stages ≠ Some s →
  ∃ i, index_of s stages = Some i ∧ is_Some (stages !! S i).
Proof.
  intros [i Hi]%index_of_Some Hl. exists i. split; [done|].
  pose proof (index_of_lookup _ _ _ Hi) as Hlk. apply lookup_lt_Some in Hlk as Hlt.
  apply lookup_lt_is_Some. destruct (decide (S i < length stages)) as [|Hge]; [done|].
  exfalso. apply Hl. rewrite last_lookup, <- Hlk. f_equal. lia.
Qed.

Lemma stage_advance_returns clients d url w :
  returns (_stage_advance_unchecked clients d url)
    (λ _ w', advance_outcome clients d (w_task w) (w_task w')) w.
Proof.
  unfold _stage_advance_unchecked, advance_outcome. rewrite returns_bind, returns_read.
  cbn [id]. destruct (clients !! client (w_task w)) as [c|]; [|by apply park_gate_parks].
  destruct (decide (stage (w_task w) ∈ resolve_pipeline_stages (w_task w) c)) as [Hin|Hin];
    [rewrite (bool_decide_true _ Hin)|rewrite (bool_decide_false _ Hin)]; cbn [negb];
    [|by apply park_gate_parks].
  destruct (last (resolve_pipeline_stages (w_task w) c)) as [l|] eqn:Hl.
  - unfold py_last. rewrite Hl, returns_bind, returns_ret.
    destruct (decide (stage (w_task w) = l)) as [He|He].
    + rewrite (bool_decide_true _ He), bool_decide_true by congruence.
      apply transition_completes.
    + rewrite (bool_decide_false _ He), bool_decide_false by congruence.
      apply advance_advances, interior_next; [done|congruence].
  - apply last_None in Hl. rewrite Hl in Hin. by apply not_elem_of_nil in Hin.
Qed.

Definition parked_any (t t' : TicketTask) : Prop := ∃ s d b, parked s d b t t'.

Lemma is_park_any park w :
  is_park park → returns park (λ _ w', parked_any (w_task w) (w_task w')) w.
Proof.
  intros (p & s & d & Hs & ->). eapply returns_mono; [by apply park_gate_parks|].
  intros ? w' Hp. by exists s, (Some d), true.
Qed.

(** The gates Rule 3 runs at REVIEW. *)
Definition success_armed (t : TicketTask) (lr : json) (clients : Clients) : bool :=
  walk_armed t lr clients || _should_gate_for_review_staleness t lr clients
  || _should_gate_for_review_health lr.

(** The gates Rule 1 runs at REVIEW on a small-tier row. *)
Definition approval_armed (t : TicketTask) (lr : json) (clients : Clients) : bool :=
  _should_gate_for_empty_diff t clients || _should_gate_for_branch_staleness t clients
  || _should_gate_for_review_staleness t lr clients || _should_gate_for_review_health lr
  || _should_force_hold_finalize t clients || _should_gate_for_signoff t clients.

Ltac step_gate Hg :=
  match type of Hg with
  | (if ?b then _ else _) = _ =>
      destruct b eqn:?; [injection Hg as <-; assumption|]
  end.

Lemma success_gate_some t lr clients park :
  success_gate t lr clients = Some park → is_park park.
Proof.
  destruct is_park_gates as (H1 & H2 & H3 & H4 & H5 & H6 & H7 & H8).
  unfold success_gate. intros Hg. do 8 step_gate Hg. discriminate Hg.
Qed.

Lemma approval_gate_some t lr clients park :
  approval_gate t lr clients = Some park → is_park park.
Proof.
  destruct is_park_gates as (H1 & H2 & H3 & H4 & H5 & H6 & H7 & H8).
  unfold approval_gate. intros Hg. do 4 step_gate Hg. discriminate Hg.
Qed.

Lemma success_gate_none t lr clients :
  success_gate t lr clients = None → t.(stage) = Stage.REVIEW →
  success_armed t lr clients = false.
Proof.
  unfold success_gate, success_armed, walk_armed. intros Hg Hs. rewrite Hs in Hg.
  rewrite bool_decide_false, bool_decide_true in Hg by done. cbn [andb] in Hg.
  repeat match type of Hg with
         | (if ?b then _ else _) = _ => destruct b; [discriminate Hg|]
         end. reflexivity.
Qed.

(** Rule 3: park, or advance with every REVIEW gate disarmed. *)
Definition success_outcome (clients : Clients) (d : option string) (lr : json)
  (t t' : TicketTask) : Prop :=
  parked_any t t'
  ∨ advance_outcome clients d t t'
    ∧ (t.(stage) = Stage.REVIEW → success_armed t lr clients = false).

(** Rule 1: park, or advance a small-tier row the sentinel reached, with every
    REVIEW gate disarmed and no finalize park. *)
Definition approval_outcome (clients : Clients) (d : option string) (lr : json)
  (t t' : TicketTask) : Prop :=
  parked_any t t'
  ∨ advance_outcome clients d t t'
    ∧ _resolve_scope_tier lr t = Some SCOPE_TIER_SMALL
    ∧ _is_earlier_stage_report t lr clients = false
    ∧ _is_finalize_approval_park t lr = false
    ∧ (t.(stage) = Stage.REVIEW → approval_armed t lr clients = false).

(** [clear_regress_marker] is invisible to every outcome. *)
Lemma consume_then {A} (m : bool → M World A) (Q : TicketTask → TicketTask → Prop) bref w :
  (∀ t t', Q (clear_regress_marker t) t' → Q t t') →
  (∀ b w', w_task w' = w_task w ∨ w_task w' = clear_regress_marker (w_task w) →
     returns (m b) (λ _ w'', Q (w_task w') (w_task w'')) w') →
  returns (_consume_finalize_regress_repeat bref ≫= m)
    (λ _ w', Q (w_task w) (w_task w')) w.
Proof.
  intros HQ Hm. eapply returns_seq; [apply consume_returns|]. intros b w1 Hw1.
  cbn beta in Hw1. eapply returns_mono; [by apply Hm|]. intros a w2 HQ2. cbn beta in HQ2.
  destruct Hw1 as [Hw1|Hw1]; rewrite Hw1 in HQ2; [done|by apply HQ].
Qed.

Lemma success_outcome_marker clients d lr t t' :
  success_outcome clients d lr (clear_regress_marker t) t' → success_outcome clients d lr t t'.
Proof. exact id. Qed.

Lemma approval_outcome_marker clients d lr t t' :
  approval_outcome clients d lr (clear_regress_marker t) t' →
  approval_outcome clients d lr t t'.
Proof. exact id. Qed.

Lemma stage_success_returns clients d url lr w :
  returns (_route_stage_success clients d url lr)
    (λ _ w', success_outcome clients d lr (w_task w) (w_task w')) w.
Proof.
  unfold _route_stage_success. rewrite returns_bind, returns_read.
  apply (consume_then _ (success_outcome clients d lr)); [apply success_outcome_marker|].
  intros b w1 _. rewrite returns_bind, returns_read. cbn [id].
  apply (returns_then_events _ _ (λ t', success_outcome clients d lr (w_task w1) t'));
    [|auto with cw].
  destruct (success_gate (w_task w1) lr clients) as [park|] eqn:Hg.
  - eapply returns_mono; [apply is_park_any, (success_gate_some _ _ _ _ Hg)|].
    intros ? w2 Hp. by left.
  - eapply returns_mono; [apply stage_advance_returns|]. intros ? w2 Ha. right.
    split; [exact Ha|]. by apply success_gate_none.
Qed.

Lemma scope_gated_returns clients lr d url cu w :
  returns (_route_scope_gated_approval clients lr d url cu)
    (λ _ w', approval_outcome clients d lr (w_task w) (w_task w')) w.
Proof.
  unfold _route_scope_gated_approval. rewrite returns_bind, returns_read.
  apply (consume_then _ (approval_outcome clients d lr)); [apply approval_outcome_marker|].
  intros b w1 _. rewrite returns_bind, returns_read. cbn [id].
  apply (returns_then_events _ _ (λ t', approval_outcome clients d lr (w_task w1) t'));
    [|auto with cw].
  assert (Hpark : ∀ park, is_park park →
            returns park (λ _ w', approval_outcome clients d lr (w_task w1) (w_task w')) w1).
  { intros park Hp. eapply returns_mono; [by apply is_park_any|]. intros ? w2 ?. by left. }
  destruct is_park_gates as (_ & _ & _ & _ & _ & H6 & H7 & _).
  destruct (approval_gate (w_task w1) lr clients) as [park|] eqn:Hg;
    [apply Hpark, (approval_gate_some _ _ _ _ Hg)|].
  destruct (negb (opt_is (_resolve_scope_tier lr (w_task w1)) SCOPE_TIER_SMALL)
            || _is_earlier_stage_report (w_task w1) lr clients
            || _is_finalize_approval_park (w_task w1) lr) eqn:Hb.
  { apply returns_after_events; [auto with cw|]. intros _ w2 Hw2. rewrite <- Hw2.
    eapply returns_mono; [by apply transition_parks|]. intros ? w3 Hp. left.
    exists QueueItemStatus.BLOCKED_ON_USER, d, cu. exact Hp. }
  apply orb_false_iff in Hb as [[Htier Hearly]%orb_false_iff Hfin].
  destruct (bool_decide (stage (w_task w1) = Stage.REVIEW)
            && _should_force_hold_finalize (w_task w1) clients) eqn:Hhold; [by apply Hpark|].
  destruct (bool_decide (stage (w_task w1) = Stage.REVIEW)
            && _should_gate_for_signoff (w_task w1) clients) eqn:Hsign; [by apply Hpark|].
  eapply returns_mono; [apply stage_advance_returns|]. intros ? w2 Ha. right.
  split_and!; [exact Ha|by apply opt_is_true, negb_false_iff|done|done|].
  intros Hr. unfold approval_gate in Hg. unfold approval_armed.
  rewrite Hr, bool_decide_true in * by done. cbn [andb] in *.
  rewrite Hhold, Hsign.
  repeat match type of Hg with
         | (if ?b then _ else _) = _ => destruct b; [discriminate Hg|]
         end. reflexivity.
Qed.

(** ** The rule table *)

Definition claim_unproductive (lr : json) : bool := is_unproductive (extract_claim_evidence lr).

Definition routed_disposition (st : option string) (lr : json) : string :=
  _hold_aware_disposition st (as_str (jget "reason" (jget "blocker" lr))).

Definition rules_outcome (st : option string) (lr : json) (clients : Clients)
  (t t' : TicketTask) : Prop :=
  let reason := as_str (jget "reason" (jget "blocker" lr)) in
  let d := Some (routed_disposition st lr) in
  let cu := claim_unproductive lr in
  if opt_in st SCOPE_GATED_APPROVAL_STATUSES then approval_outcome clients d lr t t'
  else if opt_in st PAUSED_FOR_USER_INPUT_STATUSES
  then parked QueueItemStatus.BLOCKED_ON_USER d cu t t'
  else if opt_in st STAGE_SUCCESS_STATUSES then success_outcome clients d lr t t'
  else if opt_is st "merge_pending" then parked QueueItemStatus.BLOCKED_ON_USER d cu t t'
  else if opt_is st "no_op" then completed_as (Some "no_op") t t'
  else if opt_in st STAGE_FAILURE_STATUSES
  then ∃ t0, t0 = reset_gate_block_unless_gate t st reason
             ∧ failure_outcome (default "" st) reason d cu lr clients t0 t'
  else parked QueueItemStatus.BLOCKED_ON_USER (Some "abandoned") cu t t'.

Lemma rules_returns st lr clients bref w :
  returns (route_rules st lr clients bref)
    (λ _ w', rules_outcome st lr clients (w_task w) (w_task w')) w.
Proof.
  unfold route_rules, rules_outcome. rewrite returns_bind, returns_read. cbn [id].
  rewrite returns_bind, returns_assign.
  set (reason := as_str (jget "reason" (jget "blocker" lr))).
  set (w1 := w <| w_task := reset_gate_block_unless_gate (w_task w) st reason |>).
  assert (Hreset : ∀ Q : TicketTask → TicketTask → Prop,
            (∀ t g t', Q (t <| gate_block := g |>) t' → Q t t') →
            ∀ t', Q (w_task w1) t' → Q (w_task w) t').
  { intros Q HQ t'. unfold w1. cbn [w_task]. unfold reset_gate_block_unless_gate.
    case_match; [apply HQ|done]. }
  set (d := Some (_hold_aware_disposition st reason)).
  set (cu := is_unproductive (extract_claim_evidence lr)).
  assert (Hpark : ∀ p dd uu, returns (needs_attention p "" ;;
              transition_task_status QueueItemStatus.BLOCKED_ON_USER dd uu None cu)
            (λ _ w', parked QueueItemStatus.BLOCKED_ON_USER dd cu (w_task w) (w_task w')) w1).
  { intros p dd uu. apply returns_after_events; [auto with cw|]. intros [] w2 Hw2.
    eapply returns_mono; [by apply transition_parks|]. intros [] w3 Hp.
    cbn beta in Hp. rewrite Hw2 in Hp. revert Hp.
    apply (Hreset (parked QueueItemStatus.BLOCKED_ON_USER dd cu)). by intros. }
  destruct (opt_in st SCOPE_GATED_APPROVAL_STATUSES).
  { eapply returns_mono; [apply scope_gated_returns|]. intros [] w2.
    apply (Hreset (approval_outcome clients d lr)). by intros. }
  destruct (opt_in st PAUSED_FOR_USER_INPUT_STATUSES); [apply Hpark|].
  destruct (opt_in st STAGE_SUCCESS_STATUSES).
  { eapply returns_mono; [apply stage_success_returns|]. intros [] w2.
    apply (Hreset (success_outcome clients d lr)). by intros. }
  destruct (opt_is st "merge_pending"); [apply Hpark|].
  destruct (opt_is st "no_op").
  { eapply returns_mono; [apply transition_completes|]. intros [] w2.
    apply (Hreset (completed_as (Some "no_op"))). by intros. }
  destruct (opt_in st STAGE_FAILURE_STATUSES); [|apply Hpark].
  eapply returns_mono; [apply stage_failure_returns|]. intros [] w2 Hf. by eexists.
Qed.

(** ** The whole router *)

Definition mismatch_event (t : TicketTask) (lr : json) : event :=
  mkEvent SENTINEL_STAGE_MISMATCH
    [("ticket_id", JStr t.(ticket_id)); ("client", JStr t.(client));
     ("session_id", of_opt_str t.(session_id)); ("expected_stage", stage_json t.(stage));
     ("sentinel_stage_reached", jget "stage_reached" lr)] (Some t.(ticket_id)).

Definition routed (st : option string) (lr : json) (clients : Clients) (w : World)
  (r : bool) (w' : World) : Prop :=
  if r then
    ∃ o u, o ≠ REFUSE ∧ resolved lr clients (w_task w) o u
      ∧ match o with
        | PARKED => w_task w' = persist_carried_context u lr
        | _ => rules_outcome st lr clients (persist_carried_context u lr) (w_task w')
        end
  else refuses (w_task w) lr clients = true
       ∧ w' = w <| w_events := w_events w ++ [mismatch_event (w_task w) lr] |>.

Lemma route_returns st lr clients w :
  clients_wf clients →
  returns (_route_staged_decision st lr clients) (λ r w', routed st lr clients w r w') w.
Proof.
  intros Hwf. unfold _route_staged_decision. rewrite returns_bind, returns_read.
  eapply returns_seq; [by apply resolve_walk_spec|]. intros o w1 [Hres Hrefuse].
  destruct o.
  - rewrite (Hrefuse eq_refl) in *. rewrite returns_bind, returns_read, returns_bind.
    apply returns_modify, returns_ret. split; [apply Hres|reflexivity].
  - rewrite returns_bind. unfold _persist_carried_context. rewrite returns_assign.
    eapply returns_seq; [apply rules_returns|]. intros ? w2 Hr. cbn [w_task] in Hr.
    apply returns_ret. exists PROCEED, (w_task w1). done.
  - rewrite returns_bind. unfold _persist_carried_context. rewrite returns_assign.
    apply returns_ret. exists PARKED, (w_task w1). done.
Qed.
End RuleOutcomes.
