(* ===== verification/RoutingProps.v ===== *)
(** * Properties of the staged-decision router

    What [apply_staged_decision] guarantees of every sentinel: it terminates
    without raising, refusals are no-ops, nothing ships past an armed REVIEW
    gate, only the named statuses complete a row, attempts are charged at most
    once and the self-heal regress is capped. *)

From S2P Require Import Prelude.
From S2P Require Import PyStr.
From S2P Require Import Enums.
From S2P Require Import Tasks.
From S2P Require Import World.
From S2P Require Import Vocab.
From S2P Require Import RearmOwed.
From S2P Require Import Lifecycle.
From S2P Require Import Clients.
From S2P Require Import ScopeTier.
From S2P Require Import ReviewGates.
From S2P Require Import RowOutcome.
From S2P Require Import StageWalk.
From S2P Require Import GateBackoff.
From S2P Require Import ClaimEvidence.
From S2P Require Import StageFailure.
From S2P Require Import Routing.

#[local] Open Scope cw_scope.

(** The statuses whose rule may advance or complete the row. *)
Definition ADVANCING_STATUSES : gset string :=
  STAGE_SUCCESS_STATUSES ∪ SCOPE_GATED_APPROVAL_STATUSES.

Section Final.
Context {C : Clock} {E : GateEnv}.

Lemma persist_facts u lr :
  let u' := persist_carried_context u lr in
  u'.(status) = u.(status) ∧ u'.(stage) = u.(stage)
  ∧ u'.(unproductive_attempts) = u.(unproductive_attempts)
  ∧ u'.(regress_attempts) = u.(regress_attempts) ∧ config u' = config u.
Proof.
  cbv zeta. split_and!.
  - by apply (carried_frame status).
  - by apply (carried_frame stage).
  - by apply (carried_frame unproductive_attempts).
  - by apply (carried_frame regress_attempts).
  - by apply (carried_frame config).
Qed.

(** The row the rule table sees, when the walk lets the sentinel through. *)
Lemma resolved_proceed lr clients t u :
  resolved lr clients t PROCEED u →
  let u' := persist_carried_context u lr in
  config u' = config t ∧ u'.(regress_attempts) = t.(regress_attempts)
  ∧ u'.(unproductive_attempts) = t.(unproductive_attempts)
  ∧ (u'.(status) = t.(status) ∧ u'.(stage) = t.(stage)
     ∨ u'.(status) = QueueItemStatus.PENDING).
Proof.
  intros [_ Hr]. cbv zeta. destruct (persist_facts u lr) as (P1 & P2 & P3 & P4 & P5).
  rewrite P1, P2, P3, P4, P5.
  destruct Hr as [[_ ->]|(c & i & tg & _ & _ & _ & Hlt & _ & Hw)]; [split_and!; by auto|].
  destruct Hw as (Hc & Hr & Hs & Hu & Hst & _).
  rewrite (proj2 (Nat.ltb_lt i tg)) in Hst by done. split_and!; by auto.
Qed.

Lemma resolved_parked lr clients t u :
  resolved lr clients t PARKED u →
  let u' := persist_carried_context u lr in
  u'.(stage) = Stage.REVIEW ∧ is_parked u'.(status) = true ∧ (∃ b, charged b t u')
  ∧ u'.(regress_attempts) = t.(regress_attempts).
Proof.
  intros [_ Hr]. destruct Hr as [[? _]|(c & i & tg & _ & _ & _ & _ & _ & Hw)]; [done|].
  destruct Hw as (_ & Hr & Hs & Hp & Hb & _).
  cbv zeta. destruct (persist_facts u lr) as (H1 & H2 & H3 & H4 & _).
  unfold charged. by rewrite H1, H2, H3, H4.
Qed.

(** Charges compose over a walk: it leaves RUNNING without charging. *)
Lemma charged_through t u t' b :
  u.(unproductive_attempts) = t.(unproductive_attempts) →
  (u.(status) = t.(status) ∨ u.(status) = QueueItemStatus.PENDING) →
  charged b u t' → ∃ b', charged b' t t'.
Proof.
  intros Hu [Hs|Hs]; unfold charged; rewrite Hu, Hs; intros H; [by exists b|].
  exists false. by rewrite andb_false_r.
Qed.

Definition last_stage (clients : Clients) (t : TicketTask) (s : StageT) : Prop :=
  ∃ c, clients !! t.(client) = Some c ∧ last (resolve_pipeline_stages t c) = Some s.

(** The cases of a routed sentinel. *)
Inductive final (st : option string) (lr : json) (clients : Clients) (t t' : TicketTask)
  : Prop :=
  | final_parked b :
      is_parked t'.(status) = true → charged b t t' →
      t'.(regress_attempts) = t.(regress_attempts) → final st lr clients t t'
  | final_completed :
      t'.(status) = QueueItemStatus.COMPLETED →
      t'.(unproductive_attempts) = t.(unproductive_attempts) →
      t'.(regress_attempts) = t.(regress_attempts) →
      (st = Some "no_op"
       ∨ opt_in st ADVANCING_STATUSES = true ∧ last_stage clients t t'.(stage)
         ∧ (opt_in st SCOPE_GATED_APPROVAL_STATUSES = true →
            t'.(stage) = Stage.FINALIZE → is_finalize_park lr = false)) →
      final st lr clients t t'
  | final_advanced :
      opt_in st ADVANCING_STATUSES = true → t'.(status) = QueueItemStatus.PENDING →
      t'.(unproductive_attempts) = t.(unproductive_attempts) →
      t'.(regress_attempts) = t.(regress_attempts) → final st lr clients t t'
  | final_regressed :
      st = Some "blocked" →
      opt_in (as_str (jget "reason" (jget "blocker" lr))) FINALIZE_REGRESS_BLOCKER_REASONS
      = true →
      (t.(regress_attempts) < FINALIZE_REGRESS_CAP)%Z → t'.(stage) = Stage.IMPL →
      t'.(status) = QueueItemStatus.PENDING →
      t'.(unproductive_attempts) = t.(unproductive_attempts) →
      t'.(regress_attempts) = (t.(regress_attempts) + 1)%Z → final st lr clients t t'
  | final_retried b :
      st = Some "blocked" →
      as_str (jget "reason" (jget "blocker" lr)) = Some FAMILY_PROVIDER_OVERLOAD →
      t'.(status) = QueueItemStatus.PENDING → charged b t t' →
      t'.(regress_attempts) = t.(regress_attempts) → final st lr clients t t'
  | final_handed_off :
      st = Some "blocked" →
      as_str (jget "reason" (jget "blocker" lr)) = Some FIX_LOOP_PENDING_DISPATCH →
      (t'.(status) = t.(status) ∨ t'.(status) = QueueItemStatus.PENDING) →
      t'.(unproductive_attempts) = t.(unproductive_attempts) →
      t'.(regress_attempts) = t.(regress_attempts) → final st lr clients t t'.

Lemma opt_in_union_l o (X Y : gset string) : opt_in o X = true → opt_in o (X ∪ Y) = true.
Proof. rewrite !opt_in_true. intros (x & -> & Hx). exists x. set_solver. Qed.
Lemma opt_in_union_r o (X Y : gset string) : opt_in o Y = true → opt_in o (X ∪ Y) = true.
Proof. rewrite !opt_in_true. intros (x & -> & Hx). exists x. set_solver. Qed.

Lemma config_client t u : config t = config u → t.(client) = u.(client).
Proof. unfold config. congruence. Qed.

Lemma config_pipeline t u c :
  config t = config u → resolve_pipeline_stages t c = resolve_pipeline_stages u c.
Proof.
  intros H. unfold config in H. injection H as _ Hl _ _ _ _ _ _.
  unfold resolve_pipeline_stages. by rewrite Hl.
Qed.

Section Cases.
Context (st : option string) (lr : json) (clients : Clients) (t u t' : TicketTask).
Context (Hcfg : config u = config t).
Context (Hregress : u.(regress_attempts) = t.(regress_attempts)).
Context (Hcount : u.(unproductive_attempts) = t.(unproductive_attempts)).
Context (Hstatus : u.(status) = t.(status) ∨ u.(status) = QueueItemStatus.PENDING).

Lemma final_of_parked s d b : parked s d b u t' → final st lr clients t t'.
Proof.
  intros (Hs & Hst & _ & _ & Hc & Hr).
  destruct (charged_through _ _ _ _ Hcount Hstatus Hc) as [b' Hb'].
  apply (final_parked _ _ _ _ _ b'); congruence.
Qed.

Lemma final_of_advance d :
  opt_in st ADVANCING_STATUSES = true →
  (opt_in st SCOPE_GATED_APPROVAL_STATUSES = true →
   u.(stage) = Stage.FINALIZE → is_finalize_park lr = false) →
  advance_outcome clients d u t' → final st lr clients t t'.
Proof.
  intros Hst Hfin. unfold advance_outcome. rewrite (config_client _ _ Hcfg).
  destruct (clients !! client t) as [c|] eqn:Hc; [|apply final_of_parked].
  case_bool_decide; [|apply final_of_parked].
  case_bool_decide as Hlast.
  - intros (H1 & _ & H3 & H4 & H5). apply final_completed; [done|congruence|congruence|].
    right. split; [done|]. rewrite H3. split; [|done].
    exists c. by rewrite <- (config_pipeline u).
  - intros (i & _ & _ & H3 & H4 & H5). apply final_advanced; congruence.
Qed.

Lemma final_of_failure s d cu t0 :
  st = Some s →
  t0 = reset_gate_block_unless_gate u st (as_str (jget "reason" (jget "blocker" lr))) →
  failure_outcome s (as_str (jget "reason" (jget "blocker" lr))) d cu lr clients t0 t' →
  final st lr clients t t'.
Proof.
  intros Hst Ht0 Hf. set (reason := as_str (jget "reason" (jget "blocker" lr))) in *.
  assert (Hpk : ∀ s' d' b, parked s' d' b t0 t' → parked s' d' b u t').
  { intros s' d' b. rewrite Ht0. unfold reset_gate_block_unless_gate. by case_match. }
  assert (Hk : t0.(regress_attempts) = u.(regress_attempts)
               ∧ t0.(unproductive_attempts) = u.(unproductive_attempts)
               ∧ t0.(status) = u.(status)).
  { rewrite Ht0. unfold reset_gate_block_unless_gate. by case_match. }
  destruct Hk as (K1 & K2 & K3). clear Ht0.
  unfold failure_outcome in Hf.
  destruct (is_blocked_on s reason CODEX_MUST_FIX_MECHANICALLY_REJECTED);
    [by eapply final_of_parked, Hpk|].
  destruct (regresses t0 s reason lr clients) eqn:Hg.
  { unfold regresses in Hg. rewrite !andb_true_iff in Hg.
    destruct Hg as ((((Hb & _) & Hin) & Hcap) & _). apply String.eqb_eq in Hb. subst s.
    apply Z.ltb_lt in Hcap. destruct Hf as (F1 & F2 & F3 & F4).
    apply final_regressed; [done|exact Hin|congruence..]. }
  destruct (is_blocked_on s reason FIX_LOOP_PENDING_DISPATCH) eqn:Hfix.
  { unfold is_blocked_on in Hfix. apply andb_true_iff in Hfix as [Hb%String.eqb_eq Hfx%opt_is_true]. subst s.
    rewrite Hf. apply final_handed_off; [done|exact Hfx|by rewrite K3|congruence..]. }
  destruct (is_blocked_on s reason FAMILY_PROVIDER_OVERLOAD) eqn:Hov.
  { unfold is_blocked_on in Hov. apply andb_true_iff in Hov as [Hb%String.eqb_eq Ho%opt_is_true]. subst s.
    destruct Hf as (_ & F2 & F3 & F4).
    assert (Hch : charged true u t') by (unfold charged in *; by rewrite <- K2, <- K3).
    destruct (charged_through _ _ _ _ Hcount Hstatus Hch) as [b' Hb'].
    apply (final_retried _ _ _ _ _ b'); [done|exact Ho|exact F2|exact Hb'|congruence]. }
  by eapply final_of_parked, Hpk.
Qed.

Lemma final_of_rules : rules_outcome st lr clients u t' → final st lr clients t t'.
Proof.
  unfold rules_outcome. set (reason := as_str (jget "reason" (jget "blocker" lr))).
  destruct (opt_in st SCOPE_GATED_APPROVAL_STATUSES) eqn:H1.
  { intros [(s & d & b & Hp)|(Ha & _ & _ & Hf & _)]; [by eapply final_of_parked|].
    eapply final_of_advance; [by apply opt_in_union_r| |exact Ha].
    intros _ Hs. unfold _is_finalize_approval_park in Hf.
    by rewrite bool_decide_true in Hf. }
  destruct (opt_in st PAUSED_FOR_USER_INPUT_STATUSES) eqn:H2; [apply final_of_parked|].
  destruct (opt_in st STAGE_SUCCESS_STATUSES) eqn:H3.
  { intros [(s & d & b & Hp)|[Ha _]]; [by eapply final_of_parked|].
    eapply final_of_advance; [by apply opt_in_union_l| |exact Ha]. congruence. }
  destruct (opt_is st "merge_pending"); [apply final_of_parked|].
  destruct (opt_is st "no_op") eqn:H5.
  { intros (E1 & _ & _ & E4 & E5). apply opt_is_true in H5.
    apply final_completed; [done|congruence|congruence|by left]. }
  destruct (opt_in st STAGE_FAILURE_STATUSES) eqn:H6; [|apply final_of_parked].
  apply opt_in_true in H6 as (s & Hst & _).
  replace (default "" st) with s by (by rewrite Hst).
  intros (t0 & Ht0 & Hf). by eapply final_of_failure.
Qed.
End Cases.

Lemma routed_final st lr clients w w' :
  routed st lr clients w true w' → final st lr clients (w_task w) (w_task w').
Proof.
  intros (o & u & Ho & Hres & Hm). destruct o; [done| |].
  - destruct (resolved_proceed _ _ _ _ Hres) as (H1 & H2 & H3 & H4).
    eapply final_of_rules; [exact H1|exact H2|exact H3| |exact Hm]. naive_solver.
  - destruct (resolved_parked _ _ _ _ Hres) as (_ & H2 & [b Hb] & H4).
    rewrite Hm. by apply (final_parked _ _ _ _ _ b).
Qed.

(** A run of the wrapper is a run of the router on a RUNNING row. *)
Lemma apply_routed st lr clients w :
  clients_wf clients → (w_task w).(status) = QueueItemStatus.RUNNING →
  ∃ r, result (apply_staged_decision st lr clients) w = inr r
       ∧ routed st lr clients w r (exec (apply_staged_decision st lr clients) w).
Proof.
  intros Hwf Hs. apply returns_exec. unfold apply_staged_decision.
  rewrite returns_bind, returns_read, Hs. by apply route_returns.
Qed.
End Final.

(** Every set the rule table tests is made of schema statuses. *)
Lemma rule_sets_in_vocabulary :
  SCOPE_GATED_APPROVAL_STATUSES ⊆ list_to_set Status
  ∧ PAUSED_FOR_USER_INPUT_STATUSES ⊆ list_to_set Status
  ∧ STAGE_SUCCESS_STATUSES ⊆ list_to_set Status
  ∧ STAGE_FAILURE_STATUSES ⊆ list_to_set Status
  ∧ "merge_pending" ∈ Status ∧ "no_op" ∈ Status.
Proof. split_and!; vocab_decide. Qed.

Lemma unknown_not_in st (X : gset string) :
  X ⊆ list_to_set Status → (∀ s, st = Some s → s ∉ Status) → opt_in st X = false.
Proof.
  intros HX Hst. destruct (opt_in st X) eqn:E; [|done].
  apply opt_in_true in E as (x & Hx & Hin). exfalso. apply (Hst x Hx).
  apply HX in Hin. by apply elem_of_list_to_set in Hin.
Qed.

Section Ship.
Context {C : Clock} {E : GateEnv}.

Lemma review_staleness_config t u lr clients :
  config t = config u →
  _should_gate_for_review_staleness t lr clients
  = _should_gate_for_review_staleness u lr clients.
Proof.
  intros Hc. unfold config in Hc. injection Hc as H1 H2 H3 H4 H5 H6 H7 H8.
  unfold _should_gate_for_review_staleness, resolve_task_worktree.
  by rewrite H1, H3, H4, H8.
Qed.

(** Rule 1's gates, on a small-tier row, cover the walk's. *)
Lemma approval_covers_walk t lr clients :
  approval_armed t lr clients = false → _resolve_scope_tier lr t = Some SCOPE_TIER_SMALL →
  walk_armed t lr clients = false.
Proof.
  unfold approval_armed, walk_armed. intros Ha Ht.
  rewrite !orb_false_iff in *. unfold _should_gate_for_scope_hint. rewrite Ht.
  split_and!; tauto.
Qed.

Definition leaves_review (st : option string) (t' : TicketTask) : Prop :=
  t'.(stage) ≠ Stage.REVIEW
  ∨ t'.(status) = QueueItemStatus.COMPLETED ∧ st ≠ Some "no_op".

Lemma parked_stays st s d b (t t' : TicketTask) :
  t.(stage) = Stage.REVIEW → parked s d b t t' → ¬ leaves_review st t'.
Proof.
  intros Hr (Hs & Hst & _ & Hsg & _) [Hl|[Hl _]]; [congruence|].
  rewrite Hl in Hst. subst s. discriminate Hs.
Qed.

(** The rule table moves a REVIEW row on only with every gate disarmed. *)
Lemma rules_ship st lr clients u t' :
  u.(stage) = Stage.REVIEW → u.(status) = QueueItemStatus.RUNNING →
  rules_outcome st lr clients u t' → leaves_review st t' →
  walk_armed u lr clients = false
  ∧ _should_gate_for_review_staleness u lr clients = false
  ∧ _should_gate_for_review_health lr = false.
Proof.
  intros Hr Hrun Ho Hl. unfold rules_outcome in Ho.
  assert (Hpk : ∀ s d b, parked s d b u t' → False).
  { intros s d b Hp. by apply (parked_stays st s d b u t'). }
  destruct (opt_in st SCOPE_GATED_APPROVAL_STATUSES).
  { destruct Ho as [(s & d & b & Hp)|(_ & Ht & _ & _ & Ha)]; [by destruct (Hpk s d b)|].
    specialize (Ha Hr). split; [by apply approval_covers_walk|].
    unfold approval_armed in Ha. rewrite !orb_false_iff in Ha. tauto. }
  destruct (opt_in st PAUSED_FOR_USER_INPUT_STATUSES); [by destruct (Hpk _ _ _ Ho)|].
  destruct (opt_in st STAGE_SUCCESS_STATUSES).
  { destruct Ho as [(s & d & b & Hp)|[_ Ha]]; [by destruct (Hpk s d b)|].
    specialize (Ha Hr). unfold success_armed in Ha. rewrite !orb_false_iff in Ha. tauto. }
  destruct (opt_is st "merge_pending"); [by destruct (Hpk _ _ _ Ho)|].
  destruct (opt_is st "no_op") eqn:Hn.
  { apply opt_is_true in Hn. destruct Ho as (_ & _ & Hsg & _).
    destruct Hl as [Hl|[_ Hl]]; congruence. }
  destruct (opt_in st STAGE_FAILURE_STATUSES); [|by destruct (Hpk _ _ _ Ho)].
  exfalso. destruct Ho as (t0 & Ht0 & Hf).
  assert (H0 : t0.(stage) = Stage.REVIEW ∧ t0.(status) = QueueItemStatus.RUNNING).
  { rewrite Ht0. unfold reset_gate_block_unless_gate. by case_match. }
  destruct H0 as [Hr0 Hrun0].
  assert (Hpk0 : ∀ s d b, parked s d b t0 t' → False).
  { intros s d b Hp. by apply (parked_stays st s d b t0 t'). }
  unfold failure_outcome in Hf.
  repeat match type of Hf with
         | (if ?b then _ else _) => destruct b eqn:?
         end; try (by eapply Hpk0).
  - unfold regresses in *. rewrite Hr0 in *.
    match goal with H : context [bool_decide (Stage.REVIEW = Stage.FINALIZE)] |- _ =>
      rewrite bool_decide_false, andb_false_r in H by done; discriminate H end.
  - subst t'. destruct Hl as [?|[? _]]; congruence.
  - destruct Hf as (Hs & Hst & _). destruct Hl as [?|[? _]]; congruence.
Qed.

Lemma route_ship st lr clients w w' :
  (w_task w).(stage) = Stage.REVIEW → (w_task w).(status) = QueueItemStatus.RUNNING →
  routed st lr clients w true w' → leaves_review st (w_task w') →
  walk_armed (w_task w) lr clients = false
  ∧ (_classify_sentinel_stage_position (w_task w) lr clients = SAME
     ∨ _classify_sentinel_stage_position (w_task w) lr clients = BYPASS →
     _should_gate_for_review_staleness (w_task w) lr clients = false
     ∧ _should_gate_for_review_health lr = false).
Proof.
  intros Hr Hrun (o & u & Ho & Hres & Hm) Hl. destruct o; [done| |].
  - destruct Hres as [_ [[_ ->]|(c & i & tg & Hc & Hcl & Hi & Hlt & _ & Hw)]].
    + destruct (persist_facts (w_task w) lr) as (P1 & P2 & _ & _ & P5).
      assert (Hship : walk_armed (w_task w) lr clients = false
                      ∧ _should_gate_for_review_staleness (w_task w) lr clients = false
                      ∧ _should_gate_for_review_health lr = false).
      { rewrite <- (walk_armed_config _ _ _ _ P5), <- (review_staleness_config _ _ _ _ P5).
        eapply rules_ship; [congruence|congruence|exact Hm|exact Hl]. }
      split; [|intros _]; tauto.
    + destruct Hw as (_ & _ & _ & _ & _ & Hg).
      split; [|rewrite Hcl; intros [?|?]; done].
      apply (Hg i); [lia|]. rewrite <- Hr. by apply index_of_lookup.
  - destruct (resolved_parked _ _ _ _ Hres) as (H1 & H2 & _).
    rewrite Hm in Hl. destruct Hl as [Hl|[Hl _]]; [done|]. rewrite Hl in H2. done.
Qed.
End Ship.

(** ** Properties *)

Section RoutingProps.
Context {C : Clock} {E : GateEnv}.

(** C2: every sentinel is routed or refused and routing terminates without
    raising: on a RUNNING row whose clients passed the pipeline validator,
    the decision returns, it returns False exactly when the sentinel's stage
    is unresolvable or it is an advance claim for an earlier stage, and then
    the row and the clock are untouched and exactly one
    [sentinel.stage_mismatch] event is appended; a row that is not RUNNING
    is an assertion error that changes nothing. *)
Theorem staged_decision_total st lr clients w :
  clients_wf clients →
  let m := apply_staged_decision st lr clients in
  if bool_decide ((w_task w).(status) = QueueItemStatus.RUNNING) then
    result m w = inr (negb (refuses (w_task w) lr clients))
    ∧ (refuses (w_task w) lr clients = true →
       exec m w = w <| w_events := w_events w ++ [mismatch_event (w_task w) lr] |>)
  else m w = (inl AssertionError, w).
Proof.
  intros Hwf. cbv zeta. case_bool_decide as Hs.
  - destruct (apply_routed st lr clients w Hwf Hs) as (r & Hr & Ho).
    rewrite Hr. destruct r; cbn [routed] in Ho.
    + destruct Ho as (o & u & Hne & Hres & _).
      assert (Hn : refuses (w_task w) lr clients = false)
        by (destruct o; [done|apply Hres|apply Hres]).
      rewrite Hn. done.
    + destruct Ho as [-> ->]. done.
  - unfold apply_staged_decision. destruct w as [t evs n]. run_step @read_run.
    rewrite bool_decide_false by done. done.
Qed.

(** C1: the ship checkpoint: a claim of a RUNNING row at REVIEW takes the row
    past REVIEW, or completes it other than as a no-op, only if its branch is
    known neither empty nor in conflict with the default branch, the
    effective scope is not large and neither a finalize hold nor a signoff
    is required; and, when the sentinel reports REVIEW itself, only if its
    review covers the current tree and its health is vouched for. *)
Theorem ship_checkpoint st lr clients w :
  clients_wf clients → (w_task w).(status) = QueueItemStatus.RUNNING →
  (w_task w).(stage) = Stage.REVIEW →
  let m := apply_staged_decision st lr clients in
  result m w = inr true → leaves_review st (w_task (exec m w)) →
  _should_gate_for_empty_diff (w_task w) clients = false
  ∧ _should_gate_for_branch_staleness (w_task w) clients = false
  ∧ _should_gate_for_scope_hint (w_task w) lr = false
  ∧ _should_force_hold_finalize (w_task w) clients = false
  ∧ _should_gate_for_signoff (w_task w) clients = false
  ∧ (_classify_sentinel_stage_position (w_task w) lr clients = SAME
     ∨ _classify_sentinel_stage_position (w_task w) lr clients = BYPASS →
     _should_gate_for_review_staleness (w_task w) lr clients = false
     ∧ _should_gate_for_review_health lr = false).
Proof.
  intros Hwf Hrun Hrev m Hres Hl.
  destruct (apply_routed st lr clients w Hwf Hrun) as (r & Hr & Ho). fold m in Hr, Ho.
  rewrite Hres in Hr. injection Hr as <-.
  destruct (route_ship _ _ _ _ _ Hrev Hrun Ho Hl) as [Hw Hg].
  unfold walk_armed in Hw. rewrite !orb_false_iff in Hw. tauto.
Qed.

(** C3: only a no-op, a stage success or a scope-gated approval can complete
    a row, the latter two only at the last stage of the row's resolved
    pipeline, and an approval park of the FINALIZE stage never does. *)
Theorem completion_is_earned st lr clients w :
  clients_wf clients → (w_task w).(status) = QueueItemStatus.RUNNING →
  let m := apply_staged_decision st lr clients in
  let t' := w_task (exec m w) in
  t'.(status) = QueueItemStatus.COMPLETED →
  st = Some "no_op"
  ∨ opt_in st (STAGE_SUCCESS_STATUSES ∪ SCOPE_GATED_APPROVAL_STATUSES) = true
    ∧ (∃ c, clients !! (w_task w).(client) = Some c
            ∧ last (resolve_pipeline_stages (w_task w) c) = Some t'.(stage))
    ∧ (opt_in st SCOPE_GATED_APPROVAL_STATUSES = true → t'.(stage) = Stage.FINALIZE →
       is_finalize_park lr = false).
Proof.
  intros Hwf Hrun m t' Hc.
  destruct (apply_routed st lr clients w Hwf Hrun) as (r & Hr & Ho). fold m in Hr, Ho.
  destruct r.
  - apply routed_final in Ho. fold t' in Ho.
    destruct Ho as [b Hp|? ? ? Hd|? Hp|? ? ? ? Hp|b ? ? Hp|? ? [Hp|Hp]];
      try (rewrite Hc in Hp; try rewrite Hrun in Hp; discriminate Hp).
    exact Hd.
  - destruct Ho as [_ Ho]. unfold t' in Hc. rewrite Ho in Hc. cbn in Hc. congruence.
Qed.

(** an unparseable or unknown sentinel (no status, or one outside the
    schema's vocabulary) that is not refused always leaves the row parked
    for a person: it never completes, advances, regresses or retries it. *)
Theorem unknown_status_parks st lr clients w :
  clients_wf clients → (w_task w).(status) = QueueItemStatus.RUNNING →
  (∀ s, st = Some s → s ∉ Status) →
  let m := apply_staged_decision st lr clients in
  result m w = inr true → is_parked (w_task (exec m w)).(status) = true.
Proof.
  intros Hwf Hrun Hst m Hres.
  destruct (apply_routed st lr clients w Hwf Hrun) as (r & Hr & Ho). fold m in Hr, Ho.
  rewrite Hres in Hr. injection Hr as <-.
  destruct Ho as (o & u & Hne & Hu & Hm). destruct o; [done| |].
  - unfold rules_outcome in Hm.
    destruct rule_sets_in_vocabulary as (V1 & V2 & V3 & V4 & V5 & V6).
    assert (Hx : ∀ x, x ∈ Status → opt_is st x = false).
    { intros x Hx. destruct (opt_is st x) eqn:Ex; [|done].
      apply opt_is_true in Ex. by destruct (Hst x Ex). }
    rewrite (unknown_not_in st _ V1 Hst), (unknown_not_in st _ V2 Hst),
      (unknown_not_in st _ V3 Hst), (unknown_not_in st _ V4 Hst), (Hx _ V5), (Hx _ V6) in Hm.
    destruct Hm as (Hp & -> & _). exact Hp.
  - destruct (resolved_parked _ _ _ _ Hu) as (_ & Hp & _). by rewrite Hm.
Qed.

(** a routed claim is charged against the attempt ceiling at most once,
    and not at all when it completes the row, advances it along the pipeline
    or regresses it. *)
Theorem claim_charged_at_most_once st lr clients w :
  clients_wf clients → (w_task w).(status) = QueueItemStatus.RUNNING →
  let m := apply_staged_decision st lr clients in
  let t := w_task w in let t' := w_task (exec m w) in
  (t.(unproductive_attempts) ≤ t'.(unproductive_attempts)
   ≤ t.(unproductive_attempts) + 1)%Z
  ∧ (t'.(unproductive_attempts) ≠ t.(unproductive_attempts) →
     is_parked t'.(status) = true
     ∨ t'.(status) = QueueItemStatus.PENDING
       ∧ as_str (jget "reason" (jget "blocker" lr)) = Some FAMILY_PROVIDER_OVERLOAD).
Proof.
  intros Hwf Hrun m t t'.
  destruct (apply_routed st lr clients w Hwf Hrun) as (r & Hr & Ho). fold m in Hr, Ho.
  assert (Hch : ∀ b, charged b t t' →
            (t.(unproductive_attempts) ≤ t'.(unproductive_attempts)
             ≤ t.(unproductive_attempts) + 1)%Z).
  { intros b Hb. unfold charged in Hb. rewrite Hb. case_match; lia. }
  destruct r.
  - apply routed_final in Ho. fold t' in Ho. fold t in Ho.
    destruct Ho as [b Hp Hb|? Hu|? ? Hu|? ? ? ? ? Hu|b ? Hre Hp Hb|? ? ? Hu];
      try (rewrite Hu; split; [lia|done]).
    + split; [by apply (Hch b)|by left].
    + split; [by apply (Hch b)|by right].
  - destruct Ho as [_ Ho]. unfold t', t. rewrite Ho. cbn. split; [lia|done].
Qed.

(** C4: the FINALIZE self-heal loop is bounded: the regress counter moves only
    by one, only below the cap of 2, only for a "blocked" sentinel with a
    regress-eligible reason, and then the row is PENDING at IMPL. *)
Theorem finalize_regress_capped st lr clients w :
  clients_wf clients → (w_task w).(status) = QueueItemStatus.RUNNING →
  let m := apply_staged_decision st lr clients in
  let t := w_task w in let t' := w_task (exec m w) in
  t'.(regress_attempts) = t.(regress_attempts)
  ∨ (t'.(regress_attempts) = t.(regress_attempts) + 1 ∧ t'.(regress_attempts) ≤ 2)%Z
    ∧ st = Some "blocked" ∧ as_str (jget "reason" (jget "blocker" lr)) = Some "agent_block"
    ∧ t'.(stage) = Stage.IMPL ∧ t'.(status) = QueueItemStatus.PENDING.
Proof.
  intros Hwf Hrun m t t'.
  destruct (apply_routed st lr clients w Hwf Hrun) as (r & Hr & Ho). fold m in Hr, Ho.
  destruct r.
  - apply routed_final in Ho. fold t' in Ho. fold t in Ho.
    destruct Ho as [| | |? Hin Hcap ? ? ? Hre| |]; try (by left).
    right. apply opt_in_true in Hin as (x & Hx & Hin).
    unfold FINALIZE_REGRESS_BLOCKER_REASONS in Hin.
    apply elem_of_singleton in Hin as ->. unfold FINALIZE_REGRESS_CAP in Hcap.
    split; [split; lia|]. done.
  - left. destruct Ho as [_ Ho]. unfold t', t. by rewrite Ho.
Qed.

(** a routed claim takes the row out of RUNNING, the one exception being
    the fix-loop hand-off of a "blocked" sentinel. *)
Theorem routed_claim_leaves_running st lr clients w :
  clients_wf clients → (w_task w).(status) = QueueItemStatus.RUNNING →
  let m := apply_staged_decision st lr clients in
  result m w = inr true →
  (w_task (exec m w)).(status) ≠ QueueItemStatus.RUNNING
  ∨ st = Some "blocked"
    ∧ as_str (jget "reason" (jget "blocker" lr)) = Some FIX_LOOP_PENDING_DISPATCH.
Proof.
  intros Hwf Hrun m Hres.
  destruct (apply_routed st lr clients w Hwf Hrun) as (r & Hr & Ho). fold m in Hr, Ho.
  rewrite Hres in Hr. injection Hr as <-. apply routed_final in Ho.
  destruct Ho as [b Hp|Hp|? Hp|? ? ? ? Hp|b ? ? Hp|];
    try (left; intros Hx; rewrite Hx in Hp; discriminate Hp).
  by right.
Qed.
End RoutingProps.

(** ** Concrete runs *)

Lemma sample_clients_wf : clients_wf sample_clients.
Proof.
  intros name c H. unfold sample_clients in H. apply lookup_singleton_Some in H as [_ <-].
  split; [apply (bool_decide_unpack _); vm_compute; exact I|].
  intros l p Hl. by apply not_elem_of_nil in Hl.
Qed.

Definition sentinel (status stage_reached : string) : json :=
  JDict [("status", JStr status); ("stage_reached", JStr stage_reached);
         ("health", JDict [("recommendation", JStr "PROCEED")])].

Definition blocked_sentinel (stage_reached reason : string) : json :=
  JDict [("status", JStr "blocked"); ("stage_reached", JStr stage_reached);
         ("blocker", JDict [("reason", JStr reason)])].

Definition start (s : StageT) : World := mkWorld (running_row s) [] 0.

Definition run_sample (st : string) (lr : json) (s : StageT) : World :=
  exec (apply_staged_decision (C := zero_clock) (E := quiet_env) (Some st) lr sample_clients)
    (start s).

Example review_complete_advances :
  let t := w_task (run_sample "stage_complete" (sentinel "stage_complete" "stage3_review")
                     Stage.REVIEW) in
  (t.(stage), t.(status), t.(unproductive_attempts))
  = (Stage.FINALIZE, QueueItemStatus.PENDING, 0%Z).
Proof. vm_compute. reflexivity. Qed.

Example shipped_at_finalize_completes :
  let t := w_task (run_sample "shipped" (sentinel "shipped" "stage5_post_create")
                     Stage.FINALIZE) in
  (t.(stage), t.(status), t.(disposition))
  = (Stage.FINALIZE, QueueItemStatus.COMPLETED, Some "shipped").
Proof. vm_compute. reflexivity. Qed.

Lemma staged_decision_total_witness :
  let m := apply_staged_decision (C := zero_clock) (E := quiet_env)
             (Some "shipped") (sentinel "shipped" "stage1_plan") sample_clients in
  result m (start Stage.REVIEW) = inr false
  ∧ exec m (start Stage.REVIEW)
    = (start Stage.REVIEW) <| w_events :=
        [] ++ [mismatch_event (running_row Stage.REVIEW) (sentinel "shipped" "stage1_plan")] |>.
Proof.
  destruct (@staged_decision_total zero_clock quiet_env (Some "shipped")
              (sentinel "shipped" "stage1_plan") sample_clients (start Stage.REVIEW)
              sample_clients_wf) as [Hr He].
  split; [rewrite Hr; vm_compute; reflexivity|apply He; vm_compute; reflexivity].
Defined.

Lemma ship_checkpoint_witness :
  _should_gate_for_scope_hint (running_row Stage.REVIEW)
    (sentinel "stage_complete" "stage3_review") = false
  ∧ _should_gate_for_review_health (sentinel "stage_complete" "stage3_review") = false.
Proof.
  destruct (@ship_checkpoint zero_clock quiet_env (Some "stage_complete")
              (sentinel "stage_complete" "stage3_review") sample_clients (start Stage.REVIEW)
              sample_clients_wf eq_refl eq_refl) as (_ & _ & Hs & _ & _ & Hh).
  - vm_compute. reflexivity.
  - left. vm_compute. discriminate.
  - split; [exact Hs|apply Hh; left; vm_compute; reflexivity].
Defined.

Lemma completion_is_earned_witness :
  last (resolve_pipeline_stages (running_row Stage.FINALIZE) sample_client)
  = Some Stage.FINALIZE.
Proof.
  destruct (@completion_is_earned zero_clock quiet_env (Some "shipped")
              (sentinel "shipped" "stage5_post_create") sample_clients (start Stage.FINALIZE)
              sample_clients_wf eq_refl) as [Hn|(_ & (c & Hc & Hl) & _)].
  - vm_compute. reflexivity.
  - discriminate Hn.
  - vm_compute in Hc. injection Hc as <-. vm_compute in Hl |- *. exact Hl.
Defined.

Lemma unknown_status_parks_witness :
  is_parked (w_task (exec (apply_staged_decision (C := zero_clock) (E := quiet_env)
    None JNull sample_clients) (start Stage.IMPL))).(status) = true.
Proof.
  apply (@unknown_status_parks zero_clock quiet_env None JNull sample_clients (start Stage.IMPL)
           sample_clients_wf eq_refl).
  - intros s Hs. discriminate Hs.
  - vm_compute. reflexivity.
Defined.

Lemma claim_charged_at_most_once_witness :
  let t' := w_task (run_sample "blocked" (blocked_sentinel "stage2_impl" "impl_failed")
                      Stage.IMPL) in
  (0 ≤ t'.(unproductive_attempts) ≤ 0 + 1)%Z.
Proof.
  exact (proj1 (@claim_charged_at_most_once zero_clock quiet_env (Some "blocked")
                  (blocked_sentinel "stage2_impl" "impl_failed") sample_clients
                  (start Stage.IMPL) sample_clients_wf eq_refl)).
Defined.

Lemma finalize_regress_capped_witness :
  let t' := w_task (run_sample "blocked" (blocked_sentinel "stage4b_pr_create" "agent_block")
                      Stage.FINALIZE) in
  t'.(regress_attempts) = 1%Z ∧ t'.(stage) = Stage.IMPL.
Proof.
  destruct (@finalize_regress_capped zero_clock quiet_env (Some "blocked")
              (blocked_sentinel "stage4b_pr_create" "agent_block") sample_clients
              (start Stage.FINALIZE) sample_clients_wf eq_refl) as [H|([H _] & _ & _ & Hs & _)].
  - exfalso. vm_compute in H. discriminate H.
  - split; [vm_compute; reflexivity|exact Hs].
Defined.

Lemma routed_claim_leaves_running_witness :
  (w_task (run_sample "stage_complete" (sentinel "stage_complete" "stage2_impl") Stage.IMPL)).(status)
  ≠ QueueItemStatus.RUNNING.
Proof.
  destruct (@routed_claim_leaves_running zero_clock quiet_env (Some "stage_complete")
              (sentinel "stage_complete" "stage2_impl") sample_clients (start Stage.IMPL)
              sample_clients_wf eq_refl) as [H|[H _]].
  - vm_compute. reflexivity.
  - exact H.
  - discriminate H.
Defined.

(** ** Two observations *)

(** the empty-diff gate reads the row's own [worktree_path], so for a row
    without one (every dispatch-driven row, as the sibling staleness gate's
    documentation says) it never fires, whatever the branch holds; the
    staleness gate resolves the worktree through the branch instead. *)
Theorem empty_diff_gate_needs_worktree_path {E : GateEnv} task clients :
  _should_gate_for_empty_diff task clients = true →
  ∃ p, task.(worktree_path) = Some p.
Proof.
  unfold _should_gate_for_empty_diff, commits_ahead_of_default.
  destruct (clients !! client task); [|done].
  intros H%bool_decide_eq_true. destruct (worktree_path task); [eauto|done].
Qed.

(** An environment whose only trouble is an empty branch at /wt. *)
Definition empty_branch_env : GateEnv := {|
  branch_worktree := λ _ _ _, Some "/wt";
  git_head := λ _, Some "abc";
  git_rev_count := λ _ _, Some 0%Z;
  git_merge_head := λ _, Some false;
  conflicting_branch := λ _ _, false;
  tolerates_review_move := λ _ _ _ _, false;
  recipe_will_release := λ _ _ _ _, false;
  effective_config := mkOrchestratorConfig "none" "auto" 10 ReapPolicy.SIGNAL_ONLY |}.

Lemma empty_diff_gate_needs_worktree_path_witness :
  ∃ p, ((running_row Stage.REVIEW) <| worktree_path := Some "/wt" |>).(worktree_path) = Some p.
Proof.
  apply (@empty_diff_gate_needs_worktree_path empty_branch_env
           ((running_row Stage.REVIEW) <| worktree_path := Some "/wt" |>) sample_clients).
  vm_compute. reflexivity.
Defined.

(** The consequence on a dispatch-driven row: an empty branch is sent on to
    FINALIZE. *)
Example empty_branch_ships :
  let t := w_task (exec (apply_staged_decision (C := zero_clock) (E := empty_branch_env)
    (Some "stage_complete") (sentinel "stage_complete" "stage3_review") sample_clients)
    (start Stage.REVIEW)) in
  t.(stage) = Stage.FINALIZE.
Proof. vm_compute. reflexivity. Qed.

(** the fix-loop hand-off keeps RUNNING only when the row did not lag: a
    row at IMPL whose session reports the hand-off from REVIEW is walked
    forward first, and the walk's hop leaves it PENDING, claimable by another
    dispatch. *)
Theorem fix_loop_after_walk_is_pending :
  let lr := blocked_sentinel "stage3_review" FIX_LOOP_PENDING_DISPATCH in
  let at_review := w_task (run_sample "blocked" lr Stage.REVIEW) in
  let walked := w_task (run_sample "blocked" lr Stage.IMPL) in
  at_review.(status) = QueueItemStatus.RUNNING
  ∧ walked.(status) = QueueItemStatus.PENDING ∧ walked.(stage) = Stage.REVIEW.
Proof. vm_compute. split_and!; reflexivity. Qed.
