(* ===== verification/LockGuard.v ===== *)
(** * Lock discipline: [cw/_lock_guard.py]

    Each thread keeps a stack of the state-file locks it holds; the guard
    refuses a re-entry, and in debug mode an acquisition out of rank order,
    before anything is opened or pushed.  One thread's run is a computation on
    its stack and on the observer's log; [tryfinally] is Python's
    [try ... finally]. *)

From S2P Require Import Prelude.
From S2P Require Import PyStr.

#[local] Open Scope cw_scope.

Module LockRank.
Inductive LockRank := SESSIONS | STATE | LEAF.

#[export] Instance lock_rank_eq_dec : EqDecision LockRank.
Proof. solve_decision. Defined.

Definition rank_value (r : LockRank) : nat :=
  match r with SESSIONS => 0 | STATE => 1 | LEAF => 2 end.

Definition rank_name (r : LockRank) : string :=
  match r with SESSIONS => "SESSIONS" | STATE => "STATE" | LEAF => "LEAF" end.
End LockRank.
Export (hints) LockRank.

Record HeldLock := mkHeldLock {
  hl_name : string;
  hl_path : string;
  hl_rank : LockRank.LockRank }.

#[export] Instance HeldLock_eq_dec : EqDecision HeldLock.
Proof. solve_decision. Defined.

Inductive GuardEventKind := GAcquire | GRelease | GReentry | GOrder.

Record GuardEvent := mkGuardEvent {
  ge_kind : GuardEventKind;
  ge_lock : HeldLock;
  ge_held_snapshot : list HeldLock;
  ge_enforced : bool }.

(** [observer] says whether one is installed; an installed observer only
    collects.  [debug] is [CW_LOCK_DEBUG=1].  The thread identity is the
    thread the stack belongs to. *)
Record GuardWorld := mkGuardWorld {
  stack : list HeldLock;
  observer : bool;
  debug : bool;
  guard_log : list GuardEvent;
  warnings : list (HeldLock * list HeldLock) }.

#[export] Instance GuardWorld_eta : RecordEta GuardWorld := λ w,
  mkGuardWorld w.(stack) w.(observer) w.(debug) w.(guard_log) w.(warnings).
#[export] Instance upd_stack : Updater stack := ltac:(derive_updater).
#[export] Instance upd_observer : Updater observer := ltac:(derive_updater).
#[export] Instance upd_guard_log : Updater guard_log := ltac:(derive_updater).
#[export] Instance upd_warnings : Updater warnings := ltac:(derive_updater).

(** [try: m  finally: f]: an exception of [f] replaces the outcome of [m]. *)
Definition tryfinally {S A} (m : M S A) (f : M S unit) : M S A := λ s,
  let '(r, s1) := m s in
  match f s1 with
  | (inl e, s2) => (inl e, s2)
  | (inr _, s2) => (r, s2)
  end.

Definition set_observer (b : bool) : M GuardWorld bool :=
  previous ← gets observer;
  modify (λ w, w <| observer := b |>) ;;
  mret previous.

Definition held_locks : M GuardWorld (list HeldLock) := gets stack.

Definition is_rank_held (rank : LockRank.LockRank) : M GuardWorld bool :=
  gets (λ w, existsb (λ h, bool_decide (h.(hl_rank) = rank)) w.(stack)).

Definition _emit (kind : GuardEventKind) (lock : HeldLock) (snapshot : list HeldLock)
  (enforced : bool) : M GuardWorld unit :=
  obs ← gets observer;
  when obs
    (modify (λ w, w <| guard_log := w.(guard_log) ++ [mkGuardEvent kind lock snapshot enforced] |>)).

Definition _names (held : list HeldLock) : list string := map hl_name held.

Definition path_held (path : string) (held : list HeldLock) : bool :=
  existsb (λ h, String.eqb h.(hl_path) path) held.

Definition _check_reentry (lock : HeldLock) (held : list HeldLock) : M GuardWorld unit :=
  if negb (path_held lock.(hl_path) held) then mret tt
  else
    _emit GReentry lock held false ;;
    raise (CwLockReentrancyError lock.(hl_name) (_names held)).

(** [next((h for h in held if p(h)), None)]. *)
Definition next_held (p : HeldLock → bool) (held : list HeldLock) : option HeldLock :=
  List.find p held.

Definition _order_message (lock : HeldLock) (held : list HeldLock) : option string :=
  let stack := str_join ", " (_names held) in
  let rank := LockRank.rank_name lock.(hl_rank) in
  match next_held (λ h, bool_decide (h.(hl_rank) = LockRank.LEAF)) held with
  | Some leaf =>
      Some ("lock order violation: acquiring " +:+ py_repr (Some lock.(hl_name))
            +:+ " (rank " +:+ rank +:+ ", " +:+ lock.(hl_path)
            +:+ ") while holding leaf lock " +:+ py_repr (Some leaf.(hl_name))
            +:+ "; nothing may be acquired while a leaf lock is held. Held, outermost first: "
            +:+ stack +:+ ". See ADR-0019.")
  | None =>
      match next_held (λ h, Nat.ltb (LockRank.rank_value lock.(hl_rank))
                              (LockRank.rank_value h.(hl_rank))) held with
      | None => None
      | Some higher =>
          Some ("lock order violation: acquiring " +:+ py_repr (Some lock.(hl_name))
                +:+ " (rank " +:+ rank +:+ ", " +:+ lock.(hl_path) +:+ ") while holding "
                +:+ py_repr (Some higher.(hl_name)) +:+ " (rank "
                +:+ LockRank.rank_name higher.(hl_rank)
                +:+ "); locks must be acquired in non-decreasing rank"
                +:+ " (sessions, state, leaf). Held, outermost first: "
                +:+ stack +:+ ". See ADR-0019.")
      end
  end.

Definition _warn_order (lock : HeldLock) (held : list HeldLock) : M GuardWorld unit :=
  modify (λ w, w <| warnings := w.(warnings) ++ [(lock, held)] |>).

Definition _check_order (lock : HeldLock) (held : list HeldLock) : M GuardWorld unit :=
  match _order_message lock held with
  | None => mret tt
  | Some _ =>
      enforced ← gets debug;
      _emit GOrder lock held enforced ;;
      if (enforced : bool) then raise (CwLockOrderError lock.(hl_name) (_names held))
      else _warn_order lock held
  end.

(** [stack.remove(lock)]: the first equal element; a [ValueError] without one. *)
Fixpoint remove_first (x : HeldLock) (l : list HeldLock) : option (list HeldLock) :=
  match l with
  | [] => None
  | y :: l' => if decide (x = y) then Some l' else cons y <$> remove_first x l'
  end.

Definition pop_lock (lock : HeldLock) : M GuardWorld unit :=
  s ← gets stack;
  match remove_first lock s with
  | None => raise ValueError
  | Some s' => modify (λ w, w <| stack := s' |>) ;; _emit GRelease lock s' false
  end.

(** The context manager around its block. *)
Definition lock_guard {A} (name path : string) (rank : LockRank.LockRank)
  (block : M GuardWorld A) : M GuardWorld A :=
  let lock := mkHeldLock name path rank in
  held ← gets stack;
  _check_reentry lock held ;;
  _check_order lock held ;;
  modify (λ w, w <| stack := w.(stack) ++ [lock] |>) ;;
  tryfinally (_emit GAcquire lock held false ;; block) (pop_lock lock).

(** ** The order check *)

Lemma find_None {A} (p : A → bool) l : List.find p l = None ↔ Forall (λ x, p x = false) l.
Proof.
  induction l as [|x l IH]; [done|]. cbn. rewrite Forall_cons. destruct (p x); naive_solver.
Qed.

(** The guard accepts a lock over a stack in debug mode. *)
Definition admits (lock : HeldLock) (held : list HeldLock) : Prop :=
  path_held lock.(hl_path) held = false ∧ _order_message lock held = None.

Lemma order_message_None lock held :
  _order_message lock held = None ↔
  Forall (λ h, h.(hl_rank) ≠ LockRank.LEAF
               ∧ LockRank.rank_value h.(hl_rank) ≤ LockRank.rank_value lock.(hl_rank)) held.
Proof.
  rewrite Forall_and. unfold _order_message, next_held. cbv zeta.
  destruct (List.find (λ h, bool_decide (hl_rank h = LockRank.LEAF)) held) eqn:E1.
  - split; [done|]. intros [Hl _]. exfalso.
    assert (Hn : List.find (λ h, bool_decide (hl_rank h = LockRank.LEAF)) held = None).
    { apply find_None. eapply Forall_impl; [exact Hl|]. intros y Hy. by apply bool_decide_eq_false. }
    by rewrite Hn in E1.
  - apply find_None in E1.
    assert (Hl : Forall (λ h, hl_rank h ≠ LockRank.LEAF) held).
    { eapply Forall_impl; [exact E1|]. intros y Hy. by apply bool_decide_eq_false in Hy. }
    destruct (List.find _ held) eqn:E2.
    + split; [done|]. intros [_ Hr]. exfalso.
      apply List.find_some in E2 as [Hin Hlt]. apply Nat.ltb_lt in Hlt.
      rewrite Forall_forall in Hr. apply list_elem_of_In in Hin. specialize (Hr _ Hin). lia.
    + apply find_None in E2. split; [|done]. intros _. split; [done|].
      eapply Forall_impl; [exact E2|]. intros y Hy. apply Nat.ltb_ge in Hy. done.
Qed.

Lemma path_held_false path held :
  path_held path held = false ↔ path ∉ map hl_path held.
Proof.
  unfold path_held. induction held as [|h held IH]; cbn.
  { split; [|done]. intros _ H. by apply not_elem_of_nil in H. }
  rewrite orb_false_iff, String.eqb_neq, IH, elem_of_cons. naive_solver.
Qed.

Lemma remove_last lock held :
  lock ∉ held → remove_first lock (held ++ [lock]) = Some held.
Proof.
  induction held as [|h held IH]; cbn; intros Hn; [by rewrite decide_True|].
  rewrite decide_False by set_solver. rewrite IH by set_solver. done.
Qed.

(** Every lock was admitted over the locks below it. *)
Definition disciplined (held : list HeldLock) : Prop :=
  ∀ i lock, held !! i = Some lock → admits lock (take i held).

Lemma disciplined_snoc held lock :
  disciplined held → admits lock held → disciplined (held ++ [lock]).
Proof.
  intros Hd Ha i l Hi. apply lookup_snoc_Some in Hi as [[Hlt Hi]|[-> <-]].
  - rewrite take_app_le by lia. by apply Hd.
  - by rewrite take_app_length.
Qed.

(** ** Blocks and programs *)

(** The block gives the stack back, whatever its outcome. *)
Definition stack_neutral {A} (m : M GuardWorld A) : Prop :=
  ∀ w, NoDup (map hl_path w.(stack)) → (exec m w).(stack) = w.(stack).

Lemma emit_run k l s b w :
  _emit k l s b w
  = (inr tt, if w.(observer)
             then w <| guard_log := w.(guard_log) ++ [mkGuardEvent k l s b] |> else w).
Proof. unfold _emit, mbind, M_bind, gets, when. by destruct (observer w). Qed.

Lemma emit_stack k l s b w : (exec (_emit k l s b) w).(stack) = w.(stack).
Proof. unfold exec. rewrite emit_run. by destruct (observer w). Qed.

(** The world an accepted acquisition enters its block with. *)
Definition entered (lock : HeldLock) (held : list HeldLock) (w : GuardWorld) : GuardWorld :=
  exec (_emit GAcquire lock held false) (w <| stack := w.(stack) ++ [lock] |>).

Lemma check_order_run lock held w :
  _check_order lock held w
  = match _order_message lock held with
    | None => (inr tt, w)
    | Some _ =>
        let w1 := exec (_emit GOrder lock held w.(debug)) w in
        if w.(debug) then (inl (CwLockOrderError lock.(hl_name) (_names held)), w1)
        else (inr tt, w1 <| warnings := w1.(warnings) ++ [(lock, held)] |>)
    end.
Proof.
  unfold _check_order, exec. destruct (_order_message lock held); [|done].
  unfold mbind, M_bind, gets. cbv zeta. rewrite emit_run. by destruct (debug w).
Qed.

Section Guard.
Context {A : Type} (name path : string) (rank : LockRank.LockRank) (block : M GuardWorld A).
Let lock := mkHeldLock name path rank.

Lemma guard_reentry w :
  path_held path w.(stack) = true →
  lock_guard name path rank block w
  = (inl (CwLockReentrancyError name (_names w.(stack))),
     exec (_emit GReentry lock w.(stack) false) w).
Proof.
  intros Hp. unfold lock_guard, _check_reentry, mbind, M_bind, gets, exec. cbn [hl_path].
  rewrite Hp. cbn [negb]. fold lock. by rewrite emit_run.
Qed.

Lemma guard_order w :
  path_held path w.(stack) = false → _order_message lock w.(stack) ≠ None →
  w.(debug) = true →
  lock_guard name path rank block w
  = (inl (CwLockOrderError name (_names w.(stack))),
     exec (_emit GOrder lock w.(stack) true) w).
Proof.
  intros Hp Ho Hd. unfold lock_guard, _check_reentry, mbind, M_bind, gets. cbn [hl_path].
  rewrite Hp. cbn [negb mret M_ret]. rewrite check_order_run. fold lock. rewrite Hd.
  by destruct (_order_message lock (stack w)).
Qed.

Lemma pop_last s w :
  lock ∉ s → w.(stack) = s ++ [lock] →
  pop_lock lock w = (inr tt, exec (_emit GRelease lock s false) (w <| stack := s |>)).
Proof.
  intros Hn Hs. unfold pop_lock, mbind, M_bind, gets. rewrite Hs, remove_last by done.
  unfold modify, exec. by rewrite emit_run.
Qed.

(** An accepted acquisition runs the block over the pushed lock. *)
Lemma guard_accepts w :
  path_held path w.(stack) = false →
  (_order_message lock w.(stack) = None ∨ w.(debug) = false) →
  NoDup (map hl_path w.(stack)) → stack_neutral block →
  ∃ w0, w0.(stack) = w.(stack) ∧ w0.(debug) = w.(debug)
    ∧ (_order_message lock w.(stack) = None → w0 = w)
    ∧ let w1 := entered lock w.(stack) w0 in
      w1.(stack) = w.(stack) ++ [lock]
      ∧ result (lock_guard name path rank block) w = result block w1
      ∧ exec (lock_guard name path rank block) w
        = exec (_emit GRelease lock w.(stack) false)
            ((exec block w1) <| stack := w.(stack) |>).
Proof.
  intros Hp Ho Hnd Hb.
  assert (Hck : ∃ w0, _check_order lock w.(stack) w = (inr tt, w0) ∧ w0.(stack) = w.(stack)
                      ∧ w0.(debug) = w.(debug)
                      ∧ (_order_message lock w.(stack) = None → w0 = w)).
  { rewrite check_order_run. destruct (_order_message lock w.(stack)) eqn:E; [|by eexists].
    destruct Ho as [|Hd]; [done|]. cbv zeta. rewrite Hd. eexists. split; [done|].
    unfold exec. rewrite emit_run. by destruct (observer w). }
  destruct Hck as (w0 & Hck & Hs0 & Hd0 & Hw0). exists w0. split; [done|]. split; [done|].
  split; [done|]. cbv zeta.
  set (w1 := entered lock w.(stack) w0).
  assert (Hs1 : w1.(stack) = w.(stack) ++ [lock]).
  { unfold w1, entered. rewrite emit_stack. cbn [stack]. by rewrite <- Hs0. }
  assert (Hnd1 : NoDup (map hl_path w1.(stack))).
  { rewrite Hs1, map_app. apply NoDup_app. split; [done|]. split; [|apply NoDup_singleton].
    intros x Hx ->%list_elem_of_singleton. by apply path_held_false in Hp. }
  assert (Hnin : lock ∉ w.(stack)).
  { intros Hin. apply path_held_false in Hp. apply Hp. by apply (list_elem_of_fmap_2 hl_path) in Hin. }
  pose proof (Hb w1 Hnd1) as Hn.
  assert (Hrun : lock_guard name path rank block w
    = tryfinally (_emit GAcquire lock w.(stack) false ;; block) (pop_lock lock)
        (w0 <| stack := w0.(stack) ++ [lock] |>)).
  { unfold lock_guard at 1, mbind at 1, M_bind at 1, gets at 1, _check_reentry.
    cbn [hl_path]. rewrite Hp. cbn [negb]. unfold mbind at 1, M_bind at 1. cbn [mret M_ret].
    unfold mbind at 1, M_bind at 1. fold lock. rewrite Hck. reflexivity. }
  assert (Hin : (_emit GAcquire lock w.(stack) false ;; block)
                  (w0 <| stack := w0.(stack) ++ [lock] |>) = block w1).
  { unfold mbind, M_bind, w1, entered, exec. rewrite !emit_run. reflexivity. }
  split; [done|]. unfold result, exec. rewrite Hrun. unfold tryfinally. rewrite Hin.
  unfold exec in Hn. destruct (block w1) as [r w2]. cbn [snd fst] in *.
  rewrite (pop_last w.(stack)); [done|done|by rewrite Hn].
Qed.
End Guard.

(** A thread's program: its guarded blocks, in the order it enters them. *)
Inductive guard_prog :=
  | PDone
  | PRaise (e : exn)
  | PSeq (p q : guard_prog)
  | PGuarded (name path : string) (rank : LockRank.LockRank) (p : guard_prog).

Fixpoint run_prog (p : guard_prog) : M GuardWorld unit :=
  match p with
  | PDone => mret tt
  | PRaise e => raise e
  | PSeq p q => run_prog p ;; run_prog q
  | PGuarded name path rank p => lock_guard name path rank (run_prog p)
  end.

(** The exceptions a program raises of its own. *)
Fixpoint prog_raises (p : guard_prog) : list exn :=
  match p with
  | PDone => []
  | PRaise e => [e]
  | PSeq p q => prog_raises p ++ prog_raises q
  | PGuarded _ _ _ p => prog_raises p
  end.

Definition is_lock_refusal (e : exn) : bool :=
  match e with CwLockReentrancyError _ _ | CwLockOrderError _ _ => true | _ => false end.

Definition guard_ok (e : GuardEvent) : Prop :=
  e.(ge_kind) = GAcquire → disciplined (e.(ge_held_snapshot) ++ [e.(ge_lock)]).

(** What a run promises from a world with distinct held paths: the stack and
    the flags come back, an exception is the program's own or a refusal, and
    in debug mode over a disciplined stack every acquisition is disciplined. *)
Definition run_promise {A} (own : list exn) (m : M GuardWorld A) : Prop :=
  ∀ w, NoDup (map hl_path w.(stack)) →
    let w' := exec m w in
    w'.(stack) = w.(stack) ∧ w'.(debug) = w.(debug)
    ∧ (∀ e, result m w = inl e → e ∈ own ∨ is_lock_refusal e = true)
    ∧ (w.(debug) = true → disciplined w.(stack) →
       ∃ evs, w'.(guard_log) = w.(guard_log) ++ evs ∧ Forall guard_ok evs).

Lemma emit_promise k l s b w :
  (k = GAcquire → disciplined (s ++ [l])) →
  let w' := exec (_emit k l s b) w in
  w'.(stack) = w.(stack) ∧ w'.(debug) = w.(debug)
  ∧ ∃ evs, w'.(guard_log) = w.(guard_log) ++ evs ∧ Forall guard_ok evs.
Proof.
  intros Hk. cbv zeta. unfold exec. rewrite emit_run. destruct (observer w).
  - split_and!; [done..|]. eexists [_]. split; [done|]. by constructor.
  - split_and!; [done..|]. exists []. by rewrite app_nil_r.
Qed.

Lemma promise_seq {A B} own1 own2 (m : M GuardWorld A) (k : M GuardWorld B) :
  run_promise own1 m → run_promise own2 k → run_promise (own1 ++ own2) (m ;; k).
Proof.
  intros Hm Hk w Hnd. cbv zeta. destruct (Hm w Hnd) as (S1 & D1 & E1 & L1).
  unfold result, exec, mbind, M_bind in *. destruct (m w) as [[e|a] w1]; cbn [fst snd] in *.
  - split_and!; [done|done|..].
    + intros e' [= <-]. destruct (E1 e eq_refl); [left; set_solver|by right].
    + done.
  - rewrite <- S1 in Hnd. destruct (Hk w1 Hnd) as (S2 & D2 & E2 & L2).
    unfold result, exec in *. destruct (k w1) as [r w2]; cbn [fst snd] in *.
    split_and!; [congruence|congruence|..].
    + intros e Hr. destruct (E2 e Hr); [left; set_solver|by right].
    + intros Hd Hdis. destruct (L1 Hd Hdis) as (evs1 & G1 & F1).
      rewrite D1, S1 in L2. destruct (L2 Hd Hdis) as (evs2 & G2 & F2).
      exists (evs1 ++ evs2). rewrite G2, G1, app_assoc. split; [done|by apply Forall_app].
Qed.

Lemma promise_guard {A} own name path rank (block : M GuardWorld A) :
  run_promise own block → run_promise own (lock_guard name path rank block).
Proof.
  intros Hb w Hnd. cbv zeta. set (lock := mkHeldLock name path rank).
  assert (Hrefuse : ∀ (e : exn) k b, is_lock_refusal e = true → k ≠ GAcquire →
    lock_guard name path rank block w = (inl e, exec (_emit k lock w.(stack) b) w) →
    let w' := exec (lock_guard name path rank block) w in
    w'.(stack) = w.(stack) ∧ w'.(debug) = w.(debug)
    ∧ (∀ e, result (lock_guard name path rank block) w = inl e → e ∈ own ∨ is_lock_refusal e = true)
    ∧ (w.(debug) = true → disciplined w.(stack) →
       ∃ evs, w'.(guard_log) = w.(guard_log) ++ evs ∧ Forall guard_ok evs)).
  { intros e k b He Hk Hrun. cbv zeta. unfold result. rewrite (surjective_pairing (lock_guard _ _ _ _ _)) in Hrun.
    injection Hrun as H1 H2. unfold exec at 1 2 3. rewrite H2, H1.
    destruct (emit_promise k lock w.(stack) b w) as (P1 & P2 & P3); [by intros|].
    split_and!; [done|done| |done]. intros e' [= <-]. by right. }
  destruct (path_held path w.(stack)) eqn:Hp;
    [by eapply Hrefuse; [| |apply guard_reentry]|].
  destruct (decide (_order_message lock w.(stack) = None ∨ w.(debug) = false)) as [Ho|Ho]; cycle 1.
  { apply Decidable.not_or in Ho as [Ho Hd]. apply not_false_is_true in Hd.
    by eapply Hrefuse; [| |apply guard_order]. }
  clear Hrefuse. assert (Hn : stack_neutral block) by (intros w1 Hw1; apply (Hb w1 Hw1)).
  destruct (guard_accepts name path rank block w Hp Ho Hnd Hn)
    as (w0 & S0 & D0 & W0 & S1 & R1 & X1). cbv zeta in S1, R1, X1.
  fold lock in W0, S1, R1, X1, Ho.
  rewrite R1, X1. set (w1 := entered lock w.(stack) w0) in *.
  assert (Hd1 : w1.(debug) = w.(debug)).
  { rewrite <- D0. unfold w1, entered, exec. rewrite emit_run. by destruct (observer _). }
  assert (Hnd1 : NoDup (map hl_path w1.(stack))).
  { rewrite S1, map_app. apply NoDup_app. split; [done|]. split; [|apply NoDup_singleton].
    intros x Hx ->%list_elem_of_singleton. by apply path_held_false in Hp. }
  destruct (Hb w1 Hnd1) as (S2 & D2 & E2 & L2).
  destruct (emit_promise GRelease lock w.(stack) false
    ((exec block w1) <| stack := w.(stack) |>)) as (P1 & P2 & evs3 & P3 & F3); [done|].
  split_and!; [done|by rewrite P2; cbn; congruence|done|].
  intros Hd Hdis. destruct Ho as [Ho|]; [|congruence].
  assert (Hdl : disciplined (w.(stack) ++ [lock])) by by apply disciplined_snoc.
  destruct L2 as (evs2 & L2 & F2); [congruence|by rewrite S1|].
  destruct (emit_promise GAcquire lock w.(stack) false
    (w0 <| stack := w0.(stack) ++ [lock] |>)) as (_ & _ & evs1 & L1 & F1); [done|].
  exists (evs1 ++ evs2 ++ evs3). split; [|by rewrite !Forall_app].
  rewrite P3. cbn [guard_log]. change (guard_log (exec block w1) ++ evs3
    = guard_log w ++ evs1 ++ evs2 ++ evs3).
  rewrite L2. fold (entered lock w.(stack) w0) in L1. fold w1 in L1. rewrite L1.
  rewrite W0 by done. cbn. by rewrite !app_assoc.
Qed.

Lemma prog_promise p : run_promise (prog_raises p) (run_prog p).
Proof.
  induction p as [|e|p IHp q IHq|name path rank p IH]; cbn [run_prog prog_raises].
  - intros w Hnd. split_and!; [done|done|done|]. exists []. by rewrite app_nil_r.
  - intros w Hnd. split_and!; [done|done| |].
    + intros e' [= <-]. left. set_solver.
    + exists []. by rewrite app_nil_r.
  - by apply promise_seq.
  - by apply promise_guard.
Qed.

(** ** Waiting threads *)

(** A thread stopped in [flock] behind the guard. *)
Record thread := mkThread { t_held : list HeldLock; t_wants : HeldLock }.

(** [t] waits for a lock file that [u] holds. *)
Definition waits_for (t u : thread) : Prop := t.(t_wants) ∈ u.(t_held).

(** The waiting relation of threads a debug-mode guard let through. *)
Definition guarded_wait (t u : thread) : Prop :=
  admits t.(t_wants) t.(t_held) ∧ admits u.(t_wants) u.(t_held) ∧ waits_for t u.

Definition wanted_rank (t : thread) : nat := LockRank.rank_value t.(t_wants).(hl_rank).

Lemma guarded_wait_rank t u :
  guarded_wait t u → wanted_rank t ≤ wanted_rank u ∧ t.(t_wants).(hl_rank) ≠ LockRank.LEAF.
Proof.
  intros (_ & [_ Ho] & Hw). apply order_message_None in Ho. rewrite Forall_forall in Ho.
  destruct (Ho _ Hw). by split.
Qed.

Lemma guarded_chain_rank t u : tc guarded_wait t u → wanted_rank t ≤ wanted_rank u.
Proof.
  induction 1 as [t u H|t u v H _ IH]; apply guarded_wait_rank in H as [H _]; [done|lia].
Qed.

(** ** Properties *)

(** a guarded block is entered exactly when its file is not already held
    by the thread and, in debug mode, the order allows it; a refusal raises
    the re-entry or order error before anything is pushed; an accepted block
    runs over the pushed lock, its outcome, an exception included, is the
    guard's, and the stack is as before. *)
Theorem lock_guard_outcome {A} name path rank (block : M GuardWorld A) w :
  NoDup (map hl_path w.(stack)) → stack_neutral block →
  let lock := mkHeldLock name path rank in
  let m := lock_guard name path rank block in
  (exec m w).(stack) = w.(stack)
  ∧ (path ∈ map hl_path w.(stack) →
     result m w = inl (CwLockReentrancyError name (_names w.(stack))))
  ∧ (path ∉ map hl_path w.(stack) → w.(debug) = true → _order_message lock w.(stack) ≠ None →
     result m w = inl (CwLockOrderError name (_names w.(stack))))
  ∧ (path ∉ map hl_path w.(stack) →
     w.(debug) = false ∨ _order_message lock w.(stack) = None →
     ∃ w1, w1.(stack) = w.(stack) ++ [lock] ∧ result m w = result block w1).
Proof.
  intros Hnd Hb. cbv zeta. rewrite <- path_held_false.
  assert (Hin : path ∈ map hl_path w.(stack) ↔ path_held path w.(stack) = true).
  { rewrite <- not_false_iff_true, path_held_false.
    split; [tauto|]. destruct (decide (path ∈ map hl_path w.(stack))); tauto. }
  rewrite Hin. unfold result.
  destruct (path_held path w.(stack)) eqn:Hp.
  { rewrite guard_reentry by done. split_and!; [|done..]. unfold exec.
    rewrite guard_reentry by done. apply emit_stack. }
  destruct (decide (_order_message (mkHeldLock name path rank) w.(stack) = None
                    ∨ w.(debug) = false)) as [Ho|Ho].
  - destruct (guard_accepts name path rank block w Hp Ho Hnd Hb)
      as (w0 & S0 & D0 & _ & S1 & R1 & X1). cbv zeta in *.
    split_and!; [|done| |intros _ _; by eexists].
    + rewrite X1. etrans; [apply emit_stack|done].
    + intros _ Hd Hm. destruct Ho; congruence.
  - apply Decidable.not_or in Ho as [Ho Hd]. apply not_false_is_true in Hd.
    split_and!; [|done| |].
    + unfold exec. rewrite guard_order by done. apply emit_stack.
    + intros. by rewrite guard_order.
    + intros _ [?|?]; congruence.
Qed.

(** over any program of nested and sequenced guarded blocks, exceptions
    included, the thread's held stack is given back exactly, the only
    exceptions the guard adds are its two refusals, and in debug mode every
    observed acquisition is over distinct files in non-decreasing rank with
    no leaf lock held below it. *)
Theorem guarded_programs_disciplined p w :
  NoDup (map hl_path w.(stack)) →
  let w' := exec (run_prog p) w in
  w'.(stack) = w.(stack)
  ∧ (∀ e, result (run_prog p) w = inl e → e ∈ prog_raises p ∨ is_lock_refusal e = true)
  ∧ (w.(debug) = true → disciplined w.(stack) →
     ∃ evs, w'.(guard_log) = w.(guard_log) ++ evs
       ∧ ∀ e, e ∈ evs → e.(ge_kind) = GAcquire →
           e.(ge_lock).(hl_path) ∉ map hl_path e.(ge_held_snapshot)
           ∧ ∀ h, h ∈ e.(ge_held_snapshot) →
               h.(hl_rank) ≠ LockRank.LEAF
               ∧ LockRank.rank_value h.(hl_rank) ≤ LockRank.rank_value e.(ge_lock).(hl_rank)).
Proof.
  intros Hnd. cbv zeta. destruct (prog_promise p w Hnd) as (S1 & _ & E1 & L1).
  split_and!; [done|done|]. intros Hd Hdis. destruct (L1 Hd Hdis) as (evs & Hl & Hev).
  exists evs. split; [done|]. intros e He Hk. rewrite Forall_forall in Hev.
  specialize (Hev e He Hk (length e.(ge_held_snapshot)) e.(ge_lock)).
  rewrite take_app_length in Hev. destruct Hev as [Hp Ho].
  { rewrite lookup_app_r, Nat.sub_diag by lia. done. }
  split; [by apply path_held_false|]. intros h Hh.
  apply order_message_None in Ho. rewrite Forall_forall in Ho. by apply Ho.
Qed.

(** ranks rule out most deadlocks: threads that a debug-mode guard let
    through and that wait for each other in a cycle all want locks of one and
    the same rank, and never a leaf lock; so no cycle crosses ranks. *)
Theorem deadlock_within_one_rank t u :
  tc guarded_wait t u → tc guarded_wait u t →
  t.(t_wants).(hl_rank) = u.(t_wants).(hl_rank) ∧ t.(t_wants).(hl_rank) ≠ LockRank.LEAF.
Proof.
  intros Htu Hut. pose proof (guarded_chain_rank _ _ Htu). pose proof (guarded_chain_rank _ _ Hut).
  assert (Hl : t.(t_wants).(hl_rank) ≠ LockRank.LEAF).
  { destruct Htu as [t u Hw|t u v Hw _]; by apply guarded_wait_rank in Hw as [_ Hl]. }
  split; [|done]. unfold wanted_rank in *.
  destruct (hl_rank (t_wants t)), (hl_rank (t_wants u)); cbn in *; done || lia.
Qed.

(** ** Witnesses *)

Definition sessions_lock : HeldLock := mkHeldLock "sessions" "/s/sessions.lock" LockRank.SESSIONS.
Definition queue_lock : HeldLock := mkHeldLock "dev_queue" "/s/dev_queue.lock" LockRank.STATE.
Definition plan_lock : HeldLock := mkHeldLock "plan" "/s/plan.lock" LockRank.STATE.
Definition debug_world (s : list HeldLock) : GuardWorld := mkGuardWorld s true true [] [].

(** Under the queue lock, [sessions] is out of order. *)
Example sessions_under_queue :
  _order_message sessions_lock [queue_lock]
  = Some "lock order violation: acquiring 'sessions' (rank SESSIONS, /s/sessions.lock) while holding 'dev_queue' (rank STATE); locks must be acquired in non-decreasing rank (sessions, state, leaf). Held, outermost first: dev_queue. See ADR-0019.".
Proof. vm_compute. reflexivity. Qed.

Lemma lock_guard_outcome_witness :
  let m := lock_guard "sessions" "/s/sessions.lock" LockRank.SESSIONS (mret tt) in
  let w := debug_world [queue_lock] in
  result m w = inl (CwLockOrderError "sessions" ["dev_queue"])
  ∧ (exec m w).(stack) = [queue_lock].
Proof.
  cbv zeta.
  destruct (lock_guard_outcome "sessions" "/s/sessions.lock" LockRank.SESSIONS (mret tt)
              (debug_world [queue_lock])) as (H1 & _ & H3 & _).
  - apply NoDup_singleton.
  - intros w _. reflexivity.
  - split; [|exact H1]. apply H3; [|reflexivity|vm_compute; discriminate].
    apply (bool_decide_unpack _). vm_compute. exact I.
Defined.

(** Two nested locks around an exception, then a second pass. *)
Definition sample_prog : guard_prog :=
  PSeq (PGuarded "sessions" "/s/sessions.lock" LockRank.SESSIONS
          (PGuarded "dev_queue" "/s/dev_queue.lock" LockRank.STATE PDone))
       (PGuarded "dev_queue" "/s/dev_queue.lock" LockRank.STATE
          (PGuarded "plan" "/s/plan.lock" LockRank.STATE (PRaise ValueError))).

Lemma guarded_programs_disciplined_witness :
  let w' := exec (run_prog sample_prog) (debug_world []) in
  w'.(stack) = [] ∧ length w'.(guard_log) = 8
  ∧ result (run_prog sample_prog) (debug_world []) = inl ValueError.
Proof.
  cbv zeta.
  destruct (guarded_programs_disciplined sample_prog (debug_world [])) as (H1 & _ & _).
  - apply NoDup_nil_2.
  - split; [exact H1|]. split; vm_compute; reflexivity.
Defined.

(** The cross order of two state locks: the cycle the ranks do not exclude. *)
Lemma deadlock_within_one_rank_witness :
  let t := mkThread [queue_lock] plan_lock in
  let u := mkThread [plan_lock] queue_lock in
  guarded_wait t u ∧ t.(t_wants).(hl_rank) = u.(t_wants).(hl_rank).
Proof.
  cbv zeta.
  assert (H1 : guarded_wait (mkThread [queue_lock] plan_lock) (mkThread [plan_lock] queue_lock)).
  { split; [|split]; [split; vm_compute; reflexivity..|]. apply list_elem_of_singleton. done. }
  assert (H2 : guarded_wait (mkThread [plan_lock] queue_lock) (mkThread [queue_lock] plan_lock)).
  { split; [|split]; [split; vm_compute; reflexivity..|]. apply list_elem_of_singleton. done. }
  split; [exact H1|].
  exact (proj1 (deadlock_within_one_rank _ _ (tc_once _ _ _ H1) (tc_once _ _ _ H2))).
Defined.
